(* ===== verification/_CoqProject ===== *)
-Q . S2P
Prelude.v
Digest.v
SegmentAllocator.v
IntruQueue.v
Broadcast.v
Reduce.v
Serialization.v
SerializationBounds.v
SerializationWriter.v
FutureCore.v
FutureInvariant.v
FutureUpdates.v
FutureSafety.v
FutureLeave.v
FutureSystem.v
Persona.v
PersonaScopes.v
PersonaSystem.v
CodeSegments.v
CodeSegmentsLookup.v
CodeSegmentsVerify.v
CodeSegmentsSystem.v
CodeSegmentsTokens.v
HandleQueue.v
HandleQueueSafety.v
HandleQueueBurst.v
Progress.v
FutureFrame.v
Teams.v
DistObject.v
DistObjectInvariant.v
DistObjectCalls.v
DistObjectSystem.v
DistObjectReachable.v
Neighborhood.v
DeviceHeaps.v
DeviceHeapsInvariant.v
DeviceHeapsCalls.v
DeviceHeapsAllocators.v
DeviceHeapsSystem.v
GlobalPtr.v
GlobalPtrLaws.v
DeviceAllocator.v
Completions.v
CompletionsHeap.v
CompletionsInvariant.v
CompletionsCalls.v
CompletionsRpc.v
CompletionsSystem.v
CompletionsRuns.v
