(* ===== verification/Prelude.v ===== *)
(** * The UPC++ runtime: a verification library

    UPC++ is a library for programs that run as several processes (ranks) with a
    global address space.  Code that is not communication hardware is in [src/src/]:
    the futures that users chain their work with, the personas that own callbacks, the
    queues those wait in, the collectives built of messages, the allocator of the
    shared segments, and the serialization of what messages carry.  This library
    models those parts as executable definitions and proves them correct.

    THE PARTS AND HOW THEY INTERACT

    A call such as [rpc] serializes its arguments ([serialization.hpp]) into a buffer,
    which the backend sends.  On arrival the backend enqueues a callback in an inbox of
    a persona ([persona.hpp], [lpc.hpp]), which is an intrusive queue
    ([intru_queue.hpp]).  [progress] takes the callbacks out of the inboxes of the
    personas that are active with the thread, and runs them; they fulfill promises, and
    the futures that depend on them ([future/]) run their own callbacks.  What a call is to
    do upon its events is a list of completions ([completion.hpp]); those of a round trip wait as
    dormant callbacks ([lpc_dormant.hpp]) until the results are back.  Collectives
    over a team are trees of such messages: broadcasts of RPCs
    ([backend/gasnet/runtime.cpp]) and reductions ([reduce.hpp]), whose operations
    are named by digests ([digest.hpp]).  Buffers that other ranks may read come from
    the segment allocator ([segment_allocator.cpp]), in host memory or, through device
    heaps and allocators ([device_allocator.hpp]), in that of devices; global pointers
    ([global_ptr.hpp]) name what is in them.

    FILES

    - [Prelude.v] (this file): outcomes of calls and their monad, machine words,
      alignment, sums, the tactics and hint databases that all files share.
    - [Digest.v]: [digest.hpp], [digest.cpp].  [Digest] is [detail::digest] with [eat]
      and its order; [Fnv128] is the hash of code segments.
    - [SegmentAllocator.v]: [segment_allocator.hpp], [segment_allocator.cpp].  Blocks
      are cells of a heap, linked by locations; [allocate] and [deallocate] are the
      loads and stores of the code on the list and on both indices.
    - [IntruQueue.v]: [intru_queue.hpp].  [UnsafeQueue] is [intru_queue<T,none>] on a
      memory of links; [MpscQueue] is the lock-free [intru_queue<T,mpsc>], one step for
      each atomic access of any producer and of the consumer.
    - [Broadcast.v]: [bcast_am_master_eager] and [bcast_am_master_rdzv] of
      [runtime.cpp] with their handlers.  [Tree] is the loop over targets that both use
      through the class [Split]; [Eager] and [Rdzv] are the protocols as systems of
      messages in flight.
    - [Reduce.v]: [reduce_state] of [reduce.hpp].  [BinomialTree] is the arithmetic of
      the tree, [Reduction] the registry, the messages and the completions.
    - [Serialization.v]: [serialization.hpp].  [StorageSize] is [storage_size];
      [Layout] is the bounded writer; [Traits] is [serialize], [ubound], [deserialize]
      and [skip] of the standard types, by recursion on a description of the type.
    - [SerializationBounds.v]: what upper bounds promise ([Ubound]) and when [skip]
      finds the end of a value ([Skip]).
    - [SerializationWriter.v]: the unbounded writer of [serialization.hpp] and
      [serialization.cpp]: [Hunks], and its [Refinement] to the bounded writer.
    - [FutureCore.v]: [future/core.hpp], [core.cpp], and what builds and destroys
      headers in [impl_shref.hpp], [impl_when_all.hpp], [then.hpp], [make_future.hpp],
      [promise.hpp].  [Futures.heap] holds headers and bodies; each operation is one
      definition with the name it has in the code.
    - [FutureInvariant.v], [FutureUpdates.v]: the invariant of that heap (counts and
      shape) and the elementary updates that keep it.  [FutureSafety.v],
      [FutureLeave.v]: the operations of users, and dependents that leave the active
      queue, keep it.
    - [FutureSystem.v]: programs.  [System.exec] is what user code and the loops that
      deplete the active queue do next; the theorems are about what they reach.
    - [Persona.v]: [persona.hpp] and [lpc_inbox] of [lpc.hpp].  [Personas] has the
      fields stored xor-ed as the code stores them, scopes, traversals, sending,
      bursts and [persona_only_progress].
    - [PersonaScopes.v]: stacks of scopes, and that constructors and destructors on
      pointers push and pop.  [PersonaSystem.v]: several threads; the theorems.
    - [CodeSegments.v]: [ccs.hpp], [ccs_fwd.hpp], [ccs.cpp], [global_fnptr.hpp].  The
      table of loaded code segments of a process, the caches of a thread, function
      tokens and their encoding, and what a process does in the collectives
      [verify_segment] and [verify_all].
    - [CodeSegmentsLookup.v], [CodeSegmentsVerify.v]: lookups through the caches and
      verification keep the invariant of a process.  [CodeSegmentsSystem.v]: steps of
      several processes.  [CodeSegmentsTokens.v]: the theorems.
    - [HandleQueue.v]: [backend/gasnet/handle_cb.hpp] and [handle_cb_queue::burst] of
      [runtime.cpp], the callbacks that wait for GASNet handles, linked by pointers to
      fields that also thread through the queue.  [HandleQueueSafety.v]: its invariant.
      [HandleQueueBurst.v]: bursts on lists, the refinement, the theorems.
    - [Progress.v]: [upcxx::progress] and [gasnet::after_gasnet], which put the parts of
      a process together: its handles, the personas of a thread, their inboxes.
    - [Teams.v]: [team.hpp], [team_fwd.hpp], [team.cpp], and the teams that
      [upcxx::init] builds.  [Teams.process] is the registry of names, the teams, the
      distributed objects, and the heap of futures of one process.
    - [DistObject.v]: [dist_object.hpp], and how its promises are fulfilled
      ([backend.hpp], [persona.hpp], [future/core.hpp]).  RPCs that arrive with a
      reference to an object wait for its promise.
    - [FutureFrame.v]: what operations on futures leave as it is.
      [DistObjectInvariant.v]: calls ([exec_call]), and the invariant of a process.
      [DistObjectCalls.v], [DistObjectSystem.v]: the parts of calls, and whole calls,
      keep it.  [DistObjectReachable.v]: what processes reach; the theorems.
    - [Neighborhood.v]: the tables of [runtime.cpp] and [backend.hpp] that translate
      addresses in the segments which neighbors map; both directions.
    - [DeviceHeaps.v]: [device_fwd.hpp], [device_internal.hpp], [cuda.cpp], and the
      constructors, moves and destructors of [device_allocator.hpp]: the table of device
      heaps, with the devices and allocators that it and they point to.
      [DeviceHeapsInvariant.v]: the invariant; [DeviceHeapsCalls.v],
      [DeviceHeapsAllocators.v]: calls on devices and on allocators keep it.
      [DeviceHeapsSystem.v]: sequences of calls; the theorems.
    - [GlobalPtr.v]: [global_ptr.hpp], [global_ptr_impl.hpp], [memberof.hpp], and
      [validate_global_ptr] of [runtime.cpp].  [GlobalPtrLaws.v]: the theorems.
    - [DeviceAllocator.v]: allocation in [device_allocator.hpp], which puts segments,
      heaps and global pointers together, and its theorem.
    - [Completions.v]: the states of completions ([completion.hpp]), dormant callbacks
      ([lpc_dormant.hpp]), [rpc] ([rpc.hpp]), and how promises are fulfilled now, later, and from
      the queues of personas ([backend.hpp], [persona.hpp], [future/core.hpp]).
      [CompletionsHeap.v]: heaps of futures of which the countdowns are known.
      [CompletionsInvariant.v]: who holds which references, requirements and callbacks; the
      invariant.  [CompletionsCalls.v], [CompletionsRpc.v]: the parts of calls keep it.
      [CompletionsSystem.v]: calls and what processes reach; the theorems.
      [CompletionsRuns.v]: what answers and bursts do to queues; runs.

    Calls return a [res]: [Ok], [Aborted] for a failed assertion, [Refused] for memory
    that the system does not have, [Undef] for undefined behaviour such as the use of a
    freed object.  Assertions are as in a build with [UPCXXI_ASSERT_ENABLED].

    WHAT THE THEOREMS SHOW

    - Futures (C1 to C8): no use after free and no failed assertion but for the
      documented misuses of promises and futures; reference counts are exact; nothing
      leaks; callbacks run at most once; values are those of the dependencies; the
      active queue is depleted.
    - Segment allocator: [allocate] and [deallocate] do what an abstract list of blocks
      says, keep it coalesced and both indices consistent, for any sequence of calls.
    - Digests: what a round of [fnv128] computes, for bytes below [0x80]; others are
      sign-extended (an example shows what that changes).
    - Queues: every interleaving of the lock-free queue is memory safe, first-in
      first-out and loses nothing, and its spin loops end; bounded bursts of the
      unsynchronized queue.
    - Broadcasts: every rank runs the RPC exactly once, every payload is freed once
      and not used later.
    - Reductions: every rank contributes exactly once and completes once, in whatever
      order messages arrive.
    - Serialization: deserializing gives back the value; upper bounds suffice; the
      unbounded writer writes what the bounded one does, except for elements aligned
      to more than 8, which can overrun a hunk (an example shows one).
    - Personas: scopes on pointers refine stacks, with the assertions failing exactly
      when a persona is active elsewhere; [during] and [persona_only_progress] do what they promise.
    - Code segments: caches make no difference to the tokens of functions; verified
      segments have the same index at all processes; a function that is sent arrives
      as the same function, whatever happens between.  No two segments of a process
      have the same hash there; an example shows what goes wrong if they do.
    - Handle callbacks: no pointer into a callback that is deleted is followed, though
      callbacks delete themselves and register others in the middle of a burst; each runs
      at most once, and when its handle is done; none is lost; a thread that spins finds
      what is done.
    - Progress: it returns, leaves the thread as it was, and has run every callback
      there was, unless it stopped after a thousand.
    - Teams and distributed objects: the registry always has the active teams and
      objects under their names, and no call, in whatever order users, arriving RPCs and
      progress make them, finds a promise that is gone or takes one thing for another;
      an RPC runs on the object it names, though it may arrive before the object is
      made; progress makes every object available and runs the RPCs that wait for it.
      This needs that different names have different digests ([clash]), that teams are
      destroyed before they are deleted ([left_over], which the code asserts while the
      library is initialized), and that no object moves after its promise was fulfilled ([late_move]):
      [late_move_starves] is a run in which an RPC then waits for ever.  [dist_id::here] of a
      name whose object is not made yet is the one call that reads what is not there
      ([early_here], [here_before_object]).

    - Global pointers: the comparators are one total order, which agrees with equality and
      hashes; arithmetic is exact; an address in a segment of the neighborhood becomes a
      pointer that [local] takes back; pointers to members that are computed here are
      those that the owner would compute.  The address just past a segment makes
      [try_global_ptr] fail ([try_end]), and so does a member of a pointer of any kind ([member_any]).
    - Devices: no sequence of calls and moves leaves a pointer in the table of heaps to an
      object that is gone, or frees device memory twice; processes agree whether an allocation
      failed, and then are as they were before; the search for the largest segment frees what it does not keep; what a
      device allocator gives is aligned, apart from what it gave before, and a valid pointer, whose
      device is found.
    - Completions: no call, answer or burst touches a freed promise or dormant callback; the
      countdown of a promise is what its user requires and what callbacks and queues will
      discharge; when nothing is under way all futures that calls returned are ready and all
      functions that they took have run, once; a call that throws takes back all that it
      did; an answer enqueues the callbacks of its call in order, with the values.  This needs
      that users fulfill no more than what they required ([proper]).

    Theorems named [..._witness] apply a theorem to a concrete run.

    BOUNDS AND FUEL

    Addresses and sizes are [Z] with the wrap-around of 64 bits written out where the
    code computes them ([w64], [w63]); reference counts of futures, countdowns of promises and counters of
    messages are unbounded.  Loops have fuel where recursion is not structural:
    [Tree.fuel_for] is the length of an interval of ranks, which shrinks in each turn;
    [incoming_loop] has 31, the bits of a rank; traversals of scopes have
    [PersonaSystem.enough], one more than there are scopes; bursts have the length of
    the queue.  A burst of handles has
    [HandleBurst.enough], one more than there are callbacks.  [DistObjectReachable.progress]
    has a fuel that exists by the number of promises and waiting callbacks.  The search
    for the largest segment has [search_fuel], as it halves [2^34] bytes down to [2^16].  The bounds of [progress] (1000
    executions, 100 for internal progress) are those of the code, and its fuel is one
    more.  The theorems show that the fuel suffices: the results are [Ok].

    NOT MODELLED

    - Calls to GASNet-EX, and what is built of nothing but such calls: RMA ([rput],
      [rget], [vis], [copy]), atomics, barriers, start-up and shut-down.
    - C++ template dispatch that computes no value at run time: [bind],
      [rpc] overloads, [view], concepts of [serialization_traits]; the strategy that
      they select is an argument of the model.
    - Futures: lazy [then] and trivially ready arguments, which build no header; the nil header.
    - Personas: [persona::lpc], whose future is one of [FutureCore.v].
    - Big-lock variant of the queue; sequentially consistent steps stand for the
      acquire and release accesses of the lock-free one.
    - Code segments: how program headers are read and hashes computed; the lists of
      loaded segments are arguments of the model.  Each call is one step; in the code
      the table is locked and a cache belongs to one thread.
    - Progress: the queues of devices, the yield of oversubscribed processes, and the
      messages that polling GASNet handles, whose effect on inboxes is an argument of
      the model; so is what the bodies of callbacks register.
    - Teams: scratch memory, the quiescence that [destroy] waits for, and [finalize].
      Distributed objects: the master persona fulfills their promises in one queue of
      the model; [dist_object::fetch] is an RPC.
    - Devices: the runtimes of vendors, whose opening of a device and allocation of memory
      are arguments; GASNet endpoints of devices and the cache of their memory kinds; streams and
      queues of events.  [hip.cpp] and [ze.cpp] have the form of [cuda.cpp], which is modelled.
    - Global pointers: printing.  The segments of other processes are what GASNet tells of them.
    - Completions: remote ones ([rpc_cx]), which are functions that are shipped; [rpc_ff]; lists of
      completions passed by reference, which are copied first.  The recipient of an RPC is any answer to a
      call that is in flight, and the burst of a persona one callback after the other, in any order
      of its queues. *)
From Stdlib Require Export ZArith Lia List Bool.
From stdpp Require Export base tactics list gmap.
From stdpp Require Import options.

#[global] Open Scope Z_scope.

(** * Notations, tactics and hint databases *)

Declare Scope upcxx_scope.
Delimit Scope upcxx_scope with upcxx.

Create HintDb upcxx.
Create HintDb word.
Create Rewrite HintDb word.

(** ** Outcomes

    [Ok] is a normal return, [Aborted] a failed [UPCXX_ASSERT], [Refused] the
    abort of a call for which the system has no memory, [Undef] behaviour the
    language leaves undefined (a null or dangling dereference). *)

Inductive res (A : Type) : Type :=
| Ok (a : A)
| Aborted
| Refused
| Undef.
Arguments Ok {A} a.
Arguments Aborted {A}.
Arguments Refused {A}.
Arguments Undef {A}.

#[export] Instance res_ret : MRet res := @Ok.
#[export] Instance res_bind : MBind res := fun A B f m =>
  match m with Ok a => f a | Aborted => Aborted | Refused => Refused | Undef => Undef end.

#[export] Instance res_eq_dec `{EqDecision A} : EqDecision (res A).
Proof. solve_decision. Defined.

Definition deref {A} (o : option A) : res A :=
  match o with Some a => Ok a | None => Undef end.

Definition assert_that (b : bool) : res unit := if b then Ok tt else Aborted.

Lemma bind_ok {A B} (f : A -> res B) m b :
  (m ≫= f) = Ok b <-> exists a, m = Ok a /\ f a = Ok b.
Proof. split; [destruct m; naive_solver|by intros (a & -> & ?)]. Qed.

Lemma deref_ok {A} (o : option A) a : deref o = Ok a <-> o = Some a.
Proof. destruct o; naive_solver. Qed.

(** Running a call for each element of a list. *)
Lemma mapM_ok {A B} (f : A -> res B) l k : mapM f l = Ok k <-> Forall2 (fun x y => f x = Ok y) l k.
Proof.
  revert k. induction l as [|x l IH]; intros k; cbn.
  - split; [intros [= <-]; constructor|by inversion 1].
  - split.
    + intros (y & Hy & (ys & Hys%IH & [= <-])%bind_ok)%bind_ok. by constructor.
    + inversion 1 as [|? y ? ys Hy Hys]; subst. apply bind_ok. exists y. split; [done|]. apply bind_ok. exists ys.
      split; [by apply IH|done].
Qed.

(** Run a computation forwards: rewrite with the facts known about its reads. *)
Ltac mcbn := cbn [mbind res_bind mret res_ret deref assert_that].

(** Take a successful computation apart. *)
Ltac inv_res :=
  repeat match goal with
  | H : (_ ≫= _) = Ok _ |- _ => apply bind_ok in H as (? & ? & ?)
  | H : deref _ = Ok _ |- _ => apply deref_ok in H
  | H : Ok _ = Ok _ |- _ => injection H as H
  | H : Aborted = Ok _ |- _ => discriminate H
  | H : Refused = Ok _ |- _ => discriminate H
  | H : Undef = Ok _ |- _ => discriminate H
  end; simplify_eq.

(** Read a map through the updates made to it. *)
Ltac map_lookups :=
  repeat first
    [ rewrite lookup_insert_eq | rewrite lookup_delete_eq
    | rewrite lookup_insert_ne by (congruence || done)
    | rewrite lookup_delete_ne by (congruence || done) ].

(** ** Machine words

    [std::uint64_t], [std::uintptr_t] and [std::size_t] are integers in
    [0, 2^64); every operation that can wrap is followed by [w64]. *)

Definition w64_mod : Z := 2 ^ 64.
Definition w32_mod : Z := 2 ^ 32.
Definition w64 (z : Z) : Z := z mod w64_mod.
Definition w32 (z : Z) : Z := z mod w32_mod.
Definition is_u64 (z : Z) : Prop := 0 <= z < w64_mod.
Definition is_u32 (z : Z) : Prop := 0 <= z < w32_mod.

Notation "x '+64' y" := (w64 (x + y)) (at level 50, left associativity) : upcxx_scope.
Notation "x '-64' y" := (w64 (x - y)) (at level 50, left associativity) : upcxx_scope.

Lemma w64_mod_pos : 0 < w64_mod.
Proof. reflexivity. Qed.

Lemma w64_range z : is_u64 (w64 z).
Proof. apply Z.mod_pos_bound, w64_mod_pos. Qed.

Lemma w32_range z : is_u32 (w32 z).
Proof. apply Z.mod_pos_bound. reflexivity. Qed.

Lemma w64_small z : is_u64 z -> w64 z = z.
Proof. apply Z.mod_small. Qed.

Lemma w32_small z : is_u32 z -> w32 z = z.
Proof. apply Z.mod_small. Qed.

Lemma w64_idem z : w64 (w64 z) = w64 z.
Proof. apply w64_small, w64_range. Qed.

Lemma w64_add_l x y : w64 (w64 x + y) = w64 (x + y).
Proof. apply Zplus_mod_idemp_l. Qed.

Lemma w64_add_r x y : w64 (x + w64 y) = w64 (x + y).
Proof. apply Zplus_mod_idemp_r. Qed.

Lemma w64_sub_l x y : w64 (w64 x - y) = w64 (x - y).
Proof. apply Zminus_mod_idemp_l. Qed.

Lemma w64_sub_r x y : w64 (x - w64 y) = w64 (x - y).
Proof. apply Zminus_mod_idemp_r. Qed.

Lemma w64_wrap_plus z k : w64 (z + k * w64_mod) = w64 z.
Proof. apply Z_mod_plus_full. Qed.

#[export] Hint Resolve w64_range w32_range : word.
#[export] Hint Rewrite w64_idem w64_add_l w64_add_r w64_sub_l w64_sub_r : word.

Lemma mod_eq_diff a b m : 0 < m -> a mod m = b mod m -> exists q, a - b = q * m.
Proof.
  intros Hm He. exists (a / m - b / m).
  pose proof (Z.div_mod a m). pose proof (Z.div_mod b m). lia.
Qed.

(** Bit-level equality of two integers, one bit at a time. *)

Lemma testbit_above n x i : 0 <= x < 2 ^ n -> n <= i -> Z.testbit x i = false.
Proof.
  intros [H0 H1] Hi. destruct (decide (0 <= n)) as [Hn|Hn].
  - destruct (decide (x = 0)) as [->|]; [apply Z.bits_0|].
    apply Z.bits_above_log2; [lia|]. apply Z.log2_lt_pow2; [lia|].
    apply Z.lt_le_trans with (2 ^ n); [lia|]. apply Z.pow_le_mono_r; lia.
  - rewrite Z.pow_neg_r in H1 by lia. lia.
Qed.

Lemma bits_range n x : 0 <= n -> 0 <= x -> (forall i, n <= i -> Z.testbit x i = false) -> x < 2 ^ n.
Proof.
  intros Hn Hx H. destruct (decide (x = 0)) as [->|]; [apply Z.pow_pos_nonneg; lia|].
  destruct (decide (n <= Z.log2 x)) as [Hl|Hl].
  - specialize (H _ Hl). rewrite Z.bit_log2 in H by lia. done.
  - apply Z.log2_lt_pow2; lia.
Qed.

Lemma land_pow2_test x k : 0 <= k -> (Z.land x (2 ^ k) =? 0) = negb (Z.testbit x k).
Proof.
  intros Hk. destruct (Z.testbit x k) eqn:E.
  - apply Z.eqb_neq. intros H. apply (f_equal (fun z => Z.testbit z k)) in H.
    by rewrite Z.land_spec, E, Z.pow2_bits_true, Z.bits_0 in H.
  - apply Z.eqb_eq, Z.bits_inj'. intros i Hi. rewrite Z.land_spec, Z.bits_0.
    destruct (decide (i = k)) as [->|]; [by rewrite E|]. by rewrite Z.pow2_bits_false, andb_false_r by lia.
Qed.

Lemma lxor_range n x y : 0 <= n -> 0 <= x < 2 ^ n -> 0 <= y < 2 ^ n -> 0 <= Z.lxor x y < 2 ^ n.
Proof.
  intros Hn Hx Hy. assert (0 <= Z.lxor x y) by (apply Z.lxor_nonneg; lia).
  split; [done|]. apply bits_range; [done..|]. intros i Hi.
  rewrite Z.lxor_spec, !(testbit_above n); [done|lia..].
Qed.

Lemma lxor_u64 x y : is_u64 x -> is_u64 y -> is_u64 (Z.lxor x y).
Proof. apply (lxor_range 64). lia. Qed.
#[export] Hint Resolve lxor_u64 : word.

(** ** Alignment

    [(x + a-1) & -a] is the code's idiom for rounding up to a power of two. *)

Definition pow2 (a : Z) : Prop := exists k, 0 <= k /\ a = 2 ^ k.

Definition align_up (x a : Z) : Z := w64 (Z.land (w64 (x + a - 1)) (w64 (- a))).

Definition round_up (x a : Z) : Z := (x + a - 1) / a * a.

Lemma pow2_pos a : pow2 a -> 0 < a.
Proof. intros [k [Hk ->]]. apply Z.pow_pos_nonneg; lia. Qed.

Lemma pow2_divide a b : pow2 a -> pow2 b -> a <= b -> (a | b).
Proof.
  intros (i & Hi & ->) (j & Hj & ->) H. assert (i <= j) by (apply (Z.pow_le_mono_r_iff 2); lia).
  exists (2 ^ (j - i)). rewrite <- Z.pow_add_r by lia. f_equal. lia.
Qed.

Lemma land_opp_pow2 x k : 0 <= k -> Z.land x (- 2 ^ k) = x / 2 ^ k * 2 ^ k.
Proof.
  intros Hk. rewrite <- Z.shiftr_div_pow2, <- Z.shiftl_mul_pow2 by done.
  rewrite <- Z.ldiff_ones_r by done. rewrite Z.ldiff_land.
  f_equal. rewrite Z.ones_equiv. unfold Z.lnot. lia.
Qed.

Lemma round_up_ge x a : 0 < a -> x <= round_up x a.
Proof. intros. unfold round_up. nia || (pose proof (Z.div_mod (x + a - 1) a); pose proof (Z.mod_pos_bound (x + a - 1) a); nia). Qed.

Lemma round_up_lt x a : 0 < a -> round_up x a < x + a.
Proof.
  intros. unfold round_up.
  pose proof (Z.div_mod (x + a - 1) a). pose proof (Z.mod_pos_bound (x + a - 1) a). nia.
Qed.

Lemma round_up_divide x a : (a | round_up x a).
Proof. exists ((x + a - 1) / a). done. Qed.

Lemma round_up_least x a y : 0 < a -> x <= y -> (a | y) -> round_up x a <= y.
Proof.
  intros Ha Hxy [q ->]. unfold round_up.
  enough ((x + a - 1) / a <= q) by nia.
  enough ((x + a - 1) / a < q + 1) by lia. apply Z.div_lt_upper_bound; nia.
Qed.

Lemma round_up_id x a : 0 < a -> (a | x) -> round_up x a = x.
Proof.
  intros Ha Hd. apply Z.le_antisymm; [by apply round_up_least|by apply round_up_ge].
Qed.

Lemma land_w64_opp y k : 0 <= k <= 64 -> is_u64 y ->
  Z.land y (w64 (- 2 ^ k)) = y / 2 ^ k * 2 ^ k.
Proof.
  intros Hk Hy. rewrite <- land_opp_pow2 by lia.
  apply Z.bits_inj'. intros i Hi. rewrite !Z.land_spec. unfold w64, w64_mod.
  destruct (decide (i < 64)).
  - by rewrite Z.mod_pow2_bits_low by lia.
  - rewrite (testbit_above 64 y) by (unfold is_u64, w64_mod in Hy; lia). done.
Qed.

Lemma pow2_w64_exp a : pow2 a -> a < w64_mod -> exists k, 0 <= k < 64 /\ a = 2 ^ k.
Proof.
  intros [k [Hk ->]] Hlt. exists k. repeat split; try lia.
  apply (Z.pow_lt_mono_r_iff 2); [lia..|]. exact Hlt.
Qed.

(** Below the top of the address space the idiom is exact rounding. *)
Lemma align_up_round x a : pow2 a -> 0 <= x -> x + a <= w64_mod -> align_up x a = round_up x a.
Proof.
  intros Ha Hx Hb. pose proof (pow2_pos _ Ha). unfold align_up.
  destruct (decide (a = w64_mod)) as [->|Hne].
  { assert (x = 0) as -> by lia. reflexivity. }
  destruct (pow2_w64_exp a Ha) as [k [Hk ->]]; [lia|].
  rewrite (w64_small (x + _ - 1)) by (unfold is_u64; lia).
  rewrite land_w64_opp by (unfold is_u64 in *; lia). fold (round_up x (2 ^ k)).
  apply w64_small. split.
  - pose proof (round_up_ge x (2 ^ k)). lia.
  - destruct (decide (x = w64_mod - 2 ^ k + 1)) as [->|].
    + lia.
    + unfold round_up. pose proof (Z.div_mod (x + 2 ^ k - 1) (2 ^ k)).
      pose proof (Z.mod_pos_bound (x + 2 ^ k - 1) (2 ^ k)). lia.
Qed.

(** ** Sums over lists and maps

    Reference counts are sums over the places that hold a reference. *)

Definition ind (P : Prop) `{Decision P} : Z := if decide P then 1 else 0.

Lemma ind_yes (P : Prop) `{Decision P} : P -> ind P = 1.
Proof. unfold ind. by case_decide. Qed.

Lemma ind_no (P : Prop) `{Decision P} : ~ P -> ind P = 0.
Proof. unfold ind. by case_decide. Qed.

Lemma ind_nonneg (P : Prop) `{Decision P} : 0 <= ind P.
Proof. unfold ind. case_decide; lia. Qed.

Section lsum.
Context {A : Type} (f : A -> Z).

Fixpoint lsum (l : list A) : Z :=
  match l with [] => 0 | a :: l => f a + lsum l end.

Lemma lsum_app l k : lsum (l ++ k) = lsum l + lsum k.
Proof. induction l; cbn; lia. Qed.

Lemma lsum_insert l i a b : l !! i = Some a -> lsum (<[i := b]> l) = lsum l - f a + f b.
Proof.
  revert i. induction l as [|c l IH]; intros [|i] H; simplify_eq/=; [lia|].
  rewrite (IH _ H). lia.
Qed.

Lemma lsum_nonneg l : (forall a, a ∈ l -> 0 <= f a) -> 0 <= lsum l.
Proof.
  induction l as [|c l IH]; intros H; cbn; [lia|].
  assert (0 <= f c) by (apply H; left). assert (0 <= lsum l) by (apply IH; intros; apply H; by right). lia.
Qed.

Lemma lsum_lookup_le l i a : (forall a, 0 <= f a) -> l !! i = Some a -> f a <= lsum l.
Proof.
  intros Hf H. apply list_elem_of_split_length in H as (l1 & l2 & -> & _). rewrite lsum_app. cbn.
  pose proof (lsum_nonneg l1 (fun a _ => Hf a)). pose proof (lsum_nonneg l2 (fun a _ => Hf a)). lia.
Qed.

Lemma lsum_zero l : (forall a, a ∈ l -> f a = 0) -> lsum l = 0.
Proof.
  induction l as [|c l IH]; intros H; cbn; [done|].
  rewrite (H c) by left. rewrite IH; [done|]. intros; apply H; by right.
Qed.
End lsum.

Section msum.
Context `{Countable K} {A : Type} (f : K -> A -> Z).

Definition msum (m : gmap K A) : Z := map_fold (fun k a s => f k a + s) 0 m.

Lemma msum_empty : msum ∅ = 0.
Proof. reflexivity. Qed.

Lemma msum_insert m k a : m !! k = None -> msum (<[k := a]> m) = f k a + msum m.
Proof. intros. unfold msum. rewrite map_fold_insert_L; [done| |done]. intros; lia. Qed.

Lemma msum_delete m k a : m !! k = Some a -> msum (delete k m) = msum m - f k a.
Proof. intros. unfold msum. rewrite (map_fold_delete_L _ _ k a m); [lia| |done]. intros; lia. Qed.

Lemma msum_update m k a b : m !! k = Some a -> msum (<[k := b]> m) = msum m - f k a + f k b.
Proof.
  intros Hk. rewrite <- insert_delete_eq, msum_insert by apply lookup_delete_eq.
  rewrite (msum_delete _ _ _ Hk). lia.
Qed.

Lemma msum_nonneg m : (forall k a, m !! k = Some a -> 0 <= f k a) -> 0 <= msum m.
Proof.
  induction m as [|k a m Hk IH] using map_ind; intros Hf; [done|].
  rewrite msum_insert by done.
  assert (0 <= f k a) by (apply Hf, lookup_insert_eq).
  assert (0 <= msum m); [|lia].
  apply IH. intros k' a' H'. apply Hf. rewrite lookup_insert_ne; congruence.
Qed.

Lemma msum_lookup_le m k a : (forall k a, 0 <= f k a) -> m !! k = Some a -> f k a <= msum m.
Proof.
  intros Hf Hk. pose proof (msum_delete _ _ _ Hk).
  pose proof (msum_nonneg (delete k m) (fun k a _ => Hf k a)). lia.
Qed.

Lemma msum_pos m : msum m <> 0 -> exists k a, m !! k = Some a /\ f k a <> 0.
Proof.
  induction m as [|k a m Hk IH] using map_ind; [done|]. rewrite msum_insert by done. intros Hne.
  destruct (Z.eq_dec (f k a) 0) as [E|?]; [|exists k, a; split; [apply lookup_insert_eq|done]].
  destruct IH as (k' & a' & Hk' & ?); [lia|]. exists k', a'. split; [|done]. rewrite lookup_insert_ne; congruence.
Qed.

Lemma msum_zero m : (forall k a, m !! k = Some a -> f k a = 0) -> msum m = 0.
Proof.
  induction m as [|k a m Hk IH] using map_ind; intros Hf; [done|].
  rewrite msum_insert by done. rewrite (Hf k a) by apply lookup_insert_eq.
  rewrite IH; [done|]. intros k' a' H'. apply Hf. rewrite lookup_insert_ne; congruence.
Qed.
End msum.
