(* ===== verification/Digest.v ===== *)
(** Model of [src/digest.hpp] and [src/digest.cpp]: the 128-bit digest used to
    name teams, distributed objects and collectives ([detail::digest]), its
    mixing function [eat], its ordering, and the FNV-style segment hash
    [fnv128] that CCS uses to fingerprint code segments. *)
From S2P Require Import Prelude.

(** * detail::digest *)

Module Digest.

Record digest := mk_digest { w0 : Z; w1 : Z }.

Definition zero : digest := mk_digest 0 0.

(** [tombstone]: the digest of an invalid object. *)
Definition tombstone : digest := zero.

Definition digest_wf (d : digest) : Prop := is_u64 (w0 d) /\ is_u64 (w1 d).

(** [bitrotl]: both shifts are on [uint64_t], so the left one wraps. *)
Definition bitrotl (x : Z) (sh : Z) : Z :=
  Z.lor (w64 (Z.shiftl x sh)) (Z.shiftr x (64 - sh)).

(** One line of [eat]: [c ^= b; b = bitrotl(b,sh); c += b]. *)
Definition mix (sh b c : Z) : Z * Z :=
  let c := Z.lxor c b in
  let b := bitrotl b sh in
  let c := w64 (c + b) in
  (b, c).

Definition words : Type := Z * Z * Z * Z.

(** The eleven lines of the body of [eat], in order. *)
Definition eat_mix (w : words) : words :=
  let '(w0, w1, w2, w3) := w in
  let (w2, w3) := mix 15 w2 w3 in
  let (w3, w0) := mix 52 w3 w0 in
  let (w0, w1) := mix 26 w0 w1 in
  let (w1, w2) := mix 51 w1 w2 in
  let (w2, w3) := mix 28 w2 w3 in
  let (w3, w0) := mix 9 w3 w0 in
  let (w0, w1) := mix 47 w0 w1 in
  let (w1, w2) := mix 54 w1 w2 in
  let (w2, w3) := mix 32 w2 w3 in
  let (w3, w0) := mix 25 w3 w0 in
  let (w0, w1) := mix 63 w0 w1 in
  (w0, w1, w2, w3).

Definition eat (d : digest) (x0 x1 : Z) : digest :=
  let '(w0, w1, _, _) := eat_mix (w0 d, w1 d, x0, x1) in
  mk_digest w0 w1.

Definition eat_digest (d that : digest) : digest := eat d (w0 that) (w1 that).

(** The comparison operators, with the source's non-short-circuit connectives. *)
Definition deq (a b : digest) : bool := (w0 a =? w0 b) && (w1 a =? w1 b).
Definition dne (a b : digest) : bool := negb (w0 a =? w0 b) || negb (w1 a =? w1 b).
Definition dlt (a b : digest) : bool := (w0 a <? w0 b) || ((w0 a =? w0 b) && (w1 a <? w1 b)).
Definition dle (a b : digest) : bool := (w0 a <? w0 b) || ((w0 a =? w0 b) && (w1 a <=? w1 b)).
Definition dgt (a b : digest) : bool := (w0 a >? w0 b) || ((w0 a =? w0 b) && (w1 a >? w1 b)).
Definition dge (a b : digest) : bool := (w0 a >? w0 b) || ((w0 a =? w0 b) && (w1 a >=? w1 b)).

(** [std::hash<digest>]. *)
Definition hash (x : digest) : Z := w0 x.

#[export] Instance digest_eq_dec : EqDecision digest.
Proof. solve_decision. Defined.

#[export] Instance digest_countable : Countable digest.
Proof.
  refine (inj_countable' (fun d => (w0 d, w1 d)) (fun p => mk_digest p.1 p.2) _).
  by intros [].
Defined.

(** ** The mixing function is a bijection on 256-bit states *)

Definition bitrotr (x sh : Z) : Z := bitrotl x (64 - sh).

Lemma bitrotl_spec x sh i : is_u64 x -> 0 < sh < 64 ->
  Z.testbit (bitrotl x sh) i
  = if decide (0 <= i < 64) then Z.testbit x ((i - sh) mod 64) else false.
Proof.
  intros Hx Hsh. unfold bitrotl. destruct (decide (i < 0)).
  { rewrite Z.testbit_neg_r by lia. by case_decide; [lia|]. }
  rewrite Z.lor_spec, Z.shiftr_spec by lia. case_decide.
  - unfold w64, w64_mod. rewrite Z.mod_pow2_bits_low by lia.
    rewrite Z.shiftl_spec by lia. destruct (decide (i < sh)).
    + rewrite (Z.testbit_neg_r x (i - sh)) by lia. simpl. f_equal.
      apply (Z.mod_unique _ _ (-1)); lia.
    + rewrite (testbit_above 64 x (i + _)) by (unfold is_u64, w64_mod in Hx; lia).
      rewrite orb_false_r. f_equal. rewrite Z.mod_small; lia.
  - unfold w64, w64_mod. rewrite Z.mod_pow2_bits_high by lia.
    by rewrite (testbit_above 64 x) by (unfold is_u64, w64_mod in Hx; lia).
Qed.

Lemma bitrotl_u64 x sh : is_u64 x -> 0 < sh < 64 -> is_u64 (bitrotl x sh).
Proof.
  intros Hx Hsh. assert (0 <= bitrotl x sh).
  { unfold bitrotl. apply Z.lor_nonneg. split; [apply w64_range|].
    apply Z.shiftr_nonneg, Hx. }
  split; [done|]. apply (bits_range 64); [lia|done|].
  intros i Hi. rewrite bitrotl_spec by done. by case_decide; [lia|].
Qed.
#[export] Hint Resolve bitrotl_u64 : word.

Lemma bitrotr_bitrotl x sh : is_u64 x -> 0 < sh < 64 -> bitrotr (bitrotl x sh) sh = x.
Proof.
  intros Hx Hsh. apply Z.bits_inj'. intros i Hi. unfold bitrotr.
  rewrite bitrotl_spec by (auto with word || lia). case_decide.
  - pose proof (Z.mod_pos_bound (i - (64 - sh)) 64).
    rewrite bitrotl_spec by done. case_decide; [|lia].
    rewrite Zminus_mod_idemp_l. f_equal. symmetry.
    apply (Z.mod_unique _ _ (-1)); lia.
  - by rewrite (testbit_above 64 x) by (unfold is_u64, w64_mod in Hx; lia).
Qed.

(** Undoing one line of [eat]. *)
Definition unmix (sh b c : Z) : Z * Z :=
  let c := w64 (c - b) in
  let b := bitrotr b sh in
  (b, Z.lxor c b).

Lemma mix_u64 sh b c : is_u64 b -> is_u64 c -> 0 < sh < 64 ->
  is_u64 (mix sh b c).1 /\ is_u64 (mix sh b c).2.
Proof. intros. simpl. auto with word. Qed.

Lemma unmix_mix sh b c : is_u64 b -> is_u64 c -> 0 < sh < 64 ->
  unmix sh (mix sh b c).1 (mix sh b c).2 = (b, c).
Proof.
  intros Hb Hc Hsh. unfold unmix, mix. simpl. rewrite bitrotr_bitrotl by done.
  f_equal. rewrite w64_sub_l.
  replace (Z.lxor c b + bitrotl b sh - bitrotl b sh) with (Z.lxor c b) by lia.
  rewrite w64_small by auto with word.
  by rewrite Z.lxor_assoc, Z.lxor_nilpotent, Z.lxor_0_r.
Qed.

Definition words_wf (w : words) : Prop :=
  let '(a, b, c, d) := w in is_u64 a /\ is_u64 b /\ is_u64 c /\ is_u64 d.

(** The eleven lines run backwards. *)
Definition uneat_mix (w : words) : words :=
  let '(w0, w1, w2, w3) := w in
  let (w0, w1) := unmix 63 w0 w1 in
  let (w3, w0) := unmix 25 w3 w0 in
  let (w2, w3) := unmix 32 w2 w3 in
  let (w1, w2) := unmix 54 w1 w2 in
  let (w0, w1) := unmix 47 w0 w1 in
  let (w3, w0) := unmix 9 w3 w0 in
  let (w2, w3) := unmix 28 w2 w3 in
  let (w1, w2) := unmix 51 w1 w2 in
  let (w0, w1) := unmix 26 w0 w1 in
  let (w3, w0) := unmix 52 w3 w0 in
  let (w2, w3) := unmix 15 w2 w3 in
  (w0, w1, w2, w3).

Ltac mix_step :=
  lazymatch goal with
  | |- context [mix ?sh ?b ?c] =>
      let H := fresh "Hr" in let U := fresh "Hu" in
      pose proof (mix_u64 sh b c ltac:(assumption) ltac:(assumption) ltac:(lia)) as H;
      pose proof (unmix_mix sh b c ltac:(assumption) ltac:(assumption) ltac:(lia)) as U;
      destruct (mix sh b c); simpl in H, U; destruct H
  end.

Lemma eat_mix_inverse w : words_wf w -> words_wf (eat_mix w) /\ uneat_mix (eat_mix w) = w.
Proof.
  destruct w as [[[a b] c] d]. intros (Ha & Hb & Hc & Hd). unfold eat_mix.
  repeat mix_step. split; [by auto|]. unfold uneat_mix.
  repeat match goal with H : unmix _ _ _ = _ |- _ => rewrite H; clear H end. done.
Qed.

Lemma eat_wf d x0 x1 : digest_wf d -> is_u64 x0 -> is_u64 x1 -> digest_wf (eat d x0 x1).
Proof.
  intros [H0 H1] Hx0 Hx1. unfold eat.
  pose proof (eat_mix_inverse (w0 d, w1 d, x0, x1)) as [Hw _]; [by unfold words_wf|].
  destruct (eat_mix _) as [[[? ?] ?] ?]. by destruct Hw as (? & ? & _).
Qed.
#[export] Hint Resolve eat_wf : upcxx.

(** The mixing function of [digest::eat] loses no information: two different
    (digest, operand) pairs are never mixed into the same four words. *)
Theorem eat_mix_injective w w' : words_wf w -> words_wf w' -> eat_mix w = eat_mix w' -> w = w'.
Proof.
  intros Hw Hw' He. destruct (eat_mix_inverse _ Hw) as [_ <-].
  rewrite He. apply eat_mix_inverse, Hw'.
Qed.

Lemma eat_mix_injective_witness :
  eat_mix (1, 2, 3, 4) = eat_mix (1, 2, 3, 4) /\ (1, 2, 3, 4) = (1, 2, 3, 4).
Proof.
  split; [reflexivity|]. apply eat_mix_injective; [by vm_compute|by vm_compute|reflexivity].
Defined.

(** ** Ordering *)

Definition digest_le_lex (a b : digest) : Prop :=
  w0 a < w0 b \/ (w0 a = w0 b /\ w1 a <= w1 b).

Ltac dcmp := unfold deq, dne, dlt, dle, dgt, dge in *; rewrite ?Z.gtb_ltb, ?Z.geb_leb in *.

Lemma dlt_spec a b : dlt a b = true <-> w0 a < w0 b \/ (w0 a = w0 b /\ w1 a < w1 b).
Proof. dcmp. lia. Qed.

(** The order is total and agrees with equality. *)
Lemma digest_order_total a b :
  (dlt a b = true /\ deq a b = false /\ dlt b a = false) \/
  (dlt a b = false /\ deq a b = true /\ dlt b a = false) \/
  (dlt a b = false /\ deq a b = false /\ dlt b a = true).
Proof. dcmp. lia. Qed.

End Digest.

(** * fnv128 *)

Module Fnv128.

Definition primex : Z := 0x13B.
Definition shift : Z := 24.
Definition size : nat := 16.

(** [std::array<uint32_t,4> hash], most significant word first. *)
Definition hash4 : Type := Z * Z * Z * Z.

Definition fnv128_init : hash4 := (0x6C62272E, 0x07BB0142, 0x62B82175, 0x6295C58D).

(** [round]: [temp] and [temp2] are [uint64_t] arrays; [in] is a [char], which
    the [^=] sign-extends to 64 bits. *)
Definition round (temp : hash4) (c : Z) : hash4 :=
  let '(t0, t1, t2, t3) := temp in
  let temp2_0 := w64 (Z.shiftl t2 shift) in
  let temp2_1 := w64 (Z.shiftl t3 shift) in
  let t3 := Z.lxor t3 (w64 c) in
  let t3 := w64 (t3 * primex) in
  let t2 := w64 (t2 * primex) in
  let t1 := w64 (t1 * primex) in
  let t0 := w64 (t0 * primex) in
  let t1 := w64 (t1 + temp2_1) in
  let t0 := w64 (t0 + temp2_0) in
  let t2 := w64 (t2 + Z.shiftr t3 32) in
  let t3 := Z.land t3 0xffffffff in
  let t1 := w64 (t1 + Z.shiftr t2 32) in
  let t2 := Z.land t2 0xffffffff in
  let t0 := w64 (t0 + Z.shiftr t1 32) in
  let t1 := Z.land t1 0xffffffff in
  (t0, t1, t2, t3).

(** The loop of [algorithm]: [pred] sees the offset and the memory from the
    iterator on; reading past the buffer is [None]. *)
Fixpoint algorithm_loop (pred : nat -> list Z -> option bool) (it : nat)
    (mem : list Z) (temp : hash4) : option hash4 :=
  match pred it mem with
  | None => None
  | Some false => Some temp
  | Some true =>
      match mem with
      | [] => None
      | c :: mem => algorithm_loop pred (S it) mem (round temp c)
      end
  end.

Definition algorithm (pred : nat -> list Z -> option bool) (mem : list Z) (hash : hash4)
    : option hash4 :=
  match algorithm_loop pred 0 mem hash with
  | Some (t0, t1, t2, t3) => Some (w32 t0, w32 t1, w32 t2, w32 t3)
  | None => None
  end.

Definition block_in (mem : list Z) (length : nat) (hash : hash4) : option hash4 :=
  algorithm (fun it _ => Some (it <? length)%nat) mem hash.

Definition string_in (mem : list Z) (hash : hash4) : option hash4 :=
  algorithm (fun _ m => match m with [] => None | c :: _ => Some (negb (c =? 0)) end) mem hash.

Definition word_bytes (h : Z) : list Z :=
  [h mod 256; Z.shiftr h 8 mod 256; Z.shiftr h 16 mod 256; Z.shiftr h 24 mod 256].

Definition result (h : hash4) : list Z :=
  let '(h0, h1, h2, h3) := h in
  word_bytes h0 ++ word_bytes h1 ++ word_bytes h2 ++ word_bytes h3.

(** ** Meaning of the state as a 128-bit number *)

Definition fnv_mod : Z := 2 ^ 128.

Definition value (h : hash4) : Z :=
  let '(t0, t1, t2, t3) := h in
  (t0 * 2 ^ 96 + t1 * 2 ^ 64 + t2 * 2 ^ 32 + t3) mod fnv_mod.

(** The loop invariant on [temp]: only the top word may exceed 32 bits. *)
Definition temp_wf (h : hash4) : Prop :=
  let '(t0, t1, t2, t3) := h in is_u64 t0 /\ is_u32 t1 /\ is_u32 t2 /\ is_u32 t3.

Lemma land_ones32 x : Z.land x 0xffffffff = x mod 2 ^ 32.
Proof. by rewrite <- Z.land_ones by lia. Qed.

Lemma lxor_low_word hi t c : 0 <= t < 2 ^ 32 -> 0 <= c < 2 ^ 32 ->
  Z.lxor (hi * 2 ^ 32 + t) c = hi * 2 ^ 32 + Z.lxor t c.
Proof.
  intros Ht Hc. pose proof (lxor_range 32 t c ltac:(lia) Ht Hc) as Hx.
  apply Z.bits_inj'. intros i Hi. rewrite Z.lxor_spec.
  rewrite <- !(Z.shiftl_mul_pow2 hi) by lia.
  rewrite !Z.add_nocarry_lxor, !Z.lxor_spec, Z.shiftl_spec;
    [by rewrite xorb_assoc| lia | |];
    apply Z.bits_inj'; intros j Hj; rewrite Z.land_spec, Z.bits_0, Z.shiftl_spec by lia;
    (destruct (decide (j < 32));
      [by rewrite (Z.testbit_neg_r hi) by lia
      | match goal with |- _ && Z.testbit ?y j = _ => rewrite (testbit_above 32 y) by lia end;
        apply andb_false_r]).
Qed.

Lemma round_temp_wf h c : temp_wf h -> temp_wf (round h c).
Proof.
  destruct h as [[[t0 t1] t2] t3]. intros _. unfold round, temp_wf. rewrite !land_ones32.
  repeat split; try apply w64_range; apply Z.mod_pos_bound; done.
Qed.
#[export] Hint Resolve round_temp_wf : upcxx.

(** Carry propagation without wrap-around. *)
Lemma round_value h c : temp_wf h -> 0 <= c < 128 ->
  let '(t0, t1, t2, t3) := h in
  value (round h c)
  = ((t0 * 2 ^ 96 + t1 * 2 ^ 64 + t2 * 2 ^ 32 + Z.lxor t3 c) * primex
     + (t2 * 2 ^ 32 + t3) * 2 ^ 88) mod fnv_mod.
Proof.
  destruct h as [[[t0 t1] t2] t3]. unfold temp_wf, is_u64, is_u32, w64_mod, w32_mod, primex.
  intros (H0 & H1 & H2 & H3) Hc. unfold round, value, shift, primex.
  pose proof (lxor_range 32 t3 c ltac:(lia) ltac:(lia) ltac:(lia)) as Hx.
  rewrite (w64_small c) by (unfold is_u64, w64_mod; lia).
  set (x := Z.lxor t3 c) in *.
  rewrite !land_ones32, !Z.shiftl_mul_pow2, !Z.shiftr_div_pow2 by lia.
  unfold w64, w64_mod, fnv_mod.
  rewrite (Z.mod_small (x * 315)), (Z.mod_small (t2 * 315)), (Z.mod_small (t1 * 315)),
    (Z.mod_small (t3 * 2 ^ 24)), (Z.mod_small (t2 * 2 ^ 24)) by lia.
  pose proof (Z.div_mod (x * 315) (2 ^ 32)). pose proof (Z.mod_pos_bound (x * 315) (2 ^ 32)).
  set (q3 := x * 315 / 2 ^ 32) in *. set (r3 := (x * 315) mod 2 ^ 32) in *.
  rewrite (Z.mod_small (t2 * 315 + q3)) by lia.
  pose proof (Z.div_mod (t2 * 315 + q3) (2 ^ 32)).
  pose proof (Z.mod_pos_bound (t2 * 315 + q3) (2 ^ 32)).
  set (q2 := (t2 * 315 + q3) / 2 ^ 32) in *. set (r2 := (t2 * 315 + q3) mod 2 ^ 32) in *.
  rewrite (Z.mod_small (t1 * 315 + t3 * 2 ^ 24)) by lia.
  rewrite (Z.mod_small (t1 * 315 + t3 * 2 ^ 24 + q2)) by lia.
  pose proof (Z.div_mod (t1 * 315 + t3 * 2 ^ 24 + q2) (2 ^ 32)).
  set (q1 := (t1 * 315 + t3 * 2 ^ 24 + q2) / 2 ^ 32) in *.
  set (r1 := (t1 * 315 + t3 * 2 ^ 24 + q2) mod 2 ^ 32) in *.
  rewrite !Zplus_mod_idemp_l.
  rewrite <- (Z.add_assoc _ (t2 * 2 ^ 24)), Zplus_mod_idemp_l, Z.add_assoc.
  pose proof (Z.div_mod (t0 * 315 + t2 * 2 ^ 24 + q1) (2 ^ 64)) as E0.
  set (k := (t0 * 315 + t2 * 2 ^ 24 + q1) / 2 ^ 64) in *.
  symmetry. rewrite <- (Z_mod_plus_full _ (- k * 2 ^ 32)). f_equal. lia.
Qed.

(** What [round] computes for bytes below [0x80]: the product by [0x13B] is taken after the
    input is xor-ed in, the product by [2^88] before. *)
Theorem round_spec h c : temp_wf h -> 0 <= c < 128 ->
  value (round h c) = (Z.lxor (value h) c * primex + value h * 2 ^ 88) mod fnv_mod.
Proof.
  intros Hw Hc. pose proof (round_value h c Hw Hc) as Hv.
  destruct h as [[[t0 t1] t2] t3]. rewrite Hv. clear Hv.
  unfold temp_wf, is_u64, is_u32, w64_mod, w32_mod in Hw. destruct Hw as (H0 & H1 & H2 & H3).
  unfold value, fnv_mod.
  pose proof (Z.div_mod t0 (2 ^ 32)). pose proof (Z.mod_pos_bound t0 (2 ^ 32)).
  set (k := t0 / 2 ^ 32) in *. set (r := t0 mod 2 ^ 32) in *.
  assert (E : (t0 * 2 ^ 96 + t1 * 2 ^ 64 + t2 * 2 ^ 32 + t3) mod 2 ^ 128
    = (r * 2 ^ 64 + t1 * 2 ^ 32 + t2) * 2 ^ 32 + t3).
  { symmetry. apply (Z.mod_unique _ _ k); lia. }
  rewrite E, lxor_low_word by lia. unfold primex.
  symmetry. rewrite <- (Z_mod_plus_full _ (315 * k - r * 2 ^ 56 - t1 * 2 ^ 24)).
  f_equal. lia.
Qed.

Lemma round_spec_witness :
  value (round fnv128_init 65) = (Z.lxor (value fnv128_init) 65 * primex + value fnv128_init * 2 ^ 88) mod fnv_mod.
Proof. apply round_spec; [by vm_compute|lia]. Defined.

(** Other bytes are negative as [char], as which they are sign-extended: the xor sets bits of a word
    above those of the hash, which the product carries into the next word. *)
Example round_sign_extends : value (round fnv128_init (-1)) <>
  (Z.lxor (value fnv128_init) 0xff * primex + value fnv128_init * 2 ^ 88) mod fnv_mod.
Proof. by vm_compute. Qed.

(** FNV-1a over 128 bits: xor the octet in, then multiply by [2^88 + 0x13B]. *)
Definition fnv1a (v c : Z) : Z := (Z.lxor v c * (2 ^ 88 + primex)) mod fnv_mod.

Lemma value_range h : 0 <= value h < fnv_mod.
Proof. destruct h as [[[? ?] ?] ?]. by apply Z.mod_pos_bound. Qed.

(** the state after [round] is never FNV-1a's for a nonzero ASCII input:
    the word shifted into the high half is read before the xor. *)
Theorem round_not_fnv1a h c : temp_wf h -> 0 < c < 128 ->
  value (round h c) <> fnv1a (value h) c.
Proof.
  intros Hw Hc. rewrite round_spec by (done || lia). unfold fnv1a. intros He.
  pose proof (value_range h) as Hr. set (v := value h) in *. unfold fnv_mod in *.
  pose proof (Z.div_mod v (2 ^ 32)). pose proof (Z.mod_pos_bound v (2 ^ 32)).
  set (hi := v / 2 ^ 32) in *. set (lo := v mod 2 ^ 32) in *.
  replace v with (hi * 2 ^ 32 + lo) in He by lia.
  rewrite lxor_low_word in He by lia.
  pose proof (lxor_range 32 lo c ltac:(lia) ltac:(lia) ltac:(lia)) as Hx.
  assert (Z.lxor lo c <> lo) as Hne.
  { intros E. assert (Z.lxor lo (Z.lxor lo c) = 0) as E' by (rewrite E; apply Z.lxor_nilpotent).
    rewrite <- Z.lxor_assoc, Z.lxor_nilpotent, Z.lxor_0_l in E'. lia. }
  set (x := Z.lxor lo c) in *. unfold primex in *.
  apply mod_eq_diff in He as [q Hq]; [|lia].
  assert (lo - x = q * 2 ^ 40) by lia. lia.
Qed.

Lemma round_not_fnv1a_witness : value (round fnv128_init 65) <> fnv1a (value fnv128_init) 65.
Proof. apply round_not_fnv1a; [by vm_compute|lia]. Defined.

(** Hashing a NUL-terminated string is hashing its bytes as a block, and
    never reads past the terminator. *)
Theorem string_in_block_in s rest h : Forall (fun c => c <> 0) s ->
  string_in (s ++ 0 :: rest) h = block_in (s ++ 0 :: rest) (length s) h.
Proof.
  intros Hs. unfold string_in, block_in, algorithm.
  enough (forall t it, algorithm_loop (fun _ m => match m with [] => None | c :: _ => Some (negb (c =? 0)) end)
                    it (s ++ 0 :: rest) t
          = algorithm_loop (fun i _ => Some (i <? it + length s)%nat) it (s ++ 0 :: rest) t) as ->; [done|].
  clear h. induction Hs as [|c s Hc Hs IH]; intros t it; simpl.
  - by rewrite Nat.add_0_r, Nat.ltb_irrefl.
  - assert ((it <? it + S (length s))%nat = true) as -> by (apply Nat.ltb_lt; lia).
    apply Z.eqb_neq in Hc. rewrite Hc. simpl. rewrite IH. by rewrite Nat.add_succ_comm.
Qed.

Lemma string_in_block_in_witness :
  string_in ([65; 66] ++ 0 :: []) fnv128_init = block_in ([65; 66] ++ 0 :: []) (length [65; 66]) fnv128_init.
Proof. apply string_in_block_in. repeat constructor; discriminate. Defined.

(** [block_in] over a prefix that fits in memory is the fold of [round]. *)
Lemma block_in_fold mem n h : (n <= length mem)%nat ->
  block_in mem n h
  = let '(t0, t1, t2, t3) := fold_left round (take n mem) h in
    Some (w32 t0, w32 t1, w32 t2, w32 t3).
Proof.
  unfold block_in, algorithm. intros Hn.
  enough (forall t it, (it <= n)%nat -> (n - it <= length mem)%nat ->
     algorithm_loop (fun i _ => Some (i <? n)%nat) it mem t
     = Some (fold_left round (take (n - it) mem) t)) as E.
  { rewrite (E h 0%nat) by lia. by rewrite Nat.sub_0_r. }
  clear h Hn. induction mem as [|c mem IH]; intros t it Hit Hlen; simpl in *.
  - assert (n = it) as -> by lia. rewrite Nat.ltb_irrefl. by rewrite take_nil.
  - destruct (decide (it = n)) as [->|].
    + by rewrite Nat.ltb_irrefl, Nat.sub_diag.
    + assert ((it <? n)%nat = true) as -> by (apply Nat.ltb_lt; lia).
      rewrite IH by lia. replace (n - it)%nat with (S (n - S it)) by lia. done.
Qed.

End Fnv128.
