(* ===== verification/SegmentAllocator.v ===== *)
(** Model of [src/segment_allocator.hpp] and [src/segment_allocator.cpp]: the
    best-fit allocator that carves up a shared or device segment.

    The code keeps a doubly linked list of heap-allocated [block]s that tiles
    the segment, closed by the member [endpost_], and two indices: holes by
    (size, begin) and hunks by begin.  The model keeps exactly that: blocks live
    in a heap indexed by locations, links are locations, and every operation
    is the sequence of loads and stores of the code.  The proofs relate the
    heap to a list of abstract blocks that tiles the segment. *)
From S2P Require Import Prelude.

Module SegmentAllocator.

(** * State *)

Abbreviation loc := positive.

Record block := mk_block {
  is_hole : bool;
  begin : Z;              (* 63-bit field: offset in the segment *)
  prev : option loc;      (* nullptr is None *)
  next : option loc
}.

Abbreviation heap_t := (gmap loc block).

Record state := mk_state {
  seg_base : Z;
  endpost : loc;                     (* &this->endpost_ *)
  heap : heap_t;
  holes_by_size : gmap (Z * Z) loc;  (* std::map<pair<uintptr_t,uintptr_t>,block*> *)
  hunks_by_begin : gmap Z loc        (* std::unordered_map<uintptr_t,block*> *)
}.

(** * Memory accesses *)

Definition load (h : heap_t) (l : loc) : res block := deref (h !! l).

Definition w63 (z : Z) : Z := z mod 2 ^ 63.

Definition store_with (f : block -> block) (h : heap_t) (l : loc) : res heap_t :=
  b ← load h l; Ok (<[l := f b]> h).

Definition set_hole (v : bool) := store_with (fun b => mk_block v (begin b) (prev b) (next b)).
Definition set_begin (v : Z) := store_with (fun b => mk_block (is_hole b) (w63 v) (prev b) (next b)).
Definition set_prev (v : option loc) := store_with (fun b => mk_block (is_hole b) (begin b) v (next b)).
Definition set_next (v : option loc) := store_with (fun b => mk_block (is_hole b) (begin b) (prev b) v).

(** [new block{...}]: any location not in use. *)
Definition new_block (b : block) (h : heap_t) : loc * heap_t :=
  let l := fresh (dom h) in (l, <[l := b]> h).

(** [m = new block{hole, beg, x, x->next}; m->next->prev = m; x->next = m]:
    how [allocate] splits a block, on the left and on the right. *)
Definition link_new_after (h : heap_t) (x : loc) (hole : bool) (beg : Z) : res (heap_t * loc) :=
  xb ← load h x;
  let '(m, h) := new_block (mk_block hole (w63 beg) (Some x) (next xb)) h in
  mn ← deref (next xb);
  h ← set_prev (Some m) h mn;
  h ← set_next (Some m) h x;
  Ok (h, m).

(** [x->next = b->next; x->next->prev = x; delete b]: how [deallocate] fuses
    [b] into the block [x] on its left. *)
Definition unlink_after (h : heap_t) (x b : loc) : res heap_t :=
  bb ← load h b;
  h ← set_next (next bb) h x;
  bn ← deref (next bb);
  h ← set_prev (Some x) h bn;
  Ok (delete b h).

(** [std::map::insert] keeps the old value of a present key. *)
Definition insert_hole_by_size (m : gmap (Z * Z) loc) (l : loc) (begin size : Z)
    : gmap (Z * Z) loc :=
  match m !! (size, begin) with Some _ => m | None => <[(size, begin) := l]> m end.

(** Lexicographic order of [std::pair], and [std::map::lower_bound]. *)
Definition pair_leb (a b : Z * Z) : bool :=
  (a.1 <? b.1) || ((a.1 =? b.1) && (a.2 <=? b.2)).

Definition lower_bound_step (k : Z * Z) (e : Z * Z * loc) (acc : option (Z * Z * loc))
    : option (Z * Z * loc) :=
  if pair_leb k e.1 then
    match acc with
    | Some a => if pair_leb e.1 a.1 then Some e else acc
    | None => Some e
    end
  else acc.

Definition lower_bound (m : gmap (Z * Z) loc) (k : Z * Z) : option (Z * Z * loc) :=
  foldr (lower_bound_step k) None (map_to_list m).

(** * Construction, destruction *)

Definition segment_allocator (segment_base segment_size : Z) (endpost : loc) : state :=
  let ep := mk_block false (w63 segment_size) None None in
  if segment_size =? 0 then
    mk_state segment_base endpost {[endpost := ep]} ∅ ∅
  else
    let '(big_hole, h) := new_block (mk_block true 0 None (Some endpost)) {[endpost := ep]} in
    let h := <[endpost := mk_block false (w63 segment_size) (Some big_hole) None]> h in
    mk_state segment_base endpost h (insert_hole_by_size ∅ big_hole 0 segment_size) ∅.

(** The loop of the destructor: follows [prev] from [endpost_]. *)
Fixpoint destroy_loop (fuel : nat) (b : option loc) (h : heap_t) : res heap_t :=
  match b with
  | None => Ok h
  | Some l =>
      match fuel with
      | O => Undef
      | S fuel => blk ← load h l; destroy_loop fuel (prev blk) (delete l h)
      end
  end.

Definition destroy (st : state) : res heap_t :=
  ep ← load (heap st) (endpost st);
  destroy_loop (size (heap st)) (prev ep) (heap st).

(** Move assignment.  The two allocators' blocks live in one memory; the
    blocks of [that] become blocks of [this], so that the model moves
    them from one heap to the other. *)
Definition move_assign (this that : state) : res (state * state) :=
  ep_this ← load (heap this) (endpost this);
  _ ← assert_that ((seg_base this =? 0) && (begin ep_this =? 0));
  ep_that ← load (heap that) (endpost that);
  let h := <[endpost this := ep_that]> (delete (endpost that) (heap that)) in
  h ← match prev ep_that with
      | Some p => set_next (Some (endpost this)) h p
      | None => Ok h
      end;
  Ok (mk_state (seg_base that) (endpost this) h (holes_by_size that) (hunks_by_begin that),
      mk_state 0 (endpost that)
        {[endpost that := mk_block (is_hole ep_that) 0 None (next ep_that)]} ∅ ∅).

(** * Queries *)

Definition segment_size (st : state) : res Z :=
  ep ← load (heap st) (endpost st); Ok (begin ep).

Definition segment_range (st : state) : res (Z * Z) :=
  sz ← segment_size st; Ok (seg_base st, sz).

Definition in_segment (st : state) (p : Z) : res bool :=
  sz ← segment_size st; Ok (w64 (p - seg_base st) <? sz).

Definition segment_free (st : state) : Z :=
  foldr (fun e acc => e.1.1 + acc) 0 (map_to_list (holes_by_size st)).

(** * allocate *)

(** Size classes: round up to 4096 or 64 and align at least as much. *)
Definition adjust (m_size m_align : Z) : Z * Z :=
  if 2 * 4096 <=? m_size then
    (Z.land (w64 (m_size + 4096 - 1)) (w64 (- 4096)), Z.max 4096 m_align)
  else if 2 * 64 <=? m_size then
    (Z.land (w64 (m_size + 64 - 1)) (w64 (- 64)), Z.max 64 m_align)
  else (m_size, m_align).

(** "need hole on left", "no hole on left": the block that becomes the hunk. *)
Definition carve_left (h : heap_t) (holes : gmap (Z * Z) loc) (hl : loc) (h_begin h_end m_begin : Z)
    : res (heap_t * gmap (Z * Z) loc * loc) :=
  if h_begin <? m_begin then
    hb ← load h hl;
    small ← match prev hb with
            | None => Ok false
            | Some p => pb ← load h p;
                        Ok (w64 (m_begin - h_begin) <? w64 (h_end - begin pb) / 16)
            end;
    if small : bool then
      h ← set_hole false h hl;
      h ← set_begin m_begin h hl;
      Ok (h, holes, hl)
    else
      '(h, m) ← link_new_after h hl false m_begin;
      Ok (h, insert_hole_by_size holes hl h_begin (w64 (m_begin - h_begin)), m)
  else
    h ← set_hole false h hl;
    Ok (h, holes, hl).

(** "right hole". *)
Definition carve_right (h : heap_t) (holes : gmap (Z * Z) loc) (m : loc) (m_end h_end : Z)
    : res (heap_t * gmap (Z * Z) loc) :=
  if m_end <? h_end then
    '(h, hr) ← link_new_after h m true m_end;
    Ok (h, insert_hole_by_size holes hr (w63 m_end) (w64 (h_end - m_end)))
  else Ok (h, holes).

Inductive attempt_result :=
| NoHole                       (* holes_by_size_.end() *)
| NoFit                        (* the alignment caused us to not fit *)
| Fit (p : Z) (st : state).

(** One pass from label [top]. *)
Definition attempt (st : state) (m_size m_align m_size_padded : Z) : res attempt_result :=
  match lower_bound (holes_by_size st) (m_size_padded, 0) with
  | None => Ok NoHole
  | Some (key, hl) =>
      hb ← load (heap st) hl;
      hn ← deref (next hb);
      nb ← load (heap st) hn;
      let h_begin := begin hb in
      let h_end := begin nb in
      let m_begin := w64 (align_up (seg_base st + h_begin) m_align - seg_base st) in
      let m_end := w64 (m_begin + m_size) in
      if m_end <=? h_end then
        let holes := delete key (holes_by_size st) in
        '(h, holes, m) ← carve_left (heap st) holes hl h_begin h_end m_begin;
        let hunks := <[m_begin := m]> (hunks_by_begin st) in
        '(h, holes) ← carve_right h holes m m_end h_end;
        Ok (Fit (w64 (seg_base st + m_begin))
                (mk_state (seg_base st) (endpost st) h holes hunks))
      else Ok NoFit
  end.

(** [nullptr] is [None]; the code leaves the state alone when it returns it. *)
Definition allocate (st : state) (m_size m_align : Z) : res (option Z * state) :=
  if m_size =? 0 then Ok (None, st) else
  let '(m_size, m_align) := adjust m_size m_align in
  r ← attempt st m_size m_align m_size;
  match r with
  | NoHole => Ok (None, st)
  | Fit p st' => Ok (Some p, st')
  | NoFit =>
      let m_size_padded := w64 (m_size + m_align - 1) in
      if m_size_padded =? m_size then Ok (None, st)
      else
        r ← attempt st m_size m_align m_size_padded;
        match r with
        | Fit p st' => Ok (Some p, st')
        | NoHole | NoFit => Ok (None, st)
        end
  end.

(** * deallocate *)

(** "fuse with left hole", or turn the hunk into a hole. *)
Definition fuse_left (h : heap_t) (holes : gmap (Z * Z) loc) (m : loc) (m_begin m_end : Z)
    : res (heap_t * gmap (Z * Z) loc * loc * Z) :=
  mb ← load h m;
  left_hole ← match prev mb with
              | None => Ok None
              | Some p => pb ← load h p; Ok (if is_hole pb then Some (p, begin pb) else None)
              end;
  match left_hole with
  | Some (lh, lh_begin) =>
      h ← unlink_after h lh m;
      let holes := delete (w64 (m_begin - lh_begin), lh_begin) holes in
      let holes := insert_hole_by_size holes lh lh_begin (w64 (m_end - lh_begin)) in
      Ok (h, holes, lh, lh_begin)
  | None =>
      h ← set_hole true h m;
      Ok (h, insert_hole_by_size holes m (begin mb) (w64 (m_end - m_begin)), m, m_begin)
  end.

(** "fuse with right hole". *)
Definition fuse_right (h : heap_t) (holes : gmap (Z * Z) loc) (m : loc) (m_begin : Z)
    : res (heap_t * gmap (Z * Z) loc) :=
  mb ← load h m;
  rh ← deref (next mb);
  rb ← load h rh;
  if is_hole rb then
    rn ← deref (next rb);
    rnb ← load h rn;
    let rh_end := begin rnb in
    h ← unlink_after h m rh;
    let holes := delete (w64 (rh_end - begin rb), begin rb) holes in
    let holes := delete (w64 (begin rb - m_begin), m_begin) holes in
    let holes := insert_hole_by_size holes m (begin mb) (w64 (rh_end - m_begin)) in
    Ok (h, holes)
  else Ok (h, holes).

Definition deallocate (st : state) (ptr : option Z) : res state :=
  match ptr with
  | None => Ok st
  | Some p =>
      let m_begin := w64 (p - seg_base st) in
      match hunks_by_begin st !! m_begin with
      | None => Aborted          (* "Invalid address to deallcoate." *)
      | Some m =>
          let hunks := delete m_begin (hunks_by_begin st) in
          mb ← load (heap st) m;
          mn ← deref (next mb);
          nb ← load (heap st) mn;
          '(h, holes, m, m_begin) ← fuse_left (heap st) (holes_by_size st) m m_begin (begin nb);
          '(h, holes) ← fuse_right h holes m m_begin;
          Ok (mk_state (seg_base st) (endpost st) h holes hunks)
      end
  end.

(** * The abstract segment: a list of blocks that tiles it *)

Record ablk := mk_ablk { aloc : loc; ahole : bool; abeg : Z; afin : Z }.

Definition hd_loc (l : list ablk) (n : option loc) : option loc :=
  match l with [] => n | b :: _ => Some (aloc b) end.

Definition last_loc (p : option loc) (l : list ablk) : option loc :=
  match last l with None => p | Some b => Some (aloc b) end.

(** [l] is a doubly linked segment of [h], entered from [p] and left to [n]. *)
Fixpoint dseg (h : heap_t) (p : option loc) (l : list ablk) (n : option loc) : Prop :=
  match l with
  | [] => True
  | b :: l' =>
      h !! aloc b = Some (mk_block (ahole b) (abeg b) p (hd_loc l' n))
      /\ dseg h (Some (aloc b)) l' n
  end.

(** The heap holds the blocks of [L], all of them and nothing else. *)
Record linked (h : heap_t) (L : list ablk) : Prop := {
  linked_dseg : dseg h None L None;
  linked_nodup : NoDup (aloc <$> L);
  linked_dom : dom h = list_to_set (aloc <$> L)
}.

(** Adjacent non-empty blocks from [lo] to [hi]. *)
Fixpoint tiles (lo : Z) (l : list ablk) (hi : Z) : Prop :=
  match l with
  | [] => lo = hi
  | b :: l' => abeg b = lo /\ abeg b < afin b /\ tiles (afin b) l' hi
  end.

(** No hole follows a hole ([p]: the block before [l] is one). *)
Fixpoint coalesced (p : bool) (l : list ablk) : Prop :=
  match l with
  | [] => True
  | b :: l' => p && ahole b = false /\ coalesced (ahole b) l'
  end.

Definition last_hole (p : bool) (l : list ablk) : bool :=
  match last l with None => p | Some b => ahole b end.

Definition hole_entry (b : ablk) : option (Z * Z * loc) :=
  if ahole b then Some ((afin b - abeg b, abeg b), aloc b) else None.

Definition hunk_entry (b : ablk) : option (Z * loc) :=
  if ahole b then None else Some (abeg b, aloc b).

Definition holes_of (l : list ablk) : gmap (Z * Z) loc := list_to_map (omap hole_entry l).
Definition hunks_of (l : list ablk) : gmap Z loc := list_to_map (omap hunk_entry l).

(** ** Linked segments *)

Lemma hd_loc_app l1 l2 n : hd_loc (l1 ++ l2) n = hd_loc l1 (hd_loc l2 n).
Proof. by destruct l1. Qed.

Lemma last_loc_cons p b l : last_loc p (b :: l) = last_loc (Some (aloc b)) l.
Proof. unfold last_loc. by destruct l as [|c l]; [|rewrite last_cons_cons; destruct (last (c :: l)) eqn:E; [|apply last_None in E]]. Qed.

Lemma last_loc_snoc p l b : last_loc p (l ++ [b]) = Some (aloc b).
Proof. unfold last_loc. by rewrite last_snoc. Qed.

Lemma last_hole_cons p b l : last_hole p (b :: l) = last_hole (ahole b) l.
Proof. unfold last_hole. by destruct l as [|c l]; [|rewrite last_cons_cons; destruct (last (c :: l)) eqn:E; [|apply last_None in E]]. Qed.

Lemma dseg_app h p l1 l2 n :
  dseg h p (l1 ++ l2) n <-> dseg h p l1 (hd_loc l2 n) /\ dseg h (last_loc p l1) l2 n.
Proof.
  revert p. induction l1 as [|b l1 IH]; intros p; simpl.
  - unfold last_loc. simpl. tauto.
  - rewrite IH, last_loc_cons, hd_loc_app. tauto.
Qed.

Lemma dseg_frame h h' p l n :
  (forall b, b ∈ l -> h' !! aloc b = h !! aloc b) -> dseg h p l n -> dseg h' p l n.
Proof.
  revert p. induction l as [|b l IH]; intros p Hf; simpl; [done|]. intros [Hb Hl]. split.
  - rewrite Hf by set_solver. done.
  - apply IH; [|done]. intros c Hc. apply Hf. set_solver.
Qed.

Lemma dseg_insert h x v p l n :
  x ∉ aloc <$> l -> dseg h p l n -> dseg (<[x := v]> h) p l n.
Proof.
  intros Hx. apply dseg_frame. intros b Hb. apply lookup_insert_ne.
  intros ->. apply Hx. by apply list_elem_of_fmap_2.
Qed.

Lemma dseg_delete h x p l n : x ∉ aloc <$> l -> dseg h p l n -> dseg (delete x h) p l n.
Proof.
  intros Hx. apply dseg_frame. intros b Hb. apply lookup_delete_ne.
  intros ->. apply Hx. by apply list_elem_of_fmap_2.
Qed.

Lemma linked_lookup h l1 x l2 : linked h (l1 ++ x :: l2) ->
  h !! aloc x = Some (mk_block (ahole x) (abeg x) (last_loc None l1) (hd_loc l2 None)).
Proof. intros [Hd _ _]. apply dseg_app in Hd as [_ [Hx _]]. done. Qed.

Lemma nodup_mid l1 x l2 : NoDup (aloc <$> (l1 ++ x :: l2)) ->
  aloc x ∉ aloc <$> l1 /\ aloc x ∉ aloc <$> l2 /\ NoDup (aloc <$> (l1 ++ l2)).
Proof.
  rewrite !fmap_app, fmap_cons, !NoDup_app, NoDup_cons. intros (H1 & H2 & H3 & H4).
  split_and!; [..|done]; try set_solver.
Qed.

Lemma nodup_mid_2 l1 x l2 : aloc x ∉ aloc <$> l1 -> aloc x ∉ aloc <$> l2 ->
  NoDup (aloc <$> (l1 ++ l2)) -> NoDup (aloc <$> (l1 ++ x :: l2)).
Proof.
  rewrite !fmap_app, fmap_cons, !NoDup_app, NoDup_cons. intros H1 H2 (H3 & H4 & H5).
  split_and!; [done|..|done]; set_solver.
Qed.

(** Changing what a block says about itself. *)
Lemma linked_relabel h l1 x x' l2 : linked h (l1 ++ x :: l2) -> aloc x' = aloc x ->
  linked (<[aloc x := mk_block (ahole x') (abeg x') (last_loc None l1) (hd_loc l2 None)]> h)
         (l1 ++ x' :: l2).
Proof.
  intros Hl He. pose proof (linked_lookup _ _ _ _ Hl) as Hx. destruct Hl as [Hd Hn Hdom].
  pose proof (nodup_mid _ _ _ Hn) as (N1 & N2 & _). split.
  - apply dseg_app in Hd as (D1 & _ & D2). apply dseg_app. simpl. rewrite He.
    split_and!; [by apply dseg_insert| by rewrite lookup_insert_eq | by apply dseg_insert].
  - revert Hn. by rewrite !fmap_app, !fmap_cons, He.
  - rewrite dom_insert_L, Hdom, !fmap_app, !fmap_cons, He. set_solver.
Qed.

Ltac inv_linked :=
  repeat match goal with
  | H : dseg _ _ (_ :: _) _ |- _ => destruct H as [? H]
  | H : dseg _ _ (_ ++ _) _ |- _ => apply dseg_app in H as [? H]
  end.

(** Splitting: a fresh block enters the list after [x]. *)
Lemma link_new_after_ok h l1 x l2 hole beg fin :
  linked h (l1 ++ x :: l2) -> l2 <> [] ->
  exists h' m, link_new_after h (aloc x) hole beg = Ok (h', m)
    /\ linked h' (l1 ++ x :: mk_ablk m hole (w63 beg) fin :: l2).
Proof.
  intros Hl Hne. destruct l2 as [|y l2]; [done|]. clear Hne.
  pose proof (linked_lookup _ _ _ _ Hl) as Hx. simpl in Hx.
  assert (linked h ((l1 ++ [x]) ++ y :: l2)) as Hy by (by rewrite <- (assoc_L (++))).
  apply linked_lookup in Hy. rewrite last_loc_snoc in Hy.
  destruct Hl as [Hd Hn Hdom].
  assert (fresh (dom h) ∉ aloc <$> (l1 ++ x :: y :: l2)) as Hf.
  { pose proof (is_fresh (dom h)) as Hf. rewrite Hdom in Hf at 2. set_solver. }
  set (m := fresh (dom h)) in *. rewrite fmap_app, !fmap_cons in Hf.
  pose proof (nodup_mid _ _ _ Hn) as (N1 & N2 & N3).
  pose proof (nodup_mid _ _ _ N3) as (N4 & N5 & _). rewrite fmap_cons in N2.
  unfold link_new_after, load, new_block, set_prev, set_next, store_with. fold m.
  assert (m <> aloc x) by set_solver. assert (m <> aloc y) by set_solver.
  assert (aloc x <> aloc y) by set_solver.
  rewrite Hx. cbn. unfold load. rewrite lookup_insert_ne, Hy by done. cbn.
  rewrite lookup_insert_ne, lookup_insert_ne, Hx by done. cbn.
  eexists _, m. split; [done|]. split.
  - apply dseg_app in Hd as (D1 & _ & Dy & D2). apply dseg_app. simpl.
    split_and!.
    + repeat (apply dseg_insert; [set_solver|]). done.
    + by map_lookups.
    + by map_lookups.
    + by map_lookups.
    + repeat (apply dseg_insert; [set_solver|]). done.
  - change (x :: mk_ablk m hole (w63 beg) fin :: y :: l2)
      with ([x] ++ mk_ablk m hole (w63 beg) fin :: y :: l2).
    rewrite (assoc_L (++)). apply nodup_mid_2; simpl.
    + rewrite fmap_app. set_solver.
    + set_solver.
    + by rewrite <- (assoc_L (++)).
  - rewrite !dom_insert_L, Hdom, !fmap_app, !fmap_cons. simpl. set_solver.
Qed.

(** Fusing: [b] leaves the list. *)
Lemma unlink_after_ok h l1 x b l2 :
  linked h (l1 ++ x :: b :: l2) -> l2 <> [] ->
  exists h', unlink_after h (aloc x) (aloc b) = Ok h' /\ linked h' (l1 ++ x :: l2).
Proof.
  intros Hl Hne. destruct l2 as [|y l2]; [done|]. clear Hne.
  pose proof (linked_lookup _ _ _ _ Hl) as Hx. simpl in Hx.
  assert (linked h ((l1 ++ [x]) ++ b :: y :: l2)) as Hb by (by rewrite <- (assoc_L (++))).
  apply linked_lookup in Hb. rewrite last_loc_snoc in Hb. simpl in Hb.
  assert (linked h ((l1 ++ [x; b]) ++ y :: l2)) as Hy by (by rewrite <- (assoc_L (++))).
  apply linked_lookup in Hy.
  assert (last_loc None (l1 ++ [x; b]) = Some (aloc b)) as Hlast.
  { change [x; b] with ([x] ++ [b]). by rewrite (assoc_L (++)), last_loc_snoc. }
  rewrite Hlast in Hy. clear Hlast.
  destruct Hl as [Hd Hn Hdom].
  pose proof (nodup_mid _ _ _ Hn) as (N1 & N2 & N3).
  pose proof (nodup_mid _ _ _ N3) as (N4 & N5 & N6).
  pose proof (nodup_mid _ _ _ N6) as (N7 & N8 & N9).
  rewrite !fmap_cons in *.
  assert (aloc b <> aloc x) by set_solver. assert (aloc b <> aloc y) by set_solver.
  assert (aloc x <> aloc y) by set_solver.
  unfold unlink_after, set_prev, set_next, store_with, load. rewrite Hb. cbn. rewrite Hx. cbn.
  rewrite lookup_insert_ne, Hy by done. cbn.
  eexists. split; [done|]. split.
  - apply dseg_app in Hd as (D1 & _ & _ & _ & D2). apply dseg_app. simpl. split_and!.
    + apply dseg_delete; [set_solver|]. repeat (apply dseg_insert; [set_solver|]). done.
    + by map_lookups.
    + by map_lookups.
    + apply dseg_delete; [set_solver|]. repeat (apply dseg_insert; [set_solver|]). done.
  - apply nodup_mid_2; simpl; [set_solver..|done].
  - rewrite dom_delete_L, !dom_insert_L, Hdom, !fmap_app, !fmap_cons. set_solver.
Qed.

(** ** Tilings *)

Lemma tiles_app lo l1 l2 hi :
  tiles lo (l1 ++ l2) hi <-> exists mid, tiles lo l1 mid /\ tiles mid l2 hi.
Proof.
  revert lo. induction l1 as [|b l1 IH]; intros lo; simpl.
  - naive_solver.
  - rewrite IH. naive_solver.
Qed.

Lemma tiles_le lo l hi : tiles lo l hi -> lo <= hi.
Proof.
  revert lo. induction l as [|b l IH]; intros lo; simpl; [lia|].
  intros (? & ? & H%IH). lia.
Qed.

Lemma tiles_range lo l hi b : tiles lo l hi -> b ∈ l -> lo <= abeg b /\ abeg b < afin b /\ afin b <= hi.
Proof.
  revert lo. induction l as [|c l IH]; intros lo; simpl; [by intros _ ?%elem_of_nil|].
  intros (? & ? & Ht). pose proof (tiles_le _ _ _ Ht).
  intros [->|Hb]%elem_of_cons; [lia|]. specialize (IH _ Ht Hb). lia.
Qed.

Lemma tiles_mid lo l1 x l2 hi :
  tiles lo (l1 ++ x :: l2) hi <-> tiles lo l1 (abeg x) /\ abeg x < afin x /\ tiles (afin x) l2 hi.
Proof. rewrite tiles_app. simpl. naive_solver. Qed.

Lemma coalesced_app p l1 l2 :
  coalesced p (l1 ++ l2) <-> coalesced p l1 /\ coalesced (last_hole p l1) l2.
Proof.
  revert p. induction l1 as [|b l1 IH]; intros p; simpl.
  - unfold last_hole. simpl. tauto.
  - rewrite IH, last_hole_cons. tauto.
Qed.

Lemma coalesced_weaken p l : coalesced p l -> coalesced false l.
Proof. destruct l; naive_solver. Qed.

Lemma last_hole_snoc p l b : last_hole p (l ++ [b]) = ahole b.
Proof. unfold last_hole. by rewrite last_snoc. Qed.

(** ** The indices as functions of the blocks *)

Lemma list_to_map_mid {K V} `{Countable K} (l1 l2 : list (K * V)) k v :
  k ∉ l1.*1 -> list_to_map (l1 ++ (k, v) :: l2) =@{gmap K V} <[k := v]> (list_to_map (l1 ++ l2)).
Proof.
  induction l1 as [|[k' v'] l1 IH]; simpl; [done|]. intros Hk.
  rewrite IH by set_solver. apply insert_insert_ne. set_solver.
Qed.

Lemma list_to_map_fresh {K V} `{Countable K} (l : list (K * V)) k :
  k ∉ l.*1 -> (list_to_map l : gmap K V) !! k = None.
Proof. apply not_elem_of_list_to_map_1. Qed.

Lemma holes_key_in l k : k ∈ (omap hole_entry l).*1 ->
  exists b, b ∈ l /\ ahole b = true /\ k = (afin b - abeg b, abeg b).
Proof.
  intros ([k' x] & -> & (b & Hb & He)%list_elem_of_omap)%list_elem_of_fmap.
  unfold hole_entry in He. destruct (ahole b) eqn:?; naive_solver.
Qed.

Lemma hunks_key_in l k : k ∈ (omap hunk_entry l).*1 ->
  exists b, b ∈ l /\ ahole b = false /\ k = abeg b.
Proof.
  intros ([k' x] & -> & (b & Hb & He)%list_elem_of_omap)%list_elem_of_fmap.
  unfold hunk_entry in He. destruct (ahole b) eqn:?; naive_solver.
Qed.

Section indices.
Context (lo a b hi : Z) (l1 l2 : list ablk).
Context (T1 : tiles lo l1 a) (T2 : tiles b l2 hi).

(** No block begins inside a gap. *)
Lemma gap_no_begin x beg : a <= beg < b -> x ∈ l1 ++ l2 -> abeg x <> beg.
Proof using T1 T2.
  intros Hb [Hx|Hx]%elem_of_app.
  - pose proof (tiles_range _ _ _ _ T1 Hx). lia.
  - pose proof (tiles_range _ _ _ _ T2 Hx). lia.
Qed.

Lemma holes_of_gap sz beg : a <= beg < b -> holes_of (l1 ++ l2) !! (sz, beg) = None.
Proof using T1 T2.
  intros Hb. apply list_to_map_fresh. intros (x & Hx & _ & ?)%holes_key_in.
  apply (gap_no_begin x beg); naive_solver.
Qed.

Lemma hunks_of_gap beg : a <= beg < b -> hunks_of (l1 ++ l2) !! beg = None.
Proof using T1 T2.
  intros Hb. apply list_to_map_fresh. intros (x & Hx & _ & ?)%hunks_key_in.
  apply (gap_no_begin x beg); naive_solver.
Qed.

Lemma holes_of_hole x : a <= abeg x < b -> ahole x = true ->
  holes_of (l1 ++ x :: l2) = <[(afin x - abeg x, abeg x) := aloc x]> (holes_of (l1 ++ l2)).
Proof using T1 T2.
  intros Hb Hx. unfold holes_of. rewrite !omap_app. cbn. unfold hole_entry at 2. rewrite Hx.
  apply list_to_map_mid. intros (y & Hy & _ & ?)%holes_key_in.
  apply (gap_no_begin y (abeg x)); [done|set_solver|naive_solver].
Qed.

Lemma hunks_of_hunk x : a <= abeg x < b -> ahole x = false ->
  hunks_of (l1 ++ x :: l2) = <[abeg x := aloc x]> (hunks_of (l1 ++ l2)).
Proof using T1 T2.
  intros Hb Hx. unfold hunks_of. rewrite !omap_app. cbn. unfold hunk_entry at 2. rewrite Hx.
  apply list_to_map_mid. intros (y & Hy & _ & ?)%hunks_key_in.
  apply (gap_no_begin y (abeg x)); [done|set_solver|naive_solver].
Qed.
End indices.

Lemma holes_of_hunk l1 x l2 : ahole x = false -> holes_of (l1 ++ x :: l2) = holes_of (l1 ++ l2).
Proof. intros Hx. unfold holes_of. rewrite !omap_app. cbn. unfold hole_entry at 2. by rewrite Hx. Qed.

Lemma hunks_of_hole l1 x l2 : ahole x = true -> hunks_of (l1 ++ x :: l2) = hunks_of (l1 ++ l2).
Proof. intros Hx. unfold hunks_of. rewrite !omap_app. cbn. unfold hunk_entry at 2. by rewrite Hx. Qed.

Lemma holes_of_lookup l k x : holes_of l !! k = Some x ->
  exists l1 b l2, l = l1 ++ b :: l2 /\ ahole b = true /\ aloc b = x /\ k = (afin b - abeg b, abeg b).
Proof.
  intros (b & Hb & He)%elem_of_list_to_map_2%list_elem_of_omap.
  apply list_elem_of_split in Hb as (l1 & l2 & ->). exists l1, b, l2.
  unfold hole_entry in He. destruct (ahole b) eqn:?; naive_solver.
Qed.

Lemma hunks_of_lookup l k x : hunks_of l !! k = Some x ->
  exists l1 b l2, l = l1 ++ b :: l2 /\ ahole b = false /\ aloc b = x /\ k = abeg b.
Proof.
  intros (b & Hb & He)%elem_of_list_to_map_2%list_elem_of_omap.
  apply list_elem_of_split in Hb as (l1 & l2 & ->). exists l1, b, l2.
  unfold hunk_entry in He. destruct (ahole b) eqn:?; naive_solver.
Qed.

(** [lower_bound] returns a key of the map, and one not below any candidate. *)
Lemma lower_bound_spec m k :
  match lower_bound m k with
  | Some e => m !! e.1 = Some e.2 /\ pair_leb k e.1 = true
              /\ forall k' x, m !! k' = Some x -> pair_leb k k' = true -> pair_leb e.1 k' = true
  | None => forall k' x, m !! k' = Some x -> pair_leb k k' = false
  end.
Proof.
  assert (forall l, match foldr (lower_bound_step k) None l with
    | Some e => e ∈ l /\ pair_leb k e.1 = true
                /\ forall e', e' ∈ l -> pair_leb k e'.1 = true -> pair_leb e.1 e'.1 = true
    | None => forall e', e' ∈ l -> pair_leb k e'.1 = false
    end) as H.
  { induction l as [|e l IH]; simpl; [set_solver|]. unfold lower_bound_step at 1.
    destruct (pair_leb k e.1) eqn:Hke; destruct (foldr _ _ _) as [a|] eqn:Ha.
    - destruct IH as (Hin & Hka & Hmin). destruct (pair_leb e.1 a.1) eqn:Hea.
      + split_and!; [set_solver|done|]. intros e' [->|He']%elem_of_cons Hk'.
        * unfold pair_leb. lia.
        * specialize (Hmin _ He' Hk'). unfold pair_leb in *. lia.
      + split_and!; [set_solver|done|]. intros e' [->|He']%elem_of_cons Hk'; [|by apply Hmin].
        unfold pair_leb in *. lia.
    - split_and!; [set_solver|done|]. intros e' [->|He']%elem_of_cons Hk'.
      + unfold pair_leb. lia.
      + rewrite (IH _ He') in Hk'. done.
    - destruct IH as (Hin & Hka & Hmin). split_and!; [set_solver|done|].
      intros e' [->|He']%elem_of_cons Hk'; [congruence|by apply Hmin].
    - intros e' [->|He']%elem_of_cons; [done|by apply IH]. }
  specialize (H (map_to_list m)). fold (lower_bound m k) in H. destruct (lower_bound m k) as [e|].
  - destruct H as (Hin & Hk & Hmin). split_and!; [|done|].
    + destruct e. by apply elem_of_map_to_list.
    + intros k' x Hm. apply (Hmin (k', x)). by apply elem_of_map_to_list.
  - intros k' x Hm. apply (H (k', x)). by apply elem_of_map_to_list.
Qed.

(** * Invariant *)

Definition endblk (st : state) (sz : Z) : ablk := mk_ablk (endpost st) false sz sz.

(** The class comment's invariants, and what the indices hold. *)
Record inv (st : state) (l : list ablk) (sz : Z) : Prop := {
  inv_linked : linked (heap st) (l ++ [endblk st sz]);
  inv_tiles : tiles 0 l sz;
  inv_coalesced : coalesced false l;
  inv_holes : holes_by_size st = holes_of l;
  inv_hunks : hunks_by_begin st = hunks_of l;
  inv_base : 0 <= seg_base st;
  inv_top : seg_base st + sz < 2 ^ 63
}.

(** Every hunk of [l] is still there in [l'], where it began and as big or bigger. *)
Definition grows (l l' : list ablk) : Prop :=
  forall b, b ∈ l -> ahole b = false ->
    exists b', b' ∈ l' /\ aloc b' = aloc b /\ ahole b' = false /\ abeg b' = abeg b /\ afin b <= afin b'.

Lemma grows_refl l : grows l l.
Proof. intros b Hb Hh. exists b. split_and!; [done..|lia]. Qed.

Lemma grows_app l1 l1' l2 l2' : grows l1 l1' -> grows l2 l2' -> grows (l1 ++ l2) (l1' ++ l2').
Proof.
  intros H1 H2 b [Hb|Hb]%elem_of_app Hh.
  - destruct (H1 b Hb Hh) as (b' & ? & ?). exists b'. split; [|done]. apply elem_of_app. by left.
  - destruct (H2 b Hb Hh) as (b' & ? & ?). exists b'. split; [|done]. apply elem_of_app. by right.
Qed.

Lemma grows_trans l1 l2 l3 : grows l1 l2 -> grows l2 l3 -> grows l1 l3.
Proof.
  intros H1 H2 b Hb Hh. destruct (H1 b Hb Hh) as (b' & Hb' & E1 & Hh' & E2 & E3).
  destruct (H2 b' Hb' Hh') as (b'' & ? & ? & ? & ? & ?). exists b''.
  split_and!; [done|congruence|done|congruence|lia].
Qed.

Lemma grows_cons_hole b l l' : ahole b = true -> grows l l' -> grows (b :: l) l'.
Proof. intros Hb Hg c [->|Hc]%elem_of_cons Hh; [congruence|by apply Hg]. Qed.

Lemma grows_skip b l l' : grows l l' -> grows l (b :: l').
Proof. intros Hg c Hc Hh. destruct (Hg c Hc Hh) as (c' & ? & ?). exists c'. split; [by right|done]. Qed.

Lemma grows_nil l : grows [] l.
Proof. by intros ? ?%elem_of_nil. Qed.

#[local] Hint Resolve grows_refl grows_app grows_cons_hole grows_skip grows_nil : upcxx.

(** [linked] does not look at where a block ends. *)
Lemma linked_afin h l1 x l2 fin :
  linked h (l1 ++ x :: l2) -> linked h (l1 ++ mk_ablk (aloc x) (ahole x) (abeg x) fin :: l2).
Proof.
  intros Hl. pose proof (linked_lookup _ _ _ _ Hl) as Hx.
  apply (linked_relabel _ _ _ (mk_ablk (aloc x) (ahole x) (abeg x) fin)) in Hl; [|done].
  simpl in Hl. by rewrite insert_id in Hl.
Qed.

Lemma app_mid {A} (l1 : list A) x l2 : l1 ++ x :: l2 = (l1 ++ [x]) ++ l2.
Proof. by rewrite <- (assoc_L (++)). Qed.

Lemma w63_small z : 0 <= z < 2 ^ 63 -> w63 z = z.
Proof. apply Z.mod_small. Qed.

Lemma insert_hole_fresh m l b sz :
  m !! (sz, b) = None -> insert_hole_by_size m l b sz = <[(sz, b) := l]> m.
Proof. unfold insert_hole_by_size. by intros ->. Qed.

Lemma set_hole_begin_ok h l1 x l2 hole : linked h (l1 ++ x :: l2) ->
  exists h', set_hole hole h (aloc x) = Ok h'
    /\ linked h' (l1 ++ mk_ablk (aloc x) hole (abeg x) (afin x) :: l2).
Proof.
  intros Hl. pose proof (linked_lookup _ _ _ _ Hl) as Hx.
  unfold set_hole, store_with, load. rewrite Hx. cbn. eexists. split; [done|].
  by apply (linked_relabel _ _ _ (mk_ablk (aloc x) hole (abeg x) (afin x))) in Hl.
Qed.

Lemma set_begin_ok h l1 x l2 b : linked h (l1 ++ x :: l2) -> 0 <= b < 2 ^ 63 ->
  exists h', set_begin b h (aloc x) = Ok h'
    /\ linked h' (l1 ++ mk_ablk (aloc x) (ahole x) b (afin x) :: l2).
Proof.
  intros Hl Hb. pose proof (linked_lookup _ _ _ _ Hl) as Hx.
  unfold set_begin, store_with, load. rewrite Hx. cbn. rewrite w63_small by done.
  eexists. split; [done|].
  by apply (linked_relabel _ _ _ (mk_ablk (aloc x) (ahole x) b (afin x))) in Hl.
Qed.

Section carve.
Context (h : heap_t) (l1 : list ablk) (x : ablk) (r : list ablk) (E : ablk) (sz : Z).
Context (Hl : linked h (l1 ++ x :: r ++ [E])).
Context (T1 : tiles 0 l1 (abeg x)) (T2 : tiles (afin x) r sz) (Hsz : sz < 2 ^ 63).

Lemma carve_left_ok m_begin :
  ahole x = true -> coalesced false l1 -> last_hole false l1 = false ->
  abeg x <= m_begin < afin x ->
  exists h' m l1',
    carve_left h (holes_of (l1 ++ r)) (aloc x) (abeg x) (afin x) m_begin
      = Ok (h', holes_of (l1' ++ r), m)
    /\ linked h' (l1' ++ mk_ablk m false m_begin (afin x) :: r ++ [E])
    /\ tiles 0 l1' m_begin /\ coalesced false l1'
    /\ hunks_of (l1' ++ r) = hunks_of (l1 ++ r) /\ grows l1 l1'.
Proof using Hl T1 T2 Hsz.
  intros Hx Hc Hlast Hm. pose proof (tiles_le _ _ _ T1). pose proof (tiles_le _ _ _ T2).
  unfold carve_left. destruct (Z.ltb_spec (abeg x) m_begin) as [Hlt|Hge].
  - pose proof (linked_lookup _ _ _ _ Hl) as Hxl. unfold load. rewrite Hxl. cbn.
    rewrite (w64_small (m_begin - abeg x)) by (unfold is_u64, w64_mod; lia).
    assert (exists small : bool,
      match last_loc None l1 with
      | None => Ok false
      | Some p => pb ← deref (h !! p); Ok (m_begin - abeg x <? w64 (afin x - begin pb) / 16)
      end = Ok small /\ (small = true -> exists l0 w, l1 = l0 ++ [w])) as (small & -> & Hsmall).
    { destruct (last l1) as [w|] eqn:Hw.
      - apply last_Some in Hw as [l0 ->]. rewrite last_loc_snoc.
        rewrite <- app_mid in Hl. rewrite (linked_lookup _ _ _ _ Hl). cbn. eauto.
      - apply last_None in Hw as ->. exists false. done. }
    cbn. destruct small.
    + destruct Hsmall as (l0 & w & ->); [done|]. rewrite last_hole_snoc in Hlast.
      destruct (set_hole_begin_ok _ _ _ _ false Hl) as (h1 & -> & Hl1). cbn.
      destruct (set_begin_ok _ _ _ _ m_begin Hl1) as (h2 & Hb & Hl2); [lia|].
      simpl in Hb. rewrite Hb. cbn.
      apply tiles_mid in T1 as (T0 & Hw & Hfw). simpl in Hfw.
      exists h2, (aloc x), (l0 ++ [mk_ablk (aloc w) false (abeg w) m_begin]).
      apply coalesced_app in Hc as [Hc0 _]. split_and!.
      * rewrite <- !app_mid, !holes_of_hunk by done. done.
      * rewrite <- app_mid in Hl2 |- *. apply (linked_afin _ _ _ _ m_begin) in Hl2.
        by rewrite Hlast in Hl2.
      * apply tiles_mid. simpl. split_and!; [done|lia|done].
      * apply coalesced_app. simpl. rewrite andb_false_r. done.
      * rewrite <- !app_mid. unfold hunks_of. rewrite !omap_app. cbn.
        unfold hunk_entry. by rewrite Hlast.
      * apply grows_app; [apply grows_refl|]. intros b ->%list_elem_of_singleton Hb'.
        eexists. split; [by left|]. simpl. split_and!; [done..|lia].
    + destruct (link_new_after_ok _ _ _ _ false m_begin (afin x) Hl) as (h1 & m & -> & Hl1).
      { by destruct r. }
      cbn. exists h1, m, (l1 ++ [mk_ablk (aloc x) (ahole x) (abeg x) m_begin]).
      rewrite w63_small in Hl1 by lia. split_and!.
      * rewrite insert_hole_fresh by (eapply holes_of_gap; [done..|lia]).
        rewrite <- app_mid. erewrite (holes_of_hole _ _ _ _ l1 r); [|done..|simpl; lia|done]. done.
      * rewrite <- app_mid. by apply linked_afin.
      * apply tiles_mid. simpl. split_and!; [done|lia|done].
      * apply coalesced_app. simpl. by rewrite Hlast.
      * rewrite <- app_mid. by apply hunks_of_hole.
      * intros b Hb Hh. exists b. split_and!; [apply elem_of_app; by left|done..|lia].
  - assert (m_begin = abeg x) as -> by lia.
    destruct (set_hole_begin_ok _ _ _ _ false Hl) as (h1 & -> & Hl1). cbn.
    exists h1, (aloc x), l1. split_and!; try done. apply grows_refl.
Qed.

Lemma carve_right_ok m_end :
  ahole x = false -> abeg x < m_end <= afin x -> coalesced true r ->
  exists h' r',
    carve_right h (holes_of (l1 ++ r)) (aloc x) m_end (afin x) = Ok (h', holes_of (l1 ++ r'))
    /\ linked h' (l1 ++ mk_ablk (aloc x) false (abeg x) m_end :: r' ++ [E])
    /\ tiles m_end r' sz /\ coalesced false r'
    /\ hunks_of (l1 ++ r') = hunks_of (l1 ++ r) /\ grows r r'.
Proof using Hl T1 T2 Hsz.
  intros Hx Hm Hc. pose proof (tiles_le _ _ _ T1). pose proof (tiles_le _ _ _ T2).
  unfold carve_right. destruct (Z.ltb_spec m_end (afin x)) as [Hlt|Hge].
  - destruct (link_new_after_ok _ _ _ _ true m_end (afin x) Hl) as (h1 & m & -> & Hl1).
    { by destruct r. }
    rewrite w63_small in Hl1 by lia. cbn.
    rewrite w63_small, w64_small by (unfold is_u64, w64_mod; lia).
    exists h1, (mk_ablk m true m_end (afin x) :: r). split_and!.
    + rewrite insert_hole_fresh by (eapply holes_of_gap; [done..|lia]).
      erewrite (holes_of_hole _ _ _ _ l1 r); [|done..|simpl; lia|done]. done.
    + rewrite <- Hx. by apply linked_afin.
    + simpl. split_and!; [done|lia|done].
    + simpl. done.
    + by apply hunks_of_hole.
    + apply grows_skip, grows_refl.
  - assert (m_end = afin x) as -> by lia. exists h, r. split_and!; try done.
    + destruct x; simpl in *. by subst.
    + by apply (coalesced_weaken true).
    + apply grows_refl.
Qed.
End carve.

(** The block after [x] begins where [x] ends. *)
Lemma next_block st sz lo r : tiles lo r sz ->
  exists y rest, r ++ [endblk st sz] = y :: rest /\ abeg y = lo.
Proof.
  destruct r as [|y r]; simpl; [intros ->; by eexists _, _|]. intros (? & _). by eexists _, _.
Qed.

Lemma linked_next h l1 x y rest : linked h (l1 ++ x :: y :: rest) ->
  h !! aloc y = Some (mk_block (ahole y) (abeg y) (Some (aloc x)) (hd_loc rest None)).
Proof. rewrite app_mid. intros H%linked_lookup. by rewrite last_loc_snoc in H. Qed.

(** What a successful [allocate] of [m_size] bytes (after rounding) delivers. *)
Record allocated (st : state) (l : list ablk) (sz m_size m_align p : Z) (st' : state) : Prop := {
  alloc_st_base : seg_base st' = seg_base st;
  alloc_st_inv : exists l1' m r',
    inv st' (l1' ++ m :: r') sz /\ ahole m = false
    /\ p = seg_base st + abeg m /\ afin m = abeg m + m_size
    /\ hunks_by_begin st !! abeg m = None
    /\ hunks_by_begin st' = <[abeg m := aloc m]> (hunks_by_begin st)
    /\ grows l (l1' ++ r');
  alloc_st_align : (m_align | p)
}.

Lemma align_in_hole base hb align : pow2 align -> align <= 2 ^ 63 -> 0 <= base -> 0 <= hb ->
  base + hb < 2 ^ 63 ->
  exists mb, w64 (align_up (base + hb) align - base) = mb
    /\ hb <= mb < hb + align /\ base + mb <= 2 ^ 63 /\ (align | base + mb).
Proof.
  intros Ha Hle Hb Hh Hlt. pose proof (pow2_pos _ Ha).
  rewrite align_up_round by (done || unfold w64_mod; lia).
  pose proof (round_up_ge (base + hb) align). pose proof (round_up_lt (base + hb) align).
  assert (round_up (base + hb) align <= 2 ^ 63).
  { apply round_up_least; [lia..|]. destruct Ha as [k [Hk ->]]. exists (2 ^ (63 - k)).
    apply Z.pow_le_mono_r_iff in Hle; [|lia..]. rewrite <- Z.pow_add_r by lia. f_equal. lia. }
  rewrite w64_small by (unfold is_u64, w64_mod; lia). eexists. split; [done|].
  split_and!; [lia..|].
  replace (base + (round_up (base + hb) align - base)) with (round_up (base + hb) align) by lia.
  apply round_up_divide.
Qed.

Lemma attempt_ok st l sz m_size m_align padded :
  inv st l sz -> 0 < m_size <= padded -> pow2 m_align -> m_align <= 2 ^ 63 ->
  exists r, attempt st m_size m_align padded = Ok r
    /\ match r with
       | NoHole => forall b, b ∈ l -> ahole b = true -> afin b - abeg b < padded
       | NoFit => m_size <= sz /\ padded < m_size + m_align - 1
       | Fit p st' => allocated st l sz m_size m_align p st'
       end.
Proof.
  intros Hi Hm Ha Hal. unfold attempt.
  pose proof (lower_bound_spec (holes_by_size st) (padded, 0)) as Hlb.
  destruct Hi as [Hl Ht Hc Hho Hhu Hb0 Hb1].
  destruct (lower_bound _ _) as [[[ksz kb] hl]|]; simpl in Hlb.
  2:{ eexists. split; [done|]. intros b Hb Hh. pose proof (tiles_range _ _ _ _ Ht Hb).
      rewrite Hho in Hlb. apply list_elem_of_split in Hb as (l1 & r & ->).
      pose proof Ht as Ht'. apply tiles_mid in Ht' as (T1 & ? & T2).
      specialize (Hlb (afin b - abeg b, abeg b) (aloc b)). unfold pair_leb in Hlb. simpl in Hlb.
      erewrite holes_of_hole, lookup_insert_eq in Hlb; [|done..|lia|done].
      specialize (Hlb eq_refl). lia. }
  destruct Hlb as (Hk & Hge & _). rewrite Hho in Hk.
  apply holes_of_lookup in Hk as (l1 & x & r & -> & Hx & <- & Hkey).
  injection Hkey as -> ->. unfold pair_leb in Hge. simpl in Hge.
  rewrite <- (assoc_L (++)), <- app_comm_cons in Hl.
  apply tiles_mid in Ht as (T1 & Hxl & T2).
  pose proof (tiles_le _ _ _ T1). pose proof (tiles_le _ _ _ T2).
  pose proof (linked_lookup _ _ _ _ Hl) as Hlx.
  destruct (next_block st sz _ _ T2) as (y & rest & Hy & Hyb).
  pose proof Hl as Hl'. rewrite Hy in Hl', Hlx. apply linked_next in Hl'.
  unfold load. rewrite Hlx. cbn. rewrite Hl'. cbn. rewrite Hyb.
  destruct (align_in_hole (seg_base st) (abeg x) m_align) as (mb & -> & Hmb & Hmt & Hmd); [done|lia..|].
  rewrite (w64_small (mb + m_size)) by (unfold is_u64, w64_mod; lia).
  destruct (Z.leb_spec (mb + m_size) (afin x)).
  2:{ eexists. split; [done|]. simpl. lia. }
  assert (delete (afin x - abeg x, abeg x) (holes_by_size st) = holes_of (l1 ++ r)) as ->.
  { rewrite Hho. erewrite holes_of_hole by (done || lia). rewrite delete_insert_id; [done|].
    eapply holes_of_gap; [done..|lia]. }
  apply coalesced_app in Hc as [Hc1 [Hlast Hc2]]. rewrite Hx in *. rewrite andb_true_r in Hlast.
  destruct (carve_left_ok _ _ _ _ _ _ Hl T1 T2 ltac:(lia) mb) as (h1 & m & l1' & -> & L1 & T1' & C1 & Hu1 & G1);
    [done..|lia|]. cbn.
  destruct (carve_right_ok _ _ _ _ _ _ L1 T1' T2 ltac:(lia) (mb + m_size))
    as (h2 & r' & Hcr & L2 & T2' & C2 & Hu2 & G2); [done|simpl; lia|done|].
  simpl in Hcr. rewrite Hcr. cbn. eexists. split; [done|]. simpl.
  rewrite (w64_small (seg_base st + mb)) by (unfold is_u64, w64_mod; lia).
  assert (hunks_by_begin st = hunks_of (l1 ++ r)) as Hhu' by (by rewrite Hhu, hunks_of_hole).
  split; [done| |done]. exists l1', (mk_ablk m false mb (mb + m_size)), r'. simpl. split_and!; try done.
  - split; simpl.
    + rewrite <- (assoc_L (++)), <- app_comm_cons. done.
    + apply tiles_mid. simpl. split_and!; [done|lia|done].
    + apply coalesced_app. simpl. rewrite andb_false_r. split_and!; done.
    + by rewrite holes_of_hunk.
    + rewrite (hunks_of_hunk 0 mb (mb + m_size) sz); [|done..|simpl; lia|done].
      simpl. by rewrite Hu2, Hu1, Hhu'.
    + done.
    + done.
  - rewrite Hhu'. eapply hunks_of_gap; [done..|lia].
  - apply grows_app; [done|]. by apply grows_cons_hole.
Qed.

(** ** Size classes *)

Lemma pow2_max a b : pow2 a -> pow2 b -> pow2 (Z.max a b) /\ (b | Z.max a b).
Proof.
  intros Ha Hb. destruct (Z.max_spec a b) as [[? ->]|[? ->]]; split; try done.
  by apply pow2_divide; [..|lia].
Qed.

Lemma land_round_up m k : 0 <= k < 64 -> 0 <= m -> m + 2 ^ k <= w64_mod ->
  Z.land (w64 (m + 2 ^ k - 1)) (w64 (- 2 ^ k)) = round_up m (2 ^ k).
Proof.
  intros Hk Hm Hle. assert (0 < 2 ^ k) by (apply Z.pow_pos_nonneg; lia).
  rewrite w64_small by (unfold is_u64; lia). by rewrite land_w64_opp by (unfold is_u64; lia).
Qed.

Lemma adjust_ok m_size m_align s a : 0 < m_size <= 2 ^ 64 - 4096 -> pow2 m_align -> m_align <= 2 ^ 63 ->
  adjust m_size m_align = (s, a) ->
  m_size <= s < m_size + 4096 /\ pow2 a /\ a <= 2 ^ 63 /\ (m_align | a).
Proof.
  intros Hm Ha Hal. unfold adjust. assert (pow2 4096) by (by exists 12). assert (pow2 64) by (by exists 6).
  destruct (Z.leb_spec (2 * 4096) m_size); [|destruct (Z.leb_spec (2 * 64) m_size)];
    intros [= <- <-].
  - destruct (pow2_max 4096 m_align); [done..|].
    assert (Z.land (w64 (m_size + 4096 - 1)) (w64 (- 4096)) = round_up m_size 4096) as ->
      by (apply (land_round_up m_size 12); unfold w64_mod; lia).
    pose proof (round_up_ge m_size 4096). pose proof (round_up_lt m_size 4096).
    split_and!; try done; lia.
  - destruct (pow2_max 64 m_align); [done..|].
    assert (Z.land (w64 (m_size + 64 - 1)) (w64 (- 64)) = round_up m_size 64) as ->
      by (apply (land_round_up m_size 6); unfold w64_mod; lia).
    pose proof (round_up_ge m_size 64). pose proof (round_up_lt m_size 64).
    split_and!; try done; lia.
  - split_and!; [lia..|done|done|done].
Qed.

(** ** Fusing *)

Ltac scbn :=
  repeat progress (mcbn; cbn [is_hole begin prev next hd_loc aloc ahole abeg afin]).

Section fuse.
Context (h : heap_t) (l1 : list ablk) (x : ablk) (r : list ablk) (st : state) (sz : Z).
Context (Hl : linked h (l1 ++ x :: r ++ [endblk st sz])).
Context (T1 : tiles 0 l1 (abeg x)) (Hxl : abeg x < afin x) (T2 : tiles (afin x) r sz).
Context (Hsz : sz < 2 ^ 63).

Lemma fuse_left_ok : ahole x = false -> coalesced false l1 ->
  exists h' l1' y,
    fuse_left h (holes_of (l1 ++ r)) (aloc x) (abeg x) (afin x)
      = Ok (h', holes_of (l1' ++ y :: r), aloc y, abeg y)
    /\ linked h' (l1' ++ y :: r ++ [endblk st sz])
    /\ ahole y = true /\ afin y = afin x /\ abeg y <= abeg x
    /\ tiles 0 l1' (abeg y) /\ coalesced false l1' /\ last_hole false l1' = false
    /\ hunks_of (l1' ++ r) = hunks_of (l1 ++ r).
Proof using Hl T1 Hxl T2 Hsz.
  intros Hx Hc. pose proof (linked_lookup _ _ _ _ Hl) as Hlx.
  pose proof (tiles_le _ _ _ T1). pose proof (tiles_le _ _ _ T2).
  unfold fuse_left. unfold load. rewrite Hlx. cbn.
  destruct (last l1) as [w|] eqn:Hw; [apply last_Some in Hw as [l0 ->]|apply last_None in Hw as ->].
  - rewrite last_loc_snoc. pose proof Hl as Hlw. rewrite <- app_mid in Hlw.
    rewrite (linked_lookup _ _ _ _ Hlw). cbn.
    apply tiles_mid in T1 as (T0 & Hwl & Hwf). simpl in Hwf.
    apply coalesced_app in Hc as [Hc0 [Hc1 _]].
    destruct (ahole w) eqn:Hwh; cbn.
    + rewrite andb_true_r in Hc1.
      destruct (unlink_after_ok _ _ _ _ _ Hlw) as (h1 & -> & Hl1); [by destruct r|]. cbn.
      rewrite !w64_small by (unfold is_u64, w64_mod; pose proof (tiles_le _ _ _ T0); lia).
      exists h1, l0, (mk_ablk (aloc w) true (abeg w) (afin x)). simpl.
      assert (holes_of ((l0 ++ [w]) ++ r) = <[(abeg x - abeg w, abeg w) := aloc w]> (holes_of (l0 ++ r))) as ->.
      { rewrite <- app_mid. rewrite (holes_of_hole 0 (abeg w) (afin x) sz) by (done || lia). by rewrite Hwf. }
      assert (forall s b, abeg w <= b < afin x -> holes_of (l0 ++ r) !! (s, b) = None) as Hgap.
      { intros. eapply holes_of_gap; done. }
      split_and!; try done; [|..].
      * rewrite delete_insert_id, insert_hole_fresh by (apply Hgap; lia).
        by rewrite (holes_of_hole 0 (abeg w) (afin x) sz) by (done || (simpl; lia)).
      * rewrite <- Hwh. by apply linked_afin.
      * lia.
      * rewrite <- app_mid. by rewrite hunks_of_hole.
    + destruct (set_hole_begin_ok _ _ _ _ true Hl) as (h1 & -> & Hl1). cbn.
      rewrite w64_small by (unfold is_u64, w64_mod; lia).
      exists h1, (l0 ++ [w]), (mk_ablk (aloc x) true (abeg x) (afin x)). simpl.
      assert (tiles 0 (l0 ++ [w]) (abeg x)) as T1'. { apply tiles_mid. simpl. done. }
      split_and!; try done.
      * rewrite insert_hole_fresh by (eapply holes_of_gap; [done..|lia]).
        by rewrite (holes_of_hole 0 (abeg x) (afin x) sz ((l0 ++ [w])) r) by (done || (simpl; lia)).
      * apply coalesced_app. simpl. rewrite Hwh, andb_false_r. done.
      * by rewrite last_hole_snoc.
  - destruct (set_hole_begin_ok _ _ _ _ true Hl) as (h1 & -> & Hl1). cbn.
    rewrite w64_small by (unfold is_u64, w64_mod; lia).
    exists h1, [], (mk_ablk (aloc x) true (abeg x) (afin x)). simpl. split_and!; try done.
    rewrite insert_hole_fresh by (eapply (holes_of_gap 0 _ _ _ []); [done..|lia]).
    pose proof (holes_of_hole 0 (abeg x) (afin x) sz [] r T1 T2
                  (mk_ablk (aloc x) true (abeg x) (afin x))) as He.
    simpl in He. by rewrite He by (done || lia).
Qed.

Lemma fuse_right_ok : ahole x = true -> coalesced false r ->
  exists h' y r',
    fuse_right h (holes_of (l1 ++ x :: r)) (aloc x) (abeg x) = Ok (h', holes_of (l1 ++ y :: r'))
    /\ linked h' (l1 ++ y :: r' ++ [endblk st sz])
    /\ ahole y = true /\ abeg y = abeg x /\ afin x <= afin y
    /\ tiles (afin y) r' sz /\ coalesced true r'
    /\ hunks_of (l1 ++ r') = hunks_of (l1 ++ r).
Proof using Hl T1 Hxl T2 Hsz.
  intros Hx Hc. pose proof (linked_lookup _ _ _ _ Hl) as Hlx.
  pose proof (tiles_le _ _ _ T1). pose proof (tiles_le _ _ _ T2).
  unfold fuse_right, load. rewrite Hlx. scbn. destruct r as [|z r'].
  - simpl in Hl. pose proof (linked_next _ _ _ _ _ Hl) as Hle. cbn. simpl in Hle. rewrite Hle. cbn.
    exists h, x, []. done.
  - change ((z :: r') ++ [endblk st sz]) with (z :: (r' ++ [endblk st sz])) in *.
    pose proof (linked_next _ _ _ _ _ Hl) as Hlz. scbn. rewrite Hlz. scbn.
    destruct T2 as (Hzb & Hzl & T3). pose proof (tiles_le _ _ _ T3).
    destruct (ahole z) eqn:Hz.
    + destruct (next_block st sz _ _ T3) as (u & rest & Hu & Hub). rewrite Hu. scbn.
      rewrite Hu in Hl.
      pose proof Hl as Hl'. rewrite app_mid in Hl'. apply linked_next in Hl'. rewrite Hl'. scbn.
      destruct (unlink_after_ok _ _ _ _ _ Hl) as (h1 & -> & Hl1); [done|]. cbn.
      rewrite Hub, !w64_small by (unfold is_u64, w64_mod; lia).
      exists h1, (mk_ablk (aloc x) true (abeg x) (afin z)), r'. simpl.
      assert (forall s b, abeg x <= b < afin z -> holes_of (l1 ++ r') !! (s, b) = None) as Hgap.
      { intros. eapply holes_of_gap; done. }
      split_and!; try done.
      * rewrite (holes_of_hole 0 (abeg x) (afin x) sz l1 (z :: r')) by (done || (simpl; lia)).
        rewrite (holes_of_hole 0 (abeg x) (afin z) sz l1 r') by (done || (simpl; lia)).
        rewrite Hzb. rewrite delete_insert_ne by (intros [= ? ?]; lia).
        rewrite (delete_insert_id (holes_of _)) by (apply Hgap; lia).
        rewrite delete_insert_id, insert_hole_fresh by (apply Hgap; lia).
        by rewrite (holes_of_hole 0 (abeg x) (afin z) sz l1 r') by (done || (simpl; lia)).
      * rewrite Hu, <- Hx. by apply linked_afin.
      * lia.
      * destruct Hc as [_ Hc]. by rewrite Hz in Hc.
      * by rewrite hunks_of_hole.
    + exists h, x, (z :: r'). destruct Hc as [_ Hc]. rewrite Hz in Hc.
      split_and!; simpl; rewrite ?Hz; done || lia.
Qed.
End fuse.

(** ** Where a pointer lives *)

Lemma inv_hunk_at st l sz b : inv st l sz -> b ∈ l -> ahole b = false ->
  hunks_by_begin st !! abeg b = Some (aloc b).
Proof.
  intros Hi Hb Hh. rewrite (inv_hunks _ _ _ Hi).
  apply list_elem_of_split in Hb as (l1 & r & ->).
  pose proof (inv_tiles _ _ _ Hi) as (T1 & ? & T2)%tiles_mid.
  erewrite hunks_of_hunk by (done || lia). apply lookup_insert_eq.
Qed.

Lemma deallocate_ok st l1 x r sz :
  inv st (l1 ++ x :: r) sz -> ahole x = false ->
  exists st' l1' y r',
    deallocate st (Some (seg_base st + abeg x)) = Ok st'
    /\ inv st' (l1' ++ y :: r') sz /\ seg_base st' = seg_base st
    /\ ahole y = true /\ abeg y <= abeg x /\ afin x <= afin y
    /\ hunks_by_begin st' = delete (abeg x) (hunks_by_begin st).
Proof.
  intros Hi Hx. pose proof (inv_hunk_at _ _ _ x Hi) as Hat.
  destruct Hi as [Hl Ht Hc Hho Hhu Hb0 Hb1].
  rewrite <- (assoc_L (++)), <- app_comm_cons in Hl.
  apply tiles_mid in Ht as (T1 & Hxl & T2).
  pose proof (tiles_le _ _ _ T1). pose proof (tiles_le _ _ _ T2).
  apply coalesced_app in Hc as [Hc1 [_ Hc2]]. rewrite Hx in Hc2.
  unfold deallocate. rewrite w64_small by (unfold is_u64, w64_mod; lia).
  replace (seg_base st + abeg x - seg_base st) with (abeg x) by lia.
  rewrite Hat by (done || set_solver).
  pose proof (linked_lookup _ _ _ _ Hl) as Hlx.
  destruct (next_block st sz _ _ T2) as (n & rest & Hn & Hnb).
  pose proof Hl as Hl'. rewrite Hn in Hl', Hlx. apply linked_next in Hl'.
  unfold load. rewrite Hlx. scbn. rewrite Hl'. scbn. rewrite Hnb, Hho, holes_of_hunk by done.
  destruct (fuse_left_ok _ _ _ _ _ _ Hl T1 Hxl T2 ltac:(lia)) as
    (h1 & l1' & y & -> & Hl1 & Hy & Hyf & Hyb & T1' & Hc1' & Hlast & Hu1); [done..|]. mcbn.
  rewrite <- Hyf in T2.
  destruct (fuse_right_ok _ _ _ _ _ _ Hl1 T1' ltac:(lia) T2 ltac:(lia)) as
    (h2 & z & r' & -> & Hl2 & Hz & Hzb & Hzf & T2' & Hc2' & Hu2); [done|by apply coalesced_weaken in Hc2|].
  mcbn. exists (mk_state (seg_base st) (endpost st) h2 (holes_of (l1' ++ z :: r')) (delete (abeg x) (hunks_by_begin st))), l1', z, r'. split_and!; try done; [|lia..].
  split; simpl; try done.
  - by rewrite <- (assoc_L (++)), <- app_comm_cons.
  - apply tiles_mid. rewrite Hzb. split_and!; [done|lia|done].
  - apply coalesced_app. simpl. rewrite Hlast, Hz. done.
  - rewrite Hhu, (hunks_of_hole l1' z r'), Hu2, Hu1 by done.
    rewrite (hunks_of_hunk 0 (abeg x) (afin x) sz l1 r) by (done || congruence || lia).
    rewrite delete_insert_id; [done|]. apply (hunks_of_gap 0 (abeg x) (afin x) sz l1 r); congruence || lia.
Qed.

(** ** Construction *)

Lemma init_inv base sz ep : 0 <= base -> 0 <= sz -> base + sz < 2 ^ 63 ->
  exists l, inv (segment_allocator base sz ep) l sz
    /\ hunks_by_begin (segment_allocator base sz ep) = ∅.
Proof.
  intros Hb Hs Ht. unfold segment_allocator. rewrite w63_small by lia.
  destruct (Z.eqb_spec sz 0) as [->|Hne].
  - exists []. split; [|done]. split; simpl; try done. split; simpl.
    + by rewrite lookup_singleton_eq.
    + apply NoDup_singleton.
    + rewrite dom_singleton_L. set_solver.
  - unfold new_block. set (m := fresh _).
    assert (m <> ep) as Hm.
    { pose proof (is_fresh (dom ({[ep := mk_block false sz None None]} : heap_t))) as Hf.
      fold m in Hf. rewrite dom_singleton_L in Hf. set_solver. }
    exists [mk_ablk m true 0 sz]. split; [|done]. split; simpl; try done; try lia.
    split; simpl.
    + split_and!; [|by map_lookups|done]. by map_lookups.
    + apply NoDup_cons. split; [set_solver|apply NoDup_singleton].
    + rewrite !dom_insert_L, dom_singleton_L. set_solver.
    + rewrite insert_hole_fresh by done. unfold holes_of. simpl. by rewrite Z.sub_0_r.
Qed.

(** * Theorems *)

Lemma allocate_spec st l sz m_size m_align :
  inv st l sz -> 0 <= m_size <= 2 ^ 64 - 4096 -> pow2 m_align -> m_align <= 2 ^ 63 ->
  exists o st', allocate st m_size m_align = Ok (o, st')
  /\ match o with
     | None => st' = st /\ (m_size = 0 \/
         forall b, b ∈ l -> ahole b = true ->
           afin b - abeg b < (adjust m_size m_align).1 + (adjust m_size m_align).2 - 1)
     | Some p => m_size <= (adjust m_size m_align).1 /\ (m_align | p)
         /\ allocated st l sz (adjust m_size m_align).1 (adjust m_size m_align).2 p st'
     end.
Proof.
  intros Hi Hm Ha Hal. unfold allocate. destruct (Z.eqb_spec m_size 0) as [->|Hne].
  { eexists None, st. auto. }
  destruct (adjust m_size m_align) as [s a] eqn:Had. simpl.
  destruct (adjust_ok m_size m_align s a ltac:(lia) Ha Hal Had) as (Hs & Hpa & Hale & Hdiv).
  pose proof (pow2_pos _ Hpa).
  destruct (attempt_ok st l sz s a s Hi) as (r & -> & Hr); [lia|done..|]. mcbn. destruct r as [| |p st'].
  - eexists None, st. split; [done|]. split; [done|]. right. intros b Hb Hh. specialize (Hr b Hb Hh). lia.
  - destruct Hr as [Hssz Hpad].
    pose proof (inv_base _ _ _ Hi). pose proof (inv_top _ _ _ Hi).
    rewrite w64_small by (unfold is_u64, w64_mod; lia).
    destruct (Z.eqb_spec (s + a - 1) s); [lia|].
    destruct (attempt_ok st l sz s a (s + a - 1) Hi) as (r & -> & Hr); [lia|done..|].
    mcbn. destruct r as [| |p st'].
    + eexists None, st. split; [done|]. split; [done|]. by right.
    + lia.
    + eexists (Some p), st'. split; [done|]. split_and!; [lia| |done].
      transitivity a; [done|]. by destruct Hr.
  - eexists (Some p), st'. split; [done|]. split_and!; [lia| |done].
    transitivity a; [done|]. by destruct Hr.
Qed.

(** C9: [allocate] on a well-formed allocator always returns.  A pointer it
    returns is aligned, starts a new hunk of the rounded size that lies in the
    segment apart from every hunk handed out before, and the allocator stays
    well formed; [nullptr] leaves the state as it was and means that no hole
    could hold the request at every alignment. *)
Theorem allocate_correct st l sz m_size m_align :
  inv st l sz -> 0 <= m_size <= 2 ^ 64 - 4096 -> pow2 m_align -> m_align <= 2 ^ 63 ->
  exists o st', allocate st m_size m_align = Ok (o, st')
  /\ match o with
     | None => st' = st /\ (m_size = 0 \/
         forall b, b ∈ l -> ahole b = true ->
           afin b - abeg b < (adjust m_size m_align).1 + (adjust m_size m_align).2 - 1)
     | Some p => m_size <= (adjust m_size m_align).1 /\ (m_align | p)
         /\ allocated st l sz (adjust m_size m_align).1 (adjust m_size m_align).2 p st'
     end.
Proof. apply allocate_spec. Qed.

Lemma allocate_correct_witness :
  exists o st', allocate (segment_allocator 65536 65536 1%positive) 100 16 = Ok (o, st').
Proof.
  destruct (init_inv 65536 65536 1%positive) as (l & Hi & _); [lia..|].
  destruct (allocate_correct _ l _ 100 16 Hi) as (o & st' & H & _); [lia|by exists 4|lia|].
  by exists o, st'.
Defined.

(** A state whose blocks are all accounted for cannot confuse two hunks. *)
Lemma tiles_disjoint lo l hi a b : tiles lo l hi -> a ∈ l -> b ∈ l -> a <> b ->
  afin a <= abeg b \/ afin b <= abeg a.
Proof.
  revert lo. induction l as [|c l IH]; intros lo; [by intros ? ?%elem_of_nil|].
  intros (-> & ? & T) [->|Ha]%elem_of_cons [->|Hb]%elem_of_cons Hne.
  - done.
  - left. by apply (tiles_range _ _ _ _ T Hb).
  - right. by apply (tiles_range _ _ _ _ T Ha).
  - by eapply IH.
Qed.

Lemma hunk_of_pointer st l sz p m : inv st l sz ->
  hunks_by_begin st !! w64 (p - seg_base st) = Some m ->
  exists l1 x r, l = l1 ++ x :: r /\ ahole x = false /\ aloc x = m
    /\ w64 (p - seg_base st) = abeg x.
Proof. intros Hi Hm. rewrite (inv_hunks _ _ _ Hi) in Hm. by apply hunks_of_lookup. Qed.

(** Deallocation depends on the pointer through its offset only. *)
Lemma deallocate_offset st p q : w64 (p - seg_base st) = w64 (q - seg_base st) ->
  deallocate st (Some p) = deallocate st (Some q).
Proof. unfold deallocate. by intros ->. Qed.

Lemma deallocate_spec st l sz p :
  inv st l sz ->
  match hunks_by_begin st !! w64 (p - seg_base st) with
  | None => deallocate st (Some p) = Aborted
  | Some m => exists st' l',
      deallocate st (Some p) = Ok st' /\ inv st' l' sz /\ seg_base st' = seg_base st
      /\ hunks_by_begin st' = delete (w64 (p - seg_base st)) (hunks_by_begin st)
      /\ exists x y, x ∈ l /\ aloc x = m /\ abeg x = w64 (p - seg_base st)
                   /\ y ∈ l' /\ ahole y = true /\ abeg y <= abeg x /\ afin x <= afin y
  end.
Proof.
  intros Hi. destruct (hunks_by_begin st !! _) as [m|] eqn:Hm.
  - destruct (hunk_of_pointer _ _ _ _ _ Hi Hm) as (l1 & x & r & -> & Hx & <- & Hp).
    destruct (deallocate_ok _ _ _ _ _ Hi Hx) as (st' & l1' & y & r' & Hd & Hi' & Hb & Hy & Hyb & Hyf & Hh).
    exists st', (l1' ++ y :: r'). rewrite (deallocate_offset st p (seg_base st + abeg x)).
    2:{ rewrite Hp. replace (seg_base st + abeg x - seg_base st) with (abeg x) by lia.
        rewrite <- Hp. by rewrite w64_idem. }
    split_and!; [done|done|done|congruence|]. exists x, y. split_and!; try done; set_solver.
  - unfold deallocate. by rewrite Hm.
Qed.

(** C10: [deallocate] of a pointer to a live hunk removes that hunk and nothing
    else, its bytes end up inside one hole, and the allocator stays well
    formed; any other pointer trips the assertion. *)
Theorem deallocate_correct st l sz p :
  inv st l sz ->
  match hunks_by_begin st !! w64 (p - seg_base st) with
  | None => deallocate st (Some p) = Aborted
  | Some m => exists st' l',
      deallocate st (Some p) = Ok st' /\ inv st' l' sz /\ seg_base st' = seg_base st
      /\ hunks_by_begin st' = delete (w64 (p - seg_base st)) (hunks_by_begin st)
      /\ exists x y, x ∈ l /\ aloc x = m /\ abeg x = w64 (p - seg_base st)
                   /\ y ∈ l' /\ ahole y = true /\ abeg y <= abeg x /\ afin x <= afin y
  end.
Proof. apply deallocate_spec. Qed.

Lemma deallocate_correct_witness : exists l,
  inv (segment_allocator 65536 65536 1%positive) l 65536
  /\ deallocate (segment_allocator 65536 65536 1%positive) (Some 65636) = Aborted.
Proof.
  destruct (init_inv 65536 65536 1%positive) as (l & Hi & _); [lia..|]. exists l. split; [done|].
  apply (deallocate_correct _ l 65536 65636 Hi).
Defined.

(** Once every hunk has been freed, coalescing has rebuilt the single hole
    the allocator started with, and all of the segment is reported free. *)
Theorem all_freed st l sz : inv st l sz -> hunks_by_begin st = ∅ ->
  (sz = 0 /\ l = [] \/ exists b, l = [mk_ablk b true 0 sz]) /\ segment_free st = sz.
Proof.
  intros Hi Hh. assert (forall b, b ∈ l -> ahole b = true) as Hall.
  { intros b Hb. destruct (ahole b) eqn:E; [done|].
    pose proof (inv_hunk_at _ _ _ _ Hi Hb E) as H. by rewrite Hh in H. }
  destruct Hi as [_ Ht Hc Hho _ _ _].
  unfold segment_free. rewrite Hho. destruct l as [|b [|c l]]; simpl in Ht.
  - subst sz. split; [by left|done].
  - destruct Ht as (Hb & _ & Hf). pose proof (Hall b) as Hbh.
    destruct b as [x hole bg fn]. simpl in *. subst. rewrite Hbh by set_solver.
    split; [right; by exists x|]. unfold holes_of. simpl. rewrite insert_empty, map_to_list_singleton. simpl. lia.
  - simpl in Hc. rewrite (Hall b), (Hall c) in Hc by set_solver. naive_solver.
Qed.

Lemma all_freed_witness : segment_free (segment_allocator 65536 65536 1%positive) = 65536.
Proof.
  destruct (init_inv 65536 65536 1%positive) as (l & Hi & Hh); [lia..|].
  apply (all_freed _ l _ Hi Hh).
Defined.

Lemma destroy_loop_ok h l n fuel : dseg h None l n -> NoDup (aloc <$> l) ->
  (length l <= fuel)%nat ->
  destroy_loop fuel (last_loc None l) h = Ok (foldr (fun b h => delete (aloc b) h) h l).
Proof.
  revert h n fuel. induction l as [|b l IH] using rev_ind; intros h n fuel Hd Hn Hf.
  - by destruct fuel.
  - rewrite last_loc_snoc. rewrite length_app in Hf. simpl in Hf.
    destruct fuel as [|fuel]; [lia|]. apply dseg_app in Hd as [Hd [Hb _]].
    simpl. unfold load. rewrite Hb. mcbn. cbn [prev].
    rewrite fmap_app in Hn. apply NoDup_app in Hn as (Hn & Hb' & _).
    rewrite (IH (delete (aloc b) h) (Some (aloc b))); [|..|lia].
    + by rewrite foldr_app.
    + apply dseg_delete; [|done]. intros Hin. apply (Hb' _ Hin). set_solver.
    + done.
Qed.

Lemma foldr_delete_lookup (h : heap_t) l k :
  foldr (fun b h => delete (aloc b) h) h l !! k = if decide (k ∈ aloc <$> l) then None else h !! k.
Proof.
  induction l as [|b l IH]; simpl; [done|]. destruct (decide (k = aloc b)) as [->|].
  - rewrite lookup_delete_eq. by rewrite decide_True by set_solver.
  - rewrite lookup_delete_ne, IH by done. by do 2 case_decide; try set_solver.
Qed.

(** The destructor terminates and frees every block but the embedded [endpost_]. *)
Theorem destroy_frees st l sz : inv st l sz ->
  exists h, destroy st = Ok h /\ dom h = {[endpost st]}.
Proof.
  intros [[Hd Hn Hdom] _ _ _ _ _ _]. unfold destroy, load.
  apply dseg_app in Hd as [Hd [He _]]. simpl in He. rewrite He. mcbn. cbn [prev].
  rewrite fmap_app in Hn. simpl in Hn. apply NoDup_app in Hn as (Hn & Hne & _).
  assert (size (heap st) = S (length l)) as ->.
  { rewrite <- size_dom, Hdom, size_list_to_set, length_fmap, length_app; simpl; [lia|].
    rewrite fmap_app. apply NoDup_app. split_and!; [done|done|apply NoDup_singleton]. }
  eexists. split; [eapply destroy_loop_ok; [done..|lia]|].
  apply set_eq. intros k. rewrite elem_of_dom, foldr_delete_lookup, elem_of_singleton.
  case_decide as Hk; split.
  - by intros [? ?].
  - intros ->. exfalso. apply (Hne _ Hk). set_solver.
  - intros Hs%elem_of_dom. rewrite Hdom, elem_of_list_to_set, fmap_app in Hs. set_solver.
  - intros ->. by eexists.
Qed.

Lemma destroy_frees_witness :
  exists h, destroy (segment_allocator 65536 65536 1%positive) = Ok h /\ dom h = {[1%positive]}.
Proof.
  destruct (init_inv 65536 65536 1%positive) as (l & Hi & _); [lia..|].
  apply (destroy_frees _ l _ Hi).
Defined.

(** ** Runs *)

Inductive op := Alloc (m_size m_align : Z) | Free (p : option Z).

Definition step_op (st : state) (o : op) : res state :=
  match o with
  | Alloc s a => r ← allocate st s a; Ok r.2
  | Free p => deallocate st p
  end.

Fixpoint run_ops (st : state) (os : list op) : res state :=
  match os with [] => Ok st | o :: os => st ← step_op st o; run_ops st os end.

Definition op_ok (o : op) : Prop :=
  match o with
  | Alloc s a => 0 <= s <= 2 ^ 64 - 4096 /\ pow2 a /\ a <= 2 ^ 63
  | Free _ => True
  end.

Lemma step_op_inv st l sz o : inv st l sz -> op_ok o ->
  step_op st o = Aborted \/ exists st' l', step_op st o = Ok st' /\ inv st' l' sz.
Proof.
  intros Hi Ho. destruct o as [s a|[p|]]; cbn [step_op].
  - destruct Ho as (Hs & Ha & Hal). right.
    destruct (allocate_correct _ _ _ s a Hi Hs Ha Hal) as (r & st' & -> & Hr). mcbn.
    destruct r as [p|].
    + destruct Hr as (_ & _ & [_ (l1 & m & r & Hi' & _) _]). by exists st', (l1 ++ m :: r).
    + destruct Hr as (-> & _). by exists st, l.
  - pose proof (deallocate_correct _ _ _ p Hi) as Hd.
    destruct (hunks_by_begin st !! _); [right|by left].
    destruct Hd as (st' & l' & ? & ? & _). by eexists _, _.
  - right. by exists st, l.
Qed.

(** No sequence of requests leads to undefined behaviour: it ends in a
    well-formed allocator, or in the assertion on a foreign pointer. *)
Theorem run_ops_safe base sz ep os :
  0 <= base -> 0 <= sz -> base + sz < 2 ^ 63 -> Forall op_ok os ->
  run_ops (segment_allocator base sz ep) os = Aborted \/
  exists st l, run_ops (segment_allocator base sz ep) os = Ok st /\ inv st l sz.
Proof.
  intros Hb Hs Ht Hos. destruct (init_inv base sz ep Hb Hs Ht) as (l & Hi & _).
  revert l Hi. generalize (segment_allocator base sz ep).
  induction Hos as [|o os Ho Hos IH]; intros st l Hi; simpl; [right; eauto|].
  destruct (step_op_inv _ _ _ _ Hi Ho) as [->|(st' & l' & -> & Hi')]; [by left|]. mcbn. eauto.
Qed.

Lemma run_ops_safe_witness :
  run_ops (segment_allocator 65536 65536 1%positive) [Alloc 100 16; Alloc 9000 8; Free (Some 65536)] = Aborted \/
  exists st l, run_ops (segment_allocator 65536 65536 1%positive) [Alloc 100 16; Alloc 9000 8; Free (Some 65536)]
    = Ok st /\ inv st l 65536.
Proof.
  apply run_ops_safe; [lia..|]. repeat constructor; simpl; try lia; [by exists 4|by exists 3].
Defined.

(** The rounding of [m_size] wraps for requests within 4095 bytes of
    [SIZE_MAX]: the request becomes one for 0 bytes and is granted. *)
Theorem allocate_size_wraps m_size m_align : 2 ^ 64 - 4096 < m_size < 2 ^ 64 ->
  (adjust m_size m_align).1 = 0.
Proof.
  intros Hm. unfold adjust. destruct (Z.leb_spec (2 * 4096) m_size); [|lia]. simpl.
  assert (w64 (m_size + 4096 - 1) = m_size + 4095 - 2 ^ 64) as ->.
  { unfold w64, w64_mod. symmetry. apply (Z.mod_unique _ _ 1); lia. }
  transitivity ((m_size + 4095 - 2 ^ 64) / 2 ^ 12 * 2 ^ 12).
  - apply (land_w64_opp _ 12); [lia|unfold is_u64, w64_mod; lia].
  - rewrite Z.div_small by lia. done.
Qed.

Lemma allocate_size_wraps_witness : (adjust (2 ^ 64 - 1) 16).1 = 0.
Proof. apply allocate_size_wraps. lia. Defined.

Example allocate_size_max :
  exists st', allocate (segment_allocator 65536 65536 1%positive) (2 ^ 64 - 1) 1 = Ok (Some 65536, st').
Proof. eexists. vm_compute. reflexivity. Qed.

End SegmentAllocator.
