(* ===== verification/IntruQueue.v ===== *)
(** Model of [src/intru_queue.hpp]: the intrusive queues that hold the
    runtime's pending callbacks.  [UnsafeQueue] is the specialization for
    [intru_queue_safety::none], [MpscQueue] the lock-free specialization for
    [intru_queue_safety::mpsc] under concurrent producers.

    Elements are addresses of objects of the base type; the link of [x] is the
    memory cell at [x + next_off] and the queue's [head_] is the cell at
    [head_addr].  The tail pointer is stored xor-ed with [head_addr]. *)
From S2P Require Import Prelude.

(** * intru_queue<T, none> *)

Module UnsafeQueue.

Section queue.
Context (head_addr next_off : Z).

Record queue := mk_queue { mem : gmap Z Z; tailp_xor_head : Z }.

Definition load (st : queue) (a : Z) : res Z := deref (mem st !! a).

Definition store (st : queue) (a v : Z) : res queue :=
  match mem st !! a with
  | Some _ => Ok (mk_queue (<[a := v]> (mem st)) (tailp_xor_head st))
  | None => Undef
  end.

Definition set_tail (st : queue) (u : Z) : queue := mk_queue (mem st) u.

(** [intru_queue_intruder]: not enqueued is the pointer value 1. *)
Definition is_enqueued (st : queue) (x : Z) : res bool :=
  p ← load st (x + next_off); Ok (negb (p =? 1)).

Definition empty (st : queue) : res bool := h ← load st head_addr; Ok (h =? 0).

Definition peek (st : queue) : res Z := load st head_addr.

Definition enqueue (x : Z) (st : queue) : res queue :=
  let tailp := Z.lxor head_addr (tailp_xor_head st) in
  st ← store st tailp x;
  let st := set_tail st (Z.lxor (x + next_off) head_addr) in
  store st (x + next_off) 0.

Definition dequeue (st : queue) : res (Z * queue) :=
  ans ← load st head_addr;
  _ ← assert_that (negb (ans =? 0));
  nx ← load st (ans + next_off);
  st ← store st head_addr nx;
  Ok (ans, if nx =? 0 then set_tail st 0 else st).

(** Callbacks run on the queue and on the rest of the program's state. *)
Context {U : Type}.
Abbreviation callback := (Z -> queue * U -> res (queue * U)).

Fixpoint burst_loop (fuel : nat) (fn : callback) (head1 : Z) (exec_n : Z) (st : queue * U)
    : res (Z * (queue * U)) :=
  match fuel with
  | O => Undef
  | S fuel =>
      head1_next ← load st.1 (head1 + next_off);
      st ← fn head1 st;
      if head1_next =? 0 then Ok (exec_n + 1, st)
      else burst_loop fuel fn head1_next (exec_n + 1) st
  end.

Definition burst_something (fuel : nat) (fn : callback) (head1 : Z) (st : queue * U)
    : res (Z * (queue * U)) :=
  _ ← assert_that (negb (head1 =? 0));
  q ← store st.1 head_addr 0;
  burst_loop fuel fn head1 0 (set_tail q 0, st.2).

Definition burst (fuel : nat) (fn : callback) (st : queue * U) : res (Z * (queue * U)) :=
  h ← load st.1 head_addr;
  if h =? 0 then Ok (0, st) else burst_something fuel fn h st.

(** The [do ... while(head1 != nullptr && n != 0)] of the bounded burst. *)
Fixpoint burst_max_loop (fuel : nat) (fn : callback) (head1 : Z) (n : Z) (st : queue * U)
    : res (Z * Z * (queue * U)) :=
  match fuel with
  | O => Undef
  | S fuel =>
      head1_next ← load st.1 (head1 + next_off);
      st ← fn head1 st;
      let n := n - 1 in
      if negb (head1_next =? 0) && negb (n =? 0)
      then burst_max_loop fuel fn head1_next n st
      else Ok (head1_next, n, st)
  end.

(** Put the unexecuted items, from [head1] to the link [tailp1], back in front
    of whatever has been enqueued since. *)
Definition push_front (tailp1 head1 : Z) (q : queue) : res queue :=
  h ← load q head_addr;
  q ← store q tailp1 h;
  let q := if h =? 0 then set_tail q (Z.lxor tailp1 head_addr) else q in
  store q head_addr head1.

Definition burst_max_something (fuel : nat) (max_n : Z) (fn : callback) (head1 : Z) (st : queue * U)
    : res (Z * (queue * U)) :=
  _ ← assert_that (0 <? max_n);
  let tailp1 := Z.lxor head_addr (tailp_xor_head st.1) in
  q ← store st.1 head_addr 0;
  '(head1, n, st) ← burst_max_loop fuel fn head1 max_n (set_tail q 0, st.2);
  if negb (head1 =? 0) then
    q ← push_front tailp1 head1 st.1;
    Ok (max_n - n, (q, st.2))
  else Ok (max_n - n, st).

Definition burst_max (fuel : nat) (max_n : Z) (fn : callback) (st : queue * U)
    : res (Z * (queue * U)) :=
  h ← load st.1 head_addr;
  _ ← assert_that (0 <? max_n);
  if h =? 0 then Ok (0, st) else burst_max_something fuel max_n fn h st.

(** ** Representation *)

(** The link of each node of [l] holds the node after it, the last one null. *)
Fixpoint seg (m : gmap Z Z) (l : list Z) : Prop :=
  match l with
  | [] => True
  | x :: l' => m !! (x + next_off) = Some (hd 0 l') /\ seg m l'
  end.

Definition node_ok (x : Z) : Prop := x <> 0 /\ is_u64 (x + next_off) /\ x + next_off <> head_addr.

Definition tail_cell (l : list Z) : Z :=
  match last l with Some x => x + next_off | None => head_addr end.

Record is_queue (st : queue) (l : list Z) : Prop := {
  iq_head : mem st !! head_addr = Some (hd 0 l);
  iq_seg : seg (mem st) l;
  iq_tail : tailp_xor_head st = Z.lxor (tail_cell l) head_addr;
  iq_nodup : NoDup l;
  iq_nodes : Forall node_ok l
}.

Lemma hd_nonnull l : Forall node_ok l -> (hd 0 l =? 0) = true -> l = [].
Proof. destruct 1 as [|x l [Hx _] _]; [done|]. simpl. lia. Qed.

Lemma lxor_cancel a b : Z.lxor a (Z.lxor b a) = b.
Proof. by rewrite (Z.lxor_comm b), <- Z.lxor_assoc, Z.lxor_nilpotent, Z.lxor_0_l. Qed.

Lemma seg_frame m m' l : (forall x, x ∈ l -> m' !! (x + next_off) = m !! (x + next_off)) ->
  seg m l -> seg m' l.
Proof.
  induction l as [|x l IH]; simpl; [done|]. intros Hf [Hx Hl]. split.
  - rewrite Hf by set_solver. done.
  - apply IH; [|done]. intros y Hy. apply Hf. set_solver.
Qed.

Lemma seg_insert m l a v : (forall x, x ∈ l -> x + next_off <> a) -> seg m l -> seg (<[a := v]> m) l.
Proof. intros Ha. apply seg_frame. intros x Hx. apply lookup_insert_ne. by apply not_eq_sym, Ha. Qed.

Lemma seg_app m l1 l2 : seg m (l1 ++ l2) -> seg m l2.
Proof. induction l1; naive_solver. Qed.

(** Writing [hd 0 l2] into the last link of [l1] joins two segments. *)
Lemma seg_join m l1 l2 : l1 <> [] -> NoDup (l1 ++ l2) -> seg m l1 -> seg m l2 ->
  seg (<[tail_cell l1 := hd 0 l2]> m) (l1 ++ l2).
Proof.
  intros Hne. unfold tail_cell. induction l1 as [|x l1 IH]; [done|]. clear Hne.
  intros Hn [Hx Hs] H2. simpl. destruct l1 as [|y l1].
  - simpl. split; [apply lookup_insert_eq|]. apply seg_insert; [|done].
    intros z Hz E. assert (z = x) as -> by lia. by apply NoDup_cons in Hn as [? _].
  - simpl in Hn. apply NoDup_cons in Hn as [Hxn Hn]. split.
    + rewrite lookup_insert_ne; [done|]. rewrite last_cons_cons.
      destruct (last (y :: l1)) as [z|] eqn:E; [|by apply last_None in E].
      intros E'. assert (z = x) as -> by lia. apply Hxn.
      apply last_Some in E as [l' E]. rewrite app_comm_cons, E. set_solver.
    + rewrite last_cons_cons. by apply IH.
Qed.

Lemma tail_cell_snoc l x : tail_cell (l ++ [x]) = x + next_off.
Proof. unfold tail_cell. by rewrite last_snoc. Qed.

Lemma tail_cell_app l1 l2 : l2 <> [] -> tail_cell (l1 ++ l2) = tail_cell l2.
Proof.
  intros Hne. destruct (exists_last Hne) as (l & x & ->).
  by rewrite (assoc_L (++)), !tail_cell_snoc.
Qed.

Lemma tail_cell_node l : l <> [] -> exists x, x ∈ l /\ tail_cell l = x + next_off.
Proof.
  intros Hne. destruct (exists_last Hne) as (l' & x & ->). exists x.
  rewrite tail_cell_snoc. set_solver.
Qed.

Lemma seg_tail_lookup m l : l <> [] -> seg m l -> m !! tail_cell l = Some 0.
Proof.
  intros Hne. destruct (exists_last Hne) as (l' & x & ->). rewrite tail_cell_snoc.
  intros H%seg_app. by destruct H.
Qed.

Lemma is_queue_empty st : mem st !! head_addr = Some 0 -> tailp_xor_head st = 0 -> is_queue st [].
Proof. intros. split; simpl; try (done || constructor). by rewrite Z.lxor_nilpotent. Qed.

(** ** Operations *)

(** [enqueue(x)] appends [x]: it follows the tail link only, and touches no
    memory but [head_], the last node's link and [x]'s. *)
Theorem enqueue_ok st l x :
  is_queue st l -> node_ok x -> x ∉ l -> is_Some (mem st !! (x + next_off)) ->
  exists st', enqueue x st = Ok st' /\ is_queue st' (l ++ [x])
    /\ (forall a, a <> head_addr -> a <> x + next_off -> a <> tail_cell l -> mem st' !! a = mem st !! a).
Proof.
  intros [Hh Hs Ht Hn Hf] Hx Hxl [v Hv]. destruct Hx as (Hx0 & Hxu & Hxh).
  assert (Hnd : NoDup (l ++ [x])).
  { apply NoDup_app. split_and!; [done| |apply NoDup_singleton]. set_solver. }
  unfold enqueue. rewrite Ht, lxor_cancel. unfold store.
  assert (exists w, mem st !! tail_cell l = Some w) as [w Hw].
  { destruct l; [by eexists|]. eexists. by apply seg_tail_lookup. }
  rewrite Hw. mcbn. cbn [mem set_tail].
  assert (tail_cell l <> x + next_off) as Htx.
  { destruct l as [|y l]; [done|]. destruct (tail_cell_node (y :: l)) as (z & Hz & ->); [done|].
    intros E. assert (z = x) as -> by lia. done. }
  rewrite lookup_insert_ne, Hv by done. eexists. split; [done|]. split.
  - split; cbn [mem tailp_xor_head].
    + rewrite lookup_insert_ne by done. destruct l as [|y l]; [apply lookup_insert_eq|].
      destruct (tail_cell_node (y :: l)) as (z & Hz & E); [done|]. rewrite E.
      rewrite lookup_insert_ne; [done|]. rewrite Forall_forall in Hf. by apply (Hf z).
    + rewrite insert_insert_ne by done.
      assert (seg (<[x + next_off := 0]> (mem st)) [x]) as Hsx by (simpl; split; [by map_lookups|done]).
      destruct l as [|y l].
      * simpl. split; [|done]. map_lookups; done.
      * apply (seg_join _ (y :: l) [x]); [done..| |done]. apply seg_insert; [|done].
        intros z Hz E. assert (z = x) as -> by lia. done.
    + by rewrite tail_cell_snoc.
    + done.
    + apply Forall_app. split; [done|]. by apply Forall_singleton.
  - intros a Ha1 Ha2 Ha3. cbn. by map_lookups.
Qed.

(** [dequeue()] returns the first node and leaves the others queued. *)
Theorem dequeue_ok st x l : is_queue st (x :: l) ->
  exists st', dequeue st = Ok (x, st') /\ is_queue st' l.
Proof.
  intros [Hh [Hx Hs] Ht Hn Hf]. apply Forall_cons in Hf as [(Hx0 & Hxu & Hxh) Hf].
  apply NoDup_cons in Hn as [Hxl Hn].
  unfold dequeue, load, store. rewrite Hh. mcbn. simpl hd.
  destruct (Z.eqb_spec x 0); [done|]. simpl negb. mcbn. rewrite Hx. mcbn.
  eexists. split; [done|].
  assert (seg (<[head_addr := hd 0 l]> (mem st)) l) as Hs'.
  { apply seg_insert; [|done]. intros y Hy. rewrite Forall_forall in Hf. by apply Hf. }
  destruct l as [|y l].
  - apply is_queue_empty; [apply lookup_insert_eq|done].
  - simpl hd in *. apply Forall_cons in Hf as [(Hy0 & ?) Hf].
    destruct (Z.eqb_spec y 0); [done|]. split; cbn [mem tailp_xor_head]; try done.
    + apply lookup_insert_eq.
    + by constructor.
Qed.

Lemma push_front_ok st q y r :
  is_queue st q -> seg (mem st) (y :: r) -> Forall node_ok (y :: r) -> NoDup ((y :: r) ++ q) ->
  exists st', push_front (tail_cell (y :: r)) y st = Ok st' /\ is_queue st' ((y :: r) ++ q).
Proof.
  intros [Hh Hs Ht Hn Hf] Hsr Hfr Hnd. pose proof (seg_tail_lookup _ (y :: r) ltac:(done) Hsr) as Htl.
  assert (tail_cell (y :: r) <> head_addr) as Htc.
  { destruct (tail_cell_node (y :: r)) as (z & Hz & ->); [done|]. rewrite Forall_forall in Hfr.
    by apply (Hfr z). }
  assert (Forall node_ok ((y :: r) ++ q)) as Hall by (by apply Forall_app).
  unfold push_front, load, store. rewrite Hh. mcbn. rewrite Htl. mcbn.
  assert (seg (<[head_addr := y]> (<[tail_cell (y :: r) := hd 0 q]> (mem st))) ((y :: r) ++ q)) as Hseg.
  { apply seg_insert; [|by apply seg_join]. intros z Hz. rewrite Forall_forall in Hall. by apply Hall. }
  destruct (hd 0 q =? 0) eqn:E; cbn [mem set_tail tailp_xor_head].
  - rewrite lookup_insert_ne, Hh by done. eexists. split; [done|].
    apply hd_nonnull in E as ->; [|done]. rewrite app_nil_r in *.
    split; cbn [mem tailp_xor_head]; try done. apply lookup_insert_eq.
  - rewrite lookup_insert_ne, Hh by done. eexists. split; [done|].
    split; cbn [mem tailp_xor_head]; try done; [apply lookup_insert_eq|].
    rewrite Ht, tail_cell_app; [done|]. by intros ->.
Qed.

(** ** Bursts *)

Section burst.
Context (fn : callback) (run : Z -> U -> U * list Z) (fresh_ok : list Z -> U -> Prop).

(** What the runtime may rely on of a callback: running [x] may free the node
    of [x], changes the rest of the program's state and enqueues new nodes as
    [run] says, and leaves the nodes still to run alone. [fresh_ok] is the
    program's own reason why the new nodes are none of those in use. *)
Definition callback_ok : Prop := forall x rest q st u,
  is_queue st q -> seg (mem st) rest -> node_ok x -> Forall node_ok rest ->
  NoDup (x :: rest ++ q) -> is_Some (mem st !! (x + next_off)) -> fresh_ok (x :: rest ++ q) u ->
  exists st', fn x (st, u) = Ok (st', (run x u).1)
    /\ is_queue st' (q ++ (run x u).2) /\ seg (mem st') rest
    /\ NoDup (rest ++ q ++ (run x u).2) /\ fresh_ok (rest ++ q ++ (run x u).2) (run x u).1.

(** Running the nodes of [l] in order. *)
Fixpoint runs (l : list Z) (u : U) : U * list Z :=
  match l with
  | [] => (u, [])
  | x :: l => let r := run x u in let r' := runs l r.1 in (r'.1, r.2 ++ r'.2)
  end.

Context (Hfn : callback_ok).

Lemma burst_loop_ok l : forall x q st u fuel n,
  is_queue st q -> seg (mem st) (x :: l) -> Forall node_ok (x :: l) -> NoDup (x :: l ++ q) ->
  (length (x :: l) <= fuel)%nat -> fresh_ok (x :: l ++ q) u ->
  exists st', burst_loop fuel fn x n (st, u)
      = Ok (n + Z.of_nat (length (x :: l)), (st', (runs (x :: l) u).1))
    /\ is_queue st' (q ++ (runs (x :: l) u).2) /\ fresh_ok (q ++ (runs (x :: l) u).2) (runs (x :: l) u).1.
Proof using Hfn.
  induction l as [|y l IH]; intros x q st u fuel n Hq [Hx Hs] Hf Hn Hfuel HI;
    (destruct fuel as [|fuel]; [simpl in Hfuel; lia|]);
    cbn [burst_loop]; unfold load; cbn [fst]; rewrite Hx; mcbn;
    apply Forall_cons in Hf as [Hx1 Hf];
    (edestruct Hfn as (st' & -> & Hq' & Hs' & Hn' & HI'); [exact Hq|exact Hs|done..|by eexists|exact HI|]);
    mcbn; simpl hd.
  - eexists. split; [done|]. simpl. by rewrite app_nil_r.
  - apply Forall_cons in Hf as Hf'. destruct Hf' as [(Hy0 & _) _].
    destruct (Z.eqb_spec y 0); [done|].
    destruct (IH y (q ++ (run x u).2) st' (run x u).1 fuel (n + 1)) as (st2 & -> & Hq2 & HI2);
      [done..|simpl in *; lia|done|].
    exists st2. split; [do 2 f_equal; simpl; lia|]. by rewrite <- (assoc_L (++)) in Hq2, HI2.
Qed.

Lemma burst_max_loop_ok l : forall x q st u fuel n k,
  is_queue st q -> seg (mem st) (x :: l) -> Forall node_ok (x :: l) -> NoDup (x :: l ++ q) ->
  (length (x :: l) <= fuel)%nat -> fresh_ok (x :: l ++ q) u -> 0 < n ->
  k = Z.to_nat (Z.min n (Z.of_nat (length (x :: l)))) ->
  exists st', burst_max_loop fuel fn x n (st, u)
      = Ok (hd 0 (drop k (x :: l)), n - Z.of_nat k, (st', (runs (take k (x :: l)) u).1))
    /\ is_queue st' (q ++ (runs (take k (x :: l)) u).2)
    /\ seg (mem st') (drop k (x :: l))
    /\ NoDup (drop k (x :: l) ++ q ++ (runs (take k (x :: l)) u).2).
Proof using Hfn.
  induction l as [|y l IH]; intros x q st u fuel n k Hq [Hx Hs] Hf Hn Hfuel HI Hpos Hk;
    (destruct fuel as [|fuel]; [simpl in Hfuel; lia|]);
    cbn [burst_max_loop]; unfold load; cbn [fst]; rewrite Hx; mcbn;
    apply Forall_cons in Hf as [Hx1 Hf];
    (edestruct Hfn as (st' & -> & Hq' & Hs' & Hn' & HI'); [exact Hq|exact Hs|done..|by eexists|exact HI|]);
    mcbn; simpl hd.
  - assert (k = 1%nat) as -> by (simpl length in Hk; lia). simpl.
    eexists. rewrite app_nil_r. split_and!; done.
  - apply Forall_cons in Hf as Hf'. destruct Hf' as [(Hy0 & _) _].
    destruct (Z.eqb_spec y 0); [done|]. simpl andb. destruct (Z.eqb_spec (n - 1) 0) as [Hn1|Hn1]; simpl.
    + assert (k = 1%nat) as -> by (simpl length in Hk; lia). simpl.
      destruct Hs'. eexists. rewrite app_nil_r. split_and!; done.
    + destruct (IH y (q ++ (run x u).2) st' (run x u).1 fuel (n - 1) (pred k)) as (st2 & -> & Hq2 & Hs2 & Hn2);
        [done..|simpl in *; lia|done|lia|simpl length in *; lia|].
      destruct k as [|k']; [simpl length in Hk; lia|]. simpl. exists st2. rewrite <- !(assoc_L (++)) in *.
      replace (n - Z.of_nat (S k')) with (n - 1 - Z.of_nat k') by lia. split_and!; done.
Qed.

(** [burst(fn)] on a queue of [l] runs [fn] once on each node of [l], in
    queue order, returns how many, and leaves queued exactly the nodes that the
    callbacks themselves enqueued, in the order they did. *)
Theorem burst_correct st l u fuel : is_queue st l -> (length l <= fuel)%nat -> fresh_ok l u ->
  exists st', burst fuel fn (st, u) = Ok (Z.of_nat (length l), (st', (runs l u).1))
    /\ is_queue st' (runs l u).2.
Proof using Hfn.
  intros Hq Hfuel HI. pose proof Hq as [Hh Hs Ht Hn Hf].
  unfold burst, load. cbn [fst]. rewrite Hh. mcbn. destruct l as [|x l]; simpl hd.
  - by eexists.
  - apply Forall_cons in Hf as Hf'. destruct Hf' as [(Hx0 & Hxu & Hxh) _].
    destruct (Z.eqb_spec x 0); [done|]. unfold burst_something, store. cbn [fst].
    destruct (Z.eqb_spec x 0); [done|]. simpl negb. mcbn. rewrite Hh. mcbn. cbn [snd set_tail mem].
    edestruct (burst_loop_ok l x []) as (st' & -> & Hq' & _); [..|exact Hfuel| |].
    + apply is_queue_empty; [apply lookup_insert_eq|done].
    + apply seg_insert; [|done]. intros y Hy. rewrite Forall_forall in Hf. by apply (Hf y).
    + done.
    + by rewrite app_nil_r.
    + by rewrite app_nil_r.
    + by exists st'.
Qed.

(** [burst(max_n, fn)] runs the first [min(max_n, length)] nodes in queue
    order, returns how many, and puts the rest back in front of what the
    callbacks enqueued. *)
Theorem burst_max_correct st l u fuel max_n : is_queue st l -> (length l <= fuel)%nat -> 0 < max_n ->
  fresh_ok l u ->
  let k := Z.to_nat (Z.min max_n (Z.of_nat (length l))) in
  exists st', burst_max fuel max_n fn (st, u) = Ok (Z.of_nat k, (st', (runs (take k l) u).1))
    /\ is_queue st' (drop k l ++ (runs (take k l) u).2).
Proof using Hfn.
  intros Hq Hfuel Hpos HI k. assert (Hk : k = Z.to_nat (Z.min max_n (Z.of_nat (length l)))) by done.
  clearbody k. pose proof Hq as [Hh Hs Ht Hn Hf].
  unfold burst_max, load. cbn [fst]. rewrite Hh. mcbn.
  destruct (Z.ltb_spec 0 max_n); [|lia]. mcbn.
  destruct l as [|x l]; simpl hd.
  - assert (k = 0%nat) as -> by (simpl in Hk; lia). by eexists.
  - apply Forall_cons in Hf as Hf'. destruct Hf' as [(Hx0 & Hxu & Hxh) _].
    destruct (Z.eqb_spec x 0); [done|]. unfold burst_max_something, store. cbn [fst].
    destruct (Z.ltb_spec 0 max_n); [|lia]. mcbn. rewrite Hh. mcbn. cbn [snd set_tail mem].
    edestruct (burst_max_loop_ok l x []) as (st' & -> & Hq' & Hs' & Hn');
      [..|exact Hfuel| |exact Hpos|exact Hk|].
    + apply is_queue_empty; [apply lookup_insert_eq|done].
    + apply seg_insert; [|done]. intros y Hy. rewrite Forall_forall in Hf. by apply (Hf y).
    + done.
    + by rewrite app_nil_r.
    + by rewrite app_nil_r.
    + mcbn. simpl app in Hq', Hn'.
      rewrite Ht, lxor_cancel.
      assert (Forall node_ok (drop k (x :: l))) as Hfd by (by apply Forall_drop).
      assert (max_n - (max_n - Z.of_nat k) = Z.of_nat k) as -> by lia.
      destruct (drop k (x :: l)) as [|y r] eqn:Hd; simpl hd.
      * simpl. by exists st'.
      * assert (tail_cell (x :: l) = tail_cell (y :: r)) as ->.
        { rewrite <- (take_drop k (x :: l)), Hd. by rewrite tail_cell_app. }
        apply Forall_cons in Hfd as Hfd'. destruct Hfd' as [(Hy0 & Hyu & Hyh) _].
        destruct (Z.eqb_spec y 0); [done|]. simpl negb. cbn [fst snd].
        destruct (push_front_ok st' (runs (take k (x :: l)) u).2 y r) as (st2 & -> & Hq2);
          [done..|]. mcbn. by exists st2.
Qed.

End burst.

End queue.

(** [intru_queue(intru_queue &&that)]: one memory holds both [head_] cells; the
    result is the tail of the new queue and that of the old one. *)
Definition move_ctor (this_addr that_addr : Z) (m : gmap Z Z) (that_tail : Z)
    : res (gmap Z Z * Z * Z) :=
  h ← deref (m !! that_addr);
  let m := <[this_addr := h]> m in
  let this_tail :=
    if that_tail =? 0 then 0 else Z.lxor (Z.lxor that_tail that_addr) this_addr in
  Ok (<[that_addr := 0]> m, this_tail, 0).

(** moving a queue moves all its nodes and leaves an empty queue behind:
    the xor encoding of the tail makes the all-zero state the empty queue at
    every address. *)
Theorem move_ctor_ok this_addr that_addr off m t l : this_addr <> that_addr ->
  is_queue that_addr off (mk_queue m t) l -> Forall (node_ok this_addr off) l ->
  exists m' t', move_ctor this_addr that_addr m t = Ok (m', t', 0)
    /\ is_queue this_addr off (mk_queue m' t') l /\ is_queue that_addr off (mk_queue m' 0) [].
Proof.
  intros Hne [Hh Hs Ht Hn Hf] Hf'. cbn [mem tailp_xor_head] in *. unfold move_ctor. rewrite Hh. mcbn.
  eexists _, _. split; [done|]. rewrite Forall_forall in Hf, Hf'.
  split; [|by apply is_queue_empty; [apply lookup_insert_eq|]].
  split; cbn [mem tailp_xor_head]; try done.
  - map_lookups. done.
  - apply seg_insert; [intros x Hx; by apply (Hf x)|].
    apply seg_insert; [intros x Hx; by apply (Hf' x)|done].
  - subst t. destruct l as [|x l _] using rev_ind; [unfold tail_cell; simpl; by rewrite !Z.lxor_nilpotent|].
    rewrite !tail_cell_snoc. destruct (Z.eqb_spec (Z.lxor (x + off) that_addr) 0) as [E|_].
    + apply Z.lxor_eq in E. destruct (Hf x ltac:(set_solver)) as (_ & _ & Hx). done.
    + by rewrite (Z.lxor_assoc (x + off)), Z.lxor_nilpotent, Z.lxor_0_r.
  - by rewrite Forall_forall.
Qed.

(** ** A concrete program: nodes at 16, 24, ... whose callback logs the node,
    frees it and, for the node at 16, enqueues a freshly allocated node. *)

Module Demo.

Definition log_state : Type := Z * list Z.

Definition construct (x : Z) (st : queue) : queue :=
  mk_queue (<[x + 8 := 1]> (mem st)) (tailp_xor_head st).

Definition fn (x : Z) (st : queue * log_state) : res (queue * log_state) :=
  let '(q, (fresh, log)) := st in
  let q := mk_queue (delete (x + 8) (mem q)) (tailp_xor_head q) in
  if x =? 16
  then q ← enqueue 1000 8 fresh (construct fresh q); Ok (q, (fresh + 16, log ++ [x]))
  else Ok (q, (fresh, log ++ [x])).

Definition run (x : Z) (u : log_state) : log_state * list Z :=
  if x =? 16 then ((u.1 + 16, u.2 ++ [x]), [u.1]) else ((u.1, u.2 ++ [x]), []).

Definition fresh_ok (live : list Z) (u : log_state) : Prop :=
  2000 <= u.1 /\ u.1 + 16 * Z.of_nat (count_occ Z.eq_dec live 16) < 3000
  /\ Forall (fun x => x < u.1) live.

Lemma is_queue_frame st a v q : is_queue 1000 8 st q -> a <> 1000 -> (forall x, x ∈ q -> x + 8 <> a) ->
  is_queue 1000 8 (mk_queue (<[a := v]> (mem st)) (tailp_xor_head st)) q.
Proof.
  intros [Hh Hs Ht Hn Hf] Ha Hq. split; cbn [mem tailp_xor_head]; try done.
  - by rewrite lookup_insert_ne.
  - by apply seg_insert.
Qed.

Lemma is_queue_delete st a q : is_queue 1000 8 st q -> a <> 1000 -> (forall x, x ∈ q -> x + 8 <> a) ->
  is_queue 1000 8 (mk_queue (delete a (mem st)) (tailp_xor_head st)) q.
Proof.
  intros [Hh Hs Ht Hn Hf] Ha Hq. split; cbn [mem tailp_xor_head]; try done.
  - by rewrite lookup_delete_ne.
  - apply (seg_frame 8 (mem st)); [|done]. intros x Hx. apply lookup_delete_ne. by apply not_eq_sym, Hq.
Qed.

Lemma fn_ok : callback_ok 1000 8 fn run fresh_ok.
Proof.
  intros x rest q st [fresh log] Hq Hs Hx Hrest Hn _ (Hlo & Hhi & Hlive). simpl in Hlo, Hhi, Hlive.
  apply Forall_cons in Hlive as [Hxl Hlive]. rewrite Forall_forall in Hlive.
  apply NoDup_cons in Hn as [Hxn Hn]. rewrite not_elem_of_app in Hxn.
  assert (Hq1 := is_queue_delete st (x + 8) q Hq ltac:(by apply Hx) ltac:(intros y Hy ?; assert (y = x) as -> by lia; tauto)).
  assert (Hs1 : seg 8 (delete (x + 8) (mem st)) rest).
  { apply (seg_frame 8 (mem st)); [|done]. intros y Hy. apply lookup_delete_ne. intros ?.
    assert (y = x) as -> by lia. tauto. }
  unfold fn, run. simpl in Hhi. destruct (Z.eqb_spec x 16) as [->|Hne]; cbn [fst snd].
  - destruct (Z.eq_dec 16 16) as [_|]; [|done].
    assert (Hfr : forall y, y ∈ rest ++ q -> y + 8 <> fresh + 8) by (intros y Hy; specialize (Hlive y Hy); lia).
    set (q1 := mk_queue (delete (16 + 8) (mem st)) (tailp_xor_head st)) in *.
    edestruct (enqueue_ok 1000 8 (construct fresh q1) q fresh) as (st' & -> & Hq' & Hframe).
    + apply (is_queue_frame q1); [exact Hq1|lia|]. intros y Hy. apply Hfr. set_solver.
    + unfold node_ok, is_u64, w64_mod. lia.
    + intros Hin. specialize (Hlive fresh ltac:(set_solver)). lia.
    + simpl. rewrite lookup_insert_eq. by eexists.
    + mcbn. exists st'. split_and!; [done..| | |].
      * apply (seg_frame 8 (delete (16 + 8) (mem st))); [|done]. intros y Hy. rewrite Hframe.
        -- apply lookup_insert_ne. apply not_eq_sym, Hfr. set_solver.
        -- rewrite Forall_forall in Hrest. by apply (Hrest y).
        -- apply Hfr. set_solver.
        -- unfold tail_cell. destruct (last q) as [z|] eqn:E; [|rewrite Forall_forall in Hrest; by apply (Hrest y)].
           intros E'. assert (z = y) as -> by lia. apply last_Some in E as [q' ->].
           apply NoDup_app in Hn as (_ & Hd & _). apply (Hd y Hy). set_solver.
      * rewrite (assoc_L (++)). apply NoDup_app. split_and!; [done| |apply NoDup_singleton].
        intros y Hy ->%list_elem_of_singleton. by specialize (Hfr _ Hy).
      * rewrite (assoc_L (++)). unfold fresh_ok. cbn [fst snd]. rewrite count_occ_app.
        simpl count_occ at 2. destruct (Z.eq_dec fresh 16); [lia|].
        split_and!; [lia|lia|]. apply Forall_app. split; [|by apply Forall_singleton; lia].
        rewrite Forall_forall. intros y Hy. specialize (Hlive y Hy). lia.
  - mcbn. eexists. rewrite !app_nil_r. split_and!; [done..|].
    unfold fresh_ok. cbn [fst snd]. rewrite Forall_forall. split_and!; try done.
    destruct (Z.eq_dec x 16); [done|lia].
Qed.

(** A queue of the nodes 16, 32 and 48. *)
Definition q3 : queue :=
  mk_queue (list_to_map [(1000, 16); (24, 32); (40, 48); (56, 0)]) (Z.lxor 56 1000).

Lemma q3_ok : is_queue 1000 8 q3 [16; 32; 48].
Proof.
  split; [reflexivity|by split_and!|reflexivity|..]; [apply (bool_decide_unpack _); vm_compute; done|].
  repeat (apply Forall_cons; split; [unfold node_ok, is_u64, w64_mod; lia|]). by apply Forall_nil.
Qed.

Lemma q3_fresh : fresh_ok [16; 32; 48] (2000, []).
Proof. split_and!; [simpl; lia..|]. repeat (apply Forall_cons; split; [simpl; lia|]). by apply Forall_nil. Qed.

End Demo.

Lemma enqueue_ok_witness : exists st',
  enqueue 1000 8 64 (Demo.construct 64 Demo.q3) = Ok st' /\ is_queue 1000 8 st' [16; 32; 48; 64].
Proof.
  destruct (enqueue_ok 1000 8 (Demo.construct 64 Demo.q3) [16; 32; 48] 64) as (st' & E & Hq & _).
  - apply Demo.is_queue_frame; [exact Demo.q3_ok|lia|]. intros x Hx. set_unfold. lia.
  - unfold node_ok, is_u64, w64_mod. lia.
  - set_unfold. lia.
  - simpl. rewrite lookup_insert_eq. by eexists.
  - exists st'. by split.
Defined.

Lemma dequeue_ok_witness : exists st', dequeue 1000 8 Demo.q3 = Ok (16, st') /\ is_queue 1000 8 st' [32; 48].
Proof. exact (dequeue_ok 1000 8 Demo.q3 16 [32; 48] Demo.q3_ok). Defined.

Lemma burst_correct_witness : exists st',
  burst 1000 8 3 Demo.fn (Demo.q3, (2000, [])) = Ok (3, (st', (2016, [16; 32; 48])))
  /\ is_queue 1000 8 st' [2000].
Proof.
  exact (burst_correct 1000 8 Demo.fn Demo.run Demo.fresh_ok Demo.fn_ok Demo.q3 [16; 32; 48] (2000, []) 3
           Demo.q3_ok ltac:(simpl; lia) Demo.q3_fresh).
Defined.

Lemma burst_max_correct_witness : exists st',
  burst_max 1000 8 3 2 Demo.fn (Demo.q3, (2000, [])) = Ok (2, (st', (2016, [16; 32])))
  /\ is_queue 1000 8 st' [48; 2000].
Proof.
  exact (burst_max_correct 1000 8 Demo.fn Demo.run Demo.fresh_ok Demo.fn_ok Demo.q3 [16; 32; 48] (2000, []) 3 2
           Demo.q3_ok ltac:(simpl; lia) ltac:(lia) Demo.q3_fresh).
Defined.

Lemma move_ctor_ok_witness : exists m' t',
  move_ctor 1008 1000 (mem Demo.q3) (tailp_xor_head Demo.q3) = Ok (m', t', 0)
  /\ is_queue 1008 8 (mk_queue m' t') [16; 32; 48] /\ is_queue 1000 8 (mk_queue m' 0) [].
Proof.
  apply (move_ctor_ok 1008 1000 8 _ _ [16; 32; 48]); [lia|exact Demo.q3_ok|].
  repeat (apply Forall_cons; split; [unfold node_ok, is_u64, w64_mod; lia|]). by apply Forall_nil.
Defined.

End UnsafeQueue.

(** * intru_queue<T, mpsc>

    Threads interleave at the granularity of the atomic operations of the code.
    Memory is sequentially consistent: the acquire/release annotations are the
    code's argument that it may be so regarded, and are not modelled. *)

Module MpscQueue.

Section queue.
Context (head_addr next_off : Z).

Definition decode_tailp (u : Z) : Z := Z.lxor u head_addr.
Definition encode_tailp (val : Z) : Z := Z.lxor val head_addr.

(** A producer inside [enqueue(x)], after its first or second statement. *)
Inductive ppc :=
| Cleared                     (* x->next = nullptr done *)
| Exchanged (got : Z).        (* tail exchanged, link not yet stored *)

(** The consumer inside [dequeue()] or [burst(max_n, fn)]. *)
Inductive cpc :=
| CIdle
| D1 (head : Z)                        (* head_ loaded *)
| D2 (head head_next : Z)              (* its next loaded *)
| D3 (head : Z)                        (* head_ := null stored, CAS to do *)
| D4 (head : Z)                        (* CAS failed, spinning *)
| D5 (head head_next : Z)              (* head_ := head_next to do *)
| B1 (p exec_n max_n : Z)              (* top of the first loop *)
| B2 (p p_next exec_n max_n : Z)       (* p_next loaded, fn(p) to run *)
| B3 (p : Z)                           (* head_ := p to do *)
| B4 (p : Z)                           (* head_ := null to do *)
| B5 (p : Z)                           (* exchange to do *)
| B6 (p last_next : Z)                 (* top of the second loop *)
| B7 (p p_next last_next : Z)          (* fn(p) to run *)
| B8 (p : Z).                          (* fn of the last element *)

(** [hist_in]: nodes in the order of their exchanges; [hist_out]: nodes handed
    to [fn] or returned by [dequeue].  Both are for the specification only. *)
Record mstate := mk_mstate {
  mem : gmap Z Z;
  tailp_xor_head : Z;
  producers : gmap Z ppc;
  consumer : cpc;
  hist_in : list Z;
  hist_out : list Z
}.

Definition load (st : mstate) (a : Z) : res Z := deref (mem st !! a).

Definition store (a v : Z) (st : mstate) : res mstate :=
  match mem st !! a with
  | Some _ => Ok (mk_mstate (<[a := v]> (mem st)) (tailp_xor_head st) (producers st)
                            (consumer st) (hist_in st) (hist_out st))
  | None => Undef
  end.

Definition set_consumer (c : cpc) (st : mstate) : mstate :=
  mk_mstate (mem st) (tailp_xor_head st) (producers st) c (hist_in st) (hist_out st).

Definition set_tail (u : Z) (st : mstate) : mstate :=
  mk_mstate (mem st) u (producers st) (consumer st) (hist_in st) (hist_out st).

(** [fn(p)] (execute and delete), or [dequeue] returning [p]: the node is gone. *)
Definition consume (p : Z) (st : mstate) : mstate :=
  mk_mstate (delete (p + next_off) (mem st)) (tailp_xor_head st) (producers st)
            (consumer st) (hist_in st) (hist_out st ++ [p]).

(** The statements of [enqueue(x)]. *)
Definition enqueue_clear (x : Z) (st : mstate) : res mstate :=
  st ← store (x + next_off) 0 st;
  Ok (mk_mstate (mem st) (tailp_xor_head st) (<[x := Cleared]> (producers st))
                (consumer st) (hist_in st) (hist_out st)).

Definition enqueue_exchange (x : Z) (st : mstate) : mstate :=
  let got := decode_tailp (tailp_xor_head st) in
  mk_mstate (mem st) (encode_tailp (x + next_off)) (<[x := Exchanged got]> (producers st))
            (consumer st) (hist_in st ++ [x]) (hist_out st).

Definition enqueue_link (x got : Z) (st : mstate) : res mstate :=
  st ← store got x st;
  Ok (mk_mstate (mem st) (tailp_xor_head st) (delete x (producers st))
                (consumer st) (hist_in st) (hist_out st)).

(** The first statement of [dequeue] and of [burst]. *)
Definition dequeue_start (st : mstate) : res mstate :=
  head ← load st head_addr;
  _ ← assert_that (negb (head =? 0));
  Ok (set_consumer (D1 head) st).

Definition burst_start (max_n : Z) (st : mstate) : res mstate :=
  head ← load st head_addr;
  if head =? 0 then Ok st
  else _ ← assert_that (0 <? max_n); Ok (set_consumer (B1 head 0 max_n) st).

(** Every later statement of the consumer. *)
Definition consumer_step (st : mstate) : res mstate :=
  match consumer st with
  | CIdle => Ok st
  | D1 head =>
      head_next ← load st (head + next_off);
      Ok (set_consumer (D2 head head_next) st)
  | D2 head head_next =>
      st ← store head_addr head_next st;
      if head_next =? 0 then Ok (set_consumer (D3 head) st)
      else Ok (set_consumer CIdle (consume head st))
  | D3 head =>
      if tailp_xor_head st =? encode_tailp (head + next_off)
      then Ok (set_consumer CIdle (consume head (set_tail (encode_tailp head_addr) st)))
      else Ok (set_consumer (D4 head) st)
  | D4 head =>
      head_next ← load st (head + next_off);
      Ok (if head_next =? 0 then st else set_consumer (D5 head head_next) st)
  | D5 head head_next =>
      st ← store head_addr head_next st;
      Ok (set_consumer CIdle (consume head st))
  | B1 p exec_n max_n =>
      p_next ← load st (p + next_off);
      Ok (set_consumer
            (if p_next =? 0 then (if negb (exec_n =? 0) then B3 p else B4 p)
             else B2 p p_next exec_n max_n) st)
  | B2 p p_next exec_n max_n =>
      let st := consume p st in
      Ok (set_consumer (if max_n =? exec_n + 1 then B3 p_next else B1 p_next (exec_n + 1) max_n) st)
  | B3 p =>
      st ← store head_addr p st; Ok (set_consumer CIdle st)
  | B4 p =>
      st ← store head_addr 0 st; Ok (set_consumer (B5 p) st)
  | B5 p =>
      let last_next := decode_tailp (tailp_xor_head st) in
      Ok (set_consumer (B6 p last_next) (set_tail (encode_tailp head_addr) st))
  | B6 p last_next =>
      if p + next_off =? last_next then Ok (set_consumer (B8 p) st)
      else p_next ← load st (p + next_off);
           Ok (if p_next =? 0 then st else set_consumer (B7 p p_next last_next) st)
  | B7 p p_next last_next => Ok (set_consumer (B6 p_next last_next) (consume p st))
  | B8 p => Ok (set_consumer CIdle (consume p st))
  end.

(** A node is an aligned object: not null, not the tag 1, its link is not [head_]. *)
Definition node_ok (x : Z) : Prop := x <> 0 /\ x <> 1 /\ x + next_off <> head_addr.

(** One atomic statement of one thread. *)
Inductive step : mstate -> res mstate -> Prop :=
| step_construct x st :            (* intru_queue_intruder(): p(0x1) *)
    node_ok x -> mem st !! (x + next_off) = None ->
    step st (Ok (mk_mstate (<[x + next_off := 1]> (mem st)) (tailp_xor_head st) (producers st)
                           (consumer st) (hist_in st) (hist_out st)))
| step_clear x st :                (* enqueue(x) of a node in no queue *)
    node_ok x -> mem st !! (x + next_off) = Some 1 -> step st (enqueue_clear x st)
| step_exchange x st :
    producers st !! x = Some Cleared -> step st (Ok (enqueue_exchange x st))
| step_link x got st :
    producers st !! x = Some (Exchanged got) -> step st (enqueue_link x got st)
| step_dequeue st : consumer st = CIdle -> step st (dequeue_start st)
| step_burst max_n st : consumer st = CIdle -> 0 < max_n -> step st (burst_start max_n st)
| step_consumer st : step st (consumer_step st).

(** [intru_queue()]. *)
Definition init_state : mstate := mk_mstate {[head_addr := 0]} 0 ∅ CIdle [] [].

Inductive reachable : mstate -> Prop :=
| reach_init : reachable init_state
| reach_step st st' : reachable st -> step st (Ok st') -> reachable st'.

(** ** Chains

    A chain is a link cell and the nodes that have been exchanged in behind it:
    each is linked from the cell before it, or its producer is about to. *)

Abbreviation chain := (Z * list Z)%type.

Definition next_cell (x : Z) : Z := x + next_off.
Definition cells (c : chain) : list Z := c.1 :: (next_cell <$> c.2).
Definition end_cell (c : chain) : Z := default c.1 (last (next_cell <$> c.2)).
Definition all_cells (chs : list chain) : list Z := mjoin (cells <$> chs).
Definition all_nodes (chs : list chain) : list Z := mjoin (chs.*2).

Fixpoint links (m : gmap Z Z) (pr : gmap Z ppc) (a : Z) (L : list Z) : Prop :=
  match L with
  | [] => m !! a = Some 0
  | x :: L' =>
      ((m !! a = Some x /\ pr !! x = None) \/ (m !! a = Some 0 /\ pr !! x = Some (Exchanged a)))
      /\ links m pr (next_cell x) L'
  end.

Record chains_inv (st : mstate) (chs : list chain) : Prop := {
  ci_links : forall c, c ∈ chs -> links (mem st) (producers st) c.1 c.2;
  ci_cells : NoDup (all_cells chs);
  ci_nodes : forall x, x ∈ all_nodes chs -> node_ok x;
  ci_tail : exists c rest, chs = c :: rest /\ tailp_xor_head st = encode_tailp (end_cell c);
  ci_head : is_Some (mem st !! head_addr);
  ci_prods : forall x pc, producers st !! x = Some pc ->
    match pc with
    | Cleared => node_ok x /\ mem st !! next_cell x = Some 0 /\ next_cell x ∉ all_cells chs
    | Exchanged _ => x ∈ all_nodes chs
    end
}.

Lemma next_cell_inj x y : next_cell x = next_cell y -> x = y.
Proof. unfold next_cell. lia. Qed.

Lemma decode_encode a : decode_tailp (encode_tailp a) = a.
Proof. unfold decode_tailp, encode_tailp. by rewrite Z.lxor_assoc, Z.lxor_nilpotent, Z.lxor_0_r. Qed.

Lemma encode_inj a b : encode_tailp a = encode_tailp b -> a = b.
Proof. intros H. by rewrite <- (decode_encode a), H, decode_encode. Qed.

Lemma cells_cons a x L : cells (a, x :: L) = a :: cells (next_cell x, L).
Proof. done. Qed.

Lemma node_cell c x : x ∈ c.2 -> next_cell x ∈ cells c.
Proof. intros Hx. unfold cells. right. by apply list_elem_of_fmap_2. Qed.

Lemma links_frame m m' pr pr' a L :
  (forall b, b ∈ cells (a, L) -> m' !! b = m !! b) -> (forall x, x ∈ L -> pr' !! x = pr !! x) ->
  links m pr a L -> links m' pr' a L.
Proof.
  revert a. induction L as [|x L IH]; intros a Hm Hp; cbn [links].
  - intros H. rewrite Hm; [done|]. by left.
  - intros [H1 H2]. rewrite (Hm a) by (by left). rewrite (Hp x) by (by left). split; [done|].
    apply IH; [|..|done]; intros; [apply Hm|apply Hp]; by right.
Qed.

Lemma links_values m pr a L b : links m pr a L -> (forall x, x ∈ L -> node_ok x) -> b ∈ cells (a, L) ->
  exists v, m !! b = Some v /\ v <> 1.
Proof.
  revert a. induction L as [|x L IH]; intros a Hl Hn Hb.
  - simpl in Hb. apply list_elem_of_singleton in Hb as ->. by exists 0.
  - rewrite cells_cons in Hb. destruct Hl as [H1 H2]. apply elem_of_cons in Hb as [->|Hb].
    + destruct H1 as [[H1 _]|[H1 _]]; eexists; (split; [exact H1|]); [|done]. apply Hn. by left.
    + apply (IH (next_cell x)); [done| |done]. intros y Hy. apply Hn. by right.
Qed.

Lemma end_cell_cons a x L : end_cell (a, x :: L) = end_cell (next_cell x, L).
Proof.
  unfold end_cell. simpl. destruct L as [|y L]; [done|]. rewrite fmap_cons, last_cons_cons.
  destruct (last _) eqn:E; [done|]. by apply last_None in E.
Qed.

Lemma links_end m pr a L : links m pr a L -> m !! end_cell (a, L) = Some 0.
Proof.
  revert a. induction L as [|x L IH]; intros a; [done|]. intros [_ H%IH]. by rewrite end_cell_cons.
Qed.

Lemma end_cell_snoc a L x : end_cell (a, L ++ [x]) = next_cell x.
Proof. unfold end_cell. simpl. rewrite fmap_app. simpl. by rewrite last_snoc. Qed.

Lemma end_cell_in c : end_cell c ∈ cells c.
Proof.
  destruct c as [a L]. destruct L as [|x L _] using rev_ind; [by left|].
  rewrite end_cell_snoc. apply node_cell. set_solver.
Qed.

Lemma end_cell_start a L : NoDup (cells (a, L)) -> end_cell (a, L) = a -> L = [].
Proof.
  destruct L as [|x L _] using rev_ind; [done|]. rewrite end_cell_snoc.
  intros Hn <-. exfalso. apply NoDup_cons in Hn as [Hn _]. apply Hn. simpl.
  apply list_elem_of_fmap_2. set_solver.
Qed.

(** The stored link completes a pending one. *)
Lemma links_link m pr a L x got : links m pr a L -> NoDup (cells (a, L)) -> x ∈ L ->
  pr !! x = Some (Exchanged got) ->
  m !! got = Some 0 /\ got ∈ cells (a, L) /\ links (<[got := x]> m) (delete x pr) a L.
Proof.
  revert a. induction L as [|y L IH]; intros a; [by intros _ _ ?%elem_of_nil|].
  rewrite cells_cons. intros [H1 H2] Hn Hx Hp. apply NoDup_cons in Hn as [Ha Hn].
  destruct (decide (x = y)) as [->|Hne].
  - destruct H1 as [[_ H1]|[Hm Hp']]; [congruence|]. assert (got = a) as -> by congruence.
    split_and!; [done|by left|]. split; [left; by map_lookups|].
    eapply links_frame; [..|exact H2].
    + intros b Hb. apply lookup_insert_ne. by intros ->.
    + intros z Hz. apply lookup_delete_ne. intros ->.
      apply NoDup_cons in Hn as [Hn _]. apply Hn. simpl. by apply list_elem_of_fmap_2.
  - apply elem_of_cons in Hx as [?|Hx]; [done|].
    destruct (IH _ H2 Hn Hx Hp) as (Hg & Hgc & Hl). split_and!; [done|by right|]. split; [|done].
    assert (a <> got) by (by intros ->). by rewrite lookup_insert_ne, lookup_delete_ne.
Qed.

(** A fresh node behind the last one. *)
Lemma links_snoc m pr a L x got : links m pr a L -> pr !! x = Some Cleared -> got = end_cell (a, L) ->
  m !! next_cell x = Some 0 -> next_cell x ∉ cells (a, L) ->
  links m (<[x := Exchanged got]> pr) a (L ++ [x]).
Proof.
  revert a. induction L as [|y L IH]; intros a Hl Hp -> Hm Hc.
  - simpl. split; [right|done]. split; [done|]. by rewrite lookup_insert_eq.
  - destruct Hl as [H1 H2]. rewrite cells_cons in Hc.
    assert (x <> y) by (intros ->; apply Hc; right; by left).
    cbn [app links]. rewrite lookup_insert_ne by done. split; [done|]. apply IH; try done.
    + apply end_cell_cons.
    + intros ?. apply Hc. by right.
Qed.

(** ** Producers preserve the chains *)

Lemma in_all_cells chs c b : c ∈ chs -> b ∈ cells c -> b ∈ all_cells chs.
Proof. intros Hc Hb. apply list_elem_of_join. exists (cells c). split; [done|]. by apply list_elem_of_fmap_2. Qed.

Lemma in_all_cells_inv chs b : b ∈ all_cells chs -> exists c, c ∈ chs /\ b ∈ cells c.
Proof. intros (l & Hb & (c & -> & Hc)%list_elem_of_fmap)%list_elem_of_join. by exists c. Qed.

Lemma in_all_nodes_inv chs x : x ∈ all_nodes chs -> exists c, c ∈ chs /\ x ∈ c.2.
Proof. intros (l & Hb & (c & -> & Hc)%list_elem_of_fmap)%list_elem_of_join. by exists c. Qed.

Lemma in_all_nodes chs c x : c ∈ chs -> x ∈ c.2 -> x ∈ all_nodes chs.
Proof. intros Hc Hx. apply list_elem_of_join. exists c.2. split; [done|]. by apply list_elem_of_fmap_2. Qed.

Lemma node_in_cells chs x : x ∈ all_nodes chs -> next_cell x ∈ all_cells chs.
Proof. intros (c & Hc & Hx)%in_all_nodes_inv. by apply (in_all_cells _ c), node_cell. Qed.

Lemma all_cells_app c1 c2 : all_cells (c1 ++ c2) = all_cells c1 ++ all_cells c2.
Proof. unfold all_cells. by rewrite fmap_app, join_app. Qed.

Lemma all_cells_cons c cs : all_cells (c :: cs) = cells c ++ all_cells cs.
Proof. done. Qed.

Lemma all_cells_other c1 c c2 c' b : NoDup (all_cells (c1 ++ c :: c2)) ->
  c' ∈ c1 ++ c2 -> b ∈ cells c' -> b ∉ cells c.
Proof.
  rewrite all_cells_app, all_cells_cons, !NoDup_app.
  intros (_ & H1 & _ & H2 & _) [Hc|Hc]%elem_of_app Hb Hb'.
  - apply (H1 b); [by eapply (in_all_cells c1)|]. apply elem_of_app. by left.
  - apply (H2 b); [done|]. by eapply (in_all_cells c2).
Qed.

Lemma chain_cell_value st chs b : chains_inv st chs -> b ∈ all_cells chs ->
  exists v, mem st !! b = Some v /\ v <> 1.
Proof.
  intros Hi (c & Hc & Hb)%in_all_cells_inv. destruct c as [a L].
  apply (links_values _ _ _ _ b (ci_links _ _ Hi _ Hc)); [|done].
  intros x Hx. apply (ci_nodes _ _ Hi). by eapply in_all_nodes.
Qed.

(** What a producer's statement leaves as it was. *)
Record keeps (st st' : mstate) (chs : list chain) : Prop := {
  kp_linked : forall b v, b ∈ all_cells chs -> mem st !! b = Some v -> v <> 0 -> mem st' !! b = Some v;
  kp_head : head_addr ∉ all_cells chs -> mem st' !! head_addr = mem st !! head_addr;
  kp_held : forall x, next_cell x ∈ all_cells chs -> producers st !! x = None -> producers st' !! x = None;
  kp_consumer : consumer st' = consumer st;
  kp_out : hist_out st' = hist_out st
}.

Lemma construct_inv st chs x : chains_inv st chs -> node_ok x -> mem st !! next_cell x = None ->
  let st' := mk_mstate (<[next_cell x := 1]> (mem st)) (tailp_xor_head st) (producers st)
                       (consumer st) (hist_in st) (hist_out st) in
  chains_inv st' chs /\ keeps st st' chs.
Proof.
  intros Hi Hx Hnone st'. assert (next_cell x ∉ all_cells chs) as Hxc.
  { intros Hc. destruct (chain_cell_value _ _ _ Hi Hc) as (v & ? & _). congruence. }
  assert (Hmem : forall b, b ∈ all_cells chs \/ b = head_addr -> mem st' !! b = mem st !! b).
  { intros b Hb. apply lookup_insert_ne. destruct Hb as [Hb| ->]; [by intros <-|]. by apply Hx. }
  destruct Hi as [Hl Hc Hn Ht Hh Hp]. split; split; try done.
  - intros c Hcin. apply (links_frame (mem st) _ (producers st)); [|done|by apply Hl].
    intros b Hb. apply Hmem. left. destruct c. by eapply in_all_cells.
  - rewrite Hmem by (by right). done.
  - intros y pc Hy. specialize (Hp y pc Hy). destruct pc; [|done].
    destruct Hp as (? & Hy0 & ?). split_and!; try done. simpl.
    rewrite lookup_insert_ne; [done|]. congruence.
  - intros b v Hb. by rewrite Hmem by (by left).
  - intros _. apply Hmem. by right.
Qed.

Lemma clear_inv st chs x : chains_inv st chs -> node_ok x -> mem st !! next_cell x = Some 1 ->
  exists st', enqueue_clear x st = Ok st' /\ chains_inv st' chs /\ keeps st st' chs
              /\ hist_in st' = hist_in st.
Proof.
  intros Hi Hx Hone. assert (next_cell x ∉ all_cells chs) as Hxc.
  { intros Hc. destruct (chain_cell_value _ _ _ Hi Hc) as (v & ? & ?). congruence. }
  unfold enqueue_clear, store. fold (next_cell x). rewrite Hone. mcbn. eexists. split; [done|].
  set (st' := mk_mstate _ _ _ _ _ _).
  assert (Hmem : forall b, b ∈ all_cells chs \/ b = head_addr -> mem st' !! b = mem st !! b).
  { intros b Hb. apply lookup_insert_ne. destruct Hb as [Hb| ->]; [by intros <-|]. by apply Hx. }
  assert (Hprod : forall y, next_cell y ∈ all_cells chs -> producers st' !! y = producers st !! y).
  { intros y Hy. apply lookup_insert_ne. by intros ->. }
  destruct Hi as [Hl Hc Hn Ht Hh Hp]. split_and!; [split|split|]; try done.
  - intros c Hcin. apply (links_frame (mem st) _ (producers st)); [| |by apply Hl].
    + intros b Hb. apply Hmem. left. destruct c. by eapply in_all_cells.
    + intros y Hy. apply Hprod, node_in_cells. by eapply in_all_nodes.
  - rewrite Hmem by (by right). done.
  - intros y pc. simpl. destruct (decide (y = x)) as [->|Hne].
    + rewrite lookup_insert_eq. intros [= <-]. split_and!; [done| |done]. apply lookup_insert_eq.
    + rewrite lookup_insert_ne by done. intros Hy. specialize (Hp y pc Hy). destruct pc; [|done].
      destruct Hp as (? & Hy0 & ?). split_and!; try done.
      rewrite lookup_insert_ne; [done|]. intros E. by apply Hne, next_cell_inj.
  - intros b v Hb. by rewrite Hmem by (by left).
  - intros _. apply Hmem. by right.
  - intros y Hy. by rewrite Hprod.
Qed.

Lemma exchange_inv st a L rest x : chains_inv st ((a, L) :: rest) ->
  producers st !! x = Some Cleared ->
  chains_inv (enqueue_exchange x st) ((a, L ++ [x]) :: rest)
  /\ keeps st (enqueue_exchange x st) ((a, L) :: rest).
Proof.
  intros Hi Hx. destruct Hi as [Hl Hc Hn Ht Hh Hp].
  destruct (Hp _ _ Hx) as (Hxn & Hxm & Hxc).
  destruct Ht as (c & r & [= <- <-] & Ht).
  assert (all_cells ((a, L ++ [x]) :: rest) = (a :: (next_cell <$> L)) ++ next_cell x :: all_cells rest) as Hcs.
  { unfold all_cells, cells. simpl. rewrite fmap_app. simpl. by rewrite <- (assoc_L (++)). }
  assert (Hperm : all_cells ((a, L ++ [x]) :: rest) ≡ₚ next_cell x :: all_cells ((a, L) :: rest)).
  { rewrite Hcs, <- Permutation_middle. done. }
  assert (Hnodes : forall y, y ∈ all_nodes ((a, L ++ [x]) :: rest) <-> y = x \/ y ∈ all_nodes ((a, L) :: rest)).
  { intros y. unfold all_nodes. simpl. set_solver. }
  split; split; unfold enqueue_exchange; cbn [mem producers tailp_xor_head consumer hist_out]; try done.
  - intros c' [->|Hc']%elem_of_cons; simpl.
    + apply links_snoc; [apply (Hl (a, L)); by left|done| |done|].
      * by rewrite Ht, decode_encode.
      * intros Hin. apply Hxc. eapply in_all_cells; [by left|done].
    + apply (links_frame (mem st) _ (producers st)); [done| |apply Hl; by right].
      intros y Hy. apply lookup_insert_ne. intros ->. apply Hxc, node_in_cells.
      eapply in_all_nodes; [by right|done].
  - rewrite Hperm. by constructor.
  - intros y [->|Hy]%Hnodes; [done|]. by apply Hn.
  - eexists _, _. split; [done|]. by rewrite end_cell_snoc.
  - intros y pc. destruct (decide (y = x)) as [->|Hne].
    + rewrite lookup_insert_eq. intros [= <-]. apply Hnodes. by left.
    + rewrite lookup_insert_ne by done. intros Hy. specialize (Hp y pc Hy). destruct pc.
      * destruct Hp as (? & ? & Hyc). split_and!; [done..|]. rewrite Hperm.
        intros [E|?]%elem_of_cons; [by apply Hne, next_cell_inj|done].
      * apply Hnodes. by right.
  - intros y Hy. rewrite lookup_insert_ne; [done|]. by intros ->.
Qed.

Lemma link_inv st chs x got : chains_inv st chs -> producers st !! x = Some (Exchanged got) ->
  exists st', enqueue_link x got st = Ok st' /\ chains_inv st' chs /\ keeps st st' chs
              /\ hist_in st' = hist_in st.
Proof.
  intros Hi Hx. pose proof Hi as [Hl Hc Hn Ht Hh Hp].
  pose proof (Hp _ _ Hx) as Hxn. apply in_all_nodes_inv in Hxn as (c & Hcin & Hxc).
  assert (Hnd : NoDup (cells c)).
  { apply list_elem_of_split in Hcin as (c1 & c2 & ->). 
    rewrite all_cells_app, all_cells_cons, !NoDup_app in Hc. tauto. }
  destruct c as [a L].
  destruct (links_link _ _ _ _ _ _ (Hl _ Hcin) Hnd Hxc Hx) as (Hg & Hgc & Hlk).
  unfold enqueue_link, store. rewrite Hg. mcbn. eexists. split; [done|].
  assert (Hgall : got ∈ all_cells chs) by (by eapply in_all_cells).
  split_and!; [split|split|]; cbn [mem producers tailp_xor_head consumer hist_in hist_out]; try done.
  - intros c' Hc'. destruct (decide (c' = (a, L))) as [->|Hne]; [done|].
    apply (links_frame (mem st) _ (producers st)); [..|by apply Hl].
    + intros b Hb. apply lookup_insert_ne. intros ->.
      apply list_elem_of_split in Hcin as (c1 & c2 & ->).
      destruct c'. eapply all_cells_other; [exact Hc| |exact Hb|done]. set_solver.
    + intros y Hy. apply lookup_delete_ne. intros ->.
      apply list_elem_of_split in Hcin as (c1 & c2 & ->).
      eapply all_cells_other; [exact Hc| |by apply node_cell|by apply (node_cell (a, L))]. set_solver.
  - destruct (decide (got = head_addr)) as [->|]; [|by map_lookups].
    rewrite lookup_insert_eq. by eexists.
  - intros y pc. destruct (decide (y = x)) as [->|Hne]; [by rewrite lookup_delete_eq|].
    rewrite lookup_delete_ne by done. intros Hy. specialize (Hp y pc Hy). destruct pc; [|done].
    destruct Hp as (? & ? & Hyc). split_and!; [done| |done]. rewrite lookup_insert_ne; [done|].
    by intros ->.
  - intros b v Hb Hv Hv0. rewrite lookup_insert_ne; [done|]. intros ->. congruence.
  - intros Hq. rewrite lookup_insert_ne; [done|]. by intros <-.
  - intros y Hy Hpy. destruct (decide (y = x)) as [->|]; by map_lookups.
Qed.

(** ** The consumer's moves on the chains *)

Lemma chains_core st st' chs : mem st' = mem st -> tailp_xor_head st' = tailp_xor_head st ->
  producers st' = producers st -> chains_inv st chs -> chains_inv st' chs.
Proof. intros Hm Ht Hp []. split; rewrite ?Hm, ?Ht, ?Hp; done. Qed.

Lemma head_not_cell h L : node_ok h -> (forall x, x ∈ L -> node_ok x) ->
  head_addr ∉ all_cells [(next_cell h, L)].
Proof.
  intros Hh HL (c & ->%list_elem_of_singleton & Hb)%in_all_cells_inv.
  apply elem_of_cons in Hb as [E|(x & E & Hx)%list_elem_of_fmap]; simpl in *.
  - destruct Hh as (_ & _ & Hh). by apply Hh.
  - destruct (HL _ Hx) as (_ & _ & Hx'). by apply Hx'.
Qed.

Lemma cleared_not_cell st chs x b : chains_inv st chs -> producers st !! x = Some Cleared ->
  b ∈ all_cells chs -> next_cell x <> b.
Proof. intros Hi Hx Hb <-. by apply (ci_prods _ _ Hi _ _ Hx). Qed.

(** [head_] may be stored to while no chain starts there. *)
Lemma store_head_inv st chs v : chains_inv st chs -> head_addr ∉ all_cells chs ->
  exists st', store head_addr v st = Ok st' /\ chains_inv st' chs
    /\ mem st' = <[head_addr := v]> (mem st) /\ tailp_xor_head st' = tailp_xor_head st
    /\ producers st' = producers st /\ consumer st' = consumer st
    /\ hist_in st' = hist_in st /\ hist_out st' = hist_out st.
Proof.
  intros [Hl Hc Hn Ht [v0 Hh] Hp] Hout. unfold store. rewrite Hh. eexists. split; [done|].
  split; [|done]. split; cbn [mem producers tailp_xor_head]; try done.
  - intros c Hcin. apply (links_frame (mem st) _ (producers st)); [|done|by apply Hl].
    intros b Hb. apply lookup_insert_ne. intros <-. apply Hout. destruct c. by eapply in_all_cells.
  - rewrite lookup_insert_eq. by eexists.
  - intros x pc Hx. specialize (Hp _ _ Hx). destruct pc; [|done].
    destruct Hp as (Hxo & ? & ?). split_and!; [done| |done]. rewrite lookup_insert_ne; [done|].
    destruct Hxo as (_ & _ & Hxo). intros E. by apply Hxo.
Qed.

(** The first node of a chain is taken out of it. *)
Lemma unlink_inv st pre a n L : chains_inv st (pre ++ [(a, n :: L)]) -> mem st !! a = Some n -> n <> 0 ->
  chains_inv st (pre ++ [(next_cell n, L)])
  /\ a ∉ all_cells (pre ++ [(next_cell n, L)]) /\ node_ok n /\ producers st !! n = None.
Proof.
  intros [Hl Hc Hn Ht Hh Hp] Ha Hn0.
  assert (Hlk := Hl (a, n :: L) ltac:(set_solver)). simpl in Hlk. destruct Hlk as [[[_ Hpn]|[? _]] HL]; [|congruence].
  assert (Hperm : all_cells (pre ++ [(a, n :: L)]) ≡ₚ a :: all_cells (pre ++ [(next_cell n, L)])).
  { rewrite !all_cells_app, !all_cells_cons, cells_cons.
    exact (Permutation_sym (Permutation_middle (all_cells pre) (cells (next_cell n, L) ++ []) a)). }
  assert (Hnodes : forall y, y ∈ all_nodes (pre ++ [(a, n :: L)]) <-> y = n \/ y ∈ all_nodes (pre ++ [(next_cell n, L)])).
  { intros y. unfold all_nodes. rewrite !fmap_app, !join_app. set_solver. }
  rewrite Hperm in Hc. apply NoDup_cons in Hc as [Hac Hc]. split_and!; [|done| |done].
  - split; try done.
    + intros c [Hcin| ->%list_elem_of_singleton]%elem_of_app; [|done]. apply Hl. set_solver.
    + intros x Hx. apply Hn, Hnodes. by right.
    + destruct Ht as (c & r & E & Ht). destruct pre as [|c' pre]; [|simplify_eq/=; by eexists _, _].
      injection E as <- <-. eexists _, _. split; [done|]. by rewrite Ht, end_cell_cons.
    + intros x pc Hx. specialize (Hp _ _ Hx). destruct pc.
      * destruct Hp as (? & ? & Hxc). split_and!; [done..|]. rewrite Hperm in Hxc. set_solver.
      * apply Hnodes in Hp as [->|?]; [congruence|done].
  - apply Hn, Hnodes. by left.
Qed.

(** The memory of a consumed node is released. *)
Lemma free_inv st chs p : chains_inv st chs -> node_ok p -> next_cell p ∉ all_cells chs ->
  producers st !! p <> Some Cleared -> chains_inv (consume p st) chs.
Proof.
  intros [Hl Hc Hn Ht Hh Hp] Hpo Hout Hpc. split; cbn [consume mem producers tailp_xor_head]; try done.
  - intros c Hcin. apply (links_frame (mem st) _ (producers st)); [|done|by apply Hl].
    intros b Hb. apply lookup_delete_ne. intros <-. apply Hout. destruct c. by eapply in_all_cells.
  - rewrite lookup_delete_ne; [done|]. by apply Hpo.
  - intros x pc Hx. specialize (Hp _ _ Hx). destruct pc; [|done].
    destruct Hp as (? & ? & ?). split_and!; [done| |done]. rewrite lookup_delete_ne; [done|].
    intros ->%next_cell_inj. done.
Qed.

(** [head_] is made to point to a held node. *)
Lemma attach_inv st n L : chains_inv st [(next_cell n, L)] -> mem st !! head_addr = Some n ->
  node_ok n -> producers st !! n = None -> chains_inv st [(head_addr, n :: L)].
Proof.
  intros Hi Hh Hno Hpn. pose proof Hi as [Hl Hc Hn Ht _ Hp].
  assert (head_addr ∉ all_cells [(next_cell n, L)]) as Hout.
  { apply head_not_cell; [done|]. intros x Hx. apply Hn. eapply in_all_nodes; [by left|done]. }
  assert (Hnodes : forall y, y ∈ all_nodes [(head_addr, n :: L)] <-> y = n \/ y ∈ all_nodes [(next_cell n, L)])
    by (intros y; unfold all_nodes; set_solver).
  split.
  - intros c ->%list_elem_of_singleton. split; [by left|]. apply (Hl (next_cell n, L)). by left.
  - rewrite all_cells_cons, cells_cons. by apply NoDup_cons.
  - intros x [->|Hx]%Hnodes; [done|]. by apply Hn.
  - destruct Ht as (c & r & [= <- <-] & Ht). eexists _, _. split; [done|]. by rewrite Ht, end_cell_cons.
  - by rewrite Hh.
  - intros x pc Hx. specialize (Hp _ _ Hx). destruct pc; [|by apply Hnodes; right].
    destruct Hp as (Hxo & ? & Hxc). split_and!; [done..|]. rewrite all_cells_cons, cells_cons.
    intros [E|?]%elem_of_cons; [|done]. destruct Hxo as (_ & _ & Hxo). by apply Hxo.
Qed.

(** The tail is reset to [head_]: what was in the queue is now the consumer's. *)
Lemma reset_tail_inv st p L : chains_inv st [(next_cell p, L)] -> mem st !! head_addr = Some 0 ->
  node_ok p -> chains_inv (set_tail (encode_tailp head_addr) st) [(head_addr, []); (next_cell p, L)].
Proof.
  intros [Hl Hc Hn Ht _ Hp] Hh Hpo.
  assert (head_addr ∉ all_cells [(next_cell p, L)]) as Hout.
  { apply head_not_cell; [done|]. intros x Hx. apply Hn. eapply in_all_nodes; [by left|done]. }
  split; cbn [set_tail mem producers tailp_xor_head].
  - intros c [->|Hcin]%elem_of_cons; [done|by apply Hl].
  - by apply NoDup_cons.
  - done.
  - by eexists _, _.
  - by rewrite Hh.
  - intros x pc Hx. specialize (Hp _ _ Hx). destruct pc; [|done].
    destruct Hp as (Hxo & ? & Hxc). split_and!; [done..|].
    intros [E|?]%elem_of_cons; [|done]. destruct Hxo as (_ & _ & Hxo). by apply Hxo.
Qed.

Lemma drop_chain_inv st c a : chains_inv st [c; (a, [])] ->
  chains_inv st [c] /\ a ∉ all_cells [c].
Proof.
  intros [Hl Hc Hn Ht Hh Hp].
  assert (all_cells [c; (a, [])] = all_cells [c] ++ [a]) as E by exact (all_cells_app [c] [(a, [])]).
  assert (all_nodes [c; (a, [])] = all_nodes [c]) as En by done.
  rewrite E in *. apply NoDup_app in Hc as (Hc & Hd & _). split.
  - split; try done.
    + intros c' ->%list_elem_of_singleton. apply Hl. by left.
    + destruct Ht as (? & ? & [= <- <-] & Ht). by eexists _, _.
    + intros x pc Hx. specialize (Hp _ _ Hx). destruct pc; [|done].
      destruct Hp as (? & ? & Hxc). split_and!; [done..|]. intros ?. apply Hxc. set_solver.
  - intros ?. eapply Hd; [done|by left].
Qed.

(** ** The invariant

    [L] is what is reachable through [tail], [D] what [burst] detached by its
    exchange, and the consumer may hold one node taken off both. *)

Definition held (c : cpc) : list Z :=
  match c with
  | CIdle => []
  | D1 h | D2 h _ | D3 h | D4 h | D5 h _ | B1 h _ _ | B2 h _ _ _ | B3 h | B4 h | B5 h
  | B6 h _ | B7 h _ _ | B8 h => [h]
  end.

Definition shape (c : cpc) (L D : list Z) : list chain :=
  match c with
  | CIdle => [(head_addr, L)]
  | D1 h | D2 h _ | D3 h | D4 h | D5 h _ | B1 h _ _ | B2 h _ _ _ | B3 h | B4 h | B5 h =>
      [(next_cell h, L)]
  | B6 h _ | B7 h _ _ | B8 h => [(head_addr, L); (next_cell h, D)]
  end.

(** What the consumer's local variables say about the memory. *)
Definition locals_ok (st : mstate) (L D : list Z) : Prop :=
  match consumer st with
  | CIdle | D1 _ | B1 _ _ _ | B3 _ | B4 _ | B8 _ => D = []
  | D2 h n => D = [] /\ (n = 0 \/ n <> 0 /\ mem st !! next_cell h = Some n)
  | B2 h n _ _ | D5 h n => D = [] /\ n <> 0 /\ mem st !! next_cell h = Some n
  | D3 _ | B5 _ => D = [] /\ mem st !! head_addr = Some 0
  | D4 _ => D = [] /\ L <> []
  | B6 h last => last = end_cell (next_cell h, D)
  | B7 h n last => last = end_cell (next_cell h, D) /\ n <> 0 /\ mem st !! next_cell h = Some n
  end.

Record mpsc_inv (st : mstate) (L D : list Z) : Prop := {
  mi_chains : chains_inv st (shape (consumer st) L D);
  mi_held : forall h, h ∈ held (consumer st) -> node_ok h /\ producers st !! h = None;
  mi_locals : locals_ok st L D;
  mi_hist : hist_in st = hist_out st ++ held (consumer st) ++ D ++ L
}.

Lemma held_cell c L D h : h ∈ held c -> next_cell h ∈ all_cells (shape c L D).
Proof.
  intros Hh. destruct c; simpl in Hh; try (by apply elem_of_nil in Hh);
    apply list_elem_of_singleton in Hh as ->; unfold shape, all_cells; set_solver.
Qed.

Lemma shape_snoc c L D x : exists a rest, shape c L D = (a, L) :: rest /\ shape c (L ++ [x]) D = (a, L ++ [x]) :: rest.
Proof. destruct c; simpl; eauto. Qed.

Lemma single_head st h L : chains_inv st [(next_cell h, L)] -> node_ok h ->
  head_addr ∉ all_cells [(next_cell h, L)].
Proof.
  intros Hi Hh. apply head_not_cell; [done|]. intros x Hx. apply (ci_nodes _ _ Hi).
  eapply in_all_nodes; [by left|done].
Qed.

(** A producer's statement keeps what the consumer knows. *)
Lemma keeps_locals st st' L D L' : keeps st st' (shape (consumer st) L D) ->
  chains_inv st (shape (consumer st) L D) -> (forall h, h ∈ held (consumer st) -> node_ok h) ->
  (L <> [] -> L' <> []) -> locals_ok st L D -> locals_ok st' L' D.
Proof.
  intros [Hk1 Hk2 _ Hkc _] Hi Hh HL. unfold locals_ok. rewrite Hkc.
  pose proof (fun h => held_cell (consumer st) L D h) as Hc.
  destruct (consumer st) eqn:Ec; try tauto; simpl in Hh, Hc.
  - intros [-> [->|[Hn Hm]]]; (split; [done|]); [by left|right]. split; [done|].
    apply Hk1; [|done..]. apply Hc. by left.
  - intros [-> Hm]. split; [done|]. rewrite Hk2; [done|]. apply (single_head st); [done|].
    apply Hh. by left.
  - intros (-> & Hn & Hm). split_and!; [done..|]. apply Hk1; [|done..]. apply Hc. by left.
  - intros (-> & Hn & Hm). split_and!; [done..|]. apply Hk1; [|done..]. apply Hc. by left.
  - intros [-> Hm]. split; [done|]. rewrite Hk2; [done|]. apply (single_head st); [done|].
    apply Hh. by left.
  - intros (-> & Hn & Hm). split_and!; [done..|]. apply Hk1; [|done..]. apply Hc. by left.
Qed.

Lemma producer_keeps st st' L D L' : mpsc_inv st L D ->
  keeps st st' (shape (consumer st) L D) -> chains_inv st' (shape (consumer st) L' D) ->
  (L <> [] -> L' <> []) -> (exists X, L' = L ++ X /\ hist_in st' = hist_in st ++ X) ->
  mpsc_inv st' L' D.
Proof.
  intros [Hi Hh Hlo Hhist] Hk Hi' HL (X & -> & Hin). pose proof Hk as [_ _ Hk3 Hkc Hko].
  split; rewrite ?Hkc; try done.
  - intros h Hhe. destruct (Hh _ Hhe). split; [done|]. apply Hk3; [|done]. by apply held_cell.
  - eapply keeps_locals; try done. intros h Hhe. by apply Hh.
  - rewrite Hin, Hhist, Hko. by rewrite <- !(assoc_L (++)).
Qed.

(** ** The consumer preserves the invariant *)

Lemma links_next m pr a L n : links m pr a L -> m !! a = Some n -> n <> 0 -> exists L', L = n :: L'.
Proof. destruct L as [|x L]; simpl; [congruence|]. intros [[[? _]|[? _]] _] ??; [|congruence]. exists L. congruence. Qed.

Lemma links_stop m pr a L : links m pr a L -> m !! a = Some 0 -> end_cell (a, L) <> a ->
  exists x L', L = x :: L' /\ m !! a = Some 0.
Proof. destruct L as [|x L]; [done|]. by eauto. Qed.

Lemma take_next_inv st pre h n L : chains_inv st (pre ++ [(next_cell h, L)]) ->
  node_ok h -> producers st !! h = None -> mem st !! next_cell h = Some n -> n <> 0 ->
  exists L', L = n :: L' /\ node_ok n /\ producers st !! n = None
    /\ chains_inv (consume h st) (pre ++ [(next_cell n, L')]).
Proof.
  intros Hi Hh Hp Hm Hn.
  assert (Hl := ci_links _ _ Hi (next_cell h, L) ltac:(set_solver)).
  destruct (links_next _ _ _ _ n Hl Hm Hn) as [L' E]. simpl in E. subst L.
  destruct (unlink_inv _ _ _ _ _ Hi Hm Hn) as (Hi' & Hout & Hno & Hpn).
  exists L'. split_and!; [done..|]. apply free_inv; try done. by rewrite Hp.
Qed.

Lemma local_step st c L D : mpsc_inv st L D -> held c = held (consumer st) ->
  shape c L D = shape (consumer st) L D -> locals_ok (set_consumer c st) L D ->
  mpsc_inv (set_consumer c st) L D.
Proof.
  intros [Hi Hh Hlo Hhist] Ehe Esh Hl. split; cbn [set_consumer consumer]; rewrite ?Ehe, ?Esh; try done.
  by apply (chains_core st).
Qed.

(** The value of the link cell of a held node: another node, or null. *)
Lemma held_load st L D h : mpsc_inv st L D -> h ∈ held (consumer st) ->
  exists n, load st (h + next_off) = Ok n /\ mem st !! next_cell h = Some n.
Proof.
  intros Hi Hh. destruct (chain_cell_value _ _ (next_cell h) (mi_chains _ _ _ Hi)) as (n & Hn & _).
  - by apply held_cell.
  - exists n. split; [|done]. unfold load. fold (next_cell h). by rewrite Hn.
Qed.

(** [head_ := n] and the held node is handed over. *)
Lemma hand_over st c L h n : mpsc_inv st L [] -> consumer st = c -> shape c L [] = [(next_cell h, L)] ->
  held c = [h] -> mem st !! next_cell h = Some n -> n <> 0 ->
  exists st', store head_addr n st = Ok st'
    /\ exists L', mpsc_inv (set_consumer CIdle (consume h st')) L' [].
Proof.
  intros [Hi Hh Hlo Hhist] Hc Esh Ehe Hm Hn. rewrite Hc in *. rewrite Esh in Hi. rewrite Ehe in *.
  destruct (Hh h ltac:(by left)) as [Hho Hhp].
  assert (Hout := single_head _ _ _ Hi Hho).
  destruct (store_head_inv _ _ n Hi Hout) as (st1 & Hst & Hi1 & Em & Et & Ep & Ec & Ein & Eout).
  exists st1. split; [done|].
  destruct (take_next_inv st1 [] h n L) as (L' & -> & Hno & Hpn & Hi2); [done..| | |done|].
  { by rewrite Ep. } { rewrite Em, lookup_insert_ne; [done|]. intros E. by apply Hho. }
  exists (n :: L'). split; cbn [set_consumer consumer].
  - simpl. apply (chains_core (consume h st1)); [done..|]. apply attach_inv; try done.
    simpl. rewrite lookup_delete_ne by (by apply Hho). by rewrite Em, lookup_insert_eq.
  - by intros h' ?%elem_of_nil.
  - done.
  - simpl. rewrite Ein, Eout, Hhist. by rewrite <- !(assoc_L (++)).
Qed.

(** [head_ := p] and nothing else. *)
Lemma put_back st L p : mpsc_inv st L [] -> consumer st = B3 p ->
  exists st', store head_addr p st = Ok st' /\ mpsc_inv (set_consumer CIdle st') (p :: L) [].
Proof.
  intros [Hi Hh Hlo Hhist] Hc. rewrite Hc in *. simpl in *.
  destruct (Hh p ltac:(by left)) as [Hpo Hpp].
  destruct (store_head_inv _ _ p Hi (single_head _ _ _ Hi Hpo))
    as (st1 & Hst & Hi1 & Em & Et & Ep & Ec & Ein & Eout).
  exists st1. split; [done|]. split; cbn [set_consumer consumer].
  - simpl. apply (chains_core st1); [done..|]. apply attach_inv; rewrite ?Ep; try done.
    by rewrite Em, lookup_insert_eq.
  - by intros h' ?%elem_of_nil.
  - done.
  - simpl. by rewrite Ein, Eout, Hhist.
Qed.

(** [head_ := nullptr], keeping the node. *)
Lemma clear_head st L p c : mpsc_inv st L [] -> held (consumer st) = [p] ->
  shape (consumer st) L [] = [(next_cell p, L)] -> held c = [p] -> shape c L [] = [(next_cell p, L)] ->
  (forall st', mem st' !! head_addr = Some 0 -> consumer st' = c -> locals_ok st' L []) ->
  exists st', store head_addr 0 st = Ok st' /\ mpsc_inv (set_consumer c st') L [].
Proof.
  intros [Hi Hh Hlo Hhist] Ehe Esh Ehe' Esh' Hloc. rewrite Ehe, Esh in *.
  destruct (Hh p ltac:(by left)) as [Hpo Hpp].
  destruct (store_head_inv _ _ 0 Hi (single_head _ _ _ Hi Hpo))
    as (st1 & Hst & Hi1 & Em & Et & Ep & Ec & Ein & Eout).
  exists st1. split; [done|]. split; cbn [set_consumer consumer]; rewrite ?Ehe', ?Esh'.
  - by apply (chains_core st1).
  - intros h ->%list_elem_of_singleton. simpl. by rewrite Ep.
  - apply Hloc; [|done]. simpl. by rewrite Em, lookup_insert_eq.
  - simpl. by rewrite Ein, Eout, Hhist.
Qed.

(** The last node is handed over and the queue becomes empty. *)
Lemma take_last_cas st L h : mpsc_inv st L [] -> consumer st = D3 h ->
  tailp_xor_head st = encode_tailp (next_cell h) ->
  L = [] /\ mpsc_inv (set_consumer CIdle (consume h (set_tail (encode_tailp head_addr) st))) [] [].
Proof.
  intros [Hi Hh Hlo Hhist] Hc Ht. unfold locals_ok in Hlo. rewrite Hc in *. simpl in *.
  destruct (Hh h ltac:(by left)) as [Hho Hhp]. destruct Hlo as [_ Hhead].
  assert (L = []) as ->.
  { destruct (ci_tail _ _ Hi) as (? & ? & [= <- <-] & Ht').
    apply (end_cell_start (next_cell h)); [|apply encode_inj; congruence].
    pose proof (ci_cells _ _ Hi) as Hnd. rewrite all_cells_cons in Hnd. by apply NoDup_app in Hnd as [? _]. }
  split; [done|]. destruct (drop_chain_inv _ _ _ (reset_tail_inv _ _ _ Hi Hhead Hho)) as [Hi2 Hout].
  split; cbn [set_consumer consumer].
  - apply (chains_core (consume h (set_tail (encode_tailp head_addr) st))); [done..|].
    apply free_inv; try done. simpl. by rewrite Hhp.
  - by intros h' ?%elem_of_nil.
  - done.
  - simpl. rewrite Hhist. by rewrite !app_nil_r.
Qed.

(** After the exchange nothing is left behind the detached chain's last node. *)
Lemma detach st L p : mpsc_inv st L [] -> consumer st = B5 p ->
  mpsc_inv (set_consumer (B6 p (decode_tailp (tailp_xor_head st))) (set_tail (encode_tailp head_addr) st)) [] L.
Proof.
  intros [Hi Hh Hlo Hhist] Hc. unfold locals_ok in Hlo. rewrite Hc in *. simpl in *.
  destruct (Hh p ltac:(by left)) as [Hpo Hpp]. destruct Hlo as [_ Hhead].
  split; cbn [set_consumer consumer].
  - apply (chains_core (set_tail (encode_tailp head_addr) st)); [done..|]. by apply reset_tail_inv.
  - done.
  - simpl. destruct (ci_tail _ _ Hi) as (? & ? & [= <- <-] & ->). apply decode_encode.
  - simpl. by rewrite Hhist, app_nil_r.
Qed.

Lemma take_detached st L D p n last : mpsc_inv st L D -> consumer st = B7 p n last ->
  exists D', mpsc_inv (set_consumer (B6 n last) (consume p st)) L D'.
Proof.
  intros [Hi Hh Hlo Hhist] Hc. unfold locals_ok in Hlo. rewrite Hc in *. simpl in *.
  destruct (Hh p ltac:(by left)) as [Hpo Hpp]. destruct Hlo as (-> & Hn & Hm).
  destruct (take_next_inv st [(head_addr, L)] p n D) as (D' & -> & Hno & Hpn & Hi2); [done..|].
  exists D'. split; cbn [set_consumer consumer].
  - by apply (chains_core (consume p st)).
  - by intros h' ->%list_elem_of_singleton.
  - simpl. by rewrite end_cell_cons.
  - simpl. rewrite Hhist. by rewrite <- !(assoc_L (++)).
Qed.

Lemma take_detached_last st L p : mpsc_inv st L [] -> consumer st = B8 p ->
  mpsc_inv (set_consumer CIdle (consume p st)) L [].
Proof.
  intros [Hi Hh Hlo Hhist] Hc. rewrite Hc in *. simpl in *.
  destruct (Hh p ltac:(by left)) as [Hpo Hpp]. destruct (drop_chain_inv _ _ _ Hi) as [Hi2 Hout].
  split; cbn [set_consumer consumer].
  - apply (chains_core (consume p st)); [done..|]. apply free_inv; try done. by rewrite Hpp.
  - by intros h' ?%elem_of_nil.
  - done.
  - simpl. rewrite Hhist. by rewrite <- !(assoc_L (++)).
Qed.

Lemma take_first st L p n c : mpsc_inv st L [] -> held (consumer st) = [p] ->
  shape (consumer st) L [] = [(next_cell p, L)] -> mem st !! next_cell p = Some n -> n <> 0 ->
  held c = [n] -> (forall L, shape c L [] = [(next_cell n, L)]) ->
  (forall st' L, consumer st' = c -> locals_ok st' L []) ->
  exists L', mpsc_inv (set_consumer c (consume p st)) L' [].
Proof.
  intros [Hi Hh Hlo Hhist] Ehe Esh Hm Hn Ehe' Esh' Hloc. rewrite Ehe, Esh in *.
  destruct (Hh p ltac:(by left)) as [Hpo Hpp].
  destruct (take_next_inv st [] p n L) as (L' & -> & Hno & Hpn & Hi2); [done..|].
  exists L'. split; cbn [set_consumer consumer]; rewrite ?Ehe', ?Esh'.
  - by apply (chains_core (consume p st)).
  - by intros h' ->%list_elem_of_singleton.
  - by apply Hloc.
  - simpl. rewrite Hhist. by rewrite <- !(assoc_L (++)).
Qed.

Lemma consumer_step_ok st L D : mpsc_inv st L D ->
  exists st', consumer_step st = Ok st' /\ exists L' D', mpsc_inv st' L' D'.
Proof.
  intros Hi. pose proof (mi_locals _ _ _ Hi) as Hlo. unfold locals_ok in Hlo.
  unfold consumer_step. destruct (consumer st) as [|h|h n|h|h|h n|p e m|p n e m|p|p|p|p last|p n last|p] eqn:Hc.
  - eauto.
  - subst D. destruct (held_load st L [] h Hi ltac:(rewrite Hc; by left)) as (n & -> & Hn). mcbn.
    eexists. split; [done|]. exists L, []. apply local_step; rewrite ?Hc; try done.
    split; [done|]. destruct (decide (n = 0)); [by left|by right].
  - destruct Hlo as [-> [->|[Hn Hm]]].
    + destruct (clear_head st L h (D3 h)) as (st' & -> & Hi'); rewrite ?Hc; try done.
      { intros st' ? Hc'. unfold locals_ok. by rewrite Hc'. }
      mcbn. eauto.
    + destruct (hand_over st _ L h n Hi Hc) as (st' & -> & Hi'); [done..|]. mcbn.
      destruct (Z.eqb_spec n 0); [done|]. destruct Hi'. eauto.
  - destruct Hlo as [-> Hhead]. destruct (Z.eqb_spec (tailp_xor_head st) (encode_tailp (h + next_off))) as [E|Hne].
    + destruct (take_last_cas _ _ _ Hi Hc E). eauto.
    + eexists. split; [done|]. exists L, []. apply local_step; rewrite ?Hc; try done.
      split; [done|]. intros ->. apply Hne.
      pose proof (mi_chains _ _ _ Hi) as Hch. rewrite Hc in Hch.
      by destruct (ci_tail _ _ Hch) as (? & ? & [= <- <-] & ->).
  - destruct Hlo as [-> HL]. destruct (held_load st L [] h Hi ltac:(rewrite Hc; by left)) as (n & -> & Hn). mcbn.
    destruct (Z.eqb_spec n 0); eexists; (split; [done|]); exists L, []; [done|].
    apply local_step; rewrite ?Hc; done.
  - destruct Hlo as (-> & Hn & Hm). destruct (hand_over st _ L h n Hi Hc) as (st' & -> & Hi'); [done..|].
    mcbn. destruct Hi'. eauto.
  - subst D. destruct (held_load st L [] p Hi ltac:(rewrite Hc; by left)) as (n & -> & Hn). mcbn.
    eexists. split; [done|]. exists L, [].
    destruct (Z.eqb_spec n 0); [destruct (Z.eqb_spec e 0)|]; simpl negb; cbv iota;
      apply local_step; rewrite ?Hc; done.
  - destruct Hlo as (-> & Hn & Hm). eexists. split; [done|].
    destruct (m =? e + 1);
      (edestruct (take_first st L p n) as [L' HL']; [..|by exists L', []]); rewrite ?Hc; try done;
      intros st' L'' Hc''; unfold locals_ok; by rewrite Hc''.
  - subst D. destruct (put_back _ _ _ Hi Hc) as (st' & -> & Hi'). mcbn. eauto.
  - subst D. destruct (clear_head st L p (B5 p)) as (st' & -> & Hi'); rewrite ?Hc; try done.
    { intros st' ? Hc'. unfold locals_ok. by rewrite Hc'. }
    mcbn. eauto.
  - destruct Hlo as [-> _]. eexists. split; [done|]. pose proof (detach _ _ _ Hi Hc). eauto.
  - destruct (Z.eqb_spec (p + next_off) last) as [E|Hne].
    + eexists. split; [done|]. exists L, D. apply local_step; rewrite ?Hc; try done.
      apply (end_cell_start (next_cell p)); [|by rewrite <- Hlo, <- E].
      pose proof (ci_cells _ _ (mi_chains _ _ _ Hi)) as Hnd. rewrite Hc in Hnd. simpl in Hnd.
      rewrite !all_cells_cons in Hnd. rewrite !NoDup_app in Hnd. tauto.
    + destruct (held_load st L D p Hi ltac:(rewrite Hc; by left)) as (n & -> & Hn). mcbn.
      destruct (Z.eqb_spec n 0); eexists; (split; [done|]); exists L, D; [done|].
      apply local_step; rewrite ?Hc; done.
  - destruct (take_detached _ _ _ _ _ _ Hi Hc). eauto.
  - subst D. pose proof (take_detached_last _ _ _ Hi Hc). eauto.
Qed.

(** ** Every reachable state *)

Lemma mpsc_start_ok st L D h c : mpsc_inv st L D -> consumer st = CIdle -> mem st !! head_addr = Some h ->
  h <> 0 -> held c = [h] -> (forall L, shape c L [] = [(next_cell h, L)]) ->
  (forall st' L, consumer st' = c -> locals_ok st' L []) ->
  exists L', mpsc_inv (set_consumer c st) L' [].
Proof.
  intros [Hi Hh Hlo Hhist] Hc Hm Hn Ehe Esh Hloc. unfold locals_ok in Hlo. rewrite Hc in *.
  simpl in *. subst D.
  assert (Hl := ci_links _ _ Hi (head_addr, L) ltac:(set_solver)).
  destruct (links_next _ _ _ _ h Hl Hm Hn) as [L' E]. simpl in E. subst L.
  destruct (unlink_inv _ [] _ _ _ Hi Hm Hn) as (Hi' & _ & Hno & Hpn).
  exists L'. split; cbn [set_consumer consumer]; rewrite ?Ehe, ?Esh.
  - by apply (chains_core st).
  - by intros h' ->%list_elem_of_singleton.
  - by apply Hloc.
  - done.
Qed.

(** What a step may do from a state that satisfies the invariant. *)
Lemma mpsc_step_ok st L D r : mpsc_inv st L D -> step st r ->
  (exists st', r = Ok st' /\ exists L' D', mpsc_inv st' L' D') \/
  (r = Aborted /\ consumer st = CIdle /\ mem st !! head_addr = Some 0).
Proof.
  intros Hinv Hs. pose proof Hinv as [Hi Hh Hlo Hhist].
  assert (Hcs : forall max_n, consumer st = CIdle -> 0 < max_n ->
    exists h, load st head_addr = Ok h /\ mem st !! head_addr = Some h /\
      (h <> 0 -> (exists L' D', mpsc_inv (set_consumer (D1 h) st) L' D') /\
                 (exists L' D', mpsc_inv (set_consumer (B1 h 0 max_n) st) L' D'))).
  { intros max_n Hc Hmax. destruct (ci_head _ _ Hi) as [h Hm]. exists h.
    unfold load. rewrite Hm. split_and!; [done..|]. intros Hn.
    split; (edestruct (mpsc_start_ok st L D h) as [L' HL']; [..|by exists L', []]); try done;
      intros st' L'' Hc'; unfold locals_ok; by rewrite Hc'. }
  destruct Hs as [x st Hx Hm|x st Hx Hm|x st Hx|x got st Hx|st Hc|max_n st Hc Hmax|st].
  - left. eexists. split; [done|]. exists L, D.
    destruct (construct_inv _ _ _ Hi Hx Hm) as [Hi' Hk]. eapply producer_keeps; try done.
    exists []. by rewrite !app_nil_r.
  - left. destruct (clear_inv _ _ _ Hi Hx Hm) as (st' & -> & Hi' & Hk & Hin).
    eexists. split; [done|]. exists L, D. eapply producer_keeps; try done.
    exists []. by rewrite !app_nil_r, Hin.
  - left. eexists. split; [done|]. exists (L ++ [x]), D.
    destruct (shape_snoc (consumer st) L D x) as (a & rest & E1 & E2). rewrite E1 in Hi.
    destruct (exchange_inv _ _ _ _ _ Hi Hx) as [Hi' Hk].
    eapply producer_keeps; [done|by rewrite E1|by rewrite E2|by destruct L|by exists [x]].
  - left. destruct (link_inv _ _ _ _ Hi Hx) as (st' & -> & Hi' & Hk & Hin).
    eexists. split; [done|]. exists L, D. eapply producer_keeps; try done.
    exists []. by rewrite !app_nil_r, Hin.
  - destruct (Hcs 1 Hc ltac:(lia)) as (h & Hld & Hm & Hgo). unfold dequeue_start. rewrite Hld. mcbn.
    destruct (Z.eqb_spec h 0) as [->|Hn]; simpl negb; mcbn; [by right|].
    left. eexists. split; [done|]. by apply Hgo.
  - destruct (Hcs max_n Hc Hmax) as (h & Hld & Hm & Hgo). unfold burst_start. rewrite Hld. mcbn.
    left. destruct (Z.eqb_spec h 0) as [->|Hn]; [by eauto|].
    destruct (Z.ltb_spec 0 max_n); [|lia]. mcbn. eexists. split; [done|]. by apply Hgo.
  - left. by eapply consumer_step_ok.
Qed.

Lemma mpsc_reachable_inv st : reachable st -> exists L D, mpsc_inv st L D.
Proof.
  induction 1 as [|st st' _ (L & D & IH) Hs].
  - exists [], []. split; simpl; [split| |done|done]; simpl.
    + intros c ->%list_elem_of_singleton. apply lookup_singleton_eq.
    + apply NoDup_singleton.
    + by intros x ?%elem_of_nil.
    + eexists _, _. split; [done|]. unfold encode_tailp. by rewrite Z.lxor_nilpotent.
    + rewrite lookup_singleton_eq. by eexists.
    + intros x pc. by rewrite lookup_empty.
    + by intros h ?%elem_of_nil.
  - destruct (mpsc_step_ok _ _ _ _ IH Hs) as [(st2 & [= <-] & Hi)|(? & _)]; [done|discriminate].
Qed.

(** Memory safety of intru_queue<T, mpsc>: from any reachable state, under
    every interleaving of producers and the consumer, no statement reads or
    writes a link cell that does not exist (in particular none of an element
    that [fn] has deleted); the only abort is [dequeue] on an empty queue. *)
Theorem mpsc_safe st r : reachable st -> step st r ->
  r <> Undef /\ (r = Aborted -> consumer st = CIdle /\ mem st !! head_addr = Some 0).
Proof.
  intros (L & D & Hi)%mpsc_reachable_inv Hs. destruct (mpsc_step_ok _ _ _ _ Hi Hs) as [(? & -> & _)|(-> & ?)].
  - by split.
  - by split.
Qed.

(** What a traversal of the links from [a] would find. *)
Fixpoint linked (m : gmap Z Z) (a : Z) (L : list Z) : Prop :=
  match L with
  | [] => m !! a = Some 0
  | x :: L' => x <> 0 /\ m !! a = Some x /\ linked m (next_cell x) L'
  end.

Lemma links_linked m pr a L : links m pr a L -> (forall x, x ∈ L -> node_ok x) ->
  (forall x got, pr !! x <> Some (Exchanged got)) -> linked m a L.
Proof.
  revert a. induction L as [|x L IH]; intros a Hl Hn Hp; [done|].
  destruct Hl as [[[Hm _]|[_ Hx]] Hl]; [|by edestruct Hp]. split_and!; [by apply Hn; left|done|].
  apply IH; [done| |done]. intros y Hy. apply Hn. by right.
Qed.

(** C11: the queue is first-in first-out and loses nothing: what the consumer
    has received is a prefix of the enqueued nodes in the order of their
    exchanges, and when the consumer is between calls and no producer has an
    unfinished link, the rest is exactly what the links from [head_] lead to. *)
Theorem mpsc_fifo st : reachable st ->
  exists pending, hist_in st = hist_out st ++ pending /\
    (consumer st = CIdle -> (forall x got, producers st !! x <> Some (Exchanged got)) ->
     linked (mem st) head_addr pending).
Proof.
  intros (L & D & [Hi _ Hlo Hh])%mpsc_reachable_inv. eexists. split; [exact Hh|].
  intros Hc Hp. unfold locals_ok in Hlo. rewrite Hc in *. subst D. simpl in *.
  apply (links_linked _ (producers st)); [apply (ci_links _ _ Hi (head_addr, L)); by left| |done].
  intros x Hx. apply (ci_nodes _ _ Hi). eapply in_all_nodes; [by left|done].
Qed.

(** The consumer is in one of the two spin loops and reads null. *)
Definition spinning (st : mstate) : Prop :=
  consumer_step st = Ok st /\ consumer st <> CIdle.

Lemma links_pending m pr a L : links m pr a L -> L <> [] -> m !! a = Some 0 ->
  (forall x, x ∈ L -> node_ok x) -> exists x, pr !! x = Some (Exchanged a).
Proof.
  destruct L as [|x L]; [done|]. intros [[[? _]|[_ ?]] _] _ ? Hn; [|by exists x].
  destruct (Hn x ltac:(by left)). congruence.
Qed.

(** Only the two loops that wait for a link can leave the state as it is. *)
Lemma spinning_cases st L D : mpsc_inv st L D -> spinning st ->
  exists h L', (next_cell h, L') ∈ shape (consumer st) L D /\ L' <> []
    /\ mem st !! next_cell h = Some 0
    /\ (consumer st = D4 h \/ exists last, consumer st = B6 h last /\ h + next_off <> last).
Proof.
  intros Hi [Hs Hni]. pose proof (mi_locals _ _ _ Hi) as Hlo. unfold locals_ok in Hlo.
  unfold consumer_step in Hs. destruct (consumer st) eqn:Hc; [done|..]; inv_res;
    repeat (match goal with H : context [if ?b then _ else _] |- _ => destruct b eqn:? end; inv_res);
    try (match goal with E : _ = st |- _ => apply (f_equal consumer) in E; simpl in E; congruence end).
  - destruct Hlo as [-> HL]. exists head, L. split_and!; [by left|done| |by left].
    match goal with E : (?v =? 0) = true |- _ => apply Z.eqb_eq in E as -> end.
    unfold load in *. by inv_res.
  - exists p, D. assert (Hne : p + next_off <> end_cell (next_cell p, D)) by (by apply Z.eqb_neq).
    split_and!; [by right; left|by intros ->| |eauto].
    match goal with E : (?v =? 0) = true |- _ => apply Z.eqb_eq in E as -> end.
    unfold load in *. by inv_res.
Qed.

(** The spin loops wait for a producer only: when the consumer spins, some
    producer is between its exchange and its link on the very cell the consumer
    reads, and once that producer has stored the link the consumer leaves the
    loop at its next read. *)
Theorem mpsc_spin_progress st : reachable st -> spinning st ->
  exists x got st1, producers st !! x = Some (Exchanged got)
    /\ enqueue_link x got st = Ok st1 /\ ~ spinning st1.
Proof.
  intros (L & D & Hinv)%mpsc_reachable_inv Hsp.
  destruct (spinning_cases _ _ _ Hinv Hsp) as (h & L' & Hin & HL & Hm & Hc).
  pose proof (mi_chains _ _ _ Hinv) as Hi.
  assert (Hn : forall x, x ∈ L' -> node_ok x).
  { intros x Hx. apply (ci_nodes _ _ Hi). by eapply in_all_nodes. }
  destruct (links_pending _ _ _ _ (ci_links _ _ Hi _ Hin) HL Hm Hn) as [x Hx].
  exists x, (next_cell h). unfold enqueue_link, store. rewrite Hm. mcbn. eexists. split_and!; [done..|].
  assert (x <> 0) as Hx0.
  { apply (ci_nodes _ _ Hi). apply (ci_prods _ _ Hi _ _ Hx). }
  intros [Hs _]. apply (f_equal (fun r => match r with Ok s => consumer s | _ => CIdle end)) in Hs.
  unfold consumer_step, load in Hs. cbn [consumer mem] in Hs.
  destruct Hc as [Hc|(last & Hc & Hl)]; rewrite Hc in Hs; fold (next_cell h) in *.
  - rewrite lookup_insert_eq in Hs. revert Hs. mcbn. destruct (Z.eqb_spec x 0); [done|]. by rewrite ?Hc.
  - destruct (Z.eqb_spec (next_cell h) last); [done|]. rewrite lookup_insert_eq in Hs. revert Hs. mcbn.
    destruct (Z.eqb_spec x 0); [done|]. by rewrite ?Hc.
Qed.

(** ** Schedules

    A schedule names the thread that makes each step; [run_schedule] executes
    it, so concrete interleavings can be evaluated. *)

Inductive action := AConstruct (x : Z) | AClear (x : Z) | AExchange (x : Z) | ALink (x : Z)
  | ADequeue | ABurst (max_n : Z) | AConsumer.

#[local] Instance node_ok_dec x : Decision (node_ok x).
Proof. unfold node_ok. apply _. Defined.

Definition perform (a : action) (st : mstate) : option (res mstate) :=
  match a with
  | AConstruct x =>
      if decide (node_ok x /\ mem st !! (x + next_off) = None)
      then Some (Ok (mk_mstate (<[x + next_off := 1]> (mem st)) (tailp_xor_head st) (producers st)
                               (consumer st) (hist_in st) (hist_out st)))
      else None
  | AClear x =>
      if decide (node_ok x /\ mem st !! (x + next_off) = Some 1) then Some (enqueue_clear x st) else None
  | AExchange x =>
      match producers st !! x with Some Cleared => Some (Ok (enqueue_exchange x st)) | _ => None end
  | ALink x =>
      match producers st !! x with Some (Exchanged got) => Some (enqueue_link x got st) | _ => None end
  | ADequeue => match consumer st with CIdle => Some (dequeue_start st) | _ => None end
  | ABurst max_n =>
      match consumer st with
      | CIdle => if decide (0 < max_n) then Some (burst_start max_n st) else None
      | _ => None
      end
  | AConsumer => Some (consumer_step st)
  end.

Fixpoint run_schedule (l : list action) (st : mstate) : option mstate :=
  match l with
  | [] => Some st
  | a :: l => match perform a st with Some (Ok st) => run_schedule l st | _ => None end
  end.

Lemma perform_step a st r : perform a st = Some r -> step st r.
Proof.
  destruct a; simpl; intros H; repeat (case_match; try done); simplify_eq; try by constructor.
  - destruct_and!. by constructor.
  - destruct_and!. by constructor.
Qed.

Lemma schedule_reachable l st st' : reachable st -> run_schedule l st = Some st' -> reachable st'.
Proof.
  revert st. induction l as [|a l IH]; simpl; intros st Hr H; [by simplify_eq|].
  destruct (perform a st) as [[st2| | |]|] eqn:E; try done. apply (IH st2); [|done].
  eapply reach_step; [done|]. by apply perform_step in E.
Qed.

End queue.

(** Two nodes; the second is being enqueued when [dequeue] takes the first: its
    compare-exchange fails and it spins. *)
Definition demo_spin : list action :=
  [AConstruct 16; AConstruct 32; AClear 16; AExchange 16; ALink 16; AClear 32;
   ADequeue; AConsumer; AConsumer; AExchange 32; AConsumer].

Definition demo_state (l : list action) : mstate :=
  default (init_state 1000) (run_schedule 1000 8 l (init_state 1000)).

Lemma mpsc_safe_witness :
  consumer_step 1000 8 (demo_state demo_spin) <> Undef /\
  (consumer_step 1000 8 (demo_state demo_spin) = Aborted ->
   consumer (demo_state demo_spin) = CIdle /\ mem (demo_state demo_spin) !! 1000 = Some 0).
Proof.
  apply (mpsc_safe 1000 8); [|apply step_consumer].
  apply (schedule_reachable 1000 8 demo_spin (init_state 1000)); [constructor|by vm_compute].
Defined.

Lemma mpsc_fifo_witness : exists pending,
  hist_in (demo_state (demo_spin ++ [ALink 32; AConsumer; AConsumer])) = [16; 32] /\
  [16; 32] = [16] ++ pending /\
  linked 8 (mem (demo_state (demo_spin ++ [ALink 32; AConsumer; AConsumer]))) 1000 pending.
Proof.
  destruct (mpsc_fifo 1000 8 (demo_state (demo_spin ++ [ALink 32; AConsumer; AConsumer]))) as (pending & E & Hl).
  - apply (schedule_reachable 1000 8 (demo_spin ++ [ALink 32; AConsumer; AConsumer]) (init_state 1000));
      [constructor|by vm_compute].
  - exists pending. split; [by vm_compute|]. split; [exact E|]. apply Hl; [by vm_compute|].
    intros x got. assert (producers (demo_state (demo_spin ++ [ALink 32; AConsumer; AConsumer])) = ∅) as -> by (by vm_compute).
    by rewrite lookup_empty.
Defined.

Lemma mpsc_spin_progress_witness : exists x got st1,
  producers (demo_state demo_spin) !! x = Some (Exchanged got)
  /\ enqueue_link x got (demo_state demo_spin) = Ok st1 /\ ~ spinning 1000 8 st1.
Proof.
  apply (mpsc_spin_progress 1000 8).
  - apply (schedule_reachable 1000 8 demo_spin (init_state 1000)); [constructor|by vm_compute].
  - split; [by vm_compute|]. intros E. by vm_compute in E.
Defined.

End MpscQueue.
