(* ===== verification/Broadcast.v ===== *)
(** Model of the broadcast trees of [src/backend/gasnet/runtime.cpp]:
    [bcast_am_master_eager] and [bcast_am_master_rdzv] with the handlers that
    receive and forward them, the payload reference counts included.

    [Tree] is the loop over targets that both share; [Eager] the protocol that
    copies the payload into each message; [Rdzv] the protocol that shares the
    payload between ranks of one node and fetches it across nodes.  Ranks are
    ranks of the team; messages in flight are delivered in any order. *)
From S2P Require Import Prelude.

(** * The loop over targets *)

Module Tree.

(** [rank_d_mid] of the two protocols. *)
Definition eager_mid (rank_me rank_d_ub : Z) : Z := rank_me + 15 * (rank_d_ub - rank_me) ÷ 16.
Definition rdzv_mid (rank_me rank_d_ub : Z) : Z := rank_me + (rank_d_ub - rank_me) ÷ 2.

(** The interface between the loop and the choice of the split point. *)
Class Split (mid : Z -> Z -> Z) : Prop := {
  split_stop : forall me ub, me < ub -> mid me ub = me <-> ub = me + 1;
  split_range : forall me ub, me < ub -> me <= mid me ub < ub
}.

#[export] Instance eager_split : Split eager_mid.
Proof.
  unfold eager_mid. split; intros me ub H; rewrite Z.quot_div_nonneg by lia;
    pose proof (Z.div_mod (15 * (ub - me)) 16); pose proof (Z.mod_pos_bound (15 * (ub - me)) 16); lia.
Qed.

#[export] Instance rdzv_split : Split rdzv_mid.
Proof.
  unfold rdzv_mid. split; intros me ub H; rewrite Z.quot_div_nonneg by lia;
    pose proof (Z.div_mod (ub - me) 2); pose proof (Z.mod_pos_bound (ub - me) 2); lia.
Qed.

Section loop.
Context (mid : Z -> Z -> Z) (rank_n : Z).

(** [while(true)]: the destinations of [rank_me] and the interval each is
    made responsible for. [None] is running out of fuel. *)
Fixpoint targets (fuel : nat) (rank_me rank_d_ub : Z) : option (list (Z * Z)) :=
  match fuel with
  | O => None
  | S fuel =>
      let rank_d_mid := mid rank_me rank_d_ub in
      if rank_d_mid =? rank_me then Some []
      else
        let translate := if rank_n <=? rank_d_mid then rank_n else 0 in
        let sub_lb := rank_d_mid - translate in
        let sub_ub := rank_d_ub - translate in
        rest ← targets fuel rank_me rank_d_mid;
        Some ((sub_lb, sub_ub) :: rest)
  end.

(** The loop runs once per message and once more. *)
Definition fuel_for (rank_me rank_d_ub : Z) : nat := Z.to_nat (rank_d_ub - rank_me).

Definition all_targets (rank_me rank_d_ub : Z) : res (list (Z * Z)) :=
  deref (targets (fuel_for rank_me rank_d_ub) rank_me rank_d_ub).

(** The team ranks of an interval that may reach past the last rank. *)
Definition ranks (lb ub : Z) : list Z := (fun i => i mod rank_n) <$> seqZ lb (ub - lb).

(** A message's interval starts at its destination and wraps at most once. *)
Definition interval_ok (t : Z * Z) : Prop := 0 <= t.1 < rank_n /\ t.1 < t.2 <= t.1 + rank_n.

Lemma ranks_split lb m ub : lb <= m <= ub -> ranks lb ub = ranks lb m ++ ranks m ub.
Proof.
  intros H. unfold ranks. replace (ub - lb) with ((m - lb) + (ub - m)) by lia.
  rewrite seqZ_app, fmap_app by lia. do 2 f_equal. f_equal. lia.
Qed.

Lemma ranks_cons lb ub : 0 <= lb < rank_n -> lb < ub -> ranks lb ub = lb :: ranks (lb + 1) ub.
Proof.
  intros Hlb H. rewrite (ranks_split lb (lb + 1) ub) by lia.
  unfold ranks at 1. replace (lb + 1 - lb) with 1 by lia. simpl.
  by rewrite Z.mod_small by lia.
Qed.

Lemma ranks_nil lb : ranks lb lb = [].
Proof. unfold ranks. by rewrite Z.sub_diag. Qed.

Lemma ranks_translate lb ub : ranks (lb - rank_n) (ub - rank_n) = ranks lb ub.
Proof.
  unfold ranks. replace (ub - rank_n - (lb - rank_n)) with (ub - lb) by lia.
  replace (lb - rank_n) with (- rank_n + lb) by lia. rewrite <- fmap_add_seqZ, <- list_fmap_compose.
  apply list_fmap_ext. intros i x _. simpl.
  replace (- rank_n + x) with (x + (-1) * rank_n) by lia. apply Z_mod_plus_full.
Qed.

(** The ranks around the circle from the one after [root] are all the others. *)
Lemma ranks_all root : 0 <= root < rank_n -> root :: ranks (root + 1) (root + rank_n) ≡ₚ seqZ 0 rank_n.
Proof.
  intros Hr. rewrite <- ranks_cons by lia. rewrite (ranks_split root rank_n) by lia.
  rewrite <- (ranks_translate rank_n), Z.sub_diag. replace (root + rank_n - rank_n) with root by lia.
  rewrite (Permutation_app_comm (ranks root rank_n)), <- ranks_split by lia.
  unfold ranks. rewrite Z.sub_0_r.
  enough ((fun i => i mod rank_n) <$> seqZ 0 rank_n = seqZ 0 rank_n) as -> by done.
  rewrite <- (list_fmap_id (seqZ 0 rank_n)) at 2. apply list_fmap_ext. intros i x Hx.
  apply lookup_seqZ in Hx as [-> ?]. simpl. apply Z.mod_small. lia.
Qed.

Context `{!Split mid}.

Lemma targets_spec fuel rank_me rank_d_ub :
  0 <= rank_me < rank_n -> rank_me < rank_d_ub <= rank_me + rank_n ->
  (Z.to_nat (rank_d_ub - rank_me) <= fuel)%nat ->
  exists ms, targets fuel rank_me rank_d_ub = Some ms /\ Forall interval_ok ms
    /\ concat (map (fun t => ranks t.1 t.2) ms) ≡ₚ ranks (rank_me + 1) rank_d_ub.
Proof using Type*.
  revert rank_d_ub. induction fuel as [|fuel IH]; intros ub Hme Hub Hf; [lia|]. cbn [targets].
  pose proof (split_stop rank_me ub ltac:(lia)) as Hstop.
  pose proof (split_range rank_me ub ltac:(lia)) as Hr.
  destruct (Z.eqb_spec (mid rank_me ub) rank_me) as [E|Hne].
  - exists []. split_and!; [done|by constructor|]. apply Hstop in E as ->. by rewrite ranks_nil.
  - destruct (IH (mid rank_me ub) Hme ltac:(lia) ltac:(lia)) as (ms & -> & Hok & Hp).
    eexists. split; [done|]. split.
    + constructor; [|done]. unfold interval_ok. cbn [fst snd].
      destruct (Z.leb_spec rank_n (mid rank_me ub)); lia.
    + simpl. rewrite Hp, (ranks_split (rank_me + 1) (mid rank_me ub) ub) by lia.
      rewrite (Permutation_app_comm (ranks (rank_me + 1) _)). apply Permutation_app_tail.
      destruct (Z.leb_spec rank_n (mid rank_me ub)); [by rewrite ranks_translate|].
      by rewrite !Z.sub_0_r.
Qed.

(** The loop over targets terminates, names only ranks of the team, with
    intervals that stay within [2*rank_n - 1], and splits the ranks of its
    interval other than [rank_me] among its targets: each in exactly one. *)
Theorem all_targets_partition rank_me rank_d_ub :
  0 <= rank_me < rank_n -> rank_me < rank_d_ub <= rank_me + rank_n ->
  exists ms, all_targets rank_me rank_d_ub = Ok ms /\ Forall interval_ok ms
    /\ concat (map (fun t => ranks t.1 t.2) ms) ≡ₚ ranks (rank_me + 1) rank_d_ub.
Proof using Type*.
  intros Hme Hub. destruct (targets_spec (fuel_for rank_me rank_d_ub) rank_me rank_d_ub) as (ms & E & H);
    [done..|]. exists ms. split; [|done]. unfold all_targets. by rewrite E.
Qed.

Lemma all_targets_ok t : interval_ok t ->
  exists ms, all_targets t.1 t.2 = Ok ms /\ Forall interval_ok ms
    /\ concat (map (fun t => ranks t.1 t.2) ms) ≡ₚ ranks (t.1 + 1) t.2.
Proof using Type*.
  intros [H1 H2]. destruct (targets_spec (fuel_for t.1 t.2) t.1 t.2) as (ms & E & H);
    [done..|]. exists ms. split; [|done]. unfold all_targets. by rewrite E.
Qed.

End loop.

Lemma all_targets_partition_witness :
  exists ms, all_targets eager_mid 5 3 8 = Ok ms /\ Forall (interval_ok 5) ms
    /\ concat (map (fun t => ranks 5 t.1 t.2) ms) ≡ₚ [4; 0; 1; 2].
Proof. apply (all_targets_partition eager_mid 5 3 8); lia. Defined.

Example eager_targets_5 : all_targets eager_mid 5 3 8 = Ok [(2, 3); (1, 2); (0, 1); (4, 5)].
Proof. reflexivity. Qed.

Example rdzv_targets_5 : all_targets rdzv_mid 5 3 8 = Ok [(0, 3); (4, 5)].
Proof. reflexivity. Qed.

End Tree.

(** * Eager protocol *)

Module Eager.
Import Tree.

Section eager.
Context (rank_n : Z).

(** A received message: the rank, whether its deferred forwarding and its rpc
    are still to run, and the payload buffer ([eager_subrank_ub] and
    [eager_refs]) until it is freed. *)
Record rx := mk_rx {
  rx_rank : Z;
  rx_forward : bool;
  rx_rpc : bool;
  rx_payload : option (Z * Z)
}.

Record net := mk_net {
  flight : list (Z * Z);
  received : list rx;
  executed : list Z
}.

(** [am_bcast_master_eager]: the message is copied, its forwarding deferred to
    the master persona and its rpc enqueued, with a reference for each. *)
Definition am_bcast_master_eager (t : Z * Z) : rx := mk_rx t.1 true true (Some (t.2, 2)).

(** [if(0 == --m->eager_refs) std::free(m->payload)] *)
Definition release (ub refs : Z) : option (Z * Z) :=
  if refs - 1 =? 0 then None else Some (ub, refs - 1).

(** [bcast_am_master_eager]: the targets, and the last value its loop leaves in
    [eager_subrank_ub]. *)
Definition bcast_am_master_eager (rank_me rank_d_ub : Z) : res (list (Z * Z) * Z) :=
  ms ← all_targets eager_mid rank_n rank_me rank_d_ub;
  Ok (ms, default rank_d_ub (last ms.*2)).

(** The deferred forwarding. *)
Definition forward (r : rx) : res (rx * list (Z * Z)) :=
  '(ub, refs) ← deref (rx_payload r);
  '(ms, ub') ← bcast_am_master_eager (rx_rank r) ub;
  Ok (mk_rx (rx_rank r) false (rx_rpc r) (release ub' refs), ms).

(** The rpc reads its arguments from the payload; [cleanup] drops its reference. *)
Definition run_rpc (r : rx) : res rx :=
  '(ub, refs) ← deref (rx_payload r);
  Ok (mk_rx (rx_rank r) (rx_forward r) false (release ub refs)).

(** [bcast_am_master] at the root. *)
Definition start (root : Z) : res net :=
  '(ms, _) ← bcast_am_master_eager root (root + rank_n);
  Ok (mk_net ms [] []).

Inductive step : net -> res net -> Prop :=
| step_receive f1 t f2 rs ex :
    step (mk_net (f1 ++ t :: f2) rs ex) (Ok (mk_net (f1 ++ f2) (am_bcast_master_eager t :: rs) ex))
| step_forward f r1 r r2 ex : rx_forward r = true ->
    step (mk_net f (r1 ++ r :: r2) ex)
         ('(r', ms) ← forward r; Ok (mk_net (f ++ ms) (r1 ++ r' :: r2) ex))
| step_rpc f r1 r r2 ex : rx_rpc r = true ->
    step (mk_net f (r1 ++ r :: r2) ex)
         (r' ← run_rpc r; Ok (mk_net f (r1 ++ r' :: r2) (ex ++ [rx_rank r]))).

(** States reached in a number of steps. *)
Inductive reachable (root : Z) : nat -> net -> Prop :=
| reach_start st : start root = Ok st -> reachable root 0 st
| reach_step k st st' : reachable root k st -> step st (Ok st') -> reachable root (S k) st'.

(** ** Invariant *)

Definition rx_ok (r : rx) : Prop :=
  0 <= rx_rank r < rank_n /\
  match rx_payload r with
  | Some (ub, refs) =>
      refs = Z.b2z (rx_forward r) + Z.b2z (rx_rpc r) /\ 0 < refs
      /\ (rx_forward r = true -> interval_ok rank_n (rx_rank r, ub))
  | None => rx_forward r = false /\ rx_rpc r = false
  end.

(** The ranks a received message still has to reach. *)
Definition rx_pending (r : rx) : list Z :=
  (if rx_rpc r then [rx_rank r] else []) ++
  (if rx_forward r then
     match rx_payload r with Some (ub, _) => ranks rank_n (rx_rank r + 1) ub | None => [] end
   else []).

Definition covered (ms : list (Z * Z)) : list Z := concat (map (fun t => ranks rank_n t.1 t.2) ms).

Definition pending (st : net) : list Z := concat (map rx_pending (received st)) ++ covered (flight st).

Record inv (root : Z) (st : net) : Prop := {
  inv_flight : Forall (interval_ok rank_n) (flight st);
  inv_rx : Forall rx_ok (received st);
  inv_cover : executed st ++ pending st ≡ₚ ranks rank_n (root + 1) (root + rank_n)
}.

Definition rx_weight (r : rx) : nat :=
  Nat.b2n (rx_rpc r) +
  (if rx_forward r then
     S (3 * match rx_payload r with Some (ub, _) => length (ranks rank_n (rx_rank r + 1) ub) | None => 0 end)
   else 0).

Definition weight (st : net) : nat :=
  list_sum (map rx_weight (received st)) + 3 * length (covered (flight st)).

Lemma covered_app l1 l2 : covered (l1 ++ l2) = covered l1 ++ covered l2.
Proof. unfold covered. by rewrite map_app, concat_app. Qed.

Lemma covered_cons t l : covered (t :: l) = ranks rank_n t.1 t.2 ++ covered l.
Proof. done. Qed.

Lemma forward_ok r : rx_ok r -> rx_forward r = true ->
  exists r' ms, forward r = Ok (r', ms) /\ rx_ok r' /\ rx_rank r' = rx_rank r
    /\ Forall (interval_ok rank_n) ms
    /\ rx_pending r' ++ covered ms ≡ₚ rx_pending r
    /\ (S (rx_weight r' + 3 * length (covered ms)) = rx_weight r)%nat.
Proof.
  intros [Hr Hp] Hf. unfold forward, bcast_am_master_eager.
  destruct (rx_payload r) as [[ub refs]|] eqn:Ep; [|by destruct Hp; congruence].
  destruct Hp as (Hrefs & Hpos & Hint). specialize (Hint Hf). mcbn.
  destruct (all_targets_ok eager_mid rank_n _ Hint) as (ms & E & Hms & Hperm). cbn [fst snd] in *.
  rewrite E. mcbn. eexists _, ms. split; [done|].
  assert (Hlen := Permutation_length Hperm).
  unfold rx_ok, rx_pending, rx_weight, release. cbn [rx_rank rx_forward rx_rpc rx_payload].
  rewrite Hf, Ep in *. fold (covered ms) in *.
  split_and!; try done; try lia; cbn [Z.b2z] in *.
  - destruct (Z.eqb_spec (refs - 1) 0) as [E0|Hne]; [split; [done|]|split_and!; [lia|lia|done]].
    destruct (rx_rpc r); [simpl in *; lia|done].
  - simpl. rewrite app_nil_r. by rewrite Hperm.
Qed.

Lemma eager_run_rpc_ok r : rx_ok r -> rx_rpc r = true ->
  exists r', run_rpc r = Ok r' /\ rx_ok r' /\ rx_pending r = rx_rank r :: rx_pending r'
    /\ rx_weight r = S (rx_weight r').
Proof.
  intros [Hr Hp] Hf. unfold run_rpc.
  destruct (rx_payload r) as [[ub refs]|] eqn:Ep; [|by destruct Hp; congruence].
  destruct Hp as (Hrefs & Hpos & Hint). mcbn. eexists. split; [done|].
  unfold rx_ok, rx_pending, rx_weight, release. cbn [rx_rank rx_forward rx_rpc rx_payload].
  rewrite Hf, Ep in *. cbn [Z.b2z] in *.
  split_and!; try done; destruct (Z.eqb_spec (refs - 1) 0); destruct (rx_forward r); simpl in *; try lia; try done.
  split_and!; [lia|lia|done].
Qed.

Lemma eager_step_inv root st r : inv root st -> step st r ->
  exists st', r = Ok st' /\ inv root st' /\ (weight st' < weight st)%nat.
Proof.
  intros [Hf Hr Hc] Hs. destruct Hs as [f1 t f2 rs ex|f r1 r r2 ex Hfw|f r1 r r2 ex Hrp];
    unfold pending, weight in *; cbn [flight received executed] in *.
  - apply Forall_app in Hf as [Hf1 Hf2]. apply Forall_cons in Hf2 as [Ht Hf2].
    eexists. split; [done|]. unfold weight; cbn [flight received executed].
    destruct Ht as [Ht1 Ht2]. pose proof (ranks_cons rank_n t.1 t.2 Ht1 ltac:(lia)) as Hrc.
    split; [split|]; unfold pending; cbn [flight received executed].
    + by apply Forall_app.
    + constructor; [|done]. unfold rx_ok, am_bcast_master_eager, interval_ok. simpl. lia.
    + rewrite <- Hc, !covered_app, covered_cons, Hrc. rewrite map_cons, concat_cons.
      change (rx_pending (am_bcast_master_eager t)) with ([t.1] ++ ranks rank_n (t.1 + 1) t.2).
      change (t.1 :: ranks rank_n (t.1 + 1) t.2) with ([t.1] ++ ranks rank_n (t.1 + 1) t.2).
      solve_Permutation.
    + rewrite !covered_app, covered_cons, !length_app, Hrc. unfold am_bcast_master_eager. simpl. lia.
  - apply Forall_app in Hr as [Hr1 Hr2]. apply Forall_cons in Hr2 as [Hr Hr2].
    destruct (forward_ok r Hr Hfw) as (r' & ms & -> & Hr' & Erk & Hms & Hp & Hw). mcbn.
    eexists. split; [done|]. unfold weight; cbn [flight received executed].
    split; [split|]; unfold pending; cbn [flight received executed].
    + by apply Forall_app.
    + apply Forall_app. split; [done|]. by constructor.
    + rewrite <- Hc, covered_app, !map_app, !concat_app. simpl. rewrite <- Hp. solve_Permutation.
    + rewrite covered_app, length_app, !map_app, !list_sum_app. simpl. lia.
  - apply Forall_app in Hr as [Hr1 Hr2]. apply Forall_cons in Hr2 as [Hr Hr2].
    destruct (eager_run_rpc_ok r Hr Hrp) as (r' & -> & Hr' & Hp & Hw). mcbn.
    eexists. split; [done|]. unfold weight; cbn [flight received executed].
    split; [split|]; unfold pending; cbn [flight received executed].
    + done.
    + apply Forall_app. split; [done|]. by constructor.
    + rewrite <- Hc, !map_app, !concat_app. simpl. rewrite Hp. simpl.
      change (rx_rank r :: rx_pending r') with ([rx_rank r] ++ rx_pending r'). solve_Permutation.
    + rewrite !map_app, !list_sum_app. simpl. lia.
Qed.

Lemma eager_start_inv root : 0 <= root < rank_n ->
  exists st, start root = Ok st /\ inv root st /\ (weight st <= 3 * Z.to_nat (rank_n - 1))%nat.
Proof.
  intros Hr. unfold start, bcast_am_master_eager.
  destruct (all_targets_partition eager_mid rank_n root (root + rank_n)) as (ms & -> & Hms & Hp); [lia..|].
  mcbn. eexists. split; [done|]. fold (covered ms) in Hp. split.
  - split; [done|by constructor|]. by rewrite <- Hp.
  - unfold weight. cbn [flight received map list_sum]. rewrite Hp. unfold ranks. rewrite length_fmap, length_seqZ.
    simpl. lia.
Qed.

Lemma eager_reachable_inv root k st : 0 <= root < rank_n -> reachable root k st ->
  inv root st /\ (weight st + k <= 3 * Z.to_nat (rank_n - 1))%nat.
Proof.
  intros Hr. induction 1 as [st Hst|k st st' _ [IH IHw] Hs].
  - destruct (eager_start_inv root Hr) as (st0 & E & Hi & Hw). rewrite E in Hst. injection Hst as ->.
    split; [done|lia].
  - destruct (eager_step_inv _ _ _ IH Hs) as (st2 & [= <-] & Hi & Hw). split; [done|lia].
Qed.

(** No message in flight, no forwarding and no rpc left to run. *)
Definition quiescent (st : net) : Prop :=
  flight st = [] /\ Forall (fun r => rx_forward r = false /\ rx_rpc r = false) (received st).

(** The eager broadcast is memory safe and terminates: whatever the order of
    deliveries, forwardings and rpcs, no step uses a freed payload, and a team
    of [rank_n] ranks makes at most [3*(rank_n-1)] steps. *)
Theorem eager_safe root k st r : 0 <= root < rank_n -> reachable root k st -> step st r ->
  (exists st', r = Ok st') /\ (k < 3 * Z.to_nat (rank_n - 1))%nat.
Proof.
  intros Hr Hk Hs. destruct (eager_reachable_inv _ _ _ Hr Hk) as [Hi Hw].
  destruct (eager_step_inv _ _ _ Hi Hs) as (st' & -> & _ & Hlt). split; [by eexists|lia].
Qed.

(** When nothing is left to do the rpc has run exactly once on every rank of
    the team but the root, and every payload has been freed. *)
Theorem eager_exactly_once root k st : 0 <= root < rank_n -> reachable root k st -> quiescent st ->
  root :: executed st ≡ₚ seqZ 0 rank_n /\ Forall (fun r => rx_payload r = None) (received st).
Proof.
  intros Hr Hk [Hf Hq]. destruct (eager_reachable_inv _ _ _ Hr Hk) as [[_ Hrx Hc] _]. split.
  - assert (pending st = []) as Hp.
    { unfold pending. rewrite Hf. unfold covered. simpl. rewrite app_nil_r. clear Hc Hrx.
      induction Hq as [|r l [H1 H2] _ IH]; [done|]. simpl. rewrite IH. unfold rx_pending. by rewrite H1, H2. }
    rewrite Hp, app_nil_r in Hc. rewrite Hc. by apply ranks_all.
  - rewrite Forall_forall in *. intros r Hin. specialize (Hrx r Hin). specialize (Hq r Hin) as [H1 H2].
    destruct Hrx as [_ Hrx]. destruct (rx_payload r) as [[ub refs]|]; [|done].
    rewrite H1, H2 in Hrx. simpl in Hrx. lia.
Qed.

(** Some step is enabled unless the broadcast is over. *)
Lemma not_quiescent_step st : ~ quiescent st -> exists r, step st r.
Proof.
  destruct st as [f rs ex]. intros Hq. destruct f as [|t f].
  - destruct (decide (Forall (fun r => rx_forward r = false /\ rx_rpc r = false) rs)) as [Hd|Hd].
    + by destruct Hq.
    + apply not_Forall_Exists in Hd; [|apply _]. apply Exists_exists in Hd as (r & Hin & Hr).
      apply list_elem_of_split in Hin as (r1 & r2 & ->).
      destruct (rx_forward r) eqn:E1; [eexists; by apply step_forward|].
      destruct (rx_rpc r) eqn:E2; [eexists; by apply step_rpc|]. by destruct Hr.
  - eexists. apply (step_receive [] t f).
Qed.

(** The broadcast runs to completion: from any reachable state there is a
    run to a quiescent one. *)
Theorem eager_completes root k st : 0 <= root < rank_n -> reachable root k st ->
  exists k' st', reachable root k' st' /\ quiescent st' /\ (k <= k')%nat.
Proof.
  intros Hr. remember (weight st) as w eqn:Hw. revert k st Hw.
  induction w as [w IH] using (well_founded_induction lt_wf). intros k st -> Hk.
  destruct (decide (flight st = [] /\ Forall (fun r => rx_forward r = false /\ rx_rpc r = false) (received st))) as [Hq|Hq].
  - exists k, st. by split_and!.
  - destruct (not_quiescent_step st Hq) as [r Hs].
    destruct (eager_reachable_inv _ _ _ Hr Hk) as [Hi _].
    destruct (eager_step_inv _ _ _ Hi Hs) as (st' & -> & _ & Hlt).
    destruct (IH (weight st') Hlt (S k) st' eq_refl (reach_step _ _ _ _ Hk Hs)) as (k' & st2 & ? & ? & ?).
    exists k', st2. split_and!; [done..|lia].
Qed.

End eager.

(** A run on three ranks from root 1. *)
Definition demo_start : net := mk_net [(0, 1); (2, 3)] [] [].

Lemma demo_reachable : reachable 3 1 1 (mk_net [(2, 3)] [mk_rx 0 true true (Some (1, 2))] []).
Proof. eapply (reach_step 3 1 0 demo_start); [by apply reach_start|exact (step_receive 3 [] (0, 1) [(2, 3)] [] [])]. Qed.

Lemma eager_safe_witness :
  (exists st', (r' ← run_rpc (mk_rx 0 true true (Some (1, 2)));
                Ok (mk_net [(2, 3)] ([] ++ r' :: []) ([] ++ [0]))) = Ok st') /\ (1 < 3 * Z.to_nat (3 - 1))%nat.
Proof.
  apply (eager_safe 3 1 1 (mk_net [(2, 3)] [mk_rx 0 true true (Some (1, 2))] [])); [lia|exact demo_reachable|].
  exact (step_rpc 3 [(2, 3)] [] (mk_rx 0 true true (Some (1, 2))) [] [] eq_refl).
Defined.

Lemma eager_exactly_once_witness :
  1 :: [0] ≡ₚ seqZ 0 2 /\ Forall (fun r => rx_payload r = None) [mk_rx 0 false false None].
Proof.
  apply (eager_exactly_once 2 1 3 (mk_net [] [mk_rx 0 false false None] [0])); [lia| |by split; [|repeat constructor]].
  eapply (reach_step 2 1 2 (mk_net [] [mk_rx 0 true false (Some (1, 1))] [0]));
    [|exact (step_forward 2 [] [] (mk_rx 0 true false (Some (1, 1))) [] [0] eq_refl)].
  eapply (reach_step 2 1 1 (mk_net [] [mk_rx 0 true true (Some (1, 2))] []));
    [|exact (step_rpc 2 [] [] (mk_rx 0 true true (Some (1, 2))) [] [] eq_refl)].
  eapply (reach_step 2 1 0 (mk_net [(0, 1)] [] [])); [by apply reach_start|exact (step_receive 2 [] (0, 1) [] [] [])].
Defined.

Lemma eager_completes_witness : exists k' st', reachable 3 1 k' st' /\ quiescent st' /\ (1 <= k')%nat.
Proof.
  apply (eager_completes 3 1 1 (mk_net [(2, 3)] [mk_rx 0 true true (Some (1, 2))] [])); [lia|exact demo_reachable].
Defined.

End Eager.

(** * Rendezvous protocol *)

Module Rdzv.
Import Tree.

Section rdzv.
Context (rank_n : Z).

(** [backend::rank_is_local] between two ranks of the team: they share memory. *)
Context (local : Z -> Z -> bool).

(** A payload buffer in some rank's segment: its owner and [rdzv_refs], which is
    not initialised while the payload is being fetched. *)
Abbreviation buffer := (Z * option Z)%type.

(** A forwarding message: destination, its interval, sender and payload. *)
Record fwd := mk_fwd { f_dst : Z; f_ub : Z; f_sender : Z; f_buf : Z }.

(** An [rma_get] under way, from the sender's payload to a buffer of [g_rank]. *)
Record get := mk_get { g_rank : Z; g_ub : Z; g_src : Z; g_dst : Z }.

(** An enqueued [bcast_as_lpc]: its payload and [rdzv_rank_s_local]. *)
Record rpc := mk_rpc { r_rank : Z; r_buf : Z; r_local : bool }.

(** [drops] and [frees] are the restricted messages to the owner: give back a
    reference, deallocate the payload. *)
Record net := mk_net {
  heap : gmap Z buffer;
  fwds : list fwd;
  gets : list get;
  rpcs : list rpc;
  drops : list Z;
  frees : list Z;
  executed : list Z
}.

Definition set_heap (h : gmap Z buffer) (st : net) : net :=
  mk_net h (fwds st) (gets st) (rpcs st) (drops st) (frees st) (executed st).

Definition load_refs (h : gmap Z buffer) (b : Z) : res (Z * Z) :=
  '(o, r) ← deref (h !! b); r ← deref r; Ok (o, r).

Definition deallocate (h : gmap Z buffer) (b : Z) : res (gmap Z buffer) :=
  _ ← deref (h !! b); Ok (delete b h).

(** [rdzv_refs.fetch_add(k)]: the new heap and the old count. *)
Definition fetch_add (h : gmap Z buffer) (b k : Z) : res (gmap Z buffer * Z) :=
  '(o, r) ← load_refs h b; Ok (<[b := (o, Some (r + k))]> h, r).

(** The precomputed number of messages. *)
Fixpoint count_messages (fuel : nat) (rank_me hi : Z) : option nat :=
  match fuel with
  | O => None
  | S fuel =>
      let mid := rdzv_mid rank_me hi in
      if mid =? rank_me then Some O else S <$> count_messages fuel rank_me mid
  end.

(** The loop over targets. *)
Definition send_targets (h : gmap Z buffer) (rank_me rank_d_ub b : Z) : res (gmap Z buffer * list fwd) :=
  ms ← all_targets rdzv_mid rank_n rank_me rank_d_ub;
  Ok (h, map (fun t => mk_fwd t.1 t.2 rank_me b) ms).

(** [bcast_am_master_rdzv]: the heap after the references for the messages have
    been added, and the messages sent.  [owner_is_me] stands for the code's
    [payload_owner == payload_sender], which compares an address of the owner
    with one of the sender. *)
Definition bcast_am_master_rdzv (h : gmap Z buffer) (rank_me rank_d_ub : Z) (owner_is_me : bool) (b : Z)
    : res (gmap Z buffer * list fwd) :=
  messages ← deref (count_messages (fuel_for rank_me rank_d_ub) rank_me rank_d_ub);
  if owner_is_me then
    '(o, refs) ← load_refs h b;
    let refs := refs + Z.of_nat messages in
    let h := <[b := (o, Some refs)]> h in
    match messages with
    | O => if refs =? 0 then h ← deallocate h b; Ok (h, []) else Ok (h, [])
    | S _ => send_targets h rank_me rank_d_ub b
    end
  else
    match messages with
    | O => Ok (h, [])
    | S _ => '(h, _) ← fetch_add h b (Z.of_nat messages); send_targets h rank_me rank_d_ub b
    end.

(** [bcast_am_master] at the root, the payload in a fresh buffer. *)
Definition start (root b : Z) : res net :=
  '(h, ms) ← bcast_am_master_rdzv {[b := (root, Some 0)]} root (root + rank_n) true b;
  Ok (mk_net h ms [] [] [] [] []).

(** A forwarding message arrives, [fresh] being where a new buffer would go. *)
Definition receive (f : fwd) (fresh : Z) (st : net) : res net :=
  if local (f_dst f) (f_sender f) then
    '(owner, _) ← deref (heap st !! f_buf f);
    _ ← assert_that (local (f_dst f) owner);     (* localize_memory_nonnull *)
    '(h, ms) ← bcast_am_master_rdzv (heap st) (f_dst f) (f_ub f) (owner =? f_dst f) (f_buf f);
    Ok (mk_net h (fwds st ++ ms) (gets st) (rpcs st ++ [mk_rpc (f_dst f) (f_buf f) true])
               (drops st) (frees st) (executed st))
  else
    Ok (mk_net (<[fresh := (f_dst f, None)]> (heap st)) (fwds st)
               (gets st ++ [mk_get (f_dst f) (f_ub f) (f_buf f) fresh]) (rpcs st)
               (drops st) (frees st) (executed st)).

(** The callback of [rma_get]: the source payload must have been there to read. *)
Definition get_done (g : get) (st : net) : res net :=
  _ ← deref (heap st !! g_src g);
  '(owner, _) ← deref (heap st !! g_dst g);
  let h := <[g_dst g := (owner, Some 1)]> (heap st) in
  '(h, ms) ← bcast_am_master_rdzv h (g_rank g) (g_ub g) true (g_dst g);
  Ok (mk_net h (fwds st ++ ms) (gets st) (rpcs st ++ [mk_rpc (g_rank g) (g_dst g) false])
             (drops st ++ [g_src g]) (frees st) (executed st)).

(** The rpc runs from the payload, then [bcast_as_lpc::cleanup]. *)
Definition run_rpc (r : rpc) (st : net) : res net :=
  '(h, refs) ← fetch_add (heap st) (r_buf r) (-1);
  let refs_now := -1 + refs in
  let st := mk_net h (fwds st) (gets st) (rpcs st) (drops st) (frees st) (executed st ++ [r_rank r]) in
  if r_local r then
    Ok (if refs_now =? 0
        then mk_net h (fwds st) (gets st) (rpcs st) (drops st) (frees st ++ [r_buf r]) (executed st)
        else st)
  else
    if refs_now =? 0 then h ← deallocate h (r_buf r); Ok (set_heap h st) else Ok st.

(** The message that gives back the reference of a fetched payload. *)
Definition do_drop (b : Z) (st : net) : res net :=
  '(h, refs) ← fetch_add (heap st) b (-1);
  if -1 + refs =? 0 then h ← deallocate h b; Ok (set_heap h st) else Ok (set_heap h st).

Definition do_free (b : Z) (st : net) : res net :=
  h ← deallocate (heap st) b; Ok (set_heap h st).

Inductive step : net -> res net -> Prop :=
| step_receive h f1 f f2 g r d fr ex fresh : h !! fresh = None ->
    step (mk_net h (f1 ++ f :: f2) g r d fr ex) (receive f fresh (mk_net h (f1 ++ f2) g r d fr ex))
| step_get h f g1 g g2 r d fr ex :
    step (mk_net h f (g1 ++ g :: g2) r d fr ex) (get_done g (mk_net h f (g1 ++ g2) r d fr ex))
| step_rpc h f g r1 r r2 d fr ex :
    step (mk_net h f g (r1 ++ r :: r2) d fr ex) (run_rpc r (mk_net h f g (r1 ++ r2) d fr ex))
| step_drop h f g r d1 b d2 fr ex :
    step (mk_net h f g r (d1 ++ b :: d2) fr ex) (do_drop b (mk_net h f g r (d1 ++ d2) fr ex))
| step_free h f g r d fr1 b fr2 ex :
    step (mk_net h f g r d (fr1 ++ b :: fr2) ex) (do_free b (mk_net h f g r d (fr1 ++ fr2) ex)).

Inductive reachable (root b : Z) : nat -> net -> Prop :=
| reach_start st : start root b = Ok st -> reachable root b 0 st
| reach_step k st st' : reachable root b k st -> step st (Ok st') -> reachable root b (S k) st'.

(** ** Reference counting

    [L] lists, once per reference, the buffer that each outstanding use refers
    to, [F] the buffers whose deallocation has been requested, [G] those whose
    content is being fetched. *)

Definition cnt (b : Z) (l : list Z) : nat := count_occ Z.eq_dec l b.

Definition heap_ok (h : gmap Z buffer) (L F G : list Z) : Prop := forall b,
  match h !! b with
  | Some (_, Some refs) => refs = Z.of_nat (cnt b L) /\ cnt b G = O /\ cnt b F = (if refs =? 0 then 1%nat else O)
  | Some (_, None) => cnt b L = O /\ cnt b F = O /\ cnt b G = 1%nat
  | None => cnt b L = O /\ cnt b F = O /\ cnt b G = O
  end.

#[global] Instance cnt_proper b : Proper ((≡ₚ) ==> (=)) (cnt b).
Proof. intros l l' Hp. unfold cnt. by apply (Permutation_count_occ Z.eq_dec). Qed.

#[global] Instance heap_ok_proper h : Proper ((≡ₚ) ==> (≡ₚ) ==> (≡ₚ) ==> iff) (heap_ok h).
Proof.
  intros L L' HL F F' HF G G' HG. unfold heap_ok. split; intros H b; specialize (H b).
  - by rewrite <- (cnt_proper b _ _ HL), <- (cnt_proper b _ _ HF), <- (cnt_proper b _ _ HG).
  - by rewrite (cnt_proper b _ _ HL), (cnt_proper b _ _ HF), (cnt_proper b _ _ HG).
Qed.

Lemma cnt_here b l : cnt b (b :: l) = S (cnt b l).
Proof. unfold cnt. simpl. by destruct (Z.eq_dec b b). Qed.

Lemma cnt_other c b l : c <> b -> cnt c (b :: l) = cnt c l.
Proof. intros. unfold cnt. simpl. by destruct (Z.eq_dec b c). Qed.

Lemma cnt_app b l l' : cnt b (l ++ l') = (cnt b l + cnt b l')%nat.
Proof. apply count_occ_app. Qed.

Lemma cnt_replicate_here b k : cnt b (replicate k b) = k.
Proof. induction k as [|k IH]; [done|]. cbn [replicate]. by rewrite cnt_here, IH. Qed.

Lemma cnt_replicate_other c b k : c <> b -> cnt c (replicate k b) = O.
Proof. intros. induction k as [|k IH]; [done|]. cbn [replicate]. by rewrite cnt_other, IH. Qed.

(** Case analysis on whether a buffer is the one an operation touches. *)
Ltac touched c b :=
  destruct (decide (c = b)) as [->|];
  [ rewrite ?lookup_insert_eq, ?lookup_delete_eq, ?cnt_app, ?cnt_here, ?cnt_replicate_here in *
  | rewrite ?lookup_insert_ne, ?lookup_delete_ne, ?cnt_app, ?cnt_other, ?cnt_replicate_other in * by congruence ].

(** The one comparison with zero that an entry's condition makes. *)
Ltac zero_cases := repeat match goal with
  | |- context [?z =? 0] => destruct (Z.eqb_spec z 0)
  | H : context [?z =? 0] |- _ => destruct (Z.eqb_spec z 0)
  end; split_and?; (done || lia).

Lemma in_use h L F G b : heap_ok h (b :: L) F G ->
  exists o r, h !! b = Some (o, Some r) /\ r = Z.of_nat (S (cnt b L)) /\ cnt b F = O /\ cnt b G = O.
Proof.
  intros H. specialize (H b). rewrite cnt_here in H.
  destruct (h !! b) as [[o [r|]]|]; [|lia|lia]. exists o, r. destruct H as (-> & HG & HF).
  split_and!; [done|lia| |done]. zero_cases.
Qed.

Lemma heap_add h L F G b o r k : heap_ok h L F G -> h !! b = Some (o, Some r) -> 0 < r ->
  heap_ok (<[b := (o, Some (r + Z.of_nat k))]> h) (replicate k b ++ L) F G.
Proof.
  intros H Hb Hr c. specialize (H c). touched c b; [|done]. rewrite Hb in H. zero_cases.
Qed.

Lemma heap_drop h L F G b o r : heap_ok h (b :: L) F G -> h !! b = Some (o, Some r) -> r - 1 <> 0 ->
  heap_ok (<[b := (o, Some (r - 1))]> h) L F G.
Proof.
  intros H Hb Hr c. specialize (H c). touched c b; [|done]. rewrite Hb in H. zero_cases.
Qed.

Lemma heap_drop_last h L F G b o r : heap_ok h (b :: L) F G -> h !! b = Some (o, Some r) -> r - 1 = 0 ->
  heap_ok (delete b h) L F G /\ heap_ok (<[b := (o, Some (r - 1))]> h) L (b :: F) G.
Proof.
  intros H Hb Hr. split; intros c; specialize (H c); (touched c b; [|done]); rewrite Hb in H; zero_cases.
Qed.

Lemma heap_free h L F G b : heap_ok h L (b :: F) G -> is_Some (h !! b) /\ heap_ok (delete b h) L F G.
Proof.
  intros H. assert (Hb := H b). rewrite cnt_here in Hb.
  destruct (h !! b) as [[o [r|]]|] eqn:E; [|lia|lia]. split; [by eexists|].
  intros c. specialize (H c). touched c b; [|done]. zero_cases.
Qed.

Lemma heap_alloc h L F G b o : heap_ok h L F G -> h !! b = None -> heap_ok (<[b := (o, None)]> h) L F (b :: G).
Proof.
  intros H Hb c. specialize (H c). touched c b; [|done]. rewrite Hb in H. lia.
Qed.

Lemma heap_init h L F G b k : heap_ok h L F (b :: G) -> exists o, h !! b = Some (o, None) /\
  heap_ok (<[b := (o, Some (Z.of_nat (S k)))]> h) (replicate (S k) b ++ L) F G.
Proof.
  intros H. assert (Hb := H b). rewrite cnt_here in Hb.
  destruct (h !! b) as [[o [r|]]|] eqn:E; [lia| |lia]. exists o. split; [done|].
  intros c. specialize (H c). touched c b; [|done]. zero_cases.
Qed.

(** ** The precomputed count is the number of messages sent *)

Lemma count_messages_targets fuel me ub ms :
  targets rdzv_mid rank_n fuel me ub = Some ms -> count_messages fuel me ub = Some (length ms).
Proof.
  revert ub ms. induction fuel as [|fuel IH]; intros ub ms; [done|]. simpl.
  destruct (rdzv_mid me ub =? me); [by intros [= <-]|].
  destruct (targets rdzv_mid rank_n fuel me (rdzv_mid me ub)) as [ms'|] eqn:E; [|done].
  intros [= <-]. by rewrite (IH _ _ E).
Qed.

(** ** Invariant *)

Definition owned_by (h : gmap Z buffer) (b o : Z) : Prop := exists x, h !! b = Some (o, x).

Definition covers (t : Z * Z) : list Z := ranks rank_n t.1 t.2.

Definition uses (st : net) : list Z :=
  map f_buf (fwds st) ++ map g_src (gets st) ++ map r_buf (rpcs st) ++ drops st.

Definition fwd_ok (h : gmap Z buffer) (f : fwd) : Prop :=
  interval_ok rank_n (f_dst f, f_ub f) /\ exists o, owned_by h (f_buf f) o /\ local (f_sender f) o = true.

Definition get_ok (h : gmap Z buffer) (g : get) : Prop :=
  interval_ok rank_n (g_rank g, g_ub g) /\ owned_by h (g_dst g) (g_rank g).

Definition pending (st : net) : list Z :=
  map r_rank (rpcs st) ++ concat (map (fun f => covers (f_dst f, f_ub f)) (fwds st))
  ++ concat (map (fun g => covers (g_rank g, g_ub g)) (gets st)).

Record inv (root : Z) (st : net) : Prop := {
  inv_heap : heap_ok (heap st) (uses st) (frees st) (map g_dst (gets st));
  inv_fwds : Forall (fwd_ok (heap st)) (fwds st);
  inv_gets : Forall (get_ok (heap st)) (gets st);
  inv_cover : executed st ++ pending st ≡ₚ ranks rank_n (root + 1) (root + rank_n)
}.

Definition weight (st : net) : nat :=
  list_sum (map (fun f => 8 * length (covers (f_dst f, f_ub f)))%nat (fwds st))
  + list_sum (map (fun g => 8 * length (covers (g_rank g, g_ub g)) - 1)%nat (gets st))
  + 2 * length (rpcs st) + length (drops st) + length (frees st).

(** Buffers never change owner while they are in use. *)
Definition owners_kept (h h' : gmap Z buffer) : Prop :=
  forall c o x o' x', h !! c = Some (o, x) -> h' !! c = Some (o', x') -> o' = o.

Lemma owned_kept h h' b o : owners_kept h h' -> owned_by h b o -> is_Some (h' !! b) -> owned_by h' b o.
Proof. intros Hk [x Hx] [[o' x'] Hx']. exists x'. by rewrite Hx', (Hk b o x o' x'). Qed.

Lemma owners_kept_insert h b o x x' : h !! b = Some (o, x) -> owners_kept h (<[b := (o, x')]> h).
Proof. intros Hb c o1 x1 o2 x2 H1 H2. destruct (decide (c = b)) as [->|]; revert H2; map_lookups; congruence. Qed.

Lemma owners_kept_delete h b : owners_kept h (delete b h).
Proof. intros c o1 x1 o2 x2 H1 H2. apply lookup_delete_Some in H2 as [_ H2]. congruence. Qed.

Lemma owners_kept_new h b e : h !! b = None -> owners_kept h (<[b := e]> h).
Proof. intros Hb c o1 x1 o2 x2 H1 H2. rewrite lookup_insert_ne in H2 by congruence. congruence. Qed.

Lemma owners_kept_trans h h1 h2 : owners_kept h h1 -> owners_kept h1 h2 ->
  (forall c, is_Some (h !! c) -> is_Some (h1 !! c)) -> owners_kept h h2.
Proof.
  intros H1 H2 Hs c o x o' x' Hc Hc'. destruct (Hs c ltac:(by eexists)) as [[o1 x1] Hc1].
  rewrite (H2 _ _ _ _ _ Hc1 Hc'). eauto.
Qed.

Lemma in_cnt b l : b ∈ l -> cnt b l <> O.
Proof. intros Hb%list_elem_of_In. apply (count_occ_In Z.eq_dec) in Hb. unfold cnt. lia. Qed.

Lemma in_use_some h L F G b : heap_ok h L F G -> b ∈ L ++ F ++ G -> is_Some (h !! b).
Proof.
  intros H Hb%in_cnt. specialize (H b). rewrite !cnt_app in Hb.
  destruct (h !! b) as [[]|]; [by eexists|lia].
Qed.

Lemma fwds_kept h h' L F G fs : Forall (fwd_ok h) fs -> owners_kept h h' -> heap_ok h' L F G ->
  (forall f, f ∈ fs -> f_buf f ∈ L) -> Forall (fwd_ok h') fs.
Proof.
  rewrite !Forall_forall. intros Hf Hk Hh Hin f Hfi. destruct (Hf f Hfi) as (Hi & o & Ho & Hl).
  split; [done|]. exists o. split; [|done]. eapply owned_kept; [done..|].
  eapply in_use_some; [done|]. specialize (Hin f Hfi). set_solver.
Qed.

Lemma gets_kept h h' L F G gs : Forall (get_ok h) gs -> owners_kept h h' -> heap_ok h' L F G ->
  (forall g, g ∈ gs -> g_dst g ∈ G) -> Forall (get_ok h') gs.
Proof.
  rewrite !Forall_forall. intros Hf Hk Hh Hin g Hgi. destruct (Hf g Hgi) as (Hi & Ho).
  split; [done|]. eapply owned_kept; [done..|].
  eapply in_use_some; [done|]. specialize (Hin g Hgi). set_solver.
Qed.

Lemma covers_cons t : interval_ok rank_n t -> covers t = t.1 :: ranks rank_n (t.1 + 1) t.2.
Proof. intros [H1 H2]. apply ranks_cons; lia. Qed.

(** The sends of a rank that holds a reference to the payload. *)
Lemma bcast_ok h L F G b o r me ub owner_is_me : heap_ok h L F G -> h !! b = Some (o, Some r) -> 0 < r ->
  interval_ok rank_n (me, ub) -> local me o = true ->
  exists h' ms, bcast_am_master_rdzv h me ub owner_is_me b = Ok (h', ms)
    /\ heap_ok h' (map f_buf ms ++ L) F G /\ owners_kept h h' /\ (forall c, is_Some (h !! c) -> is_Some (h' !! c))
    /\ Forall (fwd_ok h') ms
    /\ concat (map (fun f => covers (f_dst f, f_ub f)) ms) ≡ₚ ranks rank_n (me + 1) ub.
Proof.
  intros Hh Hb Hr Hint Hloc. unfold bcast_am_master_rdzv, send_targets, fetch_add, load_refs.
  destruct (all_targets_ok rdzv_mid rank_n _ Hint) as (ts & Et & Hts & Hp). cbn [fst snd] in *.
  rewrite Et. unfold all_targets in Et. apply deref_ok in Et. rewrite (count_messages_targets _ _ _ _ Et).
  mcbn. set (ms := map (fun t => mk_fwd t.1 t.2 me b) ts).
  set (h' := <[b := (o, Some (r + Z.of_nat (length ts)))]> h).
  assert (Hbufs : map f_buf ms = replicate (length ts) b).
  { clear. subst ms. induction ts as [|t ts IH]; [done|]. simpl. by rewrite IH. }
  assert (Hh' := heap_add _ _ _ _ _ _ _ (length ts) Hh Hb Hr). fold h' in Hh'. rewrite <- Hbufs in Hh'.
  assert (Hgoal : heap_ok h' (map f_buf ms ++ L) F G /\ owners_kept h h'
    /\ (forall c, is_Some (h !! c) -> is_Some (h' !! c)) /\ Forall (fwd_ok h') ms
    /\ concat (map (fun f => covers (f_dst f, f_ub f)) ms) ≡ₚ ranks rank_n (me + 1) ub).
  { split_and!; [done|by eapply owners_kept_insert| | |].
    - intros c Hc. destruct (decide (c = b)) as [->|]; subst h'; map_lookups; [by eexists|done].
    - subst ms. apply Forall_map. eapply Forall_impl; [exact Hts|]. intros t Ht.
      split; [by destruct t|]. exists o. split; [|done]. eexists. subst h'. cbn [f_buf]. by map_lookups.
    - rewrite <- Hp. subst ms. rewrite map_map. done. }
  rewrite Hb. mcbn. destruct (length ts) as [|k] eqn:El.
  - apply nil_length_inv in El. subst ts. exists (if owner_is_me then h' else h), ms. subst ms h'.
    rewrite Z.add_0_r in *. rewrite insert_id in * by done.
    destruct owner_is_me; [|done]. destruct (Z.eqb_spec r 0); [lia|done].
  - exists h', ms. by destruct owner_is_me.
Qed.

(** ** Steps *)

Context (local_refl : forall a, local a a = true).
Context (local_trans : forall a b c, local a b = true -> local b c = true -> local a c = true).

Ltac net_simpl := cbn [heap fwds gets rpcs drops frees executed set_heap] in *.

(** Rearrange the uses of a state. *)
Ltac perm_uses H :=
  eapply heap_ok_proper; [| | |exact H];
  unfold uses; cbn [heap fwds gets rpcs drops frees executed];
  rewrite ?map_app; cbn [map f_buf g_src g_dst r_buf app]; [solve_Permutation|solve_Permutation|solve_Permutation].

Lemma forall_mid {A} (P : A -> Prop) l1 x l2 : Forall P (l1 ++ x :: l2) -> P x /\ Forall P (l1 ++ l2).
Proof. rewrite !Forall_app, Forall_cons. tauto. Qed.

Lemma weight_mid {A} (w : A -> nat) l1 x l2 :
  list_sum (map w (l1 ++ x :: l2)) = (w x + list_sum (map w (l1 ++ l2)))%nat.
Proof. rewrite !map_app, !list_sum_app. simpl. lia. Qed.

Lemma weight_fwds ms : list_sum (map (fun f => 8 * length (covers (f_dst f, f_ub f)))%nat ms)
  = (8 * length (concat (map (fun f => covers (f_dst f, f_ub f)) ms)))%nat.
Proof. induction ms as [|f ms IH]; [done|]. cbn [map concat]. rewrite length_app. change (list_sum (?a :: ?l)) with (a + list_sum l)%nat. lia. Qed.

Lemma concat_mid {A} (l1 : list (list A)) x l2 : concat (l1 ++ x :: l2) ≡ₚ x ++ concat (l1 ++ l2).
Proof. rewrite !concat_app. simpl. solve_Permutation. Qed.

Lemma receive_ok root h f1 f f2 g r d fr ex fresh :
  inv root (mk_net h (f1 ++ f :: f2) g r d fr ex) -> h !! fresh = None ->
  exists st', receive f fresh (mk_net h (f1 ++ f2) g r d fr ex) = Ok st' /\ inv root st'
    /\ (weight st' < weight (mk_net h (f1 ++ f :: f2) g r d fr ex))%nat.
Proof.
  intros [Hh Hf Hg Hc] Hfr. net_simpl. apply forall_mid in Hf as [(Hint & o & [x Ho] & Hl) Hf].
  set (L := map f_buf (f1 ++ f2) ++ map g_src g ++ map r_buf r ++ d).
  assert (Hh1 : heap_ok h (f_buf f :: L) fr (map g_dst g)) by (subst L; perm_uses Hh).
  destruct (in_use _ _ _ _ _ Hh1) as (o' & refs & Hb & Hrefs & _ & _). rewrite Hb in Ho. injection Ho as -> <-.
  unfold receive. net_simpl. pose proof (covers_cons _ Hint) as Hcov. cbn [fst snd] in Hcov.
  destruct (local (f_dst f) (f_sender f)) eqn:Eloc.
  - rewrite Hb. mcbn. rewrite (local_trans _ _ _ Eloc Hl). mcbn.
    destruct (bcast_ok _ _ _ _ _ _ _ _ _ (o =? f_dst f) Hh1 Hb ltac:(lia) Hint (local_trans _ _ _ Eloc Hl))
      as (h' & ms & -> & Hh' & Hk & Hsome & Hms & Hp). mcbn. eexists. split; [done|].
    split; [split; net_simpl|].
    + subst L. perm_uses Hh'.
    + rewrite <- (assoc_L (++)), (assoc_L (++)). apply Forall_app. split; [|done].
      eapply fwds_kept; [exact Hf|done|exact Hh'|]. intros f' Hf'. subst L.
      apply elem_of_app. right. right. apply elem_of_app. left. by apply list_elem_of_fmap_2.
    + eapply gets_kept; [exact Hg|done|exact Hh'|]. intros g' Hg'. by apply list_elem_of_fmap_2.
    + rewrite <- Hc. unfold pending. net_simpl. rewrite !map_app, !map_cons, concat_mid, !concat_app, Hcov, <- Hp.
      cbn [map r_rank]. change (f_dst f :: ?l) with ([f_dst f] ++ l). solve_Permutation.
    + unfold weight. net_simpl. rewrite weight_mid, (map_app _ (f1 ++ f2)), list_sum_app, (weight_fwds ms), Hp, length_app, Hcov.
      cbn [length]. lia.
  - eexists. split; [done|]. split; [split; net_simpl|].
    + pose proof (heap_alloc _ _ _ _ _ (f_dst f) Hh1 Hfr) as Hh'. subst L. perm_uses Hh'.
    + eapply fwds_kept; [exact Hf|by apply owners_kept_new|exact (heap_alloc _ _ _ _ _ _ Hh1 Hfr)|].
      intros f' Hf'. subst L. right. apply elem_of_app. left. by apply list_elem_of_fmap_2.
    + apply Forall_app. split; [|apply Forall_singleton; split; [done|]; eexists; cbn [g_dst g_rank]; by map_lookups].
      eapply gets_kept; [exact Hg|by apply owners_kept_new|exact (heap_alloc _ _ _ _ _ _ Hh1 Hfr)|].
      intros g' Hg'. right. by apply list_elem_of_fmap_2.
    + rewrite <- Hc. unfold pending. net_simpl. rewrite !map_app, !map_cons, concat_mid, !concat_app.
      cbn [map concat g_rank g_ub]. solve_Permutation.
    + unfold weight. net_simpl. rewrite !weight_mid, app_nil_r. cbn [g_rank g_ub].
      rewrite Hcov. cbn [length]. lia.
Qed.

Lemma get_done_ok root h f g1 g g2 r d fr ex :
  inv root (mk_net h f (g1 ++ g :: g2) r d fr ex) ->
  exists st', get_done g (mk_net h f (g1 ++ g2) r d fr ex) = Ok st' /\ inv root st'
    /\ (weight st' < weight (mk_net h f (g1 ++ g :: g2) r d fr ex))%nat.
Proof.
  intros [Hh Hf Hg Hc]. net_simpl. apply forall_mid in Hg as [[Hint [x Ho]] Hg].
  set (L := map f_buf f ++ map g_src (g1 ++ g2) ++ map r_buf r ++ d).
  set (G := map g_dst (g1 ++ g2)).
  assert (Hh1 : heap_ok h (g_src g :: L) fr (g_dst g :: G)) by (subst L G; perm_uses Hh).
  destruct (in_use _ _ _ _ _ Hh1) as (o' & refs & Hb & _).
  destruct (heap_init _ _ _ _ _ 0 Hh1) as (o & Hd & Hh2). rewrite Hd in Ho. injection Ho as -> <-.
  unfold get_done. net_simpl. rewrite Hb. mcbn. rewrite Hd. mcbn.
  set (h1 := <[g_dst g := (g_rank g, Some (Z.of_nat 1))]> h) in *.
  assert (Hh1d : h1 !! g_dst g = Some (g_rank g, Some 1)) by (subst h1; by map_lookups).
  destruct (bcast_ok _ _ _ _ _ _ _ _ _ true Hh2 Hh1d ltac:(lia) Hint (local_refl _))
    as (h' & ms & E & Hh' & Hk & Hsome & Hms & Hp). change (Z.of_nat 1) with 1 in h1. fold h1. rewrite E. mcbn.
  assert (Hk' : owners_kept h h').
  { eapply owners_kept_trans; [by eapply owners_kept_insert|exact Hk|].
    intros c Hcs. destruct (decide (c = g_dst g)) as [->|]; map_lookups; [by eexists|done]. }
  pose proof (covers_cons _ Hint) as Hcov. cbn [fst snd] in Hcov.
  eexists. split; [done|]. split; [split; net_simpl|].
  - subst L G. cbn [replicate] in Hh'. perm_uses Hh'.
  - apply Forall_app. split; [|done].
    eapply fwds_kept; [exact Hf|done|exact Hh'|]. intros f' Hf'. subst L.
    apply elem_of_app. right. cbn [replicate app]. right. right. apply elem_of_app. left.
    by apply list_elem_of_fmap_2.
  - eapply gets_kept; [exact Hg|done|exact Hh'|]. intros g' Hg'. by apply list_elem_of_fmap_2.
  - rewrite <- Hc. unfold pending. net_simpl. rewrite !map_app, !map_cons, concat_mid, !concat_app, Hcov, <- Hp.
    cbn [map r_rank]. change (g_rank g :: ?l) with ([g_rank g] ++ l). solve_Permutation.
  - unfold weight. net_simpl. rewrite weight_mid, map_app, list_sum_app, (weight_fwds ms), Hp, !length_app, Hcov.
    cbn [length]. lia.
Qed.

(** Steps that only change the counts. *)
Lemma count_step root h h' f g r d fr ex r' d' fr' ex' :
  inv root (mk_net h f g r d fr ex) -> owners_kept h h' ->
  heap_ok h' (uses (mk_net h' f g r' d' fr' ex')) fr' (map g_dst g) ->
  ex' ++ map r_rank r' ≡ₚ ex ++ map r_rank r ->
  inv root (mk_net h' f g r' d' fr' ex').
Proof.
  intros [Hh Hf Hg Hc] Hk Hh' Hp. split; net_simpl; [done|..].
  - eapply fwds_kept; [exact Hf|done|exact Hh'|]. intros f' Hf'. apply elem_of_app. left.
    by apply list_elem_of_fmap_2.
  - eapply gets_kept; [exact Hg|done|exact Hh'|]. intros g' Hg'. by apply list_elem_of_fmap_2.
  - rewrite <- Hc. unfold pending. net_simpl. rewrite !(assoc_L (++)). by rewrite Hp.
Qed.

Lemma rdzv_run_rpc_ok root h f g r1 r r2 d fr ex :
  inv root (mk_net h f g (r1 ++ r :: r2) d fr ex) ->
  exists st', run_rpc r (mk_net h f g (r1 ++ r2) d fr ex) = Ok st' /\ inv root st'
    /\ (weight st' < weight (mk_net h f g (r1 ++ r :: r2) d fr ex))%nat.
Proof.
  intros Hi. pose proof Hi as [Hh _ _ _]. net_simpl.
  set (L := map f_buf f ++ map g_src g ++ map r_buf (r1 ++ r2) ++ d).
  assert (Hh1 : heap_ok h (r_buf r :: L) fr (map g_dst g)) by (subst L; perm_uses Hh).
  destruct (in_use _ _ _ _ _ Hh1) as (o & refs & Hb & _).
  assert (Hp : (ex ++ [r_rank r]) ++ map r_rank (r1 ++ r2) ≡ₚ ex ++ map r_rank (r1 ++ r :: r2)).
  { rewrite !map_app, map_cons. change (r_rank r :: ?l) with ([r_rank r] ++ l). solve_Permutation. }
  unfold run_rpc, fetch_add, load_refs. net_simpl. rewrite Hb. mcbn.
  set (h' := <[r_buf r := (o, Some (refs + -1))]> h).
  assert (Hk : owners_kept h h') by (by eapply owners_kept_insert).
  destruct (r_local r); destruct (Z.eqb_spec (-1 + refs) 0) as [E|E].
  - destruct (heap_drop_last _ _ _ _ _ _ _ Hh1 Hb ltac:(lia)) as [_ Hh2].
    eexists. split; [done|]. split; [eapply count_step; [exact Hi|done| |done]|].
    + subst L. perm_uses Hh2.
    + unfold weight. net_simpl. rewrite !length_app. cbn [length]. lia.
  - pose proof (heap_drop _ _ _ _ _ _ _ Hh1 Hb ltac:(lia)) as Hh2.
    eexists. split; [done|]. split; [eapply count_step; [exact Hi|done|exact Hh2|done]|].
    unfold weight. net_simpl. rewrite !length_app. cbn [length]. lia.
  - destruct (heap_drop_last _ _ _ _ _ _ _ Hh1 Hb ltac:(lia)) as [Hh2 _].
    unfold deallocate. subst h'. rewrite lookup_insert_eq. mcbn. rewrite delete_insert_eq.
    eexists. split; [done|]. split; [eapply count_step; [exact Hi|apply owners_kept_delete|exact Hh2|done]|].
    unfold weight. net_simpl. rewrite !length_app. cbn [length]. lia.
  - pose proof (heap_drop _ _ _ _ _ _ _ Hh1 Hb ltac:(lia)) as Hh2.
    eexists. split; [done|]. split; [eapply count_step; [exact Hi|done|exact Hh2|done]|].
    unfold weight. net_simpl. rewrite !length_app. cbn [length]. lia.
Qed.

Lemma do_drop_ok root h f g r d1 b d2 fr ex :
  inv root (mk_net h f g r (d1 ++ b :: d2) fr ex) ->
  exists st', do_drop b (mk_net h f g r (d1 ++ d2) fr ex) = Ok st' /\ inv root st'
    /\ (weight st' < weight (mk_net h f g r (d1 ++ b :: d2) fr ex))%nat.
Proof.
  intros Hi. pose proof Hi as [Hh _ _ _]. net_simpl.
  set (L := map f_buf f ++ map g_src g ++ map r_buf r ++ (d1 ++ d2)).
  assert (Hh1 : heap_ok h (b :: L) fr (map g_dst g)) by (subst L; perm_uses Hh).
  destruct (in_use _ _ _ _ _ Hh1) as (o & refs & Hb & _).
  unfold do_drop, fetch_add, load_refs. net_simpl. rewrite Hb. mcbn.
  destruct (Z.eqb_spec (-1 + refs) 0) as [E|E].
  - destruct (heap_drop_last _ _ _ _ _ _ _ Hh1 Hb ltac:(lia)) as [Hh2 _].
    unfold deallocate. rewrite lookup_insert_eq. mcbn. rewrite delete_insert_eq.
    eexists. split; [done|]. split; [eapply count_step; [exact Hi|apply owners_kept_delete|exact Hh2|done]|].
    unfold weight. net_simpl. rewrite !length_app. cbn [length]. lia.
  - pose proof (heap_drop _ _ _ _ _ _ _ Hh1 Hb ltac:(lia)) as Hh2.
    eexists. split; [done|]. split; [eapply count_step; [exact Hi|by eapply owners_kept_insert|exact Hh2|done]|].
    unfold weight. net_simpl. rewrite !length_app. cbn [length]. lia.
Qed.

Lemma do_free_ok root h f g r d fr1 b fr2 ex :
  inv root (mk_net h f g r d (fr1 ++ b :: fr2) ex) ->
  exists st', do_free b (mk_net h f g r d (fr1 ++ fr2) ex) = Ok st' /\ inv root st'
    /\ (weight st' < weight (mk_net h f g r d (fr1 ++ b :: fr2) ex))%nat.
Proof.
  intros Hi. pose proof Hi as [Hh _ _ _]. net_simpl.
  assert (Hh1 : heap_ok h (uses (mk_net h f g r d (fr1 ++ b :: fr2) ex)) (b :: fr1 ++ fr2) (map g_dst g)) by perm_uses Hh.
  apply heap_free in Hh1 as [[e Hb] Hh2]. unfold do_free, deallocate. net_simpl. rewrite Hb. mcbn.
  eexists. split; [done|]. split; [eapply count_step; [exact Hi|apply owners_kept_delete|exact Hh2|done]|].
  unfold weight. net_simpl. rewrite !length_app. cbn [length]. lia.
Qed.

Lemma rdzv_step_inv root st r : inv root st -> step st r ->
  exists st', r = Ok st' /\ inv root st' /\ (weight st' < weight st)%nat.
Proof.
  intros Hi Hs. destruct Hs.
  - by apply receive_ok.
  - by apply get_done_ok.
  - by apply rdzv_run_rpc_ok.
  - by apply do_drop_ok.
  - by apply do_free_ok.
Qed.

Lemma rdzv_start_ok root b : 0 <= root < rank_n ->
  exists st, start root b = Ok st /\ inv root st /\ (weight st <= 8 * Z.to_nat (rank_n - 1))%nat.
Proof.
  intros Hr. assert (Hint : interval_ok rank_n (root, root + rank_n)) by (unfold interval_ok; simpl; lia).
  destruct (all_targets_ok rdzv_mid rank_n _ Hint) as (ts & Et & Hts & Hp). cbn [fst snd] in *.
  unfold start, bcast_am_master_rdzv, send_targets, load_refs. rewrite Et.
  unfold all_targets in Et. apply deref_ok in Et. rewrite (count_messages_targets _ _ _ _ Et).
  rewrite lookup_singleton_eq. mcbn. rewrite Z.add_0_l, insert_singleton_eq.
  destruct ts as [|t ts].
  - cbn [length Z.of_nat]. destruct (Z.eqb_spec 0 0); [|done]. unfold deallocate.
    rewrite lookup_singleton_eq. mcbn. rewrite delete_singleton_eq. eexists. split; [done|]. split.
    + split; [|by constructor|by constructor|done]. intros c. simpl. by rewrite lookup_empty.
    + unfold weight. simpl. lia.
  - mcbn. eexists. split; [done|]. set (l := t :: ts) in *.
    assert (Hb : map f_buf (map (fun t => mk_fwd t.1 t.2 root b) l) = replicate (length l) b).
    { clear. induction l as [|t' l IH]; [done|]. simpl. by rewrite IH. }
    assert (Hconcat : concat (map (fun f => covers (f_dst f, f_ub f)) (map (fun t => mk_fwd t.1 t.2 root b) l))
                      ≡ₚ ranks rank_n (root + 1) (root + rank_n)) by (rewrite <- Hp, map_map; done).
    split; [split; cbn [heap fwds gets]|].
    + unfold uses. cbn [fwds gets rpcs drops map frees]. rewrite Hb, !app_nil_r. intros c.
      destruct (decide (c = b)) as [->|Hc].
      * rewrite lookup_singleton_eq, cnt_replicate_here. split_and!; [done..|].
        destruct (Z.eqb_spec (Z.of_nat (length l)) 0) as [E|]; [done|done].
      * rewrite lookup_singleton_ne by done. by rewrite cnt_replicate_other.
    + apply Forall_map. eapply Forall_impl; [exact Hts|]. intros t' Ht'. split; [by destruct t'|].
      exists root. split; [|apply local_refl]. eexists. apply lookup_singleton_eq.
    + constructor.
    + unfold pending. cbn [executed rpcs gets fwds map concat app]. by rewrite app_nil_r.
    + unfold weight. cbn [fwds gets rpcs drops frees]. rewrite weight_fwds, Hconcat.
      unfold ranks. rewrite length_fmap, length_seqZ. simpl. lia.
Qed.

Lemma rdzv_reachable_inv root b k st : 0 <= root < rank_n -> reachable root b k st ->
  inv root st /\ (weight st + k <= 8 * Z.to_nat (rank_n - 1))%nat.
Proof.
  intros Hr. induction 1 as [st Hst|k st st' _ [IH IHw] Hs].
  - destruct (rdzv_start_ok root b Hr) as (st0 & E & Hi & Hw). rewrite E in Hst. injection Hst as ->.
    split; [done|lia].
  - destruct (rdzv_step_inv _ _ _ IH Hs) as (st2 & [= <-] & Hi & Hw). split; [done|lia].
Qed.

(** C13: the rendezvous broadcast is memory safe and terminates: in whatever
    order forwardings, fetches, rpcs, reference drops and deallocations take
    effect, no step touches a freed or uninitialised payload, [localize_memory]
    is only asked about local owners, and there are at most [8*(rank_n-1)] steps. *)
Theorem rdzv_safe root b k st r : 0 <= root < rank_n -> reachable root b k st -> step st r ->
  (exists st', r = Ok st') /\ (k < 8 * Z.to_nat (rank_n - 1))%nat.
Proof using local_refl local_trans.
  intros Hr Hk Hs. destruct (rdzv_reachable_inv _ _ _ _ Hr Hk) as [Hi Hw].
  destruct (rdzv_step_inv _ _ _ Hi Hs) as (st' & -> & _ & Hlt). split; [by eexists|lia].
Qed.

Definition quiescent (st : net) : Prop :=
  fwds st = [] /\ gets st = [] /\ rpcs st = [] /\ drops st = [] /\ frees st = [].

(** C12: when nothing is left to do the rpc has run exactly once on every rank of
    the team but the root, and every payload buffer has been deallocated. *)
Theorem rdzv_exactly_once root b k st : 0 <= root < rank_n -> reachable root b k st -> quiescent st ->
  root :: executed st ≡ₚ seqZ 0 rank_n /\ heap st = ∅.
Proof using local_refl local_trans.
  intros Hr Hk (Hf & Hg & Hrp & Hd & Hfr). destruct (rdzv_reachable_inv _ _ _ _ Hr Hk) as [[Hh _ _ Hc] _].
  unfold pending, uses in *. rewrite Hf, Hg, Hrp, ?Hd, ?Hfr in *. cbn [map concat app] in *. split.
  - rewrite app_nil_r in Hc. rewrite Hc. by apply ranks_all.
  - apply map_eq. intros c. rewrite lookup_empty. specialize (Hh c).
    destruct (heap st !! c) as [[o [r|]]|]; [|simpl in Hh; lia|done].
    simpl in Hh. destruct Hh as (-> & _ & Hz). done.
Qed.

End rdzv.

(** Two ranks per node; rank 0 of three broadcasts. *)
Definition demo_local (a b : Z) : bool := a / 2 =? b / 2.

Lemma demo_refl a : demo_local a a = true.
Proof. apply Z.eqb_refl. Qed.

Lemma demo_trans a b c : demo_local a b = true -> demo_local b c = true -> demo_local a c = true.
Proof. unfold demo_local. lia. Qed.

Lemma rdzv_safe_witness :
  (exists st', receive 3 demo_local (mk_fwd 1 3 0 100) 200
     (mk_net {[100 := (0, Some 1)]} [] [] [] [] [] []) = Ok st') /\ (0 < 8 * Z.to_nat (3 - 1))%nat.
Proof.
  apply (rdzv_safe 3 demo_local demo_refl demo_trans 0 100 0
    (mk_net {[100 := (0, Some 1)]} [mk_fwd 1 3 0 100] [] [] [] [] [])); [lia|by apply reach_start|].
  by apply (step_receive 3 demo_local {[100 := (0, Some 1)]} [] (mk_fwd 1 3 0 100) [] [] [] [] [] [] 200).
Defined.

Lemma rdzv_exactly_once_witness : 0 :: [1] ≡ₚ seqZ 0 2 /\ heap (mk_net ∅ [] [] [] [] [] [1]) = ∅.
Proof.
  apply (rdzv_exactly_once 2 demo_local demo_refl demo_trans 0 100 3 (mk_net ∅ [] [] [] [] [] [1]));
    [lia| |by split_and!].
  eapply (reach_step 2 demo_local 0 100 2 (mk_net {[100 := (0, Some 0)]} [] [] [] [] [100] [1]));
    [|exact (step_free 2 demo_local _ [] [] [] [] [] 100 [] [1])].
  eapply (reach_step 2 demo_local 0 100 1 (mk_net {[100 := (0, Some 1)]} [] [] [mk_rpc 1 100 true] [] [] []));
    [|exact (step_rpc 2 demo_local _ [] [] [] (mk_rpc 1 100 true) [] [] [] [])].
  eapply (reach_step 2 demo_local 0 100 0 (mk_net {[100 := (0, Some 1)]} [mk_fwd 1 2 0 100] [] [] [] [] []));
    [by apply reach_start|].
  assert (receive 2 demo_local (mk_fwd 1 2 0 100) 200 (mk_net {[100 := (0, Some 1)]} [] [] [] [] [] [])
          = Ok (mk_net {[100 := (0, Some 1)]} [] [] [mk_rpc 1 100 true] [] [] [])) as <- by (vm_compute; done).
  by apply (step_receive 2 demo_local {[100 := (0, Some 1)]} [] (mk_fwd 1 2 0 100) [] [] [] [] [] [] 200).
Defined.

End Rdzv.
