(* ===== verification/Reduce.v ===== *)
(** Model of the reduction of non-trivial types in [src/reduce.hpp]
    ([reduce_state::contribute]): the binomial tree over the ranks of a team
    and the protocol that carries the contributions up it.

    [BinomialTree] holds the arithmetic of the tree, [Reduction] the registry
    of each rank, the messages between ranks and the completions. *)
From S2P Require Import Prelude.

(** * The tree *)

Module BinomialTree.

(** [parent(r) = r & (r-1)]: flip the least significant one-bit. *)
Definition parent (r : Z) : Z := Z.land r (r - 1).

(** The index with the root at zero, and back. *)
Definition to_tree (rank_n root rank : Z) : Z :=
  let r := rank - root in r + (if r <? 0 then rank_n else 0).

Definition of_tree (rank_n root r : Z) : Z :=
  let p := r + root in p - (if rank_n <=? p then rank_n else 0).

(** [while(true)]: count the children. Shifting an [intrank_t] by 31 or more is
    undefined, so the loop has at most 31 defined iterations. *)
Fixpoint incoming_loop (fuel : nat) (rank_n rank_me incoming : Z) : res Z :=
  match fuel with
  | O => Undef
  | S fuel =>
      let child := Z.lor rank_me (Z.shiftl 1 incoming) in
      if (child =? rank_me) || (rank_n <=? child) then Ok incoming
      else incoming_loop fuel rank_n rank_me (incoming + 1)
  end.

(** One more for this rank. *)
Definition incoming (rank_n rank_me : Z) : res Z :=
  k ← incoming_loop 31 rank_n rank_me 0; Ok (k + 1).

Definition children (rank_n r : Z) : list Z := filter (fun c => parent c = r) (seqZ 1 (rank_n - 1)).

(** ** Arithmetic *)

Lemma to_of_tree rank_n root r : 0 <= root < rank_n -> 0 <= r < rank_n ->
  to_tree rank_n root (of_tree rank_n root r) = r /\ 0 <= of_tree rank_n root r < rank_n.
Proof.
  intros. unfold to_tree, of_tree. destruct (Z.leb_spec rank_n (r + root));
    match goal with |- context [?a <? 0] => destruct (Z.ltb_spec a 0) end; lia.
Qed.

(** A positive integer is an odd multiple of a power of two. *)
Lemma odd_part c : 0 < c -> exists m i, 0 <= i /\ 0 <= m /\ c = m * 2 ^ (i + 1) + 2 ^ i.
Proof.
  induction c as [c IH] using (well_founded_induction (Z.lt_wf 0)). intros Hc. destruct (Z.Even_or_Odd c) as [[k ->]|[k ->]].
  - destruct (IH k ltac:(lia) ltac:(lia)) as (m & i & Hi & Hm & ->). exists m, (i + 1).
    split_and!; [lia..|]. rewrite !(Z.pow_add_r 2) by lia. lia.
  - exists k, 0. simpl. lia.
Qed.

Lemma parent_odd_part m i : 0 <= i -> 0 <= m -> parent (m * 2 ^ (i + 1) + 2 ^ i) = m * 2 ^ (i + 1).
Proof.
  intros Hi Hm. unfold parent. apply Z.bits_inj'. intros k Hk. rewrite Z.land_spec.
  assert (0 < 2 ^ i) by (apply Z.pow_pos_nonneg; lia).
  assert (Hp : 2 ^ (i + 1) = 2 * 2 ^ i) by (rewrite Z.pow_add_r by lia; lia).
  assert (Hhigh : forall x, 0 <= x < 2 ^ (i + 1) -> i + 1 <= k ->
            Z.testbit (m * 2 ^ (i + 1) + x) k = Z.testbit (m * 2 ^ (i + 1)) k).
  { intros x Hx Hki. rewrite <- (Z.sub_add (i + 1) k), <- !Z.div_pow2_bits by lia.
    rewrite Z.div_add_l, Z.div_small, Z.div_mul by lia. by rewrite Z.add_0_r. }
  assert (Hlow : forall x, 0 <= x < 2 ^ (i + 1) -> k < i + 1 ->
            Z.testbit (m * 2 ^ (i + 1) + x) k = Z.testbit x k).
  { intros x Hx Hki. rewrite <- (Z.mod_pow2_bits_low _ (i + 1)) by lia.
    by rewrite Z.add_comm, Z_mod_plus_full, Z.mod_small. }
  replace (m * 2 ^ (i + 1) + 2 ^ i - 1) with (m * 2 ^ (i + 1) + (2 ^ i - 1)) by lia.
  destruct (decide (i + 1 <= k)) as [Hge|Hlt].
  - rewrite !Hhigh by lia. apply Bool.andb_diag.
  - rewrite !Hlow by lia. rewrite Z.mul_pow2_bits_low by lia.
    destruct (decide (k = i)) as [->|].
    + rewrite (testbit_above i (2 ^ i - 1)) by lia. apply Bool.andb_false_r.
    + rewrite (Z.pow2_bits_false i k) by lia. done.
Qed.

Lemma parent_range r : 0 < r -> 0 <= parent r < r.
Proof.
  intros Hr. destruct (odd_part r Hr) as (m & i & Hi & Hm & ->). rewrite parent_odd_part by done.
  assert (0 < 2 ^ i) by (apply Z.pow_pos_nonneg; lia).
  assert (0 < 2 ^ (i + 1)) by (apply Z.pow_pos_nonneg; lia). nia.
Qed.

(** [clear_below r i]: the bits of [r] up to [i] are zero. *)
Definition clear_below (r i : Z) : Prop := exists m, r = m * 2 ^ (i + 1).

Lemma clear_below_lt r i j : 0 <= j <= i -> clear_below r i -> clear_below r j.
Proof.
  intros Hj [m ->]. exists (m * 2 ^ (i - j)). rewrite <- Z.mul_assoc, <- Z.pow_add_r by lia.
  do 2 f_equal. lia.
Qed.

Lemma clear_below_lor r i : 0 <= i -> clear_below r i -> Z.lor r (2 ^ i) = r + 2 ^ i.
Proof.
  intros Hi [m ->]. assert (0 < 2 ^ i) by (apply Z.pow_pos_nonneg; lia).
  assert (Hd : Z.land (m * 2 ^ (i + 1)) (2 ^ i) = 0).
  { apply Z.bits_inj'. intros k Hk. rewrite Z.land_spec, Z.bits_0.
    destruct (decide (k = i)) as [->|]; [by rewrite Z.mul_pow2_bits_low by lia|].
    rewrite (Z.pow2_bits_false i k) by lia. apply Bool.andb_false_r. }
  by rewrite (Z.add_nocarry_lxor _ _ Hd), (Z.lxor_lor _ _ Hd).
Qed.

(** The bit at [i] decides whether the loop goes on. *)
Lemma clear_step r i : 0 <= i -> clear_below r (i - 1) -> Z.lor r (2 ^ i) <> r -> clear_below r i.
Proof.
  intros Hi [m E] Hne. replace (i - 1 + 1) with i in E by lia.
  destruct (Z.Even_or_Odd m) as [[k ->]|[k ->]].
  - exists k. rewrite E, Z.pow_add_r by lia. lia.
  - exfalso. apply Hne. apply Z.bits_inj'. intros j Hj. rewrite Z.lor_spec.
    destruct (decide (j = i)) as [->|]; [|by rewrite (Z.pow2_bits_false i j), Bool.orb_false_r by lia].
    rewrite Z.pow2_bits_true by lia. rewrite Bool.orb_true_r. symmetry.
    rewrite E, Z.mul_pow2_bits by lia. rewrite Z.sub_diag, Z.bit0_odd. by rewrite Z.odd_add, Z.odd_mul.
Qed.

(** ** What the loop counts *)

Lemma incoming_loop_spec fuel n r i : 0 <= r < n -> n <= 2 ^ 30 -> 0 <= i <= 31 ->
  (31 - i <= Z.of_nat fuel) -> (i <= 30) ->
  (forall j, 0 <= j < i -> clear_below r j /\ r + 2 ^ j < n) ->
  exists k, incoming_loop fuel n r i = Ok k /\ i <= k /\ (forall j, 0 <= j < k -> clear_below r j /\ r + 2 ^ j < n)
    /\ ~ (clear_below r k /\ r + 2 ^ k < n).
Proof.
  revert i. induction fuel as [|fuel IH]; intros i Hr Hn Hi Hf Hi30 Hinv; [lia|]. cbn [incoming_loop].
  rewrite Z.shiftl_1_l.
  assert (Hprev : clear_below r (i - 1)).
  { destruct (decide (i = 0)) as [->|]; [exists r; simpl; lia|]. apply Hinv. lia. }
  destruct (Z.eqb_spec (Z.lor r (2 ^ i)) r) as [E|Hne].
  - exists i. split_and!; [done|lia|done|]. intros [Hc _]. rewrite clear_below_lor in E by (done || lia).
    assert (0 < 2 ^ i) by (apply Z.pow_pos_nonneg; lia). lia.
  - assert (Hc := clear_step r i ltac:(lia) Hprev Hne). rewrite clear_below_lor by (done || lia).
    simpl orb. destruct (Z.leb_spec n (r + 2 ^ i)) as [Hle|Hlt].
    + exists i. split_and!; [done|lia|done|]. intros [_ ?]. lia.
    + assert (i <> 30) by (intros ->; lia).
      destruct (IH (i + 1)) as (k & E & Hk & Hall & Hstop); [lia..| |].
      * intros j Hj. destruct (decide (j = i)) as [->|]; [done|]. apply Hinv. lia.
      * exists k. split_and!; [done|lia|done|done].
Qed.

Lemma clear_below_inj r i j : 0 <= i -> 0 <= j -> r + 2 ^ i = r + 2 ^ j -> i = j.
Proof. intros. apply (Z.pow_inj_r 2); lia. Qed.

Lemma children_list n r k : 0 <= r < n -> 0 <= k -> (forall j, 0 <= j < k -> clear_below r j /\ r + 2 ^ j < n) ->
  ~ (clear_below r k /\ r + 2 ^ k < n) -> children n r ≡ₚ (fun i => r + 2 ^ i) <$> seqZ 0 k.
Proof.
  intros Hr Hk Hall Hstop. apply NoDup_Permutation.
  - apply NoDup_filter, NoDup_seqZ.
  - apply (NoDup_fmap_2_strong _ (seqZ 0 k)); [|apply NoDup_seqZ].
    intros i j Hi%elem_of_seqZ Hj%elem_of_seqZ. apply clear_below_inj; lia.
  - intros c. unfold children. rewrite list_elem_of_filter, elem_of_seqZ, list_elem_of_fmap. split.
    + intros [Hp Hc]. destruct (odd_part c ltac:(lia)) as (m & i & Hi & Hm & E).
      rewrite E, parent_odd_part in Hp by done. exists i. split; [lia|]. rewrite elem_of_seqZ.
      destruct (decide (i < k)); [lia|]. exfalso. apply Hstop. split.
      * apply (clear_below_lt r i); [lia|]. by exists m.
      * assert (2 ^ k <= 2 ^ i) by (apply Z.pow_le_mono_r; lia). lia.
    + intros (i & -> & Hi%elem_of_seqZ). destruct (Hall i ltac:(lia)) as [[m Hm] Hlt].
      assert (0 < 2 ^ i) by (apply Z.pow_pos_nonneg; lia).
      assert (0 < 2 ^ (i + 1)) by (apply Z.pow_pos_nonneg; lia).
      split; [|lia]. rewrite Hm. apply parent_odd_part; [lia|nia].
Qed.

(** The loop of [contribute] counts the contributions a rank will receive:
    its own and one for each rank whose parent it is. *)
Theorem incoming_children rank_n r : 0 <= r < rank_n -> rank_n <= 2 ^ 30 ->
  incoming rank_n r = Ok (1 + Z.of_nat (length (children rank_n r))).
Proof.
  intros Hr Hn. unfold incoming.
  destruct (incoming_loop_spec 31 rank_n r 0) as (k & -> & Hk & Hall & Hstop); [done|lia..| |].
  - intros j Hj. lia.
  - mcbn. rewrite (children_list rank_n r k) by done. rewrite length_fmap, length_seqZ. f_equal. lia.
Qed.

(** ** The ranks below a rank *)

Definition span (n r : Z) : list Z :=
  if r =? 0 then seqZ 0 n else seqZ r (Z.min n (r + (r - parent r)) - r).

Lemma span_pieces n r (k : nat) : 0 <= r < n -> (forall j, 0 <= j < Z.of_nat k -> r + 2 ^ j < n) ->
  seqZ r (Z.min n (r + 2 ^ Z.of_nat k) - r)
  ≡ₚ r :: concat (map (fun i => seqZ (r + 2 ^ i) (Z.min n (r + 2 ^ (i + 1)) - (r + 2 ^ i))) (seqZ 0 (Z.of_nat k))).
Proof.
  induction k as [|k IH]; intros Hr Hlt.
  - replace (Z.min n (r + 2 ^ Z.of_nat 0) - r) with 1 by (simpl; lia). done.
  - assert (Hk := Hlt (Z.of_nat k) ltac:(lia)). assert (0 < 2 ^ Z.of_nat k) by (apply Z.pow_pos_nonneg; lia).
    assert (Hp : 2 ^ (Z.of_nat k + 1) = 2 * 2 ^ Z.of_nat k) by (rewrite Z.pow_add_r by lia; lia).
    rewrite Nat2Z.inj_succ, <- Z.add_1_r.
    rewrite (seqZ_app 0 (Z.of_nat k) 1), map_app, concat_app by lia. rewrite app_comm_cons, <- IH; [|done|].
    + rewrite Z.add_0_l. change (seqZ (Z.of_nat k) 1) with [Z.of_nat k].
      change (concat (map ?f [?x])) with (f x ++ []). rewrite app_nil_r. rewrite Hp.
      replace (Z.min n (r + 2 * 2 ^ Z.of_nat k) - r)
        with ((Z.min n (r + 2 ^ Z.of_nat k) - r)
              + (Z.min n (r + 2 * 2 ^ Z.of_nat k) - (r + 2 ^ Z.of_nat k))) by lia.
      rewrite seqZ_app by lia. replace (r + (Z.min n (r + 2 ^ Z.of_nat k) - r)) with (r + 2 ^ Z.of_nat k) by lia. done.
    + intros j Hj. apply Hlt. lia.
Qed.

(** Every rank is below exactly one child of its parent. *)
Lemma span_children n r : 0 <= r < n -> n <= 2 ^ 30 ->
  span n r ≡ₚ r :: concat (map (span n) (children n r)).
Proof.
  intros Hr Hn. destruct (incoming_loop_spec 31 n r 0) as (k & _ & Hk & Hall & Hstop); [done|lia..|intros; lia|].
  rewrite (children_list n r k) by done.
  assert (Hsp : map (span n) ((fun i => r + 2 ^ i) <$> seqZ 0 k)
     = map (fun i => seqZ (r + 2 ^ i) (Z.min n (r + 2 ^ (i + 1)) - (r + 2 ^ i))) (seqZ 0 k)).
  { change (?f <$> ?l) with (map f l). rewrite map_map. apply map_ext_in. intros i Hi%list_elem_of_In%elem_of_seqZ.
    destruct (Hall i ltac:(lia)) as [[m Hm] Hlt].
    assert (0 < 2 ^ i) by (apply Z.pow_pos_nonneg; lia).
    assert (Hp : 2 ^ (i + 1) = 2 * 2 ^ i) by (rewrite Z.pow_add_r by lia; lia).
    unfold span. destruct (Z.eqb_spec (r + 2 ^ i) 0); [lia|].
    assert (parent (r + 2 ^ i) = r) as -> by (rewrite Hm; apply parent_odd_part; nia).
    f_equal. lia. }
  rewrite Hsp, <- (Z2Nat.id k) by done. rewrite <- span_pieces; [|done|intros j Hj; apply Hall; lia].
  rewrite Z2Nat.id by done. unfold span. destruct (Z.eqb_spec r 0) as [->|Hne].
  - destruct (decide (0 + 2 ^ k < n)); [|by replace (Z.min n (0 + 2 ^ k) - 0) with n by lia].
    exfalso. apply Hstop. split; [by exists 0|done].
  - destruct (odd_part r ltac:(lia)) as (m & i & Hi & Hm & E).
    assert (Hlow : r - parent r = 2 ^ i) by (rewrite E, parent_odd_part by done; lia). rewrite Hlow.
    assert (0 < 2 ^ i) by (apply Z.pow_pos_nonneg; lia).
    assert (Hki : k <= i).
    { destruct (decide (k <= i)); [done|]. destruct (Hall i ltac:(lia)) as [[m' Hm'] _].
      assert (Hp : 2 ^ (i + 1) = 2 * 2 ^ i) by (rewrite Z.pow_add_r by lia; lia).
      rewrite Hp in *. assert (Hz : 2 ^ i * (2 * m + 1 - 2 * m') = 0) by lia.
      apply Z.mul_eq_0 in Hz. lia. }
    destruct (decide (k = i)) as [->|]; [done|].
    assert (clear_below r k).
    { apply (clear_below_lt r (i - 1)); [lia|]. exists (2 * m + 1). rewrite E, Z.sub_add.
      rewrite Z.pow_add_r by lia. lia. }
    assert (2 ^ k <= 2 ^ i) by (apply Z.pow_le_mono_r; lia).
    assert (n <= r + 2 ^ k) by (destruct (decide (n <= r + 2 ^ k)); [done|]; exfalso; apply Hstop; split; [done|lia]).
    by replace (Z.min n (r + 2 ^ i)) with (Z.min n (r + 2 ^ k)) by lia.
Qed.

Lemma children_range n r c : c ∈ children n r -> parent c = r /\ 1 <= c < n.
Proof. unfold children. rewrite list_elem_of_filter, elem_of_seqZ. lia. Qed.

Lemma children_NoDup n r : NoDup (children n r).
Proof. apply NoDup_filter, NoDup_seqZ. Qed.

Lemma in_children n r : 1 <= r < n -> r ∈ children n (parent r).
Proof. intros. unfold children. rewrite list_elem_of_filter, elem_of_seqZ. split; [done|lia]. Qed.

Lemma incoming_children_witness : incoming 6 0 = Ok (1 + Z.of_nat (length (children 6 0))).
Proof. apply incoming_children; lia. Defined.

Example incoming_6 : map (incoming 6) [0; 1; 2; 3; 4; 5] = map Ok [4; 1; 2; 1; 2; 1].
Proof. reflexivity. Qed.

End BinomialTree.

(** * The protocol *)

Module Reduction.
Import BinomialTree.

Section reduction.
Context {T : Type} (op : T -> T -> T) (val : Z -> T).
Context (rank_n root : Z) (one_not_all : bool).

(** [reduce_state]: [cxs_st_raw] says whether the raw storage holds the local
    caller's completions. *)
Record reduce_state := mk_state { left : Z; accum : T; cxs_st_raw : bool }.

(** One collective: each rank's registry entry (by tree index), the ranks that
    have yet to call, the messages to parents (sender's tree index, destination's
    team rank, value), those of the final broadcast, and the completions so far.
    [log] records, for the specification only, whose contributions each rank
    has taken in. *)
Record sys := mk_sys {
  registry : gmap Z reduce_state;
  todo : list Z;
  flight : list (Z * Z * T);
  results : list (Z * T);
  completed : list (Z * option T);
  log : list (Z * Z)
}.

(** Find or create the state, add the value, and [--state->incoming]. *)
Definition absorb (o : option reduce_state) (rank_me : Z) (value : T) (cxs_st : bool) : res reduce_state :=
  state ← match o with
    | None => k ← incoming rank_n rank_me; Ok (mk_state k value false)
    | Some s => Ok (mk_state (left s) (op (accum s) value) (cxs_st_raw s))
    end;
  Ok (mk_state (left state - 1) (accum state) (cxs_st || cxs_st_raw state)).

(** [cxs_st_raw.value()] *)
Definition completions (s : reduce_state) : res unit := deref (if cxs_st_raw s then Some tt else None).

Definition contribute (rank_me : Z) (value : T) (cxs_st : bool) (st : sys) : res sys :=
  state ← absorb (registry st !! rank_me) rank_me value cxs_st;
  if left state =? 0 then
    if rank_me =? 0 then
      (* root: broadcast the result *)
      let results' := if one_not_all then [] else map (fun r => (r, accum state)) (seqZ 1 (rank_n - 1)) in
      _ ← completions state;
      Ok (mk_sys (delete rank_me (registry st)) (todo st) (flight st) (results st ++ results')
                 (completed st ++ [(rank_me, Some (accum state))]) (log st))
    else
      let flight' := flight st ++ [(rank_me, of_tree rank_n root (parent rank_me), accum state)] in
      if one_not_all then
        (* the accumulator has been moved out of: a bogus value *)
        _ ← completions state;
        Ok (mk_sys (delete rank_me (registry st)) (todo st) flight' (results st)
                   (completed st ++ [(rank_me, None)]) (log st))
      else Ok (mk_sys (<[rank_me := state]> (registry st)) (todo st) flight' (results st)
                      (completed st) (log st))
  else Ok (mk_sys (<[rank_me := state]> (registry st)) (todo st) (flight st) (results st)
                  (completed st) (log st)).

(** The lambda that the root broadcasts. *)
Definition receive_result (rank_me : Z) (value : T) (st : sys) : res sys :=
  state ← deref (registry st !! rank_me);
  _ ← completions state;
  Ok (mk_sys (delete rank_me (registry st)) (todo st) (flight st) (results st)
             (completed st ++ [(rank_me, Some value)]) (log st)).

Inductive step : sys -> res sys -> Prop :=
| step_call reg t1 r t2 f rs c l :      (* a rank enters the collective *)
    step (mk_sys reg (t1 ++ r :: t2) f rs c l)
         (contribute r (val r) true (mk_sys reg (t1 ++ t2) f rs c (l ++ [(r, r)])))
| step_message reg t f1 s d v f2 rs c l :
    step (mk_sys reg t (f1 ++ (s, d, v) :: f2) rs c l)
         (contribute (to_tree rank_n root d) v false
            (mk_sys reg t (f1 ++ f2) rs c (l ++ [(to_tree rank_n root d, s)])))
| step_result reg t f rs1 r v rs2 c l :
    step (mk_sys reg t f (rs1 ++ (r, v) :: rs2) c l)
         (receive_result r v (mk_sys reg t f (rs1 ++ rs2) c l)).

Definition start : sys := mk_sys ∅ (seqZ 0 rank_n) [] [] [] [].

Inductive reachable : sys -> Prop :=
| reach_start : reachable start
| reach_step st st' : reachable st -> step st (Ok st') -> reachable st'.

(** [combines v l]: [v] is an application of [op] to the values of the ranks of
    [l], each used once, in some order and grouping. *)
Inductive combines : T -> list Z -> Prop :=
| combines_one r : combines (val r) [r]
| combines_op v1 l1 v2 l2 : combines v1 l1 -> combines v2 l2 -> combines (op v1 v2) (l1 ++ l2).

(** ** Invariant *)

Definition expected (r : Z) : list Z := r :: children rank_n r.

Definition taken (l : list (Z * Z)) (r : Z) : list Z := (filter (fun p => p.1 = r) l).*2.

(** The ranks whose values a contribution carries. *)
Definition part (r s : Z) : list Z := if s =? r then [r] else span rank_n s.

Definition carries (v : T) (l : list Z) : Prop := exists l', combines v l' /\ l' ≡ₚ l.

Definition complete (l : list (Z * Z)) (r : Z) : Prop := length (taken l r) = length (expected r).

(** [busy] is the rank that is taking in a contribution, or -1. *)
Definition finished (busy : Z) (l : list (Z * Z)) (r : Z) : Prop := complete l r /\ r <> busy.

Definition reg_ok (o : option reduce_state) (D : list Z) (c : list Z) (r : Z) : Prop :=
  match o with
  | None => D = [] \/
      (length D = length (expected r) /\ (one_not_all = true \/ r = 0 \/ r ∈ c))
  | Some s => D <> [] /\ left s = Z.of_nat (length (expected r)) - Z.of_nat (length D)
      /\ cxs_st_raw s = bool_decide (r ∈ D) /\ carries (accum s) (concat (map (part r) D))
      /\ (left s = 0 -> one_not_all = false /\ r <> 0 /\ r ∉ c)
  end.

Definition sources (f : list (Z * Z * T)) : list Z := f.*1.*1.

Record inv (busy : Z) (st : sys) : Prop := {
  iv_log_nd : NoDup (log st);
  iv_log : forall d s, (d, s) ∈ log st -> 0 <= d < rank_n /\ s ∈ expected d;
  iv_todo_nd : NoDup (todo st);
  iv_todo : forall r, r ∈ todo st <-> 0 <= r < rank_n /\ (r, r) ∉ log st;
  iv_src_nd : NoDup (sources (flight st));
  iv_src : forall s, s ∈ sources (flight st) <->
    1 <= s < rank_n /\ finished busy (log st) s /\ (parent s, s) ∉ log st;
  iv_flight : forall s d v, (s, d, v) ∈ flight st ->
    d = of_tree rank_n root (parent s) /\ carries v (span rank_n s);
  iv_up : forall s, 1 <= s < rank_n -> (parent s, s) ∈ log st -> finished busy (log st) s;
  iv_reg : forall r, 0 <= r < rank_n -> r <> busy ->
    reg_ok (registry st !! r) (taken (log st) r) (completed st).*1 r;
  iv_dom : forall r, ~ (0 <= r < rank_n) -> registry st !! r = None;
  iv_one : one_not_all = true -> results st = [] /\ NoDup (completed st).*1 /\
    forall r, r ∈ (completed st).*1 <-> 0 <= r < rank_n /\ finished busy (log st) r;
  iv_all : one_not_all = false ->
    (~ finished busy (log st) 0 /\ results st = [] /\ completed st = []) \/
    (finished busy (log st) 0 /\ 0 ∈ (completed st).*1 /\
     (completed st).*1 ++ (results st).*1 ≡ₚ seqZ 0 rank_n);
  iv_value : exists v, (finished busy (log st) 0 -> carries v (seqZ 0 rank_n)) /\
    (forall r o, (r, o) ∈ completed st -> one_not_all = false \/ r = 0 -> o = Some v) /\
    (forall r v', (r, v') ∈ results st -> v' = v)
}.

Lemma taken_snoc l d s r : taken (l ++ [(d, s)]) r = taken l r ++ (if decide (d = r) then [s] else []).
Proof.
  unfold taken. rewrite filter_app, fmap_app. f_equal. rewrite filter_cons, filter_nil. simpl.
  by case_decide.
Qed.

Lemma in_taken l r s : s ∈ taken l r <-> (r, s) ∈ l.
Proof.
  unfold taken. rewrite list_elem_of_fmap. split.
  - intros ([d s'] & -> & [Hd Hl]%list_elem_of_filter). simpl in *. by subst.
  - intros H. exists (r, s). split; [done|]. by apply list_elem_of_filter.
Qed.

Lemma taken_NoDup l r : NoDup l -> NoDup (taken l r).
Proof.
  intros Hl. unfold taken. apply NoDup_fmap_2_strong; [|by apply NoDup_filter].
  intros [d1 s1] [d2 s2] [H1 _]%list_elem_of_filter [H2 _]%list_elem_of_filter. simpl in *. congruence.
Qed.

Lemma expected_NoDup r : 0 <= r -> NoDup (expected r).
Proof.
  intros Hr. apply NoDup_cons. split; [|apply children_NoDup].
  intros [Hp Hrange]%children_range. pose proof (parent_range r). lia.
Qed.

(** What a rank has taken in is part of what it expects. *)
Lemma taken_sub busy st r : inv busy st -> taken (log st) r ⊆+ expected r.
Proof.
  intros Hi. apply NoDup_submseteq; [apply taken_NoDup, Hi|]. intros s Hs%in_taken. by apply (iv_log _ _ Hi).
Qed.

Lemma complete_all busy st r s : inv busy st -> complete (log st) r -> s ∈ expected r -> (r, s) ∈ log st.
Proof.
  intros Hi Hc Hs. apply in_taken.
  by rewrite (submseteq_length_Permutation _ _ (taken_sub _ _ r Hi)) by (rewrite Hc; lia).
Qed.

(** When the root has everything, so has every rank. *)
Lemma complete_down busy st : inv busy st -> finished busy (log st) 0 ->
  forall r, 0 <= r < rank_n -> finished busy (log st) r.
Proof.
  intros Hi H0 r. induction r as [r IH] using (well_founded_induction (Z.lt_wf 0)). intros Hr.
  destruct (decide (r = 0)) as [->|]; [done|]. pose proof (parent_range r ltac:(lia)) as Hp.
  apply (iv_up _ _ Hi); [lia|]. apply (complete_all _ _ _ _ Hi).
  - apply IH; lia.
  - right. apply in_children. lia.
Qed.

(** ** One contribution *)

Lemma carries_perm v l l' : l ≡ₚ l' -> carries v l -> carries v l'.
Proof. intros Hp (l0 & Hc & H0). exists l0. split; [done|]. by rewrite H0. Qed.

Lemma carries_op v1 l1 v2 l2 : carries v1 l1 -> carries v2 l2 -> carries (op v1 v2) (l1 ++ l2).
Proof.
  intros (a & Ha & Hpa) (b & Hb & Hpb). exists (a ++ b). split; [by constructor|]. by rewrite Hpa, Hpb.
Qed.

Lemma parts_snoc r D s : concat (map (part r) (D ++ [s])) = concat (map (part r) D) ++ part r s.
Proof. rewrite map_app, concat_app. simpl. by rewrite app_nil_r. Qed.

(** The parts of all that is expected are the ranks below. *)
Lemma parts_span r D : 0 <= r < rank_n -> rank_n <= 2 ^ 30 -> D ≡ₚ expected r ->
  concat (map (part r) D) ≡ₚ span rank_n r.
Proof.
  intros Hr Hn ->. rewrite span_children by done. unfold expected. simpl. unfold part at 1.
  rewrite Z.eqb_refl. simpl. apply perm_skip.
  enough (map (part r) (children rank_n r) = map (span rank_n) (children rank_n r)) as -> by done.
  apply map_ext_in. intros c Hc%list_elem_of_In%children_range. unfold part.
  pose proof (parent_range c ltac:(lia)). destruct (Z.eqb_spec c r); [lia|done].
Qed.

Lemma absorb_ok o D c r s v : 0 <= r < rank_n -> rank_n <= 2 ^ 30 -> reg_ok o D c r ->
  NoDup D -> D ⊆ expected r -> s ∈ expected r -> s ∉ D -> carries v (part r s) ->
  exists a, absorb o r v (bool_decide (s = r))
      = Ok (mk_state (Z.of_nat (length (expected r)) - Z.of_nat (length (D ++ [s]))) a
                     (bool_decide (r ∈ D ++ [s])))
    /\ carries a (concat (map (part r) (D ++ [s]))).
Proof.
  intros Hr Hn Hreg Hnd Hsub Hs HsD Hv.
  assert (Hb : bool_decide (s = r) || bool_decide (r ∈ D) = bool_decide (r ∈ D ++ [s])).
  { rewrite <- bool_decide_or. apply bool_decide_ext. set_solver. }
  assert (Hlen : (length (D ++ [s]) <= length (expected r))%nat).
  { apply submseteq_length, NoDup_submseteq; [|set_solver].
    apply NoDup_app. split_and!; [done|set_solver|apply NoDup_singleton]. }
  rewrite length_app in *. simpl length in *. unfold absorb.
  destruct o as [st|]; simpl in Hreg.
  - destruct Hreg as (Hne & Hl & Hc & Ha & _). mcbn. cbn [left accum cxs_st_raw].
    exists (op (accum st) v). split; [|rewrite parts_snoc; by apply carries_op].
    rewrite Hc, Hb, Hl. do 2 f_equal. lia.
  - destruct Hreg as [->|[Hlen' _]]; [|lia]. rewrite incoming_children by done. mcbn.
    cbn [left accum cxs_st_raw]. exists v. split; [|rewrite parts_snoc; done].
    rewrite (bool_decide_eq_false_2 (r ∈ [])) in Hb by set_solver. rewrite Hb. do 2 f_equal. simpl. lia.
Qed.

Lemma incomplete_missing busy st r s : inv busy st -> s ∈ expected r -> (r, s) ∉ log st -> ~ complete (log st) r.
Proof. intros Hi Hs Hl Hc. by apply Hl, (complete_all busy). Qed.

(** Taking the contribution from the callers or the network. *)
Lemma begin_ok reg t f rs c l r s t' f' : inv (-1) (mk_sys reg t f rs c l) ->
  0 <= r < rank_n -> s ∈ expected r -> (r, s) ∉ l ->
  (forall x, x ∈ t' <-> x ∈ t /\ (s = r -> x <> r)) -> NoDup t' ->
  (forall x, x ∈ sources f' <-> x ∈ sources f /\ (s <> r -> x <> s)) -> NoDup (sources f') ->
  (forall m, m ∈ f' -> m ∈ f) -> (s <> r -> s ∈ sources f) ->
  inv r (mk_sys reg t' f' rs c (l ++ [(r, s)])).
Proof.
  intros Hi Hr Hs Hrs Ht' Htnd Hf' Hfnd Hfsub Hsf.
  pose proof (incomplete_missing _ _ _ _ Hi Hs Hrs) as Hinc.
  assert (Hpar : 1 <= s -> parent s < s) by (intros; apply parent_range; lia).
  assert (Hcr : s <> r -> parent s = r /\ 1 <= s < rank_n).
  { intros Hne. apply elem_of_cons in Hs as [?|?%children_range]; [done|tauto]. }
  assert (E : forall x, 0 <= x -> finished r (l ++ [(r, s)]) x <-> finished (-1) l x).
  { intros x Hx. unfold finished, complete. rewrite taken_snoc. destruct (decide (r = x)) as [->|].
    - split; [tauto|]. intros [? _]. by destruct Hinc.
    - rewrite app_nil_r. naive_solver lia. }
  assert (E2 : forall x, 1 <= x -> (parent x, x) ∈ l ++ [(r, s)] <-> (parent x, x) ∈ l \/ (s <> r /\ x = s)).
  { intros x Hx. rewrite elem_of_app, list_elem_of_singleton. split; intros [?|Hx']; try tauto.
    - injection Hx' as Hp ->. right. split; [|done]. intros ->. pose proof (parent_range r). lia.
    - destruct Hx' as [Hne ->]. right. by destruct (Hcr Hne) as [-> _]. }
  destruct Hi as [L1 L2 T1 T2 S1 S2 F U R X O A V]; cbn [registry todo flight results completed log] in *.
  split; cbn [registry todo flight results completed log]; try done.
  - apply NoDup_app. split_and!; [done|set_solver|apply NoDup_singleton].
  - intros d x [Hl|Hl%list_elem_of_singleton]%elem_of_app; [by apply L2|]. by injection Hl as -> ->.
  - intros x. rewrite Ht', T2, elem_of_app, list_elem_of_singleton. naive_solver.
  - intros x. rewrite Hf', S2. split.
    + intros ((Hx & Hfin & Hn) & Hne). split_and!; [lia..|by apply E; [lia|]|]. rewrite E2 by lia. tauto.
    + intros (Hx & Hfin & Hn). rewrite E in Hfin by lia. rewrite E2 in Hn by lia. tauto.
  - intros x d v Hx. by apply F, Hfsub.
  - intros x Hx Hl. apply E; [lia|]. rewrite E2 in Hl by lia.
    destruct Hl as [Hl|[Hne ->]]; [by apply U|].
    specialize (Hsf Hne). apply S2 in Hsf. tauto.
  - intros x Hx Hne. rewrite taken_snoc, decide_False, app_nil_r by congruence. apply R; [done|lia].
  - intros Ho. destruct (O Ho) as (H1 & H2 & H3). split_and!; [done..|]. intros x. rewrite H3.
    split; intros [Hx Hfin]; (split; [done|]); apply E; (lia || done).
  - intros Ho. rewrite !(E 0) by lia. by apply A.
  - destruct V as (v & V1 & V2). exists v. split; [|done]. rewrite E by lia. done.
Qed.

(** What the other ranks' entries need of the completions. *)
Lemma reg_ok_more o D c x r : r <> x -> reg_ok o D c r -> reg_ok o D (c ++ [x]) r.
Proof.
  intros Hne. unfold reg_ok. destruct o as [s|]; [|set_solver].
  intros (H1 & H2 & H3 & H4 & H5). split_and!; [done..|]. intros Hl. destruct (H5 Hl) as (? & ? & ?).
  split_and!; [done..|]. set_solver.
Qed.

Lemma complete_parts busy st r : inv busy st -> 0 <= r < rank_n -> rank_n <= 2 ^ 30 -> complete (log st) r ->
  concat (map (part r) (taken (log st) r)) ≡ₚ span rank_n r /\ r ∈ taken (log st) r.
Proof.
  intros Hi Hr Hn Hc.
  assert (Hp : taken (log st) r ≡ₚ expected r)
    by (apply (submseteq_length_Permutation _ _ (taken_sub _ _ r Hi)); rewrite Hc; lia).
  split; [by apply parts_span|]. rewrite Hp. by left.
Qed.

(** The four ways in which [contribute] ends. *)

Lemma end_waiting st r a : inv r st -> 0 <= r < rank_n -> ~ complete (log st) r ->
  taken (log st) r <> [] -> carries a (concat (map (part r) (taken (log st) r))) ->
  inv (-1) (mk_sys (<[r := mk_state (Z.of_nat (length (expected r)) - Z.of_nat (length (taken (log st) r)))
                            a (bool_decide (r ∈ taken (log st) r))]> (registry st))
             (todo st) (flight st) (results st) (completed st) (log st)).
Proof.
  intros Hi Hr Hinc Hne Ha.
  assert (E : forall x, 0 <= x -> finished (-1) (log st) x <-> finished r (log st) x).
  { intros x Hx. unfold finished. split; intros [Hc ?]; (split; [done|]); [intros ->; done|lia]. }
  destruct Hi as [L1 L2 T1 T2 S1 S2 F U R X O A V].
  split; cbn [registry todo flight results completed log]; try done.
  - intros x. rewrite S2. split; intros (Hx & Hf & Hp); (split_and!; [lia..| |done]); by apply E; [lia|].
  - intros x Hx Hl. apply E; [lia|]. by apply U.
  - intros x Hx _. destruct (decide (x = r)) as [->|Hne']; [|rewrite lookup_insert_ne by done; by apply R].
    rewrite lookup_insert_eq. simpl. split_and!; try done.
    intros Hl. exfalso. apply Hinc. unfold complete. cbn [length expected] in *. lia.
  - intros x Hx. rewrite lookup_insert_ne by (intros ->; done). by apply X.
  - intros Ho. destruct (O Ho) as (H1 & H2 & H3). split_and!; [done..|]. intros x. rewrite H3.
    split; intros [Hx Hf]; (split; [done|]); apply E; (lia || done).
  - intros Ho. rewrite !(E 0) by lia. by apply A.
  - destruct V as (v & V1 & V2). exists v. split; [|done]. rewrite E by lia. done.
Qed.

Lemma end_root st a : inv 0 st -> 0 < rank_n -> rank_n <= 2 ^ 30 -> complete (log st) 0 ->
  carries a (concat (map (part 0) (taken (log st) 0))) ->
  inv (-1) (mk_sys (delete 0 (registry st)) (todo st) (flight st)
             (results st ++ (if one_not_all then [] else map (fun r => (r, a)) (seqZ 1 (rank_n - 1))))
             (completed st ++ [(0, Some a)]) (log st)).
Proof.
  intros Hi Hr Hn Hcomp Ha. destruct (complete_parts _ _ 0 Hi ltac:(lia) Hn Hcomp) as [Hspan _].
  assert (E : forall x, 0 < x -> finished (-1) (log st) x <-> finished 0 (log st) x).
  { intros x Hx. unfold finished. split; intros [Hc ?]; (split; [done|]); lia. }
  assert (Hnot : ~ finished 0 (log st) 0) by (by intros [_ ?]).
  destruct Hi as [L1 L2 T1 T2 S1 S2 F U R X O A V].
  split; cbn [registry todo flight results completed log]; try done.
  - intros x. rewrite S2. split; intros (Hx & Hf & Hp); (split_and!; [lia..| |done]); by apply E; [lia|].
  - intros x Hx Hl. apply E; [lia|]. by apply U.
  - intros x Hx _. rewrite fmap_app. destruct (decide (x = 0)) as [->|Hne'].
    + rewrite lookup_delete_eq. simpl. right. split; [done|]. right. by left.
    + rewrite lookup_delete_ne by done. apply reg_ok_more; [done|]. by apply R.
  - intros x Hx. rewrite lookup_delete_ne by lia. by apply X.
  - intros Ho. rewrite Ho, app_nil_r. destruct (O Ho) as (H1 & H2 & H3). rewrite fmap_app.
    change ([(0, Some a)].*1) with [0]. split_and!; [done| |].
    + apply NoDup_app. split_and!; [done| |apply NoDup_singleton]. intros x Hx ->%list_elem_of_singleton.
      apply H3 in Hx. tauto.
    + intros x. rewrite elem_of_app, H3, list_elem_of_singleton. split.
      * intros [[Hx Hf]| ->]; [|by split; [lia|split]]. split; [done|]. destruct Hf. split; [done|lia].
      * intros [Hx Hf]. destruct (decide (x = 0)) as [->|]; [by right|]. left. split; [done|]. apply E; [lia|done].
  - intros Ho. right. destruct (A Ho) as [(_ & Hrs & Hc)|[? _]]; [|done]. rewrite Ho, Hrs, Hc. simpl.
    split_and!; [by split|by left|]. change (?f <$> ?l) with (map f l). rewrite map_map. simpl. rewrite map_id.
    by rewrite (seqZ_cons 0 rank_n), <- Z.sub_1_r by lia.
  - exists a. split_and!.
    + intros _. eapply carries_perm; [|exact Ha]. rewrite Hspan. done.
    + intros x o [Hin|[= -> ->]%list_elem_of_singleton]%elem_of_app; [|done]. intros [Ho| ->].
      * destruct (A Ho) as [(_ & _ & Hc)|[? _]]; [|done]. rewrite Hc in Hin. by apply elem_of_nil in Hin.
      * destruct one_not_all eqn:Eo.
        -- destruct (O eq_refl) as (_ & _ & H3). assert (Hin' : 0 ∈ (completed st).*1) by (apply list_elem_of_fmap; by exists (0, o)).
           apply H3 in Hin'. tauto.
        -- destruct (A eq_refl) as [(_ & _ & Hc)|[? _]]; [|done]. rewrite Hc in Hin. by apply elem_of_nil in Hin.
    + intros x v' Hin. destruct one_not_all eqn:Eo.
      * rewrite app_nil_r in Hin. destruct (O eq_refl) as (Hrs & _). rewrite Hrs in Hin. by apply elem_of_nil in Hin.
      * destruct (A eq_refl) as [(_ & Hrs & _)|[? _]]; [|done]. rewrite Hrs in Hin. simpl in Hin.
        apply list_elem_of_fmap in Hin as (y & [= -> ->] & _). done.
Qed.

(** A rank that is not the root sends its value to its parent. *)

Lemma end_send_flight st r a : inv r st -> 1 <= r < rank_n -> rank_n <= 2 ^ 30 -> complete (log st) r ->
  carries a (concat (map (part r) (taken (log st) r))) ->
  let f' := flight st ++ [(r, of_tree rank_n root (parent r), a)] in
  NoDup (sources f') /\
  (forall s, s ∈ sources f' <-> 1 <= s < rank_n /\ finished (-1) (log st) s /\ (parent s, s) ∉ log st) /\
  (forall s d v, (s, d, v) ∈ f' -> d = of_tree rank_n root (parent s) /\ carries v (span rank_n s)).
Proof.
  intros Hi Hr Hn Hcomp Ha f'. destruct (complete_parts _ _ r Hi ltac:(lia) Hn Hcomp) as [Hspan _].
  assert (Hsrc : sources f' = sources (flight st) ++ [r]) by (unfold sources, f'; by rewrite !fmap_app).
  rewrite Hsrc. split_and!.
  - apply NoDup_app. split_and!; [apply Hi| |apply NoDup_singleton].
    intros x Hx ->%list_elem_of_singleton. apply (iv_src _ _ Hi) in Hx as (_ & [_ ?] & _). done.
  - intros x. rewrite elem_of_app, (iv_src _ _ Hi), list_elem_of_singleton. split.
    + intros [(Hx & [Hc Hne] & Hp)| ->]; [split_and!; [lia..|split; [done|lia]|done]|].
      split_and!; [lia..|split; [done|lia]|]. intros Hl. apply (iv_up _ _ Hi) in Hl as [_ ?]; [done|lia].
    + intros (Hx & [Hc _] & Hp). destruct (decide (x = r)) as [->|]; [by right|]. by left.
  - intros x d v [Hin|[= -> -> ->]%list_elem_of_singleton]%elem_of_app; [by apply (iv_flight _ _ Hi)|].
    split; [done|]. by eapply carries_perm.
Qed.

Lemma finished_busy l r x : r <> 0 -> 0 <= x -> finished (-1) l x /\ x <> r <-> finished r l x.
Proof. unfold finished. intuition lia. Qed.

Lemma end_send_one st r a : inv r st -> 1 <= r < rank_n -> rank_n <= 2 ^ 30 -> complete (log st) r ->
  one_not_all = true -> carries a (concat (map (part r) (taken (log st) r))) ->
  inv (-1) (mk_sys (delete r (registry st)) (todo st)
             (flight st ++ [(r, of_tree rank_n root (parent r), a)]) (results st)
             (completed st ++ [(r, None)]) (log st)).
Proof.
  intros Hi Hr Hn Hcomp Ho Ha. destruct (end_send_flight _ _ _ Hi Hr Hn Hcomp Ha) as (HS1 & HS2 & HF).
  pose proof (fun x => finished_busy (log st) r x ltac:(lia)) as E.
  destruct Hi as [L1 L2 T1 T2 S1 S2 F U R X O A V]. destruct (O Ho) as (H1 & H2 & H3).
  split; cbn [registry todo flight results completed log]; try done; try congruence.
  - intros x Hx Hl. apply E; [lia|]. by apply U.
  - intros x Hx _. rewrite fmap_app. change ([(r, None)].*1) with [r].
    destruct (decide (x = r)) as [->|Hne'].
    + rewrite lookup_delete_eq. simpl. right. split; [done|]. by left.
    + rewrite lookup_delete_ne by done. apply reg_ok_more; [done|]. by apply R.
  - intros x Hx. rewrite lookup_delete_ne by lia. by apply X.
  - intros _. rewrite fmap_app. change ([(r, None)].*1) with [r]. split_and!; [done| |].
    + apply NoDup_app. split_and!; [done| |apply NoDup_singleton]. intros x Hx ->%list_elem_of_singleton.
      apply H3 in Hx as [_ [_ ?]]. done.
    + intros x. rewrite elem_of_app, H3, list_elem_of_singleton. split.
      * intros [[Hx [Hc _]]| ->]; (split; [lia|split; [done|lia]]).
      * intros [Hx [Hc _]]. destruct (decide (x = r)) as [->|]; [by right|]. left. by split.
  - destruct V as (v & V1 & V2 & V3). exists v. split_and!; [|clear V1|done].
    + intros [Hc _]. apply V1. split; [done|lia].
    + intros x o [Hin|[= -> ->]%list_elem_of_singleton]%elem_of_app; [by apply V2|].
      intros [?| ->]; [congruence|lia].
Qed.

Lemma end_send_all st r a : inv r st -> 1 <= r < rank_n -> rank_n <= 2 ^ 30 -> complete (log st) r ->
  one_not_all = false -> carries a (concat (map (part r) (taken (log st) r))) ->
  inv (-1) (mk_sys (<[r := mk_state (Z.of_nat (length (expected r)) - Z.of_nat (length (taken (log st) r)))
                             a (bool_decide (r ∈ taken (log st) r))]> (registry st)) (todo st)
             (flight st ++ [(r, of_tree rank_n root (parent r), a)]) (results st) (completed st) (log st)).
Proof.
  intros Hi Hr Hn Hcomp Ho Ha. destruct (end_send_flight _ _ _ Hi Hr Hn Hcomp Ha) as (HS1 & HS2 & HF).
  pose proof (fun x => finished_busy (log st) r x ltac:(lia)) as E.
  assert (H0 : ~ finished r (log st) 0).
  { intros H0. by destruct (complete_down _ _ Hi H0 r ltac:(lia)) as [_ ?]. }
  destruct (complete_parts _ _ r Hi ltac:(lia) Hn Hcomp) as [_ Hin].
  destruct Hi as [L1 L2 T1 T2 S1 S2 F U R X O A V].
  destruct (A Ho) as [(_ & Hrs & Hc)|[? _]]; [|done].
  split; cbn [registry todo flight results completed log]; try done; try congruence.
  - intros x Hx Hl. apply E; [lia|]. by apply U.
  - intros x Hx _. destruct (decide (x = r)) as [->|Hne']; [|rewrite lookup_insert_ne by done; by apply R].
    rewrite lookup_insert_eq. split_and!; try done.
    + intros Hnil. rewrite Hnil in Hin. by apply elem_of_nil in Hin.
    + intros _. split_and!; [done|lia|]. rewrite Hc. apply not_elem_of_nil.
  - intros x Hx. rewrite lookup_insert_ne by lia. by apply X.
  - intros _. left. split_and!; [|done..]. intros [Hc0 _]. apply H0. split; [done|lia].
  - destruct V as (v & V1 & V2). exists v. split; [|done].
    intros [Hc0 _]. apply V1. split; [done|lia].
Qed.

Definition weight (st : sys) : nat := length (log st) + length (completed st).

Lemma contribute_ok st r s v D : inv r st -> 0 <= r < rank_n -> rank_n <= 2 ^ 30 ->
  taken (log st) r = D ++ [s] -> reg_ok (registry st !! r) D (completed st).*1 r -> carries v (part r s) ->
  exists st', contribute r v (bool_decide (s = r)) st = Ok st' /\ inv (-1) st'
    /\ (weight st <= weight st')%nat.
Proof.
  intros Hi Hr Hn HD Hreg Hv. pose proof (taken_NoDup _ r (iv_log_nd _ _ Hi)) as Hnd.
  pose proof (taken_sub _ _ r Hi) as Hsub. rewrite HD in Hnd.
  assert (Hs : forall x, x ∈ D ++ [s] -> x ∈ expected r).
  { intros x Hx. rewrite <- HD in Hx. by eapply elem_of_submseteq. }
  apply NoDup_app in Hnd as (HndD & HsD & _).
  destruct (absorb_ok _ D _ r s v Hr Hn Hreg HndD) as (a & Ea & Ha);
    [set_solver|set_solver|intros Hin; apply (HsD s Hin); by left|done|].
  unfold contribute. rewrite Ea. mcbn. rewrite <- HD in *. cbn [left accum cxs_st_raw].
  destruct (Z.eqb_spec (Z.of_nat (length (expected r)) - Z.of_nat (length (taken (log st) r))) 0) as [E|E].
  - assert (Hcomp : complete (log st) r) by (unfold complete; lia).
    destruct (complete_parts _ _ r Hi Hr Hn Hcomp) as [_ Hin].
    unfold completions. cbn [cxs_st_raw]. rewrite bool_decide_eq_true_2 by done. mcbn.
    destruct (Z.eqb_spec r 0) as [->|Hne].
    + eexists. split; [done|]. split; [by apply end_root; [|lia|..]|].
      unfold weight. cbn [log completed]. rewrite length_app. lia.
    + destruct one_not_all eqn:Eo; (eexists; split; [done|]; split).
      * apply end_send_one; (done || lia).
      * unfold weight. cbn [log completed]. rewrite length_app. lia.
      * pose proof (end_send_all st r a Hi ltac:(lia) Hn Hcomp Eo Ha) as Hall.
        rewrite (bool_decide_eq_true_2 (r ∈ taken (log st) r)) in Hall by done. done.
      * unfold weight. done.
  - eexists. split; [done|]. split; [|unfold weight; done]. apply end_waiting; [done|done| | |done].
    + unfold complete. lia.
    + rewrite HD. by destruct D.
Qed.

(** ** Every step *)

Context (rank_bound : rank_n <= 2 ^ 30) (root_range : 0 <= root < rank_n).

Lemma sources_mid f1 s d v f2 : sources (f1 ++ (s, d, v) :: f2) = sources f1 ++ s :: sources f2.
Proof. unfold sources. by rewrite !fmap_app. Qed.

(** The root's result arrives. *)
Lemma receive_result_ok reg t f rs1 x v rs2 c l : inv (-1) (mk_sys reg t f (rs1 ++ (x, v) :: rs2) c l) ->
  exists st', receive_result x v (mk_sys reg t f (rs1 ++ rs2) c l) = Ok st' /\ inv (-1) st'
    /\ log st' = l /\ completed st' = c ++ [(x, Some v)].
Proof.
  intros Hi. pose proof (complete_down _ _ Hi) as Hdown. pose proof (complete_parts (-1) _ x Hi) as Hparts.
  pose proof Hi as [L1 L2 T1 T2 S1 S2 F U R X O A V].
  cbn [registry todo flight results completed log] in *.
  destruct one_not_all eqn:Eo; [destruct (O eq_refl) as (Hrs & _); by destruct rs1|].
  destruct (A eq_refl) as [(_ & Hrs & _)|(H0 & H0c & Hp)]; [by destruct rs1|].
  rewrite fmap_app, fmap_cons in Hp. cbn [fst] in Hp.
  pose proof (NoDup_seqZ 0 rank_n) as Hnd. rewrite <- Hp in Hnd.
  assert (Hxc : x ∉ c.*1) by (apply NoDup_app in Hnd as (_ & Hd & _); intros Hin; apply (Hd x Hin); set_solver).
  assert (Hx : x ∈ seqZ 0 rank_n) by (rewrite <- Hp; set_solver). apply elem_of_seqZ in Hx.
  assert (Hx0 : x <> 0) by (by intros ->). destruct (Hdown H0 x ltac:(lia)) as [Hcomp _].
  destruct (Hparts ltac:(lia) rank_bound Hcomp) as [_ Hin].
  pose proof (R x ltac:(lia) ltac:(lia)) as Hreg. unfold receive_result. cbn [registry].
  destruct (reg !! x) as [s|]; simpl in Hreg.
  2: { destruct Hreg as [E|[_ [?|[?|?]]]]; [|congruence|done|done]. rewrite E in Hin. by apply elem_of_nil in Hin. }
  destruct Hreg as (_ & _ & Hcx & _). mcbn. unfold completions. rewrite Hcx, bool_decide_eq_true_2 by done. mcbn.
  eexists. split; [done|]. split; [|done].
  split; cbn [registry todo flight results completed log]; try done.
  - intros y Hy _. rewrite fmap_app. change ([(x, Some v)].*1) with [x]. destruct (decide (y = x)) as [->|].
    + rewrite lookup_delete_eq. right. split; [done|]. right. right. set_solver.
    + rewrite lookup_delete_ne by done. apply reg_ok_more; [done|]. apply R; lia.
  - intros y Hy. rewrite lookup_delete_ne by lia. by apply X.
  - intros ?. congruence.
  - intros _. right. rewrite !fmap_app. change ([(x, Some v)].*1) with [x]. split_and!; [done|set_solver|].
    rewrite <- Hp, <- (assoc_L (++)). simpl. by rewrite Permutation_middle.
  - destruct V as (v0 & V1 & V2 & V3). exists v0. split_and!; [done| |].
    + intros y o [Hy|[= -> ->]%list_elem_of_singleton]%elem_of_app; [by eauto|].
      intros _. f_equal. apply (V3 x). set_solver.
    + intros y v' Hy. apply (V3 y). set_solver.
Qed.

Lemma reduce_step_inv st r : inv (-1) st -> step st r ->
  exists st', r = Ok st' /\ inv (-1) st' /\ (weight st < weight st')%nat.
Proof.
  intros Hi Hs. destruct Hs as [reg t1 x t2 f rs c l|reg t f1 s d v f2 rs c l|reg t f rs1 x v rs2 c l].
  - assert (Hx : 0 <= x < rank_n /\ (x, x) ∉ l) by (apply (iv_todo _ _ Hi x); set_solver).
    pose proof (iv_todo_nd _ _ Hi) as Hnd. cbn [todo] in Hnd. rewrite NoDup_app, NoDup_cons in Hnd.
    assert (Hb : inv x (mk_sys reg (t1 ++ t2) f rs c (l ++ [(x, x)]))).
    { apply (begin_ok _ (t1 ++ x :: t2) f); try tauto.
      - by left.
      - intros y. set_solver.
      - apply NoDup_app. set_solver.
      - apply (iv_src_nd _ _ Hi). }
    destruct (contribute_ok _ x x (val x) (taken l x) Hb) as (st' & E & Hi' & Hw); [tauto|done| | | |].
    + cbn [log]. by rewrite taken_snoc, decide_True.
    + apply (iv_reg _ _ Hi); [tauto|lia].
    + unfold part. rewrite Z.eqb_refl. exists [x]. split; [constructor|done].
    + rewrite bool_decide_eq_true_2 in E by done. exists st'. split_and!; [done..|].
      unfold weight in *. cbn [log completed] in *. rewrite length_app in Hw. simpl in Hw. lia.
  - pose proof (proj1 (iv_src _ _ Hi s)) as Hsrc. cbn [flight log] in Hsrc. rewrite sources_mid in Hsrc.
    destruct Hsrc as (Hsr & Hfin & Hns); [set_solver|].
    destruct (iv_flight _ _ Hi s d v) as [-> Hv]; [cbn [flight]; set_solver|].
    pose proof (parent_range s ltac:(lia)) as Hp.
    destruct (to_of_tree rank_n root (parent s)) as [-> _]; [done|lia|].
    pose proof (iv_src_nd _ _ Hi) as Hnd. cbn [flight] in Hnd. rewrite sources_mid, NoDup_app, NoDup_cons in Hnd.
    assert (Hb : inv (parent s) (mk_sys reg t (f1 ++ f2) rs c (l ++ [(parent s, s)]))).
    { apply (begin_ok _ t (f1 ++ (s, of_tree rank_n root (parent s), v) :: f2)); try done; try lia.
      - right. apply in_children. lia.
      - intros y. split; [intros ?; split; [done|]|tauto]. lia.
      - apply (iv_todo_nd _ _ Hi).
      - intros y. rewrite sources_mid. unfold sources. rewrite !fmap_app. set_solver by lia.
      - unfold sources. rewrite !fmap_app. apply NoDup_app. unfold sources in Hnd. set_solver.
      - intros m. set_solver.
      - intros _. rewrite sources_mid. set_solver. }
    destruct (contribute_ok _ (parent s) s v (taken l (parent s)) Hb) as (st' & E & Hi' & Hw); [lia|done| | | |].
    + cbn [log]. by rewrite taken_snoc, decide_True.
    + apply (iv_reg _ _ Hi); lia.
    + unfold part. destruct (Z.eqb_spec s (parent s)); [lia|done].
    + rewrite bool_decide_eq_false_2 in E by lia. exists st'. split_and!; [done..|].
      unfold weight in *. cbn [log completed] in *. rewrite length_app in Hw. simpl in Hw. lia.
  - destruct (receive_result_ok _ _ _ _ _ _ _ _ _ Hi) as (st' & E & Hi' & El & Ec).
    exists st'. split_and!; [done..|]. unfold weight. rewrite El, Ec, length_app. cbn [log completed length]. lia.
Qed.

Lemma start_reduce_inv : inv (-1) start.
Proof.
  split; cbn [start registry todo flight results completed log]; try (by constructor).
  - by intros d s ?%elem_of_nil.
  - apply NoDup_seqZ.
  - intros r. rewrite elem_of_seqZ. set_solver by lia.
  - intros s. split; [by intros ?%elem_of_nil|]. intros (Hs & [Hc _] & _). done.
  - by intros s d v ?%elem_of_nil.
  - by intros s _ ?%elem_of_nil.
  - intros _. split_and!; [done|constructor|]. intros r. split; [by intros ?%elem_of_nil|]. by intros [_ [? _]].
  - intros _. left. split_and!; [|done..]. by intros [? _].
  - exists (val 0). split_and!; [by intros [? _]|by intros r o ?%elem_of_nil|by intros r o ?%elem_of_nil].
Qed.

Lemma reduce_reachable_inv st : reachable st -> inv (-1) st.
Proof.
  induction 1 as [|st st' _ IH Hs]; [apply start_reduce_inv|].
  by destruct (reduce_step_inv _ _ IH Hs) as (st2 & [= <-] & Hi & _).
Qed.

(** Safety of the reduction: in any order of calls and deliveries, no rank
    finds a registry entry or completions missing, the children loop stays
    within its 31 defined shifts, and every step makes progress: one more
    contribution taken in or one more rank completed. *)
Theorem reduce_safe st r : reachable st -> step st r ->
  exists st', r = Ok st' /\ (length (log st) + length (completed st) < length (log st') + length (completed st'))%nat.
Proof using rank_bound root_range.
  intros Hi%reduce_reachable_inv Hs. destruct (reduce_step_inv _ _ Hi Hs) as (st' & E & _ & Hw).
  by exists st'.
Qed.

(** Every contribution there can be. *)
Definition all_contributions : list (Z * Z) :=
  map (fun r => (r, r)) (seqZ 0 rank_n) ++ map (fun c => (parent c, c)) (seqZ 1 (rank_n - 1)).

Lemma log_bound busy st : inv busy st -> (length (log st) <= length all_contributions)%nat.
Proof.
  intros Hi. apply submseteq_length, NoDup_submseteq; [apply Hi|]. intros [d s] Hl.
  apply (iv_log _ _ Hi) in Hl as [Hd Hs]. unfold all_contributions. apply elem_of_app.
  apply elem_of_cons in Hs as [->|[Hp Hc]%children_range].
  - left. apply list_elem_of_fmap. exists d. split; [done|]. apply elem_of_seqZ. lia.
  - right. apply list_elem_of_fmap. exists s. split; [by rewrite Hp|]. apply elem_of_seqZ. lia.
Qed.

Lemma completed_bound st : inv (-1) st -> (length (completed st) <= Z.to_nat rank_n)%nat.
Proof.
  intros Hi. rewrite <- (length_fmap fst), <- (length_seqZ 0 rank_n).
  destruct one_not_all eqn:Eo.
  - destruct (iv_one _ _ Hi Eo) as (_ & Hnd & Hin). apply submseteq_length, NoDup_submseteq; [done|].
    intros r Hr%Hin. apply elem_of_seqZ. lia.
  - destruct (iv_all _ _ Hi Eo) as [(_ & _ & ->)|(_ & _ & <-)]; [simpl; lia|]. rewrite length_app. lia.
Qed.

(** A reduction takes at most [3*rank_n - 1] steps. *)
Theorem reduce_bounded st : reachable st ->
  (length (log st) + length (completed st) <= 3 * Z.to_nat rank_n - 1)%nat.
Proof using rank_bound root_range.
  intros Hi%reduce_reachable_inv. pose proof (log_bound _ _ Hi) as Hl. pose proof (completed_bound _ Hi).
  unfold all_contributions in Hl. rewrite length_app, !length_map, !length_seqZ in Hl. lia.
Qed.

(** Nobody left to call, no message on its way. *)
Definition quiescent (st : sys) : Prop := todo st = [] /\ flight st = [] /\ results st = [].

Lemma quiescent_complete st : inv (-1) st -> quiescent st -> forall r, 0 <= r < rank_n -> complete (log st) r.
Proof.
  intros Hi (Ht & Hf & _) r. remember (rank_n - r) as m eqn:Hm. revert r Hm.
  induction m as [m IH] using (well_founded_induction (Z.lt_wf 0)). intros r -> Hr.
  unfold complete. apply Nat.le_antisymm; [apply submseteq_length, (taken_sub _ _ _ Hi)|].
  apply submseteq_length, NoDup_submseteq; [apply expected_NoDup; lia|]. intros s Hs. apply in_taken.
  apply elem_of_cons in Hs as [->|[Hp Hc]%children_range].
  - destruct (decide ((r, r) ∈ log st)) as [|Hn]; [done|]. pose proof (proj2 (iv_todo _ _ Hi r) (conj Hr Hn)) as H.
    rewrite Ht in H. by apply elem_of_nil in H.
  - pose proof (parent_range s ltac:(lia)).
    assert (Hcs : complete (log st) s) by (apply (IH (rank_n - s)); lia).
    destruct (decide ((r, s) ∈ log st)) as [|Hn]; [done|]. exfalso.
    assert (H0 : s ∈ sources (flight st)).
    { apply (iv_src _ _ Hi). split_and!; [lia..|by split; [|lia]|by rewrite Hp]. }
    rewrite Hf in H0. by apply elem_of_nil in H0.
Qed.

(** C14: when the reduction is over every rank has completed exactly once and no
    registry entry is left; the root's result combines the values of all ranks,
    each exactly once, and [reduce_all] gives every rank that result. *)
Theorem reduce_exactly_once st : reachable st -> quiescent st ->
  (completed st).*1 ≡ₚ seqZ 0 rank_n /\ registry st = ∅ /\
  exists v l, combines v l /\ l ≡ₚ seqZ 0 rank_n /\ (0, Some v) ∈ completed st /\
    (one_not_all = false -> forall r, 0 <= r < rank_n -> (r, Some v) ∈ completed st).
Proof using rank_bound root_range.
  intros Hi%reduce_reachable_inv Hq. pose proof (quiescent_complete _ Hi Hq) as Hcomp.
  assert (Hfin : forall r, 0 <= r < rank_n -> finished (-1) (log st) r) by (intros r Hr; split; [by apply Hcomp|lia]).
  destruct Hq as (_ & _ & Hrs).
  assert (Hdone : (completed st).*1 ≡ₚ seqZ 0 rank_n).
  { destruct one_not_all eqn:Eo.
    - destruct (iv_one _ _ Hi Eo) as (_ & Hnd & Hin). apply NoDup_Permutation; [done|apply NoDup_seqZ|].
      intros r. rewrite Hin, elem_of_seqZ. split; [intros [? _]; lia|intros ?; split; [lia|apply Hfin; lia]].
    - destruct (iv_all _ _ Hi Eo) as [(Hn & _)|(_ & _ & Hp)]; [by destruct Hn; apply Hfin; lia|].
      rewrite Hrs, app_nil_r in Hp. done. }
  assert (Hin : forall r, 0 <= r < rank_n -> r ∈ (completed st).*1).
  { intros r Hr. rewrite Hdone. apply elem_of_seqZ. lia. }
  split_and!; [done| |].
  - apply map_eq. intros r. rewrite lookup_empty.
    destruct (decide (0 <= r < rank_n)) as [Hr|]; [|by apply (iv_dom _ _ Hi)].
    pose proof (iv_reg _ _ Hi r Hr ltac:(lia)) as Hreg. destruct (registry st !! r) as [s|]; [|done].
    destruct Hreg as (_ & Hl & _ & _ & Hz). specialize (Hcomp r Hr). unfold complete in Hcomp.
    destruct Hz as (_ & _ & Hz); [lia|]. by destruct Hz; apply Hin.
  - destruct (iv_value _ _ Hi) as (v & V1 & V2 & _). destruct (V1 (Hfin 0 ltac:(lia))) as (l & Hc & Hp).
    exists v, l. split_and!; [done..| |].
    + pose proof (Hin 0 ltac:(lia)) as H0. apply list_elem_of_fmap in H0 as ([r o] & E & H0). simpl in E. subst r.
      rewrite (V2 0 o H0) in H0 by (by right). done.
    + intros Ho r Hr. pose proof (Hin r Hr) as H0. apply list_elem_of_fmap in H0 as ([r' o] & E & H0). simpl in E. subst r'.
      rewrite (V2 r o H0) in H0 by (by left). done.
Qed.

(** Some step is enabled until the reduction is over. *)
Theorem reduce_no_deadlock st : ~ quiescent st -> exists r, step st r.
Proof.
  destruct st as [reg [|x t] [|[[s d] v] f] [|[x' v'] rs] c l]; intros Hq.
  - by destruct Hq.
  - eexists. apply (step_result reg [] [] [] x' v' rs).
  - eexists. apply (step_message reg [] [] s d v f).
  - eexists. apply (step_message reg [] [] s d v f).
  - eexists. apply (step_call reg [] x t).
  - eexists. apply (step_call reg [] x t).
  - eexists. apply (step_call reg [] x t).
  - eexists. apply (step_call reg [] x t).
Qed.

End reduction.

(** A sum over three ranks, root 1, with [reduce_all]. *)
Definition demo_step (a : nat) (st : sys (T := Z)) : res (sys (T := Z)) :=
  match a with
  | O => match todo st with
         | r :: t => contribute Z.add 3 1 false r (r * 10) true
             (mk_sys (registry st) t (flight st) (results st) (completed st) (log st ++ [(r, r)]))
         | [] => Undef
         end
  | S O => match flight st with
         | (s, d, v) :: f => contribute Z.add 3 1 false (to_tree 3 1 d) v false
             (mk_sys (registry st) (todo st) f (results st) (completed st) (log st ++ [(to_tree 3 1 d, s)]))
         | [] => Undef
         end
  | _ => match results st with
         | (r, v) :: rs => receive_result r v
             (mk_sys (registry st) (todo st) (flight st) rs (completed st) (log st))
         | [] => Undef
         end
  end.

Fixpoint demo_run (l : list nat) (st : sys (T := Z)) : res (sys (T := Z)) :=
  match l with [] => Ok st | a :: l => st ← demo_step a st; demo_run l st end.

Lemma demo_step_ok a st st' : demo_step a st = Ok st' -> step Z.add (fun r => r * 10) 3 1 false st (Ok st').
Proof.
  intros H. destruct st as [reg t f rs c l].
  destruct a as [|[|]]; simpl in H.
  - destruct t as [|r t]; [done|]. rewrite <- H. exact (step_call _ _ _ _ _ reg [] r t f rs c l).
  - destruct f as [|[[s d] v] f]; [done|]. rewrite <- H. exact (step_message _ _ _ _ _ reg t [] s d v f rs c l).
  - destruct rs as [|[r v] rs]; [done|]. rewrite <- H. exact (step_result _ _ _ _ _ reg t f [] r v rs c l).
Qed.

Lemma demo_run_reachable l : forall st st', reachable Z.add (fun r => r * 10) 3 1 false st ->
  demo_run l st = Ok st' -> reachable Z.add (fun r => r * 10) 3 1 false st'.
Proof.
  induction l as [|a l IH]; intros st st' Hr H; simpl in H; [by injection H as ->|].
  apply bind_ok in H as (st1 & H1 & H2). apply (IH st1); [|done].
  eapply reach_step; [exact Hr|]. by apply (demo_step_ok a).
Qed.

Definition demo_final : sys (T := Z) :=
  match demo_run [0; 0; 0; 1; 1; 2; 2]%nat (start 3) with Ok st => st | _ => start 3 end.

Lemma reduce_exactly_once_witness :
  (completed demo_final).*1 ≡ₚ seqZ 0 3 /\ registry demo_final = ∅ /\
  exists v l, combines Z.add (fun r => r * 10) v l /\ l ≡ₚ seqZ 0 3 /\ (0, Some v) ∈ completed demo_final /\
    (false = false -> forall r, 0 <= r < 3 -> (r, Some v) ∈ completed demo_final).
Proof.
  apply (reduce_exactly_once Z.add (fun r => r * 10) 3 1 false); [lia|lia| |by vm_compute].
  apply (demo_run_reachable [0; 0; 0; 1; 1; 2; 2]%nat (start 3)); [constructor|by vm_compute].
Defined.

Lemma reduce_safe_witness : exists st', contribute Z.add 3 1 false 0 0 true
    (mk_sys ∅ ([] ++ [1; 2]) [] [] [] ([] ++ [(0, 0)])) = Ok st'
  /\ (length (log (start (T := Z) 3)) + length (completed (start (T := Z) 3)) < length (log st') + length (completed st'))%nat.
Proof.
  apply (reduce_safe Z.add (fun r => r * 10) 3 1 false ltac:(lia) ltac:(lia) (start 3)); [constructor|].
  exact (step_call Z.add (fun r => r * 10) 3 1 false ∅ [] 0 [1; 2] [] [] [] []).
Defined.

Lemma reduce_bounded_witness : (length (log demo_final) + length (completed demo_final) <= 3 * Z.to_nat 3 - 1)%nat.
Proof.
  apply (reduce_bounded Z.add (fun r => r * 10) 3 1 false); [lia|lia|].
  apply (demo_run_reachable [0; 0; 0; 1; 1; 2; 2]%nat (start 3)); [constructor|by vm_compute].
Defined.

Example demo_sum : completed demo_final = [(0, Some 30); (1, Some 30); (2, Some 30)].
Proof. vm_compute. done. Qed.

End Reduction.
