(* ===== verification/Serialization.v ===== *)
(** Model of [src/serialization.hpp]: sizes of serialized objects, the bounded
    writer, the reader, and the serialization of the standard combinations of
    types with their upper bounds and their skipping.

    [StorageSize] is the class [storage_size], static and dynamic parts;
    [Layout] the sequence of placements a serialization makes, the bounded
    writer and what it leaves in memory; [Traits] the type-directed
    [serialize], [ubound], [deserialize] and [skip].  The unbounded writer is in
    [SerializationWriter.v]. *)
From S2P Require Import Prelude.

(** [serialization_align_max] *)
Definition align_max : Z := 64.

(** * storage_size *)

Module StorageSize.

Definition INVALID : Z := w64 (-1).
Definition DYNAMIC : Z := w64 (-2).

(** The template parameters and the members, which are constants when the size
    is static. *)
Record storage_size := mk_ss { s_size : Z; s_align : Z; size : Z; align : Z }.

(** [storage_size_base] and its specializations. *)
Definition make (s_size s_align dyn_size dyn_align : Z) : storage_size :=
  if (s_size =? INVALID) && (s_align =? INVALID) then mk_ss s_size s_align INVALID INVALID
  else if s_size =? DYNAMIC then mk_ss s_size s_align dyn_size dyn_align
  else mk_ss s_size s_align s_size s_align.

Definition is_valid (a : storage_size) : bool := negb (s_size a =? INVALID).
Definition is_static (a : storage_size) : bool := s_size a <? DYNAMIC.

Definition invalid_storage_size : storage_size := make INVALID INVALID INVALID INVALID.
Definition empty_storage_size : storage_size := make 0 1 0 1.
Definition storage_size_of (sz al : Z) : storage_size := make sz al sz al.

Definition static_otherwise_invalid (a : storage_size) : storage_size :=
  if is_static a then a else invalid_storage_size.

Definition size_aligned (a : storage_size) (min_align : Z) : Z :=
  let al := if align a <? min_align then min_align else align a in align_up (size a) al.

Definition cat_return_size (a b : storage_size) : Z :=
  if (DYNAMIC <=? s_size a) || (DYNAMIC <=? s_size b)
  then Z.max (s_size a) (s_size b)
  else w64 (align_up (s_size a) (s_align b) + s_size b).

Definition cat (a b : storage_size) : storage_size :=
  make (cat_return_size a b) (Z.max (s_align a) (s_align b))
       (w64 (align_up (size a) (align b) + size b)) (Z.max (align a) (align b)).

(** [arrayed(n)] and [arrayed<n>()]. *)
Definition arrayed (a : storage_size) (n : Z) : storage_size :=
  make (if w64 (- s_size a) =? 1 then INVALID else DYNAMIC)
       (if w64 (- s_size a) =? 1 then INVALID else s_align a)
       (if n =? 1 then size a else w64 (n * size_aligned a 1))
       (if n =? 0 then 1 else align a).

Definition arrayed_static (a : storage_size) (n : Z) : storage_size :=
  make (if n =? 0 then 0
        else if w64 (- s_size a) =? 1 then INVALID
        else if w64 (- s_size a) =? 2 then DYNAMIC
        else if n =? 1 then s_size a else w64 (n * align_up (s_size a) (s_align a)))
       (if n =? 0 then 1 else if w64 (- s_align a) =? 1 then INVALID else s_align a)
       (if n =? 1 then size a else w64 (n * size_aligned a 1))
       (if n =? 0 then 1 else align a).

End StorageSize.

(** * Placements, the bounded writer and the reader *)

Module Layout.

(** A [place] and the bytes stored at the spot it returns. *)
Record item := mk_item { it_size : Z; it_align : Z; it_bytes : list Z }.

(** Memory holds bytes at absolute addresses. *)
Fixpoint write_at (m : gmap Z Z) (a : Z) (l : list Z) : gmap Z Z :=
  match l with [] => m | b :: l => <[a := b]> (write_at m (a + 1) l) end.

Fixpoint read_at (m : gmap Z Z) (a : Z) (n : nat) : option (list Z) :=
  match n with
  | O => Some []
  | S n => b ← m !! a; l ← read_at m (a + 1) n; Some (b :: l)
  end.

(** [serialization_writer<true>]; [buf_capacity] bounds what may be written. *)
Record writer := mk_writer { w_buf : Z; w_cap : Z; w_mem : gmap Z Z; w_size : Z; w_align : Z }.

Definition writer_init (buf cap : Z) (m : gmap Z Z) : writer := mk_writer buf cap m 0 1.

Definition is_aligned (a al : Z) : bool := Z.land a (al - 1) =? 0.

Definition place (obj_size obj_align : Z) (w : writer) : res (Z * writer) :=
  _ ← assert_that (is_aligned (w_buf w) obj_align);
  let size := align_up (w_size w) obj_align in
  let spot := w64 (w_buf w + size) in
  Ok (spot, mk_writer (w_buf w) (w_cap w) (w_mem w) (w64 (size + obj_size))
                      (if w_align w <? obj_align then obj_align else w_align w)).

(** The store at a spot is defined while it stays within the buffer. *)
Definition store_bytes (spot : Z) (l : list Z) (w : writer) : res writer :=
  if (w_buf w <=? spot) && (spot + Z.of_nat (length l) <=? w_buf w + w_cap w)
  then Ok (mk_writer (w_buf w) (w_cap w) (write_at (w_mem w) spot l) (w_size w) (w_align w))
  else Undef.

Definition write_item (it : item) (w : writer) : res writer :=
  '(spot, w) ← place (it_size it) (it_align it) w; store_bytes spot (it_bytes it) w.

Fixpoint write_items (l : list item) (w : writer) : res writer :=
  match l with [] => Ok w | it :: l => w ← write_item it w; write_items l w end.

(** [serialization_reader]: [unplace] and the bytes at the address it returns. *)
Definition unplace (obj_size obj_align head : Z) : Z * Z :=
  let ans := align_up head obj_align in (ans, w64 (ans + obj_size)).

Definition jump (delta head : Z) : Z := w64 (head + delta).

(** ** Extents, without wrap-around *)

Definition item_ok (it : item) : Prop :=
  pow2 (it_align it) /\ it_align it <= align_max /\ it_size it = Z.of_nat (length (it_bytes it)).

Definition extent (p : Z) (it : item) : Z := round_up p (it_align it) + it_size it.

Definition end_of (p : Z) (l : list item) : Z := fold_left extent l p.

Lemma end_of_app p l1 l2 : end_of p (l1 ++ l2) = end_of (end_of p l1) l2.
Proof. apply fold_left_app. Qed.

Lemma pow2_align_max : pow2 align_max.
Proof. exists 6. done. Qed.

Lemma round_up_mono p q a : 0 < a -> p <= q -> round_up p a <= round_up q a.
Proof. intros Ha H. unfold round_up. apply Z.mul_le_mono_nonneg_r; [lia|]. apply Z.div_le_mono; lia. Qed.

Lemma round_up_shift p q a : 0 < a -> (a | q) -> round_up (q + p) a = q + round_up p a.
Proof.
  intros Ha [k ->]. unfold round_up. replace (k * a + p + a - 1) with (p + a - 1 + k * a) by lia.
  rewrite Z.div_add by lia. lia.
Qed.

Lemma extent_ge p it : item_ok it -> p <= extent p it.
Proof.
  intros (Ha & _ & Hs). unfold extent. pose proof (round_up_ge p _ (pow2_pos _ Ha)). lia.
Qed.

Lemma end_of_ge p l : Forall item_ok l -> p <= end_of p l.
Proof.
  intros H. revert p. induction H as [|it l Hit _ IH]; intros p; [done|].
  specialize (IH (extent p it)). pose proof (extent_ge p it Hit). unfold end_of in *. simpl. lia.
Qed.

Lemma end_of_mono p q l : Forall item_ok l -> p <= q -> end_of p l <= end_of q l.
Proof.
  intros H. revert p q. induction H as [|it l Hit _ IH]; intros p q Hpq; [done|].
  apply IH. unfold extent. destruct Hit as (Ha & _ & _).
  pose proof (round_up_mono p q _ (pow2_pos _ Ha) Hpq). lia.
Qed.

(** Moving everything by a multiple of the alignments. *)
Lemma end_of_shift q p l : Forall item_ok l -> Forall (fun it => (it_align it | q)) l ->
  end_of (q + p) l = q + end_of p l.
Proof.
  intros H. revert p. induction H as [|it l Hit _ IH]; intros p Hd; [done|].
  apply Forall_cons in Hd as [Hd Hds]. unfold end_of in *. simpl. rewrite <- IH by done. f_equal.
  unfold extent. destruct Hit as (Ha & _ & _). rewrite round_up_shift by (by apply pow2_pos || done). lia.
Qed.

(** ** What the writer leaves in memory *)

(** [holds m base p l]: the bytes of the items of [l] are where a writer at
    position [p] of the buffer at [base] would have put them. *)
Fixpoint holds (m : gmap Z Z) (base p : Z) (l : list item) : Prop :=
  match l with
  | [] => True
  | it :: l => read_at m (base + round_up p (it_align it)) (length (it_bytes it)) = Some (it_bytes it)
               /\ holds m base (extent p it) l
  end.

Lemma holds_app m base p l1 l2 : holds m base p (l1 ++ l2) <-> holds m base p l1 /\ holds m base (end_of p l1) l2.
Proof.
  revert p. induction l1 as [|it l1 IH]; intros p; simpl; [unfold end_of; simpl; tauto|].
  rewrite IH. unfold end_of. simpl. tauto.
Qed.

Lemma write_at_lookup_out m a l b : b < a \/ a + Z.of_nat (length l) <= b -> write_at m a l !! b = m !! b.
Proof.
  revert a. induction l as [|x l IH]; intros a H; [done|]. simpl in *.
  rewrite lookup_insert_ne by lia. apply IH. lia.
Qed.

Lemma read_at_frame m m' a n : (forall b, a <= b < a + Z.of_nat n -> m' !! b = m !! b) ->
  read_at m' a n = read_at m a n.
Proof.
  revert a. induction n as [|n IH]; intros a H; [done|]. simpl. rewrite (H a) by lia.
  rewrite (IH (a + 1)); [done|]. intros b Hb. apply H. lia.
Qed.

Lemma read_write_at m a l : read_at (write_at m a l) a (length l) = Some l.
Proof.
  revert a. induction l as [|x l IH]; intros a; [done|]. simpl. rewrite lookup_insert_eq. simpl.
  rewrite (read_at_frame (write_at m (a + 1) l)); [by rewrite IH|].
  intros b Hb. apply lookup_insert_ne. lia.
Qed.

Lemma read_at_cons m a n b l : read_at m a (S n) = Some (b :: l) <-> m !! a = Some b /\ read_at m (a + 1) n = Some l.
Proof. simpl. destruct (m !! a), (read_at m (a + 1) n); simpl; naive_solver. Qed.

Lemma read_at_app m a l1 l2 : read_at m a (length (l1 ++ l2)) = Some (l1 ++ l2) <->
  read_at m a (length l1) = Some l1 /\ read_at m (a + Z.of_nat (length l1)) (length l2) = Some l2.
Proof.
  revert a. induction l1 as [|b l1 IH]; intros a; [simpl; rewrite Z.add_0_r; naive_solver|].
  cbn [app length]. rewrite !read_at_cons, IH.
  replace (a + 1 + Z.of_nat (length l1)) with (a + Z.of_nat (S (length l1))) by lia. tauto.
Qed.

Lemma extent_aligned q it : 0 < it_align it -> (it_align it | q) -> extent q it = q + it_size it.
Proof. intros Ha Hd. unfold extent. by rewrite round_up_id. Qed.

Lemma extent_round_up p sz al l : 0 < al ->
  extent (round_up p al) (mk_item sz al l) = extent p (mk_item sz al l).
Proof. intros Ha. unfold extent. cbn [it_align]. by rewrite (round_up_id (round_up _ _)) by (done || apply round_up_divide). Qed.

Lemma holds_frame m m' base p l : Forall item_ok l ->
  (forall b, base + p <= b < base + end_of p l -> m' !! b = m !! b) -> holds m base p l -> holds m' base p l.
Proof.
  intros H. revert p. induction H as [|it l Hit Hl IH]; intros p Hm; [done|].
  intros [Hr Hh]. pose proof (end_of_ge (extent p it) l Hl) as Hge. pose proof (extent_ge p it Hit) as Hext.
  change (end_of p (it :: l)) with (end_of (extent p it) l) in Hm. destruct Hit as (Ha & _ & Hsz).
  pose proof (round_up_ge p _ (pow2_pos _ Ha)) as Hru. split.
  - rewrite (read_at_frame m); [done|]. intros b Hb. apply Hm. unfold extent in Hge at 1. lia.
  - apply IH; [|done]. intros b Hb. apply Hm. lia.
Qed.

Lemma is_aligned_spec a al : pow2 al -> (al | a) -> is_aligned a al = true.
Proof.
  intros (k & Hk & ->) [q ->]. unfold is_aligned. replace (2 ^ k - 1) with (Z.ones k) by (rewrite Z.ones_equiv; lia).
  rewrite Z.land_ones by done.
  rewrite Z.mod_mul; [done|]. apply Z.pow_nonzero; lia.
Qed.

(** Sizes and addresses below half the address space: no computation wraps. *)
Definition addr_limit : Z := 2 ^ 63.

Lemma align_up_small x a : pow2 a -> a <= align_max -> 0 <= x <= addr_limit -> align_up x a = round_up x a.
Proof.
  unfold align_max, addr_limit. intros. apply align_up_round; [done|lia|].
  unfold w64_mod. change (2 ^ 64) with (2 * 2 ^ 63). lia.
Qed.

Lemma w64_limit x : 0 <= x <= addr_limit -> w64 x = x.
Proof. unfold addr_limit. intros. apply w64_small. unfold is_u64, w64_mod. lia. Qed.

Definition max_align (l : list item) (a : Z) : Z := fold_left (fun a it => Z.max a (it_align it)) l a.

Record writer_ok (w : writer) : Prop := {
  wo_buf : 0 <= w_buf w;
  wo_align : (align_max | w_buf w);
  wo_cap : w_buf w + w_cap w <= addr_limit;
  wo_size : 0 <= w_size w
}.

(** A writer whose capacity suffices stores every item where [holds] says, moves
    to the end of the last, and leaves all other memory alone. *)
Lemma write_items_ok l w : writer_ok w -> Forall item_ok l -> end_of (w_size w) l <= w_cap w ->
  exists w', write_items l w = Ok w' /\ writer_ok w' /\ w_buf w' = w_buf w
    /\ w_size w' = end_of (w_size w) l /\ w_align w' = max_align l (w_align w)
    /\ holds (w_mem w') (w_buf w) (w_size w) l
    /\ (forall b, b < w_buf w + w_size w \/ w_buf w + end_of (w_size w) l <= b -> w_mem w' !! b = w_mem w !! b).
Proof.
  intros Hw H. revert w Hw. induction H as [|it l Hit Hl IH]; intros w Hw Hend.
  - exists w. split_and!; done.
  - change (end_of (w_size w) (it :: l)) with (end_of (extent (w_size w) it) l) in *.
    pose proof (end_of_ge (extent (w_size w) it) l Hl) as Hge.
    pose proof Hit as (Ha & Hmax & Hsz). pose proof (round_up_ge (w_size w) _ (pow2_pos _ Ha)) as Hru.
    assert (Hext : extent (w_size w) it = round_up (w_size w) (it_align it) + Z.of_nat (length (it_bytes it)))
      by (unfold extent; lia).
    destruct Hw as [W1 W2 W3 W4]. cbn [write_items]. unfold write_item, place.
    rewrite is_aligned_spec by (done || (etrans; [apply (pow2_divide _ align_max); [done|apply pow2_align_max|done]|done])).
    rewrite align_up_small by (done || lia). mcbn.
    rewrite !w64_limit by lia. unfold store_bytes. cbn [w_buf w_cap w_mem w_size w_align].
    destruct (Z.leb_spec (w_buf w) (w_buf w + round_up (w_size w) (it_align it))); [|lia].
    destruct (Z.leb_spec (w_buf w + round_up (w_size w) (it_align it) + Z.of_nat (length (it_bytes it))) (w_buf w + w_cap w)); [|lia].
    cbn [andb]. mcbn. set (w1 := mk_writer _ _ _ _ _).
    assert (Hs1 : w_size w1 = extent (w_size w) it) by (unfold extent; done).
    destruct (IH w1) as (w' & -> & Hok & Hb & Hsize & Hal & Hh & Hout); [split; cbn; try done; lia|rewrite Hs1; cbn; lia|].
    exists w'. rewrite Hs1 in *. change (w_buf w1) with (w_buf w) in *. split_and!; try done.
    + rewrite Hal. unfold max_align. cbn [fold_left w1 w_align]. f_equal.
      destruct (Z.ltb_spec (w_align w) (it_align it)); lia.
    + split; [|done]. rewrite (read_at_frame (w_mem w1)); [apply read_write_at|].
      intros b Hb'. apply Hout. left. lia.
    + intros b Hb'. rewrite Hout by lia. cbn [w1 w_mem]. apply write_at_lookup_out. lia.
Qed.

End Layout.

(** * Type-directed serialization *)

Module Traits.
Import StorageSize Layout.

(** The types [serialization_traits] composes.  Trivially serializable types are
    [TTriv], whatever their structure; a tuple, a pair, the fields or the values
    of a class are chains of [TCons] ended by [TNil]; [TSeq] stands for the
    standard containers, whose stateless allocators, comparisons and hashers
    occupy nothing. *)
Inductive ty :=
| TTriv (sz al : Z)
| TEmpty
| TNil
| TCons (t ts : ty)
| TArray (n : nat) (t : ty)
| TStr (csz : Z)
| TSeq (contiguous : bool) (t : ty)
| TFwd (t : ty).

Inductive val := VBytes (l : list Z) | VUnit | VPair (v w : val) | VSeq (l : list val).

(** [std::size_t] in memory. *)
Fixpoint le_bytes (n : nat) (x : Z) : list Z :=
  match n with O => [] | S n => Z.land x 255 :: le_bytes n (Z.shiftr x 8) end.

Fixpoint le_value (l : list Z) : Z :=
  match l with [] => 0 | b :: l => b + 256 * le_value l end.

Definition size_t_item (n : Z) : item := mk_item 8 8 (le_bytes 8 n).

(** [is_actually_trivially_serializable] *)
Definition is_triv (t : ty) : bool := match t with TTriv _ _ => true | _ => false end.

Definition triv_bytes (sz : Z) (v : val) : option (list Z) :=
  match v with
  | VBytes l => if Z.of_nat (length l) =? sz then Some l else None
  | _ => None
  end.

(** [write_sequence]: one copy for contiguous trivial elements, else one
    [serialize] per element. *)
Definition write_sequence (ser : val -> option (list item)) (t : ty) (contiguous : bool) (l : list val)
    : option (list item) :=
  match t, contiguous with
  | TTriv sz al, true =>
      bs ← mapM (triv_bytes sz) l;
      let ss := arrayed (storage_size_of sz al) (Z.of_nat (length l)) in
      Some [mk_item (size ss) (align ss) (concat bs)]
  | _, _ => its ← mapM ser l; Some (concat its)
  end.

(** The placements of [serialize]; [None] when the value is not of the type. *)
Fixpoint serialize (t : ty) (v : val) : option (list item) :=
  match t, v with
  | TTriv sz al, VBytes _ => l ← triv_bytes sz v; Some [mk_item sz al l]
  | TEmpty, VUnit => Some []
  | TNil, VUnit => Some []
  | TCons t ts, VPair v w => a ← serialize t v; b ← serialize ts w; Some (a ++ b)
  | TArray n t, VSeq l =>
      if Nat.eqb (length l) n then write_sequence (serialize t) t true l else None
  | TStr csz, VSeq l =>
      if Z.of_nat (length l) <? w64_mod then
        bs ← mapM (triv_bytes csz) l;
        let ss := arrayed (storage_size_of csz csz) (Z.of_nat (length l)) in
        Some [size_t_item (Z.of_nat (length l)); mk_item (size ss) (align ss) (concat bs)]
      else None
  | TSeq c t, VSeq l =>
      if Z.of_nat (length l) <? w64_mod then
        its ← write_sequence (serialize t) t c l; Some (size_t_item (Z.of_nat (length l)) :: its)
      else None
  | TFwd t, VSeq l =>
      if Z.of_nat (length l) <? w64_mod then
        its ← write_sequence (serialize t) t false l; Some (size_t_item (Z.of_nat (length l)) :: its)
      else None
  | _, _ => None
  end.

(** A value for the bounds that the code computes on types alone. *)
Fixpoint dummy (t : ty) : val :=
  match t with
  | TTriv _ _ => VBytes []
  | TEmpty | TNil => VUnit
  | TCons t ts => VPair (dummy t) (dummy ts)
  | TArray _ _ | TStr _ | TSeq _ _ | TFwd _ => VSeq [VUnit]
  end.

Definition seq_length (v : val) : Z := match v with VSeq l => Z.of_nat (length l) | _ => 0 end.

(** [ubound(prefix, x)]. *)
Fixpoint ubound (t : ty) (pre : storage_size) (v : val) : storage_size :=
  match t with
  | TTriv sz al => cat pre (storage_size_of sz al)
  | TEmpty | TNil => pre
  | TCons t ts =>
      match v with
      | VPair v w => ubound ts (ubound t pre v) w
      | _ => invalid_storage_size
      end
  | TArray n t =>
      cat pre (arrayed_static (static_otherwise_invalid (ubound t empty_storage_size (dummy t))) (Z.of_nat n))
  | TStr csz => cat (cat pre (storage_size_of 8 8)) (arrayed (storage_size_of csz csz) (seq_length v))
  | TSeq _ t =>
      cat (cat pre (storage_size_of 8 8))
          (arrayed (static_otherwise_invalid (ubound t empty_storage_size (dummy t))) (seq_length v))
  | TFwd _ => invalid_storage_size
  end.

(** [serialization_traits<T>::static_ubound] *)
Definition static_ubound (t : ty) : storage_size :=
  static_otherwise_invalid (ubound t empty_storage_size (dummy t)).

(** ** Reading *)

Definition read_trivial (m : gmap Z Z) (sz al head : Z) : res (list Z * Z) :=
  let '(p, head) := unplace sz al head in
  l ← deref (read_at m p (Z.to_nat sz)); Ok (l, head).

Definition read_size_t (m : gmap Z Z) (head : Z) : res (Z * Z) :=
  '(l, head) ← read_trivial m 8 8 head; Ok (le_value l, head).

Fixpoint read_n (f : Z -> res (val * Z)) (n : nat) (head : Z) : res (list val * Z) :=
  match n with
  | O => Ok ([], head)
  | S n => '(v, head) ← f head; '(l, head) ← read_n f n head; Ok (v :: l, head)
  end.

Fixpoint chunks (n sz : nat) (l : list Z) : list val :=
  match n with O => [] | S n => VBytes (take sz l) :: chunks n sz (drop sz l) end.

(** [read_sequence_into] *)
Definition read_sequence (deser : Z -> res (val * Z)) (m : gmap Z Z) (t : ty) (n : nat) (head : Z)
    : res (list val * Z) :=
  match t with
  | TTriv sz al =>
      let ss := arrayed (storage_size_of sz al) (Z.of_nat n) in
      let '(p, head) := unplace (size ss) (align ss) head in
      l ← deref (read_at m p (n * Z.to_nat sz)); Ok (chunks n (Z.to_nat sz) l, head)
  | _ => read_n deser n head
  end.

Fixpoint deserialize (t : ty) (m : gmap Z Z) (head : Z) : res (val * Z) :=
  match t with
  | TTriv sz al => '(l, head) ← read_trivial m sz al head; Ok (VBytes l, head)
  | TEmpty | TNil => Ok (VUnit, head)
  | TCons t ts =>
      '(v, head) ← deserialize t m head; '(w, head) ← deserialize ts m head; Ok (VPair v w, head)
  | TArray n t => '(l, head) ← read_sequence (deserialize t m) m t n head; Ok (VSeq l, head)
  | TStr csz =>
      '(n, head) ← read_size_t m head;
      let ss := arrayed (storage_size_of csz csz) n in
      let '(p, head) := unplace (size ss) (align ss) head in
      l ← deref (read_at m p (Z.to_nat n * Z.to_nat csz));
      Ok (VSeq (chunks (Z.to_nat n) (Z.to_nat csz) l), head)
  | TSeq _ t | TFwd t =>
      '(n, head) ← read_size_t m head;
      '(l, head) ← read_n (deserialize t m) (Z.to_nat n) head; Ok (VSeq l, head)
  end.

(** ** Skipping *)

Fixpoint skip_n (f : Z -> res Z) (n : nat) (head : Z) : res Z :=
  match n with O => Ok head | S n => head ← f head; skip_n f n head end.

(** The distance between consecutive elements, from bounds alone. *)
Definition skip_delta (t : ty) : Z :=
  w64 (s_size (ubound t (static_ubound t) (dummy t)) - s_size (static_ubound t)).

Definition skip_sequence (skip : Z -> res Z) (t : ty) (n : Z) (head : Z) : res Z :=
  if n =? 0 then Ok head
  else
    head ← skip head;
    if is_valid (static_ubound t) then Ok (jump (w64 ((n - 1) * skip_delta t)) head)
    else skip_n skip (Z.to_nat (n - 1)) head.

Fixpoint skip (t : ty) (m : gmap Z Z) (head : Z) : res Z :=
  match t with
  | TTriv sz al => Ok (unplace sz al head).2
  | TEmpty | TNil => Ok head
  | TCons t ts => head ← skip t m head; skip ts m head
  | TArray n t => skip_sequence (skip t m) t (Z.of_nat n) head
  | TStr csz =>
      '(n, head) ← read_size_t m head;
      let ss := arrayed (storage_size_of csz csz) n in Ok (unplace (size ss) (align ss) head).2
  | TSeq _ t | TFwd t => '(n, head) ← read_size_t m head; skip_sequence (skip t m) t n head
  end.

(** ** Well-formed types

    What C++ guarantees of sizes and alignments, for alignments up to the
    library's maximum. *)

Definition obj_ok (sz al : Z) : Prop := 0 < sz <= addr_limit /\ pow2 al /\ al <= align_max /\ (al | sz).

Fixpoint ty_ok (t : ty) : Prop :=
  match t with
  | TTriv sz al => obj_ok sz al
  | TEmpty | TNil => True
  | TCons t ts => ty_ok t /\ ty_ok ts
  | TArray _ t | TSeq _ t | TFwd t => ty_ok t
  | TStr csz => obj_ok csz csz
  end.

Lemma le_value_bytes n x : 0 <= x < 256 ^ Z.of_nat n -> le_value (le_bytes n x) = x.
Proof.
  revert x. induction n as [|n IH]; intros x Hx; [simpl in *; lia|].
  cbn [le_bytes le_value]. rewrite Nat2Z.inj_succ, Z.pow_succ_r in Hx by lia.
  change 255 with (Z.ones 8). rewrite Z.land_ones, Z.shiftr_div_pow2 by lia. change (2 ^ 8) with 256.
  rewrite IH.
  - pose proof (Z.div_mod x 256). lia.
  - split; [apply Z.div_pos; lia|]. apply Z.div_lt_upper_bound; lia.
Qed.

Lemma length_le_bytes n x : length (le_bytes n x) = n.
Proof. revert x. induction n as [|n IH]; intros x; [done|]. simpl. by rewrite IH. Qed.

Lemma pow2_8 : pow2 8.
Proof. by exists 3. Qed.

Lemma pow2_1 : pow2 1.
Proof. by exists 0. Qed.

Lemma size_t_item_ok n : item_ok (size_t_item n).
Proof. split_and!; [exact pow2_8|done|]. cbn [it_size it_bytes size_t_item]. by rewrite length_le_bytes. Qed.

Lemma arrayed_obj sz al n : obj_ok sz al -> 0 <= n -> n * sz <= addr_limit ->
  size (arrayed (storage_size_of sz al) n) = n * sz /\
  align (arrayed (storage_size_of sz al) n) = (if n =? 0 then 1 else al).
Proof.
  intros (Hsz & Hal & Hmax & Hd) Hn Hlim. unfold arrayed, storage_size_of.
  assert (Hlim2 : sz <= addr_limit) by lia. unfold addr_limit in *.
  assert (Hmk : make sz al sz al = mk_ss sz al sz al).
  { unfold make, INVALID, DYNAMIC. change (w64 (-1)) with (2 * 2 ^ 63 - 1). change (w64 (-2)) with (2 * 2 ^ 63 - 2).
    destruct (Z.eqb_spec sz (2 * 2 ^ 63 - 1)); [lia|]. destruct (Z.eqb_spec sz (2 * 2 ^ 63 - 2)); [lia|done]. }
  rewrite Hmk. cbn [s_size s_align size align].
  assert (Hneg : (w64 (- sz) =? 1) = false).
  { apply Z.eqb_neq. unfold w64, w64_mod. rewrite Z_mod_nz_opp_full; rewrite Z.mod_small by lia; lia. }
  rewrite Hneg. unfold make. rewrite Z.eqb_refl. replace (DYNAMIC =? INVALID) with false by done.
  cbn [andb size align]. split; [|done].
  unfold size_aligned. cbn [align size]. pose proof (pow2_pos _ Hal).
  destruct (Z.ltb_spec al 1); [lia|]. rewrite align_up_small by (unfold addr_limit; lia || done).
  rewrite round_up_id by done. destruct (Z.eqb_spec n 1) as [->|]; [lia|]. apply w64_limit. unfold addr_limit. nia.
Qed.

Lemma obj_item_ok sz al l : obj_ok sz al -> Z.of_nat (length l) = sz -> item_ok (mk_item sz al l).
Proof. intros (? & ? & ? & ?) ?. by split_and!. Qed.

Lemma triv_bytes_some sz v l : triv_bytes sz v = Some l <-> v = VBytes l /\ Z.of_nat (length l) = sz.
Proof.
  destruct v as [b| | |]; simpl; try (split; [done|naive_solver]).
  destruct (Z.eqb_spec (Z.of_nat (length b)) sz); naive_solver.
Qed.

Lemma triv_list sz l bs : mapM (triv_bytes sz) l = Some bs ->
  l = map VBytes bs /\ Forall (fun b => Z.of_nat (length b) = sz) bs.
Proof.
  intros H%mapM_Some. induction H as [|v b l bs Hv _ [IH1 IH2]]; [done|].
  apply triv_bytes_some in Hv as [-> Hb]. simpl. rewrite IH1. by split; [|constructor].
Qed.

Lemma concat_length sz (bs : list (list Z)) : Forall (fun b => Z.of_nat (length b) = sz) bs ->
  Z.of_nat (length (concat bs)) = Z.of_nat (length bs) * sz.
Proof. induction 1 as [|b bs Hb _ IH]; [done|]. simpl. rewrite length_app. lia. Qed.

(** The single item of a contiguous sequence. *)
Definition bulk_item (sz al : Z) (bs : list (list Z)) : item :=
  let ss := arrayed (storage_size_of sz al) (Z.of_nat (length bs)) in mk_item (size ss) (align ss) (concat bs).

Lemma bulk_item_ok sz al bs : obj_ok sz al -> Forall (fun b => Z.of_nat (length b) = sz) bs ->
  Z.of_nat (length (concat bs)) <= addr_limit -> item_ok (bulk_item sz al bs).
Proof.
  intros Ho Hbs Hlim. rewrite (concat_length _ _ Hbs) in Hlim.
  destruct (arrayed_obj sz al _ Ho (Nat2Z.is_nonneg (length bs)) Hlim) as [Hs Ha].
  unfold item_ok, bulk_item. cbn [it_size it_align it_bytes]. rewrite Hs, Ha, (concat_length _ _ Hbs).
  destruct Ho as (? & ? & ? & ?). destruct (Z.eqb_spec (Z.of_nat (length bs)) 0); split_and!; try done. exact pow2_1.
Qed.

Lemma write_sequence_cases ser t c l its : write_sequence ser t c l = Some its ->
  (exists sz al bs, t = TTriv sz al /\ c = true /\ l = map VBytes bs
     /\ Forall (fun b => Z.of_nat (length b) = sz) bs /\ its = [bulk_item sz al bs]) \/
  (exists itss, Forall2 (fun v i => ser v = Some i) l itss /\ its = concat itss
     /\ (is_triv t = false \/ c = false)).
Proof.
  assert (Hgen : forall o, o = (its ← mapM ser l; Some (concat its)) -> o = Some its ->
    exists itss, Forall2 (fun v i => ser v = Some i) l itss /\ its = concat itss).
  { intros o -> H. apply bind_Some in H as (itss & H & [= <-]). exists itss. split; [|done]. by apply mapM_Some. }
  intros H. destruct t as [sz al| | | | | | |], c; cbn [write_sequence] in H;
    try (right; destruct (Hgen _ eq_refl H) as (itss & ? & ?); exists itss; naive_solver).
  left. apply bind_Some in H as (bs & Hbs & [= <-]). destruct (triv_list _ _ _ Hbs) as [-> Hf].
  exists sz, al, bs. split_and!; try done. unfold bulk_item. by rewrite length_map.
Qed.

(** No object is larger than half the address space. *)
Definition small (l : list item) : Prop := Forall (fun it => Z.of_nat (length (it_bytes it)) <= addr_limit) l.

Lemma concat_forall2 {A B} (P : B -> Prop) (R : A -> list B -> Prop) l ll :
  Forall2 R l ll -> (forall x y, R x y -> Forall P y) -> Forall P (concat ll).
Proof. induction 1 as [|x y l ll Hr _ IH]; intros H; simpl; [constructor|]. apply Forall_app. eauto. Qed.

Lemma forall2_small {A} (R : A -> list item -> Prop) l ll : Forall2 R l ll -> small (concat ll) ->
  Forall2 (fun x y => R x y /\ small y) l ll.
Proof.
  induction 1 as [|x y l ll Hr _ IH]; intros H; [constructor|]. apply Forall_app in H as [H1 H2].
  constructor; [by split|]. by apply IH.
Qed.

(** Induction over the structure of a serialization. *)
Lemma write_sequence_ok ser t c l its : ty_ok t ->
  (forall v i, ser v = Some i -> small i -> Forall item_ok i) ->
  write_sequence ser t c l = Some its -> small its -> Forall item_ok its.
Proof.
  intros Ht IH H Hs. apply write_sequence_cases in H as [(sz & al & bs & -> & _ & _ & Hbs & ->)|(itss & H & -> & _)].
  - constructor; [|constructor]. apply bulk_item_ok; [done..|]. by apply Forall_cons in Hs as [Hs _].
  - apply forall2_small in H; [|done]. eapply concat_forall2; [exact H|]. intros x y [H1 H2]. by apply (IH x).
Qed.

Lemma serialize_ok t : ty_ok t -> forall v its, serialize t v = Some its -> small its -> Forall item_ok its.
Proof.
  induction t as [sz al| | |t IHt ts IHts|n t IHt|csz|c t IHt|t IHt]; intros Ht v its H Hs;
    destruct v as [b| |v w|l]; try done; cbn [serialize] in H.
  - apply bind_Some in H as (x & Hx & [= <-]). apply triv_bytes_some in Hx as [[= ->] Hx].
    constructor; [|constructor]. by apply obj_item_ok.
  - injection H as <-. constructor.
  - injection H as <-. constructor.
  - apply bind_Some in H as (a & Ha & H). apply bind_Some in H as (b & Hb & [= <-]).
    apply Forall_app in Hs as [Hs1 Hs2]. destruct Ht as [Ht1 Ht2].
    apply Forall_app. split; [by apply (IHt Ht1 v)|by apply (IHts Ht2 w)].
  - destruct (Nat.eqb (length l) n); [|done]. eapply (write_sequence_ok (serialize t) t); [exact Ht|exact (IHt Ht)|first [exact H | exact Hi]|done].
  - destruct (_ <? _); [|done]. apply bind_Some in H as (bs & Hbs & [= <-]).
    apply triv_list in Hbs as [-> Hbs]. rewrite length_map in *. constructor; [apply size_t_item_ok|].
    constructor; [|constructor]. apply (bulk_item_ok csz csz bs); [done..|].
    apply Forall_cons in Hs as [_ Hs]. by apply Forall_cons in Hs as [Hs _].
  - destruct (_ <? _); [|done]. apply bind_Some in H as (i & Hi & [= <-]).
    apply Forall_cons in Hs as [_ Hs]. constructor; [apply size_t_item_ok|]. eapply (write_sequence_ok (serialize t) t); [exact Ht|exact (IHt Ht)|first [exact H | exact Hi]|done].
  - destruct (_ <? _); [|done]. apply bind_Some in H as (i & Hi & [= <-]).
    apply Forall_cons in Hs as [_ Hs]. constructor; [apply size_t_item_ok|]. eapply (write_sequence_ok (serialize t) t); [exact Ht|exact (IHt Ht)|first [exact H | exact Hi]|done].
Qed.

(** ** Reading back *)

Section read.
Context (m : gmap Z Z) (base : Z) (base_nonneg : 0 <= base) (base_aligned : (align_max | base)).

Lemma unplace_ok sz al p : pow2 al -> al <= align_max -> 0 <= p -> 0 <= sz ->
  base + round_up p al + sz <= addr_limit ->
  unplace sz al (base + p) = (base + round_up p al, base + (round_up p al + sz)).
Proof.
  intros Hal Hmax Hp Hsz Hlim. pose proof (round_up_ge p _ (pow2_pos _ Hal)).
  unfold unplace. rewrite align_up_small by (lia || done).
  rewrite round_up_shift by (by apply pow2_pos || (etrans; [apply (pow2_divide _ align_max); [done|apply pow2_align_max|done]|done])).
  rewrite w64_limit by lia. f_equal. lia.
Qed.

Lemma read_trivial_ok sz al l p : item_ok (mk_item sz al l) -> 0 <= p ->
  base + extent p (mk_item sz al l) <= addr_limit -> holds m base p [mk_item sz al l] ->
  read_trivial m sz al (base + p) = Ok (l, base + extent p (mk_item sz al l)).
Proof.
  intros (Hal & Hmax & Hsz) Hp Hlim [Hr _]. cbn [it_size it_align it_bytes] in *.
  unfold read_trivial. unfold extent in *. cbn [it_size it_align] in *.
  rewrite unplace_ok by (lia || done). rewrite Hsz, Nat2Z.id, Hr. done.
Qed.

Lemma read_size_t_ok n p : is_u64 n -> 0 <= p -> base + extent p (size_t_item n) <= addr_limit ->
  holds m base p [size_t_item n] -> read_size_t m (base + p) = Ok (n, base + extent p (size_t_item n)).
Proof.
  intros Hn Hp Hlim Hh. unfold read_size_t. rewrite (read_trivial_ok 8 8 (le_bytes 8 n)); [|apply size_t_item_ok|done..].
  mcbn. by rewrite le_value_bytes.
Qed.

(** [f] reads back what the items of an element are. *)
Definition reads (f : Z -> res (val * Z)) (v : val) (its : list item) : Prop :=
  forall p, 0 <= p -> Forall item_ok its -> base + end_of p its <= addr_limit -> holds m base p its ->
  f (base + p) = Ok (v, base + end_of p its).

Lemma read_n_ok f l itss p : Forall2 (reads f) l itss -> 0 <= p -> Forall item_ok (concat itss) ->
  base + end_of p (concat itss) <= addr_limit -> holds m base p (concat itss) ->
  read_n f (length l) (base + p) = Ok (l, base + end_of p (concat itss)).
Proof.
  intros H. revert p. induction H as [|v its l itss Hv _ IH]; intros p Hp Hok Hlim Hh; [done|].
  cbn [concat] in *. apply Forall_app in Hok as [Hok1 Hok2]. rewrite end_of_app in *.
  apply holds_app in Hh as [Hh1 Hh2]. pose proof (end_of_ge (end_of p its) _ Hok2). pose proof (end_of_ge p _ Hok1).
  cbn [length read_n]. rewrite (Hv p) by (done || lia). mcbn. rewrite IH by (done || lia). done.
Qed.

(** Objects laid out from an aligned position. *)
Lemma objects_at sz al bs q : obj_ok sz al -> Forall (fun b => Z.of_nat (length b) = sz) bs -> (al | q) ->
  q + Z.of_nat (length bs) * sz = end_of q (map (mk_item sz al) bs) /\
  (read_at m (base + q) (length (concat bs)) = Some (concat bs) <-> holds m base q (map (mk_item sz al) bs)).
Proof.
  intros (Hsz & Hal & Hmax & Hd) Hbs. revert q. pose proof (pow2_pos _ Hal) as Hpos.
  induction Hbs as [|c cs Hc Hcs IH]; intros q Hq; [unfold end_of; simpl; split; [lia|done]|].
  cbn [map holds concat it_align it_bytes].
  change (end_of q (mk_item sz al c :: ?l)) with (end_of (extent q (mk_item sz al c)) l).
  rewrite extent_aligned, round_up_id by done. cbn [it_size].
  destruct (IH (q + sz)) as [IH1 IH2]; [by apply Z.divide_add_r|]. split.
  - rewrite <- IH1. cbn [length]. lia.
  - by rewrite read_at_app, <- IH2, <- Hc, Z.add_assoc.
Qed.

(** One copy of contiguous elements is the elements one after the other. *)
Lemma bulk_split sz al bs p : obj_ok sz al -> Forall (fun b => Z.of_nat (length b) = sz) bs ->
  Z.of_nat (length (concat bs)) <= addr_limit -> 0 <= p ->
  end_of p [bulk_item sz al bs] = end_of p (map (mk_item sz al) bs) /\
  (holds m base p [bulk_item sz al bs] <-> holds m base p (map (mk_item sz al) bs)).
Proof.
  intros Ho Hbs Hlim Hp. pose proof (bulk_item_ok _ _ _ Ho Hbs Hlim) as Hok.
  rewrite (concat_length _ _ Hbs) in Hlim.
  destruct (arrayed_obj sz al _ Ho (Nat2Z.is_nonneg (length bs)) Hlim) as [Hs Ha].
  unfold end_of. cbn [fold_left holds]. unfold bulk_item, extent at 1. cbn [it_size it_align it_bytes] in *.
  rewrite Hs, Ha. pose proof Ho as Ho0. destruct Ho as (Hsz & Hal & Hmax & Hd). pose proof (pow2_pos _ Hal).
  destruct bs as [|b bs]; [simpl; split; [rewrite round_up_id by (done || apply Z.divide_1_l); lia|done]|].
  destruct (Z.eqb_spec (Z.of_nat (length (b :: bs))) 0) as [E|_]; [simpl in E; lia|]. clear Hs Ha Hok Hlim.
  destruct (objects_at sz al (b :: bs) (round_up p al) Ho0 Hbs (round_up_divide p al)) as [H1 H2].
  split.
  - rewrite H1. cbn [map fold_left end_of]. by rewrite (extent_round_up p sz al b).
  - cbn [map holds it_align it_bytes] in *. rewrite (extent_round_up p sz al b) in H2 by done.
    rewrite (round_up_id (round_up p al)) in H2 by (done || apply round_up_divide). rewrite <- H2. tauto.
Qed.

Lemma chunks_concat sz bs : 0 <= sz -> Forall (fun b => Z.of_nat (length b) = sz) bs ->
  chunks (length bs) (Z.to_nat sz) (concat bs) = map VBytes bs.
Proof.
  intros Hsz. induction 1 as [|b bs Hb _ IH]; [done|]. cbn [length chunks concat map].
  rewrite take_app_length', drop_app_length' by lia. by rewrite IH.
Qed.

(** Reading a contiguous sequence in one piece. *)
Lemma read_bulk_ok sz al bs p : obj_ok sz al -> Forall (fun b => Z.of_nat (length b) = sz) bs ->
  item_ok (bulk_item sz al bs) -> 0 <= p -> base + end_of p [bulk_item sz al bs] <= addr_limit ->
  holds m base p [bulk_item sz al bs] ->
  let ss := arrayed (storage_size_of sz al) (Z.of_nat (length bs)) in
  (let '(q, head) := unplace (size ss) (align ss) (base + p) in
   l ← deref (read_at m q (length bs * Z.to_nat sz)); Ok (chunks (length bs) (Z.to_nat sz) l, head))
  = Ok (map VBytes bs, base + end_of p [bulk_item sz al bs]).
Proof.
  intros Ho Hbs (Hal & Hmax & Hsz) Hp Hlim [Hr _] ss. unfold bulk_item, end_of in *.
  cbn [fold_left it_size it_align it_bytes] in *. fold ss in Hal, Hmax, Hsz, Hlim, Hr |- *.
  unfold extent in *. cbn [it_size it_align] in *. rewrite unplace_ok by (lia || done).
  pose proof (concat_length _ _ Hbs) as Hlen. destruct Ho as (Hsz0 & _).
  replace (length bs * Z.to_nat sz)%nat with (length (concat bs)) by nia. rewrite Hr. mcbn.
  by rewrite chunks_concat by (done || lia).
Qed.

Lemma reads_singles sz al bs : obj_ok sz al -> Forall (fun b => Z.of_nat (length b) = sz) bs ->
  Forall2 (reads (deserialize (TTriv sz al) m)) (map VBytes bs) (map (fun b => [mk_item sz al b]) bs).
Proof.
  intros Ho. induction 1 as [|b bs Hb _ IH]; [constructor|]. constructor; [|done].
  intros p Hp Hok Hlim Hh. cbn [deserialize]. rewrite (read_trivial_ok sz al b); [done|..|done]; try done.
  by apply Forall_cons in Hok as [? _].
Qed.

Lemma concat_singles {A B} (f : A -> B) l : concat (map (fun x => [f x]) l) = map f l.
Proof. induction l as [|x l IH]; [done|]. simpl. by rewrite IH. Qed.

Lemma length_map_VBytes bs : length (map VBytes bs) = length bs.
Proof. apply length_map. Qed.

(** Elements read one at a time, however they were written. *)
Lemma reads_sequence t c l its p : ty_ok t ->
  (forall v i, serialize t v = Some i -> small i -> reads (deserialize t m) v i) ->
  write_sequence (serialize t) t c l = Some its -> small its ->
  0 <= p -> Forall item_ok its -> base + end_of p its <= addr_limit -> holds m base p its ->
  read_n (deserialize t m) (length l) (base + p) = Ok (l, base + end_of p its).
Proof.
  intros Ht IH H Hs Hp Hok Hlim Hh.
  apply write_sequence_cases in H as [(sz & al & bs & -> & _ & -> & Hbs & ->)|(itss & H & -> & _)].
  - apply Forall_cons in Hs as [Hs _]. cbn [it_bytes bulk_item] in Hs.
    destruct (bulk_split sz al bs p Ht Hbs Hs Hp) as [E Hsplit]. rewrite E in Hlim |- *.
    rewrite <- (concat_singles (mk_item sz al) bs) in Hlim |- *. apply read_n_ok; [by apply reads_singles|done| |done|].
    + rewrite concat_singles. apply Forall_map. eapply Forall_impl; [exact Hbs|]. intros b Hb. by apply obj_item_ok.
    + rewrite concat_singles. by apply Hsplit.
  - apply forall2_small in H; [|done]. apply read_n_ok; [|done..]. eapply Forall2_impl; [exact H|].
    intros v i [Hv Hsv]. by apply IH.
Qed.

Lemma holds_cons_app it l p : holds m base p (it :: l) <-> holds m base p [it] /\ holds m base (extent p it) l.
Proof. simpl. tauto. Qed.

(** A size_t and a sequence. *)
Lemma read_counted_ok t c l its p : ty_ok t ->
  (forall v i, serialize t v = Some i -> small i -> reads (deserialize t m) v i) ->
  write_sequence (serialize t) t c l = Some its -> small its -> Z.of_nat (length l) < w64_mod ->
  let all := size_t_item (Z.of_nat (length l)) :: its in
  0 <= p -> Forall item_ok all -> base + end_of p all <= addr_limit -> holds m base p all ->
  ('(n, head) ← read_size_t m (base + p);
   '(l, head) ← read_n (deserialize t m) (Z.to_nat n) head; Ok (VSeq l, head))
  = Ok (VSeq l, base + end_of p all).
Proof.
  intros Ht IH H Hs Hn all Hp Hok Hlim Hh. unfold all in *. clear all.
  apply Forall_cons in Hok as [Hok0 Hok]. apply holds_cons_app in Hh as [Hh0 Hh].
  change (end_of p (?i :: its)) with (end_of (extent p i) its) in *.
  pose proof (end_of_ge (extent p (size_t_item (Z.of_nat (length l)))) its Hok) as Hge.
  pose proof (extent_ge p _ Hok0) as Hge0.
  rewrite (read_size_t_ok (Z.of_nat (length l))); [|unfold is_u64; lia|done|lia|done]. mcbn.
  rewrite Nat2Z.id. by rewrite (reads_sequence t c l its) by (done || lia).
Qed.

Lemma deserialize_ok t : ty_ok t -> forall v its, serialize t v = Some its -> small its -> reads (deserialize t m) v its.
Proof.
  induction t as [sz al| | |t IHt ts IHts|n t IHt|csz|c t IHt|t IHt]; intros Ht v its H Hs p Hp Hok Hlim Hh;
    destruct v as [b| |v w|l]; try done; cbn [serialize] in H.
  - apply bind_Some in H as (x & Hx & [= <-]). apply triv_bytes_some in Hx as [[= ->] Hx].
    apply Forall_cons in Hok as [Hok _]. cbn [deserialize]. by rewrite (read_trivial_ok sz al x).
  - by injection H as <-.
  - by injection H as <-.
  - apply bind_Some in H as (a & Ha & H). apply bind_Some in H as (b & Hb & [= <-]).
    apply Forall_app in Hs as [Hs1 Hs2]. destruct Ht as [Ht1 Ht2]. apply Forall_app in Hok as [Hok1 Hok2].
    apply holds_app in Hh as [Hh1 Hh2]. rewrite end_of_app in *.
    pose proof (end_of_ge p _ Hok1). pose proof (end_of_ge (end_of p a) _ Hok2). cbn [deserialize].
    rewrite (IHt Ht1 v a Ha Hs1 p) by (done || lia). mcbn.
    by rewrite (IHts Ht2 w b Hb Hs2 (end_of p a)) by (done || lia).
  - destruct (Nat.eqb_spec (length l) n) as [<-|]; [|done]. cbn [deserialize].
    pose proof H as Hc. apply write_sequence_cases in Hc as [(sz & al & bs & -> & _ & -> & Hbs & ->)|(itss & Hf & -> & Ht')].
    + rewrite length_map. cbn [read_sequence]. apply Forall_cons in Hok as [Hok _].
      pose proof (read_bulk_ok sz al bs p Ht Hbs Hok Hp Hlim Hh) as E. cbn zeta in E.
      destruct (unplace _ _ _) as [q hd]. rewrite E. done.
    + destruct Ht' as [Ht'|?]; [|done].
      assert (read_sequence (deserialize t m) m t (length l) (base + p) = read_n (deserialize t m) (length l) (base + p)) as ->
        by (by destruct t).
      apply forall2_small in Hf; [|done].
      rewrite (read_n_ok _ l itss); [done| |done..]. eapply Forall2_impl; [exact Hf|].
      intros v i [Hv Hsv]. by apply IHt.
  - destruct (Z.ltb_spec (Z.of_nat (length l)) w64_mod) as [Hn|]; [|done].
    apply bind_Some in H as (bs & Hbs & [= <-]). apply triv_list in Hbs as [-> Hbs]. rewrite length_map in *.
    fold (bulk_item csz csz bs) in *. apply Forall_cons in Hok as [Hok0 Hok]. apply holds_cons_app in Hh as [Hh0 Hh].
    pose proof (end_of_ge (extent p (size_t_item (Z.of_nat (length bs)))) _ Hok) as Hge.
    change (end_of p (?i :: ?l)) with (end_of (extent p i) l) in Hlim, Hge |- *.
    pose proof (extent_ge p _ Hok0). apply Forall_cons in Hok as [Hok _]. cbn [deserialize].
    rewrite (read_size_t_ok (Z.of_nat (length bs))); [|unfold is_u64; lia|done|lia|done]. mcbn.
    rewrite Nat2Z.id. pose proof (read_bulk_ok csz csz bs (extent p (size_t_item (Z.of_nat (length bs)))) Ht Hbs Hok ltac:(lia) Hlim Hh) as E. cbn zeta in E.
    destruct (unplace _ _ _) as [q hd]. destruct (deref _); [|done..]. simpl in E |- *. by injection E as -> ->.
  - destruct (Z.ltb_spec (Z.of_nat (length l)) w64_mod) as [Hn|]; [|done].
    apply bind_Some in H as (i & Hi & [= <-]). apply Forall_cons in Hs as [_ Hs].
    by apply (read_counted_ok t c l i p Ht (IHt Ht)).
  - destruct (Z.ltb_spec (Z.of_nat (length l)) w64_mod) as [Hn|]; [|done].
    apply bind_Some in H as (i & Hi & [= <-]). apply Forall_cons in Hs as [_ Hs].
    by apply (read_counted_ok t false l i p Ht (IHt Ht)).
Qed.

End read.

(** C15: serialization round trip.  For a well-formed type, the bounded writer,
    given room for the placements of a value, writes it without stepping outside
    the buffer or touching other memory, and deserializing at the same offset
    returns the value and leaves the reader's head at the writer's end. *)
Theorem round_trip t v its w : ty_ok t -> serialize t v = Some its -> small its ->
  writer_ok w -> end_of (w_size w) its <= w_cap w ->
  exists w', write_items its w = Ok w'
    /\ deserialize t (w_mem w') (w_buf w + w_size w) = Ok (v, w_buf w + w_size w')
    /\ (forall b, b < w_buf w + w_size w \/ w_buf w + w_size w' <= b -> w_mem w' !! b = w_mem w !! b).
Proof.
  intros Ht Hs Hsm Hw Hend. pose proof (serialize_ok t Ht v its Hs Hsm) as Hok.
  destruct (write_items_ok its w Hw Hok Hend) as (w' & -> & _ & _ & Hsz & _ & Hh & Hout).
  exists w'. rewrite Hsz. split_and!; [done| |done]. destruct Hw as [W1 W2 W3 W4].
  apply (deserialize_ok (w_mem w') (w_buf w) W1 W2 t Ht v its Hs Hsm); try done. lia.
Qed.

(** A vector of pairs of a byte and a string, a fixed array of 16-bit integers. *)
Definition demo_ty : ty :=
  TCons (TSeq true (TCons (TTriv 1 1) (TCons (TStr 1) TNil))) (TCons (TArray 2 (TTriv 2 2)) TNil).

Definition demo_val : val :=
  VPair (VSeq [VPair (VBytes [7]) (VPair (VSeq [VBytes [104]; VBytes [105]]) VUnit);
               VPair (VBytes [8]) (VPair (VSeq []) VUnit)])
        (VPair (VSeq [VBytes [1; 2]; VBytes [3; 4]]) VUnit).

Lemma round_trip_witness :
  exists its, serialize demo_ty demo_val = Some its /\
  exists w', write_items its (writer_init 640 64 ∅) = Ok w'
    /\ deserialize demo_ty (w_mem w') 640 = Ok (demo_val, 640 + w_size w').
Proof.
  eexists. split; [vm_compute; reflexivity|].
  match goal with |- exists _, write_items ?l _ = _ /\ _ =>
    destruct (round_trip demo_ty demo_val l (writer_init 640 64 ∅)) as (w' & H1 & H2 & _) end.
  - cbn. unfold obj_ok, addr_limit, align_max. split_and!; try done; try (by exists 0); try (by exists 1); try lia;
      (apply Z.divide_1_l || apply Z.divide_refl).
  - vm_compute. reflexivity.
  - repeat constructor; vm_compute; discriminate.
  - split; cbn; try done. by exists 10.
  - vm_compute. discriminate.
  - exists w'. by split.
Defined.

End Traits.
