(* ===== verification/SerializationBounds.v ===== *)
(** The bounds that [src/serialization.hpp] computes before serializing, and the
    skipping that relies on them.

    [plan] is the extent an upper bound denotes, computed without wrap-around and
    without the encodings -1 and -2; [ubound_plan] relates it to what
    [serialization_traits::ubound] returns, [plan_bounds] to what serialization
    places.  [Skip] shows for which types the distance between elements computed
    from bounds is the real one, and that it is not for all. *)
From S2P Require Import Prelude Serialization.
Import StorageSize Layout Traits.

Module Ubound.

(** ** Extents of upper bounds *)

(** Types with a bound known from the type, types with a bound. *)
Fixpoint static (t : ty) : bool :=
  match t with
  | TTriv _ _ | TEmpty | TNil => true
  | TCons t ts => static t && static ts
  | TArray n t => Nat.eqb n 0 || static t
  | TStr _ | TSeq _ _ | TFwd _ => false
  end.

Fixpoint valid (t : ty) : bool :=
  match t with
  | TTriv _ _ | TEmpty | TNil | TStr _ => true
  | TCons t ts => valid t && valid ts
  | TArray n t => Nat.eqb n 0 || static t
  | TSeq _ t => static t
  | TFwd _ => false
  end.

(** [n] objects of a size and alignment, placed from [p]. *)
Definition plan_array (n sz al p : Z) : Z :=
  round_up p (if n =? 0 then 1 else al) + (if n =? 1 then sz else n * round_up sz al).

Fixpoint plan_align (t : ty) (v : val) : Z :=
  match t with
  | TTriv _ al => al
  | TEmpty | TNil | TFwd _ => 1
  | TCons t ts => match v with VPair v w => Z.max (plan_align t v) (plan_align ts w) | _ => 1 end
  | TArray n t => if Nat.eqb n 0 then 1 else plan_align t (dummy t)
  | TStr csz => if seq_length v =? 0 then 8 else Z.max 8 csz
  | TSeq _ t => if seq_length v =? 0 then 8 else Z.max 8 (plan_align t (dummy t))
  end.

Fixpoint plan (t : ty) (p : Z) (v : val) : Z :=
  match t with
  | TTriv sz al => round_up p al + sz
  | TEmpty | TNil | TFwd _ => p
  | TCons t ts => match v with VPair v w => plan ts (plan t p v) w | _ => p end
  | TArray n t => plan_array (Z.of_nat n) (plan t 0 (dummy t)) (plan_align t (dummy t)) p
  | TStr csz => plan_array (seq_length v) csz csz (round_up p 8 + 8)
  | TSeq _ t => plan_array (seq_length v) (plan t 0 (dummy t)) (plan_align t (dummy t)) (round_up p 8 + 8)
  end.

(** The element types of sequences have bounds below half the address space. *)
Fixpoint fits (t : ty) : Prop :=
  match t with
  | TTriv _ _ | TEmpty | TNil | TStr _ => True
  | TCons t ts => fits t /\ fits ts
  | TArray _ t | TSeq _ t | TFwd t => fits t /\ (static t = true -> plan t 0 (dummy t) <= addr_limit)
  end.

(** The tree of a value follows that of its type as far as [ubound] looks. *)
Fixpoint shaped (t : ty) (v : val) : Prop :=
  match t with
  | TCons t ts => match v with VPair v w => shaped t v /\ shaped ts w | _ => False end
  | TArray _ t => shaped t (dummy t)
  | TSeq _ t | TFwd t => shaped t (dummy t)
  | _ => True
  end.

Lemma shaped_dummy t : shaped t (dummy t).
Proof. induction t; simpl; auto. Qed.

Lemma serialize_shaped t v its : serialize t v = Some its -> shaped t v.
Proof.
  revert v its. induction t as [| | |t IHt ts IHts| | | |]; intros v its H; simpl; try apply shaped_dummy; try done.
  destruct v as [| |v w|]; try done. cbn [serialize] in H.
  apply bind_Some in H as (a & Ha & H). apply bind_Some in H as (b & Hb & _). split; eauto.
Qed.

(** ** Alignments are powers of two up to the maximum *)

Definition align_ok (a : Z) : Prop := pow2 a /\ a <= align_max.

Lemma align_ok_1 : align_ok 1.
Proof. split; [apply pow2_1|done]. Qed.

Lemma align_ok_8 : align_ok 8.
Proof. split; [apply pow2_8|done]. Qed.

Lemma align_ok_max a b : align_ok a -> align_ok b -> align_ok (Z.max a b).
Proof. intros ? ?. destruct (Z.max_spec a b) as [[_ ->]|[_ ->]]; done. Qed.

Lemma align_ok_pos a : align_ok a -> 0 < a.
Proof. intros [? _]. by apply pow2_pos. Qed.

Lemma align_ok_divide a b : align_ok a -> align_ok b -> a <= b -> (a | b).
Proof. intros [? _] [? _]. by apply pow2_divide. Qed.

Create HintDb layout.
#[local] Hint Resolve align_ok_1 align_ok_8 align_ok_max align_ok_pos align_ok_divide round_up_divide
  shaped_dummy Z.divide_1_l : layout.

Lemma plan_align_ok t v : ty_ok t -> align_ok (plan_align t v).
Proof.
  revert v. induction t as [sz al| | |t IHt ts IHts|n t IHt|csz|c t IHt|t IHt]; intros v H; simpl in *;
    auto with layout.
  - by destruct H as (_ & ? & ? & _).
  - destruct H as [H1 H2]. destruct v; auto with layout.
  - destruct (Nat.eqb n 0); auto with layout.
  - destruct H as (_ & ? & ? & _). destruct (_ =? _); auto with layout. apply align_ok_max; [auto with layout|by split].
  - destruct (_ =? _); auto with layout.
Qed.
#[local] Hint Resolve plan_align_ok : layout.

Lemma plan_static_align t v w : static t = true -> shaped t v -> shaped t w -> plan_align t v = plan_align t w.
Proof.
  revert v w. induction t as [| | |t IHt ts IHts| | | |]; intros v w H Hv Hw; simpl in *; try done.
  apply andb_prop in H as [H1 H2]. destruct v, w; try done. destruct Hv, Hw.
  rewrite (IHt v1 w1), (IHts v2 w2); done.
Qed.

Lemma plan_static t v w p : static t = true -> shaped t v -> shaped t w -> plan t p v = plan t p w.
Proof.
  revert v w p. induction t as [| | |t IHt ts IHts| | | |]; intros v w p H Hv Hw; simpl in *; try done.
  apply andb_prop in H as [H1 H2]. destruct v, w; try done. destruct Hv, Hw.
  by rewrite (IHt v1 w1), (IHts v2 w2).
Qed.

Lemma plan_array_ge n sz al p : 0 <= n -> 0 <= sz -> 0 < al -> p <= plan_array n sz al p.
Proof.
  intros Hn Hs Ha. unfold plan_array. pose proof (round_up_ge sz al Ha).
  assert (p <= round_up p (if n =? 0 then 1 else al)) by (apply round_up_ge; destruct (_ =? _); lia).
  destruct (n =? 1); nia.
Qed.

Lemma seq_length_nonneg v : 0 <= seq_length v.
Proof. destruct v; simpl; lia. Qed.

Lemma plan_ge t p v : ty_ok t -> p <= plan t p v.
Proof.
  revert p v. induction t as [sz al| | |t IHt ts IHts|n t IHt|csz|c t IHt|t IHt]; intros p v H; simpl in *; try done.
  - destruct H as (? & Ha & _). pose proof (round_up_ge p al (pow2_pos _ Ha)). lia.
  - destruct H as [H1 H2]. destruct v as [| |v w|]; try done. etrans; [by apply (IHt p v)|by apply IHts].
  - apply plan_array_ge; [lia|by apply IHt|auto with layout].
  - pose proof (round_up_ge p 8 ltac:(lia)). destruct H as (? & Ha & _).
    pose proof (plan_array_ge (seq_length v) csz csz (round_up p 8 + 8) (seq_length_nonneg v) ltac:(lia) (pow2_pos _ Ha)). lia.
  - pose proof (round_up_ge p 8 ltac:(lia)). pose proof (IHt 0 (dummy t) H).
    pose proof (plan_array_ge (seq_length v) (plan t 0 (dummy t)) _ (round_up p 8 + 8) (seq_length_nonneg v) ltac:(lia)
      (align_ok_pos _ (plan_align_ok t (dummy t) H))). lia.
Qed.

(** ** What serialization places stays within the plan *)

Definition aligned_to (a : Z) (l : list item) : Prop := Forall (fun it => (it_align it | a)) l.

Lemma aligned_to_weaken a b l : (a | b) -> aligned_to a l -> aligned_to b l.
Proof. intros Hd H. eapply Forall_impl; [exact H|]. intros it Hi. simpl in *. by etrans. Qed.

(** What is known of the items of one element of a sequence. *)
Record element_ok (sz al : Z) (its : list item) : Prop := {
  el_ok : Forall item_ok its;
  el_align : aligned_to al its;
  el_end : end_of 0 its <= sz
}.

Lemma element_from sz al its q : 0 < al -> element_ok sz al its -> (al | q) -> end_of q its <= q + sz.
Proof.
  intros Ha [H1 H2 H3] Hq. replace q with (q + 0) at 1 by lia. rewrite end_of_shift; [lia|done|].
  eapply aligned_to_weaken; [exact Hq|done].
Qed.

Lemma elements_stacked sz al itss p q : 0 < al -> 0 <= sz -> Forall (element_ok sz al) itss -> p <= q -> (al | q) ->
  end_of p (concat itss) <= q + Z.of_nat (length itss) * round_up sz al.
Proof.
  intros Ha Hs H. revert p q. induction H as [|its itss Hi _ IH]; intros p q Hp Hq; [unfold end_of; simpl; lia|].
  cbn [concat length]. rewrite end_of_app.
  assert (end_of p its <= q + round_up sz al).
  { etrans; [apply (end_of_mono p q); [apply Hi|done]|].
    pose proof (element_from sz al its q Ha Hi Hq). pose proof (round_up_ge sz al Ha). lia. }
  etrans; [apply (IH _ (q + round_up sz al)); [done|apply Z.divide_add_r; [done|apply round_up_divide]]|]. lia.
Qed.

Lemma elements_plan sz al itss p q : 0 < al -> 0 <= sz -> Forall (element_ok sz al) itss -> p <= q ->
  end_of p (concat itss) <= plan_array (Z.of_nat (length itss)) sz al q.
Proof.
  intros Ha Hs H Hp. unfold plan_array. destruct itss as [|its itss].
  - cbn. rewrite round_up_id by (done || apply Z.divide_1_l). unfold end_of. simpl. lia.
  - pose proof (round_up_ge q al Ha). destruct (Z.eqb_spec (Z.of_nat (length (its :: itss))) 0) as [E|_]; [simpl in E; lia|].
    destruct (Z.eqb_spec (Z.of_nat (length (its :: itss))) 1) as [E|_].
    + destruct itss; [|simpl in E; lia]. apply Forall_cons in H as [Hi _]. cbn [concat]. rewrite app_nil_r.
      etrans; [apply (end_of_mono p (round_up q al)); [apply Hi|lia]|].
      apply (element_from sz al); auto with layout.
    + apply elements_stacked; auto with layout. lia.
Qed.

Lemma bulk_plan sz al bs p q : obj_ok sz al -> Forall (fun b => Z.of_nat (length b) = sz) bs ->
  Z.of_nat (length (concat bs)) <= addr_limit -> p <= q ->
  end_of p [bulk_item sz al bs] <= plan_array (Z.of_nat (length bs)) sz al q
  /\ aligned_to (if Nat.eqb (length bs) 0 then 1 else al) [bulk_item sz al bs].
Proof.
  intros Ho Hbs Hlim Hp. rewrite (concat_length _ _ Hbs) in Hlim.
  destruct (arrayed_obj sz al _ Ho (Nat2Z.is_nonneg (length bs)) Hlim) as [Hs Ha].
  unfold end_of, aligned_to, plan_array. cbn [fold_left]. unfold bulk_item, extent. cbn [it_size it_align].
  rewrite Hs. destruct Ho as (Hsz & Hal & Hmax & Hd). rewrite (round_up_id sz al) by (done || by apply pow2_pos). split.
  - rewrite Ha. pose proof (pow2_pos _ Hal).
    pose proof (round_up_mono p q (if Z.of_nat (length bs) =? 0 then 1 else al) ltac:(destruct (_ =? _); lia) Hp).
    destruct (Z.eqb_spec (Z.of_nat (length bs)) 1); nia.
  - constructor; [|constructor]. cbn [it_align]. rewrite Ha. destruct bs; [done|]. by apply Z.divide_refl.
Qed.

(** The sequence of a type whose elements obey [plan]. *)
Lemma write_sequence_plan t c l its p q : ty_ok t -> static t = true ->
  (forall v i, serialize t v = Some i -> small i ->
     aligned_to (plan_align t v) i /\ (forall p q, p <= q -> end_of p i <= plan t q v)) ->
  write_sequence (serialize t) t c l = Some its -> small its -> p <= q ->
  end_of p its <= plan_array (Z.of_nat (length l)) (plan t 0 (dummy t)) (plan_align t (dummy t)) q
  /\ aligned_to (if Nat.eqb (length l) 0 then 1 else plan_align t (dummy t)) its.
Proof.
  intros Ht Hst IH H Hs Hp.
  apply write_sequence_cases in H as [(sz & al & bs & -> & _ & -> & Hbs & ->)|(itss & H & -> & _)].
  - rewrite length_map. apply Forall_cons in Hs as [Hs _]. cbn [it_bytes bulk_item] in Hs.
    destruct (bulk_plan sz al bs p q Ht Hbs Hs Hp) as [H1 H2]. cbn [plan plan_align].
    rewrite (round_up_id 0) by (apply Z.divide_0_r || apply Ht || (destruct Ht as (? & ? & _); by apply pow2_pos)).
    by rewrite Z.add_0_l.
  - pose proof (Forall2_length _ _ _ H) as Hlen. apply forall2_small in H; [|done].
    assert (Hel : Forall (element_ok (plan t 0 (dummy t)) (plan_align t (dummy t))) itss).
    { clear Hs Hlen. induction H as [|v i l itss [Hv Hi] _ IHl]; constructor; [|exact IHl].
      destruct (IH v i Hv Hi) as [I1 I2]. pose proof (serialize_shaped _ _ _ Hv) as Hsh.
      split; [by apply (serialize_ok t Ht v)| |].
      - by rewrite (plan_static_align t (dummy t) v) by (done || apply shaped_dummy).
      - rewrite (plan_static t (dummy t) v) by (done || apply shaped_dummy). by apply I2. }
    pose proof (plan_ge t 0 (dummy t) Ht). split.
    + rewrite Hlen. apply elements_plan; auto with layout.
    + destruct itss as [|i itss]; [constructor|]. rewrite Hlen. cbn [length Nat.eqb].
      apply Forall_concat. eapply Forall_impl; [exact Hel|]. intros x Hx. apply Hx.
Qed.

Lemma static_valid t : static t = true -> valid t = true.
Proof.
  induction t as [| | |t IHt ts IHts| | | |]; simpl; try done.
  intros [H1 H2]%andb_prop. by rewrite IHt, IHts.
Qed.

Lemma size_t_plan n p q : p <= q -> extent p (size_t_item n) <= round_up q 8 + 8.
Proof. intros H. unfold extent. cbn [it_size it_align size_t_item]. pose proof (round_up_mono p q 8). lia. Qed.

Lemma plan_bounds t : ty_ok t -> valid t = true -> forall v its, serialize t v = Some its -> small its ->
  aligned_to (plan_align t v) its /\ (forall p q, p <= q -> end_of p its <= plan t q v).
Proof.
  induction t as [sz al| | |t IHt ts IHts|n t IHt|csz|c t IHt|t IHt]; intros Ht Hv v its H Hs;
    destruct v as [b| |v w|l]; try done; cbn [serialize] in H.
  - apply bind_Some in H as (x & Hx & [= <-]). split; [repeat constructor; apply Z.divide_refl|].
    intros p q Hp. destruct Ht as (_ & Ha & _). pose proof (round_up_mono p q al (pow2_pos _ Ha) Hp).
    unfold end_of, extent. cbn. lia.
  - injection H as <-. split; [constructor|done].
  - injection H as <-. split; [constructor|done].
  - apply bind_Some in H as (a & Ha & H). apply bind_Some in H as (b & Hb & [= <-]).
    apply Forall_app in Hs as [Hs1 Hs2]. destruct Ht as [Ht1 Ht2]. apply andb_prop in Hv as [Hv1 Hv2].
    destruct (IHt Ht1 Hv1 v a Ha Hs1) as [A1 B1]. destruct (IHts Ht2 Hv2 w b Hb Hs2) as [A2 B2]. split.
    + pose proof (plan_align_ok t v Ht1). pose proof (plan_align_ok ts w Ht2). apply Forall_app. cbn [plan_align]. split.
      * eapply aligned_to_weaken; [|exact A1]. apply align_ok_divide; auto with layout. lia.
      * eapply aligned_to_weaken; [|exact A2]. apply align_ok_divide; auto with layout. lia.
    + intros p q Hp. rewrite end_of_app. cbn [plan]. by apply B2, B1.
  - destruct (Nat.eqb_spec (length l) n) as [<-|]; [|done]. cbn [valid] in Hv. destruct l as [|v l].
    + assert (its = [] \/ exists sz al, t = TTriv sz al /\ its = [bulk_item sz al []]) as [->|(sz & al & -> & ->)].
      { apply write_sequence_cases in H as [(sz & al & bs & -> & _ & E & _ & ->)|(itss & Hi & -> & _)].
        - right. exists sz, al. by destruct bs.
        - left. by inversion Hi. }
      * split; [constructor|]. intros p q Hp. cbn [plan length]. etrans; [|apply plan_array_ge].
        { done. } { done. } { by apply plan_ge. } { auto with layout. }
      * destruct (bulk_plan sz al [] 0 0 Ht ltac:(constructor) ltac:(done) ltac:(lia)) as [_ A]. split; [exact A|].
        intros p q Hp. destruct (bulk_plan sz al [] p q Ht ltac:(constructor) ltac:(done) Hp) as [B _]. etrans; [exact B|]. cbn [plan length]. unfold plan_array. cbn.
change (Z.of_nat 0) with 0. cbn. lia.
    + cbn [length Nat.eqb orb] in Hv. pose proof (fun v i => IHt Ht (static_valid t Hv) v i) as IH.
      split; [|intros p q Hp]; (eapply (write_sequence_plan t true (v :: l) its); [exact Ht|exact Hv|exact IH|exact H|exact Hs|]; try exact Hp; apply Z.le_refl).
      Unshelve. all: exact 0.
  - destruct (_ <? _); [|done]. apply bind_Some in H as (bs & Hbs & [= <-]).
    apply triv_list in Hbs as [-> Hbs]. rewrite length_map in *. fold (bulk_item csz csz bs) in *.
    apply Forall_cons in Hs as [_ Hs]. pose proof Hs as Hs'. apply Forall_cons in Hs' as [Hs' _]. cbn [it_bytes bulk_item] in Hs'.
    cbn [plan_align plan seq_length]. rewrite length_map. split.
    + destruct (bulk_plan csz csz bs 0 0 Ht Hbs Hs' ltac:(lia)) as [_ A]. destruct Ht as (? & Ha & Hm & _).
      assert (align_ok csz) by done.
      constructor; [cbn [it_align size_t_item]; destruct (_ =? _); apply align_ok_divide; auto with layout; lia|].
      eapply aligned_to_weaken; [|exact A]. destruct bs; [apply Z.divide_1_l|]. cbn [length Nat.eqb].
      destruct (Z.eqb_spec (Z.of_nat (S (length bs))) 0); [lia|]. apply align_ok_divide; auto with layout. lia.
    + intros p q Hp. by apply bulk_plan; [| | |apply size_t_plan].
  - destruct (_ <? _); [|done]. apply bind_Some in H as (i & Hi & [= <-]). apply Forall_cons in Hs as [_ Hs].
    pose proof (fun v i => IHt Ht (static_valid t Hv) v i) as IH. cbn [plan_align plan seq_length]. split.
    + destruct (write_sequence_plan t c l i 0 0 Ht Hv IH Hi Hs ltac:(lia)) as [_ A].
      pose proof (plan_align_ok t (dummy t) Ht).
      constructor; [cbn [it_align size_t_item]; destruct (_ =? _); apply align_ok_divide; auto with layout; lia|].
      eapply aligned_to_weaken; [|exact A]. destruct l; [apply Z.divide_1_l|]. cbn [length Nat.eqb].
      destruct (Z.eqb_spec (Z.of_nat (S (length l))) 0); [lia|]. apply align_ok_divide; auto with layout. lia.
    + intros p q Hp. change (end_of p (?x :: i)) with (end_of (extent p x) i).
      by apply (write_sequence_plan t c l i); [| | | | |apply size_t_plan].
Qed.

(** ** What [ubound] returns *)

(** A storage size that stands for a size and an alignment, statically known or not. *)
Record denotes (r : storage_size) (sz al : Z) (st : bool) : Prop := {
  dn_size : size r = sz;
  dn_align : align r = al;
  dn_static : s_size r = if st then sz else DYNAMIC;
  dn_s_align : st = true -> s_align r = al;
  dn_range : 0 <= sz <= addr_limit;
  dn_align_ok : align_ok al
}.

Lemma encodings : DYNAMIC = 2 * addr_limit - 2 /\ INVALID = 2 * addr_limit - 1.
Proof. done. Qed.

Lemma make_static sz al dsz dal : 0 <= sz <= addr_limit -> align_ok al -> denotes (make sz al dsz dal) sz al true.
Proof.
  intros Hs Ha. destruct encodings as [E1 E2]. unfold make. unfold addr_limit in *.
  destruct (Z.eqb_spec sz INVALID); [lia|]. destruct (Z.eqb_spec sz DYNAMIC); [lia|]. by split.
Qed.

Lemma make_dynamic sal sz al : 0 <= sz <= addr_limit -> align_ok al -> denotes (make DYNAMIC sal sz al) sz al false.
Proof. intros Hs Ha. by split. Qed.

Lemma denotes_valid r sz al st : denotes r sz al st -> is_valid r = true /\ is_static r = st.
Proof.
  intros [? ? Hst _ Hr _]. destruct encodings as [E1 E2]. unfold is_valid, is_static, addr_limit in *. rewrite Hst.
  split; [apply negb_true_iff, Z.eqb_neq; destruct st; lia|]. destruct st; [apply Z.ltb_lt; lia|apply Z.ltb_irrefl].
Qed.

Lemma cat_denotes r1 r2 s1 a1 st1 s2 a2 st2 : denotes r1 s1 a1 st1 -> denotes r2 s2 a2 st2 ->
  round_up s1 a2 + s2 <= addr_limit -> denotes (cat r1 r2) (round_up s1 a2 + s2) (Z.max a1 a2) (st1 && st2).
Proof.
  intros [S1 A1 D1 B1 R1 O1] [S2 A2 D2 B2 R2 O2] Hlim. destruct encodings as [E1 E2].
  pose proof (round_up_ge s1 a2 (align_ok_pos _ O2)) as Hge. unfold cat, cat_return_size.
  rewrite D1, D2, S1, S2, A1, A2. pose proof O2 as [P2 M2].
  rewrite (align_up_small s1 a2) by (done || lia). rewrite (w64_limit (round_up s1 a2 + s2)) by lia.
  destruct st1, st2; cbn [andb];
    repeat match goal with |- context [DYNAMIC <=? ?x] =>
      destruct (Z.leb_spec DYNAMIC x); [unfold addr_limit in *; try lia|unfold addr_limit in *; try lia] end; cbn [orb].
  - rewrite B1, B2 by done. rewrite (align_up_small s1 a2), w64_limit by (done || unfold addr_limit; lia).
    apply make_static; auto with layout. unfold addr_limit; lia.
  - rewrite Z.max_r by lia. apply make_dynamic; auto with layout. unfold addr_limit; lia.
  - rewrite Z.max_l by lia. apply make_dynamic; auto with layout. unfold addr_limit; lia.
  - rewrite Z.max_l by lia. apply make_dynamic; auto with layout. unfold addr_limit; lia.
Qed.

(** What an array adds, apart from where it starts. *)
Definition array_size (n sz al : Z) : Z := if n =? 1 then sz else n * round_up sz al.
Definition array_align (n al : Z) : Z := if n =? 0 then 1 else al.

Lemma plan_array_split n sz al p : plan_array n sz al p = round_up p (array_align n al) + array_size n sz al.
Proof. done. Qed.

Lemma array_align_ok n al : align_ok al -> align_ok (array_align n al).
Proof. intros H. unfold array_align. destruct (n =? 0); auto with layout. Qed.

Lemma neg_small x k : 0 <= x <= addr_limit -> 1 <= k <= 2 -> (w64 (- x) =? k) = false.
Proof.
  intros Hx Hk. apply Z.eqb_neq. unfold w64, w64_mod, addr_limit in *. destruct (Z.eqb_spec x 0) as [->|]; [rewrite Z.mod_0_l; lia|].
  rewrite Z_mod_nz_opp_full; rewrite Z.mod_small by lia; lia.
Qed.

Lemma size_aligned_denotes a sz al st : denotes a sz al st -> size_aligned a 1 = round_up sz al.
Proof.
  intros [Hs Ha _ _ Hr [Hp Hm]]. unfold size_aligned. rewrite Hs, Ha. pose proof (pow2_pos _ Hp).
  destruct (Z.ltb_spec al 1); [lia|]. by apply align_up_small.
Qed.

(** The size of an array, however it is computed. *)
Lemma array_dyn_size a sz al st n : denotes a sz al st -> 0 <= n -> array_size n sz al <= addr_limit ->
  (if n =? 1 then size a else w64 (n * size_aligned a 1)) = array_size n sz al.
Proof.
  intros Hd Hn Hlim. rewrite (size_aligned_denotes a sz al st Hd). pose proof Hd as [Hs _ _ _ Hr Ha].
  unfold array_size in *. destruct (n =? 1); [done|]. apply w64_limit.
  pose proof (round_up_ge sz al (align_ok_pos _ Ha)). nia.
Qed.

Lemma array_size_nonneg n sz al : 0 <= n -> 0 <= sz -> 0 < al -> 0 <= array_size n sz al.
Proof. intros. pose proof (round_up_ge sz al). unfold array_size. destruct (n =? 1); nia. Qed.

Lemma arrayed_denotes a sz al n : denotes a sz al true -> 0 <= n -> array_size n sz al <= addr_limit ->
  denotes (arrayed a n) (array_size n sz al) (array_align n al) false.
Proof.
  intros Hd Hn Hlim. pose proof Hd as [Hs Ha Hst Hsa Hr Hok]. unfold arrayed.
  rewrite (array_dyn_size a sz al true n Hd Hn Hlim), Hst, neg_small, Ha by (done || lia).
  apply make_dynamic; [split; [apply array_size_nonneg; auto with layout; lia|done]|by apply array_align_ok].
Qed.

Lemma arrayed_static_denotes a sz al n : denotes a sz al true -> 0 <= n -> array_size n sz al <= addr_limit ->
  denotes (arrayed_static a n) (array_size n sz al) (array_align n al) true.
Proof.
  intros Hd Hn Hlim. pose proof Hd as [Hs Ha Hst Hsa Hr Hok]. unfold arrayed_static.
  rewrite (array_dyn_size a sz al true n Hd Hn Hlim), Hst, (Hsa eq_refl), Ha, !(neg_small sz) by (done || lia).
  assert (0 <= al <= addr_limit) by (pose proof (align_ok_pos _ Hok); destruct Hok; unfold align_max, addr_limit in *; lia).
  rewrite (neg_small al 1) by (done || lia).
  assert ((if n =? 0 then 0 else if n =? 1 then sz else w64 (n * align_up sz al)) = array_size n sz al) as ->.
  { unfold array_size in *. destruct (Z.eqb_spec n 0) as [->|]; [done|]. destruct (n =? 1); [done|].
    destruct Hok as [Hp Hm]. rewrite align_up_small in * by done. apply w64_limit.
    pose proof (round_up_ge sz al (pow2_pos _ Hp)). nia. }
  apply make_static; [split; [apply array_size_nonneg; auto with layout; lia|done]|by apply array_align_ok].
Qed.

Lemma arrayed_static_0 a : denotes (arrayed_static a 0) 0 1 true.
Proof. apply make_static; [unfold addr_limit; lia|apply align_ok_1]. Qed.

Lemma empty_denotes : denotes empty_storage_size 0 1 true.
Proof. apply make_static; [unfold addr_limit; lia|apply align_ok_1]. Qed.

Lemma storage_size_of_denotes sz al : obj_ok sz al -> denotes (storage_size_of sz al) sz al true.
Proof. intros (? & ? & ? & ?). apply make_static; [lia|by split]. Qed.

Lemma size_t_denotes : denotes (storage_size_of 8 8) 8 8 true.
Proof. apply make_static; [unfold addr_limit; lia|apply align_ok_8]. Qed.

Lemma denotes_eq r s1 a1 b1 s2 a2 b2 : denotes r s1 a1 b1 -> s1 = s2 -> a1 = a2 -> b1 = b2 -> denotes r s2 a2 b2.
Proof. by intros ? -> -> ->. Qed.

Lemma counted_denotes pre p a st e sz al n : denotes pre p a st -> denotes e sz al true -> 0 <= n ->
  plan_array n sz al (round_up p 8 + 8) <= addr_limit ->
  denotes (cat (cat pre (storage_size_of 8 8)) (arrayed e n)) (plan_array n sz al (round_up p 8 + 8))
          (Z.max a (if n =? 0 then 8 else Z.max 8 al)) false.
Proof.
  intros Hd He Hn Hlim. rewrite plan_array_split in *.
  pose proof (dn_range _ _ _ _ Hd). pose proof (dn_range _ _ _ _ He). pose proof (dn_align_ok _ _ _ _ He) as Ha.
  pose proof (align_ok_pos _ Ha). pose proof (round_up_ge p 8 ltac:(lia)).
  pose proof (round_up_ge (round_up p 8 + 8) _ (align_ok_pos _ (array_align_ok n _ Ha))).
  pose proof (array_size_nonneg n sz al ltac:(lia) ltac:(lia) ltac:(lia)).
  eapply denotes_eq; [apply cat_denotes; [apply (cat_denotes _ _ _ _ _ _ _ _ Hd size_t_denotes); lia| |]|..].
  - apply (arrayed_denotes _ _ _ _ He Hn). lia.
  - done.
  - done.
  - unfold array_align. destruct (n =? 0); lia.
  - by rewrite andb_true_r, andb_false_r.
Qed.

Lemma static_otherwise_id r sz al : denotes r sz al true -> static_otherwise_invalid r = r.
Proof. intros H. unfold static_otherwise_invalid. by destruct (denotes_valid _ _ _ _ H) as [_ ->]. Qed.

Lemma fixed_denotes pre p a st e sz al n : denotes pre p a st -> denotes e sz al true -> 0 <= n ->
  plan_array n sz al p <= addr_limit ->
  denotes (cat pre (arrayed_static e n)) (plan_array n sz al p) (Z.max a (array_align n al)) st.
Proof.
  intros Hd He Hn Hlim. rewrite plan_array_split in *.
  pose proof (dn_range _ _ _ _ Hd). pose proof (dn_range _ _ _ _ He). pose proof (dn_align_ok _ _ _ _ He) as Ha.
  pose proof (align_ok_pos _ Ha). pose proof (round_up_ge p _ (align_ok_pos _ (array_align_ok n _ Ha))).
  pose proof (array_size_nonneg n sz al ltac:(lia) ltac:(lia) ltac:(lia)).
  pose proof (cat_denotes _ _ _ _ _ _ _ _ Hd (arrayed_static_denotes _ _ _ _ He Hn ltac:(lia)) Hlim) as Hc.
  by rewrite andb_true_r in Hc.
Qed.

Lemma fixed_0_denotes pre p a st e sz al : denotes pre p a st ->
  denotes (cat pre (arrayed_static e 0)) (plan_array 0 sz al p) (Z.max a 1) st.
Proof.
  intros Hd. pose proof (dn_range _ _ _ _ Hd).
  assert (plan_array 0 sz al p = round_up p 1 + 0) as -> by (unfold plan_array; simpl; lia).
  assert (round_up p 1 = p) by (apply round_up_id; [lia|apply Z.divide_1_l]).
  eapply denotes_eq; [apply (cat_denotes _ _ _ _ _ _ _ _ Hd (arrayed_static_0 e)); lia|done..|]. by rewrite andb_true_r.
Qed.

Lemma ubound_denotes t : ty_ok t -> fits t -> forall pre p a st v,
  shaped t v -> valid t = true -> denotes pre p a st -> plan t p v <= addr_limit ->
  denotes (ubound t pre v) (plan t p v) (Z.max a (plan_align t v)) (st && static t).
Proof.
  induction t as [sz al| | |t IHt ts IHts|n t IHt|csz|c t IHt|t IHt]; intros Ht Hf pre p a st v Hsh Hv Hd Hlim;
    cbn [ubound plan plan_align static valid fits shaped] in *; pose proof (align_ok_pos _ (dn_align_ok _ _ _ _ Hd)) as Ha.
  - apply cat_denotes; [done|by apply storage_size_of_denotes|done].
  - rewrite andb_true_r, Z.max_l by lia. done.
  - rewrite andb_true_r, Z.max_l by lia. done.
  - destruct v as [| |v w|]; try done. destruct Hsh as [Hsh1 Hsh2], Ht as [Ht1 Ht2], Hf as [Hf1 Hf2].
    apply andb_prop in Hv as [Hv1 Hv2]. pose proof (plan_ge ts (plan t p v) w Ht2). rewrite Z.max_assoc, andb_assoc.
    apply IHts; try done. apply IHt; try done. lia.
  - destruct Hf as [Hf Hfit]. destruct n as [|n]; [rewrite andb_true_r; by apply fixed_0_denotes|].
    cbn [Nat.eqb orb] in *. specialize (Hfit Hv). pose proof (align_ok_pos _ (plan_align_ok t (dummy t) Ht)).
    pose proof (IHt Ht Hf _ 0 1 true _ Hsh (static_valid t Hv) empty_denotes Hfit) as He.
    rewrite Hv, Z.max_r in * by lia. cbn [andb] in He. rewrite (static_otherwise_id _ _ _ He), andb_true_r.
    apply fixed_denotes; [done|done|lia|done].
  - rewrite andb_false_r. eapply counted_denotes; [exact Hd|by apply storage_size_of_denotes|apply seq_length_nonneg|done].
  - destruct Hf as [Hf Hfit]. specialize (Hfit Hv). pose proof (align_ok_pos _ (plan_align_ok t (dummy t) Ht)).
    pose proof (IHt Ht Hf _ 0 1 true _ Hsh (static_valid t Hv) empty_denotes Hfit) as He.
    rewrite Hv, Z.max_r in * by lia. cbn [andb] in He. rewrite (static_otherwise_id _ _ _ He), andb_false_r.
    eapply counted_denotes; [exact Hd|done|apply seq_length_nonneg|done].
  - done.
Qed.

(** ** Types without a bound *)

Definition u64_sizes (r : storage_size) : Prop := is_u64 (s_size r) /\ is_u64 (s_align r).

Lemma s_size_make a b c d : s_size (make a b c d) = a /\ s_align (make a b c d) = b.
Proof. unfold make. destruct (_ && _); [done|]. by destruct (_ =? _). Qed.

Lemma u64_consts : is_u64 DYNAMIC /\ is_u64 INVALID /\ is_u64 0 /\ is_u64 1 /\ DYNAMIC < INVALID.
Proof. by split_and!. Qed.

Lemma u64_le_invalid x : is_u64 x -> x <= INVALID.
Proof. unfold is_u64. pose proof encodings. unfold addr_limit, w64_mod in *. lia. Qed.

Lemma cat_u64 r1 r2 : u64_sizes r1 -> u64_sizes r2 -> u64_sizes (cat r1 r2).
Proof.
  unfold u64_sizes, cat. intros [? ?] [? ?]. destruct (s_size_make (cat_return_size r1 r2) (Z.max (s_align r1) (s_align r2))
    (w64 (align_up (size r1) (align r2) + size r2)) (Z.max (align r1) (align r2))) as [-> ->].
  unfold cat_return_size, is_u64 in *. split; [destruct (_ || _); [lia|apply w64_range]|lia].
Qed.

Lemma cat_invalid_r r : u64_sizes r -> cat r invalid_storage_size = invalid_storage_size.
Proof.
  intros [H1 H2]. unfold cat, cat_return_size. change (s_size invalid_storage_size) with INVALID.
  change (s_align invalid_storage_size) with INVALID. change (DYNAMIC <=? INVALID) with true. rewrite orb_true_r.
  rewrite !Z.max_r by (by apply u64_le_invalid). unfold make. by rewrite Z.eqb_refl.
Qed.

Lemma cat_invalid_l r : u64_sizes r -> cat invalid_storage_size r = invalid_storage_size.
Proof.
  intros [H1 H2]. unfold cat, cat_return_size. change (s_size invalid_storage_size) with INVALID.
  change (s_align invalid_storage_size) with INVALID. change (DYNAMIC <=? INVALID) with true. cbn [orb].
  rewrite !Z.max_l by (by apply u64_le_invalid). unfold make. by rewrite Z.eqb_refl.
Qed.

Lemma arrayed_invalid n : arrayed invalid_storage_size n = invalid_storage_size.
Proof. done. Qed.

Lemma arrayed_static_invalid n : n <> 0 -> arrayed_static invalid_storage_size n = invalid_storage_size.
Proof. intros H. unfold arrayed_static. by rewrite !(proj2 (Z.eqb_neq n 0)) by done. Qed.

Lemma cat_not_static r1 r2 : DYNAMIC <= s_size r1 \/ DYNAMIC <= s_size r2 -> DYNAMIC <= s_size (cat r1 r2).
Proof.
  intros H. unfold cat. destruct (s_size_make (cat_return_size r1 r2) (Z.max (s_align r1) (s_align r2))
    (w64 (align_up (size r1) (align r2) + size r2)) (Z.max (align r1) (align r2))) as [-> _]. unfold cat_return_size.
  destruct (Z.leb_spec DYNAMIC (s_size r1)), (Z.leb_spec DYNAMIC (s_size r2)); cbn [orb]; lia.
Qed.

Lemma arrayed_not_static a n : DYNAMIC <= s_size (arrayed a n).
Proof. unfold arrayed. destruct (_ =? 1); destruct (s_size_make DYNAMIC (s_align a) 0 0); unfold make; by repeat (case_match; simpl). Qed.

Lemma static_of_not_static r : DYNAMIC <= s_size r -> static_otherwise_invalid r = invalid_storage_size.
Proof. intros H. unfold static_otherwise_invalid, is_static. by rewrite (proj2 (Z.ltb_ge _ _) H). Qed.

Lemma ubound_not_static t : forall pre v, shaped t v -> DYNAMIC <= s_size pre \/ static t = false ->
  DYNAMIC <= s_size (ubound t pre v).
Proof.
  induction t as [sz al| | |t IHt ts IHts|n t IHt|csz|c t IHt|t IHt]; intros pre v Hsh H; cbn [ubound static shaped] in *.
  - apply cat_not_static. by destruct H; [left|].
  - by destruct H.
  - by destruct H.
  - destruct v as [| |v w|]; try done. destruct Hsh as [H1 H2].
    rewrite andb_false_iff in H. destruct H as [H|[H|H]].
    + apply IHts; [done|]. left. apply IHt; [done|]. by left.
    + apply IHts; [done|]. left. apply IHt; [done|]. by right.
    + apply IHts; [done|]. by right.
  - apply cat_not_static. destruct H as [H|[H1 H2]%orb_false_iff]; [by left|]. right.
    rewrite static_of_not_static by (apply IHt; auto). apply Nat.eqb_neq in H1.
    by rewrite arrayed_static_invalid by lia.
  - apply cat_not_static. right. apply arrayed_not_static.
  - apply cat_not_static. right. apply arrayed_not_static.
  - done.
Qed.

Lemma u64_invalid : u64_sizes invalid_storage_size.
Proof. by split. Qed.

Lemma u64_arrayed_static a n : u64_sizes a -> u64_sizes (arrayed_static a n).
Proof.
  intros [H1 H2]. pose proof (w64_range). unfold arrayed_static, u64_sizes.
  match goal with |- is_u64 (s_size (make ?a ?b ?c ?d)) /\ _ => destruct (s_size_make a b c d) as [-> ->] end.
  split; repeat case_match; done.
Qed.

Lemma u64_arrayed a n : u64_sizes a -> u64_sizes (arrayed a n).
Proof.
  intros [H1 H2]. unfold arrayed, u64_sizes.
  match goal with |- is_u64 (s_size (make ?a ?b ?c ?d)) /\ _ => destruct (s_size_make a b c d) as [-> ->] end.
  split; repeat case_match; done.
Qed.

Lemma u64_obj sz al : obj_ok sz al -> u64_sizes (storage_size_of sz al).
Proof.
  intros (Hs & Hp & Hm & _). unfold u64_sizes, storage_size_of. destruct (s_size_make sz al sz al) as [-> ->].
  pose proof (pow2_pos _ Hp). unfold is_u64, w64_mod, addr_limit, align_max in *. lia.
Qed.

Lemma u64_static_otherwise r : u64_sizes r -> u64_sizes (static_otherwise_invalid r).
Proof. intros H. unfold static_otherwise_invalid. by destruct (is_static r). Qed.

Lemma u64_empty : u64_sizes empty_storage_size.
Proof. by split. Qed.

Lemma u64_size_t : u64_sizes (storage_size_of 8 8).
Proof. by split. Qed.

#[local] Hint Resolve cat_u64 u64_invalid u64_arrayed_static u64_arrayed u64_obj u64_static_otherwise u64_empty u64_size_t : layout.

Lemma ubound_u64 t : ty_ok t -> forall pre v, u64_sizes pre -> u64_sizes (ubound t pre v).
Proof.
  induction t as [sz al| | |t IHt ts IHts|n t IHt|csz|c t IHt|t IHt]; intros Ht pre v H; cbn [ubound ty_ok] in *; auto 10 with layout.
  destruct v; auto with layout. destruct Ht. auto.
Qed.
#[local] Hint Resolve ubound_u64 : layout.

Lemma ubound_of_invalid t : ty_ok t -> forall v, ubound t invalid_storage_size v = invalid_storage_size.
Proof.
  induction t as [sz al| | |t IHt ts IHts|n t IHt|csz|c t IHt|t IHt]; intros Ht v; cbn [ubound ty_ok] in *; try done.
  - apply cat_invalid_l. auto with layout.
  - destruct v; try done. destruct Ht. by rewrite IHt, IHts.
  - apply cat_invalid_l. auto 10 with layout.
  - rewrite (cat_invalid_l (storage_size_of 8 8)) by auto with layout. apply cat_invalid_l. auto with layout.
  - rewrite (cat_invalid_l (storage_size_of 8 8)) by auto with layout. apply cat_invalid_l. auto 10 with layout.
Qed.

Lemma ubound_invalid t : ty_ok t -> valid t = false -> forall pre v, u64_sizes pre -> shaped t v ->
  ubound t pre v = invalid_storage_size.
Proof.
  induction t as [sz al| | |t IHt ts IHts|n t IHt|csz|c t IHt|t IHt]; intros Ht Hv pre v Hp Hsh;
    cbn [ubound valid ty_ok shaped] in *; try done.
  - destruct v as [| |v w|]; try done. destruct Hsh, Ht as [Ht1 Ht2]. apply andb_false_iff in Hv as [Hv|Hv].
    + rewrite (IHt Ht1 Hv) by done. by apply ubound_of_invalid.
    + apply (IHts Ht2 Hv); auto with layout.
  - apply orb_false_iff in Hv as [H1 H2]. apply Nat.eqb_neq in H1.
    rewrite static_of_not_static by (apply ubound_not_static; auto). rewrite arrayed_static_invalid by lia.
    by apply cat_invalid_r.
  - rewrite static_of_not_static by (apply ubound_not_static; auto). rewrite arrayed_invalid.
    apply cat_invalid_r. auto with layout.
Qed.

(** The code's verdicts are those of the structure of the type. *)
Lemma ubound_valid t v : ty_ok t -> fits t -> shaped t v -> plan t 0 v <= addr_limit ->
  is_valid (ubound t empty_storage_size v) = valid t.
Proof.
  intros Ht Hf Hsh Hlim. destruct (valid t) eqn:Hv.
  - by eapply denotes_valid, (ubound_denotes t Ht Hf _ 0 1 true v Hsh Hv empty_denotes).
  - by rewrite (ubound_invalid t Ht Hv) by (done || apply u64_empty).
Qed.

Lemma max_align_bound l a b : a <= b -> align_ok b -> aligned_to b l -> max_align l a <= b.
Proof.
  unfold max_align. intros Hab Hb H. revert a Hab. induction H as [|it l Hi _ IH]; intros a Hab; [done|]. simpl.
  apply IH. pose proof (align_ok_pos _ Hb). pose proof (Z.divide_pos_le (it_align it) b). apply Z.divide_pos_le in Hi; lia.
Qed.

(** C16: upper bounds are sufficient.  When [ubound] of a value is valid and does
    not exceed half the address space, a bounded writer on an aligned buffer of
    exactly that many bytes serializes the value without leaving the buffer, and
    its size and alignment stay within those of the bound. *)
Theorem ubound_sufficient t v its buf m : ty_ok t -> fits t -> serialize t v = Some its -> small its ->
  is_valid (ubound t empty_storage_size v) = true -> plan t 0 v <= addr_limit ->
  let ub := ubound t empty_storage_size v in
  0 <= buf -> (align_max | buf) -> buf + size ub <= addr_limit ->
  exists w, write_items its (writer_init buf (size ub) m) = Ok w /\ w_size w <= size ub /\ w_align w <= align ub.
Proof.
  intros Ht Hf Hs Hsm Hval Hlim ub Hb Hba Hbl. pose proof (serialize_shaped _ _ _ Hs) as Hsh.
  rewrite (ubound_valid t v) in Hval by done.
  pose proof (ubound_denotes t Ht Hf _ 0 1 true v Hsh Hval empty_denotes Hlim) as Hd. fold ub in Hd.
  destruct (plan_bounds t Ht Hval v its Hs Hsm) as [Hal Hend]. specialize (Hend 0 0 (Z.le_refl 0)).
  pose proof (dn_size _ _ _ _ Hd) as Esz. pose proof (dn_align _ _ _ _ Hd) as Eal.
  pose proof (plan_align_ok t v Ht) as Hok. pose proof (align_ok_pos _ Hok).
  destruct (write_items_ok its (writer_init buf (size ub) m)) as (w & H1 & _ & _ & H2 & H3 & _).
  - by split.
  - by apply (serialize_ok t Ht v).
  - cbn. lia.
  - exists w. split; [done|]. rewrite H2, H3, Eal. cbn [writer_init w_size w_align]. split; [lia|].
    rewrite Z.max_r by lia. by apply max_align_bound; [lia|..].
Qed.

Lemma ubound_sufficient_witness :
  let t := TCons (TTriv 1 1) (TCons (TSeq true (TCons (TTriv 2 2) (TCons (TTriv 1 1) TNil))) TNil) in
  let v := VPair (VBytes [9]) (VPair (VSeq [VPair (VBytes [1; 2]) (VPair (VBytes [3]) VUnit);
                                            VPair (VBytes [4; 5]) (VPair (VBytes [6]) VUnit)]) VUnit) in
  exists its w, serialize t v = Some its /\
    write_items its (writer_init 640 (size (ubound t empty_storage_size v)) ∅) = Ok w /\
    w_size w <= size (ubound t empty_storage_size v).
Proof.
  intros t v. eexists. match goal with |- exists _, serialize t v = Some ?i /\ _ => set (its := i) end.
  assert (Hi : serialize t v = Some its) by (vm_compute; reflexivity).
  assert (Ht : ty_ok t).
  { cbn. unfold obj_ok, addr_limit, align_max. split_and!; try done; try (by exists 0); try (by exists 1); try lia;
      (apply Z.divide_1_l || apply Z.divide_refl). }
  destruct (ubound_sufficient t v its 640 ∅) as (w & H1 & H2 & _).
  - exact Ht.
  - cbn. by split_and!.
  - exact Hi.
  - repeat constructor; vm_compute; discriminate.
  - vm_compute. reflexivity.
  - vm_compute. discriminate.
  - done.
  - by exists 10.
  - vm_compute. discriminate.
  - exists w. split_and!; done.
Defined.

End Ubound.

(** * Skipping *)

Module Skip.
Import Ubound.

#[local] Hint Resolve align_ok_1 align_ok_8 align_ok_max align_ok_pos align_ok_divide round_up_divide
  shaped_dummy Z.divide_1_l plan_align_ok : layout.

(** Types whose bound is the extent whatever the position: no sequence of
    elements that are made of several objects. *)
Fixpoint exact (t : ty) : bool :=
  match t with
  | TTriv _ _ | TEmpty | TNil => true
  | TCons t ts => exact t && exact ts
  | TArray n t => Nat.eqb n 0 || is_triv t
  | TStr _ | TSeq _ _ | TFwd _ => false
  end.

(** Types whose sequences have exact elements, or elements that are skipped one
    by one. *)
Fixpoint skippable (t : ty) : bool :=
  match t with
  | TTriv _ _ | TEmpty | TNil | TStr _ => true
  | TCons t ts => skippable t && skippable ts
  | TArray _ t | TSeq _ t | TFwd t => skippable t && (negb (static t) || exact t)
  end.

Lemma exact_static t : exact t = true -> static t = true.
Proof.
  induction t as [| | |t IHt ts IHts|n t IHt| | |]; simpl; try done.
  - intros [H1 H2]%andb_prop. by rewrite IHt, IHts.
  - intros [H|H]%orb_prop; [by rewrite H|]. by destruct t; rewrite ?orb_true_r.
Qed.

Lemma plan_array_shift n sz al q p : 0 < al -> (al | q) -> plan_array n sz al (q + p) = q + plan_array n sz al p.
Proof.
  intros Ha Hd. unfold plan_array. rewrite round_up_shift; [lia| |]; destruct (n =? 0); try lia; [apply Z.divide_1_l|done].
Qed.

Lemma plan_shift t : ty_ok t -> exact t = true -> forall p q v, shaped t v -> (plan_align t v | q) ->
  plan t (q + p) v = q + plan t p v.
Proof.
  induction t as [sz al| | |t IHt ts IHts|n t IHt| | |]; intros Ht He p q v Hsh Hd;
    cbn [plan plan_align exact shaped ty_ok] in *; try done.
  - rewrite round_up_shift; [lia|apply pow2_pos, Ht|done].
  - destruct v as [| |v w|]; try done. destruct Ht as [Ht1 Ht2], Hsh. apply andb_prop in He as [He1 He2].
    pose proof (plan_align_ok t v Ht1). pose proof (plan_align_ok ts w Ht2).
    rewrite (IHt Ht1 He1), (IHts Ht2 He2); [done|done| |done|]; (etrans; [|exact Hd]); apply align_ok_divide; auto with layout; lia.
  - destruct (Nat.eqb_spec n 0) as [->|]; [|apply plan_array_shift; auto with layout].
    unfold plan_array. simpl. rewrite (round_up_shift p q 1); [lia|lia|apply Z.divide_1_l].
Qed.

(** Wherever an object of an exact type starts, it ends at the same place modulo
    its alignment. *)
Lemma plan_steady t : ty_ok t -> exact t = true -> forall p v, shaped t v ->
  (plan_align t v | plan t p v - plan t 0 v).
Proof.
  induction t as [sz al| | |t IHt ts IHts|n t IHt| | |]; intros Ht He p v Hsh;
    cbn [plan plan_align exact shaped ty_ok] in *; try done; try apply Z.divide_1_l.
  - destruct (round_up_divide p al) as [a ->], (round_up_divide 0 al) as [b ->]. exists (a - b). lia.
  - destruct v as [| |v w|]; try done. destruct Ht as [Ht1 Ht2], Hsh as [Hs1 Hs2]. apply andb_prop in He as [He1 He2].
    pose proof (plan_align_ok t v Ht1) as A1. pose proof (plan_align_ok ts w Ht2) as A2.
    specialize (IHt Ht1 He1 p v Hs1). specialize (IHts Ht2 He2).
    destruct (Z.max_spec (plan_align t v) (plan_align ts w)) as [[_ ->]|[Hle ->]].
    + replace (plan ts (plan t p v) w - plan ts (plan t 0 v) w)
        with (plan ts (plan t p v) w - plan ts 0 w - (plan ts (plan t 0 v) w - plan ts 0 w)) by lia.
      apply Z.divide_sub_r; by apply IHts.
    + replace (plan t p v) with ((plan t p v - plan t 0 v) + plan t 0 v) at 1 by lia.
      rewrite (plan_shift ts Ht2 He2); [|done|etrans; [|exact IHt]; by apply align_ok_divide].
      by rewrite Z.add_simpl_r.
  - destruct (Nat.eqb_spec n 0) as [->|Hn]; [apply Z.divide_1_l|].
    unfold plan_array. destruct (Z.eqb_spec (Z.of_nat n) 0); [lia|].
    destruct (round_up_divide p (plan_align t (dummy t))) as [a ->], (round_up_divide 0 (plan_align t (dummy t))) as [b ->].
    exists (a - b). lia.
Qed.

Lemma plan_mono t : ty_ok t -> forall p q v, p <= q -> plan t p v <= plan t q v.
Proof.
  assert (Hr : forall p q a, 0 < a -> p <= q -> round_up p a <= round_up q a) by (intros; by apply round_up_mono).
  assert (Hm : forall n sz al p q, 0 < al -> p <= q -> plan_array n sz al p <= plan_array n sz al q).
  { intros n sz al p q Ha H. unfold plan_array. pose proof (Hr p q (if n =? 0 then 1 else al)). destruct (n =? 0); lia. }
  induction t as [sz al| | |t IHt ts IHts|n t IHt|csz|c t IHt|t IHt]; intros Ht p q v Hpq; cbn [plan ty_ok] in *; try done.
  - pose proof (Hr p q al (pow2_pos _ (proj1 (proj2 Ht)))). lia.
  - destruct v; try done. destruct Ht. auto.
  - apply Hm; auto with layout.
  - apply Hm; [apply pow2_pos, Ht|]. pose proof (Hr p q 8). lia.
  - apply Hm; [auto with layout|]. pose proof (Hr p q 8). lia.
Qed.

(** The distance between consecutive elements. *)
Definition stride (t : ty) : Z := plan t (plan t 0 (dummy t)) (dummy t) - plan t 0 (dummy t).

Lemma plan_stride t p : ty_ok t -> exact t = true ->
  plan t (plan t p (dummy t)) (dummy t) = plan t p (dummy t) + stride t.
Proof.
  intros Ht He. pose proof (plan_steady t Ht He p (dummy t) (shaped_dummy t)) as Hd.
  replace (plan t p (dummy t)) with ((plan t p (dummy t) - plan t 0 (dummy t)) + plan t 0 (dummy t)) at 1 by lia.
  rewrite plan_shift by (done || apply shaped_dummy). unfold stride. lia.
Qed.

(** [skip_sequence] computes that distance. *)
Lemma static_ubound_denotes t : ty_ok t -> fits t -> static t = true -> plan t 0 (dummy t) <= addr_limit ->
  denotes (static_ubound t) (plan t 0 (dummy t)) (plan_align t (dummy t)) true.
Proof.
  intros Ht Hf Hs Hlim. unfold static_ubound.
  pose proof (ubound_denotes t Ht Hf _ 0 1 true _ (shaped_dummy t) (static_valid t Hs) empty_denotes Hlim) as He.
  pose proof (align_ok_pos _ (plan_align_ok t (dummy t) Ht)). rewrite Hs, Z.max_r in He by lia. cbn [andb] in He.
  by rewrite (static_otherwise_id _ _ _ He).
Qed.

Lemma skip_delta_stride t : ty_ok t -> fits t -> exact t = true -> 
  plan t (plan t 0 (dummy t)) (dummy t) <= addr_limit -> skip_delta t = stride t.
Proof.
  intros Ht Hf He Hlim. pose proof (exact_static t He) as Hs.
  pose proof (plan_ge t 0 (dummy t) Ht). pose proof (plan_ge t (plan t 0 (dummy t)) (dummy t) Ht).
  pose proof (static_ubound_denotes t Ht Hf Hs ltac:(lia)) as H1.
  pose proof (ubound_denotes t Ht Hf _ _ _ _ _ (shaped_dummy t) (static_valid t Hs) H1 Hlim) as H2.
  unfold skip_delta. rewrite (dn_static _ _ _ _ H1), (dn_static _ _ _ _ H2), Hs. cbn [andb].
  apply w64_limit. unfold stride. lia.
Qed.

(** Exact types end where their plan says. *)
Lemma exact_end t : ty_ok t -> exact t = true -> forall v its p, serialize t v = Some its -> small its -> 0 <= p ->
  end_of p its = plan t p v.
Proof.
  induction t as [sz al| | |t IHt ts IHts|n t IHt| | |]; intros Ht He v its p H Hs Hp; try done;
    destruct v as [b| |v w|l]; try done; cbn [serialize] in H.
  - by apply bind_Some in H as (x & Hx & [= <-]).
  - by injection H as <-.
  - by injection H as <-.
  - apply bind_Some in H as (a & Ha & H). apply bind_Some in H as (b & Hb & [= <-]).
    apply Forall_app in Hs as [Hs1 Hs2]. destruct Ht as [Ht1 Ht2]. apply andb_prop in He as [He1 He2].
    rewrite end_of_app, (IHt Ht1 He1 v a p Ha Hs1 Hp). cbn [plan].
    apply (IHts Ht2 He2 w b); try done. pose proof (plan_ge t p v Ht1). lia.
  - destruct (Nat.eqb_spec (length l) n) as [<-|]; [|done]. cbn [exact plan] in *.
    apply write_sequence_cases in H as [(sz & al & bs & -> & _ & -> & Hbs & ->)|(itss & H & -> & Hc)].
    + rewrite length_map. apply Forall_cons in Hs as [Hs _]. cbn [it_bytes bulk_item] in Hs.
      rewrite (concat_length _ _ Hbs) in Hs. cbn [ty_ok] in Ht.
      destruct (arrayed_obj sz al _ Ht (Nat2Z.is_nonneg (length bs)) Hs) as [E1 E2].
      unfold end_of, plan_array. cbn [fold_left plan plan_align]. unfold bulk_item, extent. cbn [it_size it_align].
      destruct Ht as (_ & Ha & _ & Hd). rewrite E1, E2, (round_up_id 0) by (apply Z.divide_0_r || by apply pow2_pos).
      rewrite Z.add_0_l, (round_up_id sz) by (done || by apply pow2_pos).
      destruct (Z.eqb_spec (Z.of_nat (length bs)) 1); lia.
    + destruct Hc as [Hc|?]; [|done]. rewrite Hc, orb_false_r in He. apply Nat.eqb_eq in He.
      destruct l; [|done]. inversion H; subst. unfold end_of, plan_array. simpl.
      rewrite round_up_id by (lia || apply Z.divide_1_l). lia.
Qed.

Section skip.
Context (m : gmap Z Z) (base : Z) (base_nonneg : 0 <= base) (base_aligned : (align_max | base)).

(** [f] moves over the items of an element. *)
Definition skips (f : Z -> res Z) (its : list item) : Prop :=
  forall p, 0 <= p -> Forall item_ok its -> base + end_of p its <= addr_limit -> holds m base p its ->
  f (base + p) = Ok (base + end_of p its).

Lemma skip_n_ok f itss p : Forall (skips f) itss -> 0 <= p -> Forall item_ok (concat itss) ->
  base + end_of p (concat itss) <= addr_limit -> holds m base p (concat itss) ->
  skip_n f (length itss) (base + p) = Ok (base + end_of p (concat itss)).
Proof.
  intros H. revert p. induction H as [|its itss Hi _ IH]; intros p Hp Hok Hlim Hh; [done|].
  cbn [concat length skip_n] in *. apply Forall_app in Hok as [Hok1 Hok2]. apply holds_app in Hh as [Hh1 Hh2].
  rewrite end_of_app in *. pose proof (end_of_ge p _ Hok1). pose proof (end_of_ge (end_of p its) _ Hok2).
  rewrite Hi by (done || lia). mcbn. apply IH; done || lia.
Qed.

(** Elements of an exact type, once one is there. *)
Lemma rest_exact t l itss q : ty_ok t -> exact t = true -> 0 <= q ->
  Forall2 (fun v i => serialize t v = Some i /\ small i) l itss ->
  end_of (plan t q (dummy t)) (concat itss) = plan t q (dummy t) + Z.of_nat (length itss) * stride t.
Proof.
  intros Ht He Hq H. revert q Hq. induction H as [|v its l itss [Hv Hs] _ IH]; intros q Hq; [cbn [concat length]; unfold end_of; simpl; lia|].
  cbn [concat length]. pose proof (plan_ge t q (dummy t) Ht).
  rewrite end_of_app, (exact_end t Ht He v its) by (done || lia).
  rewrite (plan_static t v (dummy t)) by (apply shaped_dummy || by apply exact_static || by apply (serialize_shaped _ _ its)).
  rewrite IH by lia. rewrite (plan_stride t q Ht He). lia.
Qed.

Lemma skip_sequence_ok t l itss f p : ty_ok t -> fits t -> (static t = true -> exact t = true) ->
  Forall2 (fun v i => serialize t v = Some i /\ small i) l itss -> Forall (skips f) itss ->
  0 <= p -> Forall item_ok (concat itss) -> base + end_of p (concat itss) <= addr_limit ->
  holds m base p (concat itss) ->
  skip_sequence f t (Z.of_nat (length l)) (base + p) = Ok (base + end_of p (concat itss)).
Proof.
  intros Ht Hf He H Hsk Hp Hok Hlim Hh. unfold skip_sequence.
  destruct H as [|v its l itss [Hv Hs] H]; [done|]. pose proof (Forall2_length _ _ _ H) as Hlen.
  destruct (Z.eqb_spec (Z.of_nat (length (v :: l))) 0) as [E|_]; [simpl in E; lia|].
  replace (Z.of_nat (length (v :: l)) - 1) with (Z.of_nat (length itss)) by (simpl length; lia).
  apply Forall_cons in Hsk as [Hsk1 Hsk2]. cbn [concat] in *. rewrite end_of_app in *.
  apply Forall_app in Hok as [Hok1 Hok2]. apply holds_app in Hh as [Hh1 Hh2].
  pose proof (end_of_ge p _ Hok1). pose proof (end_of_ge (end_of p its) _ Hok2).
  rewrite Hsk1 by (done || lia). mcbn. destruct (static t) eqn:Hst.
  - specialize (He eq_refl). rewrite (exact_end t Ht He v its p) in * by done.
    rewrite (plan_static t v (dummy t)) in * by (done || apply shaped_dummy || by apply (serialize_shaped _ _ its)).
    rewrite (rest_exact t l itss p Ht He Hp H) in *. pose proof (plan_ge t 0 (dummy t) Ht).
    pose proof (plan_mono t Ht 0 p (dummy t) Hp). pose proof (plan_ge t (plan t 0 (dummy t)) (dummy t) Ht).
    pose proof (static_ubound_denotes t Ht Hf Hst ltac:(lia)) as Hd. destruct (denotes_valid _ _ _ _ Hd) as [-> _].
    f_equal. unfold jump. destruct itss as [|i itss].
    + cbn [length]. change (Z.of_nat 0) with 0. rewrite !Z.mul_0_l, Z.add_0_r. change (w64 0) with 0. rewrite Z.add_0_r. apply w64_limit. lia.
    + assert (0 <= stride t) by (unfold stride; lia).
      assert (stride t <= Z.of_nat (length (i :: itss)) * stride t) by (cbn [length]; nia).
      rewrite (skip_delta_stride t Ht Hf He) by (unfold stride in *; lia).
      rewrite (w64_limit (Z.of_nat _ * _)) by lia. rewrite w64_limit by lia. lia.
  - unfold static_ubound. rewrite static_of_not_static by (apply ubound_not_static; auto using shaped_dummy).
    change (is_valid invalid_storage_size) with false. cbn iota. rewrite Nat2Z.id.
    apply skip_n_ok; done || lia.
Qed.

(** Sequences written in bulk are skipped as their elements one after the other. *)
Lemma sequence_items t c l its p : ty_ok t -> write_sequence (serialize t) t c l = Some its -> small its -> 0 <= p ->
  Forall item_ok its -> holds m base p its ->
  exists itss, Forall2 (fun v i => serialize t v = Some i /\ small i) l itss /\ Forall item_ok (concat itss)
    /\ end_of p its = end_of p (concat itss) /\ holds m base p (concat itss).
Proof.
  intros Ht H Hs Hp Hok Hh.
  apply write_sequence_cases in H as [(sz & al & bs & -> & _ & -> & Hbs & ->)|(itss & H & -> & _)].
  - apply Forall_cons in Hs as [Hs _]. cbn [it_bytes bulk_item] in Hs.
    destruct (bulk_split m base sz al bs p Ht Hbs Hs Hp) as [E Hsplit].
    exists (map (fun b => [mk_item sz al b]) bs). rewrite concat_singles. split_and!; auto.
    + destruct Ht as (Hsz & _ & _). apply Forall2_fmap. cbn [serialize triv_bytes].
      clear - Hbs Hsz. induction Hbs as [|b bs Hb _ IH]; constructor; [|done]. rewrite (proj2 (Z.eqb_eq _ _) Hb).
      split; [done|]. constructor; [|constructor]. cbn [it_bytes]. lia.
    + apply Forall_map. eapply Forall_impl; [exact Hbs|]. intros b Hb. by apply obj_item_ok.
    + by apply Hsplit.
  - exists itss. by apply forall2_small in H.
Qed.

Lemma read_size_t_at n its p : is_u64 n -> 0 <= p -> Forall item_ok (size_t_item n :: its) ->
  base + end_of p (size_t_item n :: its) <= addr_limit -> holds m base p (size_t_item n :: its) ->
  read_size_t m (base + p) = Ok (n, base + extent p (size_t_item n)) /\ p <= extent p (size_t_item n) /\
  base + end_of (extent p (size_t_item n)) its <= addr_limit /\ holds m base (extent p (size_t_item n)) its.
Proof.
  intros Hn Hp Hok Hlim Hh. apply Forall_cons in Hok as [Hok0 Hok]. apply holds_cons_app in Hh as [Hh0 Hh].
  change (end_of p (?x :: its)) with (end_of (extent p x) its) in *.
  pose proof (end_of_ge (extent p (size_t_item n)) its Hok). pose proof (extent_ge p _ Hok0).
  split_and!; try done. by apply read_size_t_ok; [..|lia|].
Qed.

Lemma skip_ok t : ty_ok t -> fits t -> skippable t = true -> forall v its, serialize t v = Some its -> small its ->
  skips (skip t m) its.
Proof.
  assert (Hseq : forall t c l its p, (ty_ok t -> fits t -> skippable t = true -> forall v its, serialize t v = Some its ->
      small its -> skips (skip t m) its) -> ty_ok t -> fits t -> skippable t && (negb (static t) || exact t) = true ->
      write_sequence (serialize t) t c l = Some its -> small its -> 0 <= p -> Forall item_ok its ->
      base + end_of p its <= addr_limit -> holds m base p its ->
      skip_sequence (skip t m) t (Z.of_nat (length l)) (base + p) = Ok (base + end_of p its)).
  { clear t. intros t c l its p IH Ht Hf [Hk1 Hk2]%andb_prop H Hs Hp Hok Hlim Hh.
    destruct (sequence_items t c l its p Ht H Hs Hp Hok Hh) as (itss & H1 & H2 & E & H3). rewrite E in *.
    apply (skip_sequence_ok t l itss); try done.
    - intros Hst. by rewrite Hst in Hk2.
    - clear - IH H1 Ht Hf Hk1. induction H1 as [|v i l itss [Hv Hi] _ IHl]; constructor; [by apply (IH Ht Hf Hk1 v)|done]. }
  induction t as [sz al| | |t IHt ts IHts|n t IHt|csz|c t IHt|t IHt]; intros Ht Hf Hk v its H Hs p Hp Hok Hlim Hh;
    destruct v as [b| |v w|l]; try done; cbn [serialize] in H; cbn [skip skippable ty_ok fits] in *.
  - apply bind_Some in H as (x & Hx & [= <-]). apply Forall_cons in Hok as [(Ha & Hm & Hz) _]. cbn in Ha, Hm, Hz.
    unfold end_of, extent in *. cbn in Hlim. rewrite (unplace_ok base) by (done || lia). done.
  - by injection H as <-.
  - by injection H as <-.
  - apply bind_Some in H as (a & Ha & H). apply bind_Some in H as (b & Hb & [= <-]).
    apply Forall_app in Hs as [Hs1 Hs2]. apply Forall_app in Hok as [Hok1 Hok2]. apply andb_prop in Hk as [Hk1 Hk2].
    apply holds_app in Hh as [Hh1 Hh2]. rewrite end_of_app in *. destruct Ht as [Ht1 Ht2], Hf as [Hf1 Hf2].
    pose proof (end_of_ge p _ Hok1). pose proof (end_of_ge (end_of p a) _ Hok2).
    rewrite (IHt Ht1 Hf1 Hk1 v a Ha Hs1 p) by (done || lia). mcbn. apply (IHts Ht2 Hf2 Hk2 w b Hb Hs2); done || lia.
  - destruct (Nat.eqb_spec (length l) n) as [<-|]; [|done]. destruct Hf as [Hf _].
    by apply (Hseq t true).
  - destruct (Z.ltb_spec (Z.of_nat (length l)) w64_mod) as [Hn|]; [|done].
    apply bind_Some in H as (bs & Hbs & [= <-]). apply triv_list in Hbs as [-> Hbs]. rewrite length_map in *.
    fold (bulk_item csz csz bs) in *. apply Forall_cons in Hs as [_ Hs].
    assert (Hu : is_u64 (Z.of_nat (length bs))) by (unfold is_u64; lia).
    destruct (read_size_t_at _ _ p Hu Hp Hok Hlim Hh) as (-> & Hge & Hlim' & _). mcbn.
    apply Forall_cons in Hok as [_ Hok]. apply Forall_cons in Hok as [(Ha & Hm & Hz) _].
    unfold end_of in Hlim'. cbn [fold_left] in Hlim'. unfold extent at 1 in Hlim'.
    unfold bulk_item in *. cbn [it_size it_align it_bytes] in Ha, Hm, Hz, Hlim'.
    rewrite (unplace_ok base) by (done || lia). done.
  - destruct (Z.ltb_spec (Z.of_nat (length l)) w64_mod) as [Hn|]; [|done].
    apply bind_Some in H as (i & Hi & [= <-]). apply Forall_cons in Hs as [_ Hs]. destruct Hf as [Hf _].
    assert (Hu : is_u64 (Z.of_nat (length l))) by (unfold is_u64; lia).
    destruct (read_size_t_at _ _ p Hu Hp Hok Hlim Hh) as (-> & Hge & Hlim' & Hh'). mcbn.
    apply Forall_cons in Hok as [_ Hok]. apply (Hseq t c l i); done || lia.
  - destruct (Z.ltb_spec (Z.of_nat (length l)) w64_mod) as [Hn|]; [|done].
    apply bind_Some in H as (i & Hi & [= <-]). apply Forall_cons in Hs as [_ Hs]. destruct Hf as [Hf _].
    assert (Hu : is_u64 (Z.of_nat (length l))) by (unfold is_u64; lia).
    destruct (read_size_t_at _ _ p Hu Hp Hok Hlim Hh) as (-> & Hge & Hlim' & Hh'). mcbn.
    apply Forall_cons in Hok as [_ Hok]. apply (Hseq t false l i); done || lia.
Qed.

End skip.

(** Skipping.  For types whose sequences have exact or unbounded elements,
    skipping what the bounded writer has written moves the reader's head to the
    writer's end, where deserialization would leave it. *)
Theorem skip_correct t v its w : ty_ok t -> fits t -> skippable t = true -> serialize t v = Some its -> small its ->
  writer_ok w -> end_of (w_size w) its <= w_cap w ->
  exists w', write_items its w = Ok w' /\ skip t (w_mem w') (w_buf w + w_size w) = Ok (w_buf w + w_size w').
Proof.
  intros Ht Hf Hk Hs Hsm Hw Hend. pose proof (serialize_ok t Ht v its Hs Hsm) as Hok.
  destruct (write_items_ok its w Hw Hok Hend) as (w' & -> & _ & _ & Hsz & _ & Hh & _).
  exists w'. rewrite Hsz. split; [done|]. destruct Hw as [W1 W2 W3 W4].
  apply (skip_ok (w_mem w') (w_buf w) W1 W2 t Ht Hf Hk v its Hs Hsm); try done. lia.
Qed.

Lemma skip_correct_witness :
  exists its w', serialize demo_ty demo_val = Some its /\ write_items its (writer_init 640 64 ∅) = Ok w'
    /\ skip demo_ty (w_mem w') 640 = Ok (640 + w_size w').
Proof.
  eexists. match goal with |- exists _, _ = Some ?i /\ _ => set (its := i) end.
  assert (Hi : serialize demo_ty demo_val = Some its) by (vm_compute; reflexivity).
  destruct (skip_correct demo_ty demo_val its (writer_init 640 64 ∅)) as (w' & H1 & H2).
  - cbn. unfold obj_ok, addr_limit, align_max. split_and!; try done; try (by exists 0); try (by exists 1); try lia;
      (apply Z.divide_1_l || apply Z.divide_refl).
  - cbn. by split_and!.
  - reflexivity.
  - exact Hi.
  - repeat constructor; vm_compute; discriminate.
  - split; cbn; try done. by exists 10.
  - vm_compute. discriminate.
  - exists w'. split_and!; done.
Defined.

(** A class of fields [uint8_t, uint16_t, uint8_t], and one of its values. *)
Definition s3 : ty := TCons (TTriv 1 1) (TCons (TTriv 2 2) (TCons (TTriv 1 1) TNil)).
Definition s3_val (a b c d : Z) : val := VPair (VBytes [a]) (VPair (VBytes [b; c]) (VPair (VBytes [d]) VUnit)).

(** The bound of an array of composite objects is not exact, so skipping a
    sequence of such arrays overshoots.  For a vector of three arrays of two
    objects with fields of one, two and one bytes, deserialization ends at the
    end of what was written, 8 bytes before the place skipping leads to. *)
Theorem skip_array_elements_overshoots :
  let t := TSeq true (TArray 2 s3) in
  let v := VSeq (repeat (VSeq [s3_val 1 2 3 4; s3_val 5 6 7 8]) 3) in
  exists its w', serialize t v = Some its /\ write_items its (writer_init 640 64 ∅) = Ok w' /\ w_size w' = 33
    /\ deserialize t (w_mem w') 640 = Ok (v, 673) /\ skip t (w_mem w') 640 = Ok 681.
Proof.
  intros t v. set (its := match serialize t v with Some i => i | None => [] end).
  exists its, (match write_items its (writer_init 640 64 ∅) with Ok w => w | _ => writer_init 0 0 ∅ end).
  split_and!; vm_compute; reflexivity.
Qed.

End Skip.
