(* ===== verification/SerializationWriter.v ===== *)
(** The unbounded writer of [src/serialization.hpp] and [src/serialization.cpp]:
    a chain of hunks of memory that grows as objects are placed, and its
    compaction into one buffer.

    [Hunks] holds the state and the operations; an allocation returns an address
    given by a parameter, for which only what [posix_memalign] documents is
    assumed.  [Refinement] shows that what compaction leaves is what the bounded
    writer would have written, so everything of [Serialization.v] applies, for
    sequences whose elements need an alignment of at most 8, and that sequences
    of elements aligned to 16 can overrun a hunk. *)
From S2P Require Import Prelude Serialization SerializationBounds.
Import StorageSize Layout Traits.

Module Hunks.

Definition hunk_size_small : Z := 512.
Definition hunk_size_large : Z := 8192.

(** [sizeof] and [alignof] of [hunk_footer]: three words. *)
Definition sizeof_footer : Z := 24.
Definition alignof_footer : Z := 8.

(** A hunk: its first byte, its footer, and the [size0] the footer records.  The
    chain from [head_] to [tail_] is a list. *)
Record hunk := mk_hunk { front : Z; footer : Z; size0 : Z }.

Record writer := mk_writer {
  base_ : Z; edge_ : Z; size_ : Z; align_ : Z; chain : list hunk; mem : gmap Z Z
}.

Section ops.
(** The address [posix_memalign] returns, given the blocks in use. *)
Context (posix_memalign : list (Z * Z) -> Z -> Z -> option Z).

(** The blocks the hunks of a chain occupy, footers included. *)
Definition blocks (l : list hunk) : list (Z * Z) :=
  map (fun h => (front h, footer h + sizeof_footer)) l.

Definition alloc_aligned (used : list (Z * Z)) (size align : Z) : res Z :=
  _ ← assert_that (negb (align =? 0) && (Z.land align (w64 (align - 1)) =? 0));
  let align := w64 (Z.lor (align - 1) 7 + 1) in
  let size := align_up size align in
  match posix_memalign used align size with Some p => Ok p | None => Refused end.

(** The constructor. *)
Definition init (buf cap : Z) (m : gmap Z Z) : res writer :=
  let edge := w64 (Z.land cap (w64 (- alignof_footer)) - sizeof_footer) in
  _ ← assert_that (sizeof_footer <=? cap);
  _ ← assert_that (is_aligned buf align_max);
  Ok (mk_writer buf edge 0 1 [mk_hunk buf (w64 (buf + edge)) 0] m).

Definition contained_in_initial (w : writer) : bool := Nat.eqb (length (chain w)) 1.

(** [size0 & -align_max] *)
Definition floor_max (x : Z) : Z := Z.land x (w64 (- align_max)).

Definition hunk_sz (size0 size1 : Z) : Z :=
  let inc := w64 (size1 - floor_max size0) in
  if (size1 <=? hunk_size_large - sizeof_footer) && (inc <=? hunk_size_small - sizeof_footer) then hunk_size_small
  else if inc <=? hunk_size_large - sizeof_footer then hunk_size_large
  else align_up (w64 (inc + sizeof_footer)) hunk_size_large.

Definition grow (size0 size1 : Z) (w : writer) : res writer :=
  let sz := hunk_sz size0 size1 in
  p ← alloc_aligned (blocks (chain w)) sz align_max;
  let h := mk_hunk p (w64 (p + sz - sizeof_footer)) size0 in
  let edge := w64 (floor_max size0 + sz - sizeof_footer) in
  let base := w64 (p - floor_max size0) in
  _ ← assert_that (w64 (base + edge) =? footer h);
  _ ← assert_that (size1 <=? edge);
  Ok (mk_writer base edge (size_ w) (align_ w) (chain w ++ [h]) (mem w)).

Definition place (obj_size obj_align : Z) (w : writer) : res (Z * writer) :=
  let size0 := align_up (size_ w) obj_align in
  let size1 := w64 (size0 + obj_size) in
  let align1 := if align_ w <? obj_align then obj_align else align_ w in
  w ← (if edge_ w <? size1 then grow size0 size1 w else Ok w);
  Ok (w64 (base_ w + size0), mk_writer (base_ w) (edge_ w) size1 align1 (chain w) (mem w)).

(** Storing bytes is defined between the front and the footer of a hunk. *)
Definition in_hunk (spot n : Z) (h : hunk) : bool := (front h <=? spot) && (spot + n <=? footer h).

Definition store (spot : Z) (l : list Z) (w : writer) : res writer :=
  if Nat.eqb (length l) 0 || existsb (in_hunk spot (Z.of_nat (length l))) (chain w)
  then Ok (mk_writer (base_ w) (edge_ w) (size_ w) (align_ w) (chain w) (write_at (mem w) spot l))
  else Undef.

Definition write_item (it : item) (w : writer) : res writer :=
  '(spot, w) ← place (it_size it) (it_align it) w; store spot (it_bytes it) w.

Fixpoint write_items (l : list item) (w : writer) : res writer :=
  match l with [] => Ok w | it :: l => w ← write_item it w; write_items l w end.

(** The bounded writer on top of the current hunk: its placements, and stores
    into the hunks. *)
Definition bounded_item (it : item) (w : writer) : res writer :=
  _ ← assert_that (is_aligned (base_ w) (it_align it));
  let size := align_up (size_ w) (it_align it) in
  store (w64 (base_ w + size)) (it_bytes it)
    (mk_writer (base_ w) (edge_ w) (w64 (size + it_size it))
               (if align_ w <? it_align it then it_align it else align_ w) (chain w) (mem w)).

Fixpoint bounded_items (l : list item) (w : writer) : res writer :=
  match l with [] => Ok w | it :: l => w ← bounded_item it w; bounded_items l w end.

(** [write_elts_bounded_] for elements that are copied as they are ... *)
Definition write_elts_trivial (sz al : Z) (bs : list (list Z)) (w : writer) : res writer :=
  let n := Z.of_nat (length bs) in
  let alignof_T := if n =? 0 then 1 else al in
  let size0 := align_up (size_ w) alignof_T in
  w ← store (w64 (base_ w + size0)) (concat bs) w;
  Ok (mk_writer (base_ w) (edge_ w) (w64 (size0 + n * sz))
                (if align_ w <? alignof_T then alignof_T else align_ w) (chain w) (mem w)).

(** ... and for the others. *)
Definition write_elts (l : list (list item)) (w : writer) : res writer := bounded_items (concat l) w.

(** [write_sequence_] for elements with a bound of size [S] and alignment [A] and
    iterators that tell their distance; returns what the code returns. *)
Definition elt_size (S A : Z) : Z := w64 (S + (if S mod A =? 0 then 0 else A - S mod A)).

Definition write_sequence_ {X} (elts : list X -> writer -> res writer) (S A : Z) (l : list X) (w : writer)
    : res (Z * writer) :=
  let n := Z.of_nat (length l) in
  let size0 := align_up (size_ w) A in
  let es := elt_size S A in
  let n0 := if es =? 0 then n else w64 (edge_ w - size0) / es in
  let n0 := if n <? n0 then n else n0 in
  w ← elts (take (Z.to_nat n0) l) w;
  let n := n - n0 in
  if n =? 0 then Ok (n, w)
  else
    let size1 := w64 (size_ w + w64 (n * es)) in
    w ← grow (size_ w) size1 w;
    w ← elts (drop (Z.to_nat n0) l) w;
    Ok (n, w).

(** ** Compaction *)

(** [memcpy], of bytes that may be uninitialized. *)
Fixpoint copy (m : gmap Z Z) (dst src : Z) (n : nat) : gmap Z Z :=
  match n with
  | O => m
  | Datatypes.S n =>
      let m := match m !! src with Some b => <[dst := b]> m | None => delete dst m end in
      copy m (dst + 1) (src + 1) n
  end.

(** The memory afterwards and the hunks freed on the way. *)
Fixpoint compact_loop (buf size_end size0' : Z) (is_head : bool) (l : list hunk) (m : gmap Z Z) : gmap Z Z * list Z :=
  match l with
  | [] => (m, [])
  | h :: l =>
      let size1 := match l with [] => size_end | h1 :: _ => size0 h1 end in
      let n := Z.min (w64 (size1 - size0')) (w64 (footer h - front h - size0' mod align_max)) in
      let m := copy m (buf + size0') (front h + size0' mod align_max) (Z.to_nat n) in
      let '(m, freed) := compact_loop buf size_end size1 false l m in
      (m, if is_head then freed else front h :: freed)
  end.

Definition compact_and_invalidate (buf : Z) (w : writer) : writer * list Z :=
  let '(m, freed) := compact_loop buf (size_ w) 0 true (chain w) (mem w) in
  (mk_writer 0 0 0 1 [] m, freed).

(** ** The calls a serialization makes

    [serialize] on the unbounded writer, by type: single objects, sequences of
    elements that are copied, sequences of elements with a static bound, and
    sequences of others, which are serialized one at a time. *)

Inductive op :=
| One (it : item)
| SeqTriv (sz al : Z) (bs : list (list Z))
| Seq (U A : Z) (xs : list (list item)).

Definition exec (o : op) (w : writer) : res writer :=
  match o with
  | One it => write_item it w
  | SeqTriv sz al bs => '(_, w) ← write_sequence_ (write_elts_trivial sz al) sz al bs w; Ok w
  | Seq U A xs => '(_, w) ← write_sequence_ write_elts U A xs w; Ok w
  end.

Fixpoint run (l : list op) (w : writer) : res writer :=
  match l with [] => Ok w | o :: l => w ← exec o w; run l w end.

End ops.

Definition each {A} (f : val -> option (list A)) (l : list val) : option (list A) :=
  xs ← mapM f l; Some (concat xs).

Definition sequence_ops (ser : val -> option (list item)) (f : val -> option (list op)) (t : ty) (contiguous : bool)
    (l : list val) : option (list op) :=
  match t, contiguous with
  | TTriv sz al, true => bs ← mapM (triv_bytes sz) l; Some [SeqTriv sz al bs]
  | _, _ =>
      if is_valid (static_ubound t)
      then xs ← mapM ser l; Some [Seq (size (static_ubound t)) (align (static_ubound t)) xs]
      else each f l
  end.

Fixpoint ops (t : ty) (v : val) : option (list op) :=
  match t, v with
  | TTriv sz al, VBytes _ => l ← triv_bytes sz v; Some [One (mk_item sz al l)]
  | TEmpty, VUnit => Some []
  | TNil, VUnit => Some []
  | TCons t ts, VPair v w => a ← ops t v; b ← ops ts w; Some (a ++ b)
  | TArray n t, VSeq l =>
      if Nat.eqb (length l) n then sequence_ops (serialize t) (ops t) t true l else None
  | TStr csz, VSeq l =>
      if Z.of_nat (length l) <? w64_mod then
        bs ← mapM (triv_bytes csz) l; Some [One (size_t_item (Z.of_nat (length l))); SeqTriv csz csz bs]
      else None
  | TSeq c t, VSeq l =>
      if Z.of_nat (length l) <? w64_mod then
        os ← sequence_ops (serialize t) (ops t) t c l; Some (One (size_t_item (Z.of_nat (length l))) :: os)
      else None
  | TFwd t, VSeq l =>
      if Z.of_nat (length l) <? w64_mod then
        os ← each (ops t) l; Some (One (size_t_item (Z.of_nat (length l))) :: os)
      else None
  | _, _ => None
  end.

(** The move constructor: the new writer and what is left of the old one. *)
Definition move (that : writer) : writer * writer :=
  (that, mk_writer 0 0 0 1 [] (mem that)).

(** The destructor returns the hunks it frees: all but the caller's buffer. *)
Definition destroy (w : writer) : list Z := map front (tl (chain w)).

End Hunks.

(** * Refinement of the bounded writer *)

Module Refinement.
Import Hunks Ubound Skip.

(** ** Lists of placements that leave the same bytes *)

Definition equiv (l1 l2 : list item) : Prop := forall m base p, 0 <= p ->
  end_of p l1 = end_of p l2 /\ (holds m base p l1 <-> holds m base p l2).

#[local] Instance equiv_equivalence : Equivalence equiv.
Proof.
  split.
  - by intros l m base p Hp.
  - intros l1 l2 H m base p Hp. destruct (H m base p Hp) as [-> ->]. done.
  - intros l1 l2 l3 H1 H2 m base p Hp. destruct (H1 m base p Hp) as [-> ->]. by apply H2.
Qed.

Definition good (l : list item) : Prop := Forall item_ok l.

Lemma equiv_app l1 l1' l2 l2' : good l1 -> equiv l1 l1' -> equiv l2 l2' -> equiv (l1 ++ l2) (l1' ++ l2').
Proof.
  intros Hg H1 H2 m base p Hp. destruct (H1 m base p Hp) as [E1 E2].
  rewrite !end_of_app, !holds_app, <- E1, E2. pose proof (end_of_ge p l1 Hg).
  destruct (H2 m base (end_of p l1) ltac:(lia)) as [-> ->]. done.
Qed.

(** A copy of contiguous elements is the elements one by one. *)
Lemma bulk_singles sz al bs : obj_ok sz al -> Forall (fun b => Z.of_nat (length b) = sz) bs ->
  Z.of_nat (length (concat bs)) <= addr_limit -> equiv [bulk_item sz al bs] (map (mk_item sz al) bs).
Proof. intros Ho Hbs Hlim m base p Hp. by apply (bulk_split m base sz al bs p Ho Hbs Hlim). Qed.

Lemma bulk_app sz al bs1 bs2 : obj_ok sz al -> Forall (fun b => Z.of_nat (length b) = sz) (bs1 ++ bs2) ->
  Z.of_nat (length (concat (bs1 ++ bs2))) <= addr_limit ->
  equiv [bulk_item sz al (bs1 ++ bs2)] ([bulk_item sz al bs1] ++ [bulk_item sz al bs2]).
Proof.
  intros Ho Hbs Hlim. rewrite bulk_singles by done. apply Forall_app in Hbs as [H1 H2].
  rewrite concat_app, length_app in Hlim. rewrite map_app. symmetry.
  apply equiv_app; [|apply bulk_singles; [done..|lia]|apply bulk_singles; [done..|lia]].
  constructor; [|constructor]. apply bulk_item_ok; [done..|lia].
Qed.

(** ** Where the items of each hunk are *)

Definition floor (x : Z) : Z := x / align_max * align_max.

Lemma floor_max_floor x : is_u64 x -> floor_max x = floor x.
Proof. intros H. unfold floor_max, floor. change align_max with (2 ^ 6). by apply land_w64_opp. Qed.

Lemma floor_le x : floor x <= x.
Proof. unfold floor, align_max. pose proof (Z.mod_pos_bound x 64). pose proof (Z.div_mod x 64). lia. Qed.

Lemma floor_gt x : x < floor x + align_max.
Proof. unfold floor, align_max. pose proof (Z.mod_pos_bound x 64). pose proof (Z.div_mod x 64). lia. Qed.

Lemma floor_mod x : x mod align_max = x - floor x.
Proof. unfold floor, align_max. pose proof (Z.div_mod x 64). lia. Qed.

Lemma floor_divide x : (align_max | floor x).
Proof. by exists (x / align_max). Qed.

Lemma floor_nonneg x : 0 <= x -> 0 <= floor x.
Proof. intros H. unfold floor, align_max. pose proof (Z.div_pos x 64). lia. Qed.

(** The length of the area for data, and the offset where it ends. *)
Definition area (h : hunk) : Z := footer h - front h.
Definition edge (h : hunk) : Z := floor (size0 h) + area h.

(** What an allocated hunk satisfies. *)
Record hunk_ok (h : hunk) : Prop := {
  hk_front : 0 <= front h;
  hk_align : (align_max | front h);
  hk_area : 0 <= area h;
  hk_area8 : (8 | area h);
  hk_limit : footer h + sizeof_footer <= addr_limit;
  hk_size0 : 0 <= size0 h
}.

(** The first item of a hunk is where it would be without the change of hunk. *)
Definition starts (p s : Z) (its : list item) : Prop :=
  s = p \/ exists it its', its = it :: its' /\ s = round_up p (it_align it).

(** A hunk with its items, after those that end at [p]. *)
Definition laid1 (m : gmap Z Z) (p : Z) (h : hunk) (its : list item) : Prop :=
  p <= size0 h /\ end_of (size0 h) its <= edge h /\
  holds m (front h - floor (size0 h)) (size0 h) its /\ good its.

Fixpoint laid (m : gmap Z Z) (p : Z) (l : list (hunk * list item)) : Prop :=
  match l with
  | [] => True
  | (h, its) :: l => (laid1 m p h its /\ starts p (size0 h) its) /\ laid m (end_of (size0 h) its) l
  end.

Definition items (l : list (hunk * list item)) : list item := concat (map snd l).

Fixpoint end_pos (p : Z) (l : list (hunk * list item)) : Z :=
  match l with [] => p | (h, its) :: l => end_pos (end_of (size0 h) its) l end.

Lemma laid_app m p l1 l2 : laid m p (l1 ++ l2) <-> laid m p l1 /\ laid m (end_pos p l1) l2.
Proof. revert p. induction l1 as [|[h its] l1 IH]; intros p; simpl; [tauto|]. rewrite IH. tauto. Qed.

Lemma end_pos_app p l1 l2 : end_pos p (l1 ++ l2) = end_pos (end_pos p l1) l2.
Proof. revert p. induction l1 as [|[h its] l1 IH]; intros p; [done|]. simpl. by rewrite IH. Qed.

Lemma starts_end p s its : good its -> starts p s its -> end_of s its = end_of p its.
Proof.
  intros Hg [->|(it & its' & -> & ->)]; [done|]. apply Forall_cons in Hg as [(Ha & _) _].
  change (end_of ?x (it :: its')) with (end_of (extent x it) its'). f_equal. destruct it as [sz al bs].
  apply extent_round_up. by apply pow2_pos.
Qed.

Lemma starts_holds m base p s its : good its -> starts p s its -> holds m base s its <-> holds m base p its.
Proof.
  intros Hg [->|(it & its' & -> & ->)]; [done|]. apply Forall_cons in Hg as [(Ha & _) _]. destruct it as [sz al bs].
  cbn [holds it_align it_bytes]. cbn [it_align] in Ha. pose proof (pow2_pos _ Ha).
  rewrite extent_round_up by done. by rewrite (round_up_id (round_up _ _)) by (done || apply round_up_divide).
Qed.

Lemma end_pos_items m p l : laid m p l -> end_pos p l = end_of p (items l).
Proof.
  revert p. induction l as [|[h its] l IH]; intros p; [done|]. intros [[(_ & _ & _ & Hg) Hs] Hl].
  cbn [end_pos]. unfold items in *. cbn [map concat snd]. rewrite end_of_app, (IH _ Hl). f_equal. by apply starts_end.
Qed.

Lemma laid_end_ge m p l : laid m p l -> p <= end_pos p l.
Proof.
  revert p. induction l as [|[h its] l IH]; intros p; [done|]. intros [[(H1 & _ & _ & Hg) _] Hl].
  cbn [end_pos]. pose proof (IH _ Hl). pose proof (end_of_ge (size0 h) its Hg). lia.
Qed.

(** Stores outside the areas of the hunks do not matter. *)
Lemma laid1_frame m m' p h its : hunk_ok h -> (forall b, front h <= b < footer h -> m' !! b = m !! b) ->
  laid1 m p h its -> laid1 m' p h its.
Proof.
  intros Hk Hm (H1 & H3 & H4 & H5). split_and!; try done. apply (holds_frame m); [done| |done].
  intros b Hb. apply Hm. unfold edge, area in *. pose proof (floor_le (size0 h)). lia.
Qed.

Lemma laid_frame m m' p l : Forall hunk_ok (map fst l) ->
  (forall h, h ∈ map fst l -> forall b, front h <= b < footer h -> m' !! b = m !! b) -> laid m p l -> laid m' p l.
Proof.
  revert p. induction l as [|[h its] l IH]; intros p Hk Hm; [done|]. intros [[H1 Hs] H2].
  apply Forall_cons in Hk as [Hk1 Hk2]. split; [split; [|done]|].
  - eapply laid1_frame; [done| |done]. intros b Hb. apply (Hm h); [by left|done].
  - apply IH; [done| |done]. intros h' Hh'. apply Hm. by right.
Qed.

(** ** The state between operations *)

Definition apart (h1 h2 : hunk) : Prop :=
  footer h1 + sizeof_footer <= front h2 \/ footer h2 + sizeof_footer <= front h1.

(** [pre] are the full hunks with their items, [h] the current one, [its] its
    items. *)
Record wi (w : Hunks.writer) (pre : list (hunk * list item)) (h : hunk) (its : list item) : Prop := {
  wi_chain : chain w = map fst pre ++ [h];
  wi_hunks : Forall hunk_ok (map fst pre ++ [h]);
  wi_apart : Forall (fun h' => apart h' h) (map fst pre);
  wi_laid : laid (mem w) 0 pre;
  wi_last : laid1 (mem w) (end_pos 0 pre) h its;
  wi_size : size_ w = end_of (size0 h) its;
  wi_edge : edge_ w = edge h;
  wi_base : base_ w = w64 (front h - floor (size0 h));
  wi_limit : edge h <= addr_limit;
  wi_first : head (map size0 (chain w)) = Some 0
}.

Definition total (pre : list (hunk * list item)) (its : list item) : list item := items pre ++ its.

(** The first item of the current hunk is where it would be without the hunk. *)
Definition placed (pre : list (hunk * list item)) (h : hunk) (its : list item) : Prop :=
  starts (end_pos 0 pre) (size0 h) its.

Lemma wi_total w pre h its : wi w pre h its -> placed pre h its -> size_ w = end_of 0 (total pre its).
Proof.
  intros H Hs. rewrite (wi_size _ _ _ _ H). unfold total. rewrite end_of_app, <- (end_pos_items (mem w)) by apply H.
  destruct (wi_last _ _ _ _ H) as (_ & _ & _ & Hg). by apply starts_end.
Qed.

Lemma placed_app pre h its l : placed pre h its -> placed pre h (its ++ l).
Proof. intros [?|(i & its' & -> & ?)]; [by left|]. right. by exists i, (its' ++ l). Qed.

Lemma wi_hunk w pre h its : wi w pre h its -> hunk_ok h.
Proof. intros H. pose proof (wi_hunks _ _ _ _ H) as Hf. apply Forall_app in Hf as [_ Hf]. by apply Forall_cons in Hf as [? _]. Qed.

Lemma wi_bounds w pre h its : wi w pre h its -> 0 <= size0 h <= size_ w /\ size_ w <= edge h.
Proof.
  intros H. pose proof (hk_size0 _ (wi_hunk _ _ _ _ H)). rewrite (wi_size _ _ _ _ H).
  destruct (wi_last _ _ _ _ H) as (_ & He & _ & Hg). pose proof (end_of_ge (size0 h) its Hg). lia.
Qed.

(** The address of an offset in the current hunk. *)
Lemma spot_address w pre h its off : wi w pre h its -> size0 h <= off <= edge h ->
  w64 (base_ w + off) = front h + (off - floor (size0 h)).
Proof.
  intros H Ho. destruct (wi_hunk _ _ _ _ H) as [K1 _ K3 _ K5 _]. rewrite (wi_base _ _ _ _ H), w64_add_l.
  pose proof (floor_le (size0 h)). unfold edge, area, sizeof_footer in *. rewrite w64_limit; lia.
Qed.

Lemma good_app l1 l2 : good (l1 ++ l2) <-> good l1 /\ good l2.
Proof. apply Forall_app. Qed.

(** Storing an item in the space left. *)
Lemma store_append w pre h its it al : wi w pre h its -> item_ok it -> extent (size_ w) it <= edge h ->
  exists w', store (w64 (base_ w + round_up (size_ w) (it_align it))) (it_bytes it)
      (Hunks.mk_writer (base_ w) (edge_ w) (extent (size_ w) it) al (chain w) (mem w)) = Ok w'
    /\ wi w' pre h (its ++ [it]).
Proof.
  intros H Hit Hend. pose proof (wi_bounds _ _ _ _ H) as [Hb1 Hb2]. pose proof Hit as (Ha & Hm & Hz).
  pose proof (round_up_ge (size_ w) _ (pow2_pos _ Ha)) as Hru. unfold extent in Hend.
  pose proof (wi_hunk _ _ _ _ H) as [K1 K2 K3 K4 K5 K6]. pose proof (floor_le (size0 h)) as Hfl.
  rewrite (spot_address _ _ _ _ (round_up _ _) H) by lia. unfold store. cbn [base_ edge_ size_ align_ chain mem].
  assert (Hin : existsb (in_hunk (front h + (round_up (size_ w) (it_align it) - floor (size0 h))) (Z.of_nat (length (it_bytes it)))) (chain w) = true).
  { apply existsb_exists. exists h. split; [rewrite (wi_chain _ _ _ _ H); apply in_or_app; right; by left|].
    unfold in_hunk, edge, area in *. apply andb_true_intro; split; apply Z.leb_le; lia. }
  rewrite Hin, orb_true_r. eexists. split; [done|].
  set (a := front h + _). set (m' := write_at _ _ _).
  assert (Hout : forall b, b < a \/ a + Z.of_nat (length (it_bytes it)) <= b -> m' !! b = mem w !! b)
    by (intros b Hb'; by apply write_at_lookup_out).
  destruct (wi_last _ _ _ _ H) as (L1 & L3 & L4 & L5).
  pose proof (wi_size _ _ _ _ H) as Hsz. split; try apply H; cbn [mem size_].
  - eapply laid_frame; [|intros h' Hh' b Hb'; apply Hout|apply H].
    + pose proof (wi_hunks _ _ _ _ H) as Hf. by apply Forall_app in Hf as [Hf _].
    + pose proof (proj1 (Forall_forall _ _) (wi_apart _ _ _ _ H) h' Hh') as Hap.
      unfold apart, sizeof_footer, a, edge, area in *. lia.
  - assert (Hend' : end_of (size0 h) (its ++ [it]) = extent (size_ w) it) by (rewrite end_of_app, <- Hsz; done).
    split_and!; [done| | |].
    + rewrite Hend'. done.
    + apply holds_app. rewrite <- Hsz. split.
      * apply (holds_frame (mem w)); [done| |done]. intros b Hb'. apply Hout. unfold a. lia.
      * split; [|done]. replace (front h - floor (size0 h) + round_up (size_ w) (it_align it)) with a by (unfold a; lia).
        apply read_write_at.
    + apply good_app. split; [done|]. by repeat constructor.
  - rewrite end_of_app, <- Hsz. done.
Qed.

Lemma base_aligned w pre h its al : wi w pre h its -> pow2 al -> al <= align_max -> is_aligned (base_ w) al = true.
Proof.
  intros H Ha Hm. apply is_aligned_spec; [done|]. rewrite (wi_base _ _ _ _ H).
  assert (Hd : (al | align_max)) by (by apply pow2_divide; [|apply pow2_align_max|]).
  unfold w64. rewrite Z.mod_eq by done. apply Z.divide_sub_r.
  - apply Z.divide_sub_r; (etrans; [exact Hd|]); [apply (hk_align _ (wi_hunk _ _ _ _ H))|apply floor_divide].
  - apply Z.divide_mul_l. etrans; [exact Hd|]. by exists (2 ^ 58).
Qed.

(** Placements of the bounded writer over the current hunk. *)
Lemma bounded_items_ok l w pre h its : wi w pre h its -> good l -> end_of (size_ w) l <= edge h ->
  exists w', bounded_items l w = Ok w' /\ wi w' pre h (its ++ l).
Proof.
  intros H Hg. revert w its H. induction Hg as [|it l Hit Hl IH]; intros w its H Hend; [exists w; by rewrite app_nil_r|].
  change (end_of (size_ w) (it :: l)) with (end_of (extent (size_ w) it) l) in Hend.
  pose proof (end_of_ge (extent (size_ w) it) l Hl). pose proof (wi_bounds _ _ _ _ H). pose proof (wi_limit _ _ _ _ H).
  pose proof Hit as (Ha & Hm & Hz). pose proof (round_up_ge (size_ w) _ (pow2_pos _ Ha)).
  cbn [bounded_items]. unfold bounded_item. rewrite (base_aligned _ _ _ _ _ H Ha Hm). mcbn.
  rewrite align_up_small by (done || lia). rewrite (w64_limit (round_up _ _ + _)) by (unfold extent in *; lia).
  fold (extent (size_ w) it).
  destruct (store_append w pre h its it (if align_ w <? it_align it then it_align it else align_ w) H Hit ltac:(lia))
    as (w' & -> & Hw'). mcbn.
  rewrite cons_middle, app_assoc. apply IH; [done|].
  rewrite (wi_size _ _ _ _ Hw'), end_of_app, <- (wi_size _ _ _ _ H). done.
Qed.

(** ** Growing *)

(** Room for any growth step below the limit. *)
Definition slack : Z := 16384.

Lemma hunk_sz_ok s0 s1 : 0 <= s0 <= s1 -> s1 + slack <= addr_limit ->
  s1 - floor s0 + sizeof_footer <= hunk_sz s0 s1 <= s1 - floor s0 + sizeof_footer + hunk_size_large
  /\ (align_max | hunk_sz s0 s1).
Proof.
  intros H0 H1. unfold slack in *. pose proof (floor_le s0). pose proof (floor_nonneg s0 (proj1 H0)). pose proof (floor_gt s0).
  assert (Hu : is_u64 s0) by (unfold is_u64, w64_mod, addr_limit in *; lia).
  unfold hunk_sz. rewrite floor_max_floor, w64_limit by (done || lia).
  unfold sizeof_footer, hunk_size_large, hunk_size_small in *.
  assert (D1 : (align_max | 512)) by (by exists 8). assert (D2 : (align_max | 8192)) by (by exists 128).
  destruct (_ && _) eqn:E1; [|destruct (Z.leb_spec (s1 - floor s0) (8192 - 24))].
  - apply andb_prop in E1 as [_ E1%Z.leb_le]. split; [lia|done].
  - split; [lia|done].
  - rewrite (w64_limit (_ + 24)) by lia. rewrite align_up_round by (try (by exists 13); unfold w64_mod, addr_limit in *; lia).
    pose proof (round_up_ge (s1 - floor s0 + 24) 8192 ltac:(lia)). pose proof (round_up_lt (s1 - floor s0 + 24) 8192 ltac:(lia)).
    split; [lia|]. etrans; [exact D2|apply round_up_divide].
Qed.

(** ** Compaction *)

Lemma copy_ok n : forall m dst src, dst + Z.of_nat n <= src \/ src + Z.of_nat n <= dst ->
  (forall b, dst <= b < dst + Z.of_nat n -> copy m dst src n !! b = m !! (src + (b - dst))) /\
  (forall b, b < dst \/ dst + Z.of_nat n <= b -> copy m dst src n !! b = m !! b).
Proof.
  induction n as [|n IH]; intros m dst src Hd; [split; [lia|done]|]. cbn [copy].
  set (m1 := match m !! src with Some b => _ | None => _ end).
  assert (H1 : m1 !! dst = m !! src).
  { unfold m1. destruct (m !! src) eqn:E; [by rewrite lookup_insert_eq|by rewrite lookup_delete_eq]. }
  assert (H2 : forall b, b <> dst -> m1 !! b = m !! b).
  { intros b Hb. unfold m1. destruct (m !! src); [by rewrite lookup_insert_ne by done|by rewrite lookup_delete_ne by done]. }
  destruct (IH m1 (dst + 1) (src + 1) ltac:(lia)) as [I1 I2]. split; intros b Hb.
  - destruct (decide (b = dst)) as [->|Hne].
    + rewrite I2 by lia. rewrite H1. f_equal. lia.
    + rewrite I1 by lia. rewrite H2 by lia. f_equal. lia.
  - rewrite I2 by lia. apply H2. lia.
Qed.

(** Items found elsewhere, at the same distances. *)
Lemma holds_translate m m' base base' p l : good l ->
  (forall off, p <= off < end_of p l -> m' !! (base' + off) = m !! (base + off)) -> holds m base p l -> holds m' base' p l.
Proof.
  intros Hg. revert p. induction Hg as [|it l Hit Hl IH]; intros p Hm; [done|]. intros [Hr Hh].
  pose proof (end_of_ge (extent p it) l Hl) as Hge. pose proof (extent_ge p it Hit) as Hext.
  change (end_of p (it :: l)) with (end_of (extent p it) l) in Hm. destruct Hit as (Ha & _ & Hsz).
  pose proof (round_up_ge p _ (pow2_pos _ Ha)) as Hru. unfold extent in Hge at 1.
  split; [|apply IH; [|done]; intros off Ho; apply Hm; lia]. rewrite <- Hr.
  assert (Hgen : forall n a a', (forall i, 0 <= i < Z.of_nat n -> m' !! (a' + i) = m !! (a + i)) -> read_at m' a' n = read_at m a n).
  { induction n as [|n IHn]; intros a a' H; [done|]. simpl. pose proof (H 0 ltac:(lia)) as H0. rewrite !Z.add_0_r in H0.
    rewrite H0, (IHn (a + 1) (a' + 1)); [done|]. intros i Hi. rewrite <- !Z.add_assoc. apply H. lia. }
  apply Hgen. intros i Hi. rewrite <- !Z.add_assoc. apply Hm. lia.
Qed.

(** The loop of [compact_and_invalidate_]. *)
Lemma compact_loop_ok buf size_end l : forall m p first, 0 <= buf -> buf + size_end <= addr_limit ->
  Forall hunk_ok (map fst l) -> Forall (fun h => buf + size_end <= front h \/ footer h <= buf) (map fst l) ->
  laid m p l -> end_pos p l = size_end -> 0 <= p -> l <> [] ->
  let s := match l with (h, _) :: _ => size0 h | [] => p end in
  let '(m', freed) := compact_loop buf size_end s first (map fst l) m in
  holds m' buf p (items l) /\ (forall b, b < buf + s \/ buf + size_end <= b -> m' !! b = m !! b)
  /\ freed = map front (if first then tl (map fst l) else map fst l).
Proof.
  induction l as [|[h its] l IH]; intros m p first Hb Hlim Hk Hd Hl Hend Hp Hne; [done|]. clear Hne.
  cbn [map fst] in *. apply Forall_cons in Hk as [Hk Hks], Hd as [Hd Hds]. destruct Hl as [[(L1 & L2 & L3 & L4) Hs] Hl].
  cbn [end_pos] in Hend. pose proof (laid_end_ge _ _ _ Hl) as Hge. pose proof (end_of_ge (size0 h) its L4) as Hge1.
  destruct Hk as [K1 K2 K3 K4 K5 K6]. cbn zeta. cbn [compact_loop].
  set (size1 := match map fst l with [] => size_end | h1 :: _ => size0 h1 end).
  assert (Hs1 : end_of (size0 h) its <= size1 <= size_end).
  { unfold size1. destruct l as [|[h1 its1] l]; [cbn in *; lia|]. cbn [map fst]. destruct Hl as [[(M1 & _ & _ & M4) _] Hl].
    pose proof (end_of_ge (size0 h1) its1 M4). pose proof (laid_end_ge _ _ _ Hl). cbn [end_pos] in Hend. lia. }
  unfold edge, area in *. pose proof (floor_le (size0 h)). rewrite floor_mod.
  rewrite (w64_limit (size1 - size0 h)) by lia. unfold sizeof_footer in *.
  rewrite (w64_limit (footer h - front h - _)) by lia.
  set (n := Z.min _ _). set (m1 := copy _ _ _ _).
  assert (Hn : 0 <= n /\ n <= size1 - size0 h /\ n <= footer h - front h - (size0 h - floor (size0 h)) /\ end_of (size0 h) its <= size0 h + n)
    by (unfold n; lia). clearbody n.
  destruct (copy_ok (Z.to_nat n) m (buf + size0 h) (front h + (size0 h - floor (size0 h))) ltac:(lia)) as [C1 C2]. fold m1 in C1, C2.
  assert (Hh : holds m1 buf (size0 h) its).
  { apply (holds_translate m _ (front h - floor (size0 h))); [done| |done]. intros off Ho. rewrite C1 by lia. f_equal. lia. }
  assert (Hrest : forall m2, (forall b, b < buf + size1 -> m2 !! b = m1 !! b) -> holds m2 buf p its).
  { intros m2 Hm2. apply (starts_holds _ _ _ _ _ L4 Hs). apply (holds_frame m1); [done| |done]. intros b Hb'. apply Hm2. lia. }
  destruct (decide (l = [])) as [->|Hne].
  - cbn [map compact_loop items concat snd end_pos] in *. unfold items. cbn [map concat snd]. rewrite app_nil_r.
    split_and!; [by apply Hrest| |by destruct first]. intros b Hb'. apply C2. unfold size1 in *. cbn in Hn. lia.
  - assert (Hl1 : laid m1 (end_of (size0 h) its) l).
    { eapply laid_frame; [done| |done]. intros h' Hh' b Hb'. apply C2.
      pose proof (proj1 (Forall_forall _ _) Hds h' Hh') as Hx; cbn beta in Hx. lia. }
    specialize (IH m1 (end_of (size0 h) its) false Hb Hlim Hks Hds Hl1 Hend ltac:(lia) Hne).
    assert (Es : match l with (h1, _) :: _ => size0 h1 | [] => end_of (size0 h) its end = size1)
      by (unfold size1; destruct l as [|[h1 its1] l]; [done|done]).
    cbn zeta in IH. rewrite Es in IH. destruct (compact_loop buf size_end size1 false (map fst l) m1) as [m2 freed].
    destruct IH as (I1 & I2 & I3). split_and!.
    + unfold items. cbn [map concat snd]. apply holds_app. split; [apply Hrest; intros b Hb'; apply I2; lia|].
      rewrite <- (starts_end p (size0 h) its L4 Hs). done.
    + intros b Hb'. rewrite I2 by lia. apply C2. lia.
    + destruct first; [done|]. by rewrite I3.
Qed.

Section alloc.
Context (posix_memalign : list (Z * Z) -> Z -> Z -> option Z).

(** What [posix_memalign] documents: an aligned block that overlaps none in use. *)
Definition memalign_ok : Prop := forall used al sz p, posix_memalign used al sz = Some p ->
  0 < p /\ (al | p) /\ p + sz <= addr_limit /\ Forall (fun '(a, b) => p + sz <= a \/ b <= p) used.

(** A result, unless memory has run out. *)
Definition or_oom {A} (r : res A) (P : A -> Prop) : Prop :=
  match r with
  | Ok a => P a
  | Refused => True
  | Aborted | Undef => False
  end.

Lemma or_oom_bind {A B} (r : res A) (f : A -> res B) P Q :
  or_oom r P -> (forall a, P a -> or_oom (f a) Q) -> or_oom (r ≫= f) Q.
Proof. intros H HP. destruct r; [by apply HP|done..]. Qed.

Lemma or_oom_ok {A} (r : res A) (P : A -> Prop) : (exists a, r = Ok a /\ P a) -> or_oom r P.
Proof. by intros (a & -> & H). Qed.

Lemma or_oom_impl {A} (r : res A) (P Q : A -> Prop) : or_oom r P -> (forall a, P a -> Q a) -> or_oom r Q.
Proof. intros H HP. destruct r; [by apply HP|done..]. Qed.

Context (Hmem : memalign_ok).

Lemma alloc_aligned_ok used sz : 0 <= sz <= addr_limit -> (align_max | sz) ->
  or_oom (alloc_aligned posix_memalign used sz align_max) (fun p =>
    0 <= p /\ (align_max | p) /\ p + sz <= addr_limit /\ Forall (fun '(a, b) => p + sz <= a \/ b <= p) used).
Proof.
  intros Hs Hd. unfold alloc_aligned. change (negb (align_max =? 0) && (Z.land align_max (w64 (align_max - 1)) =? 0)) with true.
  mcbn. change (w64 (Z.lor (align_max - 1) 7 + 1)) with align_max.
  rewrite align_up_small, round_up_id by (done || apply pow2_align_max).
  destruct (posix_memalign used align_max sz) as [p|] eqn:E; [|done].
  destruct (Hmem _ _ _ _ E) as (? & ? & ? & ?). split_and!; try done. lia.
Qed.

(** The writer after a growth step. *)
Record grown (w : Hunks.writer) (s0 s1 : Z) (w' : Hunks.writer) (h : hunk) : Prop := {
  gr_chain : chain w' = chain w ++ [h];
  gr_hunk : hunk_ok h;
  gr_apart : Forall (fun h' => apart h' h) (chain w);
  gr_size0 : size0 h = s0;
  gr_base : base_ w' = w64 (front h - floor s0);
  gr_edge : edge_ w' = edge h;
  gr_enough : s1 <= edge h <= addr_limit;
  gr_edge8 : (8 | edge h);
  gr_same : size_ w' = size_ w /\ align_ w' = align_ w /\ mem w' = mem w
}.

Lemma grow_ok w s0 s1 : 0 <= s0 <= s1 -> s1 + slack <= addr_limit ->
  or_oom (grow posix_memalign s0 s1 w) (fun w' => exists h, grown w s0 s1 w' h).
Proof.
  intros H0 H1. destruct (hunk_sz_ok s0 s1 H0 H1) as [Hsz Hd]. unfold grow. set (sz := hunk_sz s0 s1) in *.
  pose proof (floor_le s0). pose proof (floor_nonneg s0 (proj1 H0)).
  assert (Hu : is_u64 s0) by (unfold is_u64, w64_mod, slack, addr_limit in *; lia).
  unfold slack, sizeof_footer, hunk_size_large in *.
  eapply or_oom_bind; [apply (alloc_aligned_ok _ sz); [lia|done]|]. intros p (Hp & Hpa & Hpl & Hpd).
  unfold sizeof_footer. rewrite floor_max_floor by done. rewrite (w64_limit (p + sz - 24)), (w64_limit (floor s0 + sz - 24)) by lia.
  rewrite w64_add_l. cbn [footer]. replace (p - floor s0 + (floor s0 + sz - 24)) with (p + sz - 24) by lia.
  rewrite (w64_limit (p + sz - 24)), Z.eqb_refl by lia. mcbn. destruct (Z.leb_spec s1 (floor s0 + sz - 24)); [|lia]. mcbn.
  exists (mk_hunk p (p + sz - 24) s0).
  assert (D8 : (8 | align_max)) by (by exists 8).
  assert (Dsz : (8 | p + sz - 24 - p)).
  { replace (p + sz - 24 - p) with (sz - 24) by lia. apply Z.divide_sub_r; [by etrans|by exists 3]. }
  split; unfold edge, area; cbn [chain front footer size0 base_ edge_ size_ align_ mem]; try done.
  - split; unfold area, sizeof_footer; cbn [front footer size0]; try done; lia.
  - apply Forall_forall. intros h' Hh'. unfold apart, sizeof_footer. cbn [front footer].
    unfold blocks in Hpd. rewrite Forall_map in Hpd. pose proof (proj1 (Forall_forall _ _) Hpd h' Hh') as Hx.
    unfold sizeof_footer in Hx. simpl in Hx. lia.
  - lia.
  - lia.
  - apply Z.divide_add_r; [|done]. etrans; [exact D8|apply floor_divide].
Qed.

Lemma wi_pre_grown w pre h its : wi w pre h its -> placed pre h its -> map fst (pre ++ [(h, its)]) = chain w /\ laid (mem w) 0 (pre ++ [(h, its)])
  /\ end_pos 0 (pre ++ [(h, its)]) = size_ w /\ items (pre ++ [(h, its)]) = total pre its.
Proof.
  intros H Hs. split_and!.
  - rewrite map_app. symmetry. apply H.
  - apply laid_app. split; [apply H|]. split; [split; [apply H|done]|done].
  - rewrite end_pos_app. symmetry. apply H.
  - unfold items, total. by rewrite map_app, concat_app; simpl; rewrite app_nil_r.
Qed.

(** A new hunk starts empty at [s0]. *)
Lemma wi_grown w pre h its s0 s1 w' h' al : wi w pre h its -> placed pre h its -> size_ w <= s0 <= s1 ->
  grown w s0 s1 w' h' ->
  wi (Hunks.mk_writer (base_ w') (edge_ w') s0 al (chain w') (mem w')) (pre ++ [(h, its)]) h' [].
Proof.
  intros H Hs Hs1 G. destruct (wi_pre_grown _ _ _ _ H Hs) as (P1 & P2 & P3 & P4).
  destruct (gr_same _ _ _ _ _ G) as (S1 & S2 & S3). pose proof (gr_size0 _ _ _ _ _ G) as S0.
  pose proof (wi_bounds _ _ _ _ H). split; cbn [chain mem size_ edge_ base_]; rewrite ?P1, ?P3, ?S3, ?S1; try apply G; try done.
  - apply Forall_app. split; [rewrite (wi_chain _ _ _ _ H); apply H|]. constructor; [apply G|constructor].
  - split_and!; [lia| |done|constructor]. pose proof (gr_enough _ _ _ _ _ G). unfold end_of. cbn. lia.
  - rewrite S0. apply G.
  - rewrite (gr_chain _ _ _ _ _ G), map_app. pose proof (wi_first _ _ _ _ H). by destruct (map size0 (chain w)).
Qed.

(** ** Writing *)

(** The writer holds the items [l], wherever its hunks divide them. *)
Definition written (w : Hunks.writer) (l : list item) : Prop :=
  exists pre h its, wi w pre h its /\ placed pre h its /\ equiv (total pre its) l /\ good l.

Lemma written_size w l : written w l -> size_ w = end_of 0 l.
Proof.
  intros (pre & h & its & H & Hp & He & _). rewrite (wi_total _ _ _ _ H Hp).
  by destruct (He ∅ 0 0 (Z.le_refl 0)).
Qed.

Lemma laid_good m p l : laid m p l -> good (items l).
Proof.
  revert p. induction l as [|[h its] l IH]; intros p; [constructor|]. intros [[(_ & _ & _ & Hg) _] Hl].
  unfold items. cbn [map concat snd]. apply good_app. split; [done|]. by apply (IH _ Hl).
Qed.

Lemma wi_good w pre h its : wi w pre h its -> good (total pre its).
Proof. intros H. apply good_app. split; [by apply (laid_good (mem w) 0), H|apply H]. Qed.

Lemma good_one it : item_ok it -> good [it].
Proof. intros H. by constructor; [|constructor]. Qed.

(** More items in the current hunk. *)
Lemma written_more w w' pre h its l l' : wi w pre h its -> placed pre h its -> equiv (total pre its) l -> good l ->
  wi w' pre h (its ++ l') -> good l' -> written w' (l ++ l').
Proof.
  intros H Hp He Hg H' Hg'. exists pre, h, (its ++ l'). split_and!; [done|by apply placed_app| |by apply good_app].
  unfold total in *. rewrite app_assoc. apply equiv_app; [|done|done]. apply (wi_good _ _ _ _ H).
Qed.

Lemma end_of_snoc p l it : end_of p (l ++ [it]) = extent (end_of p l) it.
Proof. by rewrite end_of_app. Qed.

Lemma write_item_ok w l it : written w l -> item_ok it -> end_of 0 (l ++ [it]) + slack <= addr_limit ->
  or_oom (write_item posix_memalign it w) (fun w' => written w' (l ++ [it])).
Proof.
  intros Hw Hit Hlim. rewrite end_of_snoc, <- (written_size w) in Hlim by done.
  destruct Hw as (pre & h & its & H & Hp & He & Hg). pose proof (wi_bounds _ _ _ _ H). pose proof (wi_limit _ _ _ _ H).
  pose proof Hit as (Ha & Hm & Hz). pose proof (round_up_ge (size_ w) _ (pow2_pos _ Ha)). unfold slack in Hlim.
  assert (Hext : extent (size_ w) it = round_up (size_ w) (it_align it) + it_size it) by done.
  unfold write_item, place. rewrite align_up_small by (done || lia). rewrite w64_limit by lia. rewrite <- Hext.
  rewrite (wi_edge _ _ _ _ H). destruct (Z.ltb_spec (edge h) (extent (size_ w) it)).
  - set (al := if align_ w <? it_align it then _ else _).
    set (rest := fun w1 => (w64 (base_ w1 + round_up (size_ w) (it_align it)),
      Hunks.mk_writer (base_ w1) (edge_ w1) (extent (size_ w) it) al (chain w1) (mem w1))).
    apply (or_oom_bind _ _ (fun sw => exists w1 h1, sw = rest w1 /\
      grown w (round_up (size_ w) (it_align it)) (extent (size_ w) it) w1 h1)).
    + eapply or_oom_bind; [apply (grow_ok w (round_up (size_ w) (it_align it)) (extent (size_ w) it)); unfold slack; lia|].
      intros w1 [h1 G]. by exists w1, h1.
    + intros [spot w2] (w1 & h1 & [= -> ->] & G).
      pose proof (wi_grown w pre h its (round_up (size_ w) (it_align it)) (extent (size_ w) it) w1 h1 1 H Hp ltac:(lia) G) as H1'.
      assert (E : extent (round_up (size_ w) (it_align it)) it = extent (size_ w) it)
        by (destruct it; apply extent_round_up; by apply pow2_pos).
      destruct (store_append _ _ h1 [] it al H1' Hit) as (w' & Hst & Hw').
      { cbn [size_]. rewrite E. pose proof (gr_enough _ _ _ _ _ G). lia. }
      cbn [base_ edge_ size_ chain mem] in Hst. rewrite E, round_up_id in Hst by (apply pow2_pos, Ha || apply round_up_divide).
      apply or_oom_ok. exists w'. split; [exact Hst|]. exists (pre ++ [(h, its)]), h1, [it].
      destruct (wi_pre_grown _ _ _ _ H Hp) as (_ & _ & P3 & P4). split_and!; [done| | |apply good_app; split; [done|by apply good_one]].
      * right. exists it, []. by rewrite P3, (gr_size0 _ _ _ _ _ G).
      * unfold total at 1. rewrite P4. apply equiv_app; [by apply (wi_good w pre h)|done|done].
  - mcbn.
    destruct (store_append w pre h its it (if align_ w <? it_align it then it_align it else align_ w) H Hit ltac:(lia)) as (w' & Hst & Hw').
    apply or_oom_ok. exists w'. split; [exact Hst|]. by apply (written_more w w' pre h its); [..|apply good_one].
Qed.

(** ** Sequences *)

Lemma elt_size_round S A : 0 <= S -> pow2 A -> round_up S A <= addr_limit -> elt_size S A = round_up S A.
Proof.
  intros HS HA Hl. pose proof (pow2_pos _ HA). unfold elt_size.
  enough (S + (if S mod A =? 0 then 0 else A - S mod A) = round_up S A) as -> by (apply w64_limit; pose proof (round_up_ge S A); lia).
  unfold round_up. pose proof (Z.div_mod S A ltac:(lia)). pose proof (Z.mod_pos_bound S A ltac:(lia)).
  destruct (Z.eqb_spec (S mod A) 0) as [E|E].
  - replace (S + A - 1) with (A - 1 + S / A * A) by lia. rewrite Z.div_add, Z.div_small by lia. lia.
  - replace (S + A - 1) with (S mod A - 1 + (S / A + 1) * A) by lia. rewrite Z.div_add, Z.div_small by lia. lia.
Qed.

Lemma round_up_add x k a : 0 < a -> (a | k) -> round_up (x + k) a = round_up x a + k.
Proof. intros Ha Hd. rewrite Z.add_comm, round_up_shift by done. lia. Qed.

Section sequence.
Context {X : Type} (elts : list X -> Hunks.writer -> res Hunks.writer) (items_of : list X -> list item).
Context (S A : Z) (xs_ok : list X -> Prop).
Context (HS : 0 <= S) (HA : pow2 A) (HA8 : A <= 8) (HSA : round_up S A <= addr_limit).

(** What the code relies on of the elements: the bounded writer places them, in
    pieces or together, and their bound is one. *)
Context (xs_app : forall l1 l2, xs_ok (l1 ++ l2) -> xs_ok l1 /\ xs_ok l2).
Context (items_good : forall l, xs_ok l -> good (items_of l)).
Context (items_app : forall l1 l2, xs_ok (l1 ++ l2) -> equiv (items_of (l1 ++ l2)) (items_of l1 ++ items_of l2)).
Context (items_nil : equiv (items_of []) []).
Context (items_end : forall l p q, xs_ok l -> 0 <= p <= q -> (A | q) ->
  end_of p (items_of l) <= q + Z.of_nat (length l) * round_up S A).
Context (elts_ok : forall l w pre h its, wi w pre h its -> xs_ok l -> end_of (size_ w) (items_of l) <= edge h ->
  exists w', elts l w = Ok w' /\ wi w' pre h (its ++ items_of l)).

Lemma edge8 w pre h its : wi w pre h its -> (A | edge h).
Proof.
  intros H. assert (D : (A | 8)) by (apply pow2_divide; [done|apply pow2_8|done]).
  etrans; [exact D|]. apply Z.divide_add_r; [|apply (hk_area8 _ (wi_hunk _ _ _ _ H))].
  etrans; [|apply floor_divide]. by exists 8.
Qed.

(** A number of elements for which there is room by the bound. *)
Lemma elts_fit l w pre h its : wi w pre h its -> xs_ok l ->
  round_up (size_ w) A + Z.of_nat (length l) * round_up S A <= edge h ->
  exists w', elts l w = Ok w' /\ wi w' pre h (its ++ items_of l)
    /\ size_ w' <= round_up (size_ w) A + Z.of_nat (length l) * round_up S A.
Proof.
  intros H Hl Hend. pose proof (wi_bounds _ _ _ _ H). pose proof (pow2_pos _ HA).
  pose proof (round_up_ge (size_ w) A ltac:(lia)).
  pose proof (items_end l (size_ w) (round_up (size_ w) A) Hl ltac:(lia) (round_up_divide _ _)) as He.
  destruct (elts_ok l w pre h its H Hl ltac:(lia)) as (w' & E & Hw'). exists w'. split_and!; [done..|].
  rewrite (wi_size _ _ _ _ Hw'), end_of_app, <- (wi_size _ _ _ _ H). done.
Qed.

Lemma write_hunks_ok w l0 xs : written w l0 -> xs_ok xs ->
  round_up (size_ w) A + Z.of_nat (length xs) * round_up S A + slack <= addr_limit ->
  or_oom (write_sequence_ posix_memalign elts S A xs w) (fun '(_, w') => written w' (l0 ++ items_of xs)
    /\ size_ w' <= round_up (size_ w) A + Z.of_nat (length xs) * round_up S A).
Proof.
  intros (pre & h & its & H & Hp & He & Hg) Hxs Hlim. pose proof (wi_bounds _ _ _ _ H). pose proof (wi_limit _ _ _ _ H).
  pose proof (pow2_pos _ HA). pose proof (round_up_ge (size_ w) A ltac:(lia)). pose proof (round_up_ge S A ltac:(lia)).
  unfold slack in Hlim. set (es := round_up S A) in *. set (n := Z.of_nat (length xs)) in *. assert (0 <= n * es) by (apply Z.mul_nonneg_nonneg; lia).
  assert (Hm : A <= align_max) by (unfold align_max; lia).
  assert (Hru : round_up (size_ w) A <= edge h) by (apply round_up_least; [done|lia|by apply (edge8 _ _ _ _ H)]).
  unfold write_sequence_. fold n. rewrite elt_size_round by done. fold es. rewrite align_up_small by (done || lia).
  rewrite (wi_edge _ _ _ _ H), (w64_limit (edge h - round_up (size_ w) A)) by lia.
  set (n0 := if n <? _ then _ else _).
  assert (Hn0 : 0 <= n0 <= n /\ round_up (size_ w) A + n0 * es <= edge h).
  { unfold n0. destruct (Z.eqb_spec es 0) as [E|E]; [rewrite Z.ltb_irrefl, E; lia|].
    pose proof (Z.div_pos (edge h - round_up (size_ w) A) es ltac:(lia) ltac:(lia)).
    pose proof (Z.mul_div_le (edge h - round_up (size_ w) A) es ltac:(lia)).
    destruct (Z.ltb_spec n ((edge h - round_up (size_ w) A) / es)); nia. }
  clearbody n0. destruct Hn0 as [Hn0 Hfit].
  pose proof (take_drop (Z.to_nat n0) xs) as Htd. set (xs1 := take _ xs) in *. set (xs2 := drop _ xs) in *.
  assert (Hl1 : Z.of_nat (length xs1) = n0) by (unfold xs1; rewrite length_take; lia).
  assert (Hl2 : Z.of_nat (length xs2) = n - n0) by (unfold xs2; rewrite length_drop; lia).
  clearbody xs1 xs2. rewrite <- Htd in Hxs. destruct (xs_app _ _ Hxs) as [Hx1 Hx2]. pose proof (items_app _ _ Hxs) as Happ. rewrite Htd in Happ.
  destruct (elts_fit xs1 w pre h its H Hx1) as (w1 & -> & Hw1 & Hs1); [rewrite Hl1; fold es; lia|]. fold es in Hs1. rewrite Hl1 in Hs1. mcbn.
  assert (Hwr1 : written w1 (l0 ++ items_of xs1)) by (apply (written_more w w1 pre h its); auto).
  assert (Hfin : forall w', written w' ((l0 ++ items_of xs1) ++ items_of xs2) -> written w' (l0 ++ items_of xs)).
  { intros w' (pre' & h' & its' & F1 & F2 & F3 & F4). exists pre', h', its'. split_and!; [done|done| |].
    - rewrite F3. rewrite <- app_assoc. apply equiv_app; [done|done|by symmetry].
    - apply good_app. split; [done|]. rewrite <- Htd. auto. }
  destruct (Z.eqb_spec (n - n0) 0) as [E|E].
  - apply or_oom_ok. eexists. split; [done|]. split; [|lia]. apply Hfin.
    assert (xs2 = []) as -> by (destruct xs2; [done|simpl in Hl2; lia]).
    destruct Hwr1 as (pre' & h' & its' & F1 & F2 & F3 & F4). exists pre', h', its'. split_and!; [done|done| |].
    + rewrite F3. rewrite <- (app_nil_r (l0 ++ items_of xs1)) at 1. apply equiv_app; [done|done|by symmetry].
    + apply good_app. split; [done|]. by apply items_good.
  - rename Hw1 into Hw1'. pose proof (wi_bounds _ _ _ _ Hw1').
    assert (0 <= (n - n0) * es <= n * es) by nia. rewrite (w64_limit ((n - n0) * es)), w64_limit by lia.
    assert (Hp1 : placed pre h (its ++ items_of xs1)) by (by apply placed_app).
    eapply or_oom_bind; [apply (grow_ok w1 (size_ w1) (size_ w1 + (n - n0) * es)); unfold slack; nia|].
    intros w2 [h2 G]. pose proof (wi_grown w1 pre h _ (size_ w1) (size_ w1 + (n - n0) * es) w2 h2 (align_ w2) Hw1' Hp1 ltac:(lia) G) as Hw2.
    destruct (gr_same _ _ _ _ _ G) as (S1 & S2 & S3). rewrite <- S1 in Hw2 at 1.
    assert (Eta : Hunks.mk_writer (base_ w2) (edge_ w2) (size_ w2) (align_ w2) (chain w2) (mem w2) = w2) by (by destruct w2).
    rewrite Eta in Hw2.
    assert (Hr2 : round_up (size_ w2) A + (n - n0) * es <= edge h2).
    { rewrite S1. rewrite <- (round_up_add (size_ w1) ((n - n0) * es)); [|done|].
      - apply round_up_least; [done|apply G|by apply (edge8 _ _ _ _ Hw2)].
      - apply Z.divide_mul_r, round_up_divide. }
    destruct (elts_fit xs2 w2 _ h2 [] Hw2 Hx2) as (w3 & -> & Hw3 & Hs3); [by rewrite Hl2|].
    apply or_oom_ok. eexists. split; [done|]. split.
    + apply Hfin. destruct (wi_pre_grown _ _ _ _ Hw1' Hp1) as (_ & _ & P3 & P4).
      apply (written_more w2 w3 (pre ++ [(h, its ++ items_of xs1)]) h2 []); [done| | | |done|by apply items_good].
      * left. by rewrite P3, (gr_size0 _ _ _ _ _ G).
      * unfold total at 1. rewrite P4, app_nil_r. unfold total. rewrite app_assoc. by apply equiv_app; [apply (wi_good w pre h)|..].
      * apply good_app. split; [done|by apply items_good].
    + assert (Hd : (A | round_up (size_ w) A + n0 * es))
        by (apply Z.divide_add_r; [apply round_up_divide|apply Z.divide_mul_r, round_up_divide]).
      pose proof (round_up_least (size_ w1) A _ H2 Hs1 Hd). rewrite Hl2, S1 in Hs3. fold es in Hs3. lia.
Qed.

End sequence.

(** Elements copied as they are. *)
Definition triv_ok (sz : Z) (bs : list (list Z)) : Prop :=
  Forall (fun b => Z.of_nat (length b) = sz) bs /\ Z.of_nat (length (concat bs)) <= addr_limit.

Lemma bulk_nil sz al : obj_ok sz al -> equiv [bulk_item sz al []] [].
Proof.
  intros Ho m base p Hp. destruct (arrayed_obj sz al 0 Ho (Z.le_refl 0)) as [E1 E2]; [done|].
  unfold end_of. cbn [fold_left holds]. unfold extent, bulk_item. cbn [it_size it_align it_bytes length].
  change (Z.of_nat 0) with 0. rewrite E1, E2. cbn. rewrite round_up_id by (done || apply Z.divide_1_l). split; [lia|done].
Qed.

Lemma write_elts_trivial_ok sz al bs w pre h its : obj_ok sz al -> wi w pre h its -> triv_ok sz bs ->
  end_of (size_ w) [bulk_item sz al bs] <= edge h ->
  exists w', write_elts_trivial sz al bs w = Ok w' /\ wi w' pre h (its ++ [bulk_item sz al bs]).
Proof.
  intros Ho H [Hbs Hlim] Hend. pose proof (bulk_item_ok sz al bs Ho Hbs Hlim) as Hit.
  pose proof (wi_bounds _ _ _ _ H). pose proof (wi_limit _ _ _ _ H). pose proof Hit as (Ha & Hm & Hz).
  pose proof (round_up_ge (size_ w) _ (pow2_pos _ Ha)). pose proof (concat_length _ _ Hbs) as Hlen.
  change (end_of (size_ w) [?i]) with (extent (size_ w) i) in Hend.
  assert (Hext : extent (size_ w) (bulk_item sz al bs) = round_up (size_ w) (it_align (bulk_item sz al bs)) + it_size (bulk_item sz al bs)) by done.
  destruct (arrayed_obj sz al (Z.of_nat (length bs)) Ho) as [E1 E2]; [lia|lia|].
  assert (Eal : it_align (bulk_item sz al bs) = if Z.of_nat (length bs) =? 0 then 1 else al) by exact E2.
  unfold write_elts_trivial. rewrite <- Eal, align_up_small by (done || lia). rewrite <- Hlen.
  change (concat bs) with (it_bytes (bulk_item sz al bs)). rewrite <- Hz, (w64_limit (_ + it_size _)), <- Hext by lia.
  destruct (store_append w pre h its _ (if align_ w <? it_align (bulk_item sz al bs) then it_align (bulk_item sz al bs) else align_ w)
    H Hit Hend) as (w' & Hst & Hw'). exists w'. split; [|done].
  unfold store in *. cbn [base_ edge_ size_ align_ chain mem] in Hst.
  destruct (_ || _); [|done]. by injection Hst as <-.
Qed.

Lemma write_sequence_trivial_ok sz al w l0 bs : obj_ok sz al -> al <= 8 -> written w l0 -> triv_ok sz bs ->
  round_up (size_ w) al + Z.of_nat (length bs) * sz + slack <= addr_limit ->
  or_oom (write_sequence_ posix_memalign (write_elts_trivial sz al) sz al bs w) (fun '(_, w') =>
    written w' (l0 ++ [bulk_item sz al bs]) /\ size_ w' <= round_up (size_ w) al + Z.of_nat (length bs) * sz).
Proof.
  intros Ho Hal Hw Hbs Hlim. pose proof Ho as (Hsz & Hp & Hm & Hd).
  assert (E : round_up sz al = sz) by (apply round_up_id; [by apply pow2_pos|done]).
  pose proof (write_hunks_ok (write_elts_trivial sz al) (fun bs => [bulk_item sz al bs]) sz al (triv_ok sz)) as Hseq.
  rewrite !E in Hseq. apply Hseq; try done; try lia; clear Hseq Hw Hbs Hlim w l0 bs.
  - intros l1 l2 [H1 H2]. apply Forall_app in H1 as [H1 H1']. rewrite concat_app, length_app in H2. split; split; done || lia.
  - intros bs [H1 H2]. apply good_one. by apply bulk_item_ok.
  - intros l1 l2 [H1 H2]. by apply bulk_app.
  - by apply bulk_nil.
  - intros bs p q [H1 H2] Hpq Hq. destruct (bulk_plan sz al bs p q Ho H1 H2 ltac:(lia)) as [Hb _].
    unfold plan_array in Hb. rewrite E, (round_up_id q) in Hb.
    + destruct (Z.eqb_spec (Z.of_nat (length bs)) 1) as [E1|]; [rewrite E1; lia|done].
    + pose proof (pow2_pos _ Hp). destruct (_ =? _); lia.
    + destruct (_ =? _); [apply Z.divide_1_l|done].
  - intros bs w pre h its H Hbs Hend. by apply write_elts_trivial_ok.
Qed.

(** Elements serialized by their type. *)
Lemma write_sequence_elements_ok S A w l0 xs : 0 <= S -> pow2 A -> A <= 8 -> round_up S A <= addr_limit ->
  written w l0 -> Forall (element_ok S A) xs ->
  round_up (size_ w) A + Z.of_nat (length xs) * round_up S A + slack <= addr_limit ->
  or_oom (write_sequence_ posix_memalign write_elts S A xs w) (fun '(_, w') =>
    written w' (l0 ++ concat xs) /\ size_ w' <= round_up (size_ w) A + Z.of_nat (length xs) * round_up S A).
Proof.
  intros HS HA HA8 HSA Hw Hxs Hlim. pose proof (pow2_pos _ HA).
  apply (write_hunks_ok write_elts (@concat item) S A (Forall (element_ok S A))); try done; clear Hw Hxs Hlim w l0 xs.
  - intros l1 l2 Hl. by apply Forall_app in Hl.
  - intros l Hl. unfold good. apply Forall_concat. eapply Forall_impl; [exact Hl|]. intros x Hx. apply Hx.
  - intros l1 l2 _. by rewrite concat_app.
  - intros l p q Hl Hpq Hq. apply elements_stacked; done || lia.
  - intros l w pre h its Hw Hl Hend. apply bounded_items_ok; try done.
    unfold good. apply Forall_concat. eapply Forall_impl; [exact Hl|]. intros x Hx. apply Hx.
Qed.

(** ** Whole serializations *)

Definition op_items (o : op) : list item :=
  match o with One it => [it] | SeqTriv sz al bs => [bulk_item sz al bs] | Seq _ _ xs => concat xs end.

Definition op_ok (o : op) : Prop :=
  match o with
  | One it => item_ok it
  | SeqTriv sz al bs => obj_ok sz al /\ al <= 8 /\ triv_ok sz bs
  | Seq U A xs => 0 <= U /\ pow2 A /\ A <= 8 /\ round_up U A <= addr_limit /\ Forall (element_ok U A) xs
  end.

(** The space a call may take, from a position. *)
Definition op_bound (p : Z) (o : op) : Z :=
  match o with
  | One it => extent p it
  | SeqTriv sz al bs => round_up p al + Z.of_nat (length bs) * sz
  | Seq U A xs => round_up p A + Z.of_nat (length xs) * round_up U A
  end.

Definition ops_bound (p : Z) (l : list op) : Z := fold_left op_bound l p.

Definition ops_items (l : list op) : list item := concat (map op_items l).

Lemma op_bound_mono p q o : op_ok o -> p <= q -> op_bound p o <= op_bound q o.
Proof.
  intros Ho H. destruct o as [it|sz al bs|U A xs]; simpl in *.
  - destruct Ho as (Ha & _). pose proof (round_up_mono p q _ (pow2_pos _ Ha) H). unfold extent. lia.
  - destruct Ho as ((_ & Ha & _) & _). pose proof (round_up_mono p q _ (pow2_pos _ Ha) H). lia.
  - destruct Ho as (_ & Ha & _). pose proof (round_up_mono p q _ (pow2_pos _ Ha) H). lia.
Qed.

Lemma op_bound_ge p o : op_ok o -> p <= op_bound p o.
Proof.
  intros Ho. destruct o as [it|sz al bs|U A xs]; simpl in *.
  - by apply extent_ge.
  - destruct Ho as ((Hs & Ha & _) & _). pose proof (round_up_ge p _ (pow2_pos _ Ha)). nia.
  - destruct Ho as (HS & Ha & _). pose proof (round_up_ge p _ (pow2_pos _ Ha)). pose proof (round_up_ge U _ (pow2_pos _ Ha)). nia.
Qed.

Lemma ops_bound_mono p q l : Forall op_ok l -> p <= q -> ops_bound p l <= ops_bound q l.
Proof.
  intros H. revert p q. induction H as [|o l Ho _ IH]; intros p q Hpq; [done|]. by apply IH, op_bound_mono.
Qed.

Lemma ops_bound_ge p l : Forall op_ok l -> p <= ops_bound p l.
Proof.
  intros H. revert p. induction H as [|o l Ho _ IH]; intros p; [done|]. etrans; [by apply (op_bound_ge p o)|apply IH].
Qed.

Lemma exec_ok o w l : written w l -> op_ok o -> op_bound (size_ w) o + slack <= addr_limit ->
  or_oom (exec posix_memalign o w) (fun w' => written w' (l ++ op_items o) /\ size_ w' <= op_bound (size_ w) o).
Proof.
  intros Hw Ho Hlim. destruct o as [it|sz al bs|U A xs]; cbn [exec op_items op_ok op_bound] in *.
  - pose proof (written_size _ _ Hw) as Hsz. eapply or_oom_impl; [apply write_item_ok; try done|].
    + by rewrite end_of_snoc, <- Hsz.
    + intros w' Hw'. split; [done|]. by rewrite (written_size _ _ Hw'), end_of_snoc, <- Hsz.
  - destruct Ho as (? & ? & ?). eapply or_oom_bind; [by apply (write_sequence_trivial_ok sz al w l)|]. by intros [n w'].
  - destruct Ho as (? & ? & ? & ? & ?). eapply or_oom_bind; [by apply (write_sequence_elements_ok U A w l)|]. by intros [n w'].
Qed.

Lemma run_ok os w l : written w l -> Forall op_ok os -> ops_bound (size_ w) os + slack <= addr_limit ->
  or_oom (run posix_memalign os w) (fun w' => written w' (l ++ ops_items os)).
Proof.
  intros Hw Hos. revert w l Hw. induction Hos as [|o os Ho Hos IH]; intros w l Hw Hlim; [cbn; by rewrite app_nil_r|].
  change (ops_bound (size_ w) (o :: os)) with (ops_bound (op_bound (size_ w) o) os) in Hlim.
  pose proof (ops_bound_ge (op_bound (size_ w) o) os Hos). cbn [run].
  eapply or_oom_bind; [apply (exec_ok o w l); [done|done|lia]|]. intros w' [Hw' Hsz].
  eapply or_oom_impl; [apply (IH w' _ Hw')|].
  - pose proof (ops_bound_mono _ _ _ Hos Hsz). lia.
  - intros w'' H''. unfold ops_items. cbn [map concat]. by rewrite app_assoc.
Qed.

(** A new writer on a buffer of the caller. *)
Lemma init_ok buf cap m : 0 <= buf -> (align_max | buf) -> sizeof_footer <= cap -> buf + cap <= addr_limit ->
  exists w, init buf cap m = Ok w /\ written w [] /\ size_ w = 0 /\ mem w = m
    /\ chain w = [mk_hunk buf (buf + (cap / 8 * 8 - sizeof_footer)) 0].
Proof.
  intros Hb Hd Hc Hl. unfold init, sizeof_footer in *.
  assert (E : Z.land cap (w64 (- alignof_footer)) = cap / 8 * 8).
  { apply (land_w64_opp cap 3); [lia|]. unfold is_u64, w64_mod, addr_limit in *. lia. }
  rewrite E. pose proof (Z.div_mod cap 8 ltac:(lia)). pose proof (Z.mod_pos_bound cap 8 ltac:(lia)).
  assert (24 <= cap / 8 * 8) by lia. rewrite (w64_limit (_ - 24)), (w64_limit (buf + _)) by lia.
  destruct (Z.leb_spec 24 cap); [|lia]. mcbn. rewrite is_aligned_spec by (done || apply pow2_align_max). mcbn.
  eexists. split; [done|]. split_and!; [|done..].
  exists [], (mk_hunk buf (buf + (cap / 8 * 8 - 24)) 0), [].
  assert (Ef : floor 0 = 0) by done.
  split_and!; [|by left|done|constructor].
  split; cbn [chain mem size_ edge_ base_]; unfold edge, area; cbn [front footer size0]; rewrite ?Ef; try done.
  - constructor; [|constructor]. split; unfold area, sizeof_footer; cbn [front footer size0]; try done; try lia.
    replace (buf + (cap / 8 * 8 - 24) - buf) with ((cap / 8 - 3) * 8) by lia. by exists (cap / 8 - 3).
  - split_and!; [done| |done|constructor]. unfold end_of, edge, area. cbn [fold_left size0 footer front]. rewrite Ef. lia.
  - lia.
  - rewrite Z.sub_0_r. symmetry. apply w64_limit. lia.
  - lia.
Qed.

(** ** By type *)

(** No sequence of elements with a static bound needs more than 8. *)
Fixpoint aligns8 (t : ty) : Prop :=
  match t with
  | TTriv _ _ | TEmpty | TNil => True
  | TCons t ts => aligns8 t /\ aligns8 ts
  | TArray _ t | TSeq _ t => if static t then plan_align t (dummy t) <= 8 else aligns8 t
  | TStr csz => csz <= 8
  | TFwd t => aligns8 t
  end.

Lemma ops_items_app l1 l2 : ops_items (l1 ++ l2) = ops_items l1 ++ ops_items l2.
Proof. unfold ops_items. by rewrite map_app, concat_app. Qed.

Definition op_of (f : val -> option (list op)) (P : Prop) (v : val) (its : list item) : Prop :=
  exists os, f v = Some os /\ ops_items os = its /\ (P -> small its -> Forall op_ok os).

Lemma each_ok f P l itss : Forall2 (op_of f P) l itss ->
  exists os, each f l = Some os /\ ops_items os = concat itss /\ (P -> small (concat itss) -> Forall op_ok os).
Proof.
  intros H. unfold each. induction H as [|v its l itss (os & E1 & E2 & E3) _ (oss & F1 & F2 & F3)]; [by exists []|].
  cbn [mapM]. rewrite E1. apply bind_Some in F1 as (xs & F1 & [= <-]). cbn [mbind option_bind]. rewrite F1. cbn.
  eexists. split; [done|]. rewrite ops_items_app, E2, F2. split; [done|].
  intros HP [H1 H2]%Forall_app. apply Forall_app. auto.
Qed.

Lemma static_elements t l itss : ty_ok t -> static t = true ->
  Forall2 (fun v i => serialize t v = Some i) l itss -> small (concat itss) ->
  Forall (element_ok (plan t 0 (dummy t)) (plan_align t (dummy t))) itss.
Proof.
  intros Ht Hst H Hs. apply forall2_small in H; [|done].
  clear Hs. induction H as [|v i l itss [Hv Hi] _ IH]; constructor; [|exact IH].
  destruct (plan_bounds t Ht (static_valid t Hst) v i Hv Hi) as [I1 I2]. pose proof (serialize_shaped _ _ _ Hv) as Hsh.
  split; [by apply (serialize_ok t Ht v)| |].
  - by rewrite (plan_static_align t (dummy t) v) by (done || apply shaped_dummy).
  - rewrite (plan_static t (dummy t) v) by (done || apply shaped_dummy). by apply I2.
Qed.

Lemma sequence_ops_ok t c l its : ty_ok t ->
  (forall v i, serialize t v = Some i -> op_of (ops t) (fits t /\ aligns8 t) v i) ->
  write_sequence (serialize t) t c l = Some its ->
  exists os, sequence_ops (serialize t) (ops t) t c l = Some os /\ ops_items os = its /\
    (fits t /\ (static t = true -> plan t 0 (dummy t) <= addr_limit) /\
     (if static t then plan_align t (dummy t) <= 8 else aligns8 t) -> small its -> Forall op_ok os).
Proof.
  intros Ht IH H. apply write_sequence_cases in H as [(sz & al & bs & -> & -> & -> & Hbs & ->)|(itss & H & -> & Hc)].
  - cbn [sequence_ops]. assert (mapM (triv_bytes sz) (map VBytes bs) = Some bs) as ->.
    { apply mapM_Some. clear - Hbs. induction Hbs as [|b bs Hb _ IH]; constructor; [|done]. by apply triv_bytes_some. }
    eexists. split; [done|]. split; [done|]. intros (_ & _ & Ha) Hs. constructor; [|constructor].
    apply Forall_cons in Hs as [Hs _]. by split_and!.
  - assert (E : sequence_ops (serialize t) (ops t) t c l = if is_valid (static_ubound t)
        then xs ← mapM (serialize t) l; Some [Seq (size (static_ubound t)) (align (static_ubound t)) xs] else each (ops t) l).
    { destruct t; try done. by destruct Hc as [?| ->]. }
    rewrite E. clear E. destruct (static t) eqn:Hst.
    + destruct (is_valid (static_ubound t)) eqn:Hval.
      * rewrite (proj2 (mapM_Some _ _ _) H). eexists. split; [done|]. split; [by unfold ops_items; simpl; rewrite app_nil_r|].
        intros (Hf & Hlim & Ha) Hs. specialize (Hlim eq_refl). constructor; [|constructor].
        destruct (static_ubound_denotes t Ht Hf Hst Hlim) as [-> -> _ _ Hr Hok]. pose proof Hok as [Hp Hm].
        cbn [op_ok]. split_and!; try done; [lia| |by apply (static_elements t l)].
        apply round_up_least; [by apply pow2_pos|done|]. etrans; [apply (pow2_divide _ align_max); [done|apply pow2_align_max|done]|].
        by exists (2 ^ 57).
      * destruct (each_ok (ops t) (fits t /\ aligns8 t) l itss) as (os & E1 & E2 & _).
        { eapply Forall2_impl; [exact H|]. auto. }
        exists os. split_and!; [done..|]. intros (Hf & Hlim & _). exfalso.
        destruct (denotes_valid _ _ _ _ (static_ubound_denotes t Ht Hf Hst (Hlim eq_refl))) as [Hv _]. congruence.
    + unfold static_ubound. rewrite static_of_not_static by (apply ubound_not_static; auto using shaped_dummy).
      change (is_valid invalid_storage_size) with false. cbn iota.
      destruct (each_ok (ops t) (fits t /\ aligns8 t) l itss) as (os & E1 & E2 & E3).
      { eapply Forall2_impl; [exact H|]. auto. }
      exists os. split_and!; [done..|]. intros (Hf & _ & Ha). by apply E3.
Qed.

Lemma ops_ok t : ty_ok t -> forall v its, serialize t v = Some its -> op_of (ops t) (fits t /\ aligns8 t) v its.
Proof.
  induction t as [sz al| | |t IHt ts IHts|n t IHt|csz|c t IHt|t IHt]; intros Ht v its H;
    destruct v as [b| |v w|l]; try done; cbn [serialize] in H; unfold op_of; cbn [ops fits aligns8 ty_ok] in *.
  - apply bind_Some in H as (x & Hx & [= <-]). rewrite Hx. eexists. split; [done|]. split; [done|].
    intros _ Hs. constructor; [|constructor]. apply triv_bytes_some in Hx as [_ Hx]. by apply obj_item_ok.
  - injection H as <-. by exists [].
  - injection H as <-. by exists [].
  - apply bind_Some in H as (a & Ha & H). apply bind_Some in H as (b & Hb & [= <-]). destruct Ht as [Ht1 Ht2].
    destruct (IHt Ht1 v a Ha) as (o1 & -> & E1 & F1), (IHts Ht2 w b Hb) as (o2 & -> & E2 & F2). cbn.
    eexists. split; [done|]. rewrite ops_items_app, E1, E2. split; [done|].
    intros [[G1 G2] [G3 G4]] [H1 H2]%Forall_app. apply Forall_app. auto.
  - destruct (Nat.eqb (length l) n); [|done]. destruct (sequence_ops_ok t true l its Ht (IHt Ht) H) as (os & E1 & E2 & E3).
    exists os. split_and!; [done..|]. intros [[? ?] ?]. by apply E3.
  - destruct (_ <? _); [|done]. apply bind_Some in H as (bs & Hbs & [= <-]). rewrite Hbs. cbn. eexists. split; [done|].
    apply triv_list in Hbs as [-> Hbs]. rewrite !length_map. split; [done|]. intros [_ Ha] Hs.
    apply Forall_cons in Hs as [_ Hs]. apply Forall_cons in Hs as [Hs _].
    constructor; [apply size_t_item_ok|]. constructor; [|constructor]. by split_and!.
  - destruct (_ <? _); [|done]. apply bind_Some in H as (i & Hi & [= <-]).
    destruct (sequence_ops_ok t c l i Ht (IHt Ht) Hi) as (os & -> & E2 & E3). cbn. eexists. split; [done|].
    split; [by rewrite <- E2|]. intros [[? ?] ?] [_ Hs]%Forall_cons. constructor; [apply size_t_item_ok|]. by apply E3.
  - destruct (_ <? _); [|done]. apply bind_Some in H as (i & Hi & [= <-]).
    assert (Hi' : exists itss, Forall2 (fun v i => serialize t v = Some i) l itss /\ i = concat itss).
    { destruct t; cbn [write_sequence] in Hi; apply bind_Some in Hi as (itss & Hi%mapM_Some & [= <-]); by exists itss. }
    destruct Hi' as (itss & Hf & ->).
    destruct (each_ok (ops t) (fits t /\ aligns8 t) l itss) as (os & -> & E2 & E3).
    { eapply Forall2_impl; [exact Hf|]. auto. }
    cbn. eexists. split; [done|]. split; [by rewrite <- E2|].
    intros [[? ?] ?] [_ Hs]%Forall_cons. constructor; [apply size_t_item_ok|]. by apply E3.
Qed.

(** C17: the unbounded writer refines the bounded one.  Whatever the initial buffer
    and the addresses the system returns, serializing a value whose static-bound
    sequences need an alignment of at most 8 never stores outside a hunk or fails
    an assertion, unless memory runs out; the final size is the extent of the
    value; and compaction into any buffer clear of the hunks leaves bytes that
    deserialize to the value, freeing every hunk but the caller's. *)
Theorem unbounded_refines t v its os buf cap m : ty_ok t -> fits t -> aligns8 t ->
  serialize t v = Some its -> small its -> ops t v = Some os ->
  0 <= buf -> (align_max | buf) -> sizeof_footer <= cap -> buf + cap <= addr_limit ->
  ops_bound 0 os + slack <= addr_limit ->
  or_oom (w ← init buf cap m; run posix_memalign os w) (fun w => size_ w = end_of 0 its /\
    forall dst, 0 <= dst -> (align_max | dst) -> dst + size_ w <= addr_limit ->
      Forall (fun h => dst + size_ w <= front h \/ footer h <= dst) (chain w) ->
      let '(w', freed) := compact_and_invalidate dst w in
      deserialize t (mem w') dst = Ok (v, dst + size_ w) /\ freed = map front (tl (chain w))).
Proof.
  intros Ht Hf Ha Hs Hsm Ho Hb Hba Hc Hl Hlim.
  destruct (init_ok buf cap m Hb Hba Hc Hl) as (w0 & -> & Hw0 & Hsz0 & _). cbn [mbind res_bind].
  destruct (ops_ok t Ht v its Hs) as (os' & Ho' & Hits & Hok). rewrite Ho in Ho'. injection Ho' as <-.
  eapply or_oom_impl; [apply (run_ok os w0 []); [done|by apply Hok|by rewrite Hsz0]|].
  cbn [app]. rewrite Hits. intros w Hw. pose proof (written_size _ _ Hw) as Hsz. split; [done|].
  intros dst Hd Hda Hdl Hdis. destruct Hw as (pre & h & hits & H & Hp & He & Hg).
  destruct (wi_pre_grown _ _ _ _ H Hp) as (P1 & P2 & P3 & P4). unfold compact_and_invalidate.
  pose proof (compact_loop_ok dst (size_ w) (pre ++ [(h, hits)]) (mem w) 0 true Hd Hdl) as Hcl. rewrite P1, P4 in Hcl.
  assert (Es : match pre ++ [(h, hits)] with (h1, _) :: _ => size0 h1 | [] => 0 end = 0).
  { pose proof (wi_first _ _ _ _ H) as Hfirst. rewrite <- P1 in Hfirst.
    destruct (pre ++ [(h, hits)]) as [|[h1 i1] l1]; [done|]. by injection Hfirst. }
  cbn zeta in Hcl. rewrite Es in Hcl.
  destruct (compact_loop dst (size_ w) 0 true (chain w) (mem w)) as [m' freed].
  destruct Hcl as (C1 & _ & C3); try done.
  { rewrite (wi_chain _ _ _ _ H). apply H. }
  { by destruct pre. }
  cbn [mem]. split; [|done]. destruct (He m' dst 0 (Z.le_refl 0)) as [_ He']. apply He' in C1.
  rewrite Hsz. rewrite <- (Z.add_0_r dst) at 1.
  apply (deserialize_ok m' dst Hd Hda t Ht v its Hs Hsm 0); [done|by apply (serialize_ok t Ht v)|by rewrite <- Hsz|done].
Qed.

End alloc.

(** ** An allocator that satisfies what is assumed *)

Definition bump (used : list (Z * Z)) (al sz : Z) : option Z :=
  let p := round_up (fold_right (fun '(_, b) x => Z.max b x) 4096 used) al in
  if (0 <? al) && (p + sz <=? addr_limit) then Some p else None.

Lemma bump_ok : memalign_ok bump.
Proof.
  intros used al sz p. unfold bump. set (top := fold_right _ 4096 used).
  destruct (Z.ltb_spec 0 al) as [Hal|]; [|done]. cbn [andb]. destruct (Z.leb_spec (round_up top al + sz) addr_limit) as [Hl|]; [|done].
  intros [= <-]. pose proof (round_up_ge top al Hal).
  assert (Htop : 4096 <= top /\ Forall (fun '(a, b) => b <= top) used).
  { unfold top. clear. induction used as [|[a b] used [IH1 IH2]]; [by split|]. cbn [fold_right]. split; [lia|].
    constructor; [lia|]. eapply Forall_impl; [exact IH2|]. intros [a' b'] Hb. simpl in *. lia. }
  destruct Htop as [H1 H2]. split_and!; [lia|apply round_up_divide|done|].
  eapply Forall_impl; [exact H2|]. intros [a b] Hb. simpl in *. lia.
Qed.

Definition words_ty : ty := TSeq true (TTriv 8 8).
Definition words_val : val := VSeq (map (fun i => VBytes [i; 0; 0; 0; 0; 0; 0; i]) [1; 2; 3; 4; 5; 6]).

Lemma words_ok : ty_ok words_ty.
Proof. cbn. unfold obj_ok, addr_limit, align_max. split_and!; try lia; [by exists 3|by exists 1]. Qed.

Lemma unbounded_refines_witness :
  exists os w, ops words_ty words_val = Some os /\ (w ← init 640 64 ∅; run bump os w) = Ok w
    /\ length (chain w) = 2%nat /\ size_ w = 56
    /\ deserialize words_ty (mem (compact_and_invalidate 128 w).1) 128 = Ok (words_val, 184).
Proof.
  set (os := match ops words_ty words_val with Some os => os | None => [] end).
  set (its := match serialize words_ty words_val with Some its => its | None => [] end).
  exists os, (match (w ← init 640 64 ∅; run bump os w) with Ok w => w | _ => Hunks.mk_writer 0 0 0 1 [] ∅ end).
  pose proof (unbounded_refines bump bump_ok words_ty words_val its os 640 64 ∅ words_ok) as H.
  destruct (w ← init 640 64 ∅; run bump os w) as [w| | |] eqn:E; [|vm_compute in E; discriminate E..].
  destruct H as [H1 H2].
  - by split.
  - vm_compute. discriminate.
  - vm_compute. reflexivity.
  - repeat constructor; vm_compute; discriminate.
  - vm_compute. reflexivity.
  - done.
  - by exists 10.
  - done.
  - done.
  - vm_compute. discriminate.
  - assert (Hsz : size_ w = 56) by (rewrite H1; vm_compute; reflexivity).
    assert (Hch : map (fun h => (front h, footer h)) (chain w) = [(640, 680); (4096, 4584)]).
    { assert (Ew : map (fun h => (front h, footer h)) (chain (match (w ← init 640 64 ∅; run bump os w) with Ok w => w | _ => w end))
        = [(640, 680); (4096, 4584)]) by (vm_compute; reflexivity). by rewrite E in Ew. }
    split_and!; [vm_compute; reflexivity|done|by rewrite <- (length_map (fun h => (front h, footer h))), Hch|done|].
    specialize (H2 128 ltac:(lia) ltac:(by exists 2) ltac:(rewrite Hsz; vm_compute; discriminate)).
    destruct (compact_and_invalidate 128 w) as [w' freed]. cbn [fst]. rewrite Hsz in H2. apply H2.
    destruct (chain w) as [|h1 [|h2 [|h3 l]]]; try discriminate Hch. injection Hch as E1 E2 E3 E4.
    repeat constructor; lia.
Defined.

(** Elements aligned to 16 overrun the hunk.  An object of 480 bytes and a
    vector of two elements of size and alignment 16, which the bounded writer
    writes within 528 bytes: on an initial buffer of 512 bytes the room left in
    the hunk is computed as [edge_ - size0] with [size0] rounded up past [edge_],
    wraps around, and the elements are stored past the end of the buffer. *)
Theorem unbounded_overruns_hunk :
  let t := TCons (TTriv 480 8) (TCons (TSeq true (TTriv 16 16)) TNil) in
  let v := VPair (VBytes (repeat 7 480)) (VPair (VSeq (repeat (VBytes (repeat 1 16)) 2)) VUnit) in
  exists its os w', serialize t v = Some its /\ ops t v = Some os
    /\ Layout.write_items its (writer_init 640 528 ∅) = Ok w' /\ w_size w' = 528
    /\ (w ← init 640 512 ∅; run bump os w) = Undef.
Proof.
  intros t v. set (its := match serialize t v with Some i => i | None => [] end).
  exists its, (match ops t v with Some os => os | None => [] end),
    (match Layout.write_items its (writer_init 640 528 ∅) with Ok w => w | _ => writer_init 0 0 ∅ end).
  split_and!; vm_compute; reflexivity.
Qed.

(** The number of elements [write_sequence] returns is what is left after the
    first hunk, not what was written: for elements that fit in it, 0. *)
Lemma write_sequence_count :
  (w ← init 640 512 ∅;
   '(n, w) ← write_sequence_ bump (write_elts_trivial 1 1) 1 1 [[1]; [2]; [3]] w; Ok (n, size_ w)) = Ok (0, 3).
Proof. vm_compute. reflexivity. Qed.

End Refinement.
