(* ===== verification/FutureCore.v ===== *)
(** The core of futures: [src/future/core.hpp], [src/future/core.cpp] and the
    parts of [future/impl_shref.hpp], [impl_when_all.hpp], [then.hpp],
    [make_future.hpp] and [promise.hpp] that build and destroy headers.

    A heap holds future headers, with their reference counts and status codes,
    and bodies, with the dependency links embedded in them; the intrusive lists of
    successors and of active futures are lists.  Every operation is executable.
    What holds of them is in [FutureInvariant.v] and [FutureSafety.v]. *)
From S2P Require Import Prelude.

Module Futures.

(** * Data *)

Abbreviation hid := nat.
Abbreviation bid := nat.

(** A link is part of a body: its address is the body's and an index. *)
Abbreviation lid := (nat * nat)%type.

(** Result tuples. *)
Definition val := list Z.

Definition status_active : Z := 0.
Definition status_ready : Z := -1.
Definition status_proxying : Z := -2.
Definition status_proxying_active : Z := -3.
Definition status_results_yes : Z := 1.
Definition status_results_no : Z := 2.

Record dependency_link := mk_link { dep : hid; suc : option hid }.

(** [future_body_then], [future_body_identity], [future_body_proxy]. *)
Inductive body_kind := BThen | BIdentity | BProxy.
Record future_body := mk_body { bkind : body_kind; links : list dependency_link }.

(** The union of [result_] and [body_]. *)
Inductive payload := Result (h : hid) | Body (b : bid).

(** [future_header_result], [future_header_promise] with its [countdown],
    [future_header_dependent]. *)
Inductive header_kind := KResult | KPromise (countdown : Z) | KDependent.

(** [void] tells that [T...] is empty; [results] are the constructed results. *)
Record future_header := mk_header {
  ref_n : Z; status : Z; sucs : list lid; load : payload;
  kind : header_kind; void : bool; results : option val
}.

(** [active] is the queue of active futures when there is one; [next_h] and
    [next_b] are the next fresh addresses. *)
Record heap := mk_heap {
  hs : gmap hid future_header; bs : gmap bid future_body; active : option (list hid);
  next_h : hid; next_b : bid
}.

(** ** Access *)

Definition get (h : hid) (st : heap) : res future_header := deref (hs st !! h).
Definition get_body (b : bid) (st : heap) : res future_body := deref (bs st !! b).
Definition get_link (l : lid) (st : heap) : res dependency_link :=
  x ← get_body l.1 st; deref (links x !! l.2).

Definition put (h : hid) (x : future_header) (st : heap) : heap :=
  mk_heap (<[h := x]> (hs st)) (bs st) (active st) (next_h st) (next_b st).
Definition put_body (b : bid) (x : future_body) (st : heap) : heap :=
  mk_heap (hs st) (<[b := x]> (bs st)) (active st) (next_h st) (next_b st).
Definition put_active (q : option (list hid)) (st : heap) : heap :=
  mk_heap (hs st) (bs st) q (next_h st) (next_b st).

Definition put_link (l : lid) (x : dependency_link) (st : heap) : res heap :=
  b ← get_body l.1 st;
  _ ← deref (links b !! l.2);
  Ok (put_body l.1 (mk_body (bkind b) (<[l.2 := x]> (links b))) st).

Definition free (h : hid) (st : heap) : res heap :=
  _ ← get h st; Ok (mk_heap (delete h (hs st)) (bs st) (active st) (next_h st) (next_b st)).
Definition free_body (b : bid) (st : heap) : res heap :=
  _ ← get_body b st; Ok (mk_heap (hs st) (delete b (bs st)) (active st) (next_h st) (next_b st)).

Definition alloc (x : future_header) (st : heap) : hid * heap :=
  (next_h st, mk_heap (<[next_h st := x]> (hs st)) (bs st) (active st) (S (next_h st)) (next_b st)).
Definition alloc_body (x : future_body) (st : heap) : bid * heap :=
  (next_b st, mk_heap (hs st) (<[next_b st := x]> (bs st)) (active st) (next_h st) (S (next_b st))).

Definition set_ref (n : Z) (x : future_header) : future_header :=
  mk_header n (status x) (sucs x) (load x) (kind x) (void x) (results x).
Definition set_status (s : Z) (x : future_header) : future_header :=
  mk_header (ref_n x) s (sucs x) (load x) (kind x) (void x) (results x).
Definition set_sucs (l : list lid) (x : future_header) : future_header :=
  mk_header (ref_n x) (status x) l (load x) (kind x) (void x) (results x).
Definition set_load (p : payload) (x : future_header) : future_header :=
  mk_header (ref_n x) (status x) (sucs x) p (kind x) (void x) (results x).
Definition set_kind (k : header_kind) (x : future_header) : future_header :=
  mk_header (ref_n x) (status x) (sucs x) (load x) k (void x) (results x).
Definition set_results (v : option val) (x : future_header) : future_header :=
  mk_header (ref_n x) (status x) (sucs x) (load x) (kind x) (void x) v.

Definition body_of (x : future_header) : res bid :=
  match load x with Body b => Ok b | Result _ => Undef end.
Definition result_of (x : future_header) : res hid :=
  match load x with Result r => Ok r | Body _ => Undef end.

#[export] Instance body_kind_eq_dec : EqDecision body_kind.
Proof. solve_decision. Defined.
#[export] Instance payload_eq_dec : EqDecision payload.
Proof. solve_decision. Defined.
#[export] Instance header_kind_eq_dec : EqDecision header_kind.
Proof. solve_decision. Defined.

(** * Reference counts *)

Definition incref (h : hid) (n : Z) (st : heap) : res heap :=
  x ← get h st; Ok (if 0 <=? ref_n x then put h (set_ref (ref_n x + n) x) st else st).

Definition decref (h : hid) (n : Z) (st : heap) : res (Z * heap) :=
  x ← get h st;
  Ok (if 0 <=? ref_n x then (ref_n x - n, put h (set_ref (ref_n x - n) x) st) else (ref_n x, st)).

(** [future_header_ops_result_ready::dropref] *)
Definition dropref_result (r : hid) (st : heap) : res heap :=
  '(n, st) ← decref r 1 st; if n =? 0 then free r st else Ok st.

(** [future_header_ops_general::delete1] *)
Definition delete1 (h : hid) (st : heap) : res heap :=
  x ← get h st;
  if status x =? status_ready then
    r ← result_of x;
    if Nat.eqb r h then free h st
    else st ← dropref_result r st; free h st
  else
    match load x with
    | Result r => _ ← assert_that (Nat.eqb r h); free h st
    | Body _ => Aborted
    end.

(** [future_header_ops_general::dropref] *)
Definition dropref (h : hid) (st : heap) : res heap :=
  '(n, st) ← decref h 1 st; if n =? 0 then delete1 h st else Ok st.

Definition drop_for_result (a : hid) (st : heap) : res (hid * heap) :=
  xa ← get a st;
  b ← result_of xa;
  xb ← get b st;
  let a_unit := if (ref_n xa <? 0) || Nat.eqb a b then 0 else 1 in
  let b_unit := if (ref_n xb <? 0) || Nat.eqb a b then 0 else 1 in
  let a_refs := ref_n xa - a_unit in
  let b_refs := ref_n xb + b_unit in
  let b_refs := if a_refs =? 0 then b_refs - b_unit else b_refs in
  let st := if a_unit =? 1 then put a (set_ref a_refs xa) st else st in
  let st := if b_unit =? 1 then put b (set_ref b_refs xb) st else st in
  st ← (if a_refs =? 0 then free a st else Ok st);
  Ok (b, st).

(** [dependency_link::unlink] *)
Definition unlink (l : lid) (st : heap) : res heap :=
  x ← get_link l st;
  match suc x with
  | None => Ok st
  | Some _ =>
      d ← get (dep x) st;
      if decide (l ∈ sucs d) then Ok (put (dep x) (set_sucs (filter (fun l' => l' <> l) (sucs d)) d) st)
      else Undef
  end.

Definition drop_for_proxied (a : hid) (st : heap) : res (hid * heap) :=
  xa ← get a st;
  ab ← body_of xa;
  lk ← get_link (ab, O) st;
  let b := dep lk in
  xb ← get b st;
  let b_unit := if ref_n xb <? 0 then 0 else 1 in
  let a_refs := ref_n xa - 1 in
  let b_refs := ref_n xb + b_unit in
  let b_refs := if a_refs =? 0 then b_refs - b_unit else b_refs in
  let st := put a (set_ref a_refs xa) st in
  let st := if b_unit =? 1 then put b (set_ref b_refs xb) st else st in
  st ← (if a_refs =? 0 then
          st ← (if status xa =? status_proxying then unlink (ab, O) st else Ok st);
          st ← free_body ab st; free a st
        else Ok st);
  Ok (b, st).

(** * Becoming active and ready *)

(** Adding to the active queue; when there is none, one is made, of which the
    future is the first: [entered_active] and the loops that deplete the queue. *)
Definition enqueue_active (h : hid) (st : heap) : heap :=
  put_active (Some (match active st with Some q => q ++ [h] | None => [h] end)) st.

(** The traversal of the successors in [entered_ready_with_sucs]. *)
Fixpoint notify (result : hid) (l : list lid) (st : heap) : res heap :=
  match l with
  | [] => Ok st
  | link :: l =>
      lk ← get_link link st;
      s ← deref (suc lk);
      st ← put_link link (mk_link result None) st;
      xs ← get s st;
      let st := put s (set_status (status xs - 1) xs) st in
      notify result l (if status xs - 1 <=? status_active then enqueue_active s st else st)
  end.

Definition entered_ready_with_sucs (h result : hid) (l : list lid) (st : heap) : res heap :=
  x ← get h st;
  _ ← assert_that (0 <? ref_n x);
  let this_unit := if Nat.eqb result h then 0 else 1 in
  r ← get result st;
  let result_unit := if Nat.eqb result h || (ref_n r <? 0) then 0 else 1 in
  let st := match active st with None => put_active (Some []) st | Some _ => st end in
  st ← notify result l (put h (set_sucs [] x) st);
  let n := Z.of_nat (length l) in
  let this_refs := ref_n x - n * this_unit in
  let result_refs := ref_n r + n * result_unit in
  let result_refs := if this_refs =? 0 then result_refs - result_unit else result_refs in
  x ← get h st;
  let st := if this_unit =? 1 then put h (set_ref this_refs x) st else st in
  r ← get result st;
  let st := if result_unit =? 1 then put result (set_ref result_refs r) st else st in
  if this_refs =? 0 then free h st else Ok st.

Definition enter_ready (h result : hid) (st : heap) : res heap :=
  x ← get h st;
  let st := put h (set_status status_ready (set_load (Result result) x)) st in
  match sucs x with
  | [] => Ok st
  | l => entered_ready_with_sucs h result l st
  end.

(** The successors that proxy a header, in the order of the list. *)
Fixpoint split_proxies (l : list lid) (st : heap) : res (list lid * list lid) :=
  match l with
  | [] => Ok ([], [])
  | link :: l =>
      lk ← get_link link st;
      s ← deref (suc lk);
      xs ← get s st;
      '(pr, rest) ← split_proxies l st;
      Ok (if status xs =? status_proxying then (link :: pr, rest) else (pr, link :: rest))
  end.

Fixpoint redirect (proxied : hid) (l : list lid) (st : heap) : res heap :=
  match l with
  | [] => Ok st
  | link :: l =>
      lk ← get_link link st;
      st ← put_link link (mk_link proxied (suc lk)) st;
      redirect proxied l st
  end.

(** [future_header_dependent::enter_proxying] for a fresh proxy body in storage
    [b].  A header that would proxy itself is excluded by its callers: the code
    then loops forever. *)
Definition enter_proxying (h : hid) (b : bid) (p : hid) (st : heap) : res heap :=
  xp ← get p st;
  '(p, b, st) ← (if (status xp =? status_proxying) || (status xp =? status_proxying_active) then
      pb ← body_of xp;
      lk ← get_link (pb, O) st;
      let p1 := dep lk in
      st ← incref p1 1 st;
      '(n, st) ← decref p 1 st;
      if n =? 0 then
        st ← put_link (pb, O) (mk_link p1 (Some h)) st;
        st ← free_body b st;
        st ← free p st;
        Ok (p1, pb, st)
      else Ok (p1, b, st)
    else Ok (p, b, st));
  xp ← get p st;
  if status xp =? status_ready then
    '(n, st) ← decref h 1 st;
    _ ← assert_that (negb (n =? 0));
    '(r, st) ← drop_for_result p st;
    st ← enter_ready h r st;
    free_body b st
  else if Nat.eqb p h then Undef
  else
    x ← get h st;
    '(pr, rest) ← split_proxies (sucs x) st;
    st ← redirect p pr st;
    let n := Z.of_nat (length pr) in
    let this_refs := ref_n x - n in
    let proxied_refs := if this_refs =? 0 then ref_n xp + n - 1 else ref_n xp + n in
    let xp := set_sucs (rev pr ++ sucs xp) (if 0 <=? ref_n xp then set_ref proxied_refs xp else xp) in
    let st := put p xp st in
    let x := set_status status_proxying (set_sucs rest x) in
    let st := put h x st in
    if this_refs =? 0 then
      st ← free_body b st; free h st
    else
      let st := put_body b (mk_body BProxy [mk_link p (Some h)]) st in
      let st := put p (set_sucs ((b, O) :: sucs xp) xp) st in
      Ok (put h (set_ref this_refs (set_load (Body b) x)) st).

(** What a proxy of [p] would proxy. *)
Definition proxied_by (p : hid) (st : heap) : res hid :=
  x ← get p st;
  if (status x =? status_proxying) || (status x =? status_proxying_active) then
    b ← body_of x; lk ← get_link (b, O) st; Ok (dep lk)
  else Ok p.

(** * Building futures *)

(** The constructor of a dependency of [h], whose body is [b], on [a]: the link is
    added to the body. *)
Definition add_dependency (h : hid) (b : bid) (a : hid) (st : heap) : res heap :=
  xa ← get a st;
  '(a, st) ← (if (status xa =? status_proxying) || (status xa =? status_proxying_active)
              then drop_for_proxied a st else Ok (a, st));
  xa ← get a st;
  if negb (status xa =? status_ready) then
    xb ← get_body b st;
    let st := put_body b (mk_body (bkind xb) (links xb ++ [mk_link a (Some h)])) st in
    let st := put a (set_sucs ((b, length (links xb)) :: sucs xa) xa) st in
    x ← get h st;
    Ok (put h (set_status (status x + 1) x) st)
  else
    '(r, st) ← drop_for_result a st;
    xb ← get_body b st;
    Ok (put_body b (mk_body (bkind xb) (links xb ++ [mk_link r None])) st).

Fixpoint add_dependencies (h : hid) (b : bid) (args : list hid) (st : heap) : res heap :=
  match args with
  | [] => Ok st
  | a :: args => st ← add_dependency h b a st; add_dependencies h b args st
  end.

(** A new dependent header with a body: [future_body_then::make_header] and
    [future_impl_when_all::steal_header]. *)
Definition make_header (k : body_kind) (is_void : bool) (args : list hid) (st : heap) : res (hid * heap) :=
  let '(b, st) := alloc_body (mk_body k []) st in
  let '(h, st) := alloc (mk_header 2 status_active [] (Body b) KDependent is_void None) st in
  st ← add_dependencies h b args st;
  x ← get h st;
  Ok (h, if status x =? status_active then enqueue_active h st else st).

(** Ready results and promises. *)
Definition new_result (v : val) (st : heap) : hid * heap :=
  alloc (mk_header 1 status_ready [] (Result (next_h st)) KResult (Nat.eqb (length v) 0) (Some v)) st.

Definition always : hid := O.

(** [make_future], [future_impl_result::steal_header] *)
Definition make_future (v : val) (st : heap) : hid * heap :=
  match v with [] => (always, st) | _ => new_result v st end.

Definition new_promise (is_void : bool) (deps : Z) (st : heap) : res (hid * heap) :=
  _ ← assert_that (1 <=? deps);
  Ok (alloc (mk_header 1 (if is_void then status_results_yes else status_results_no) []
               (Result (next_h st)) (KPromise deps) is_void (if is_void then Some [] else None)) st).

(** * Reading a future *)

(** [future_impl_shref::ready] *)
Definition is_ready (h : hid) (st : heap) : res bool := x ← get h st; Ok (status x =? status_ready).

(** [future1::result], which asserts readiness. *)
Definition result (h : hid) (st : heap) : res val :=
  r ← is_ready h st; _ ← assert_that r;
  x ← get h st; q ← result_of x; y ← get q st; deref (results y).

(** * [when_all] *)

(** The destructors of the arguments that stay behind. *)
Fixpoint drop_all (l : list hid) (st : heap) : res heap :=
  match l with [] => Ok st | h :: l => st ← dropref h st; drop_all l st end.

(** [future_when_all_representative]: the first argument whose types are all the
    types of the result, each type being a number. *)
Fixpoint future_when_all_representative (i : nat) (types : list (list Z)) (result : list Z) : option nat :=
  match types with
  | [] => None
  | t :: types => if decide (t = result) then Some i else future_when_all_representative (S i) types result
  end.

(** Which header to steal when all arguments are empty, and how many are not ready. *)
Fixpoint find_empty_rep_ (i : nat) (args : list hid) (st : heap) : res (nat * nat) :=
  match args with
  | [] => Ok (0%nat, 0%nat)
  | a :: args =>
      r ← is_ready a st;
      '(j, c) ← find_empty_rep_ (S i) args st;
      let i := if Nat.eqb c 0 then i else j in
      Ok (i, if (r : bool) then c else S c)
  end.

Fixpoint ready_all_but_rep_ (rep i : nat) (args : list hid) (st : heap) : res bool :=
  match args with
  | [] => Ok true
  | a :: args =>
      r ← is_ready a st;
      rs ← ready_all_but_rep_ rep (S i) args st;
      Ok ((Nat.eqb i rep || r) && rs)
  end.

Definition steal_index_ (i : nat) (args : list hid) (st : heap) : res (hid * heap) :=
  h ← deref (args !! i);
  st ← drop_all (take i args ++ drop (S i) args) st;
  Ok (h, st).

(** [future_impl_when_all::steal_header] *)
Definition when_all (types : list (list Z)) (args : list hid) (st : heap) : res (hid * heap) :=
  let all : list Z := concat types in
  match all, args with
  | [], _ :: _ =>
      '(i, c) ← find_empty_rep_ 0 args st;
      if (c <=? 1)%nat then steal_index_ i args st else make_header BIdentity true args st
  | _, _ =>
      match future_when_all_representative 0 types all with
      | Some rep =>
          b ← ready_all_but_rep_ rep 0 args st;
          if (b : bool) then steal_index_ rep args st else make_header BIdentity (Nat.eqb (length all) 0) args st
      | None => make_header BIdentity (Nat.eqb (length all) 0) args st
      end
  end.

(** * Promises *)

Definition countdown_of (x : future_header) : res Z :=
  match kind x with KPromise c => Ok c | _ => Undef end.

Definition readify (h : hid) (st : heap) : res heap :=
  x ← get h st; _ ← assert_that (status x =? status_results_yes); enter_ready h h st.

Definition fulfill (h : hid) (n : Z) (st : heap) : res heap :=
  x ← get h st;
  c ← countdown_of x;
  _ ← assert_that (0 <? c);
  _ ← assert_that (0 <=? c - n);
  let st := put h (set_kind (KPromise (c - n)) x) st in
  if c - n =? 0 then readify h st else Ok st.

Definition require_anonymous (h : hid) (n : Z) (st : heap) : res heap :=
  x ← get h st;
  c ← countdown_of x;
  _ ← assert_that (0 <? c);
  _ ← assert_that (0 <=? n);
  Ok (put h (set_kind (KPromise (c + n)) x) st).

Definition fulfill_anonymous (h : hid) (n : Z) (st : heap) : res heap :=
  _ ← assert_that (0 <=? n); fulfill h n st.

Definition fulfill_result (h : hid) (v : val) (st : heap) : res heap :=
  x ← get h st;
  _ ← assert_that (void x || (status x =? status_results_no));
  let st := if void x then st else put h (set_status status_results_yes (set_results (Some v) x)) st in
  fulfill h 1 st.

(** [get_future] and [finalize] give one more reference. *)
Definition get_future (h : hid) (st : heap) : res heap := incref h 1 st.
Definition finalize (h : hid) (st : heap) : res heap := st ← fulfill h 1 st; incref h 1 st.

(** * Leaving the active state *)

(** The results of the dependencies of a body. *)
Fixpoint dependency_results (l : list dependency_link) (st : heap) : res val :=
  match l with
  | [] => Ok []
  | lk :: l => x ← get (dep lk) st; v ← deref (results x); w ← dependency_results l st; Ok (v ++ w)
  end.

(** The destructors of the dependencies. *)
Fixpoint drop_dependencies (l : list dependency_link) (st : heap) : res heap :=
  match l with
  | [] => Ok st
  | lk :: l => st ← dropref_result (dep lk) st; drop_dependencies l st
  end.

Definition leave_identity (h : hid) (b : bid) (st : heap) : res heap :=
  xb ← get_body b st;
  '(n, st) ← decref h 1 st;
  if n =? 0 then
    st ← drop_dependencies (links xb) st; st ← free_body b st; free h st
  else
    v ← dependency_results (links xb) st;
    let '(r, st) := new_result v st in
    st ← drop_dependencies (links xb) st;
    st ← free_body b st;
    enter_ready h r st.

Definition leave_proxy (h : hid) (b : bid) (st : heap) : res heap :=
  '(n, st) ← decref h 1 st;
  lk ← get_link (b, O) st;
  if negb (n =? 0) then
    st ← free_body b st; enter_ready h (dep lk) st
  else
    st ← dropref (dep lk) st; st ← free_body b st; free h st.

(** [future_body_then::leave_active] runs the callback on the results of the
    dependencies, then comes back with what it returned: values, or a future. *)
Definition then_arguments (b : bid) (st : heap) : res val :=
  xb ← get_body b st; dependency_results (links xb) st.

Inductive returned := RValues (v : val) | RFuture (p : hid).

Definition leave_then (h : hid) (b : bid) (ret : returned) (st : heap) : res heap :=
  xb ← get_body b st;
  st ← drop_dependencies (links xb) st;
  let st := put_body b (mk_body BProxy []) st in
  x ← get h st;
  if ref_n x =? 1 then
    st ← free_body b st;
    st ← free h st;
    match ret with RValues _ => Ok st | RFuture p => dropref p st end
  else
    match ret with
    | RValues v =>
        let '(r, st) := make_future v st in
        '(_, st) ← decref h 1 st;
        st ← free_body b st;
        enter_ready h r st
    | RFuture p => enter_proxying h b p st
    end.

End Futures.
