(* ===== verification/FutureInvariant.v ===== *)
(** The invariant of the futures heap, and the elementary updates that keep it.

    The reference count of a header is the number of places that refer to it:
    the references held outside of the heap ([own]), the dependency links, the
    ready dependents that share its result, and one more while a dependent is
    pending.  The shape of the heap says how statuses, links, successor lists,
    bodies and the active queue fit together.  A [mode] names the headers, bodies
    and links that an operation has in its hands. *)
From S2P Require Import Prelude FutureCore.

Module Invariant.
Import Futures.

(** * Views of the heap *)

Definition link_at (st : heap) (l : lid) : option dependency_link :=
  bs st !! l.1 ≫= fun b => links b !! l.2.

Definition linked (lk : dependency_link) : Prop := suc lk <> None.

Definition queue (st : heap) : list hid := default [] (active st).

Definition ready (x : future_header) : Prop := status x = status_ready.

Definition active_status (x : future_header) : Prop :=
  status x = status_active \/ status x = status_proxying_active.

Definition pending (x : future_header) : Z := ind (kind x = KDependent /\ ~ status x = status_ready).

(** ** Counting references *)

Definition links_in (h : hid) (l : list dependency_link) : Z := lsum (fun lk => ind (dep lk = h)) l.
Definition links_to (st : heap) (h : hid) : Z := msum (fun _ b => links_in h (links b)) (bs st).
Definition shares (h : hid) (x : future_header) : Z :=
  ind (kind x = KDependent /\ status x = status_ready /\ load x = Result h).
Definition results_to (st : heap) (h : hid) : Z := msum (fun _ x => shares h x) (hs st).

Definition number_linked (l : list dependency_link) : Z := lsum (fun lk => ind (suc lk <> None)) l.

(** What an operation has in its hands: the header whose callback is running, one
    that is not (or no longer) in the active queue, one that has lost its body, a
    body without links that is not in use, the links being taken out of the
    successors of [source]; [done] are the headers whose callback has run,
    [vals] are values that ready futures were seen to have, and [pend] holds the
    pending dependents. *)
Record mode := mk_mode {
  run : option hid; build : option hid; bare : option hid; spare : option bid;
  source : hid; loose : list lid; done : gset hid; vals : gmap hid val; pend : gset hid
}.

Definition in_hand (m : mode) (h : hid) : Prop := run m = Some h \/ build m = Some h \/ bare m = Some h.

(** * The invariant *)

Record counts (m : mode) (own : hid -> Z) (st : heap) : Prop := {
  c_ref : forall h, h <> always ->
    own h + links_to st h + results_to st h =
    match hs st !! h with Some x => ref_n x - pending x | None => 0 end;
  c_pos : forall h x, hs st !! h = Some x -> h <> always -> bare m <> Some h -> 0 < ref_n x;
  c_always : forall x, hs st !! always = Some x -> ref_n x = -1
}.

Definition is_result (st : heap) (r : hid) : Prop :=
  exists x, hs st !! r = Some x /\ kind x <> KDependent /\ status x = status_ready /\
            load x = Result r /\ results x <> None.

Definition body_ok (h : hid) (x : future_header) (b : future_body) : Prop :=
  Forall (fun lk => suc lk = None \/ suc lk = Some h) (links b) /\
  match bkind b with
  | BProxy => exists lk, links b = [lk] /\
      status x = match suc lk with Some _ => status_proxying | None => status_proxying_active end
  | _ => status x = number_linked (links b)
  end.

Definition header_ok (m : mode) (st : heap) (h : hid) (x : future_header) : Prop :=
  match kind x with
  | KDependent =>
      if decide (status x = status_ready) then
        sucs x = [] /\ exists r, load x = Result r /\ is_result st r
      else bare m = Some h \/
        exists b xb, load x = Body b /\ bs st !! b = Some xb /\ body_ok h x xb /\ spare m <> Some b
  | KResult => status x = status_ready /\ load x = Result h /\ sucs x = [] /\ results x <> None
  | KPromise c =>
      load x = Result h /\
      if decide (status x = status_ready) then c = 0 /\ sucs x = [] /\ results x <> None
      else 0 < c /\ (status x = status_results_yes /\ results x <> None \/
                     status x = status_results_no /\ void x = false /\ results x = None)
  end.

Definition owns (m : mode) (st : heap) (h : hid) (b : bid) : Prop :=
  exists x, hs st !! h = Some x /\ kind x = KDependent /\ status x <> status_ready /\
            load x = Body b /\ bare m <> Some h.

Record shape (m : mode) (st : heap) : Prop := {
  s_always : exists x, hs st !! always = Some x /\ kind x = KResult /\ results x = Some [];
  s_header : forall h x, hs st !! h = Some x -> header_ok m st h x;
  s_body : forall b xb, bs st !! b = Some xb ->
    (spare m = Some b /\ links xb = []) \/ exists h, owns m st h b;
  s_owner : forall h1 h2 b, owns m st h1 b -> owns m st h2 b -> h1 = h2;
  s_link : forall l lk, link_at st l = Some lk ->
    match suc lk with
    | None => is_result st (dep lk)
    | Some _ => (exists x, hs st !! dep lk = Some x /\ l ∈ sucs x) \/ (l ∈ loose m /\ dep lk = source m)
    end;
  s_sucs : forall h x l, hs st !! h = Some x -> l ∈ sucs x ->
    exists lk, link_at st l = Some lk /\ dep lk = h /\ suc lk <> None;
  s_nodup : forall h x, hs st !! h = Some x -> NoDup (sucs x);
  s_loose : NoDup (loose m) /\ (forall l, l ∈ loose m ->
    (exists lk, link_at st l = Some lk /\ dep lk = source m /\ suc lk <> None) /\
    (forall x, hs st !! source m = Some x -> l ∉ sucs x));
  s_proxy : forall b xb lk x, bs st !! b = Some xb -> bkind xb = BProxy -> lk ∈ links xb ->
    suc lk <> None -> hs st !! dep lk = Some x ->
    status x <> status_proxying /\ status x <> status_proxying_active;
  s_queue : NoDup (queue st) /\ forall h, h ∈ queue st ->
    ~ in_hand m h /\ exists x, hs st !! h = Some x /\ kind x = KDependent /\ active_status x;
  s_active : forall h x, hs st !! h = Some x -> kind x = KDependent -> active_status x ->
    h ∈ queue st \/ in_hand m h;
  s_run : forall h, run m = Some h -> build m <> Some h /\ bare m <> Some h /\
    exists x b xb, hs st !! h = Some x /\ kind x = KDependent /\ status x = status_active /\
                   load x = Body b /\ bs st !! b = Some xb /\ bkind xb = BThen;
  s_done : forall h, h ∈ done m -> (h < next_h st)%nat /\
    forall x b xb, hs st !! h = Some x -> kind x = KDependent -> status x <> status_ready ->
      load x = Body b -> bs st !! b = Some xb -> bkind xb = BThen -> in_hand m h;
  s_vals : forall h v, vals m !! h = Some v -> (h < next_h st)%nat /\
    forall x, hs st !! h = Some x -> exists r xr, status x = status_ready /\ load x = Result r /\
      hs st !! r = Some xr /\ results xr = Some v;
  s_fresh : (forall h, (next_h st <= h)%nat -> hs st !! h = None) /\
            (forall b, (next_b st <= b)%nat -> bs st !! b = None);
  s_spare : forall b, spare m = Some b -> is_Some (bs st !! b);
  s_pend : forall h x, hs st !! h = Some x -> kind x = KDependent -> status x <> status_ready -> h ∈ pend m
}.

Definition inv (m : mode) (own : hid -> Z) (st : heap) : Prop := counts m own st /\ shape m st.

(** * Counting *)

Definition bump (own : hid -> Z) (h : hid) (n : Z) : hid -> Z := fun r => own r + (if decide (r = h) then n else 0).

Lemma bump_eq own h n : bump own h n h = own h + n.
Proof. unfold bump. by case_decide. Qed.

Lemma bump_ne own h n r : r <> h -> bump own h n r = own r.
Proof. unfold bump. intros. case_decide; [done|lia]. Qed.

Lemma counts_ext m own own' st : (forall h, h <> always -> own h = own' h) -> counts m own st -> counts m own' st.
Proof. intros He [Hr Hp Ha]. split; [|done..]. intros h Hh. rewrite <- He, Hr by done. done. Qed.

Lemma inv_ext m own own' st : (forall h, h <> always -> own h = own' h) -> inv m own st -> inv m own' st.
Proof. intros He [Hc Hs]. split; [by eapply counts_ext|done]. Qed.

#[export] Instance inv_proper m : Proper (pointwise_relation _ eq ==> eq ==> iff) (inv m).
Proof. intros own own' He st ? <-. split; apply inv_ext; intros; by rewrite He. Qed.

Lemma links_in_nonneg h l : 0 <= links_in h l.
Proof. apply lsum_nonneg. intros. apply ind_nonneg. Qed.

Lemma links_to_nonneg st h : 0 <= links_to st h.
Proof. apply msum_nonneg. intros. apply links_in_nonneg. Qed.

Lemma shares_nonneg h x : 0 <= shares h x.
Proof. apply ind_nonneg. Qed.

Lemma results_to_nonneg st h : 0 <= results_to st h.
Proof. apply msum_nonneg. intros. apply shares_nonneg. Qed.

Lemma pending_range x : 0 <= pending x <= 1.
Proof. unfold pending, ind. case_decide; lia. Qed.

Lemma link_at_body st b i lk : link_at st (b, i) = Some lk ->
  exists xb, bs st !! b = Some xb /\ links xb !! i = Some lk.
Proof. unfold link_at. cbn. destruct (bs st !! b); naive_solver. Qed.

Lemma links_to_pos st l lk : link_at st l = Some lk -> 1 <= links_to st (dep lk).
Proof.
  destruct l as [b i]. intros (xb & Hb & Hi)%link_at_body.
  pose proof (msum_lookup_le (fun _ b => links_in (dep lk) (links b)) (bs st) b xb) as H1.
  pose proof (lsum_lookup_le (fun k => ind (dep k = dep lk)) (links xb) i lk) as H2. cbn in H1, H2.
  rewrite (ind_yes (dep lk = dep lk)) in H2 by done. unfold links_to.
  specialize (H1 (fun _ b => links_in_nonneg _ _) Hb). specialize (H2 (fun _ => ind_nonneg _) Hi).
  unfold links_in in *. lia.
Qed.

Lemma results_to_pos st h x r : hs st !! h = Some x -> kind x = KDependent -> status x = status_ready ->
  load x = Result r -> 1 <= results_to st r.
Proof.
  intros Hx Hk Hs Hl. pose proof (msum_lookup_le (fun _ x => shares r x) (hs st) h x) as H1. cbn in H1.
  unfold shares in H1 at 2. rewrite ind_yes in H1 by done. apply H1; [|done]. intros. apply shares_nonneg.
Qed.

(** What an update of the heap does to the counts. *)

Lemma counts_put m own st h x x' : counts m own st -> hs st !! h = Some x -> h <> always ->
  (0 < ref_n x' \/ bare m = Some h) ->
  counts m (fun r => own r + shares r x - shares r x' +
              (if decide (r = h) then ref_n x' - pending x' - (ref_n x - pending x) else 0)) (put h x' st).
Proof.
  intros [Hr Hp Ha] Hx Hh Hpos. split; cbn.
  - intros r Hne. unfold results_to, put; cbn. rewrite (msum_update _ _ _ _ _ Hx).
    specialize (Hr r Hne). unfold results_to, links_to in *; cbn. case_decide as Hd.
    + subst r. rewrite lookup_insert_eq. rewrite Hx in Hr. lia.
    + rewrite lookup_insert_ne by done. destruct (hs st !! r); lia.
  - intros r y. destruct (decide (r = h)) as [->|]; map_lookups; [intros [= ->]; naive_solver|by apply Hp].
  - intros y. map_lookups. apply Ha.
Qed.

Lemma counts_put_body m own st b xb xb' : counts m own st -> bs st !! b = Some xb ->
  counts m (fun r => own r + links_in r (links xb) - links_in r (links xb')) (put_body b xb' st).
Proof.
  intros [Hr Hp Ha] Hb. split; cbn; [|done..].
  intros r Hne. specialize (Hr r Hne). unfold links_to, results_to in *; cbn.
  rewrite (msum_update _ _ _ _ _ Hb). destruct (hs st !! r); lia.
Qed.

Lemma counts_free_body m own st b xb st' : counts m own st -> bs st !! b = Some xb ->
  hs st' = hs st -> bs st' = delete b (bs st) ->
  counts m (fun r => own r + links_in r (links xb)) st'.
Proof.
  intros [Hr Hp Ha] Hb Hh' Hb'. split; rewrite ?Hh'; cbn; [|done..].
  intros r Hne. specialize (Hr r Hne). unfold links_to, results_to in *. rewrite Hh', Hb'.
  rewrite (msum_delete _ _ _ _ Hb). destruct (hs st !! r); lia.
Qed.

Lemma counts_alloc_body m own st b xb st' : counts m own st -> bs st !! b = None ->
  hs st' = hs st -> bs st' = <[b := xb]> (bs st) ->
  counts m (fun r => own r - links_in r (links xb)) st'.
Proof.
  intros [Hr Hp Ha] Hb Hh' Hb'. split; rewrite ?Hh'; cbn; [|done..].
  intros r Hne. specialize (Hr r Hne). unfold links_to, results_to in *. rewrite Hh', Hb'.
  rewrite (msum_insert _ _ _ _ Hb). destruct (hs st !! r); lia.
Qed.

Lemma counts_alloc m own st h x st' : counts m own st -> hs st !! h = None -> h <> always ->
  0 < ref_n x -> hs st' = <[h := x]> (hs st) -> bs st' = bs st ->
  counts m (fun r => own r - shares r x + (if decide (r = h) then ref_n x - pending x else 0)) st'.
Proof.
  intros [Hr Hp Ha] Hx Hh Hpos Hh' Hb'. split; rewrite ?Hh'; cbn.
  - intros r Hne. specialize (Hr r Hne). unfold links_to, results_to in *. rewrite Hh', Hb'.
    rewrite (msum_insert _ _ _ _ Hx). case_decide as Hd.
    + subst r. rewrite lookup_insert_eq. rewrite Hx in Hr. lia.
    + rewrite lookup_insert_ne by done. destruct (hs st !! r); lia.
  - intros r y. destruct (decide (r = h)) as [->|]; map_lookups; [naive_solver|by apply Hp].
  - intros y. map_lookups. apply Ha.
Qed.

Lemma counts_free m m' own st h x st' : counts m own st -> hs st !! h = Some x -> h <> always ->
  hs st' = delete h (hs st) -> bs st' = bs st -> (bare m = bare m' \/ bare m = Some h) ->
  counts m' (fun r => own r + shares r x - (if decide (r = h) then ref_n x - pending x else 0)) st'.
Proof.
  intros [Hr Hp Ha] Hx Hh Hh' Hb' Hm. split; rewrite ?Hh'; cbn.
  - intros r Hne. specialize (Hr r Hne). unfold links_to, results_to in *. rewrite Hh', Hb'.
    rewrite (msum_delete _ _ _ _ Hx). case_decide as Hd.
    + subst r. rewrite lookup_delete_eq. rewrite Hx in Hr. lia.
    + rewrite lookup_delete_ne by done. destruct (hs st !! r); lia.
  - intros r y. destruct (decide (r = h)) as [->|]; map_lookups; [done|].
    intros Hy Hne Hbm. apply (Hp r); [done..|]. destruct Hm; congruence.
  - intros y. map_lookups. apply Ha.
Qed.

(** * Reference counts do not change the shape *)

Definition upto_ref (x x' : future_header) : Prop :=
  status x = status x' /\ sucs x = sucs x' /\ load x = load x' /\ kind x = kind x' /\
  void x = void x' /\ results x = results x'.

(** Heaps that differ by reference counts, and by an empty queue being there or not. *)
Definition similar (st st' : heap) : Prop :=
  (forall h, option_Forall2 upto_ref (hs st !! h) (hs st' !! h)) /\
  bs st = bs st' /\ queue st = queue st' /\ next_h st = next_h st' /\ next_b st = next_b st'.

Lemma similar_lookup st st' h x : similar st st' -> hs st !! h = Some x ->
  exists x', hs st' !! h = Some x' /\ upto_ref x x'.
Proof.
  intros [H _] Hx. specialize (H h). rewrite Hx in H. inversion H; subst.
  eexists. by split.
Qed.

#[export] Instance similar_equivalence : Equivalence similar.
Proof.
  split.
  - intros st. split_and!; try done. intros h. destruct (hs st !! h); repeat constructor.
  - intros st st' (H & ? & ? & ? & ?). split_and!; try done. intros h. specialize (H h).
    destruct H as [? ? (?&?&?&?&?&?)|]; repeat constructor; done.
  - intros s1 s2 s3 (H12 & ? & ? & ? & ?) (H23 & ? & ? & ? & ?). split_and!; try congruence.
    intros h. specialize (H12 h). specialize (H23 h).
    destruct H12 as [? ? Hu|]; inversion H23 as [? ? Hu'|]; subst; try done; constructor.
    unfold upto_ref in *. intuition congruence.
Qed.

Lemma similar_link_at st st' l : similar st st' -> link_at st' l = link_at st l.
Proof. intros (_ & Hb & _). unfold link_at. by rewrite Hb. Qed.

Lemma similar_is_result st st' r : similar st st' -> is_result st r -> is_result st' r.
Proof.
  intros Hs (x & Hx & ? & ? & ? & ?). destruct (similar_lookup _ _ _ _ Hs Hx) as (x' & Hx' & ? & ? & ? & ? & ? & ?).
  exists x'. split_and!; congruence.
Qed.

Lemma similar_owns m st st' h b : similar st st' -> owns m st h b -> owns m st' h b.
Proof.
  intros Hs (x & Hx & ? & ? & ? & ?). destruct (similar_lookup _ _ _ _ Hs Hx) as (x' & Hx' & ? & ? & ? & ? & ? & ?).
  exists x'. split_and!; congruence.
Qed.

Lemma body_ok_upto h x x' b : status x = status x' -> body_ok h x b -> body_ok h x' b.
Proof. unfold body_ok. intros ->. done. Qed.

Lemma similar_header_ok m st st' h x x' : similar st st' -> upto_ref x x' ->
  header_ok m st h x -> header_ok m st' h x'.
Proof.
  intros Hs (Es & Eu & El & Ek & Ev & Er). unfold header_ok. rewrite <- Es, <- Eu, <- El, <- Ek, <- Ev, <- Er.
  destruct (kind x); [done..|]. case_decide.
  - intros (? & r & ? & ?). split; [done|]. exists r. split; [done|]. by eapply similar_is_result.
  - destruct Hs as (_ & <- & _). intros [?|(b & xb & ? & ? & Hok & ?)]; [by left|right].
    exists b, xb. split_and!; try done. by eapply body_ok_upto.
Qed.

Lemma shape_similar m st st' : similar st st' -> shape m st -> shape m st'.
Proof.
  intros Hs Hsh. pose proof (symmetry Hs) as Hs'.
  destruct (Hs) as (_ & Eb & Eq & En & Enb).
  split.
  - destruct (s_always _ _ Hsh) as (x & Hx & ? & ?).
    destruct (similar_lookup _ _ _ _ Hs Hx) as (x' & Hx' & ? & ? & ? & ? & ? & ?). exists x'. split_and!; congruence.
  - intros h x Hx. destruct (similar_lookup _ _ _ _ Hs' Hx) as (x' & Hx' & Hu).
    eapply similar_header_ok; [done| |by apply (s_header _ _ Hsh)]. unfold upto_ref in *. intuition congruence.
  - intros b xb. rewrite <- Eb. intros [?|(h & ?)]%(s_body _ _ Hsh); [by left|right].
    exists h. by eapply similar_owns.
  - intros h1 h2 b H1 H2. eapply (s_owner _ _ Hsh); by eapply similar_owns.
  - intros l lk. rewrite (similar_link_at _ _ _ Hs). intros Hl%(s_link _ _ Hsh). destruct (suc lk).
    + destruct Hl as [(x & Hx & ?)|?]; [left|by right].
      destruct (similar_lookup _ _ _ _ Hs Hx) as (x' & Hx' & ? & Es & ?). exists x'. by rewrite <- Es.
    + by eapply similar_is_result.
  - intros h x l Hx Hl. destruct (similar_lookup _ _ _ _ Hs' Hx) as (x' & Hx' & ? & Es & ?).
    rewrite (similar_link_at _ _ _ Hs). rewrite Es in Hl. by eapply (s_sucs _ _ Hsh).
  - intros h x Hx. destruct (similar_lookup _ _ _ _ Hs' Hx) as (x' & Hx' & ? & Es & ?). rewrite Es.
    by eapply (s_nodup _ _ Hsh).
  - destruct (s_loose _ _ Hsh) as [Hn Hl]. split; [done|]. intros l Hin. rewrite (similar_link_at _ _ _ Hs).
    destruct (Hl l Hin) as [? Hno]. split; [done|]. intros x Hx.
    destruct (similar_lookup _ _ _ _ Hs' Hx) as (x' & Hx' & ? & Es & ?). rewrite Es. by apply Hno.
  - intros b xb lk x. rewrite <- Eb. intros Hb Hk Hl Hsu Hx.
    destruct (similar_lookup _ _ _ _ Hs' Hx) as (x' & Hx' & Es & ?). rewrite Es. by eapply (s_proxy _ _ Hsh).
  - rewrite <- Eq. destruct (s_queue _ _ Hsh) as [Hn Hq]. split; [done|]. intros h Hin.
    destruct (Hq h Hin) as (? & x & Hx & Hk & Ha). split; [done|].
    destruct (similar_lookup _ _ _ _ Hs Hx) as (x' & Hx' & Es & ? & ? & Ek & ?). exists x'.
    unfold active_status in *. split_and!; congruence.
  - intros h x Hx Hk Ha. destruct (similar_lookup _ _ _ _ Hs' Hx) as (x' & Hx' & Es & ? & ? & Ek & ?).
    rewrite <- Eq. apply (s_active _ _ Hsh h x'); unfold active_status in *; congruence.
  - intros h Hr. destruct (s_run _ _ Hsh h Hr) as (? & ? & x & b & xb & Hx & ? & ? & ? & ? & ?).
    destruct (similar_lookup _ _ _ _ Hs Hx) as (x' & Hx' & ? & ? & ? & ? & ?).
    split_and!; [done..|]. exists x', b, xb. rewrite <- Eb. split_and!; congruence.
  - intros h Hd. destruct (s_done _ _ Hsh h Hd) as [? Hdn]. rewrite <- En, <- Eb. split; [done|].
    intros x b xb Hx ? ? ? ? ?. destruct (similar_lookup _ _ _ _ Hs' Hx) as (x' & Hx' & ? & ? & ? & ? & ?).
    eapply Hdn; try done; congruence.
  - intros h v Hv. destruct (s_vals _ _ Hsh h v Hv) as [? Hvn]. rewrite <- En. split; [done|].
    intros x Hx. destruct (similar_lookup _ _ _ _ Hs' Hx) as (x' & Hx' & Es & ? & El & ? & ?).
    destruct (Hvn _ Hx') as (r & xr & ? & ? & Hr & ?).
    destruct (similar_lookup _ _ _ _ Hs Hr) as (xr' & Hr' & ? & ? & ? & ? & ? & ?).
    exists r, xr'. split_and!; congruence.
  - destruct (s_fresh _ _ Hsh) as [H1 H2]. rewrite <- En, <- Enb, <- Eb. split; [|done].
    intros h Hh. destruct (hs st' !! h) eqn:Hx; [|done].
    destruct (similar_lookup _ _ _ _ Hs' Hx) as (x' & Hx' & ?). by rewrite H1 in Hx'.
  - rewrite <- Eb. apply (s_spare _ _ Hsh).
  - intros h x Hx ? ?. destruct (similar_lookup _ _ _ _ Hs' Hx) as (x' & Hx' & ? & ? & ? & ? & ?).
    apply (s_pend _ _ Hsh h x'); congruence.
Qed.

#[export] Instance shape_proper m : Proper (similar ==> iff) (shape m).
Proof. intros st st' Hs. split; apply shape_similar; [done|by symmetry]. Qed.

Lemma similar_put st h x x' : hs st !! h = Some x -> upto_ref x x' -> similar st (put h x' st).
Proof.
  intros Hx Hu. split_and!; try done. intros r. cbn. destruct (decide (r = h)) as [->|].
  - rewrite Hx, lookup_insert_eq. by constructor.
  - rewrite lookup_insert_ne by done. destruct (hs st !! r); repeat constructor.
Qed.

Lemma upto_set_ref n x : upto_ref x (set_ref n x).
Proof. repeat split. Qed.
#[local] Hint Resolve upto_set_ref : core.

(** Setting a reference count moves references out of the heap or into it. *)
Lemma inv_set_ref m own st h x n : inv m own st -> hs st !! h = Some x -> h <> always ->
  (0 < n \/ bare m = Some h) -> inv m (bump own h (n - ref_n x)) (put h (set_ref n x) st).
Proof.
  intros [Hc Hs] Hx Hh Hn. split; [|by eapply shape_similar; [eapply similar_put|]].
  eapply counts_ext; [|eapply (counts_put _ _ _ _ _ (set_ref n x) Hc Hx Hh Hn)].
  intros r _. unfold bump, shares. cbn. unfold pending; cbn. case_decide; lia.
Qed.

(** * Consequences *)

Section facts.
Context {m : mode} {own : hid -> Z} {st : heap} (Hi : inv m own st).

Lemma inv_always : exists x, hs st !! always = Some x /\ ref_n x = -1 /\ is_result st always /\ sucs x = [].
Proof.
  destruct Hi as [Hc Hs]. destruct (s_always _ _ Hs) as (x & Hx & Hk & Hv). exists x.
  pose proof (s_header _ _ Hs _ _ Hx) as Hok. unfold header_ok in Hok. rewrite Hk in Hok.
  destruct Hok as (? & ? & ? & ?). split_and!; [done|by apply (c_always _ _ _ Hc)| |done].
  exists x. split_and!; try done. by rewrite Hk.
Qed.

(** A reference keeps its header alive. *)
Lemma inv_live h : 0 < own h -> exists x, hs st !! h = Some x.
Proof.
  intros Hpos. destruct (decide (h = always)) as [->|Hh]; [destruct inv_always as (x & ? & _); eauto|].
  pose proof (c_ref _ _ _ (proj1 Hi) h Hh) as Hr.
  pose proof (links_to_nonneg st h). pose proof (results_to_nonneg st h).
  destruct (hs st !! h); [eauto|lia].
Qed.

Lemma inv_ref h x : hs st !! h = Some x -> h <> always ->
  ref_n x = own h + links_to st h + results_to st h + pending x.
Proof. intros Hx Hh. pose proof (c_ref _ _ _ (proj1 Hi) h Hh) as Hr. rewrite Hx in Hr. lia. Qed.

Lemma inv_ref_nonneg h x : hs st !! h = Some x -> h <> always -> 0 <= own h ->
  own h + pending x <= ref_n x.
Proof.
  intros Hx Hh Ho. rewrite (inv_ref _ _ Hx Hh).
  pose proof (links_to_nonneg st h). pose proof (results_to_nonneg st h). lia.
Qed.

Lemma is_result_not_dependent r x : is_result st r -> hs st !! r = Some x ->
  kind x <> KDependent /\ status x = status_ready /\ load x = Result r /\ sucs x = [] /\ results x <> None.
Proof.
  intros (y & Hy & ? & ? & ? & ?) Hx. simplify_eq.
  pose proof (s_header _ _ (proj2 Hi) _ _ Hy) as Hok. unfold header_ok in Hok.
  destruct (kind y); [naive_solver| |done]. case_decide; naive_solver.
Qed.

Lemma inv_ready h x : hs st !! h = Some x -> status x = status_ready ->
  sucs x = [] /\ exists r, load x = Result r /\ is_result st r /\
    (kind x = KDependent /\ r <> h \/ kind x <> KDependent /\ r = h).
Proof.
  intros Hx Hr. pose proof (s_header _ _ (proj2 Hi) _ _ Hx) as Hok. unfold header_ok in Hok.
  rewrite Hr in Hok. destruct (kind x) eqn:Hk.
  - destruct Hok as (_ & ? & ? & ?). split; [done|]. exists h. split_and!; [done| |right; done].
    exists x. split_and!; congruence.
  - rewrite decide_True in Hok by done. destruct Hok as (? & -> & ? & ?). split; [done|].
    exists h. split_and!; [done| |right; done]. exists x. split_and!; congruence.
  - rewrite decide_True in Hok by done. destruct Hok as (? & r & ? & Hres). split; [done|].
    exists r. split_and!; [done..|left; split; [done|]]. intros ->.
    by destruct (is_result_not_dependent _ _ Hres Hx).
Qed.

Lemma inv_no_ref h x : hs st !! h = Some x -> h <> always -> ref_n x - pending x <= own h ->
  links_to st h = 0 /\ results_to st h = 0.
Proof.
  intros Hx Hh Hle. pose proof (inv_ref _ _ Hx Hh).
  pose proof (links_to_nonneg st h). pose proof (results_to_nonneg st h). lia.
Qed.
End facts.

Lemma not_linked st h l lk : links_to st h = 0 -> link_at st l = Some lk -> dep lk <> h.
Proof. intros H0 Hl ->%eq_sym. pose proof (links_to_pos _ _ _ Hl). lia. Qed.

Lemma not_shared st h h' x : results_to st h = 0 -> hs st !! h' = Some x -> kind x = KDependent ->
  status x = status_ready -> load x <> Result h.
Proof. intros H0 Hx Hk Hr Hl. pose proof (results_to_pos _ _ _ _ Hx Hk Hr Hl). lia. Qed.

(** * Freeing a header nothing refers to *)

Definition set_bare (o : option hid) (m : mode) : mode :=
  mk_mode (run m) (build m) o (spare m) (source m) (loose m) (done m) (vals m) (pend m).

Section free.
Context {m m' : mode} {st st' : heap} {h : hid} {x : future_header} (Hs : shape m st).
Context (Hx : hs st !! h = Some x) (Ha : h <> always) (Hl : links_to st h = 0) (Hr : results_to st h = 0).
Context (Hk : kind x = KDependent -> status x = status_ready \/ bare m = Some h).
Context (Hm : m' = m \/ bare m = Some h /\ m' = set_bare None m).
Context (Eh : hs st' = delete h (hs st)) (Eb : bs st' = bs st) (Eq : queue st' = queue st).
Context (En : next_h st' = next_h st) (Enb : next_b st' = next_b st).

Lemma free_mode : run m' = run m /\ build m' = build m /\ spare m' = spare m /\ source m' = source m /\
  loose m' = loose m /\ done m' = done m /\ vals m' = vals m /\ pend m' = pend m /\
  (forall r, r <> h -> bare m' = Some r <-> bare m = Some r).
Proof. destruct Hm as [->|[Hb ->]]; cbn; split_and!; try done. intros r ?. rewrite Hb. naive_solver. Qed.

Lemma free_in_hand r : r <> h -> in_hand m' r <-> in_hand m r.
Proof. intros. destruct free_mode as (H1 & H2 & _ & _ & _ & _ & _ & _ & H3). unfold in_hand. rewrite H1, H2, H3; done. Qed.

Lemma free_lookup r y : hs st' !! r = Some y -> r <> h /\ hs st !! r = Some y.
Proof. rewrite Eh. intros [? ?]%lookup_delete_Some. done. Qed.

Lemma free_lookup_back r y : r <> h -> hs st !! r = Some y -> hs st' !! r = Some y.
Proof. rewrite Eh. intros. by rewrite lookup_delete_ne. Qed.

Lemma free_is_result r : r <> h -> is_result st r -> is_result st' r.
Proof. intros Hne (y & Hy & ?). exists y. split; [by apply free_lookup_back|done]. Qed.

Lemma free_not_owner b : ~ owns m st h b.
Proof. intros (y & Hy & Hky & ? & ? & ?). simplify_eq. destruct (Hk Hky); done. Qed.

Lemma free_owns r b : owns m st r b <-> owns m' st' r b.
Proof.
  destruct free_mode as (_ & _ & _ & _ & _ & _ & _ & _ & Hbare). split.
  - intros Ho. assert (r <> h) by (intros ->; by eapply free_not_owner).
    destruct Ho as (y & Hy & ? & ? & ? & ?). exists y. rewrite Hbare by done.
    split_and!; try done. by apply free_lookup_back.
  - intros (y & [? Hy]%free_lookup & ? & ? & ? & ?). exists y. rewrite <- Hbare by done. done.
Qed.

Lemma free_header_ok r y : r <> h -> hs st !! r = Some y -> header_ok m st r y -> header_ok m' st' r y.
Proof.
  destruct free_mode as (_ & _ & Esp & _ & _ & _ & _ & _ & Hbare). intros Hne Hy. unfold header_ok.
  destruct (kind y) eqn:Hky; [done..|]. case_decide; [|by rewrite Eb, Esp, Hbare].
  intros (? & q & Hq & ?). split; [done|]. exists q. split; [done|]. apply free_is_result; [|done].
  intros ->. by apply (not_shared _ _ _ _ Hr Hy).
Qed.

Lemma free_queue : h ∉ queue st.
Proof.
  intros (Hh & y & Hy & Hky & Hst)%(proj2 (s_queue _ _ Hs)). simplify_eq.
  destruct (Hk Hky) as [Hrd|Hb].
  - unfold active_status in Hst. rewrite Hrd in Hst. by destruct Hst.
  - apply Hh. by right; right.
Qed.

Lemma free_run r : run m = Some r -> r <> h.
Proof.
  intros Hrun ->. destruct (s_run _ _ Hs _ Hrun) as (? & ? & y & b & xb & Hy & Hky & Hst & _). simplify_eq.
  destruct (Hk Hky) as [Hrd|?]; [|done]. by rewrite Hrd in Hst.
Qed.

Lemma shape_free : shape m' st'.
Proof.
  destruct free_mode as (Er & Ebu & Esp & Eso & Elo & Edo & Eva & Epe & Hbare).
  assert (Hla : forall l, link_at st' l = link_at st l) by (intros; unfold link_at; by rewrite Eb).
  split; rewrite ?Er, ?Ebu, ?Esp, ?Eso, ?Elo, ?Edo, ?Eva, ?Epe, ?Eq, ?En, ?Enb.
  - destruct (s_always _ _ Hs) as (y & Hy & ? & ?). exists y. split_and!; [by apply free_lookup_back|done..].
  - intros r y [Hne Hy]%free_lookup. apply free_header_ok; [done..|]. by apply (s_header _ _ Hs).
  - intros b xb. rewrite Eb. intros [?|(r & Ho)]%(s_body _ _ Hs); [by left|right]. exists r. by apply free_owns.
  - intros h1 h2 b H1 H2. eapply (s_owner _ _ Hs); by apply free_owns.
  - intros l lk. rewrite Hla. intros Hlk. pose proof (not_linked _ _ _ _ Hl Hlk) as Hne.
    pose proof (s_link _ _ Hs _ _ Hlk) as H1. destruct (suc lk); [|by apply free_is_result].
    destruct H1 as [(y & Hy & ?)|?]; [left|by right]. exists y. split; [by apply free_lookup_back|done].
  - intros r y l [Hne Hy]%free_lookup Hin. rewrite Hla. by eapply (s_sucs _ _ Hs).
  - intros r y [Hne Hy]%free_lookup. by eapply (s_nodup _ _ Hs).
  - destruct (s_loose _ _ Hs) as [? Hlo]. split; [done|]. intros l Hin. rewrite Hla.
    destruct (Hlo l Hin) as [? Hno]. split; [done|]. intros y [Hne Hy]%free_lookup. by apply Hno.
  - intros b xb lk y. rewrite Eb. intros ? ? ? ? [Hne Hy]%free_lookup. by eapply (s_proxy _ _ Hs).
  - destruct (s_queue _ _ Hs) as [? Hq]. split; [done|]. intros r Hin.
    assert (r <> h) by (intros ->; by apply free_queue). rewrite free_in_hand by done.
    destruct (Hq r Hin) as (? & y & ? & ?). split; [done|]. exists y. split; [by apply free_lookup_back|done].
  - intros r y [Hne Hy]%free_lookup ? ?. rewrite free_in_hand by done. by eapply (s_active _ _ Hs).
  - intros r Hrun. pose proof (free_run _ Hrun). rewrite Hbare, Eb by done.
    destruct (s_run _ _ Hs _ Hrun) as (? & ? & y & b & xb & Hy & ?). split_and!; [done..|].
    exists y, b, xb. split; [by apply free_lookup_back|done].
  - intros d Hd. destruct (s_done _ _ Hs _ Hd) as [? Hdn]. split; [done|]. rewrite Eb.
    intros y b xb [Hne Hy]%free_lookup ? ? ? ? ?. rewrite free_in_hand by done. by eapply Hdn.
  - intros d v Hd. destruct (s_vals _ _ Hs _ _ Hd) as [? Hv]. split; [done|].
    intros y [Hne Hy]%free_lookup. destruct (Hv _ Hy) as (r & xr & Hry & Hrl & Hr' & ?).
    exists r, xr. split_and!; [done..| |done]. apply free_lookup_back; [|done]. intros ->.
    pose proof (s_header _ _ Hs _ _ Hy) as Hok. unfold header_ok in Hok. rewrite Hry in Hok.
    destruct (kind y) eqn:Hky.
    + destruct Hok as (? & ? & ?). congruence.
    + destruct Hok as [? ?]. congruence.
    + by apply (not_shared _ _ _ _ Hr Hy).
  - destruct (s_fresh _ _ Hs) as [H1 H2]. rewrite Eb. split; [|done]. intros r Hge. rewrite Eh.
    apply lookup_delete_None. right. by apply H1.
  - rewrite Eb. apply (s_spare _ _ Hs).
  - intros r y [Hne Hy]%free_lookup. by apply (s_pend _ _ Hs).
Qed.
End free.

(** * New headers *)

Section alloc.
Context {m : mode} {st st' : heap} {h : hid} {x : future_header} (Hs : shape m st).
Context (Eh : hs st' = <[h := x]> (hs st)) (Hh : h = next_h st) (En : next_h st' = S h) (Eq : queue st' = queue st).
Context (Hsu : sucs x = []) (Hld : kind x <> KDependent).
Context (Hok : header_ok m st' h x).

Lemma alloc_new r y : hs st !! r = Some y -> r <> h.
Proof. intros Hy ->. rewrite (proj1 (s_fresh _ _ Hs)) in Hy by lia. done. Qed.

Lemma alloc_lookup r y : hs st' !! r = Some y <-> r = h /\ y = x \/ r <> h /\ hs st !! r = Some y.
Proof. rewrite Eh, lookup_insert_Some. naive_solver. Qed.

Lemma alloc_old r y : hs st !! r = Some y -> hs st' !! r = Some y.
Proof. intros Hy. apply alloc_lookup. right. split; [by eapply alloc_new|done]. Qed.

Lemma alloc_is_result r : is_result st r -> is_result st' r.
Proof. intros (y & Hy & ?). exists y. split; [by apply alloc_old|done]. Qed.

Lemma alloc_owns r b : owns m st' r b <-> owns m st r b.
Proof.
  split; intros (y & Hy & ?).
  - apply alloc_lookup in Hy as [[-> ->]|[? ?]]; [naive_solver|by exists y].
  - exists y. split; [by apply alloc_old|done].
Qed.

Lemma shape_alloc : bs st' = bs st -> next_b st' = next_b st -> shape m st'.
Proof.
  intros Eb Enb.
  assert (Hla : forall l, link_at st' l = link_at st l) by (intros; unfold link_at; by rewrite Eb).
  split; rewrite ?Eq, ?En, ?Enb.
  - destruct (s_always _ _ Hs) as (y & Hy & ? & ?). exists y. split_and!; [by apply alloc_old|done..].
  - intros r y [[-> ->]|[Hne Hy]]%alloc_lookup; [done|].
    pose proof (s_header _ _ Hs _ _ Hy) as Hoky. unfold header_ok in *. rewrite Eb.
    destruct (kind y); [done..|]. case_decide; [|done]. destruct Hoky as (? & q & ? & ?).
    split; [done|]. exists q. split; [done|by apply alloc_is_result].
  - intros b xb. rewrite Eb. intros [?|(r & Ho)]%(s_body _ _ Hs); [by left|right]. exists r. by apply alloc_owns.
  - intros h1 h2 b. rewrite !alloc_owns. apply (s_owner _ _ Hs).
  - intros l lk. rewrite Hla. intros Hlk. pose proof (s_link _ _ Hs _ _ Hlk) as H1.
    destruct (suc lk); [|by apply alloc_is_result].
    destruct H1 as [(y & Hy & ?)|?]; [left|by right]. exists y. split; [by apply alloc_old|done].
  - intros r y l [[-> ->]|[Hne Hy]]%alloc_lookup Hin; rewrite ?Hla; [rewrite Hsu in Hin; by apply not_elem_of_nil in Hin|].
    by eapply (s_sucs _ _ Hs).
  - intros r y [[-> ->]|[Hne Hy]]%alloc_lookup; [rewrite Hsu; constructor|by eapply (s_nodup _ _ Hs)].
  - destruct (s_loose _ _ Hs) as [? Hlo]. split; [done|]. intros l Hin. rewrite Hla.
    destruct (Hlo l Hin) as [? Hno]. split; [done|]. intros y [[? ->]|[Hne Hy]]%alloc_lookup; [|by apply Hno].
    rewrite Hsu. apply not_elem_of_nil.
  - intros b xb lk y. rewrite Eb. intros ? ? Hin ? [[Hd ->]|[Hne Hy]]%alloc_lookup; [|by eapply (s_proxy _ _ Hs)].
    unfold header_ok in Hok. destruct (kind x); [|case_decide as Hdec|done]; destruct Hok as (Hok1 & Hok2).
    + by rewrite Hok1.
    + by rewrite Hdec.
    + destruct Hok2 as (_ & [[-> _]|[-> _]]); done.
  - destruct (s_queue _ _ Hs) as [? Hq]. split; [done|]. intros r Hin.
    destruct (Hq r Hin) as (? & y & ? & ?). split; [done|]. exists y. split; [by apply alloc_old|done].
  - intros r y [[-> ->]|[Hne Hy]]%alloc_lookup ? ?; [done|]. by eapply (s_active _ _ Hs).
  - intros r Hrun. destruct (s_run _ _ Hs _ Hrun) as (? & ? & y & b & xb & Hy & ?). split_and!; [done..|].
    exists y, b, xb. rewrite Eb. split; [by apply alloc_old|done].
  - intros d Hd. destruct (s_done _ _ Hs _ Hd) as [? Hdn]. split; [lia|]. rewrite Eb.
    intros y b xb [[-> ->]|[Hne Hy]]%alloc_lookup ? ? ? ? ?; [done|]. by eapply Hdn.
  - intros d v Hd. destruct (s_vals _ _ Hs _ _ Hd) as [? Hv]. split; [lia|].
    intros y [[-> ->]|[Hne Hy]]%alloc_lookup; [lia|].
    destruct (Hv _ Hy) as (r & xr & ? & ? & ? & ?). exists r, xr. split_and!; try done. by apply alloc_old.
  - destruct (s_fresh _ _ Hs) as [H1 H2]. rewrite Eb. split; [|done]. intros r Hge. rewrite Eh.
    rewrite lookup_insert_ne by lia. apply H1. lia.
  - rewrite Eb. apply (s_spare _ _ Hs).
  - intros r y [[-> ->]|[Hne Hy]]%alloc_lookup ? ?; [done|]. by eapply (s_pend _ _ Hs).
Qed.
End alloc.

(** * Promises change state, headers become ready

    The header is a promise, or a dependent that has lost its body.  Either its
    successors stay, or they are all taken out of its list. *)

Definition set_loose (h : hid) (l : list lid) (m : mode) : mode :=
  mk_mode (run m) (build m) (bare m) (spare m) h l (done m) (vals m) (pend m).

Lemma put_lookup st h x' r y :
  hs (put h x' st) !! r = Some y <-> r = h /\ y = x' \/ r <> h /\ hs st !! r = Some y.
Proof. cbn. rewrite lookup_insert_Some. naive_solver. Qed.

Section put.
Context {m m' : mode} {st : heap} {h : hid} {x x' : future_header} (Hs : shape m st).
Context (Hx : hs st !! h = Some x) (Hnr : status x <> status_ready).
Context (Hb : bare m = Some h \/ kind x <> KDependent /\ bare m = None).
Context (Hk : kind x = KDependent <-> kind x' = KDependent).
Context (Hr : kind x' = KDependent -> status x' = status_ready).
Context (Hp : status x' <> status_proxying /\ status x' <> status_proxying_active).
Context (Hm : sucs x' = sucs x /\ m' = set_bare None m \/
  sucs x' = [] /\ loose m = [] /\ m' = set_loose h (sucs x) (set_bare None m)).
Context (Hok : header_ok m' (put h x' st) h x').

Lemma put_mode : run m' = run m /\ build m' = build m /\ spare m' = spare m /\ bare m' = None /\
  done m' = done m /\ vals m' = vals m /\ pend m' = pend m.
Proof. by destruct Hm as [[_ ->]|(_ & _ & ->)]. Qed.

Lemma put_old r y : r <> h -> hs st !! r = Some y -> hs (put h x' st) !! r = Some y.
Proof. intros. apply put_lookup. by right. Qed.

Lemma put_is_result r : is_result st r -> r <> h /\ is_result (put h x' st) r.
Proof.
  intros (y & Hy & ? & Hyr & ?). assert (r <> h) by (intros ->; by simplify_eq).
  split; [done|]. exists y. split; [by apply put_old|done].
Qed.

Lemma put_in_hand r : r <> h -> in_hand m' r <-> in_hand m r.
Proof.
  destruct put_mode as (H1 & H2 & _ & H3 & _). unfold in_hand. rewrite H1, H2, H3.
  intros. destruct Hb as [->|[_ ->]]; naive_solver.
Qed.

Lemma put_owns r b : owns m' (put h x' st) r b <-> owns m st r b.
Proof.
  destruct put_mode as (_ & _ & _ & H3 & _). unfold owns. rewrite H3. split; intros (y & Hy & Hky & Hsy & ? & ?).
  - apply put_lookup in Hy as [[-> ->]|[? ?]]; [by rewrite Hr in Hsy|].
    exists y. split_and!; try done. destruct Hb as [->|[_ ->]]; congruence.
  - assert (r <> h). { intros ->. simplify_eq. destruct Hb as [?|[? ?]]; done. }
    exists y. split_and!; try done. by apply put_old.
Qed.

Lemma put_not_queued : h ∉ queue st.
Proof.
  intros (Hh & y & Hy & Hky & _)%(proj2 (s_queue _ _ Hs)). simplify_eq.
  destruct Hb as [?|[? _]]; [|done]. apply Hh. by right; right.
Qed.

Lemma put_link_at l : link_at (put h x' st) l = link_at st l.
Proof. done. Qed.

Lemma put_sucs l : l ∈ sucs x' -> l ∈ sucs x.
Proof. destruct Hm as [[-> _]|(-> & _)]; [done|]. by intros ?%not_elem_of_nil. Qed.

Lemma shape_put : shape m' (put h x' st).
Proof.
  destruct put_mode as (Er & Ebu & Esp & Ebare & Edo & Eva & Epe).
  split; rewrite ?Er, ?Ebu, ?Esp, ?Edo, ?Eva, ?Epe.
  - destruct (s_always _ _ Hs) as (y & Hy & Hky & ?). exists y. split_and!; [apply put_old; [|done]|done..].
    intros <-. pose proof (s_header _ _ Hs _ _ Hy) as H1. unfold header_ok in H1.
    rewrite Hky in H1. simplify_eq. by destruct H1.
  - intros r y [[-> ->]|[Hne Hy]]%put_lookup; [done|].
    pose proof (s_header _ _ Hs _ _ Hy) as H1. unfold header_ok in *. rewrite Ebare, Esp.
    destruct (kind y); [done..|]. case_decide.
    + destruct H1 as (? & q & ? & ?). split; [done|]. exists q. split; [done|by apply put_is_result].
    + destruct H1 as [H1|H1]; [|by right]. destruct Hb as [Hb'|[_ Hb']]; congruence.
  - intros b xb. cbn. intros [?|(r & Ho)]%(s_body _ _ Hs); [by left|right]. exists r. by apply put_owns.
  - intros h1 h2 b. rewrite !put_owns. apply (s_owner _ _ Hs).
  - intros l lk. rewrite put_link_at. intros Hlk. pose proof (s_link _ _ Hs _ _ Hlk) as H1.
    destruct (suc lk); [|by apply put_is_result].
    destruct (decide (dep lk = h)) as [E|Hne].
    + destruct H1 as [(y & Hy & Hin)|[Hin Hso]].
      * rewrite E in *. simplify_eq. destruct Hm as [[Esu ->]|(Esu & _ & ->)]; [left|by right].
        exists x'. rewrite Esu. split; [apply put_lookup; by left|done].
      * destruct Hm as [[Esu ->]|(Esu & Elo & ->)]; [by right|]. rewrite Elo in Hin. by apply not_elem_of_nil in Hin.
    + destruct H1 as [(y & Hy & Hin)|[Hin Hso]]; [left; exists y; split; [by apply put_old|done]|].
      destruct Hm as [[Esu ->]|(Esu & Elo & ->)]; [by right|]. rewrite Elo in Hin. by apply not_elem_of_nil in Hin.
  - intros r y l [[-> ->]|[Hne Hy]]%put_lookup Hin; rewrite put_link_at; [|by eapply (s_sucs _ _ Hs)].
    eapply (s_sucs _ _ Hs); [done|by apply put_sucs].
  - intros r y [[-> ->]|[Hne Hy]]%put_lookup; [|by eapply (s_nodup _ _ Hs)].
    destruct Hm as [[-> _]|(-> & _)]; [by eapply (s_nodup _ _ Hs)|constructor].
  - destruct (s_loose _ _ Hs) as [Hnl Hlo]. destruct Hm as [[Esu ->]|(Esu & Elo & ->)]; cbn.
    + split; [done|]. intros l Hin. destruct (Hlo l Hin) as [? Hno]. split; [done|].
      intros y [[Eso ->]|[Hne Hy]]%put_lookup; [rewrite Esu|by apply Hno]. apply Hno. by rewrite Eso.
    + split; [by eapply (s_nodup _ _ Hs)|]. intros l Hin. split; [by eapply (s_sucs _ _ Hs)|].
      intros y. rewrite lookup_insert_eq. intros [= <-]. rewrite Esu. apply not_elem_of_nil.
  - intros b xb lk y ? ? Hin ? [[Hd ->]|[Hne Hy]]%put_lookup; [done|by eapply (s_proxy _ _ Hs)].
  - destruct (s_queue _ _ Hs) as [? Hq]. split; [done|]. intros r Hin.
    assert (r <> h) by (intros ->; by apply put_not_queued). rewrite put_in_hand by done.
    destruct (Hq r Hin) as (? & y & ? & ?). split; [done|]. exists y. split; [by apply put_old|done].
  - intros r y [[-> ->]|[Hne Hy]]%put_lookup Hky Hay.
    + unfold active_status in Hay. rewrite (Hr Hky) in Hay. by destruct Hay.
    + rewrite put_in_hand by done. by eapply (s_active _ _ Hs).
  - intros r Hrun. destruct (s_run _ _ Hs _ Hrun) as (? & ? & y & b & xb & Hy & Hky & ?).
    rewrite Ebare. split_and!; [done..|]. exists y, b, xb. split; [|done]. apply put_old; [|done].
    intros ->. simplify_eq. destruct Hb as [?|[? ?]]; done.
  - intros d Hd. destruct (s_done _ _ Hs _ Hd) as [? Hdn]. split; [done|].
    intros y b xb [[-> ->]|[Hne Hy]]%put_lookup Hky Hsy ? ? ?; [by rewrite Hr in Hsy|].
    rewrite put_in_hand by done. by eapply Hdn.
  - intros d v Hd. destruct (s_vals _ _ Hs _ _ Hd) as [? Hv]. split; [done|].
    intros y [[-> ->]|[Hne Hy]]%put_lookup.
    + destruct (Hv _ Hx) as (? & ? & ? & _). done.
    + destruct (Hv _ Hy) as (r & xr & Hsy & Hly & Hxr & ?). exists r, xr. split_and!; try done.
      apply put_old; [|done]. intros ->. pose proof (s_header _ _ Hs _ _ Hy) as H1. unfold header_ok in H1.
      destruct (kind y) eqn:Hky; [| |rewrite decide_True in H1 by done].
      * destruct H1 as (? & ? & ?). congruence.
      * destruct H1 as [? ?]. congruence.
      * destruct H1 as (_ & q & Hq & Hres). apply put_is_result in Hres as [? _]. congruence.
  - destruct (s_fresh _ _ Hs) as [H1 H2]. split; [|done]. intros r Hge. cbn in *.
    rewrite lookup_insert_ne; [by apply H1|]. intros ->. rewrite H1 in Hx by done. done.
  - apply (s_spare _ _ Hs).
  - intros r y [[-> ->]|[Hne Hy]]%put_lookup Hky Hsy; [by rewrite Hr in Hsy|]. by eapply (s_pend _ _ Hs).
Qed.
End put.

(** * Notifying a successor *)

Lemma number_linked_insert l i lk lk' : l !! i = Some lk ->
  number_linked (<[i := lk']> l) = number_linked l - ind (suc lk <> None) + ind (suc lk' <> None).
Proof. intros. unfold number_linked. by rewrite (lsum_insert _ _ _ _ _ H). Qed.

Lemma number_linked_pos l i lk : l !! i = Some lk -> suc lk <> None -> 0 < number_linked l.
Proof.
  intros Hl Hs. pose proof (lsum_lookup_le (fun k => ind (suc k <> None)) l i lk (fun _ => ind_nonneg _) Hl) as H1.
  cbn in H1. rewrite ind_yes in H1 by done. unfold number_linked. lia.
Qed.

Lemma number_linked_nonneg l : 0 <= number_linked l.
Proof. apply lsum_nonneg. intros. apply ind_nonneg. Qed.

Lemma number_linked_zero l lk : number_linked l = 0 -> lk ∈ l -> suc lk = None.
Proof.
  intros H0 [i Hi]%list_elem_of_lookup. destruct (suc lk) eqn:Hs; [|done].
  pose proof (number_linked_pos _ _ _ Hi). rewrite Hs in *. naive_solver lia.
Qed.

(** The owner of a linked link. *)
Lemma link_owner m st b i lk s : shape m st -> link_at st (b, i) = Some lk -> suc lk = Some s ->
  owns m st s b /\ exists x xb, hs st !! s = Some x /\ bs st !! b = Some xb /\ links xb !! i = Some lk /\
    kind x = KDependent /\ status x <> status_ready /\ load x = Body b /\ body_ok s x xb /\ spare m <> Some b.
Proof.
  intros Hs (xb & Hb & Hi)%link_at_body Hsu.
  destruct (s_body _ _ Hs _ _ Hb) as [[_ Hnil]|(h & Ho)]; [by rewrite Hnil in Hi|].
  pose proof Ho as (x & Hx & Hk & Hst & Hl & Hbare).
  pose proof (s_header _ _ Hs _ _ Hx) as Hok. unfold header_ok in Hok. rewrite Hk, decide_False in Hok by done.
  destruct Hok as [?|(b' & xb' & Hl' & ? & Hbok & ?)]; [done|]. rewrite Hl in Hl'. simplify_eq.
  assert (h = s) as ->.
  { destruct Hbok as [HF _]. apply (Forall_lookup_1 _ _ _ _ HF) in Hi as [?|?]; congruence. }
  split; [done|]. exists x, xb. done.
Qed.

Section notify.
Context {m m' : mode} {st st' : heap} {h r s : hid} {b : bid} {i : nat} {l : list lid}.
Context {lk : dependency_link} {xs : future_header} {xb : future_body} (Hs : shape m st).
Context (Hlo : loose m = (b, i) :: l) (Hso : source m = h) (Hm : m' = set_loose h l m).
Context (Hbuild : build m = None) (Hbare : bare m = None).
Context (Hlk : link_at st (b, i) = Some lk) (Hsu : suc lk = Some s) (Hr : is_result st r).
Context (Hxs : hs st !! s = Some xs) (Hxb : bs st !! b = Some xb).

Abbreviation xs' := (set_status (status xs - 1) xs).
Abbreviation xb' := (mk_body (bkind xb) (<[i := mk_link r None]> (links xb))).

Context (Eh : hs st' = <[s := xs']> (hs st)) (Eb : bs st' = <[b := xb']> (bs st)).
Context (Eq : queue st' = if status xs - 1 <=? status_active then queue st ++ [s] else queue st).
Context (En : next_h st' = next_h st) (Enb : next_b st' = next_b st).

Lemma notify_owner : kind xs = KDependent /\ load xs = Body b /\ links xb !! i = Some lk /\
  body_ok s xs xb /\ owns m st s b /\ spare m <> Some b.
Proof.
  destruct (link_owner _ _ _ _ _ _ Hs Hlk Hsu) as (Ho & x & y & Hx & Hb & ? & ? & ? & ? & ? & ?).
  rewrite Hxs in Hx. rewrite Hxb in Hb. by simplify_eq.
Qed.

(** The header waits, or proxies. *)
Lemma notify_status : bkind xb <> BProxy /\ 0 < status xs \/ bkind xb = BProxy /\ status xs = status_proxying.
Proof.
  destruct notify_owner as (_ & _ & Hi & [_ Hb] & _). destruct (bkind xb); [left..|right].
  - split; [done|]. rewrite Hb. eapply number_linked_pos; [done|by rewrite Hsu].
  - split; [done|]. rewrite Hb. eapply number_linked_pos; [done|by rewrite Hsu].
  - split; [done|]. destruct Hb as (k & Ek & ->). rewrite Ek in Hi. destruct i; simplify_eq/=. by rewrite Hsu.
Qed.

Lemma notify_not_ready : status xs <> status_ready /\ status xs' <> status_ready /\ ~ active_status xs.
Proof.
  unfold active_status, status_ready, status_active, status_proxying_active. cbn.
  destruct notify_status as [[_ ?]|[_ ->]]; unfold status_proxying; lia.
Qed.

Lemma notify_active : active_status xs' -> status xs - 1 <=? status_active = true.
Proof.
  unfold active_status. cbn. intros [->|Hz]; [reflexivity|]. rewrite Hz. reflexivity.
Qed.

Lemma notify_body_ok : body_ok s xs' xb'.
Proof.
  destruct notify_owner as (_ & _ & Hi & [HF Hb] & _). split; cbn; [apply Forall_insert; [done|by left]|].
  destruct (bkind xb).
  - rewrite (number_linked_insert _ _ _ _ Hi), <- Hb, Hsu. cbn. rewrite ind_yes, ind_no by naive_solver. lia.
  - rewrite (number_linked_insert _ _ _ _ Hi), <- Hb, Hsu. cbn. rewrite ind_yes, ind_no by naive_solver. lia.
  - destruct Hb as (k & Ek & Es). rewrite Ek in *. destruct i; simplify_eq/=. rewrite Hsu in Es.
    eexists. split; [done|]. by rewrite Es.
Qed.

Lemma notify_lookup q y : hs st' !! q = Some y <-> q = s /\ y = xs' \/ q <> s /\ hs st !! q = Some y.
Proof. rewrite Eh, lookup_insert_Some. clear. naive_solver. Qed.

(** Everything but the status stays. *)
Lemma notify_back q y : hs st' !! q = Some y -> exists y0, hs st !! q = Some y0 /\ sucs y = sucs y0 /\
  load y = load y0 /\ kind y = kind y0 /\ results y = results y0 /\
  (status y = status_ready <-> status y0 = status_ready) /\ (q <> s -> y = y0).
Proof.
  destruct notify_not_ready as (H1 & H2 & _). cbn in H2.
  intros [[-> ->]|[? ?]]%notify_lookup; [exists xs|exists y]; split_and!; done.
Qed.

Lemma notify_forth q y0 : hs st !! q = Some y0 -> exists y, hs st' !! q = Some y /\ sucs y = sucs y0 /\
  load y = load y0 /\ kind y = kind y0 /\ results y = results y0 /\
  (status y = status_ready <-> status y0 = status_ready) /\ (q <> s -> y = y0).
Proof.
  intros Hy. destruct notify_not_ready as (H1 & H2 & _). cbn in H2. destruct (decide (q = s)) as [->|].
  - simplify_eq. exists xs'. split_and!; try done. apply notify_lookup. by left.
  - exists y0. split_and!; try done. apply notify_lookup. by right.
Qed.

Lemma notify_is_result q : is_result st q -> is_result st' q.
Proof.
  intros (y & Hy & ? & ? & ? & ?). destruct (notify_forth _ _ Hy) as (y' & Hy' & ? & ? & ? & ? & ? & ?).
  exists y'. split_and!; intuition congruence.
Qed.

Lemma notify_owns q c : owns m' st' q c <-> owns m st q c.
Proof.
  rewrite Hm. unfold owns; cbn. split; intros (y & Hy & ? & ? & ? & ?).
  - destruct (notify_back _ _ Hy) as (y' & Hy' & ? & ? & ? & ? & ? & ?). exists y'. split_and!; intuition congruence.
  - destruct (notify_forth _ _ Hy) as (y' & Hy' & ? & ? & ? & ? & ? & ?). exists y'. split_and!; intuition congruence.
Qed.

Lemma notify_body c y : bs st' !! c = Some y -> exists y0, bs st !! c = Some y0 /\ bkind y = bkind y0 /\
  (c <> b -> y = y0) /\ (links y0 = [] -> links y = []).
Proof.
  rewrite Eb. intros [[-> <-]|[? ?]]%lookup_insert_Some; [exists xb|exists y]; split_and!; try done.
  intros Hn. cbn. by rewrite Hn.
Qed.

Lemma notify_link_at k : link_at st' k = if decide (k = (b, i)) then Some (mk_link r None) else link_at st k.
Proof.
  destruct notify_owner as (_ & _ & Hi & _). unfold link_at. rewrite Eb. destruct k as [c j]. cbn.
  destruct (decide (c = b)) as [->|]; [|rewrite lookup_insert_ne, decide_False by congruence; done].
  rewrite lookup_insert_eq. cbn. case_decide as Hd.
  - injection Hd as ->. rewrite list_lookup_insert_eq; [done|]. by eapply lookup_lt_Some.
  - rewrite list_lookup_insert_ne by congruence. by rewrite Hxb.
Qed.

Lemma notify_header_ok q y : hs st' !! q = Some y -> header_ok m' st' q y.
Proof.
  intros Hy. destruct notify_owner as (Hk & Hl & Hi & Hbok & Ho & Hsp).
  destruct notify_not_ready as (H1 & H2 & _). rewrite Hm.
  apply notify_lookup in Hy as [[-> ->]|[Hne Hy]].
  - unfold header_ok. cbn in *. rewrite Hk, decide_False by done. right. exists b, xb'.
    rewrite Eb, lookup_insert_eq. split_and!; try done. apply notify_body_ok.
  - pose proof (s_header _ _ Hs _ _ Hy) as Hok. unfold header_ok in *. cbn.
    destruct (kind y) eqn:Hky; [done..|]. case_decide as Hdr.
    + destruct Hok as (? & p & ? & ?). split; [done|]. exists p. split; [done|by apply notify_is_result].
    + right. destruct Hok as [?|(c & xc & Hlc & Hc & ? & ?)]; [congruence|]. exists c, xc.
      split_and!; try done. rewrite Eb, lookup_insert_ne; [done|]. intros <-.
      apply Hne. eapply (s_owner _ _ Hs); [|done]. exists y. split_and!; try done. congruence.
Qed.

Lemma notify_not_loose k q y : hs st !! q = Some y -> k ∈ sucs y -> k <> (b, i).
Proof.
  intros Hy Hin ->. destruct (s_sucs _ _ Hs _ _ _ Hy Hin) as (lk' & Hl' & Hd & _).
  destruct (s_loose _ _ Hs) as [_ Hlo']. destruct (Hlo' (b, i)) as [(lk2 & Hl2 & Hd2 & _) Hno].
  { rewrite Hlo. left. }
  assert (lk' = lk2) as -> by congruence. apply (Hno y); [by rewrite <- Hd2, Hd|done].
Qed.

Lemma notify_queue : NoDup (queue st') /\ forall q, q ∈ queue st' ->
  ~ in_hand m' q /\ exists y, hs st' !! q = Some y /\ kind y = KDependent /\ active_status y.
Proof.
  destruct notify_owner as (Hk & _). destruct notify_not_ready as (_ & _ & Hna).
  destruct (s_queue _ _ Hs) as [Hn Hq].
  assert (Hsq : s ∉ queue st). { intros (_ & y & Hy & _ & ?)%Hq. by simplify_eq. }
  assert (Hold : forall q, q ∈ queue st -> ~ in_hand m' q /\
    exists y, hs st' !! q = Some y /\ kind y = KDependent /\ active_status y).
  { intros q Hin. destruct (Hq q Hin) as (Hh & y & Hy & ?). split; [by rewrite Hm|].
    exists y. split; [|done]. apply notify_lookup. right. split; [by intros ->|done]. }
  pose proof notify_status as Hns. pose proof notify_lookup as Hlook.
  rewrite Eq. destruct (status xs - 1 <=? status_active) eqn:Hact; [|done]. split.
  - apply NoDup_app. split_and!; [done| |apply NoDup_singleton].
    intros q Hin ->%list_elem_of_singleton. done.
  - intros q [Hin| ->%list_elem_of_singleton]%elem_of_app; [by apply Hold|]. split.
    + rewrite Hm. unfold in_hand; cbn. rewrite Hbuild, Hbare. intros [Hrun|[?|?]]; [|done..].
      destruct (s_run _ _ Hs _ Hrun) as (_ & _ & y & c & xc & Hy & _ & Hst & _).
      apply Hna. left. congruence.
    + exists xs'. split_and!; [apply Hlook; by left|done|].
      unfold active_status; cbn. apply Z.leb_le in Hact. unfold status_active, status_proxying_active in *.
      destruct Hns as [[_ ?]|[_ ->]]; unfold status_proxying; lia.
Qed.

Lemma shape_notify : shape m' st'.
Proof.
  destruct notify_owner as (Hk & Hl & Hi & Hbok & Ho & Hsp).
  destruct notify_not_ready as (Hnr & Hnr' & Hna). pose proof notify_status as Hns.
  split; try (rewrite Hm; cbn [run build bare spare done vals pend source loose set_loose]).
  - destruct (s_always _ _ Hs) as (y & Hy & Hky & ?). destruct (notify_forth _ _ Hy) as (y' & Hy' & ? & ? & ? & ? & _).
    exists y'. split_and!; congruence.
  - intros q y Hy. rewrite <- Hm. by apply notify_header_ok.
  - intros c y (y0 & Hc & _ & _ & Hnil)%notify_body. destruct (s_body _ _ Hs _ _ Hc) as [[? ?]|(q & Hq)].
    + left. auto.
    + right. exists q. rewrite <- Hm. by apply notify_owns.
  - intros h1 h2 c. rewrite <- Hm, !notify_owns. apply (s_owner _ _ Hs).
  - intros k lk'. rewrite notify_link_at. case_decide as Hd; [intros [= <-]; by apply notify_is_result|].
    intros Hk'. pose proof (s_link _ _ Hs _ _ Hk') as H1. destruct (suc lk'); [|by apply notify_is_result].
    destruct H1 as [(y & Hy & Hin)|[Hin ?]]; [left|right].
    + destruct (notify_forth _ _ Hy) as (y' & Hy' & Es & _). exists y'. by rewrite Es.
    + rewrite Hlo in Hin. apply elem_of_cons in Hin as [?|?]; [done|]. by rewrite <- Hso.
  - intros q y k (y0 & Hy & Es & _)%notify_back. rewrite Es. intros Hin.
    rewrite notify_link_at, decide_False by (by eapply notify_not_loose). by eapply (s_sucs _ _ Hs).
  - intros q y (y0 & Hy & Es & _)%notify_back. rewrite Es. by eapply (s_nodup _ _ Hs).
  - destruct (s_loose _ _ Hs) as [Hnl Hl']. rewrite Hlo in Hnl, Hl'. apply NoDup_cons in Hnl as [Hnin Hnl].
    split; [done|]. intros k Hin. destruct (Hl' k) as [(lk' & ? & ? & ?) Hno]; [by right|]. split.
    + exists lk'. rewrite notify_link_at, decide_False by (by intros ->). by rewrite <- Hso.
    + intros y (y0 & Hy & Es & _)%notify_back. rewrite Es. rewrite <- Hso in Hy. by apply Hno.
  - intros c y lk' z Hc Hbk Hin Hlk' Hz. rewrite Eb in Hc.
    apply lookup_insert_Some in Hc as [[-> <-]|[Hcb Hc]].
    + cbn in *. destruct Hbok as [_ Hb]. rewrite Hbk in Hb. destruct Hb as (k & Ek & _). rewrite Ek in *.
      destruct i; simplify_eq/=. apply list_elem_of_singleton in Hin as ->. done.
    + destruct (notify_back _ _ Hz) as (z0 & Hz0 & _ & _ & _ & _ & _ & Hzz).
      pose proof (s_proxy _ _ Hs _ _ _ _ Hc Hbk Hin Hlk' Hz0) as Hnp.
      apply notify_lookup in Hz as [[Hd ->]|[Hd Hz]]; [|by simplify_eq]. cbn. rewrite Hd in Hz0. simplify_eq.
      destruct Hns as [[_ ?]|[_ Hz]]; [|by destruct Hnp].
      unfold status_proxying, status_proxying_active. lia.
  - rewrite <- Hm. apply notify_queue.
  - intros q y [[-> ->]|[Hne Hy]]%notify_lookup Hky Hay; rewrite Eq.
    + left. rewrite notify_active by done. apply elem_of_app. right. by apply list_elem_of_singleton.
    + destruct (s_active _ _ Hs _ _ Hy Hky Hay) as [?|?]; [left|by right].
      case_match; [apply elem_of_app; by left|done].
  - intros q Hrun. destruct (s_run _ _ Hs _ Hrun) as (? & ? & y & c & xc & Hy & ? & Hst & ? & Hc & ?).
    split_and!; [done..|]. assert (q <> s). { intros ->. apply Hna. left. congruence. }
    exists y, c, xc. split_and!; try done; [apply notify_lookup; by right|].
    rewrite Eb, lookup_insert_ne; [done|]. intros <-. assert (q = s); [|done].
    eapply (s_owner _ _ Hs); [|done]. exists y. split_and!; try done. by rewrite Hst.
  - intros d Hd. destruct (s_done _ _ Hs _ Hd) as [? Hdn]. rewrite En. split; [done|].
    intros y c xc (y0 & Hy & ? & ? & ? & ? & ? & ?)%notify_back ? ? ? (xc0 & ? & ? & _)%notify_body ?.
    eapply (Hdn y0 c xc0); intuition congruence.
  - intros d v Hd. destruct (s_vals _ _ Hs _ _ Hd) as [? Hv]. rewrite En. split; [done|].
    intros y (y0 & Hy & ? & ? & ? & ? & ? & ?)%notify_back.
    destruct (Hv _ Hy) as (q & xq & ? & ? & Hq & ?). destruct (notify_forth _ _ Hq) as (xq' & ? & ? & ? & ? & ? & ? & ?).
    exists q, xq'. split_and!; intuition congruence.
  - destruct (s_fresh _ _ Hs) as [H1 H2]. rewrite En, Enb, Eh, Eb. split; intros ? Hge.
    + rewrite lookup_insert_ne; [by apply H1|]. intros <-. by rewrite H1 in Hxs.
    + rewrite lookup_insert_ne; [by apply H2|]. intros <-. by rewrite H2 in Hxb.
  - intros c Hc. rewrite Eb. destruct (decide (c = b)) as [->|]; [rewrite lookup_insert_eq; eauto|].
    rewrite lookup_insert_ne by done. by apply (s_spare _ _ Hs).
  - intros q y (y0 & Hy & ? & ? & ? & ? & ? & ?)%notify_back ? ?. apply (s_pend _ _ Hs q y0); intuition congruence.
Qed.
End notify.

End Invariant.
