(* ===== verification/FutureUpdates.v ===== *)
(** More elementary updates of the futures heap that keep its shape: what an
    operation takes into its hands and gives back, headers under construction,
    bodies that are taken off their header, and proxying. *)
From S2P Require Import Prelude FutureCore FutureInvariant.

Module Updates.
Import Futures Invariant.

Definition set_build (o : option hid) (m : mode) : mode :=
  mk_mode (run m) o (bare m) (spare m) (source m) (loose m) (done m) (vals m) (pend m).
Definition set_run (o : option hid) (m : mode) : mode :=
  mk_mode o (build m) (bare m) (spare m) (source m) (loose m) (done m) (vals m) (pend m).
Definition set_spare (o : option bid) (m : mode) : mode :=
  mk_mode (run m) (build m) (bare m) o (source m) (loose m) (done m) (vals m) (pend m).
Definition set_done (d : gset hid) (m : mode) : mode :=
  mk_mode (run m) (build m) (bare m) (spare m) (source m) (loose m) d (vals m) (pend m).
Definition set_vals (v : gmap hid val) (m : mode) : mode :=
  mk_mode (run m) (build m) (bare m) (spare m) (source m) (loose m) (done m) v (pend m).

Definition set_pend (p : gset hid) (m : mode) : mode :=
  mk_mode (run m) (build m) (bare m) (spare m) (source m) (loose m) (done m) (vals m) p.

(** * Changes of hands *)

Lemma counts_mode m m' own st st' : counts m own st -> bare m' = bare m -> hs st' = hs st -> bs st' = bs st ->
  counts m' own st'.
Proof.
  intros [H1 H2 H3] Hb Eh Eb. split; unfold links_to, results_to in *; rewrite ?Hb, ?Eh, ?Eb; done.
Qed.

(** Headers and bodies stay; the queue and the mode change. *)
Lemma shape_mode m m' st st' : shape m st ->
  hs st' = hs st -> bs st' = bs st -> next_h st' = next_h st -> next_b st' = next_b st ->
  bare m' = bare m -> spare m' = spare m -> loose m' = loose m -> source m' = source m ->
  (NoDup (queue st') /\ forall h, h ∈ queue st' ->
    ~ in_hand m' h /\ exists x, hs st !! h = Some x /\ kind x = KDependent /\ active_status x) ->
  (forall h x, hs st !! h = Some x -> kind x = KDependent -> active_status x -> h ∈ queue st' \/ in_hand m' h) ->
  (forall h, run m' = Some h -> build m' <> Some h /\ bare m' <> Some h /\
    exists x b xb, hs st !! h = Some x /\ kind x = KDependent /\ status x = status_active /\
                   load x = Body b /\ bs st !! b = Some xb /\ bkind xb = BThen) ->
  (forall h, h ∈ done m' -> (h < next_h st)%nat /\
    forall x b xb, hs st !! h = Some x -> kind x = KDependent -> status x <> status_ready ->
      load x = Body b -> bs st !! b = Some xb -> bkind xb = BThen -> in_hand m' h) ->
  (forall h v, vals m' !! h = Some v -> (h < next_h st)%nat /\
    forall x, hs st !! h = Some x -> exists r xr, status x = status_ready /\ load x = Result r /\
      hs st !! r = Some xr /\ results xr = Some v) ->
  (forall h x, hs st !! h = Some x -> kind x = KDependent -> status x <> status_ready -> h ∈ pend m') ->
  shape m' st'.
Proof.
  intros Hs Eh Eb En Enb Ebare Esp Elo Eso Hq Ha Hr Hd Hv Hpe.
  assert (Hla : forall l, link_at st' l = link_at st l) by (intros; unfold link_at; by rewrite Eb).
  assert (Hres : forall r, is_result st' r <-> is_result st r) by (intros; unfold is_result; by rewrite Eh).
  assert (Ho : forall h b, owns m' st' h b <-> owns m st h b) by (intros; unfold owns; by rewrite Eh, Ebare).
  split; rewrite ?Eh, ?Eb, ?En, ?Enb, ?Esp, ?Elo, ?Eso; [by apply Hs| |..|by apply Hs|by apply Hs|done].
  - intros h x Hx. pose proof (s_header _ _ Hs _ _ Hx) as Hok. unfold header_ok in *. rewrite Ebare, Eb, Esp.
    destruct (kind x); [done..|]. case_decide; [|done]. destruct Hok as (? & r & ? & ?). split; [done|].
    exists r. by rewrite Hres.
  - intros b xb [?|(h & ?)]%(s_body _ _ Hs); [by left|right]. exists h. by apply Ho.
  - intros h1 h2 b. rewrite !Ho. by apply Hs.
  - intros l lk. rewrite Hla. intros Hl%(s_link _ _ Hs). destruct (suc lk); [done|by apply Hres].
  - intros h x l. rewrite Hla. by apply Hs.
  - by apply Hs.
  - destruct (s_loose _ _ Hs) as [? H]. split; [done|]. intros l. rewrite Hla. by apply H.
  - by apply Hs.
  - done.
  - done.
  - done.
  - done.
  - done.
Qed.

(** A future that has become active enters the queue. *)
Lemma inv_enqueue m own st h x : inv m own st -> build m = Some h -> bare m = None ->
  hs st !! h = Some x -> kind x = KDependent -> active_status x ->
  (h ∈ done m -> forall b xb, load x = Body b -> bs st !! b = Some xb -> bkind xb <> BThen) ->
  inv (set_build None m) own (enqueue_active h st).
Proof.
  intros [Hc Hs] Hb Hba Hx Hk Ha Hdn. split; [by eapply counts_mode|].
  assert (Eq : queue (enqueue_active h st) = queue st ++ [h]) by (unfold queue; cbn; by destruct (active st)).
  assert (Hrun : run m <> Some h) by (intros Hr; by destruct (s_run _ _ Hs _ Hr)).
  destruct (s_queue _ _ Hs) as [Hn Hq].
  eapply shape_mode; try done; rewrite ?Eq.
  - split.
    + apply NoDup_app. split_and!; [done| |apply NoDup_singleton].
      intros q Hin ->%list_elem_of_singleton. destruct (Hq _ Hin) as [Hh _]. apply Hh. by right; left.
    + intros q [Hin| ->%list_elem_of_singleton]%elem_of_app.
      * destruct (Hq _ Hin) as [Hh ?]. split; [|done]. intros [?|[?|?]]; [by apply Hh; left|done|by apply Hh; right; right].
      * split; [|by exists x]. intros [?|[?|?]]; [done..|]. cbn in *. congruence.
  - intros q y Hy Hky Hay. destruct (s_active _ _ Hs _ _ Hy Hky Hay) as [?|[?|[E|?]]].
    + left. apply elem_of_app. by left.
    + right. by left.
    + left. apply elem_of_app. right. apply list_elem_of_singleton. congruence.
    + right. by right; right.
  - intros q Hr. destruct (s_run _ _ Hs _ Hr) as (? & ? & ?). done.
  - intros d Hd. destruct (s_done _ _ Hs _ Hd) as [? H]. split; [done|].
    intros y b xb Hy Hky Hsy Hl Hxb Hbk. destruct (H _ _ _ Hy Hky Hsy Hl Hxb Hbk) as [?|[E|?]].
    + by left.
    + assert (h = d) as -> by congruence. assert (y = x) as -> by congruence. by destruct (Hdn Hd _ _ Hl Hxb).
    + by right; right.
  - by apply (s_vals _ _ Hs).
  - by apply (s_pend _ _ Hs).
Qed.

(** The next active future is taken out of the queue. *)
Lemma inv_pop m own st h q : inv m own st -> build m = None -> run m = None -> bare m = None ->
  active st = Some (h :: q) -> inv (set_build (Some h) m) own (put_active (Some q) st).
Proof.
  intros [Hc Hs] Hb Hr Hba Hq. split; [by eapply counts_mode|].
  assert (Eq : queue st = h :: q) by (unfold queue; by rewrite Hq).
  destruct (s_queue _ _ Hs) as [Hn Hin]. rewrite Eq in Hn, Hin. apply NoDup_cons in Hn as [Hnin Hn].
  eapply shape_mode; try done.
  - cbn. split; [done|]. intros r Hr'. destruct (Hin r) as [Hh ?]; [by right|]. split; [|done].
    intros [?|[E|?]]; [by apply Hh; left| |by apply Hh; right; right]. cbn in E. by simplify_eq.
  - intros r y Hy Hky Hay. destruct (s_active _ _ Hs _ _ Hy Hky Hay) as [Hi|[?|[?|?]]].
    + rewrite Eq in Hi. apply elem_of_cons in Hi as [->|?]; [right; right; by left|by left].
    + right. by left.
    + congruence.
    + right. by right; right.
  - intros r Hr'. cbn in Hr'. congruence.
  - intros d Hd. destruct (s_done _ _ Hs _ Hd) as [? H]. split; [done|].
    intros y b xb Hy Hky Hsy Hl Hxb Hbk. destruct (H _ _ _ Hy Hky Hsy Hl Hxb Hbk) as [?|[?|?]]; congruence.
  - by apply (s_vals _ _ Hs).
  - by apply (s_pend _ _ Hs).
Qed.

(** * A new dependent header and its empty body *)

Section alloc_build.
Context {m : mode} {st st' : heap} {k : body_kind} {x : future_header} {is_void : bool} (Hs : shape m st).
Abbreviation h := (next_h st).
Abbreviation b := (next_b st).
Context (Hx : x = mk_header 2 status_active [] (Body (next_b st)) KDependent is_void None).
Context (Hb : build m = None) (Hsp : spare m = None) (Hk : k <> BProxy).
Context (Eh : hs st' = <[h := x]> (hs st)) (Eb : bs st' = <[b := mk_body k []]> (bs st)).
Context (En : next_h st' = S h) (Enb : next_b st' = S b) (Eq : queue st' = queue st).

Lemma build_new r y : hs st !! r = Some y -> r <> h.
Proof. intros Hy ->. rewrite (proj1 (s_fresh _ _ Hs)) in Hy by lia. done. Qed.

Lemma build_new_body c y : bs st !! c = Some y -> c <> b.
Proof. intros Hy ->. rewrite (proj2 (s_fresh _ _ Hs)) in Hy by lia. done. Qed.

Lemma build_lookup r y : hs st' !! r = Some y <-> r = h /\ y = x \/ r <> h /\ hs st !! r = Some y.
Proof. rewrite Eh, lookup_insert_Some. clear. naive_solver. Qed.

Lemma build_body c y : bs st' !! c = Some y <-> c = b /\ y = mk_body k [] \/ c <> b /\ bs st !! c = Some y.
Proof. rewrite Eb, lookup_insert_Some. clear. naive_solver. Qed.

Lemma build_old r y : hs st !! r = Some y -> hs st' !! r = Some y.
Proof. intros Hy. apply build_lookup. right. split; [by eapply build_new|done]. Qed.

Lemma build_old_body c y : bs st !! c = Some y -> bs st' !! c = Some y.
Proof. intros Hy. apply build_body. right. split; [by eapply build_new_body|done]. Qed.

Lemma build_is_result r : is_result st r -> is_result st' r.
Proof. intros (y & Hy & ?). exists y. split; [by apply build_old|done]. Qed.

Lemma build_link_at l : link_at st' l = link_at st l.
Proof.
  unfold link_at. destruct (decide (l.1 = b)) as [->|Hne].
  - rewrite Eb, lookup_insert_eq, (proj2 (s_fresh _ _ Hs)) by lia. done.
  - by rewrite Eb, lookup_insert_ne by done.
Qed.

Lemma build_load r y c : hs st !! r = Some y -> kind y = KDependent -> status y <> status_ready ->
  load y = Body c -> bare m <> Some r -> c <> b.
Proof.
  intros Hy Hky Hsy Hly Hba. pose proof (s_header _ _ Hs _ _ Hy) as Hok. unfold header_ok in Hok.
  rewrite Hky, decide_False in Hok by done. destruct Hok as [?|(c' & xc & Hl & Hc & _)]; [done|].
  assert (c = c') as -> by congruence. by eapply build_new_body.
Qed.

Lemma build_owns r c : owns (set_pend ({[h]} ∪ pend m) (set_build (Some h) m)) st' r c -> r = h /\ c = b \/ owns m st r c /\ c <> b.
Proof.
  intros (y & [[-> ->]|[? Hy]]%build_lookup & Hky & Hsy & Hl & ?).
  - left. split; [done|]. rewrite Hx in Hl. by injection Hl.
  - right. split; [by exists y|]. by eapply build_load.
Qed.

Lemma build_queue_old r : r ∈ queue st -> r <> h.
Proof. intros (_ & y & Hy & _)%(proj2 (s_queue _ _ Hs)). by eapply build_new. Qed.

Lemma shape_alloc_build : bare m <> Some h -> shape (set_pend ({[h]} ∪ pend m) (set_build (Some h) m)) st'.
Proof.
  intros Hba.
  split; cbn [run build bare spare done vals pend source loose set_build set_pend].
  - destruct (s_always _ _ Hs) as (y & Hy & ? & ?). exists y. split_and!; [by apply build_old|done..].
  - intros r y [[-> ->]|[Hne Hy]]%build_lookup.
    + rewrite Hx. unfold header_ok; cbn. right. exists b, (mk_body k []).
      split_and!; [done|apply build_body; by left| |by rewrite Hsp].
      split; [by constructor|]. by destruct k.
    + pose proof (s_header _ _ Hs _ _ Hy) as Hok. unfold header_ok in *. cbn.
      destruct (kind y); [done..|]. case_decide.
      * destruct Hok as (? & q & ? & ?). split; [done|]. exists q. split; [done|by apply build_is_result].
      * destruct Hok as [?|(c & xc & ? & ? & Hbok)]; [by left|right]. exists c, xc.
        split_and!; [done|by apply build_old_body|by destruct Hbok..].
  - intros c xc [[-> ->]|[Hne Hc]]%build_body.
    + right. exists h. exists x. split_and!; try done; [apply build_lookup; by left|by rewrite Hx..].
    + destruct (s_body _ _ Hs _ _ Hc) as [?|(r & y & Hy & ?)]; [by left|right].
      exists r, y. split; [by apply build_old|done].
  - intros h1 h2 c [[-> ->]|[H1 ?]]%build_owns [[-> E]|[H2 ?]]%build_owns; try done.
    by eapply (s_owner _ _ Hs).
  - intros l lk. rewrite build_link_at. intros Hlk. pose proof (s_link _ _ Hs _ _ Hlk) as H1.
    destruct (suc lk); [|by apply build_is_result].
    destruct H1 as [(y & Hy & ?)|?]; [left|by right]. exists y. split; [by apply build_old|done].
  - intros r y l [[-> ->]|[Hne Hy]]%build_lookup Hin; rewrite build_link_at; [|by eapply (s_sucs _ _ Hs)].
    rewrite Hx in Hin. by apply not_elem_of_nil in Hin.
  - intros r y [[-> ->]|[Hne Hy]]%build_lookup; [rewrite Hx; constructor|by eapply (s_nodup _ _ Hs)].
  - destruct (s_loose _ _ Hs) as [? Hlo]. split; [done|]. intros l Hin. rewrite build_link_at.
    destruct (Hlo l Hin) as [? Hno]. split; [done|]. intros y [[? ->]|[Hne Hy]]%build_lookup; [|by apply Hno].
    rewrite Hx. apply not_elem_of_nil.
  - intros c xc lk y [[-> ->]|[Hne Hc]]%build_body; [intros ? []%elem_of_nil|].
    intros ? ? ? [[Hd ->]|[? Hy]]%build_lookup; [by rewrite Hx|by eapply (s_proxy _ _ Hs)].
  - destruct (s_queue _ _ Hs) as [? Hq]. rewrite Eq. split; [done|]. intros r Hin.
    pose proof (build_queue_old _ Hin). destruct (Hq r Hin) as (Hh & y & ? & ?).
    split; [|exists y; split; [by apply build_old|done]].
    intros [?|[E|?]]; [by apply Hh; left| |by apply Hh; right; right]. cbn in E. congruence.
  - intros r y [[-> ->]|[Hne Hy]]%build_lookup ? ?; [right; right; by left|]. rewrite Eq.
    destruct (s_active _ _ Hs _ _ Hy) as [?|[?|[?|?]]]; [done..|by left|right; by left|congruence|right; by right; right].
  - intros r Hrun. destruct (s_run _ _ Hs _ Hrun) as (? & ? & y & c & xc & Hy & ? & ? & ? & ? & ?).
    split_and!; [|done|].
    + intros [= E]. apply (build_new _ _ Hy). congruence.
    + exists y, c, xc. split_and!; try done; [by apply build_old|by apply build_old_body].
  - intros d Hd. destruct (s_done _ _ Hs _ Hd) as [? Hdn]. rewrite En. split; [lia|].
    intros y c xc [[-> ->]|[Hne Hy]]%build_lookup ? ? ? Hc ?; [lia|].
    apply build_body in Hc as [[-> ->]|[? Hc]].
    + destruct (decide (bare m = Some d)) as [?|Hnb]; [by right; right|].
      by destruct (build_load _ _ _ Hy H0 H1 H2 Hnb).
    + destruct (Hdn _ _ _ Hy H0 H1 H2 Hc H3) as [?|[?|?]]; [by left|congruence|by right; right].
  - intros d v Hd. destruct (s_vals _ _ Hs _ _ Hd) as [? Hv]. rewrite En. split; [lia|].
    intros y [[-> ->]|[Hne Hy]]%build_lookup; [lia|].
    destruct (Hv _ Hy) as (r & xr & ? & ? & ? & ?). exists r, xr. split_and!; try done. by apply build_old.
  - destruct (s_fresh _ _ Hs) as [H1 H2]. rewrite En, Enb, Eh, Eb. split; intros ? Hge.
    + rewrite lookup_insert_ne by lia. apply H1. lia.
    + rewrite lookup_insert_ne by lia. apply H2. lia.
  - rewrite Hsp. done.
  - intros r y [[-> ->]|[Hne Hy]]%build_lookup ? ?; [set_solver|]. apply elem_of_union_r. by eapply (s_pend _ _ Hs).
Qed.
End alloc_build.

(** * A dependency is added to the body under construction *)

(** A dependent that waits has a body, and counts the links that are linked. *)
Lemma waiting_body m st h x b xb : shape m st -> bare m = None -> hs st !! h = Some x -> kind x = KDependent ->
  status x <> status_ready -> load x = Body b -> bs st !! b = Some xb -> bkind xb <> BProxy ->
  body_ok h x xb /\ status x = number_linked (links xb) /\ spare m <> Some b.
Proof.
  intros Hs Hba Hx Hk Hnr Hl Hxb Hbk. pose proof (s_header _ _ Hs _ _ Hx) as Hok. unfold header_ok in Hok.
  rewrite Hk, decide_False in Hok by done. destruct Hok as [?|(c & xc & Hc & Hxc & Hok & ?)]; [congruence|].
  assert (c = b) as -> by congruence. assert (xc = xb) as -> by congruence.
  split_and!; try done. destruct Hok as [_ Hok]. by destruct (bkind xb).
Qed.

Lemma link_at_grown st st' b xb lk l : bs st !! b = Some xb ->
  bs st' = <[b := mk_body (bkind xb) (links xb ++ [lk])]> (bs st) ->
  link_at st' l = if decide (l = (b, length (links xb))) then Some lk else link_at st l.
Proof.
  intros Hxb Eb. unfold link_at. rewrite Eb. destruct l as [c j]. cbn.
  destruct (decide (c = b)) as [->|]; [|rewrite lookup_insert_ne, decide_False by congruence; done].
  rewrite lookup_insert_eq, Hxb. cbn. case_decide as Hd.
  - injection Hd as ->. by rewrite list_lookup_middle.
  - destruct (decide (j < length (links xb))%nat) as [Hj|Hj]; [by rewrite lookup_app_l|].
    rewrite (lookup_ge_None_2 (links xb)) by lia. apply lookup_ge_None_2.
    rewrite length_app. cbn. assert (j <> length (links xb)) by congruence. lia.
Qed.

Section link.
Context {m : mode} {st st' : heap} {h : hid} {b : bid} {x : future_header} {xb : future_body}.
Context {lk : dependency_link} (Hs : shape m st) (Hbuild : build m = Some h) (Hba : bare m = None).
Context (Hx : hs st !! h = Some x) (Hk : kind x = KDependent) (Hnr : status x <> status_ready).
Context (Hl : load x = Body b) (Hxb : bs st !! b = Some xb) (Hbk : bkind xb <> BProxy).
Abbreviation n := (length (links xb)).
Context (Hlk : suc lk = None /\ is_result st (dep lk) /\ hs st' = hs st \/
  suc lk = Some h /\ dep lk <> h /\ exists xa, hs st !! dep lk = Some xa /\ status xa <> status_ready /\
    hs st' = <[h := set_status (status x + 1) x]> (<[dep lk := set_sucs ((b, n) :: sucs xa) xa]> (hs st))).
Context (Eb : bs st' = <[b := mk_body (bkind xb) (links xb ++ [lk])]> (bs st)).
Context (En : next_h st' = next_h st) (Enb : next_b st' = next_b st) (Eq : queue st' = queue st).

(** How a header relates to what it was. *)
Definition linked_header (q : hid) (y0 y : future_header) : Prop :=
  load y = load y0 /\ kind y = kind y0 /\ results y = results y0 /\
  (status y = status_ready <-> status y0 = status_ready) /\ (q <> h -> status y = status y0) /\
  (q = h -> status y = status y0 + ind (suc lk <> None)) /\
  sucs y = if decide (suc lk <> None /\ q = dep lk) then (b, n) :: sucs y0 else sucs y0.

Lemma link_body_ok : body_ok h x xb /\ status x = number_linked (links xb) /\ spare m <> Some b.
Proof. by apply (waiting_body m st). Qed.

Lemma link_pair q y0 : hs st !! q = Some y0 -> exists y, hs st' !! q = Some y /\ linked_header q y0 y.
Proof.
  intros Hy. destruct link_body_ok as (_ & Hst & _). pose proof (number_linked_nonneg (links xb)) as Hnn.
  destruct Hlk as [(Hn & _ & ->)|(Hn & Hne & xa & Hxa & ? & ->)].
  - exists y0. unfold linked_header. rewrite Hn, decide_False by (by intros [? _]).
    rewrite ind_no by (by intros H). split_and!; try done. intros; lia.
  - unfold linked_header. rewrite Hn. destruct (decide (q = h)) as [->|Hqh].
    + assert (y0 = x) as -> by congruence. eexists. rewrite lookup_insert_eq. split; [done|]. cbn.
      rewrite decide_False by (by intros [_ ?]). rewrite ind_yes by done.
      split_and!; try done. unfold status_ready in *. lia.
    + rewrite lookup_insert_ne by done. destruct (decide (q = dep lk)) as [->|Hqa].
      * assert (y0 = xa) as -> by congruence. rewrite lookup_insert_eq. eexists. split; [done|]. cbn.
        rewrite decide_True by done. done.
      * rewrite lookup_insert_ne by done. exists y0. split; [done|]. rewrite decide_False by (by intros [_ ?]). done.
Qed.

Lemma link_dom q y : hs st' !! q = Some y -> exists y0, hs st !! q = Some y0 /\ linked_header q y0 y.
Proof.
  intros Hy. assert (exists y0, hs st !! q = Some y0) as (y0 & Hy0).
  { destruct Hlk as [(_ & _ & E)|(_ & _ & xa & Hxa & _ & E)]; rewrite E in Hy; [by exists y|].
    apply lookup_insert_Some in Hy as [[<- _]|[_ Hy]]; [by exists x|].
    apply lookup_insert_Some in Hy as [[<- _]|[_ Hy]]; [by exists xa|by exists y]. }
  exists y0. split; [done|]. destruct (link_pair _ _ Hy0) as (y' & Hy' & ?). congruence.
Qed.

Lemma link_is_result q : is_result st q -> is_result st' q.
Proof.
  intros (y0 & Hy & ? & ? & ? & ?). destruct (link_pair _ _ Hy) as (y & Hy' & ? & ? & ? & ? & _).
  exists y. split_and!; intuition congruence.
Qed.

Lemma link_owns q c : owns m st' q c <-> owns m st q c.
Proof.
  split; intros (y & Hy & ? & ? & ? & ?).
  - destruct (link_dom _ _ Hy) as (y0 & Hy' & ? & ? & ? & ? & _). exists y0. split_and!; intuition congruence.
  - destruct (link_pair _ _ Hy) as (y' & Hy' & ? & ? & ? & ? & _). exists y'. split_and!; intuition congruence.
Qed.

Lemma link_self_owns : owns m st h b.
Proof. exists x. rewrite Hba. done. Qed.

Lemma link_at_new l : link_at st' l = if decide (l = (b, n)) then Some lk else link_at st l.
Proof. by apply link_at_grown. Qed.

Lemma link_at_fresh : link_at st (b, n) = None.
Proof. unfold link_at. cbn. rewrite Hxb. cbn. by apply lookup_ge_None_2. Qed.

Lemma link_old l k : link_at st l = Some k -> link_at st' l = Some k.
Proof. intros Hk'. rewrite link_at_new, decide_False; [done|]. intros ->. by rewrite link_at_fresh in Hk'. Qed.

Lemma link_header_ok q y : hs st' !! q = Some y -> header_ok m st' q y.
Proof.
  intros Hy. destruct link_body_ok as ([HF _] & Hst & Hsp).
  destruct (link_dom _ _ Hy) as (y0 & Hy0 & El & Ek & Er & Hrd & Hsn & Hsh & Hsu).
  pose proof (s_header _ _ Hs _ _ Hy0) as Hok.
  destruct (decide (q = h)) as [->|Hne].
  - assert (y0 = x) as -> by congruence. unfold header_ok. rewrite Ek, Hk, decide_False by (by rewrite Hrd).
    right. exists b, (mk_body (bkind xb) (links xb ++ [lk])). rewrite El, Eb, lookup_insert_eq.
    split_and!; try done. split; cbn.
    + apply Forall_app. split; [done|]. constructor; [|done].
      destruct Hlk as [(-> & _)|(-> & _)]; [by left|by right].
    + rewrite Hsh, Hst by done. unfold number_linked. rewrite lsum_app. cbn. destruct (bkind xb); [lia..|done].
  - unfold header_ok in *. rewrite Ek, El, Er, (Hsn Hne).
    assert (Hsucs : status y0 = status_ready -> sucs y0 = [] -> sucs y = []).
    { intros Hyr Hnil. rewrite Hsu, decide_False; [done|]. intros [Hsome ->].
      destruct Hlk as [(? & _)|(_ & _ & xa & Hxa & ? & _)]; congruence. }
    destruct (kind y0) eqn:Hky.
    + destruct Hok as (? & ? & ? & ?). split_and!; auto.
    + destruct Hok as [? Hok]. split; [done|]. case_decide; [destruct Hok as (? & ? & ?); split_and!; auto|].
      destruct Hok as [? [[? ?]|[? Hv]]]; split; auto. right. split; [done|].
      destruct Hlk as [(_ & _ & E)|(_ & _ & xa & Hxa & _ & E)]; rewrite E in Hy; [congruence|].
      rewrite lookup_insert_ne in Hy by done. apply lookup_insert_Some in Hy as [[<- <-]|[_ ?]]; [|congruence].
      cbn. congruence.
    + case_decide as Hdr.
      * destruct Hok as (? & r & ? & ?). split; [auto|]. exists r. split; [done|by apply link_is_result].
      * right. destruct Hok as [?|(c & xc & Hlc & Hc & Hbok & ?)]; [congruence|]. exists c, xc. split_and!; try done.
        -- rewrite Eb, lookup_insert_ne; [done|]. intros <-. apply Hne.
           eapply (s_owner _ _ Hs); [|by apply link_self_owns]. exists y0. rewrite Hba. done.
        -- eapply body_ok_upto; [|done]. by rewrite Hsn.
Qed.

Lemma shape_link : shape m st'.
Proof.
  destruct link_body_ok as ([HF _] & Hst & Hsp). pose proof (number_linked_nonneg (links xb)) as Hnn.
  split; rewrite ?En, ?Enb, ?Eq.
  - destruct (s_always _ _ Hs) as (y & Hy & ? & ?). destruct (link_pair _ _ Hy) as (y' & ? & ? & ? & ? & _).
    exists y'. split_and!; congruence.
  - apply link_header_ok.
  - intros c xc. rewrite Eb. intros [[<- <-]|[? Hc]]%lookup_insert_Some.
    + right. exists h. apply link_owns, link_self_owns.
    + destruct (s_body _ _ Hs _ _ Hc) as [?|(r & ?)]; [by left|right]. exists r. by apply link_owns.
  - intros h1 h2 c. rewrite !link_owns. apply (s_owner _ _ Hs).
  - intros l k. rewrite link_at_new. case_decide as Hd.
    + intros [= <-]. destruct Hlk as [(-> & ? & _)|(Hsome & Hne & xa & Hxa & ? & _)]; [by apply link_is_result|].
      rewrite Hsome. left. destruct (link_pair _ _ Hxa) as (y & Hy & _ & _ & _ & _ & _ & _ & Hsu).
      exists y. split; [done|]. rewrite Hsu, decide_True, Hd by (by rewrite Hsome). left.
    + intros Hk'. pose proof (s_link _ _ Hs _ _ Hk') as H1. destruct (suc k); [|by apply link_is_result].
      destruct H1 as [(y & Hy & Hin)|?]; [left|by right].
      destruct (link_pair _ _ Hy) as (y' & ? & _ & _ & _ & _ & _ & _ & Hsu). exists y'. split; [done|].
      rewrite Hsu. case_decide; [by right|done].
  - intros q y l (y0 & Hy & _ & _ & _ & _ & _ & _ & Hsu)%link_dom. rewrite Hsu. case_decide as Hd.
    + destruct Hd as [Hsome ->]. intros [->|Hin]%elem_of_cons.
      * exists lk. rewrite link_at_new, decide_True by done. done.
      * destruct (s_sucs _ _ Hs _ _ _ Hy Hin) as (k & ? & ?). exists k. split; [by apply link_old|done].
    + intros Hin. destruct (s_sucs _ _ Hs _ _ _ Hy Hin) as (k & ? & ?). exists k. split; [by apply link_old|done].
  - intros q y (y0 & Hy & _ & _ & _ & _ & _ & _ & Hsu)%link_dom. rewrite Hsu.
    case_decide; [|by eapply (s_nodup _ _ Hs)]. apply NoDup_cons. split; [|by eapply (s_nodup _ _ Hs)].
    intros Hin. destruct (s_sucs _ _ Hs _ _ _ Hy Hin) as (k & Hk' & _). by rewrite link_at_fresh in Hk'.
  - destruct (s_loose _ _ Hs) as [? Hlo]. split; [done|]. intros l Hin.
    destruct (Hlo l Hin) as [(k & Hk' & ?) Hno]. split; [exists k; split; [by apply link_old|done]|].
    intros y (y0 & Hy & _ & _ & _ & _ & _ & _ & Hsu)%link_dom. rewrite Hsu. specialize (Hno _ Hy).
    case_decide; [|done]. intros [->|?]%elem_of_cons; [|done]. by rewrite link_at_fresh in Hk'.
  - intros c xc k y Hc Hck Hin Hsome Hy. rewrite Eb in Hc.
    apply lookup_insert_Some in Hc as [[<- <-]|[? Hc]]; [done|].
    destruct (link_dom _ _ Hy) as (y0 & Hy0 & _ & _ & _ & _ & Hsn & Hsh & _).
    destruct (decide (dep k = h)) as [E|?]; [|rewrite Hsn by done; by eapply (s_proxy _ _ Hs)].
    rewrite E in Hy0. assert (y0 = x) as -> by congruence. rewrite (Hsh E), Hst.
    pose proof (ind_nonneg (suc lk <> None)). unfold status_proxying, status_proxying_active. lia.
  - destruct (s_queue _ _ Hs) as [? Hq]. split; [done|]. intros q Hin. destruct (Hq _ Hin) as (Hh & y & Hy & ? & ?).
    split; [done|]. destruct (link_pair _ _ Hy) as (y' & ? & ? & ? & ? & ? & Hsn & _). exists y'.
    assert (q <> h) by (intros ->; apply Hh; by right; left). unfold active_status in *. rewrite Hsn by done.
    split_and!; congruence.
  - intros q y (y0 & Hy & _ & Ek & _ & _ & Hsn & _)%link_dom. intros Hky Hay.
    destruct (decide (q = h)) as [->|Hne]; [right; by right; left|].
    apply (s_active _ _ Hs _ y0); unfold active_status in *; rewrite <- ?Hsn by done; congruence.
  - intros q Hrun. destruct (s_run _ _ Hs _ Hrun) as (? & ? & y & c & xc & Hy & ? & ? & ? & Hc & ?).
    split_and!; [done..|]. assert (q <> h) by congruence.
    destruct (link_pair _ _ Hy) as (y' & ? & ? & ? & ? & ? & Hsn & _). exists y', c, xc.
    rewrite Hsn by done. split_and!; try congruence. rewrite Eb, lookup_insert_ne; [done|]. intros <-.
    assert (q = h); [|done]. eapply (s_owner _ _ Hs); [|by apply link_self_owns]. exists y. rewrite Hba.
    unfold status_active, status_ready in *. split_and!; try done. lia.
  - intros d Hd. destruct (s_done _ _ Hs _ Hd) as [? Hdn]. split; [done|].
    intros y c xc (y0 & Hy & ? & ? & ? & Hrd & _)%link_dom ? ? ?. rewrite Eb.
    destruct (decide (d = h)) as [->|Hne]; [intros; by right; left|].
    intros [[<- <-]|[? Hc]]%lookup_insert_Some ?; [|eapply (Hdn y0 c xc); intuition congruence].
    eapply (Hdn y0 b xb); intuition congruence.
  - intros d v Hd. destruct (s_vals _ _ Hs _ _ Hd) as [? Hv]. split; [done|].
    intros y (y0 & Hy & ? & ? & ? & ? & _)%link_dom. destruct (Hv _ Hy) as (r & xr & ? & ? & Hr & ?).
    destruct (link_pair _ _ Hr) as (xr' & ? & ? & ? & ? & ? & _). exists r, xr'. split_and!; intuition congruence.
  - destruct (s_fresh _ _ Hs) as [H1 H2]. split; intros q Hge.
    + destruct (hs st' !! q) eqn:Hq; [|done]. apply link_dom in Hq as (y0 & Hq & _). by rewrite H1 in Hq.
    + rewrite Eb, lookup_insert_ne; [by apply H2|]. intros <-. by rewrite H2 in Hxb.
  - intros c Hc. rewrite Eb. destruct (decide (c = b)) as [->|]; [rewrite lookup_insert_eq; eauto|].
    rewrite lookup_insert_ne by done. by apply (s_spare _ _ Hs).
  - intros q y (y0 & Hy & ? & ? & ? & ? & _)%link_dom ? ?. apply (s_pend _ _ Hs q y0); intuition congruence.
Qed.
End link.

(** * A body is taken off its header *)

(** The header has been served: its links are all unlinked. *)
Section detach.
Context {m : mode} {st st' : heap} {h : hid} {b : bid} {x : future_header} {xb : future_body}.
Context (Hs : shape m st) (Hbuild : build m = Some h) (Hba : bare m = None) (Hsp : spare m = None).
Context (Hx : hs st !! h = Some x) (Hk : kind x = KDependent) (Hnr : status x <> status_ready).
Context (Hl : load x = Body b) (Hxb : bs st !! b = Some xb) (Hun : forall lk, lk ∈ links xb -> suc lk = None).
Context (Eb : bs st' = <[b := mk_body BProxy []]> (bs st)).
Context (Eh : hs st' = hs st) (En : next_h st' = next_h st) (Enb : next_b st' = next_b st) (Eq : queue st' = queue st).

Abbreviation m' := (set_spare (Some b) (set_bare (Some h) (set_build None m))).

Lemma detach_owner : owns m st h b.
Proof. exists x. rewrite Hba. done. Qed.

Lemma detach_owns q c : owns m' st' q c -> owns m st q c /\ q <> h /\ c <> b.
Proof.
  intros (y & Hy & Hky & ? & ? & Hb). rewrite Eh in Hy. cbn in Hb. assert (q <> h) by congruence.
  assert (Ho : owns m st q c) by (exists y; rewrite Hba; done). split_and!; [done..|]. intros ->.
  by pose proof (s_owner _ _ Hs _ _ _ Ho detach_owner).
Qed.

Lemma detach_owns_back q c : owns m st q c -> c <> b -> owns m' st' q c.
Proof.
  intros (y & Hy & Hky & ? & Hly & Hb) Hne. exists y. rewrite Eh. cbn. split_and!; try done. intros [= ->].
  congruence.
Qed.

Lemma detach_link_at l : link_at st' l = if decide (l.1 = b) then None else link_at st l.
Proof.
  unfold link_at. rewrite Eb. case_decide as Hd; [by rewrite Hd, lookup_insert_eq|by rewrite lookup_insert_ne].
Qed.

Lemma detach_linked l lk : link_at st l = Some lk -> suc lk <> None -> l.1 <> b.
Proof.
  destruct l as [c j]. cbn. intros (xc & Hc & Hj)%link_at_body Hsome ->. rewrite Hxb in Hc. injection Hc as <-.
  apply Hsome, Hun. by eapply list_elem_of_lookup_2.
Qed.

Lemma detach_in_hand q : in_hand m' q <-> in_hand m q.
Proof. unfold in_hand; cbn. rewrite Hbuild, Hba. naive_solver. Qed.

Lemma shape_detach : shape m' st'.
Proof.
  assert (Hres : forall r, is_result st' r <-> is_result st r) by (intros; unfold is_result; by rewrite Eh).
  split; rewrite ?Eh, ?En, ?Enb, ?Eq; cbn [run build bare spare done vals pend source loose set_build set_bare set_spare].
  - by apply Hs.
  - intros q y Hy. pose proof (s_header _ _ Hs _ _ Hy) as Hok. unfold header_ok in *. cbn.
    destruct (kind y) eqn:Hky; [done..|]. case_decide.
    + destruct Hok as (? & r & ? & ?). split; [done|]. exists r. by rewrite Hres.
    + destruct (decide (q = h)) as [->|Hne]; [by left|]. right.
      destruct Hok as [?|(c & xc & Hlc & Hc & Hbok & ?)]; [congruence|]. assert (c <> b).
      { intros ->. apply Hne. eapply (s_owner _ _ Hs); [|by apply detach_owner]. exists y. rewrite Hba. done. }
      exists c, xc. rewrite Eb, lookup_insert_ne by done. split_and!; try done. congruence.
  - intros c xc. rewrite Eb. intros [[<- <-]|[? Hc]]%lookup_insert_Some; [by left|right].
    destruct (s_body _ _ Hs _ _ Hc) as [[? _]|(q & Hq)]; [congruence|]. exists q. by apply detach_owns_back.
  - intros h1 h2 c (H1 & _)%detach_owns (H2 & _)%detach_owns. by eapply (s_owner _ _ Hs).
  - intros l lk. rewrite detach_link_at. case_decide; [done|]. intros Hlk%(s_link _ _ Hs).
    destruct (suc lk); [done|by apply Hres].
  - intros q y l Hy Hin. destruct (s_sucs _ _ Hs _ _ _ Hy Hin) as (lk & Hlk & ? & Hsome).
    exists lk. rewrite detach_link_at, decide_False by by eapply detach_linked. done.
  - by apply (s_nodup _ _ Hs).
  - destruct (s_loose _ _ Hs) as [? Hlo]. split; [done|]. intros l Hin.
    destruct (Hlo l Hin) as [(lk & Hlk & ? & Hsome) ?]. split; [|done].
    exists lk. rewrite detach_link_at, decide_False by by eapply detach_linked. done.
  - intros c xc lk y Hc. rewrite Eb in Hc. apply lookup_insert_Some in Hc as [[<- <-]|[? Hc]].
    + by intros _ ?%not_elem_of_nil.
    + by eapply (s_proxy _ _ Hs).
  - destruct (s_queue _ _ Hs) as [? Hq]. split; [done|]. intros q Hin. rewrite detach_in_hand. by apply Hq.
  - intros q y. rewrite detach_in_hand. by apply (s_active _ _ Hs).
  - intros q Hrun. destruct (s_run _ _ Hs _ Hrun) as (? & ? & y & c & xc & Hy & ? & Hst & Hly & Hc & ?).
    split_and!; [done|congruence|]. exists y, c, xc. split_and!; try done.
    rewrite Eb, lookup_insert_ne; [done|]. intros <-. assert (q = h); [|congruence].
    eapply (s_owner _ _ Hs); [|by apply detach_owner]. exists y. rewrite Hba, Hst. done.
  - intros d Hd. destruct (s_done _ _ Hs _ Hd) as [? Hdn]. split; [done|].
    intros y c xc Hy ? ? ? Hc ?. rewrite detach_in_hand. rewrite Eb in Hc.
    apply lookup_insert_Some in Hc as [[<- <-]|[? Hc]]; [done|]. by eapply Hdn.
  - by apply (s_vals _ _ Hs).
  - destruct (s_fresh _ _ Hs) as [H1 H2]. split; [done|]. intros c Hge. rewrite Eb, lookup_insert_ne; [by apply H2|].
    intros <-. by rewrite H2 in Hxb.
  - intros c [= <-]. rewrite Eb, lookup_insert_eq. eauto.
  - by apply (s_pend _ _ Hs).
Qed.
End detach.

(** A body that is not in use is freed. *)
Section free_spare.
Context {m : mode} {st st' : heap} {b : bid} {xb : future_body}.
Context (Hs : shape m st) (Hsp : spare m = Some b) (Hxb : bs st !! b = Some xb).
Context (Eb : bs st' = delete b (bs st)).
Context (Eh : hs st' = hs st) (En : next_h st' = next_h st) (Enb : next_b st' = next_b st) (Eq : queue st' = queue st).

Lemma spare_not_owned q : ~ owns m st q b.
Proof.
  intros (y & Hy & Hky & ? & Hl & ?). pose proof (s_header _ _ Hs _ _ Hy) as Hok. unfold header_ok in Hok.
  rewrite Hky, decide_False in Hok by done. destruct Hok as [?|(c & xc & Hlc & _ & _ & Hn)]; [done|].
  apply Hn. congruence.
Qed.

Lemma spare_links : links xb = [].
Proof. destruct (s_body _ _ Hs _ _ Hxb) as [[_ ?]|(q & ?)]; [done|]. by destruct (spare_not_owned q). Qed.

Lemma free_spare_link_at l : link_at st' l = link_at st l.
Proof.
  unfold link_at. rewrite Eb. destruct (decide (l.1 = b)) as [->|?]; [|by rewrite lookup_delete_ne].
  rewrite lookup_delete_eq, Hxb. cbn. by rewrite spare_links.
Qed.

Lemma shape_free_spare : shape (set_spare None m) st'.
Proof.
  assert (Hres : forall r, is_result st' r <-> is_result st r) by (intros; unfold is_result; by rewrite Eh).
  assert (Ho : forall q c, owns (set_spare None m) st' q c <-> owns m st q c) by (intros; unfold owns; by rewrite Eh).
  split; rewrite ?Eh, ?En, ?Enb, ?Eq; cbn [run build bare spare done vals pend source loose set_spare].
  - by apply Hs.
  - intros q y Hy. pose proof (s_header _ _ Hs _ _ Hy) as Hok. unfold header_ok in *. cbn.
    destruct (kind y) eqn:Hky; [done..|]. case_decide.
    + destruct Hok as (? & r & ? & ?). split; [done|]. exists r. by rewrite Hres.
    + destruct Hok as [?|(c & xc & ? & ? & ? & ?)]; [by left|right]. exists c, xc.
      rewrite Eb, lookup_delete_ne by congruence. done.
  - intros c xc. rewrite Eb. intros [? Hc]%lookup_delete_Some.
    destruct (s_body _ _ Hs _ _ Hc) as [[? _]|(q & Hq)]; [congruence|]. right. exists q. by apply Ho.
  - intros h1 h2 c. rewrite !Ho. apply (s_owner _ _ Hs).
  - intros l lk. rewrite free_spare_link_at. intros Hlk%(s_link _ _ Hs). destruct (suc lk); [done|by apply Hres].
  - intros q y l. rewrite free_spare_link_at. by apply (s_sucs _ _ Hs).
  - by apply (s_nodup _ _ Hs).
  - destruct (s_loose _ _ Hs) as [? Hlo]. split; [done|]. intros l. rewrite free_spare_link_at. apply Hlo.
  - intros c xc lk y. rewrite Eb. intros [? Hc]%lookup_delete_Some. by eapply (s_proxy _ _ Hs).
  - by apply (s_queue _ _ Hs).
  - by apply (s_active _ _ Hs).
  - intros q Hrun. destruct (s_run _ _ Hs _ Hrun) as (? & ? & y & c & xc & Hy & ? & Hst & Hly & Hc & ?).
    split_and!; [done..|]. exists y, c, xc. split_and!; try done. rewrite Eb, lookup_delete_ne; [done|]. intros <-.
    apply (spare_not_owned q). exists y. rewrite Hst. done.
  - intros d Hd. destruct (s_done _ _ Hs _ Hd) as [? Hdn]. split; [done|]. intros y c xc Hy ? ? ?. rewrite Eb.
    intros [? Hc]%lookup_delete_Some ?. by eapply Hdn.
  - by apply (s_vals _ _ Hs).
  - destruct (s_fresh _ _ Hs) as [H1 H2]. split; [done|]. intros c Hge. rewrite Eb. apply lookup_delete_None.
    right. by apply H2.
  - done.
  - by apply (s_pend _ _ Hs).
Qed.
End free_spare.

(** * Proxying *)

(** What redirecting links leaves of a body. *)
Definition same_body (x y : future_body) : Prop := bkind x = bkind y /\ suc <$> links x = suc <$> links y.

Lemma same_body_number l k : suc <$> l = suc <$> k -> number_linked l = number_linked k.
Proof.
  revert k. induction l as [|a l IH]; intros [|c k] H; simplify_eq/=; [done|].
  unfold number_linked in *. cbn. rewrite (IH k) by done. by rewrite H.
Qed.

Lemma same_body_ok h x xb yb : same_body xb yb -> body_ok h x xb -> body_ok h x yb.
Proof.
  intros [Ek El] [HF Hb]. split.
  - apply (Forall_fmap suc (fun o => o = None \/ o = Some h)). rewrite <- El. by apply Forall_fmap.
  - rewrite <- Ek. destruct (bkind xb); [by rewrite Hb; apply same_body_number..|].
    destruct Hb as (lk & Elk & Es). rewrite Elk in El. destruct (links yb) as [|lk' [|]]; simplify_eq/=.
    exists lk'. split; [done|]. rewrite Es. by rewrite H.
Qed.

Lemma elem_of_rev {A} (l : list A) a : a ∈ rev l <-> a ∈ l.
Proof. by rewrite !list_elem_of_In, <- in_rev. Qed.

Lemma elem_of_rev_1 {A} (l : list A) a : a ∈ rev l -> a ∈ l.
Proof. by rewrite elem_of_rev. Qed.

Section proxying.
Context {m : mode} {st st' : heap} {h p : hid} {b : bid} {x x' xp xp' : future_header} {xb : future_body}.
Context {pr rest : list lid} (Hs : shape m st) (Hba : bare m = Some h) (Hsp : spare m = Some b).
Context (Hlo : loose m = []) (Hxb : bs st !! b = Some xb).
Context (Hx : hs st !! h = Some x) (Hk : kind x = KDependent) (Hnr : status x <> status_ready).
Context (Hph : p <> h) (Hxp : hs st !! p = Some xp) (Hpnr : status xp <> status_ready).
Context (Hpnp : status xp <> status_proxying /\ status xp <> status_proxying_active).
(** [pr] are the successors that proxy [h]. *)
Context (Hsucs : forall l, l ∈ sucs x <-> l ∈ pr \/ l ∈ rest) (Hnd : NoDup (pr ++ rest)).
Context (Hpr : forall l lk s xs, l ∈ sucs x -> link_at st l = Some lk -> suc lk = Some s -> hs st !! s = Some xs ->
  l ∈ pr <-> status xs = status_proxying).
Context (Hx' : status x' = status_proxying /\ load x' = Body b /\ kind x' = kind x /\ sucs x' = rest).
Context (Hxp' : status xp' = status xp /\ load xp' = load xp /\ kind xp' = kind xp /\ results xp' = results xp /\
  void xp' = void xp /\ sucs xp' = (b, O) :: rev pr ++ sucs xp).
Context (Eh : hs st' = <[h := x']> (<[p := xp']> (hs st))).
Context (Hla : forall l, link_at st' l = if decide (l = (b, O)) then Some (mk_link p (Some h)) else
  if decide (l ∈ pr) then (fun lk => mk_link p (suc lk)) <$> link_at st l else link_at st l).
Context (Hbb : bs st' !! b = Some (mk_body BProxy [mk_link p (Some h)])).
Context (Hbo : forall c, c <> b -> option_Forall2 same_body (bs st !! c) (bs st' !! c)).
Context (En : next_h st' = next_h st) (Enb : next_b st' = next_b st) (Eq : queue st' = queue st).

Abbreviation m' := (set_spare None (set_bare None m)).

Lemma proxying_back q y : hs st' !! q = Some y -> exists y0, hs st !! q = Some y0 /\ kind y = kind y0 /\
  (status y = status_ready <-> status y0 = status_ready) /\
  (q <> h -> load y = load y0 /\ status y = status y0 /\ results y = results y0 /\ void y = void y0) /\
  (q <> h -> q <> p -> y = y0).
Proof.
  destruct Hx' as (Hx1 & _ & Hx3 & _). destruct Hxp' as (Hp1 & ? & ? & ? & ? & _). rewrite Eh.
  intros [[<- <-]|[? [[<- <-]|[? Hy]]%lookup_insert_Some]]%lookup_insert_Some.
  - exists x. rewrite Hx1. split_and!; done.
  - exists xp. rewrite Hp1. split_and!; done.
  - exists y. done.
Qed.

Lemma proxying_forth q y0 : hs st !! q = Some y0 -> exists y, hs st' !! q = Some y.
Proof.
  intros Hy. rewrite Eh. destruct (decide (q = h)) as [->|]; [rewrite lookup_insert_eq; eauto|].
  rewrite lookup_insert_ne by done. destruct (decide (q = p)) as [->|]; [rewrite lookup_insert_eq; eauto|].
  rewrite lookup_insert_ne by done. eauto.
Qed.

Lemma proxying_sucs q y l : hs st' !! q = Some y -> l ∈ sucs y ->
  (exists y0, hs st !! q = Some y0 /\ l ∈ sucs y0 /\ l ∉ pr) \/ (q = p /\ (l = (b, O) \/ l ∈ pr)).
Proof.
  destruct Hx' as (_ & _ & _ & Hx4). destruct Hxp' as (_ & _ & _ & _ & _ & Hp5). rewrite Eh.
  intros [[<- <-]|[? [[<- <-]|[? Hy]]%lookup_insert_Some]]%lookup_insert_Some.
  - rewrite Hx4. intros Hin. left. exists x. split_and!; [done|apply Hsucs; by right|].
    intros Hp. apply NoDup_app in Hnd as (_ & Hd & _). by apply (Hd l).
  - rewrite Hp5. intros [->|[Hr|Hin]%elem_of_app]%elem_of_cons; [right; split; [done|by left]| |].
    + right. split; [done|]. right. by apply elem_of_rev.
    + left. exists xp. split_and!; try done. intros Hp.
      destruct (s_sucs _ _ Hs _ _ _ Hxp Hin) as (lk & Hlk & Hd & _).
      destruct (s_sucs _ _ Hs _ _ l Hx) as (lk' & Hlk' & Hd' & _); [apply Hsucs; by left|]. congruence.
  - intros Hin. left. exists y. split_and!; try done. intros Hp.
    destruct (s_sucs _ _ Hs _ _ _ Hy Hin) as (lk & Hlk & Hd & _).
    destruct (s_sucs _ _ Hs _ _ l Hx) as (lk' & Hlk' & Hd' & _); [apply Hsucs; by left|]. congruence.
Qed.

Lemma proxying_body_back c xc : c <> b -> bs st' !! c = Some xc ->
  exists xc0, bs st !! c = Some xc0 /\ same_body xc0 xc.
Proof. intros Hne Hc. pose proof (Hbo c Hne) as Hsb. rewrite Hc in Hsb. inversion Hsb. eauto. Qed.

Lemma proxying_body_forth c xc0 : c <> b -> bs st !! c = Some xc0 ->
  exists xc, bs st' !! c = Some xc /\ same_body xc0 xc.
Proof. intros Hne Hc. pose proof (Hbo c Hne) as Hsb. rewrite Hc in Hsb. inversion Hsb. eauto. Qed.

Lemma proxying_is_result q : is_result st q -> q <> h /\ is_result st' q.
Proof.
  intros (y & Hy & Hky & Hrd & Hly & Hv). assert (q <> h) as Hqh by congruence. assert (q <> p) as Hqp by congruence.
  split; [done|]. destruct (proxying_forth _ _ Hy) as (y' & Hy').
  destruct (proxying_back _ _ Hy') as (y0 & Hy0 & _ & _ & _ & E). assert (y0 = y) as -> by congruence.
  rewrite (E Hqh Hqp) in Hy'. by exists y.
Qed.

Lemma proxying_spare_link i : link_at st (b, i) = None.
Proof. unfold link_at. cbn. rewrite Hxb. cbn. by rewrite (spare_links Hs Hsp Hxb). Qed.

Lemma proxying_owns q c : owns m' st' q c <-> q = h /\ c = b \/ owns m st q c.
Proof.
  split.
  - intros (y & Hy & Hky & Hsy & Hly & _). destruct (proxying_back _ _ Hy) as (y0 & Hy0 & Hk0 & Hr0 & Hne & _).
    destruct (decide (q = h)) as [->|Hqh].
    + left. split; [done|]. destruct Hx' as (_ & Hl' & _). rewrite Eh, lookup_insert_eq in Hy. congruence.
    + right. destruct (Hne Hqh) as (? & ? & _). exists y0. rewrite Hba. split_and!; congruence.
  - intros [[-> ->]|(y & Hy & Hky & Hsy & Hly & Hb)].
    + destruct Hx' as (H1 & H2 & H3 & _). exists x'. rewrite Eh, lookup_insert_eq, H1, H3. done.
    + rewrite Hba in Hb. assert (q <> h) as Hqh by congruence.
      destruct (proxying_forth _ _ Hy) as (y' & Hy').
      destruct (proxying_back _ _ Hy') as (y0 & Hy0 & Hk0 & Hr0 & Hne & _). destruct (Hne Hqh) as (? & ? & _).
      assert (y0 = y) as -> by congruence. exists y'. split_and!; try congruence. done.
Qed.

Lemma proxying_header_ok q y : hs st' !! q = Some y -> header_ok m' st' q y.
Proof.
  intros Hy. destruct (proxying_back _ _ Hy) as (y0 & Hy0 & Hk0 & Hr0 & Hne & Hne2).
  destruct (decide (q = h)) as [->|Hqh].
  { assert (y = x') as -> by (rewrite Eh, lookup_insert_eq in Hy; congruence).
    destruct Hx' as (H1 & H2 & H3 & _). unfold header_ok. rewrite H3, Hk, decide_False by (by rewrite H1).
    right. eexists b, _. split_and!; [done..| |done]. split; cbn; [constructor; [by right|done]|].
    eexists. split; [done|]. done. }
  destruct (Hne Hqh) as (El & Es & Er & Ev). pose proof (s_header _ _ Hs _ _ Hy0) as Hok.
  unfold header_ok in *. rewrite Hk0, El, Es, Er, Ev. cbn.
  assert (Hsu : status y0 = status_ready -> sucs y = sucs y0) by (intros; rewrite Hne2; congruence).
  destruct (kind y0) eqn:Hky.
  - destruct Hok as (Hrd & ? & ? & ?). rewrite (Hsu Hrd). done.
  - destruct Hok as [? Hok]. split; [done|]. case_decide as Hrd; [|done]. by rewrite (Hsu Hrd).
  - case_decide as Hrd.
    + rewrite (Hsu Hrd). destruct Hok as (? & r & ? & ?). split; [done|]. exists r. split; [done|].
      by apply proxying_is_result.
    + right. destruct Hok as [?|(c & xc & Hlc & Hc & Hbok & Hcs)]; [congruence|].
      assert (c <> b) as Hcb by congruence. destruct (proxying_body_forth _ _ Hcb Hc) as (xc' & ? & ?). exists c, xc'. split_and!; try done.
      eapply same_body_ok; [done|]. by eapply body_ok_upto.
Qed.

Lemma proxying_link_sucs l lk : link_at st' l = Some lk -> suc lk <> None ->
  exists y, hs st' !! dep lk = Some y /\ l ∈ sucs y.
Proof.
  destruct Hx' as (_ & _ & _ & Hx4). destruct Hxp' as (_ & _ & _ & _ & _ & Hp5). rewrite Hla.
  assert (Hp' : hs st' !! p = Some xp') by (rewrite Eh, lookup_insert_ne, lookup_insert_eq by done; done).
  destruct (decide (l = (b, O))) as [->|Hlb]; [|destruct (decide (l ∈ pr)) as [Hlp|Hlp]].
  - intros [= <-] _. exists xp'. split; [done|]. rewrite Hp5. left.
  - intros (lk0 & Hl0 & ->)%fmap_Some _. exists xp'. split; [done|]. rewrite Hp5. right.
    apply elem_of_app. left. by apply elem_of_rev.
  - intros Hl Hsome. pose proof (s_link _ _ Hs _ _ Hl) as H1. destruct (suc lk); [|done].
    destruct H1 as [(y0 & Hy0 & Hin)|[Hin _]]; [|rewrite Hlo in Hin; by apply not_elem_of_nil in Hin].
    destruct (decide (dep lk = h)) as [E|Hdh].
    + exists x'. rewrite E, Eh, lookup_insert_eq, Hx4. split; [done|].
      assert (y0 = x) as -> by congruence. apply Hsucs in Hin as [?|?]; done.
    + destruct (decide (dep lk = p)) as [E|Hdp].
      * exists xp'. rewrite E, Hp', Hp5. split; [done|]. right. apply elem_of_app. right.
        assert (y0 = xp) as -> by congruence. done.
      * exists y0. rewrite Eh, !lookup_insert_ne by done. done.
Qed.

Lemma proxying_proxy c xc lk y : bs st' !! c = Some xc -> bkind xc = BProxy -> lk ∈ links xc ->
  suc lk <> None -> hs st' !! dep lk = Some y ->
  status y <> status_proxying /\ status y <> status_proxying_active.
Proof.
  intros Hc Hck [i Hin]%list_elem_of_lookup Hsome Hy.
  assert (Hl : link_at st' (c, i) = Some lk) by (unfold link_at; cbn; by rewrite Hc).
  assert (Hp' : hs st' !! p = Some xp') by (rewrite Eh, lookup_insert_ne, lookup_insert_eq by done; done).
  assert (Hdp : dep lk = p -> status y <> status_proxying /\ status y <> status_proxying_active).
  { intros E. destruct Hxp' as (E' & _). rewrite E in Hy. assert (y = xp') as -> by congruence. by rewrite E'. }
  rewrite Hla in Hl. destruct (decide ((c, i) = (b, O))); [simplify_eq; by apply Hdp|].
  destruct (decide ((c, i) ∈ pr)) as [|Hnpr]; [apply fmap_Some in Hl as (lk0 & _ & ->); by apply Hdp|].
  assert (c <> b) as Hcb by (intros ->; by rewrite proxying_spare_link in Hl).
  destruct (proxying_body_back _ _ Hcb Hc) as (xc0 & Hc0 & Ek & Es).
  destruct (suc lk) as [s|] eqn:Hsu; [|done].
  destruct (decide (dep lk = p)) as [?|Hnp]; [by apply Hdp|].
  destruct (decide (dep lk = h)) as [E|Hnh].
  - exfalso. apply Hnpr. pose proof (s_link _ _ Hs _ _ Hl) as H1. rewrite Hsu in H1.
    destruct H1 as [(y0 & Hy0 & Hins)|[Hins _]]; [|rewrite Hlo in Hins; by apply not_elem_of_nil in Hins].
    assert (y0 = x) as -> by congruence.
    destruct (link_owner _ _ _ _ _ _ Hs Hl Hsu) as (_ & xs & xb0 & Hxs & Hb0 & Hi0 & _ & _ & _ & [_ Hbok] & _).
    apply (Hpr _ _ _ _ Hins Hl Hsu Hxs). assert (xb0 = xc0) as -> by congruence.
    rewrite Ek, Hck in Hbok. destruct Hbok as (k & Ek' & ->). rewrite Ek' in Hi0.
    destruct i; simplify_eq/=. by rewrite Hsu.
  - rewrite Eh, !lookup_insert_ne in Hy by done.
    assert (Hi0 : links xc0 !! i = Some lk) by (unfold link_at in Hl; cbn in Hl; by rewrite Hc0 in Hl).
    eapply (s_proxy _ _ Hs c xc0 lk); [done|congruence|by eapply list_elem_of_lookup_2|by rewrite Hsu|done].
Qed.

Lemma shape_proxying : shape m' st'.
Proof.
  pose proof Hx' as (Hx1 & Hx2 & Hx3 & Hx4). pose proof Hxp' as (Hp1 & Hp2 & Hp3 & Hp4 & _ & Hp5).
  assert (Hbare : forall q, q <> h -> in_hand m' q <-> in_hand m q).
  { intros q Hne. unfold in_hand; cbn. rewrite Hba.
    split; (intros [?|[?|?]]; [by left|by right; left|congruence]). }
  split; rewrite ?En, ?Enb, ?Eq; cbn [run build bare spare done vals pend source loose set_bare set_spare].
  - destruct (s_always _ _ Hs) as (y & Hy & Hky & ?). exists y. split_and!; try done.
    pose proof (s_header _ _ Hs _ _ Hy) as Hok. unfold header_ok in Hok. rewrite Hky in Hok.
    destruct Hok as (? & ? & ? & ?). rewrite Eh, !lookup_insert_ne; [done|congruence..].
  - apply proxying_header_ok.
  - intros c xc Hc. right. destruct (decide (c = b)) as [->|Hcb]; [exists h; apply proxying_owns; by left|].
    destruct (proxying_body_back _ _ Hcb Hc) as (xc0 & Hc0 & _).
    destruct (s_body _ _ Hs c xc0 Hc0) as [[? _]|(q & ?)]; [congruence|]. exists q. apply proxying_owns. by right.
  - intros h1 h2 c. rewrite !proxying_owns. intros [[-> ->]|H1] [[-> E]|H2]; try done.
    + by destruct (spare_not_owned Hs Hsp h2).
    + rewrite E in H1. by destruct (spare_not_owned Hs Hsp h1).
    + by eapply (s_owner _ _ Hs).
  - intros l lk Hl. destruct (suc lk) eqn:Hsu; [left; apply (proxying_link_sucs l lk Hl); by rewrite Hsu|].
    rewrite Hla in Hl. destruct (decide (l = (b, O))); [by simplify_eq/=|].
    destruct (decide (l ∈ pr)) as [Hin|].
    + apply fmap_Some in Hl as (lk0 & Hl0 & ->). cbn in *.
      destruct (s_sucs _ _ Hs _ _ l Hx) as (lk' & Hlk' & _ & Hd'); [apply Hsucs; by left|]. congruence.
    + pose proof (s_link _ _ Hs _ _ Hl) as H1. rewrite Hsu in H1. by apply proxying_is_result.
  - intros q y l Hy Hin. rewrite Hla. destruct (proxying_sucs _ _ _ Hy Hin) as [(y0 & Hy0 & Hin0 & Hnp)|[-> Hp]].
    + destruct (s_sucs _ _ Hs _ _ _ Hy0 Hin0) as (lk & Hlk & ? & ?).
      rewrite decide_False by (intros ->; by rewrite proxying_spare_link in Hlk). rewrite decide_False by done. eauto.
    + case_decide; [by eexists|]. destruct Hp as [?|Hp]; [done|]. rewrite decide_True by done.
      destruct (s_sucs _ _ Hs _ _ l Hx) as (lk' & -> & _ & Hd'); [apply Hsucs; by left|]. by eexists.
  - intros q y. rewrite Eh.
    intros [[<- <-]|[? [[<- <-]|[? Hy]]%lookup_insert_Some]]%lookup_insert_Some; [| |by eapply (s_nodup _ _ Hs)].
    + rewrite Hx4. by apply NoDup_app in Hnd as (_ & _ & ?).
    + rewrite Hp5. apply NoDup_cons. split.
      * intros [Hin%elem_of_rev_1|Hin]%elem_of_app.
        -- destruct (s_sucs _ _ Hs _ _ (b, O) Hx) as (lk' & Hlk & _); [apply Hsucs; by left|].
           by rewrite proxying_spare_link in Hlk.
        -- destruct (s_sucs _ _ Hs _ _ _ Hxp Hin) as (lk' & Hlk & _). by rewrite proxying_spare_link in Hlk.
      * apply NoDup_app. split_and!; [|intros l Hin%elem_of_rev_1 Hin'|by eapply (s_nodup _ _ Hs)].
        -- apply NoDup_ListNoDup, NoDup_rev, NoDup_ListNoDup. by apply NoDup_app in Hnd as (? & _).
        -- destruct (s_sucs _ _ Hs _ _ _ Hxp Hin') as (lk & Hlk & Hd & _).
           destruct (s_sucs _ _ Hs _ _ l Hx) as (lk' & Hlk' & Hd' & _); [apply Hsucs; by left|]. congruence.
  - rewrite Hlo. split; [constructor|]. by intros l ?%not_elem_of_nil.
  - apply proxying_proxy.
  - destruct (s_queue _ _ Hs) as [? Hq]. split; [done|]. intros q Hin. destruct (Hq q Hin) as (Hh & y & Hy & Hky & Hay).
    assert (q <> h) as Hqh by (intros ->; apply Hh; by right; right). rewrite Hbare by done. split; [done|].
    destruct (proxying_forth _ _ Hy) as (y' & Hy'). destruct (proxying_back _ _ Hy') as (y0 & Hy0 & Hk0 & _ & Hne & _).
    destruct (Hne Hqh) as (_ & Es & _). exists y'. unfold active_status in *. split_and!; [done|congruence|].
    rewrite Es. assert (y0 = y) as -> by congruence. done.
  - intros q y Hy Hky Hay. destruct (proxying_back _ _ Hy) as (y0 & Hy0 & Hk0 & _ & Hne & _).
    destruct (decide (q = h)) as [->|Hqh].
    + assert (y = x') as -> by (rewrite Eh, lookup_insert_eq in Hy; congruence).
      unfold active_status in Hay. rewrite Hx1 in Hay. by destruct Hay.
    + destruct (Hne Hqh) as (_ & Es & _). rewrite Hbare by done. unfold active_status in Hay. rewrite Es in Hay.
      apply (s_active _ _ Hs _ _ Hy0); [congruence|done].
  - intros q Hrun. destruct (s_run _ _ Hs _ Hrun) as (? & Hqb & y & c & xc & Hy & ? & Hst & Hly & Hc & ?).
    split_and!; [done..|]. rewrite Hba in Hqb. assert (q <> h) as Hqh by congruence.
    destruct (proxying_forth _ _ Hy) as (y' & Hy'). destruct (proxying_back _ _ Hy') as (y0 & Hy0 & Hk0 & _ & Hne & _).
    destruct (Hne Hqh) as (El & Es & _). assert (y0 = y) as -> by congruence.
    assert (c <> b) as Hcb.
    { intros ->. apply (spare_not_owned Hs Hsp q). exists y. rewrite Hst, Hba. done. }
    destruct (proxying_body_forth _ _ Hcb Hc) as (xc' & ? & Ek & _).
    exists y', c, xc'. split_and!; congruence.
  - intros d Hd. destruct (s_done _ _ Hs _ Hd) as [? Hdn]. split; [done|].
    intros y c xc Hy ? ? Hly Hc ?. destruct (proxying_back _ _ Hy) as (y0 & Hy0 & Hk0 & Hr0 & Hne & _).
    destruct (decide (c = b)) as [->|Hcb]; [by simplify_eq/=|].
    assert (d <> h) as Hdh.
    { intros ->. rewrite Eh, lookup_insert_eq in Hy. congruence. }
    destruct (Hne Hdh) as (El & Es & _).
    destruct (proxying_body_back _ _ Hcb Hc) as (xc0 & ? & Ek & _).
    rewrite Hbare by done. eapply (Hdn y0 c xc0); congruence.
  - intros d v Hd. destruct (s_vals _ _ Hs _ _ Hd) as [? Hv]. split; [done|].
    intros y Hy. destruct (proxying_back _ _ Hy) as (y0 & Hy0 & Hk0 & Hr0 & Hne & _).
    destruct (Hv _ Hy0) as (r & xr & Hrd & Hlr & Hxr & Hvr).
    assert (d <> h) as Hdh by congruence. destruct (Hne Hdh) as (El & Es & _).
    destruct (proxying_forth _ _ Hxr) as (xr' & Hxr').
    destruct (proxying_back _ _ Hxr') as (xr0 & Hxr0 & _ & _ & Hner & _).
    exists r, xr'. split_and!; try congruence.
    destruct (decide (r = h)) as [->|Hrh]; [|destruct (Hner Hrh) as (_ & _ & Ev & _); congruence].
    exfalso. pose proof (s_header _ _ Hs _ _ Hy0) as Hok. unfold header_ok in Hok.
    destruct (kind y0).
    + destruct Hok as (_ & ? & _). congruence.
    + destruct Hok as (? & _). congruence.
    + rewrite decide_True in Hok by done. destruct Hok as (_ & r' & ? & Hres).
      assert (r' = h) as -> by congruence. by apply proxying_is_result in Hres as [? _].
  - destruct (s_fresh _ _ Hs) as [H1 H2]. split; intros q Hge.
    + destruct (hs st' !! q) eqn:Hq; [|done]. apply proxying_back in Hq as (y0 & Hq & _). by rewrite H1 in Hq.
    + assert (q <> b) as Hqb by (intros ->; by rewrite H2 in Hxb). pose proof (Hbo q Hqb) as Hsb.
      rewrite H2 in Hsb by done. by inversion Hsb.
  - done.
  - intros q y Hy ? ?. destruct (proxying_back _ _ Hy) as (y0 & Hy0 & ? & ? & _).
    apply (s_pend _ _ Hs q y0); intuition congruence.
Qed.
End proxying.

End Updates.
