(* ===== verification/FutureSafety.v ===== *)
(** The operations that users call on futures and promises keep the invariant of
    the heap: none of them touches a freed header or body, and no assertion fails. *)
From S2P Require Import Prelude FutureCore FutureInvariant FutureUpdates.

Module Operations.
Import Futures Invariant Updates.

(** * Dropping references *)

(** What dropping references does: counts change, headers go, but no pending one. *)
Record shrinks (st st' : heap) : Prop := {
  k_back : forall q x', hs st' !! q = Some x' -> exists x, hs st !! q = Some x /\ upto_ref x x';
  k_keep : forall q x, hs st !! q = Some x -> kind x = KDependent -> status x <> status_ready ->
    exists x', hs st' !! q = Some x' /\ upto_ref x x';
  k_bodies : bs st' = bs st;
  k_active : active st' = active st;
  k_next : next_h st' = next_h st /\ next_b st' = next_b st
}.

#[export] Instance upto_ref_equivalence : Equivalence upto_ref.
Proof. split; unfold upto_ref; [done|intros x y ?|intros x y z ? ?]; intuition congruence. Qed.

#[export] Instance shrinks_preorder : PreOrder shrinks.
Proof.
  split.
  - intros st. split; [eauto|eauto|done..]. all: intros q x ?; exists x; done.
  - intros s1 s2 s3 [B1 K1 E1 A1 N1] [B2 K2 E2 A2 N2]. split; [| |congruence..|].
    + intros q x3 H3. destruct (B2 _ _ H3) as (x2 & H2 & ?). destruct (B1 _ _ H2) as (x1 & ? & ?).
      exists x1. split; [done|]. by etrans.
    + intros q x1 H1 Hk Hs. destruct (K1 _ _ H1 Hk Hs) as (x2 & H2 & U).
      pose proof U as (Es & _ & _ & Ek & _). destruct (K2 _ _ H2) as (x3 & ? & ?); [congruence..|].
      exists x3. split; [done|]. by etrans.
    + destruct N1, N2. split; congruence.
Qed.

Lemma shrinks_set_ref h x n st : hs st !! h = Some x -> shrinks st (put h (set_ref n x) st).
Proof.
  intros Hx. split; [| |done..].
  - intros q y [[-> ->]|[? ?]]%put_lookup; [exists x; split; [done|apply upto_set_ref]|by exists y].
  - intros q y Hy _ _. destruct (decide (q = h)) as [->|].
    + assert (y = x) as -> by congruence. exists (set_ref n x). cbn. rewrite lookup_insert_eq.
      split; [done|apply upto_set_ref].
    + exists y. cbn. rewrite lookup_insert_ne by done. done.
Qed.

Lemma shrinks_free h x st st' : hs st !! h = Some x -> (kind x = KDependent -> status x = status_ready) ->
  free h st = Ok st' -> shrinks st st'.
Proof.
  intros Hx Hr. unfold free, get. rewrite Hx. mcbn. intros [= <-]. split; cbn; [| |done..].
  - intros q y [? ?]%lookup_delete_Some. by exists y.
  - intros q y Hy Hk Hs. exists y. rewrite lookup_delete_ne; [done|]. intros <-. naive_solver.
Qed.

Lemma is_result_shrinks st st' r : is_result st r -> shrinks st st' -> is_Some (hs st' !! r) -> is_result st' r.
Proof.
  intros (x & Hx & ? & ? & ? & ?) Hs [x' Hx']. destruct (k_back _ _ Hs _ _ Hx') as (x0 & Hx0 & ? & ? & ? & ? & ? & ?).
  assert (x0 = x) as -> by congruence. exists x'. split_and!; congruence.
Qed.

Lemma pending_zero x : (kind x = KDependent -> status x = status_ready) -> pending x = 0.
Proof. intros H. apply ind_no. intros [? ?]. auto. Qed.

Lemma pending_one x : kind x = KDependent -> status x <> status_ready -> pending x = 1.
Proof. intros. by apply ind_yes. Qed.

Lemma shares_zero r x : kind x <> KDependent \/ status x <> status_ready -> shares r x = 0.
Proof. intros [?|?]; apply ind_no; intros (? & ? & ?); done. Qed.

Section drops.
Context {m : mode}.
Implicit Types (own : hid -> Z) (st : heap).

Lemma incref_ok own st h x : inv m own st -> hs st !! h = Some x -> 0 <= ref_n x \/ h = always ->
  exists st', incref h 1 st = Ok st' /\ inv m (bump own h 1) st' /\ shrinks st st' /\
    (exists x', hs st' !! h = Some x') /\ (forall q, q <> h -> hs st' !! q = hs st !! q).
Proof.
  intros Hi Hx Hn. unfold incref, get. rewrite Hx. mcbn. case_match eqn:Hz.
  - apply Z.leb_le in Hz. assert (h <> always) as Ha.
    { intros ->. destruct (inv_always Hi) as (y & Hy & ? & _). assert (x = y) as -> by congruence. lia. }
    eexists. split; [done|]. split; [|split; [by apply shrinks_set_ref|]].
    + eapply inv_ext; [|apply (inv_set_ref _ _ _ _ _ (ref_n x + 1) Hi Hx Ha)]; [|lia].
      intros r _. unfold bump. case_decide; lia.
    + split; cbn; [rewrite lookup_insert_eq; eauto|]. intros. by rewrite lookup_insert_ne.
  - apply Z.leb_gt in Hz. exists st. split; [done|]. split; [|split; [done|eauto]].
    destruct Hn as [?| ->]; [lia|]. eapply inv_ext; [|done]. intros r ?. by rewrite bump_ne.
Qed.

(** A header other than [always] has a nonnegative count. *)
Lemma ref_nonneg own st h x : inv m own st -> 0 <= own h -> hs st !! h = Some x ->
  0 <= ref_n x \/ h = always.
Proof.
  intros Hi Ho Hx. destruct (decide (h = always)); [by right|left].
  pose proof (inv_ref_nonneg Hi _ _ Hx n Ho). pose proof (pending_range x). lia.
Qed.

(** The header is not in the hands of an operation that still needs it. *)
Lemma inv_free own st h x : inv m own st -> hs st !! h = Some x -> h <> always ->
  (kind x = KDependent -> status x = status_ready) -> ref_n x = 1 -> 1 <= own h ->
  exists st', free h st = Ok st' /\ hs st' = delete h (hs st) /\ shrinks st st' /\
    inv m (fun r => bump own h (-1) r + shares r x) st'.
Proof.
  intros Hi Hx Ha Hr H1 Ho. unfold free, get. rewrite Hx. mcbn. eexists. split; [done|]. split; [done|].
  pose proof (pending_zero x Hr) as Hp.
  destruct (inv_no_ref Hi _ _ Hx Ha) as [Hl Hs]; [lia|]. split.
  - eapply shrinks_free; [done..|]. unfold free, get. by rewrite Hx.
  - destruct Hi as [Hc Hsh]. split.
    + eapply counts_ext; [|eapply (counts_free m m _ _ _ _ _ Hc Hx Ha); [done..|by left]].
      intros r _. cbn. unfold bump. case_decide; lia.
    + eapply (shape_free Hsh Hx); try done; [|by left]. intros. left. auto.
Qed.

(** [future_header_ops_result_ready::dropref] *)
Lemma dropref_result_ok own st r : inv m own st -> is_result st r -> 1 <= own r ->
  exists st', dropref_result r st = Ok st' /\ inv m (bump own r (-1)) st' /\ shrinks st st' /\
    (forall q, q <> r -> hs st' !! q = hs st !! q).
Proof.
  intros Hi (x & Hx & Hk & Hr & Hl & Hv) Ho. unfold dropref_result, decref, get. rewrite Hx. mcbn.
  destruct (decide (r = always)) as [->|Ha].
  { destruct (inv_always Hi) as (y & Hy & Hn & _). assert (x = y) as -> by congruence. rewrite Hn. cbn.
    exists st. split_and!; try done. eapply inv_ext; [|done]. intros q ?. by rewrite bump_ne. }
  pose proof (inv_ref_nonneg Hi _ _ Hx Ha) as Hge. rewrite pending_zero in Hge by done.
  rewrite (proj2 (Z.leb_le _ _)) by lia. cbn [fst]. destruct (ref_n x - 1 =? 0) eqn:Hz.
  - apply Z.eqb_eq in Hz.
    destruct (inv_free _ _ _ _ Hi Hx Ha) as (st' & Hf & Eh & Hsh & Hi'); [done|lia|lia|].
    unfold free, get in *. rewrite Hx in Hf. injection Hf as <-. cbn. rewrite lookup_insert_eq. mcbn.
    eexists. split; [done|]. cbn. rewrite delete_insert_eq.
    split_and!.
    + eapply inv_ext; [|done].
      intros q _. cbn. rewrite shares_zero by by left. lia.
    + done.
    + intros q ?. cbn. by rewrite lookup_delete_ne.
  - apply Z.eqb_neq in Hz. eexists. split; [done|]. split_and!.
    + eapply inv_ext; [|apply (inv_set_ref _ _ _ _ _ (ref_n x - 1) Hi Hx Ha)]; [|lia].
      intros q _. unfold bump. case_decide; lia.
    + by apply shrinks_set_ref.
    + intros q ?. cbn. by rewrite lookup_insert_ne.
Qed.

Lemma dropref_result_free r h st st1 st2 : r <> h -> free h st = Ok st1 -> dropref_result r st1 = Ok st2 ->
  exists st', dropref_result r st = Ok st' /\ free h st' = Ok st2.
Proof.
  intros Hne. unfold free, dropref_result, decref, get. destruct (hs st !! h) as [x|] eqn:Hh; [|done]. mcbn.
  intros [= <-]. cbn. rewrite lookup_delete_ne by done. destruct (hs st !! r) as [y|] eqn:Hr; [|done]. mcbn.
  destruct (0 <=? ref_n y); cbn [fst]; (destruct (_ =? 0); [unfold free, get; cbn; map_lookups; rewrite ?Hr|]; mcbn);
    intros [= <-]; eexists; (split; [done|]); cbn; map_lookups; rewrite Hh; mcbn; unfold put; cbn; do 2 f_equal.
  - rewrite !delete_insert_eq. apply delete_delete.
  - by rewrite delete_insert_ne.
  - apply delete_delete.
Qed.

(** [future_header_ops_general::dropref] *)
Lemma dropref_ok own st h : inv m own st -> (forall q, 0 <= own q) -> 1 <= own h ->
  exists st', dropref h st = Ok st' /\ inv m (bump own h (-1)) st' /\ shrinks st st'.
Proof.
  intros Hi Hown Ho. destruct (inv_live Hi h) as (x & Hx); [lia|].
  unfold dropref, decref, get. rewrite Hx. mcbn.
  destruct (decide (h = always)) as [->|Ha].
  { destruct (inv_always Hi) as (y & Hy & Hn & _). assert (x = y) as -> by congruence. rewrite Hn. cbn.
    exists st. split_and!; try done. eapply inv_ext; [|done]. intros q ?. by rewrite bump_ne. }
  pose proof (inv_ref_nonneg Hi _ _ Hx Ha (Hown h)) as Hge. pose proof (pending_range x) as Hpr.
  rewrite (proj2 (Z.leb_le _ _)) by lia. cbn [fst]. destruct (ref_n x - 1 =? 0) eqn:Hz.
  - apply Z.eqb_eq in Hz. assert (Hnd : kind x = KDependent -> status x = status_ready).
    { intros Hk. destruct (decide (status x = status_ready)) as [|Hnr]; [done|].
      rewrite (pending_one x Hk Hnr) in Hge. lia. }
    destruct (inv_free _ _ _ _ Hi Hx Ha Hnd) as (st1 & Hf & Eh & Hsh & Hi'); [lia|done|].
    set (st0 := put h (set_ref (ref_n x - 1) x) st).
    assert (Hf0 : free h st0 = Ok st1).
    { unfold free, get, st0 in *. cbn. rewrite lookup_insert_eq. rewrite Hx in Hf. mcbn. injection Hf as <-.
      cbn. by rewrite delete_insert_eq. }
    assert (Hg : get h st0 = Ok (set_ref (ref_n x - 1) x)) by (unfold get, st0; cbn; by rewrite lookup_insert_eq).
    unfold delete1. rewrite Hg. mcbn. cbn [status load set_ref]. clearbody st0.
    destruct (status x =? status_ready) eqn:Hrd.
    + apply Z.eqb_eq in Hrd. destruct (inv_ready Hi _ _ Hx Hrd) as (_ & r & Hl & Hres & Hkr).
      unfold result_of. cbn [load set_ref]. rewrite Hl. mcbn. destruct Hkr as [[Hk Hne]|[Hk ->]].
      * rewrite (proj2 (Nat.eqb_neq _ _)) by done.
        assert (Hsh1 : shares r x = 1) by by apply ind_yes.
        destruct (dropref_result_ok _ st1 r Hi') as (st2 & Hd & Hi2 & Hsh2 & _).
        { destruct Hres as (y & Hy & ?). exists y. rewrite Eh, lookup_delete_ne by done. done. }
        { cbn. rewrite bump_ne, Hsh1 by done. pose proof (Hown r). lia. }
        destruct (dropref_result_free _ _ _ _ _ Hne Hf0 Hd) as (st' & -> & Hf2). mcbn. rewrite Hf2.
        exists st2. split_and!; [done| |by etrans].
        eapply inv_ext; [|exact Hi2]. intros q _. unfold bump. cbn. unfold bump, shares.
        destruct (decide (q = r)) as [->|Hqr].
        -- rewrite ind_yes by done. lia.
        -- rewrite ind_no by (intros (_ & _ & E); congruence). lia.
      * rewrite Nat.eqb_refl, Hf0. exists st1. split_and!; [done| |done].
        eapply inv_ext; [|exact Hi']. intros q _. cbn. rewrite shares_zero by by left. lia.
    + apply Z.eqb_neq in Hrd. assert (Hk : kind x <> KDependent) by auto.
      pose proof (s_header _ _ (proj2 Hi) _ _ Hx) as Hok. unfold header_ok in Hok.
      assert (Hl : load x = Result h) by (destruct (kind x); [by destruct Hok as (_ & ? & _)|by destruct Hok as [? _]|done]).
      rewrite Hl, Nat.eqb_refl. mcbn. rewrite Hf0. exists st1. split_and!; [done| |done].
      eapply inv_ext; [|exact Hi']. intros q _. cbn. rewrite shares_zero by by left. lia.
  - apply Z.eqb_neq in Hz. eexists. split; [done|]. split; [|by apply shrinks_set_ref].
    eapply inv_ext; [|apply (inv_set_ref _ _ _ _ _ (ref_n x - 1) Hi Hx Ha)]; [|lia].
    intros q _. unfold bump. case_decide; lia.
Qed.

(** The reference is moved from a ready header to its result. *)
Lemma drop_for_result_ok own st a xa : inv m own st -> (forall q, load xa = Result q -> 0 <= own q) -> 1 <= own a ->
  hs st !! a = Some xa -> status xa = status_ready ->
  exists b st', drop_for_result a st = Ok (b, st') /\ load xa = Result b /\
    inv m (bump (bump own a (-1)) b 1) st' /\ is_result st' b /\ shrinks st st' /\
    (forall q, q <> a -> q <> b -> hs st' !! q = hs st !! q).
Proof.
  intros Hi Hown Ho Hxa Hr. destruct (inv_ready Hi _ _ Hxa Hr) as (_ & b & Hl & Hres & Hkb).
  pose proof Hres as (xb & Hxb & Hkxb & _). unfold drop_for_result, get, result_of. rewrite Hxa. mcbn.
  rewrite Hl. mcbn. rewrite Hxb. mcbn.
  assert (Hra : a <> always -> 1 <= ref_n xa).
  { intros Ha. pose proof (inv_ref_nonneg Hi _ _ Hxa Ha). pose proof (pending_range xa). lia. }
  destruct Hkb as [[Hk Hne]|[Hk ->]].
  - rewrite (proj2 (Nat.eqb_neq a b)) by done. rewrite !orb_false_r.
    assert (Ha : a <> always).
    { intros ->. destruct (inv_always Hi) as (y & Hy & _ & (z & Hz & Hkz & _) & _). congruence. }
    specialize (Hra Ha). rewrite (proj2 (Z.ltb_ge (ref_n xa) 0)) by lia. cbn [Z.eqb Pos.eqb].
    assert (Hb0 : 0 <= ref_n xb \/ b = always) by exact (ref_nonneg _ _ _ _ Hi (Hown b Hl) Hxb).
    destruct (ref_n xa - 1 =? 0) eqn:Hz.
    + apply Z.eqb_eq in Hz. replace (ref_n xb + _ - _) with (ref_n xb) by lia.
      assert (Hid : put b (set_ref (ref_n xb) xb) (put a (set_ref (ref_n xa - 1) xa) st) =
                    put a (set_ref (ref_n xa - 1) xa) st).
      { unfold put. cbn. f_equal. apply insert_id. rewrite lookup_insert_ne by done. rewrite Hxb. by destruct xb. }
      destruct (inv_free _ _ _ _ Hi Hxa Ha) as (st1 & Hf & Eh & Hsh & Hi'); [done|lia|done|].
      assert (Hf0 : free a (put a (set_ref (ref_n xa - 1) xa) st) = Ok st1).
      { unfold free, get in *. cbn. rewrite lookup_insert_eq. rewrite Hxa in Hf. mcbn. injection Hf as <-.
        cbn. by rewrite delete_insert_eq. }
      assert (Hif : (if (if ref_n xb <? 0 then 0 else 1) =? 1
                     then put b (set_ref (ref_n xb) xb) (put a (set_ref (ref_n xa - 1) xa) st)
                     else put a (set_ref (ref_n xa - 1) xa) st) =
                     put a (set_ref (ref_n xa - 1) xa) st) by by rewrite Hid; case_match.
      rewrite Hif, Hf0. mcbn. exists b, st1. split_and!; try done.
      * eapply inv_ext; [|exact Hi']. intros q _. unfold bump, shares. cbn. destruct (decide (q = b)) as [->|].
        -- rewrite ind_yes by done. lia.
        -- rewrite ind_no by (intros (_ & _ & ?); congruence). lia.
      * destruct Hres as (y & Hy & ?). exists y. rewrite Eh, lookup_delete_ne by done. done.
      * intros q ? ?. by rewrite Eh, lookup_delete_ne.
    + apply Z.eqb_neq in Hz. mcbn.
      pose proof (inv_set_ref _ _ _ _ _ (ref_n xa - 1) Hi Hxa Ha) as Hi1. specialize (Hi1 ltac:(lia)).
      set (st1 := put a (set_ref (ref_n xa - 1) xa) st) in *.
      assert (Hxb1 : hs st1 !! b = Some xb) by (cbn; by rewrite lookup_insert_ne).
      assert (Hres1 : is_result st1 b) by (exists xb; destruct Hres as (y & Hy & ?); by simplify_eq).
      destruct (ref_n xb <? 0) eqn:Hneg.
      * apply Z.ltb_lt in Hneg. destruct Hb0 as [?| ->]; [lia|]. exists always, st1. split_and!; try done.
        -- eapply inv_ext; [|exact Hi1]. intros q Hq. unfold bump. rewrite (decide_False (P := q = always)) by done.
           case_decide; lia.
        -- by apply shrinks_set_ref.
        -- intros q ? ?. cbn. by rewrite lookup_insert_ne.
      * apply Z.ltb_ge in Hneg. exists b, (put b (set_ref (ref_n xb + 1) xb) st1). split_and!; try done.
        -- assert (b <> always) as Hba.
           { intros ->. destruct (inv_always Hi) as (y & Hy & ? & _). assert (y = xb) as -> by congruence. lia. }
           eapply inv_ext; [|apply (inv_set_ref _ _ _ _ _ (ref_n xb + 1) Hi1 Hxb1 Hba); lia].
           intros q _. unfold bump. repeat case_decide; lia.
        -- exists (set_ref (ref_n xb + 1) xb). cbn. rewrite lookup_insert_eq.
           destruct Hres as (y & Hy & ?). assert (y = xb) as -> by congruence. done.
        -- trans st1; [by apply (shrinks_set_ref a)|by apply (shrinks_set_ref b)].
        -- intros q ? ?. cbn. rewrite !lookup_insert_ne by done. done.
  - rewrite Nat.eqb_refl, !orb_true_r. cbn. assert (xb = xa) as -> by congruence.
    destruct (ref_n xa - 0 =? 0) eqn:Hz.
    + apply Z.eqb_eq in Hz. destruct (decide (a = always)) as [->|Ha]; [|specialize (Hra Ha); lia].
      destruct (inv_always Hi) as (y & Hy & ? & _). assert (y = xa) as -> by congruence. lia.
    + mcbn. exists a, st. split_and!; try done. eapply inv_ext; [|done]. intros q _. unfold bump. case_decide; lia.
Qed.

(** A proxying header has a body with one link, whose dependency does not proxy. *)
Lemma proxying_header own st a xa : inv m own st -> bare m <> Some a -> loose m = [] -> hs st !! a = Some xa ->
  status xa = status_proxying \/ status xa = status_proxying_active ->
  kind xa = KDependent /\ exists b lk xb, load xa = Body b /\ get_link (b, O) st = Ok lk /\
    link_at st (b, O) = Some lk /\ hs st !! dep lk = Some xb /\ dep lk <> a /\
    status xb <> status_proxying /\ status xb <> status_proxying_active.
Proof.
  intros Hi Hba Hlo Hxa Hst. pose proof (s_header _ _ (proj2 Hi) _ _ Hxa) as Hok. unfold header_ok in Hok.
  assert (Hnr : status xa <> status_ready) by (intros E; rewrite E in Hst; by destruct Hst).
  destruct (kind xa) eqn:Hk; [by destruct Hok| |].
  { rewrite decide_False in Hok by done. destruct Hok as (_ & _ & [[E _]|[E _]]); rewrite E in Hst; by destruct Hst. }
  rewrite decide_False in Hok by done. destruct Hok as [?|(b & xb & Hl & Hb & [HF Hbok] & Hsp)]; [done|].
  split; [done|]. destruct (bkind xb) eqn:Hbk.
  1-2: pose proof (number_linked_nonneg (links xb)); unfold status_proxying, status_proxying_active in *; lia.
  destruct Hbok as (lk & El & Es). exists b, lk.
  assert (Hla : link_at st (b, O) = Some lk) by (unfold link_at; cbn; rewrite Hb; cbn; by rewrite El).
  assert (Hg : get_link (b, O) st = Ok lk) by (unfold get_link, get_body; cbn; rewrite Hb; mcbn; by rewrite El).
  pose proof (s_link _ _ (proj2 Hi) _ _ Hla) as H1.
  destruct (suc lk) as [s|] eqn:Hsu.
  - destruct H1 as [(y & Hy & _)|[Hin _]]; [|rewrite Hlo in Hin; by apply not_elem_of_nil in Hin].
    destruct (s_proxy _ _ (proj2 Hi) b xb lk y Hb Hbk) as [? ?]; [rewrite El; left|by rewrite Hsu|done|].
    exists y. split_and!; try done. intros E. congruence.
  - destruct H1 as (y & Hy & Hky & Hry & _). exists y. split_and!; try done.
    + intros E. congruence.
    + by rewrite Hry.
    + by rewrite Hry.
Qed.

Lemma drop_for_proxied_ok own st a xa : inv m own st -> (forall q, 0 <= own q) -> 1 <= own a ->
  bare m = None -> loose m = [] -> hs st !! a = Some xa ->
  status xa = status_proxying \/ status xa = status_proxying_active ->
  exists b st', drop_for_proxied a st = Ok (b, st') /\ inv m (bump (bump own a (-1)) b 1) st' /\ shrinks st st' /\
    (exists l lk, link_at st l = Some lk /\ dep lk = b) /\
    exists xb', hs st' !! b = Some xb' /\ status xb' <> status_proxying /\ status xb' <> status_proxying_active.
Proof.
  intros Hi Hown Ho Hba Hlo Hxa Hst.
  destruct (proxying_header _ _ _ _ Hi ltac:(by rewrite Hba) Hlo Hxa Hst) as (Hk & b & lk & xb & Hl & Hg & Hla & Hxb & Hne & Hp1 & Hp2).
  unfold drop_for_proxied, get, body_of. rewrite Hxa. mcbn. rewrite Hl. mcbn. rewrite Hg. mcbn. rewrite Hxb. mcbn.
  assert (Ha : a <> always).
  { intros ->. destruct (inv_always Hi) as (y & Hy & _ & (z & Hz & ? & _) & _). congruence. }
  assert (Hnr : status xa <> status_ready) by (intros E; rewrite E in Hst; by destruct Hst).
  pose proof (inv_ref_nonneg Hi _ _ Hxa Ha (Hown a)) as Hge. rewrite (pending_one _ Hk Hnr) in Hge.
  rewrite (proj2 (Z.eqb_neq (ref_n xa - 1) 0)) by lia. mcbn.
  pose proof (inv_set_ref _ _ _ _ _ (ref_n xa - 1) Hi Hxa Ha ltac:(lia)) as Hi1.
  set (st1 := put a (set_ref (ref_n xa - 1) xa) st) in *.
  assert (Hxb1 : hs st1 !! dep lk = Some xb) by (cbn; by rewrite lookup_insert_ne).
  assert (Hb0 : 0 <= ref_n xb \/ dep lk = always) by exact (ref_nonneg _ _ _ _ Hi (Hown (dep lk)) Hxb).
  destruct (ref_n xb <? 0) eqn:Hneg; cbn [Z.eqb Pos.eqb].
  - apply Z.ltb_lt in Hneg. destruct Hb0 as [?|Hal]; [lia|]. exists (dep lk), st1. split_and!; try done.
    + eapply inv_ext; [|exact Hi1]. intros q Hq. unfold bump. rewrite Hal, (decide_False (P := q = always)) by done.
      case_decide; lia.
    + by apply shrinks_set_ref.
    + by exists (b, O), lk.
    + by exists xb.
  - apply Z.ltb_ge in Hneg. exists (dep lk), (put (dep lk) (set_ref (ref_n xb + 1) xb) st1). split_and!; try done.
    + assert (dep lk <> always) as Hal.
      { intros E. destruct (inv_always Hi) as (y & Hy & ? & _). rewrite E in Hxb.
        assert (y = xb) as -> by congruence. lia. }
      eapply inv_ext; [|apply (inv_set_ref _ _ _ _ _ (ref_n xb + 1) Hi1 Hxb1 Hal); lia].
      intros q _. unfold bump. repeat case_decide; lia.
    + trans st1; [by apply (shrinks_set_ref a)|by apply (shrinks_set_ref (dep lk))].
    + by exists (b, O), lk.
    + eexists. cbn. rewrite lookup_insert_eq. done.
Qed.

(** The destructors of dependencies that are all ready. *)
Lemma drop_dependencies_ok own st l : inv m own st ->
  (forall lk, lk ∈ l -> is_result st (dep lk) /\ links_in (dep lk) l <= own (dep lk)) ->
  exists st', drop_dependencies l st = Ok st' /\ inv m (fun q => own q - links_in q l) st' /\ shrinks st st' /\
    (forall q, ~ is_result st q -> hs st' !! q = hs st !! q).
Proof.
  revert own st. induction l as [|lk l IH]; intros own st Hi Hres; cbn [drop_dependencies].
  { exists st. split_and!; [done| |done|done]. eapply inv_ext; [|done]. intros q _. unfold links_in. cbn. lia. }
  assert (Hin : forall q, links_in q (lk :: l) = ind (dep lk = q) + links_in q l) by done.
  destruct (Hres lk) as [Hrlk Hle]; [left|]. rewrite Hin, ind_yes in Hle by done.
  destruct (dropref_result_ok own st (dep lk) Hi Hrlk) as (st1 & -> & Hi1 & Hs1 & Ho1).
  { pose proof (links_in_nonneg (dep lk) l). lia. }
  mcbn. assert (Hb : forall q, bump own (dep lk) (-1) q - links_in q l = own q - links_in q (lk :: l)).
  { intros q. rewrite Hin. unfold bump, ind. repeat case_decide; subst; try done; lia. }
  assert (Hres1 : forall lk', lk' ∈ l -> is_result st1 (dep lk') /\
    links_in (dep lk') l <= bump own (dep lk) (-1) (dep lk')).
  { intros lk' Hlk'. destruct (Hres lk') as [Hr' Hle']; [by right|]. pose proof (Hb (dep lk')) as Hb'. split; [|lia].
    apply (is_result_shrinks st); [done..|]. apply (inv_live Hi1).
    apply list_elem_of_lookup in Hlk' as [i Hi'].
    pose proof (lsum_lookup_le (fun k => ind (dep k = dep lk')) l i lk' (fun _ => ind_nonneg _) Hi') as H1.
    cbn in H1. rewrite ind_yes in H1 by done. unfold links_in in Hle', Hb'. lia. }
  destruct (IH _ _ Hi1 Hres1) as (st2 & -> & Hi2 & Hs2 & Ho2).
  exists st2. split_and!; [done| |by etrans|].
  - eapply inv_ext; [|exact Hi2]. intros q _. cbn beta. by rewrite Hb.
  - intros q Hq. rewrite Ho2; [apply Ho1; by intros ->|]. intros (y & Hy & ?). apply Hq.
    exists y. rewrite <- Ho1; [done|]. by intros ->.
Qed.
End drops.

(** * Becoming ready *)

Lemma counts_bare_none m own st : counts m own st ->
  (forall h x, bare m = Some h -> hs st !! h = Some x -> 0 < ref_n x) -> counts (set_bare None m) own st.
Proof.
  intros [H1 H2 H3] H. split; [done| |done]. intros h x Hx Ha _. destruct (decide (bare m = Some h)); eauto.
Qed.

Lemma counts_loose m own st h l : counts m own st -> counts (set_loose h l m) own st.
Proof. intros [H1 H2 H3]. by split. Qed.

Lemma elem_of_loose_owner m own st h l b i : inv m own st -> loose m = (b, i) :: l -> source m = h ->
  exists lk s xs xb, link_at st (b, i) = Some lk /\ dep lk = h /\ suc lk = Some s /\ hs st !! s = Some xs /\
    bs st !! b = Some xb /\ links xb !! i = Some lk /\ kind xs = KDependent /\ status xs <> status_ready.
Proof.
  intros [_ Hs] Hlo Hso. destruct (s_loose _ _ Hs) as [_ Hl]. rewrite Hlo in Hl.
  destruct (Hl (b, i)) as [(lk & Hlk & Hd & Hsome) _]; [left|]. destruct (suc lk) as [s|] eqn:Hsu; [|done].
  destruct (link_owner _ _ _ _ _ _ Hs Hlk Hsu) as (_ & xs & xb & ? & ? & ? & ? & ? & _).
  exists lk, s, xs, xb. split_and!; congruence.
Qed.

(** The traversal of the successors moves one reference for each of them from the
    header to its result. *)
Lemma notify_ok m own st h r x l : inv m own st -> loose m = l -> source m = h -> build m = None -> bare m = None ->
  is_result st r -> hs st !! h = Some x -> status x = status_ready ->
  exists st', notify r l st = Ok st' /\
    inv (set_loose h [] m) (bump (bump own h (Z.of_nat (length l))) r (- Z.of_nat (length l))) st' /\
    hs st' !! h = Some x /\ hs st' !! r = hs st !! r /\ is_result st' r.
Proof.
  revert m own st. induction l as [|[b i] l IH]; intros m own st Hi Hlo Hso Hbu Hba Hr Hx Hrd; cbn [notify].
  { exists st. split_and!; try done. cbn. destruct Hi as [Hc Hs]. split.
    - apply counts_loose. eapply counts_ext; [|done]. intros q _. unfold bump. repeat case_decide; lia.
    - destruct m as [run0 build0 bare0 spare0 source0 loose0 done0 vals0 pend0]. cbn in *. by subst. }
  destruct (elem_of_loose_owner _ _ _ _ _ _ _ Hi Hlo Hso) as (lk & s & xs & xb & Hlk & Hd & Hsu & Hxs & Hxb & Hi' & Hks & Hns).
  unfold get_link, put_link, get_body. cbn [fst snd]. rewrite Hxb. mcbn. rewrite Hi'. mcbn. rewrite Hsu. mcbn.
  unfold get. cbn [hs put_body]. rewrite Hxs. mcbn. cbn zeta.
  set (st1 := put_body b (mk_body (bkind xb) (<[i := mk_link r None]> (links xb))) st).
  set (st2 := put s (set_status (status xs - 1) xs) st1).
  set (st3 := if status xs - 1 <=? status_active then enqueue_active s st2 else st2).
  assert (Hsh : s <> h /\ s <> r).
  { split; intros ->; [congruence|]. destruct Hr as (y & Hy & Hky & _). congruence. }
  assert (E3 : hs st3 = <[s := set_status (status xs - 1) xs]> (hs st)) by (unfold st3; by case_match).
  assert (Eb3 : bs st3 = <[b := mk_body (bkind xb) (<[i := mk_link r None]> (links xb))]> (bs st)) by (unfold st3; by case_match).
  assert (Eq3 : queue st3 = if status xs - 1 <=? status_active then queue st ++ [s] else queue st).
  { unfold st3, queue. case_match; [|done]. cbn. by destruct (active st). }
  assert (En3 : next_h st3 = next_h st) by (unfold st3; by case_match).
  assert (Enb3 : next_b st3 = next_b st) by (unfold st3; by case_match).
  assert (Hm3 : shape (set_loose h l m) st3 /\ status xs - 1 <> status_ready).
  { split; [by apply (shape_notify (proj2 Hi) Hlo Hso eq_refl Hbu Hba Hlk Hsu Hr Hxs Hxb E3 Eb3 Eq3)|].
    by apply (notify_not_ready (proj2 Hi) Hlo Hso Hlk Hsu Hxs Hxb E3 Eb3 Eq3 En3 Enb3). }
  destruct Hm3 as [Hs3 Hns'].
  assert (s <> always) as Hsa.
  { intros ->. destruct (inv_always Hi) as (y & Hy & _ & (z & Hz & Hkz & _) & _). congruence. }
  assert (Hc3 : counts (set_loose h l m) (bump (bump own h 1) r (-1)) st3).
  { pose proof (counts_put_body _ _ _ b xb (mk_body (bkind xb) (<[i := mk_link r None]> (links xb))) (proj1 Hi) Hxb) as Hc1.
    pose proof (counts_put _ _ st1 s xs (set_status (status xs - 1) xs) Hc1 Hxs Hsa) as Hc2. fold st2 in Hc2.
    apply counts_loose. eapply (counts_mode m m _ st2); [|done|unfold st3; by case_match..].
    eapply counts_ext; [|apply Hc2; left; apply (c_pos _ _ _ (proj1 Hi) s xs Hxs Hsa); congruence].
    intros q _. cbn. unfold links_in. rewrite (lsum_insert _ _ _ _ _ Hi'). cbn. rewrite Hd.
    rewrite (pending_one xs), (pending_one (set_status _ xs)), !shares_zero by (try right; done).
    unfold bump, ind. repeat case_decide; subst; try done; lia. }
  destruct (IH (set_loose h l m) _ st3 (conj Hc3 Hs3)) as (st' & -> & Hi'' & Hx' & Hr' & Hres'); try done.
  { destruct Hr as (y & Hy & ?). exists y. rewrite E3, lookup_insert_ne by naive_solver. done. }
  { rewrite E3, lookup_insert_ne by naive_solver. done. }
  exists st'. split_and!; try done.
  - eapply inv_ext; [|exact Hi'']. intros q _. unfold bump. cbn [length]. repeat case_decide; lia.
  - rewrite Hr', E3, lookup_insert_ne by naive_solver. done.
Qed.

(** The source of the loose links only matters when there are some. *)
Lemma inv_source m m' own st : inv m own st -> loose m = [] -> m' = set_loose (source m') [] m -> inv m' own st.
Proof.
  intros [[H1 H2 H3] Hs] Hlo ->. split; [by split|]. destruct Hs.
  split; cbn; try done.
  - intros l lk Hl. specialize (s_link0 _ _ Hl). destruct (suc lk); [|done].
    destruct s_link0 as [?|[Hin _]]; [by left|]. rewrite Hlo in Hin. by apply not_elem_of_nil in Hin.
  - split; [constructor|]. by intros l ?%not_elem_of_nil.
Qed.

Lemma inv_unloose m own st h : loose m = [] -> inv (set_loose h [] m) own st -> inv m own st.
Proof. intros Hlo Hi. eapply inv_source; [exact Hi|done|]. destruct m. cbn in *. by subst. Qed.

Definition readied (r : hid) (x : future_header) : future_header :=
  set_sucs [] (set_status status_ready (set_load (Result r) x)).

(** The header's status and result are set, its successors taken out. *)
Lemma readied_ok m own st h r x0 x : inv m own st -> loose m = [] -> hs st !! h = Some x0 ->
  status x0 <> status_ready -> h <> always -> bare m = Some h \/ kind x0 <> KDependent /\ bare m = None ->
  ref_n x = ref_n x0 -> 0 < ref_n x0 -> (kind x0 = KDependent -> kind x = KDependent /\ is_result st r) ->
  (kind x0 <> KDependent -> r = h /\ results x <> None /\ kind x = KPromise 0) ->
  inv (set_loose h (sucs x0) (set_bare None m))
      (if decide (kind x0 = KDependent) then bump (bump own r (-1)) h 1 else own) (put h (readied r x) st) /\
  is_result (put h (readied r x) st) r.
Proof.
  intros Hi Hlo Hx Hnr Ha Hb En Hpos Hdep Hpro.
  assert (Hkk : kind x0 = KDependent <-> kind x = KDependent).
  { destruct (decide (kind x0 = KDependent)) as [Hd|Hd]; [by destruct (Hdep Hd)|].
    destruct (Hpro Hd) as (_ & _ & ->). done. }
  assert (Hres : is_result (put h (readied r x) st) r).
  { destruct (decide (kind x0 = KDependent)) as [Hd|Hd].
    - destruct (Hdep Hd) as (_ & y & Hy & Hky & Hry & ?). exists y. cbn. rewrite lookup_insert_ne; [done|]. congruence.
    - destruct (Hpro Hd) as (-> & Hv & Hk). exists (readied h x). cbn. rewrite lookup_insert_eq, Hk. done. }
  split; [|done]. split.
  - apply counts_loose, counts_bare_none.
    + eapply counts_ext; [|apply (counts_put _ _ _ _ _ (readied r x) (proj1 Hi) Hx Ha); left; cbn; lia].
      intros q Hq. cbn beta. rewrite (shares_zero q x0) by by right.
      rewrite (pending_zero (readied r x)) by done. cbn [ref_n readied set_sucs set_status set_load].
      destruct (decide (kind x0 = KDependent)) as [Hd|Hd].
      * rewrite (pending_one x0) by done. destruct (Hdep Hd) as [Hk _]. unfold shares, bump. cbn.
        unfold ind. destruct (decide (q = r)) as [->|Hqr].
        -- rewrite decide_True by done. case_decide; lia.
        -- rewrite decide_False by (intros (_ & _ & ?); congruence). case_decide; lia.
      * rewrite (pending_zero x0), (shares_zero q (readied r x)) by (left + idtac; cbn; rewrite <- ?Hkk; done).
        case_decide; lia.
    + intros q y Hq. cbn. intros Hy. assert (q = h) as -> by (destruct Hb as [?|[_ ?]]; congruence).
      rewrite lookup_insert_eq in Hy. injection Hy as <-. cbn. lia.
  - apply (shape_put (proj2 Hi) Hx Hnr Hb); try done.
    + by right.
    + unfold header_ok. cbn. destruct (decide (kind x0 = KDependent)) as [Hd|Hd].
      * destruct (Hdep Hd) as [-> _]. rewrite decide_True by done. split; [done|]. by exists r.
      * destruct (Hpro Hd) as (-> & ? & ->). split; [done|]. by rewrite decide_True.
Qed.

(** Writing back the counts after the traversal; the header dies when only its
    successors referred to it. *)
Lemma settle_ok m own st h r n y xr u rr : inv m (bump (bump own h n) r (- n)) st -> bare m = None -> r <> h -> 1 <= n ->
  hs st !! h = Some y -> kind y = KDependent -> status y = status_ready -> load y = Result r ->
  hs st !! r = Some xr -> is_result st r -> 0 <= own h ->
  u = (if ref_n xr <? 0 then 0 else 1) ->
  rr = (if ref_n y - n =? 0 then ref_n xr + n * u - u else ref_n xr + n * u) ->
  exists st', (let st := put h (set_ref (ref_n y - n) y) st in
     let st := if u =? 1 then put r (set_ref rr xr) st else st in
     if ref_n y - n =? 0 then free h st else Ok st) = Ok st' /\
    inv m own st' /\ is_result st' r /\ (forall x', hs st' !! h = Some x' -> upto_ref y x') /\
    (forall x', hs st' !! r = Some x' -> upto_ref xr x').
Proof.
  intros Hi Hba Hrh Hn Hy Hk Hrd Hl Hxr Hres Hown Hu Hrr.
  assert (Hha : h <> always).
  { intros ->. destruct (inv_always Hi) as (z & Hz & _ & (z' & Hz' & ? & _) & _). congruence. }
  pose proof (inv_ref Hi _ _ Hy Hha) as Href. rewrite (pending_zero y) in Href by done.
  unfold bump in Href. rewrite decide_True, decide_False in Href by done.
  pose proof (links_to_nonneg st h). pose proof (results_to_nonneg st h).
  assert (Hr0 : r <> always -> 0 < ref_n xr) by (intros; apply (c_pos _ _ _ (proj1 Hi) r); [done..|by rewrite Hba]).
  assert (Hra : r = always -> ref_n xr = -1) by (intros ->; by apply (c_always _ _ _ (proj1 Hi))).
  destruct (decide (r = always)) as [Era|Era].
  - rewrite (Hra Era) in Hu. cbn in Hu. subst u. cbn [Z.eqb]. destruct (ref_n y - n =? 0) eqn:Hz; cbn zeta.
    + apply Z.eqb_eq in Hz. unfold free, get. cbn. rewrite lookup_insert_eq. mcbn. rewrite delete_insert_eq.
      eexists. split; [done|]. cbn. split; [|split; [|split]].
      * split.
        -- eapply counts_ext; [|apply (counts_free m m _ st h y _ (proj1 Hi) Hy Hha); try done; by left].
           intros q Hq. cbn beta. unfold bump. rewrite (pending_zero y) by done.
           unfold shares. rewrite ind_no by (intros (_ & _ & E); congruence).
           rewrite (decide_False (P := q = r)) by congruence. case_decide; subst; lia.
        -- apply (shape_free (m := m) (proj2 Hi) Hy Hha); try done; [lia|lia|by left|by left].
      * destruct Hres as (z & Hz' & ?). exists z. cbn. rewrite lookup_delete_ne by done. done.
      * intros x'. by rewrite lookup_delete_eq.
      * intros x'. rewrite lookup_delete_ne by done. intros ?. by simplify_eq.
    + apply Z.eqb_neq in Hz. eexists. split; [done|]. split; [|split; [|split]].
      * eapply inv_ext; [|apply (inv_set_ref _ _ _ _ _ (ref_n y - n) Hi Hy Hha); left; lia].
        intros q Hq. unfold bump. rewrite (decide_False (P := q = r)) by congruence. case_decide; lia.
      * destruct Hres as (z & Hz' & ?). exists z. cbn. rewrite lookup_insert_ne by done. done.
      * cbn. intros x'. rewrite lookup_insert_eq. intros [= <-]. apply upto_set_ref.
      * cbn. intros x'. rewrite lookup_insert_ne by done. intros ?. by simplify_eq.
  - rewrite (proj2 (Z.ltb_ge _ _)) in Hu by (specialize (Hr0 Era); lia). subst u. cbn [Z.eqb Pos.eqb].
    specialize (Hr0 Era). pose proof (inv_set_ref _ _ _ _ _ rr Hi Hxr Era) as Hi1.
    assert (0 < rr /\ rr = ref_n xr + n - (if ref_n y - n =? 0 then 1 else 0)) as [Hrp Erp]
      by (subst rr; case_match; lia). clear Hrr. specialize (Hi1 (or_introl Hrp)).
    assert (Hy1 : hs (put r (set_ref rr xr) st) !! h = Some y) by (cbn; by rewrite lookup_insert_ne).
    assert (Hres1 : is_result (put r (set_ref rr xr) st) r).
    { destruct Hres as (z & Hz' & ?). assert (z = xr) as -> by congruence. eexists. cbn. by rewrite lookup_insert_eq. }
    destruct (ref_n y - n =? 0) eqn:Hz; cbn zeta.
    + apply Z.eqb_eq in Hz. unfold free, get. cbn. rewrite lookup_insert_ne, lookup_insert_eq by done. mcbn.
      rewrite insert_insert_ne, delete_insert_eq by done.
      eexists. split; [done|]. split; [|split; [|split]].
      * destruct Hi1 as [Hc1 Hs1]. split.
        -- eapply counts_ext; [|apply (counts_free m m _ _ h y _ Hc1 Hy1 Hha); try done; by left].
           intros q Hq. cbn beta. unfold bump. rewrite (pending_zero y) by done.
           unfold shares, ind. destruct (decide (q = r)) as [->|].
           ++ rewrite (decide_True (P := _ /\ _)) by done. rewrite !decide_False by done. lia.
           ++ rewrite (decide_False (P := _ /\ _)) by (intros (_ & _ & E); congruence). repeat case_decide; subst; lia.
        -- pose proof (inv_ref (conj Hc1 Hs1) _ _ Hy1 Hha) as Href1. rewrite (pending_zero y) in Href1 by done.
           unfold bump in Href1. rewrite decide_True, !decide_False in Href1 by done.
           pose proof (links_to_nonneg (put r (set_ref rr xr) st) h).
           pose proof (results_to_nonneg (put r (set_ref rr xr) st) h).
           apply (shape_free (m := m) Hs1 Hy1 Hha); try done; [lia|lia|by left|by left].
      * destruct Hres1 as (z & Hz' & ?). exists z. cbn in *. rewrite lookup_delete_ne by done. done.
      * cbn. intros x'. by rewrite lookup_delete_eq.
      * cbn. intros x'. rewrite lookup_delete_ne, lookup_insert_eq by done. intros [= <-]. apply upto_set_ref.
    + apply Z.eqb_neq in Hz.
      eexists. split; [done|]. split; [|split; [|split]].
      * pose proof (inv_set_ref _ _ _ _ _ (ref_n y - n) Hi1 Hy1 Hha ltac:(lia)) as Hi2.
        unfold put in Hi2 |- *. cbn in Hi2 |- *. rewrite insert_insert_ne by done.
        eapply inv_ext; [|exact Hi2]. intros q Hq. unfold bump. repeat case_decide; subst; try done; lia.
      * destruct Hres1 as (z & Hz' & ?). cbn in *. rewrite lookup_insert_eq in Hz'. eexists. cbn. by rewrite lookup_insert_eq.
      * cbn. intros x'. rewrite lookup_insert_ne, lookup_insert_eq by done. intros [= <-]. apply upto_set_ref.
      * cbn. intros x'. rewrite lookup_insert_eq. intros [= <-]. apply upto_set_ref.
Qed.

Lemma get_some h x st : hs st !! h = Some x -> get h st = Ok x.
Proof. unfold get. by intros ->. Qed.

Lemma get_put h x st : get h (put h x st) = Ok x.
Proof. apply get_some. cbn. by rewrite lookup_insert_eq. Qed.

Lemma enter_ready_eq h r x st : enter_ready h r (put h x st) =
  match sucs x with
  | [] => Ok (put h (readied r x) st)
  | l => entered_ready_with_sucs h r l (put h (set_status status_ready (set_load (Result r) x)) st)
  end.
Proof.
  unfold enter_ready, get. cbn [hs put]. rewrite lookup_insert_eq. mcbn. cbn [sucs].
  assert (E : forall y, put h y (put h x st) = put h y st) by (intros; unfold put; cbn; by rewrite insert_insert_eq).
  rewrite E. destruct (sucs x) eqn:Hs; [|done]. unfold readied, set_sucs, set_status, set_load; cbn. by rewrite Hs.
Qed.

Lemma readied_twice h r x st : put h (set_sucs [] (set_status status_ready (set_load (Result r) x)))
  (put h (set_status status_ready (set_load (Result r) x)) st) = put h (readied r x) st.
Proof. unfold put; cbn. by rewrite insert_insert_eq. Qed.

Lemma inv_active m own st q : inv m own st -> default [] q = queue st -> inv m own (put_active q st).
Proof.
  intros [Hc Hs] Hq. split; [by eapply counts_mode|]. eapply shape_similar; [|exact Hs].
  split_and!; done.
Qed.

(** A header whose count has been given becomes ready: its own reference, if it is a
    dependent, and the one to the result are taken from the caller. *)
Lemma enter_ready_ok m own st h r x0 x : inv m own st -> build m = None -> loose m = [] ->
  hs st !! h = Some x0 -> status x0 <> status_ready -> h <> always ->
  bare m = Some h \/ kind x0 <> KDependent /\ bare m = None ->
  sucs x = sucs x0 -> ref_n x = ref_n x0 -> 0 < ref_n x0 ->
  (kind x0 = KDependent -> kind x = KDependent /\ is_result st r /\ 0 <= own h + 1) ->
  (kind x0 <> KDependent -> r = h /\ results x <> None /\ kind x = KPromise 0) ->
  exists st', enter_ready h r (put h x st) = Ok st' /\
    inv (set_bare None m) (if decide (kind x0 = KDependent) then bump (bump own r (-1)) h 1 else own) st' /\
    (forall x', hs st' !! h = Some x' -> upto_ref (readied r x) x').
Proof.
  intros Hi Hbu Hlo Hx Hnr Ha Hb Esu En Hpos Hdep Hpro.
  destruct (readied_ok m own st h r x0 x) as [Hi1 Hres1]; try done; [naive_solver|].
  rewrite enter_ready_eq. rewrite Esu. destruct (sucs x0) as [|l0 l] eqn:Hsu.
  { eexists. split; [done|]. split; [by apply (inv_unloose _ _ _ h)|].
    cbn. intros x'. rewrite lookup_insert_eq. by intros [= <-]. }
  unfold entered_ready_with_sucs. rewrite get_put. mcbn.
  cbn [ref_n set_status set_load]. rewrite En, (proj2 (Z.ltb_lt 0 (ref_n x0))) by done. mcbn.
  set (own1 := if decide (kind x0 = KDependent) then bump (bump own r (-1)) h 1 else own) in *.
  set (m1 := set_loose h (l0 :: l) (set_bare None m)) in *.
  set (n := Z.of_nat (length (l0 :: l))). assert (1 <= n) as Hn by (subst n; cbn [length]; lia).
  set (sta := put h (set_status status_ready (set_load (Result r) x)) st).
  assert (exists q, put h (set_sucs [] (set_status status_ready (set_load (Result r) x)))
    (match active sta with None => put_active (Some []) sta | Some _ => sta end) =
    put_active q (put h (readied r x) st) /\ default [] q = queue st) as (q & Est & Hq).
  { unfold sta, queue. cbn. destruct (active st) as [q|] eqn:Eact; [exists (Some q)|exists (Some [])]; (split; [|done]);
      unfold put, put_active; cbn; rewrite insert_insert_eq; by rewrite ?Eact. }
  pose proof (inv_active _ _ _ _ Hi1 Hq) as Hi1'. rewrite <- Est in *.
  destruct (notify_ok m1 own1 _ h r (readied r x) (l0 :: l) Hi1') as (st2 & Hnot & Hi2 & Hh2 & Hr2 & Hres2); try done.
  { rewrite Est. exact Hres1. } { rewrite Est. cbn. by rewrite lookup_insert_eq. }
  destruct Hres1 as (xr & Hxr & Hkr & Hrr & Hlr & Hvr).
  assert (exists xr0, get r sta = Ok xr0 /\ ref_n xr0 = ref_n xr /\ hs st2 !! r = Some xr) as (xr0 & Hg & Er & Hxr2).
  { rewrite Hr2, Est. destruct (decide (r = h)) as [->|Hrh].
    - eexists. split; [apply get_put|]. cbn in Hxr |- *. rewrite lookup_insert_eq in *. by injection Hxr as <-.
    - exists xr. cbn in Hxr |- *. rewrite lookup_insert_ne in * by done. split; [|done].
      apply get_some. cbn. by rewrite lookup_insert_ne. }
  rewrite Hg. mcbn. rewrite Hnot. mcbn. rewrite (get_some _ _ _ Hh2). mcbn. rewrite Er. fold n in Hi2.
  change (set_loose h [] m1) with (set_loose h [] (set_bare None m)) in Hi2.
  apply (inv_unloose (set_bare None m) _ _ h Hlo) in Hi2.
  destruct (decide (r = h)) as [->|Hrh].
  - rewrite Nat.eqb_refl. cbn [orb Z.eqb]. rewrite (get_some _ _ _ Hxr2). mcbn.
    rewrite (proj2 (Z.eqb_neq _ 0)) by lia. eexists. split; [done|]. split.
    + eapply inv_ext; [|exact Hi2].
      intros p _. unfold bump. case_decide; lia.
    + intros x'. rewrite Hh2. by intros [= <-].
  - rewrite (proj2 (Nat.eqb_neq r h)) by done. cbn [orb Z.eqb Pos.eqb]. rewrite Z.mul_1_r.
    assert (Hdk : kind x0 = KDependent).
    { destruct (decide (kind x0 = KDependent)) as [|Hd]; [done|]. by destruct (Hpro Hd). }
    destruct (Hdep Hdk) as (Hkx & Hres & Hown).
    assert (Hg2 : get r (put h (set_ref (ref_n x0 - n) (readied r x)) st2) = Ok xr).
    { apply get_some. cbn. by rewrite lookup_insert_ne. }
    rewrite Hg2. mcbn.
    destruct (settle_ok _ own1 st2 h r n (readied r x) xr (if ref_n xr <? 0 then 0 else 1)
      (if ref_n x0 - n =? 0 then ref_n xr + n * (if ref_n xr <? 0 then 0 else 1) - (if ref_n xr <? 0 then 0 else 1)
       else ref_n xr + n * (if ref_n xr <? 0 then 0 else 1)) Hi2) as (st3 & Hst3 & Hi3 & Hres3 & Hh3 & _); try done.
    { unfold own1. rewrite decide_True by done. unfold bump. rewrite decide_False, decide_True by done. lia. }
    { cbn. by rewrite En. }
    exists st3. cbn [ref_n readied set_sucs set_status set_load] in Hst3. rewrite En in Hst3. cbn zeta in Hst3.
    split; [exact Hst3|]. split; done.
Qed.

(** * Promises *)

Lemma set_bare_none m : bare m = None -> set_bare None m = m.
Proof. intros H. destruct m. cbn in *. by subst. Qed.

Lemma promise_header m own st h x c : inv m own st -> hs st !! h = Some x -> kind x = KPromise c -> 0 < c ->
  h <> always /\ status x <> status_ready /\ load x = Result h /\
  (status x = status_results_yes /\ results x <> None \/ status x = status_results_no /\ void x = false /\ results x = None).
Proof.
  intros Hi Hx Hk Hc. pose proof (s_header _ _ (proj2 Hi) _ _ Hx) as Hok. unfold header_ok in Hok. rewrite Hk in Hok.
  destruct Hok as [Hl Hok]. case_decide as Hd; [destruct Hok as (? & _); lia|]. destruct Hok as [_ Hok].
  split_and!; try done. intros ->. destruct (s_always _ _ (proj2 Hi)) as (y & Hy & ? & _). congruence.
Qed.

(** A promise that stays unready may change its countdown, its status and results. *)
Lemma promise_put m own st h x x' c c' : inv m own st -> bare m = None -> hs st !! h = Some x ->
  kind x = KPromise c -> 0 < c -> kind x' = KPromise c' -> 0 < c' -> ref_n x' = ref_n x -> sucs x' = sucs x ->
  load x' = load x -> (status x' = status_results_yes /\ results x' <> None \/
                      status x' = status_results_no /\ void x' = false /\ results x' = None) ->
  inv m own (put h x' st).
Proof.
  intros Hi Hba Hx Hk Hc Hk' Hc' En Es El Hst.
  destruct (promise_header _ _ _ _ _ _ Hi Hx Hk Hc) as (Ha & Hnr & Hl & _).
  assert (Hnr' : status x' <> status_ready) by (destruct Hst as [[-> _]|[-> _]]; done).
  assert (Hpos : 0 < ref_n x) by (apply (c_pos _ _ _ (proj1 Hi) h); [done..|by rewrite Hba]).
  split.
  - eapply counts_ext; [|apply (counts_put _ _ _ _ _ x' (proj1 Hi) Hx Ha); left; lia].
    intros q _. cbn. rewrite !shares_zero by (left; congruence).
    rewrite (pending_zero x), (pending_zero x') by congruence. case_decide; lia.
  - rewrite <- (set_bare_none m Hba). apply (shape_put (proj2 Hi) Hx Hnr).
    + right. split; [congruence|done].
    + rewrite Hk, Hk'. done.
    + congruence.
    + destruct Hst as [[-> _]|[-> _]]; done.
    + left. done.
    + unfold header_ok. rewrite Hk', decide_False by done. split; [congruence|done].
Qed.

Lemma fulfill_ok m own st h x c n : inv m own st -> build m = None -> bare m = None -> loose m = [] ->
  hs st !! h = Some x -> kind x = KPromise c -> 0 < c -> n <= c -> (c = n -> status x = status_results_yes) ->
  exists st', fulfill h n st = Ok st' /\ inv m own st' /\
    forall x', hs st' !! h = Some x' -> upto_ref (if c - n =? 0 then readied h (set_kind (KPromise 0) x)
                                                  else set_kind (KPromise (c - n)) x) x'.
Proof.
  intros Hi Hbu Hba Hlo Hx Hk Hc Hn Hyes.
  destruct (promise_header _ _ _ _ _ _ Hi Hx Hk Hc) as (Ha & Hnr & Hl & Hst).
  assert (Hpos : 0 < ref_n x) by (apply (c_pos _ _ _ (proj1 Hi) h); [done..|by rewrite Hba]).
  unfold fulfill, countdown_of. rewrite (get_some _ _ _ Hx). mcbn. rewrite Hk. mcbn.
  rewrite (proj2 (Z.ltb_lt 0 c)), (proj2 (Z.leb_le 0 (c - n))) by lia. mcbn. destruct (c - n =? 0) eqn:Hz.
  - apply Z.eqb_eq in Hz. unfold readify. rewrite get_put. mcbn. cbn [status set_kind].
    rewrite (proj2 (Z.eqb_eq _ _)) by (apply Hyes; lia). mcbn. rewrite Hz.
    destruct (enter_ready_ok m own st h h x (set_kind (KPromise 0) x)) as (st' & Hr & Hi' & Hh'); try done.
    + right. split; [congruence|done].
    + congruence.
    + intros _. split_and!; [done| |done]. cbn. destruct Hst as [[_ ?]|[E _]]; [done|].
      rewrite Hyes in E by lia. done.
    + rewrite decide_False in Hi' by congruence. rewrite (set_bare_none m Hba) in Hi'. by exists st'.
  - apply Z.eqb_neq in Hz. eexists. split; [done|]. split.
    + eapply (promise_put _ _ _ _ _ _ c (c - n)); try done. lia.
    + intros x'. cbn. rewrite lookup_insert_eq. by intros [= <-].
Qed.

Lemma require_anonymous_ok m own st h x c n : inv m own st -> bare m = None ->
  hs st !! h = Some x -> kind x = KPromise c -> 0 < c -> 0 <= n ->
  require_anonymous h n st = Ok (put h (set_kind (KPromise (c + n)) x) st) /\
  inv m own (put h (set_kind (KPromise (c + n)) x) st).
Proof.
  intros Hi Hba Hx Hk Hc Hn. destruct (promise_header _ _ _ _ _ _ Hi Hx Hk Hc) as (Ha & Hnr & Hl & Hst). split.
  - unfold require_anonymous, countdown_of. rewrite (get_some _ _ _ Hx). mcbn. rewrite Hk. mcbn.
    rewrite (proj2 (Z.ltb_lt 0 c)), (proj2 (Z.leb_le 0 n)) by lia. done.
  - eapply (promise_put _ _ _ _ _ _ c (c + n)); try done. lia.
Qed.

Lemma fulfill_result_ok m own st h x c v : inv m own st -> build m = None -> bare m = None -> loose m = [] ->
  hs st !! h = Some x -> kind x = KPromise c -> 0 < c -> void x = true \/ status x = status_results_no ->
  exists st', fulfill_result h v st = Ok st' /\ inv m own st'.
Proof.
  intros Hi Hbu Hba Hlo Hx Hk Hc Hv. destruct (promise_header _ _ _ _ _ _ Hi Hx Hk Hc) as (Ha & Hnr & Hl & Hst).
  unfold fulfill_result. rewrite (get_some _ _ _ Hx). mcbn. destruct (void x) eqn:Hvo; cbn [orb]; mcbn.
  - destruct (fulfill_ok m own st h x c 1) as (st' & ? & ? & _); try done; [lia| |by exists st'].
    intros _. destruct Hst as [[? _]|(_ & ? & _)]; [done|congruence].
  - destruct Hv as [?|Hv]; [done|]. rewrite Hv. mcbn.
    set (x1 := set_status status_results_yes (set_results (Some v) x)).
    assert (Hi1 : inv m own (put h x1 st)).
    { eapply (promise_put _ _ _ _ _ x1 c c); try done. by left. }
    destruct (fulfill_ok m own (put h x1 st) h x1 c 1) as (st' & ? & ? & _); try done; [|lia|by exists st'].
    cbn. by rewrite lookup_insert_eq.
Qed.

Lemma new_promise_ok m own st is_void deps : inv m own st -> 1 <= deps ->
  exists h st', new_promise is_void deps st = Ok (h, st') /\ inv m (bump own h 1) st' /\ h = next_h st.
Proof.
  intros Hi Hd. unfold new_promise. rewrite (proj2 (Z.leb_le 1 deps)) by lia. mcbn. do 2 eexists. split; [done|].
  split; [|done]. set (x := mk_header 1 _ [] _ _ _ _).
  assert (Hx : hs st !! next_h st = None) by (apply (s_fresh _ _ (proj2 Hi)); lia).
  assert (Ha : next_h st <> always).
  { intros E. destruct (s_always _ _ (proj2 Hi)) as (y & Hy & _). rewrite <- E in Hy. congruence. }
  split.
  - eapply counts_ext; [|by apply (counts_alloc _ _ _ (next_h st) x _ (proj1 Hi))].
    intros q _. cbn. rewrite shares_zero by by left. rewrite (pending_zero x) by done. unfold bump.
    case_decide; cbn; lia.
  - eapply (shape_alloc (h := next_h st) (x := x) (proj2 Hi)); try done.
    unfold header_ok. cbn. destruct is_void; (split; [done|]); (split; [lia|]); [by left|by right].
Qed.

Lemma new_result_ok m own st v : inv m own st ->
  inv m (bump own (next_h st) 1) (new_result v st).2 /\ (new_result v st).1 = next_h st /\
  is_result (new_result v st).2 (next_h st) /\ next_h st <> always.
Proof.
  intros Hi. assert (Hx : hs st !! next_h st = None) by (apply (s_fresh _ _ (proj2 Hi)); lia).
  assert (Ha : next_h st <> always).
  { intros E. destruct (s_always _ _ (proj2 Hi)) as (y & Hy & _). rewrite <- E in Hy. congruence. }
  unfold new_result, alloc. cbn. set (x := mk_header 1 _ [] _ _ _ _). split_and!; [|done| |done].
  - split.
    + eapply counts_ext; [|by apply (counts_alloc _ _ _ (next_h st) x _ (proj1 Hi))].
      intros q _. cbn. rewrite shares_zero by by left. rewrite (pending_zero x) by done. unfold bump.
      case_decide; cbn; lia.
    + eapply (shape_alloc (h := next_h st) (x := x) (proj2 Hi)); done.
  - exists x. cbn. by rewrite lookup_insert_eq.
Qed.

Lemma make_future_ok m own st v : inv m own st ->
  exists r st', make_future v st = (r, st') /\ inv m (bump own r 1) st' /\ is_result st' r.
Proof.
  intros Hi. unfold make_future. destruct v as [|a v].
  - exists always, st. split_and!; [done| |]; [|by destruct (inv_always Hi) as (? & ? & ? & ? & _)].
    eapply inv_ext; [|done]. intros q ?. by rewrite bump_ne.
  - destruct (new_result_ok _ _ _ (a :: v) Hi) as (? & ? & ? & _). do 2 eexists. split_and!; [done|done|done].
Qed.

(** * Dependents *)

(** A header under construction: its body takes dependencies, nothing links to it. *)
Definition building (m : mode) (st : heap) (h : hid) (b : bid) (k : body_kind) : Prop :=
  (exists x xb, hs st !! h = Some x /\ kind x = KDependent /\ status x <> status_ready /\ load x = Body b /\
    bs st !! b = Some xb /\ bkind xb = k) /\
  (forall l lk, link_at st l = Some lk -> dep lk <> h).

Lemma building_shrinks m st st' h b k : building m st h b k -> shrinks st st' -> building m st' h b k.
Proof.
  intros [(x & xb & Hx & Hk & Hr & Hl & Hb & Hbk) Hnl] Hs.
  destruct (k_keep _ _ Hs _ _ Hx Hk Hr) as (x' & Hx' & (? & ? & ? & ? & ?)). split.
  - exists x', xb. rewrite (k_bodies _ _ Hs). split_and!; congruence.
  - intros l lk. unfold link_at. rewrite (k_bodies _ _ Hs). apply Hnl.
Qed.

(** [dependency_link] on a header that is not ready. *)
Lemma add_link_ok m own st h b k a x xb xa : inv m own st -> build m = Some h -> bare m = None -> k <> BProxy ->
  building m st h b k -> a <> h -> hs st !! h = Some x -> bs st !! b = Some xb -> hs st !! a = Some xa ->
  status xa <> status_ready ->
  let st' := put h (set_status (status x + 1) x) (put a (set_sucs ((b, length (links xb)) :: sucs xa) xa)
    (put_body b (mk_body (bkind xb) (links xb ++ [mk_link a (Some h)])) st)) in
  inv m (bump own a (-1)) st' /\ building m st' h b k.
Proof.
  intros Hi Hbu Hba Hk [(x0 & xb0 & Hx0 & Hkx & Hr & Hl & Hb0 & Hbk) Hnl] Hah Hx Hxb Hxa Hra st'.
  assert (x0 = x) as -> by congruence. assert (xb0 = xb) as -> by congruence.
  assert (Hlk : suc (mk_link a (Some h)) = None /\ is_result st a /\ hs st' = hs st \/
    suc (mk_link a (Some h)) = Some h /\ a <> h /\ exists xa, hs st !! a = Some xa /\ status xa <> status_ready /\
      hs st' = <[h := set_status (status x + 1) x]> (<[a := set_sucs ((b, length (links xb)) :: sucs xa) xa]> (hs st))).
  { right. split; [done|]. split; [done|]. by exists xa. }
  assert (Hs' : shape m st').
  { eapply (shape_link (st' := st') (lk := mk_link a (Some h)) (proj2 Hi) Hbu Hba Hx Hkx Hr Hl Hxb); try done; congruence. }
  assert (Hnr : status x + 1 <> status_ready).
  { destruct (waiting_body _ _ _ _ _ _ (proj2 Hi) Hba Hx Hkx Hr Hl Hxb) as (_ & -> & _); [congruence|].
    pose proof (number_linked_nonneg (links xb)). unfold status_ready. lia. }
  assert (Haa : a <> always).
  { intros ->. destruct (inv_always Hi) as (y & Hy & _ & (z & Hz & _ & ? & _) & _). congruence. }
  assert (Hha : h <> always).
  { intros ->. destruct (inv_always Hi) as (y & Hy & _ & (z & Hz & _ & ? & _) & _). congruence. }
  split; [split; [|done]|].
  - pose proof (counts_put_body _ _ _ b xb (mk_body (bkind xb) (links xb ++ [mk_link a (Some h)])) (proj1 Hi) Hxb) as Hc1.
    set (st1 := put_body b _ st) in *.
    pose proof (counts_put _ _ st1 a xa (set_sucs ((b, length (links xb)) :: sucs xa) xa) Hc1 Hxa Haa) as Hc2.
    set (st2 := put a _ st1) in *. specialize (Hc2 (or_introl (c_pos _ _ _ (proj1 Hi) a xa Hxa Haa ltac:(by rewrite Hba)))).
    assert (Hx2 : hs st2 !! h = Some x) by (cbn; by rewrite lookup_insert_ne).
    pose proof (counts_put _ _ st2 h x (set_status (status x + 1) x) Hc2 Hx2 Hha) as Hc3.
    eapply counts_ext; [|apply Hc3; left; apply (c_pos _ _ _ (proj1 Hi) h x Hx Hha); by rewrite Hba].
    intros q _. cbn. unfold links_in. rewrite lsum_app. cbn.
    rewrite (shares_zero q x), (shares_zero q (set_status _ x)) by by right.
    rewrite (pending_one x), (pending_one (set_status _ x)) by done.
    unfold bump, ind, shares, pending. cbn. repeat case_decide; subst; try done; lia.
  - split.
    + exists (set_status (status x + 1) x), (mk_body (bkind xb) (links xb ++ [mk_link a (Some h)])).
      cbn. rewrite !lookup_insert_eq. done.
    + intros l lk. rewrite (link_at_grown st st' b xb (mk_link a (Some h))) by done.
      case_decide; [by intros [= <-]|]. apply Hnl.
Qed.

(** A dependency that is ready already. *)
Lemma add_ready_ok m own st h b k r xb : inv m own st -> build m = Some h -> bare m = None -> k <> BProxy ->
  building m st h b k -> is_result st r -> bs st !! b = Some xb ->
  let st' := put_body b (mk_body (bkind xb) (links xb ++ [mk_link r None])) st in
  inv m (bump own r (-1)) st' /\ building m st' h b k.
Proof.
  intros Hi Hbu Hba Hk [(x & xb0 & Hx & Hkx & Hr & Hl & Hb0 & Hbk) Hnl] Hres Hxb st'.
  assert (xb0 = xb) as -> by congruence. split; [split|].
  - eapply counts_ext; [|apply (counts_put_body _ _ _ b xb _ (proj1 Hi) Hxb)].
    intros q _. cbn. unfold links_in. rewrite lsum_app. cbn. unfold bump, ind. repeat case_decide; subst; try done; lia.
  - eapply (shape_link (st' := st') (lk := mk_link r None) (proj2 Hi) Hbu Hba Hx Hkx Hr Hl Hxb); try done; [congruence|].
    left. done.
  - split.
    + exists x, (mk_body (bkind xb) (links xb ++ [mk_link r None])). cbn. rewrite lookup_insert_eq. done.
    + intros l lk. rewrite (link_at_grown st st' b xb (mk_link r None)) by done.
      case_decide; [|apply Hnl]. intros [= <-]. cbn. intros ->.
      destruct Hres as (y & Hy & Hky & _). congruence.
Qed.

Lemma add_dependency_ok m own st h b k a : inv m own st -> (forall q, 0 <= own q) -> build m = Some h ->
  bare m = None -> loose m = [] -> k <> BProxy -> building m st h b k -> a <> h -> 1 <= own a ->
  exists st', add_dependency h b a st = Ok st' /\ inv m (bump own a (-1)) st' /\ building m st' h b k.
Proof.
  intros Hi Hown Hbu Hba Hlo Hk Hb Hah Ho. destruct (inv_live Hi a) as (xa & Hxa); [lia|].
  assert (exists a1 st1 xa1, (if (status xa =? status_proxying) || (status xa =? status_proxying_active)
      then drop_for_proxied a st else Ok (a, st)) = Ok (a1, st1) /\ shrinks st st1 /\
      inv m (bump (bump own a (-1)) a1 1) st1 /\ a1 <> h /\ hs st1 !! a1 = Some xa1) as
    (a1 & st1 & xa1 & Hstep & Hsh & Hi1 & Hah1 & Hxa1).
  { destruct ((status xa =? status_proxying) || (status xa =? status_proxying_active)) eqn:Hpr.
    - apply orb_true_iff in Hpr. rewrite !Z.eqb_eq in Hpr.
      destruct (drop_for_proxied_ok own st a xa Hi Hown Ho Hba Hlo Hxa Hpr)
        as (a1 & st1 & ? & ? & ? & (l & lk & Hlk & <-) & xa1 & ? & _).
      exists (dep lk), st1, xa1. split_and!; try done. by eapply (proj2 Hb).
    - exists a, st, xa. split_and!; try done. eapply inv_ext; [|done]. intros q _. unfold bump. case_decide; lia. }
  unfold add_dependency. rewrite (get_some _ _ _ Hxa). mcbn. rewrite Hstep. mcbn. rewrite (get_some _ _ _ Hxa1). mcbn.
  assert (Hown1 : forall q, 0 <= bump (bump own a (-1)) a1 1 q).
  { intros q. specialize (Hown q). unfold bump. repeat case_decide; subst; lia. }
  assert (Ho1 : 1 <= bump (bump own a (-1)) a1 1 a1).
  { specialize (Hown a1). unfold bump. repeat case_decide; subst; try done; lia. }
  pose proof (building_shrinks _ _ _ _ _ _ Hb Hsh) as Hb1.
  destruct Hb1 as [(x & xb & Hx & Hkx & Hrx & Hl & Hxb & Hbk) Hnl].
  assert (Hb1 : building m st1 h b k) by (split; [by exists x, xb|done]).
  assert (Eown : forall q, bump (bump (bump own a (-1)) a1 1) a1 (-1) q = bump own a (-1) q).
  { intros q. unfold bump. repeat case_decide; lia. }
  destruct (status xa1 =? status_ready) eqn:Hrd; cbn [negb].
  - apply Z.eqb_eq in Hrd. destruct (drop_for_result_ok _ _ _ _ Hi1 (fun q _ => Hown1 q) Ho1 Hxa1 Hrd)
      as (r & st2 & -> & _ & Hi2 & Hres2 & Hsh2 & _). mcbn.
    pose proof (building_shrinks _ _ _ _ _ _ Hb1 Hsh2) as Hb2.
    destruct Hb2 as [(x2 & xb2 & Hx2 & Hkx2 & Hrx2 & Hl2 & Hxb2 & Hbk2) Hnl2].
    unfold get_body. rewrite Hxb2. mcbn. eexists. split; [done|].
    destruct (add_ready_ok m _ st2 h b k r xb2 Hi2) as [Hi3 Hb3]; try done.
    { split; [by exists x2, xb2|done]. }
    split; [|done]. eapply inv_ext; [|exact Hi3]. intros q _. rewrite <- Eown. unfold bump. repeat case_decide; lia.
  - apply Z.eqb_neq in Hrd. unfold get_body. rewrite Hxb. mcbn.
    set (sta := put a1 _ (put_body b _ st1)).
    assert (Hga : get h sta = Ok x) by (apply get_some; cbn; by rewrite lookup_insert_ne).
    rewrite Hga. mcbn. eexists. split; [done|].
    destruct (add_link_ok m _ st1 h b k a1 x xb xa1 Hi1) as [Hi2 Hb2]; try done.
    split; [|done]. eapply inv_ext; [|exact Hi2]. intros q _. apply Eown.
Qed.

Definition tokens (l : list hid) (h : hid) : Z := lsum (fun q => ind (q = h)) l.

Lemma tokens_nonneg l h : 0 <= tokens l h.
Proof. apply lsum_nonneg. intros. apply ind_nonneg. Qed.

Lemma add_dependencies_ok m own st h b k args : inv m own st -> (forall q, tokens args q <= own q) ->
  build m = Some h -> bare m = None -> loose m = [] -> k <> BProxy -> building m st h b k -> h ∉ args ->
  exists st', add_dependencies h b args st = Ok st' /\ inv m (fun q => own q - tokens args q) st' /\
    building m st' h b k.
Proof.
  revert own st. induction args as [|a args IH]; intros own st Hi Hown Hbu Hba Hlo Hk Hb Hh; cbn [add_dependencies].
  { exists st. split_and!; try done. eapply inv_ext; [|done]. intros q _. cbn. lia. }
  apply not_elem_of_cons in Hh as [Hha Hh].
  assert (Ht : forall q, tokens (a :: args) q = ind (a = q) + tokens args q) by done.
  assert (Hown0 : forall q, 0 <= own q) by (intros q; specialize (Hown q); pose proof (tokens_nonneg (a :: args) q); lia).
  destruct (add_dependency_ok m own st h b k a) as (st1 & -> & Hi1 & Hb1); try done.
  { specialize (Hown a). rewrite Ht, ind_yes in Hown by done. pose proof (tokens_nonneg args a). lia. }
  mcbn. assert (Eq : forall q, bump own a (-1) q - tokens args q = own q - tokens (a :: args) q).
  { intros q. rewrite Ht. unfold bump, ind. repeat case_decide; subst; try done; lia. }
  destruct (IH _ _ Hi1) as (st2 & -> & Hi2 & Hb2); try done.
  { intros q. specialize (Hown q). pose proof (Eq q). lia. }
  exists st2. split_and!; try done. eapply inv_ext; [|exact Hi2]. intros q _. apply Eq.
Qed.

(** The header waits: it is left to its dependencies. *)
Lemma inv_unbuild m own st h x : inv m own st -> build m = Some h -> hs st !! h = Some x -> ~ active_status x ->
  (h ∈ done m -> forall b xb, load x = Body b -> bs st !! b = Some xb -> bkind xb <> BThen) ->
  inv (set_build None m) own st.
Proof.
  intros [Hc Hs] Hbu Hx Hna Hdn. split; [by eapply counts_mode|]. eapply shape_mode; try done.
  - destruct (s_queue _ _ Hs) as [? Hq]. split; [done|]. intros q Hin. destruct (Hq q Hin) as [Hh ?]. split; [|done].
    intros [?|[?|?]]; [by apply Hh; left|done|by apply Hh; right; right].
  - intros q y Hy Hky Hay. destruct (s_active _ _ Hs _ _ Hy Hky Hay) as [?|[?|[E|?]]].
    + by left.
    + right. by left.
    + assert (q = h) as -> by congruence. assert (y = x) as -> by congruence. done.
    + right. by right; right.
  - intros q Hr. destruct (s_run _ _ Hs _ Hr) as (? & ? & ?). done.
  - intros d Hd. destruct (s_done _ _ Hs _ Hd) as [? H]. split; [done|].
    intros y b xb Hy Hky Hsy Hl Hxb Hbk. destruct (H _ _ _ Hy Hky Hsy Hl Hxb Hbk) as [?|[E|?]].
    + by left.
    + assert (d = h) as -> by congruence. assert (y = x) as -> by congruence. by destruct (Hdn Hd _ _ Hl Hxb).
    + by right; right.
  - by apply (s_vals _ _ Hs).
  - by apply (s_pend _ _ Hs).
Qed.

Lemma set_build_none m h : build m = None -> set_build None (set_build (Some h) m) = m.
Proof. intros H. destruct m. cbn in *. by subst. Qed.

Lemma tokens_in l h : h ∈ l -> 1 <= tokens l h.
Proof.
  intros [i Hi]%list_elem_of_lookup. pose proof (lsum_lookup_le (fun q => ind (q = h)) l i h (fun _ => ind_nonneg _) Hi) as H.
  cbn in H. rewrite ind_yes in H by done. done.
Qed.

(** [then] and [when_all]: a new header that waits for its arguments, whose
    references it takes. *)
Lemma make_header_ok m own st k v args : inv m own st -> (forall q, tokens args q <= own q) ->
  build m = None -> bare m = None -> spare m = None -> loose m = [] -> k <> BProxy -> next_h st ∈ pend m ->
  exists st', make_header k v args st = Ok (next_h st, st') /\
    inv m (bump (fun q => own q - tokens args q) (next_h st) 1) st'.
Proof.
  intros Hi Hown Hbu Hba Hsp Hlo Hk Hpend. unfold make_header, alloc_body, alloc. cbn.
  set (h := next_h st). set (b := next_b st).
  set (x := mk_header 2 _ [] _ _ _ _). set (st1 := mk_heap _ _ _ _ _).
  assert (Hx : hs st !! h = None) by (apply (s_fresh _ _ (proj2 Hi)); done).
  assert (Hb : bs st !! b = None) by (apply (s_fresh _ _ (proj2 Hi)); done).
  assert (Hown0 : forall q, 0 <= own q) by (intros q; specialize (Hown q); pose proof (tokens_nonneg args q); lia).
  assert (Hnow : own h <= 0).
  { destruct (decide (own h <= 0)) as [|Hn]; [done|]. destruct (inv_live Hi h) as (y & Hy); [lia|congruence]. }
  assert (Ha : h <> always).
  { intros E. destruct (s_always _ _ (proj2 Hi)) as (y & Hy & _). unfold h in *. rewrite <- E in Hy. congruence. }
  assert (Hi1 : inv (set_build (Some h) m) (bump own h 1) st1).
  { split.
    - eapply (counts_mode m); [|done..].
      pose proof (counts_alloc_body m own st b (mk_body k []) (mk_heap (hs st) (<[b := mk_body k []]> (bs st)) (active st)
        (next_h st) (S (next_b st))) (proj1 Hi) Hb eq_refl eq_refl) as Hc1.
      eapply counts_ext; [|apply (counts_alloc m _ _ h x st1 Hc1); done].
      intros q _. cbn. rewrite shares_zero by by right. rewrite (pending_one x) by done.
      unfold links_in, bump. cbn. case_decide; lia.
    - assert (Em : set_pend ({[h]} ∪ pend m) (set_build (Some h) m) = set_build (Some h) m).
      { unfold set_pend. cbn. replace ({[h]} ∪ pend m) with (pend m) by set_solver. done. }
      rewrite <- Em. eapply (shape_alloc_build (k := k) (x := x) (proj2 Hi)); try done. by rewrite Hba. }
  assert (Hb1 : building (set_build (Some h) m) st1 h b k).
  { split.
    - exists x, (mk_body k []). unfold st1. cbn. by rewrite !lookup_insert_eq.
    - intros [c j] lk (xc & Hc & Hj)%link_at_body E. unfold st1 in Hc. cbn in Hc.
      apply lookup_insert_Some in Hc as [[<- <-]|[_ Hc]]; [done|].
      assert (Hl : link_at st (c, j) = Some lk) by (unfold link_at; cbn; by rewrite Hc).
      pose proof (links_to_pos _ _ _ Hl) as Hp. rewrite E in Hp. pose proof (c_ref _ _ _ (proj1 Hi) h Ha) as Hr.
      rewrite Hx in Hr. pose proof (results_to_nonneg st h). specialize (Hown0 h). lia. }
  destruct (add_dependencies_ok _ _ st1 h b k args Hi1) as (st2 & -> & Hi2 & Hb2); try done.
  { intros q. specialize (Hown q). unfold bump. case_decide; lia. }
  { intros Hin%tokens_in. specialize (Hown h). lia. }
  mcbn. destruct Hb2 as [(y & xb & Hy & Hky & Hry & Hly & Hxb & Hbk) Hnl]. rewrite (get_some _ _ _ Hy). mcbn.
  eexists. split; [done|]. rewrite <- (set_build_none m h Hbu) at 1.
  assert (Hnd : h ∈ done m -> False).
  { intros Hd. destruct (s_done _ _ (proj2 Hi) _ Hd) as [? _]. unfold h in *. lia. }
  assert (Hi3 : inv (set_build (Some h) m) (bump (fun q => own q - tokens args q) h 1) st2).
  { eapply inv_ext; [|exact Hi2]. intros q _. unfold bump. lia. }
  destruct (status y =? status_active) eqn:Hst.
  - apply Z.eqb_eq in Hst. apply (inv_enqueue _ _ _ h y Hi3); [done|done|done|done|by left|by intros ?%Hnd].
  - apply Z.eqb_neq in Hst. apply (inv_unbuild _ _ _ h y Hi3); [done|done| |by intros ?%Hnd].
    intros [?|E]; [done|].
    destruct (waiting_body _ _ _ _ _ _ (proj2 Hi3) Hba Hy Hky Hry Hly Hxb) as (_ & En & _); [congruence|].
    pose proof (number_linked_nonneg (links xb)). unfold status_proxying_active in E. lia.
Qed.

(** * [when_all] *)

Lemma tokens_cons h l q : tokens (h :: l) q = ind (h = q) + tokens l q.
Proof. done. Qed.

Lemma tokens_app l k q : tokens (l ++ k) q = tokens l q + tokens k q.
Proof. apply lsum_app. Qed.

Lemma tokens_one h q : tokens [h] q = ind (h = q).
Proof. rewrite tokens_cons. cbn. lia. Qed.

Lemma tokens_perm l k q : l ≡ₚ k -> tokens l q = tokens k q.
Proof. induction 1; rewrite ?tokens_cons; lia. Qed.

#[export] Instance tokens_proper : Proper ((≡ₚ) ==> eq ==> eq) tokens.
Proof. intros l k Hp q ? <-. by apply tokens_perm. Qed.

Lemma drop_all_ok m own st l : inv m own st -> (forall q, tokens l q <= own q) ->
  exists st', drop_all l st = Ok st' /\ inv m (fun q => own q - tokens l q) st'.
Proof.
  revert own st. induction l as [|h l IH]; intros own st Hi Hown; cbn [drop_all].
  { exists st. split; [done|]. eapply inv_ext; [|done]. intros q _. cbn. lia. }
  assert (Ht : forall q, tokens (h :: l) q = ind (h = q) + tokens l q) by done.
  destruct (dropref_ok own st h Hi) as (st1 & -> & Hi1 & _).
  { intros q. specialize (Hown q). pose proof (tokens_nonneg (h :: l) q). lia. }
  { specialize (Hown h). rewrite Ht, ind_yes in Hown by done. pose proof (tokens_nonneg l h). lia. }
  mcbn. assert (Eq : forall q, bump own h (-1) q - tokens l q = own q - tokens (h :: l) q).
  { intros q. rewrite Ht. unfold bump, ind. repeat case_decide; subst; try done; lia. }
  destruct (IH _ _ Hi1) as (st2 & -> & Hi2).
  { intros q. specialize (Hown q). pose proof (Eq q). lia. }
  exists st2. split; [done|]. eapply inv_ext; [|exact Hi2]. intros q _. apply Eq.
Qed.

Lemma is_ready_ok own m st h : inv m own st -> 1 <= own h -> exists b, is_ready h st = Ok b.
Proof. intros Hi Ho. destruct (inv_live Hi h) as (x & Hx); [lia|]. unfold is_ready. rewrite (get_some _ _ _ Hx). mcbn. eauto. Qed.

Lemma find_empty_rep_ok own m st i args : inv m own st -> (forall h, h ∈ args -> 1 <= own h) -> args <> [] ->
  exists j c, find_empty_rep_ i args st = Ok (j, c) /\ (i <= j < i + length args)%nat.
Proof.
  intros Hi. revert i. induction args as [|a args IH]; intros i Ho Hne; [done|]. cbn [find_empty_rep_].
  destruct (is_ready_ok own m st a Hi) as (r & ->); [apply Ho; left|]. mcbn. destruct args as [|a' args].
  - cbn. do 2 eexists. split; [done|]. cbn. lia.
  - destruct (IH (S i)) as (j & c & -> & Hj); [intros; apply Ho; by right|done|]. mcbn.
    do 2 eexists. split; [done|]. destruct (c =? 0)%nat; cbn [length] in *; lia.
Qed.

Lemma ready_all_ok own m st rep i args : inv m own st -> (forall h, h ∈ args -> 1 <= own h) ->
  exists b, ready_all_but_rep_ rep i args st = Ok b.
Proof.
  intros Hi. revert i. induction args as [|a args IH]; intros i Ho; cbn [ready_all_but_rep_]; [by eexists|].
  destruct (is_ready_ok own m st a Hi) as (r & ->); [apply Ho; left|]. mcbn.
  destruct (IH (S i)) as (b & ->); [intros; apply Ho; by right|]. mcbn. by eexists.
Qed.

Lemma representative_bound i types all j : future_when_all_representative i types all = Some j ->
  (i <= j < i + length types)%nat.
Proof.
  revert i. induction types as [|t types IH]; intros i; cbn; [done|].
  case_decide; [intros [= <-]; lia|]. intros H1%IH. lia.
Qed.

Lemma steal_index_ok m own st i args : inv m own st -> (forall q, tokens args q <= own q) -> (i < length args)%nat ->
  exists h st', steal_index_ i args st = Ok (h, st') /\ inv m (bump (fun q => own q - tokens args q) h 1) st'.
Proof.
  intros Hi Hown Hlt. unfold steal_index_. destruct (lookup_lt_is_Some_2 args i Hlt) as [h Hh]. rewrite Hh. mcbn.
  assert (Et : forall q, tokens args q = tokens (take i args ++ drop (S i) args) q + ind (h = q)).
  { intros q. rewrite <- (take_drop_middle args i h Hh) at 1. rewrite !tokens_app, tokens_cons. lia. }
  destruct (drop_all_ok m own st (take i args ++ drop (S i) args) Hi) as (st' & -> & Hi').
  { intros q. specialize (Hown q). rewrite Et in Hown. pose proof (ind_nonneg (h = q)). lia. }
  mcbn. exists h, st'. split; [done|]. eapply inv_ext; [|exact Hi']. intros q _. specialize (Et q). unfold bump, ind in *.
  repeat case_decide; subst; try done; lia.
Qed.

Lemma when_all_ok m own st types args : inv m own st -> (forall q, tokens args q <= own q) ->
  build m = None -> bare m = None -> spare m = None -> loose m = [] -> next_h st ∈ pend m ->
  length types = length args ->
  exists h st', when_all types args st = Ok (h, st') /\ inv m (bump (fun q => own q - tokens args q) h 1) st'.
Proof.
  intros Hi Hown Hbu Hba Hsp Hlo Hpe Hlen.
  assert (Hmk : forall v, exists h st', make_header BIdentity v args st = Ok (h, st') /\
    inv m (bump (fun q => own q - tokens args q) h 1) st').
  { intros v. destruct (make_header_ok m own st BIdentity v args) as (st' & ? & ?); try done. by eexists _, st'. }
  assert (Hin : forall h, h ∈ args -> 1 <= own h).
  { intros h Hh%tokens_in. specialize (Hown h). lia. }
  unfold when_all.
  assert (Hrep : exists h st', match future_when_all_representative 0 types (concat types) with
      | Some rep =>
          b ← ready_all_but_rep_ rep 0 args st;
          if (b : bool) then steal_index_ rep args st else make_header BIdentity (Nat.eqb (length (concat types)) 0) args st
      | None => make_header BIdentity (Nat.eqb (length (concat types)) 0) args st
      end = Ok (h, st') /\ inv m (bump (fun q => own q - tokens args q) h 1) st').
  { destruct (future_when_all_representative 0 types (concat types)) as [rep|] eqn:Er; [|apply Hmk].
    apply representative_bound in Er.
    destruct (ready_all_ok own m st rep 0 args Hi Hin) as (b & ->). mcbn.
    destruct b; [|apply Hmk]. apply steal_index_ok; [done..|]. lia. }
  destruct (concat types) as [|t ts]; [|by destruct args].
  destruct args as [|a args]; [done|].
  destruct (find_empty_rep_ok own m st 0 (a :: args) Hi Hin) as (j & c & -> & Hj); [done|]. mcbn.
  destruct (c <=? 1)%nat; [|apply Hmk]. apply steal_index_ok; [done..|]. cbn [length] in *. lia.
Qed.

End Operations.
