(* ===== verification/FutureLeave.v ===== *)
(** Leaving the active state: the bodies of dependents run, their headers become
    ready, start to proxy another future, or die; the invariant of the heap holds
    after each, and a header that becomes ready has the value its body computed. *)
From S2P Require Import Prelude FutureCore FutureInvariant FutureUpdates FutureSafety.

Module Leaving.
Import Futures Invariant Updates Operations.

(** Dropping references does not look at bodies. *)
Definition with_bs (B : gmap bid future_body) (st : heap) : heap :=
  mk_heap (hs st) B (active st) (next_h st) (next_b st).

Lemma with_bs_twice B B' st : with_bs B (with_bs B' st) = with_bs B st.
Proof. done. Qed.

Lemma with_bs_same st : with_bs (bs st) st = st.
Proof. by destruct st. Qed.

Lemma dropref_result_bs B r st st' : dropref_result r st = Ok st' -> dropref_result r (with_bs B st) = Ok (with_bs B st').
Proof.
  unfold dropref_result, decref, get. cbn. destruct (hs st !! r) as [x|] eqn:Hr; [|done]. mcbn.
  destruct (0 <=? ref_n x); cbn [fst]; destruct (_ =? 0); unfold free, get; cbn; map_lookups; rewrite ?Hr; mcbn;
    by intros [= <-].
Qed.

Lemma drop_dependencies_bs B l st st' : drop_dependencies l st = Ok st' ->
  drop_dependencies l (with_bs B st) = Ok (with_bs B st').
Proof.
  revert st. induction l as [|lk l IH]; intros st; cbn [drop_dependencies]; [by intros [= <-]|].
  destruct (dropref_result (dep lk) st) as [st1| | |] eqn:Hd; try done. mcbn. intros H.
  rewrite (dropref_result_bs B _ _ _ Hd). mcbn. by apply IH.
Qed.

Lemma dropref_is_result st r : is_result st r -> dropref r st = dropref_result r st.
Proof.
  intros (x & Hx & Hk & Hr & Hl & Hv). unfold dropref, dropref_result, decref. rewrite (get_some _ _ _ Hx). mcbn.
  destruct (0 <=? ref_n x) eqn:Hz; cbn [fst].
  - case_match; [|done]. unfold delete1. rewrite get_put. mcbn. cbn. rewrite Hr, Z.eqb_refl. unfold result_of. cbn.
    rewrite Hl. mcbn. by rewrite Nat.eqb_refl.
  - apply Z.leb_gt in Hz. rewrite (proj2 (Z.eqb_neq _ 0)) by lia. done.
Qed.

(** The dependencies of a body that is served: all ready. *)
Lemma unlinked_results m own st h b x xb : inv m own st -> bare m = None -> hs st !! h = Some x -> kind x = KDependent ->
  active_status x -> load x = Body b -> bs st !! b = Some xb ->
  forall lk, lk ∈ links xb -> suc lk = None /\ is_result st (dep lk).
Proof.
  intros Hi Hba Hx Hk Hact Hl Hxb lk Hin.
  assert (Hnr : status x <> status_ready) by (destruct Hact as [-> | ->]; done).
  pose proof (s_header _ _ (proj2 Hi) _ _ Hx) as Hok. unfold header_ok in Hok. rewrite Hk, decide_False in Hok by done.
  destruct Hok as [?|(b' & xb' & ? & ? & [_ Hbok] & _)]; [congruence|].
  assert (b' = b) as -> by congruence. assert (xb' = xb) as -> by congruence.
  assert (Hsu : suc lk = None).
  { pose proof (number_linked_nonneg (links xb)).
    destruct (bkind xb).
    1-2: eapply number_linked_zero; [|done]; destruct Hact as [E|E]; rewrite E in Hbok;
         unfold status_active, status_proxying_active in *; lia.
    destruct Hbok as (lk' & El & Es). rewrite El in Hin. apply list_elem_of_singleton in Hin as ->.
    destruct (suc lk'); [|done]. destruct Hact as [E|E]; rewrite E in Es; done. }
  split; [done|]. apply list_elem_of_lookup in Hin as [i Hi'].
  assert (Hla : link_at st (b, i) = Some lk) by (unfold link_at; cbn; by rewrite Hxb).
  pose proof (s_link _ _ (proj2 Hi) _ _ Hla) as H1. by rewrite Hsu in H1.
Qed.

Definition detached (h : hid) (b : bid) (m : mode) : mode := set_spare (Some b) (set_bare (Some h) (set_build None m)).

(** The header keeps its count [n], to be settled; the references of the links are in hand. *)
Lemma detach_ok m own st h b x xb n : inv m own st -> build m = Some h -> bare m = None -> spare m = None ->
  hs st !! h = Some x -> kind x = KDependent -> active_status x -> load x = Body b -> bs st !! b = Some xb ->
  inv (detached h b m) (fun q => bump own h (n - ref_n x) q + links_in q (links xb))
    (with_bs (<[b := mk_body BProxy []]> (bs st)) (put h (set_ref n x) st)) /\ h <> always.
Proof.
  intros Hi Hbu Hba Hsp Hx Hk Hact Hl Hxb.
  assert (Hnr : status x <> status_ready) by (destruct Hact as [-> | ->]; done).
  assert (Ha : h <> always).
  { intros ->. destruct (inv_always Hi) as (y & Hy & _ & (z & Hz & ? & _) & _). congruence. }
  split; [|done].
  set (st1 := put_body b (mk_body BProxy []) st).
  assert (Hi1 : inv (detached h b m) (fun q => own q + links_in q (links xb)) st1).
  { split.
    - eapply counts_ext; [|apply (counts_mode (set_bare (Some h) m) (detached h b m) _ st1 st1); [|done..]].
      2: { pose proof (counts_put_body _ _ _ b xb (mk_body BProxy []) (proj1 Hi) Hxb) as [H1 H2 H3].
           split; [exact H1| |done]. intros q y Hy Hqa Hqh. cbn in *. apply (H2 q); [done..|]. by rewrite Hba. }
      intros q _. cbn. lia.
    - eapply (shape_detach (st' := st1) (proj2 Hi) Hbu Hba Hsp Hx Hk Hnr Hl Hxb); try done.
      intros lk Hin. by eapply unlinked_results. }
  assert (Hx1 : hs st1 !! h = Some x) by done.
  pose proof (inv_set_ref _ _ _ _ _ n Hi1 Hx1 Ha (or_intror eq_refl)) as Hi2.
  eapply inv_ext; [|exact Hi2]. intros q _. unfold bump. lia.
Qed.

(** The bare header dies early. *)
Lemma free_bare_ok m own st h x : inv m own st -> bare m = Some h -> run m <> Some h -> build m <> Some h ->
  hs st !! h = Some x -> h <> always ->
  kind x = KDependent -> status x <> status_ready -> ref_n x - 1 <= own h ->
  exists st', free h st = Ok st' /\ inv (set_bare None m) (bump own h (1 - ref_n x)) st' /\
    hs st' !! h = None.
Proof.
  intros Hi Hb Hru Hbu Hx Ha Hk Hnr Ho. unfold free. rewrite (get_some _ _ _ Hx). mcbn. eexists. split; [done|].
  destruct (inv_no_ref Hi _ _ Hx Ha) as [Hl Hr]; [rewrite pending_one by done; lia|]. split; [split|].
  - eapply counts_ext; [|apply (counts_free m (set_bare None m) _ _ h x _ (proj1 Hi) Hx Ha); try done; by right].
    intros q _. cbn. rewrite shares_zero by by right. rewrite pending_one by done. unfold bump. case_decide; lia.
  - eapply (shape_free (m := m) (proj2 Hi) Hx Ha Hl Hr); try done; [intros; by right|by right].
  - cbn. apply lookup_delete_eq.
Qed.

Lemma free_spare_ok m own st b xb : inv m own st -> spare m = Some b -> bs st !! b = Some xb ->
  free_body b st = Ok (with_bs (delete b (bs st)) st) /\ inv (set_spare None m) own (with_bs (delete b (bs st)) st).
Proof.
  intros Hi Hsp Hxb. split; [unfold free_body, get_body; by rewrite Hxb|]. split.
  - apply (counts_mode m _ _ (with_bs (delete b (bs st)) st)); [|done..].
    eapply counts_ext; [|eapply (counts_free_body _ _ _ b xb (with_bs (delete b (bs st)) st) (proj1 Hi) Hxb); done].
    intros q _. cbn. rewrite (spare_links (proj2 Hi) Hsp Hxb). unfold links_in. cbn. lia.
  - eapply (shape_free_spare (proj2 Hi) Hsp Hxb); done.
Qed.

Lemma links_in_pos l lk : lk ∈ l -> 1 <= links_in (dep lk) l.
Proof.
  intros [i Hi]%list_elem_of_lookup.
  pose proof (lsum_lookup_le (fun k => ind (dep k = dep lk)) l i lk (fun _ => ind_nonneg _) Hi) as H1.
  cbn in H1. rewrite ind_yes in H1 by done. done.
Qed.

Lemma links_in_zero l q : (forall lk, lk ∈ l -> dep lk <> q) -> links_in q l = 0.
Proof. intros H. apply lsum_zero. intros lk Hlk. apply ind_no. by apply H. Qed.

(** A header that is served, with its body [b]. *)
Definition served (m : mode) (st : heap) (h : hid) (b : bid) (x : future_header) (xb : future_body) : Prop :=
  build m = Some h /\ bare m = None /\ spare m = None /\ loose m = [] /\ run m = None /\
  hs st !! h = Some x /\ kind x = KDependent /\ active_status x /\ load x = Body b /\ bs st !! b = Some xb.

(** The dependencies of a served body are dropped; its memory stays. *)
Lemma serve_ok m own st h b x xb n : inv m own st -> served m st h b x xb -> (forall q, 0 <= own q) ->
  exists st1, drop_dependencies (links xb) (put h (set_ref n x) st) = Ok st1 /\ bs st1 = bs st /\
    shrinks (put h (set_ref n x) st) st1 /\
    hs st1 !! h = Some (set_ref n x) /\ h <> always /\
    inv (detached h b m) (bump own h (n - ref_n x)) (with_bs (<[b := mk_body BProxy []]> (bs st)) st1).
Proof.
  intros Hi (Hbu & Hba & Hsp & Hlo & Hru & Hx & Hk & Hact & Hl & Hxb) Hown.
  destruct (detach_ok m own st h b x xb n Hi Hbu Hba Hsp Hx Hk Hact Hl Hxb) as [Hi1 Ha].
  pose proof (unlinked_results m own st h b x xb Hi Hba Hx Hk Hact Hl Hxb) as Hun.
  set (B := <[b := mk_body BProxy []]> (bs st)) in *. set (st0 := put h (set_ref n x) st) in *.
  assert (Hnh : ~ is_result (with_bs B st0) h).
  { intros (y & Hy & Hky & _). cbn in Hy. rewrite lookup_insert_eq in Hy. injection Hy as <-. done. }
  assert (Hdh : forall lk, lk ∈ links xb -> is_result (with_bs B st0) (dep lk)).
  { intros lk Hin. destruct (Hun lk Hin) as (_ & y & Hy & Hky & ?). exists y. cbn.
    rewrite lookup_insert_ne; [done|]. intros E. rewrite <- E in Hy. congruence. }
  destruct (drop_dependencies_ok _ _ (links xb) Hi1) as (st1 & Hd & Hi2 & Hsh & Ho).
  { intros lk Hin. split; [by apply Hdh|]. rewrite bump_ne; [specialize (Hown (dep lk)); lia|].
    intros E. apply Hnh. rewrite <- E. by apply Hdh. }
  exists (with_bs (bs st) st1). split_and!; try done.
  - apply (drop_dependencies_bs (bs st)) in Hd. exact Hd.
  - destruct Hsh as [H1 H2 H3 H4 H5]. by split.
  - cbn. rewrite Ho by done. cbn. by rewrite lookup_insert_eq.
  - rewrite with_bs_twice. replace (with_bs B st1) with st1.
    + eapply inv_ext; [|exact Hi2]. intros q _. cbn beta. lia.
    + pose proof (k_bodies _ _ Hsh) as E. cbn in E. rewrite <- E. by rewrite with_bs_same.
Qed.

Lemma put_same h x st : hs st !! h = Some x -> put h x st = st.
Proof. intros Hx. unfold put. rewrite insert_id by done. by destruct st. Qed.

Lemma detached_none h b m : build m = Some h -> bare m = None -> spare m = None ->
  set_bare None (set_spare None (detached h b m)) = set_build None m.
Proof. intros H1 H2 H3. destruct m. cbn in *. by subst. Qed.

(** Every dependency of a served body has results. *)
Lemma dependency_results_ok st l : (forall lk, lk ∈ l -> is_result st (dep lk)) ->
  exists v, dependency_results l st = Ok v.
Proof.
  induction l as [|lk l IH]; intros H; cbn [dependency_results]; [by eexists|].
  destruct (H lk) as (x & Hx & _ & _ & _ & Hv); [left|]. rewrite (get_some _ _ _ Hx). mcbn.
  destruct (results x); [|done]. mcbn. destruct IH as (w & ->); [intros; apply H; by right|]. mcbn. by eexists.
Qed.

(** The memory of the body is freed. *)
Lemma free_served_ok m own st h b x xb st1 : served m st h b x xb -> bs st1 = bs st ->
  inv (detached h b m) own (with_bs (<[b := mk_body BProxy []]> (bs st)) st1) ->
  exists st2, free_body b st1 = Ok st2 /\ inv (set_spare None (detached h b m)) own st2 /\ hs st2 = hs st1 /\
    st2 = with_bs (delete b (bs st)) st1.
Proof.
  intros (_ & _ & _ & _ & _ & _ & _ & _ & _ & Hxb) Eb Hi.
  destruct (free_spare_ok _ _ _ b (mk_body BProxy []) Hi eq_refl) as [_ Hi2]; [cbn; by rewrite lookup_insert_eq|].
  exists (with_bs (delete b (bs st)) st1). split_and!; try done.
  - unfold free_body, get_body. rewrite Eb, Hxb. done.
  - cbn in Hi2. rewrite delete_insert_eq in Hi2. exact Hi2.
Qed.

(** * Values *)

(** If [h] is still there, it is ready and its value is [v]. *)
Definition has_value (st : heap) (h : hid) (v : val) : Prop :=
  forall x, hs st !! h = Some x -> exists r xr, status x = status_ready /\ load x = Result r /\
    hs st !! r = Some xr /\ results xr = Some v.

Lemma has_value_gone st h v : hs st !! h = None -> has_value st h v.
Proof. intros E x Hx. congruence. Qed.

(** A value that was seen stays: it may be recorded in the mode, and forgotten. *)
Lemma inv_see m own st h v : inv m own st -> (h < next_h st)%nat -> has_value st h v ->
  inv (set_vals (<[h := v]> (vals m)) m) own st.
Proof.
  intros [Hc Hs] Hlt Hv. split; [by eapply counts_mode|].
  eapply shape_mode; try done; try apply Hs.
  cbn. intros r w. rewrite lookup_insert. case_decide; [intros [= <-]; subst; by split|]. apply Hs.
Qed.

Lemma inv_forget m own st W : inv m own st -> W ⊆ vals m -> inv (set_vals W m) own st.
Proof.
  intros [Hc Hs] HW. split; [by eapply counts_mode|].
  eapply shape_mode; try done; try apply Hs.
  cbn. intros r w Hr. apply Hs. by eapply lookup_weaken.
Qed.

Lemma inv_value m own st h v : inv m own st -> vals m !! h = Some v -> has_value st h v.
Proof. intros Hi Hv. exact (proj2 (s_vals _ _ (proj2 Hi) _ _ Hv)). Qed.

Lemma is_result_value st r x v : is_result st r -> hs st !! r = Some x -> results x = Some v -> has_value st r v.
Proof. intros (y & Hy & _ & ? & ? & _) Hx Hv z Hz. exists r, x. split_and!; congruence. Qed.

(** A header without references left dies. *)
Lemma die_ok m own st h b x xb st1 : served m st h b x xb -> h <> always ->
  inv (set_spare None (detached h b m)) (bump own h (- ref_n x)) st1 -> hs st1 !! h = Some (set_ref 0 x) ->
  ref_n x - 1 <= own h -> exists st2, free h st1 = Ok st2 /\ inv (set_build None m) (bump own h (1 - ref_n x)) st2 /\
  hs st2 !! h = None.
Proof.
  intros (Hbu & Hba & Hsp & Hlo & Hru & Hx & Hk & Hact & Hl & Hxb) Ha Hi Hh Ho.
  destruct (free_bare_ok _ _ _ h (set_ref 0 x) Hi) as (st2 & Hf & Hi2 & Hg); try done.
  - cbn. by rewrite Hru.
  - cbn. destruct Hact as [-> | ->]; done.
  - rewrite bump_eq. cbn. lia.
  - exists st2. split; [done|]. rewrite detached_none in Hi2 by done. split.
    + eapply inv_ext; [|exact Hi2]. intros q _. unfold bump. cbn. case_decide; lia.
    + exact Hg.
Qed.

(** A header with references left becomes ready. *)
Lemma become_ready_ok m own st h b x xb st1 r n : served m st h b x xb -> h <> always ->
  inv (set_spare None (detached h b m)) (bump own h (- 1)) st1 -> hs st1 !! h = Some (set_ref n x) ->
  0 < n -> 0 <= own h -> is_result st1 r ->
  exists st2, enter_ready h r st1 = Ok st2 /\ inv (set_build None m) (bump own r (-1)) st2 /\
    (forall x', hs st2 !! h = Some x' -> status x' = status_ready /\ load x' = Result r).
Proof.
  intros (Hbu & Hba & Hsp & Hlo & Hru & Hx & Hk & Hact & Hl & Hxb) Ha Hi Hh Hn Ho Hres.
  rewrite <- (put_same h (set_ref n x) st1 Hh).
  destruct (enter_ready_ok _ _ st1 h r (set_ref n x) (set_ref n x) Hi) as (st2 & He & Hi2 & Hst2); try done.
  - cbn. destruct Hact as [-> | ->]; done.
  - by left.
  - intros _. split_and!; [done|done|]. rewrite bump_eq. lia.
  - exists st2. split; [done|]. rewrite detached_none in Hi2 by done. split.
    + rewrite decide_True in Hi2 by done. eapply inv_ext; [|exact Hi2]. intros q _. unfold bump. repeat case_decide; lia.
    + intros x' Hx'. destruct (Hst2 _ Hx') as (E1 & _ & E2 & _). cbn in E1, E2. by rewrite <- E1, <- E2.
Qed.

Lemma become_ready_value m own st h b x xb st1 r n v : served m st h b x xb -> h <> always ->
  inv (set_spare None (detached h b m)) (bump own h (- 1)) st1 -> hs st1 !! h = Some (set_ref n x) ->
  0 < n -> 0 <= own h -> is_result st1 r -> (forall y, hs st1 !! r = Some y -> results y = Some v) ->
  exists st2, enter_ready h r st1 = Ok st2 /\ inv (set_build None m) (bump own r (-1)) st2 /\ has_value st2 h v.
Proof.
  intros Hsv Ha Hi Hh Hn Ho Hres Hval. pose proof Hsv as (Hbu & Hba & Hsp & Hlo & Hru & Hx & Hk & Hact & Hl & Hxb).
  assert (Hlt : (r < next_h st1)%nat).
  { destruct (decide (r < next_h st1)%nat) as [|Hge]; [done|]. destruct Hres as (y & Hy & _).
    rewrite (proj1 (s_fresh _ _ (proj2 Hi))) in Hy by lia. done. }
  assert (Hv : has_value st1 r v).
  { intros y Hy. apply (is_result_value _ _ _ _ Hres Hy (Hval _ Hy) y Hy). }
  pose proof (inv_see _ _ _ _ _ Hi Hlt Hv) as Hi1.
  destruct (become_ready_ok m own st h b x xb st1 r n Hsv Ha Hi Hh Hn Ho Hres) as (st2 & He & Hi2 & Hst2).
  set (m1 := set_vals (<[r := v]> (vals m)) m).
  assert (Hsv1 : served m1 st h b x xb) by done.
  destruct (become_ready_ok m1 own st h b x xb st1 r n Hsv1 Ha Hi1 Hh Hn Ho Hres) as (st2' & He' & Hi2' & _).
  assert (st2' = st2) as -> by congruence. exists st2. split_and!; [done|done|].
  intros y Hy. destruct (Hst2 y Hy) as [Hry Hly].
  destruct (inv_ready Hi2' _ _ Hy Hry) as (_ & r' & Hl' & (z & Hz & _) & _). assert (r' = r) as -> by congruence.
  destruct (inv_value _ _ _ r v Hi2' ltac:(cbn; by rewrite lookup_insert_eq) z Hz) as (r1 & xr & Hrz & Hlz & Hr1 & Hv1).
  exists r, z. split_and!; try done.
  destruct (inv_ready Hi2' _ _ Hy Hry) as (_ & r' & Hl'' & (z' & Hz' & Hkz & _ & Hlz' & _) & _).
  assert (r' = r) as -> by congruence. assert (z' = z) as -> by congruence.
  assert (r1 = r) as -> by congruence. congruence.
Qed.

(** The count of a served header. *)
Lemma served_ref m own st h b x xb : inv m own st -> served m st h b x xb -> 0 <= own h -> own h + 1 <= ref_n x.
Proof.
  intros Hi (Hbu & Hba & Hsp & Hlo & Hru & Hx & Hk & Hact & Hl & Hxb) Ho.
  assert (Ha : h <> always).
  { intros ->. destruct (inv_always Hi) as (y & Hy & _ & (z & Hz & ? & _) & _). congruence. }
  pose proof (inv_ref_nonneg Hi _ _ Hx Ha Ho) as H. rewrite pending_one in H; [done|done|].
  destruct Hact as [-> | ->]; done.
Qed.

Lemma new_result_put v h x y st : hs st !! h = Some y -> (forall q, (next_h st <= q)%nat -> hs st !! q = None) ->
  (new_result v (put h x st)).2 = put h x (new_result v st).2.
Proof.
  intros Hy Hf. unfold new_result, alloc, put. cbn. rewrite insert_insert_ne; [done|]. intros E.
  rewrite <- E, Hf in Hy by done. done.
Qed.

Lemma served_new_result m own st h b x xb v : inv m own st -> served m st h b x xb ->
  served m (new_result v st).2 h b x xb.
Proof.
  intros Hi (Hbu & Hba & Hsp & Hlo & Hru & Hx & Hk & Hact & Hl & Hxb). split_and!; try done. cbn.
  rewrite lookup_insert_ne; [done|]. intros E. rewrite <- E in Hx.
  rewrite (proj1 (s_fresh _ _ (proj2 Hi))) in Hx by done. done.
Qed.

Lemma served_value m own st h b x xb n : inv m own st -> served m st h b x xb ->
  exists v, dependency_results (links xb) (put h (set_ref n x) st) = Ok v /\ dependency_results (links xb) st = Ok v.
Proof.
  intros Hi (Hbu & Hba & Hsp & Hlo & Hru & Hx & Hk & Hact & Hl & Hxb).
  pose proof (unlinked_results m own st h b x xb Hi Hba Hx Hk Hact Hl Hxb) as Hun.
  destruct (dependency_results_ok st (links xb)) as (v & Hv); [intros; by apply Hun|]. exists v. split; [|done].
  rewrite <- Hv. clear Hv. induction (links xb) as [|lk l IH]; cbn [dependency_results]; [done|].
  destruct (Hun lk) as (_ & y & Hy & Hky & _); [left|]. rewrite (get_some _ _ _ Hy).
  rewrite (get_some (dep lk) y (put h (set_ref n x) st)).
  - rewrite IH; [done|]. intros lk' Hin. apply Hun. by right.
  - cbn. rewrite lookup_insert_ne; [done|]. intros E. rewrite <- E in Hy. congruence.
Qed.

(** [future_body_identity::leave_active] *)
Lemma leave_identity_ok m own st h b x xb : inv m own st -> served m st h b x xb -> (forall q, 0 <= own q) ->
  exists st' v, leave_identity h b st = Ok st' /\ inv (set_build None m) own st' /\
    dependency_results (links xb) st = Ok v /\ has_value st' h v.
Proof.
  intros Hi Hsv Hown. pose proof Hsv as (Hbu & Hba & Hsp & Hlo & Hru & Hx & Hk & Hact & Hl & Hxb).
  pose proof (served_ref _ _ _ _ _ _ _ Hi Hsv (Hown h)) as Hge. pose proof (Hown h) as Hoh.
  destruct (served_value _ _ _ _ _ _ _ (ref_n x - 1) Hi Hsv) as (v & Hv & Hv0).
  unfold leave_identity, get_body. rewrite Hxb. mcbn. unfold decref. rewrite (get_some _ _ _ Hx). mcbn.
  rewrite (proj2 (Z.leb_le 0 (ref_n x))) by lia. cbn [fst]. destruct (ref_n x - 1 =? 0) eqn:Hz.
  - apply Z.eqb_eq in Hz. rewrite Hz.
    destruct (serve_ok m own st h b x xb 0 Hi Hsv Hown) as (st1 & -> & Eb & Hsh & Hh & Ha & Hi1). mcbn.
    destruct (free_served_ok _ _ _ _ _ _ _ _ Hsv Eb Hi1) as (st2 & -> & Hi2 & Ehs & _). mcbn.
    destruct (die_ok m own st h b x xb st2 Hsv Ha) as (st3 & -> & Hi3 & Hg);
      [by replace (- ref_n x) with (0 - ref_n x) by lia|congruence|lia|].
    exists st3, v. split_and!; [done| |done|by apply has_value_gone].
    eapply inv_ext; [|exact Hi3]. intros q _. unfold bump. case_decide; lia.
  - apply Z.eqb_neq in Hz. rewrite Hv. mcbn.
    destruct (new_result_ok _ _ _ v Hi) as (Hi0 & _ & Hres & Hra).
    pose proof (served_new_result _ _ _ _ _ _ _ v Hi Hsv) as Hsv0.
    destruct (serve_ok m _ _ h b x xb (ref_n x - 1) Hi0 Hsv0) as (st1 & Hd & Eb & Hsh & Hh & Ha & Hi1).
    { intros q. specialize (Hown q). unfold bump. case_decide; lia. }
    rewrite (surjective_pairing (new_result v (put h _ st))).
    rewrite (new_result_put v h _ x st Hx (proj1 (s_fresh _ _ (proj2 Hi)))). rewrite Hd. mcbn.
    destruct (free_served_ok _ _ _ _ _ _ _ _ Hsv0 Eb Hi1) as (st2 & -> & Hi2 & Ehs & _). mcbn.
    assert (Hnh : next_h st <> h).
    { intros E. rewrite <- E in Hx. rewrite (proj1 (s_fresh _ _ (proj2 Hi))) in Hx by done. done. }
    assert (Hres2 : is_result st2 (next_h st)).
    { assert (is_result (put h (set_ref (ref_n x - 1) x) (new_result v st).2) (next_h st)) as Hres1.
      { destruct Hres as (y & Hy & ?). exists y. cbn in *. by rewrite lookup_insert_ne. }
      destruct (is_result_shrinks _ _ _ Hres1 Hsh) as (y & Hy & ?).
      - rewrite <- Ehs. apply (inv_live Hi2). rewrite bump_ne, bump_eq by done. specialize (Hown (next_h st)). lia.
      - exists y. by rewrite Ehs. }
    destruct (become_ready_value m (bump own (next_h st) 1) st h b x xb st2 (next_h st) (ref_n x - 1) v Hsv Ha)
      as (st3 & He & Hi3 & Hv3); try done; [|congruence|lia|rewrite bump_ne by done; lia| |].
    { eapply inv_ext; [|exact Hi2]. intros q _. unfold bump. repeat case_decide; lia. }
    { rewrite Ehs. intros y Hy. destruct (k_back _ _ Hsh _ _ Hy) as (z & Hz1 & (_ & _ & _ & _ & _ & <-)).
      cbn in Hz1. rewrite lookup_insert_ne, lookup_insert_eq in Hz1 by done. by injection Hz1 as <-. }
    cbn [fst new_result alloc]. cbn [next_h put]. rewrite He.
    exists st3, v. split_and!; [done| |done|done]. eapply inv_ext; [|exact Hi3]. intros q _. unfold bump. case_decide; lia.
Qed.

Lemma is_result_put st h x n r : hs st !! h = Some x -> kind x = KDependent -> is_result st r ->
  is_result (put h (set_ref n x) st) r.
Proof.
  intros Hx Hk (y & Hy & Hky & ?). exists y. cbn. rewrite lookup_insert_ne; [done|]. intros E. rewrite <- E in Hy. congruence.
Qed.

(** [future_body_proxy::leave_active] *)
Lemma leave_proxy_ok m own st h b x xb : inv m own st -> served m st h b x xb -> bkind xb = BProxy ->
  (forall q, 0 <= own q) -> exists st' v, leave_proxy h b st = Ok st' /\ inv (set_build None m) own st' /\
    dependency_results (links xb) st = Ok v /\ has_value st' h v.
Proof.
  intros Hi Hsv Hbk Hown. pose proof Hsv as (Hbu & Hba & Hsp & Hlo & Hru & Hx & Hk & Hact & Hl & Hxb).
  pose proof (served_ref _ _ _ _ _ _ _ Hi Hsv (Hown h)) as Hge. pose proof (Hown h) as Hoh.
  pose proof (unlinked_results m own st h b x xb Hi Hba Hx Hk Hact Hl Hxb) as Hun.
  assert (exists lk, links xb = [lk]) as (lk & El).
  { pose proof (s_header _ _ (proj2 Hi) _ _ Hx) as Hok. unfold header_ok in Hok. rewrite Hk, decide_False in Hok
      by (destruct Hact as [-> | ->]; done).
    destruct Hok as [?|(b' & xb' & ? & ? & [_ Hbok] & _)]; [congruence|]. assert (b' = b) as -> by congruence.
    assert (xb' = xb) as -> by congruence. rewrite Hbk in Hbok. destruct Hbok as (lk & ? & _). by exists lk. }
  destruct (Hun lk) as [_ Hres]; [rewrite El; left|].
  assert (exists z v, hs st !! dep lk = Some z /\ results z = Some v) as (z & v & Hz0 & Hv).
  { destruct Hres as (z & Hz0 & _ & _ & _ & Hv). destruct (results z) as [v|] eqn:E; [by exists z, v|done]. }
  assert (Hdv : dependency_results (links xb) st = Ok v).
  { rewrite El. cbn. rewrite (get_some _ _ _ Hz0). mcbn. rewrite Hv. mcbn. by rewrite app_nil_r. }
  unfold leave_proxy, decref. rewrite (get_some _ _ _ Hx). mcbn.
  rewrite (proj2 (Z.leb_le 0 (ref_n x))) by lia. cbn [fst]. set (st0 := put h (set_ref (ref_n x - 1) x) st).
  assert (Hg : get_link (b, O) st0 = Ok lk).
  { unfold get_link, get_body. cbn. rewrite Hxb. mcbn. by rewrite El. }
  rewrite Hg. mcbn. destruct (ref_n x - 1 =? 0) eqn:Hz; cbn [negb].
  - apply Z.eqb_eq in Hz. unfold st0. rewrite Hz.
    destruct (serve_ok m own st h b x xb 0 Hi Hsv Hown) as (st1 & Hd & Eb & Hsh & Hh & Ha & Hi1).
    rewrite El in Hd. cbn in Hd. rewrite (dropref_is_result _ _ (is_result_put _ _ _ 0 _ Hx Hk Hres)).
    destruct (dropref_result (dep lk) (put h (set_ref 0 x) st)) as [st1'| | |] eqn:Hd'; try done.
    cbn in Hd. injection Hd as ->. mcbn.
    destruct (free_served_ok _ _ _ _ _ _ _ _ Hsv Eb Hi1) as (st2 & -> & Hi2 & Ehs & _). mcbn.
    destruct (die_ok m own st h b x xb st2 Hsv Ha) as (st3 & -> & Hi3 & Hgone);
      [by replace (- ref_n x) with (0 - ref_n x) by lia|congruence|lia|].
    exists st3, v. split_and!; [done| |done|by apply has_value_gone].
    eapply inv_ext; [|exact Hi3]. intros q _. unfold bump. case_decide; lia.
  - apply Z.eqb_neq in Hz.
    destruct (detach_ok m own st h b x xb (ref_n x - 1) Hi Hbu Hba Hsp Hx Hk Hact Hl Hxb) as [Hi1 Ha].
    destruct (free_served_ok m _ st h b x xb st0 Hsv eq_refl Hi1) as (st2 & -> & Hi2 & Ehs & Est2). mcbn.
    destruct (become_ready_value m (bump own (dep lk) 1) st h b x xb st2 (dep lk) (ref_n x - 1) v Hsv Ha)
      as (st3 & He & Hi3 & Hv3); try done.
    + eapply inv_ext; [|exact Hi2]. intros q _. cbn beta. rewrite El. unfold links_in, bump, ind. cbn.
      unfold ind. repeat case_decide; subst; try done; lia.
    + rewrite Ehs. cbn. by rewrite lookup_insert_eq.
    + lia.
    + unfold bump. case_decide; lia.
    + destruct (is_result_put _ _ _ (ref_n x - 1) _ Hx Hk Hres) as (y & ?). exists y. by rewrite Ehs.
    + rewrite Ehs. intros y Hy. unfold st0, put in Hy. cbn in Hy. rewrite lookup_insert_ne in Hy; [congruence|].
      intros E. destruct Hres as (z' & Hz' & ? & _). congruence.
    + exists st3, v. split_and!; [done| |done|done]. eapply inv_ext; [|exact Hi3]. intros q _. unfold bump. case_decide; lia.
Qed.

(** * Proxying *)

#[export] Instance same_body_equivalence : Equivalence same_body.
Proof. split; unfold same_body; [done|intros x y ?|intros x y z ? ?]; intuition congruence. Qed.

Lemma redirect_ok m own st h p pr : counts m own st -> NoDup pr -> h <> p ->
  (forall l, l ∈ pr -> exists lk, link_at st l = Some lk /\ dep lk = h) ->
  exists st', redirect p pr st = Ok st' /\ hs st' = hs st /\ active st' = active st /\ next_h st' = next_h st /\
    next_b st' = next_b st /\
    (forall l, link_at st' l = if decide (l ∈ pr) then (fun lk => mk_link p (suc lk)) <$> link_at st l else link_at st l) /\
    (forall c, option_Forall2 same_body (bs st !! c) (bs st' !! c)) /\
    counts m (bump (bump own h (Z.of_nat (length pr))) p (- Z.of_nat (length pr))) st'.
Proof.
  revert own st. induction pr as [|[b i] pr IH]; intros own st Hc Hnd Hhp Hpr; cbn [redirect].
  { exists st. split_and!; try done.
    eapply counts_ext; [|exact Hc]. intros q _. unfold bump. cbn. repeat case_decide; lia. }
  apply NoDup_cons in Hnd as [Hnin Hnd]. destruct (Hpr (b, i)) as (lk & Hlk & Hd); [left|].
  pose proof Hlk as (xb & Hb & Hi)%link_at_body.
  unfold get_link, put_link, get_body. cbn [fst snd]. rewrite Hb. mcbn. rewrite Hi. mcbn.
  set (xb' := mk_body (bkind xb) (<[i := mk_link p (suc lk)]> (links xb))).
  assert (Hla : forall l, link_at (put_body b xb' st) l =
    if decide (l = (b, i)) then Some (mk_link p (suc lk)) else link_at st l).
  { intros [c j]. unfold link_at. cbn. destruct (decide (c = b)) as [->|].
    - rewrite lookup_insert_eq. cbn. case_decide as E.
      + injection E as ->. rewrite list_lookup_insert_eq; [done|]. by eapply lookup_lt_Some.
      + rewrite list_lookup_insert_ne by congruence. by rewrite Hb.
    - rewrite lookup_insert_ne, decide_False by congruence. done. }
  destruct (IH _ (put_body b xb' st) (counts_put_body _ _ _ b xb xb' Hc Hb) Hnd Hhp)
    as (st' & -> & Eh & Ea & En & Enb & Hla' & Hbo & Hc').
  { intros l Hin. rewrite Hla, decide_False by (by intros ->). apply Hpr. by right. }
  exists st'. split_and!; try done.
  - intros l. rewrite Hla', Hla. destruct (decide (l = (b, i))) as [->|Hne].
    + rewrite decide_False by done. rewrite decide_True by left. by rewrite Hlk.
    + destruct (decide (l ∈ pr)); [rewrite decide_True by by right|rewrite decide_False by (by intros [?|?]%elem_of_cons)]; done.
  - intros c. specialize (Hbo c). cbn in Hbo. destruct (decide (c = b)) as [->|].
    + rewrite lookup_insert_eq in Hbo. rewrite Hb. inversion Hbo as [? y Hs|]; subst. constructor. etrans; [|exact Hs].
      split; [done|]. cbn. rewrite list_fmap_insert. cbn. rewrite list_insert_id; [done|].
      by rewrite list_lookup_fmap, Hi.
    + by rewrite lookup_insert_ne in Hbo.
  - eapply counts_ext; [|exact Hc']. intros q _. unfold bump, links_in. cbn [length bkind links xb'].
    rewrite (lsum_insert _ _ _ _ _ Hi). cbn. rewrite Hd. unfold ind. repeat case_decide; subst; try done; lia.
Qed.

Lemma split_proxies_ok st l : (forall k, k ∈ l -> exists lk s xs, link_at st k = Some lk /\ suc lk = Some s /\
    hs st !! s = Some xs) ->
  exists pr rest, split_proxies l st = Ok (pr, rest) /\ l ≡ₚ pr ++ rest /\
    (forall k lk s xs, k ∈ l -> link_at st k = Some lk -> suc lk = Some s -> hs st !! s = Some xs ->
      (status xs = status_proxying -> k ∈ pr) /\ (status xs <> status_proxying -> k ∈ rest)).
Proof.
  induction l as [|k l IH]; intros Hl; cbn [split_proxies].
  { exists [], []. split_and!; done. }
  destruct (Hl k) as (lk & s & xs & Hlk & Hs & Hxs); [left|].
  destruct k as [b i]. pose proof Hlk as (xb & Hb & Hi)%link_at_body.
  unfold get_link, get_body. cbn [fst snd]. rewrite Hb. mcbn. rewrite Hi. mcbn. rewrite Hs. mcbn.
  rewrite (get_some _ _ _ Hxs). mcbn. destruct IH as (pr & rest & -> & Hp & Hk); [intros; apply Hl; by right|]. mcbn.
  assert (Hk' : forall lk' s' xs', link_at st (b, i) = Some lk' -> suc lk' = Some s' -> hs st !! s' = Some xs' -> xs' = xs).
  { intros. congruence. }
  destruct (status xs =? status_proxying) eqn:Hz; [apply Z.eqb_eq in Hz|apply Z.eqb_neq in Hz].
  - exists ((b, i) :: pr), rest. split_and!; [done|by rewrite Hp|].
    intros k lk' s' xs' [->|Hin]%elem_of_cons ? ? ?; [rewrite (Hk' lk' s' xs') by done; split; [by left|done]|].
    destruct (Hk _ _ _ _ Hin H H0 H1) as [H2 H3]. split; intros; [right; auto|auto].
  - exists pr, ((b, i) :: rest). split_and!; [done|rewrite Hp; by rewrite Permutation_middle|].
    intros k lk' s' xs' [->|Hin]%elem_of_cons ? ? ?; [rewrite (Hk' lk' s' xs') by done; split; [done|by left]|].
    destruct (Hk _ _ _ _ Hin H H0 H1) as [H2 H3]. split; intros; [auto|right; auto].
Qed.

Lemma put_put h p x x1 y y1 st : h <> p ->
  hs (put h x (put p y (put h x1 (put p y1 st)))) = <[h := x]> (<[p := y]> (hs st)).
Proof.
  intros Hne. cbn. apply map_eq. intros q. destruct (decide (q = h)) as [->|]; [by map_lookups|].
  destruct (decide (q = p)) as [->|]; by map_lookups.
Qed.

(** The header proxies one that is not ready. *)
Definition proxies (h : hid) (b : bid) (p : hid) (x xp : future_header) (st : heap) : res heap :=
  '(pr, rest) ← split_proxies (sucs x) st;
  st ← redirect p pr st;
  let n := Z.of_nat (length pr) in
  let this_refs := ref_n x - n in
  let proxied_refs := if this_refs =? 0 then ref_n xp + n - 1 else ref_n xp + n in
  let xp := set_sucs (rev pr ++ sucs xp) (if 0 <=? ref_n xp then set_ref proxied_refs xp else xp) in
  let st := put p xp st in
  let x := set_status status_proxying (set_sucs rest x) in
  let st := put h x st in
  if this_refs =? 0 then
    st ← free_body b st; free h st
  else
    let st := put_body b (mk_body BProxy [mk_link p (Some h)]) st in
    let st := put p (set_sucs ((b, O) :: sucs xp) xp) st in
    Ok (put h (set_ref this_refs (set_load (Body b) x)) st).

Lemma proxies_ok m own st h b p x xp xb : inv m own st -> bare m = Some h -> spare m = Some b -> loose m = [] ->
  hs st !! h = Some x -> kind x = KDependent -> status x <> status_ready -> bs st !! b = Some xb -> 0 <= own h ->
  p <> h -> hs st !! p = Some xp -> status xp <> status_ready ->
  status xp <> status_proxying -> status xp <> status_proxying_active ->
  exists st', proxies h b p x xp st = Ok st' /\ inv (set_spare None (set_bare None m)) (bump own p (-1)) st'.
Proof.
  intros Hi Hba Hsp Hlo Hx Hk Hnr Hxb Ho Hph Hxp Hpnr Hp2 Hp3. unfold proxies.
  assert (Hha : h <> always).
  { intros ->. destruct (inv_always Hi) as (y & Hy & _ & (z & Hz & ? & _) & _). congruence. }
  assert (Hpa : p <> always).
  { intros ->. destruct (inv_always Hi) as (y & Hy & _ & (z & Hz & _ & ? & _) & _). congruence. }
  assert (Hpp : 0 < ref_n xp) by (apply (c_pos _ _ _ (proj1 Hi) p); [done..|congruence]).
  assert (Hlinks : forall l, l ∈ sucs x -> exists lk s xs, link_at st l = Some lk /\ suc lk = Some s /\ hs st !! s = Some xs).
  { intros [c j] Hin. destruct (s_sucs _ _ (proj2 Hi) _ _ _ Hx Hin) as (lk & Hlk & _ & Hsome).
    destruct (suc lk) as [s|] eqn:Hsu; [|done].
    destruct (link_owner _ _ _ _ _ _ (proj2 Hi) Hlk Hsu) as (_ & xs & _ & Hxs & _). by exists lk, s, xs. }
  destruct (split_proxies_ok st (sucs x) Hlinks) as (pr & rest & -> & Hperm & Hpr). mcbn.
  pose proof (s_nodup _ _ (proj2 Hi) _ _ Hx) as Hnd. rewrite Hperm in Hnd.
  pose proof Hnd as (Hndp & Hdis & Hndr)%NoDup_app.
  assert (Hsucs : forall l, l ∈ sucs x <-> l ∈ pr \/ l ∈ rest) by (intros; by rewrite Hperm, elem_of_app).
  assert (Hdep : forall l, l ∈ pr -> exists lk, link_at st l = Some lk /\ dep lk = h).
  { intros l Hin. destruct (s_sucs _ _ (proj2 Hi) _ _ l Hx) as (lk & ? & ? & _); [by apply Hsucs; left|]. by exists lk. }
  destruct (redirect_ok m own st h p pr (proj1 Hi) Hndp ltac:(done) Hdep)
    as (st1 & -> & Eh & Ea & En & Enb & Hla & Hbo & Hc1). mcbn.
  set (n := Z.of_nat (length pr)) in *. assert (Hn0 : 0 <= n) by lia.
  (* the count of the header covers the links that leave it *)
  assert (Hthis : 1 <= ref_n x - n).
  { pose proof (c_ref _ _ _ Hc1 h Hha) as Href. rewrite Eh, Hx, pending_one in Href by done.
    pose proof (links_to_nonneg st1 h). pose proof (results_to_nonneg st1 h).
    unfold bump in Href. rewrite decide_True, decide_False in Href by done. lia. }
  rewrite (proj2 (Z.eqb_neq _ 0)) by lia. rewrite (proj2 (Z.leb_le 0 (ref_n xp))) by lia.
  eexists. split; [done|].
  set (x' := set_ref _ (set_load (Body b) _)). set (xp' := set_sucs (_ :: _) _).
  set (st' := put h x' _).
  assert (Eh' : hs st' = <[h := x']> (<[p := xp']> (hs st))) by (unfold st'; rewrite <- Eh; apply put_put; done).
  assert (Eb' : bs st' = <[b := mk_body BProxy [mk_link p (Some h)]]> (bs st1)) by done.
  assert (Hb1 : exists xb1, bs st1 !! b = Some xb1 /\ links xb1 = []).
  { specialize (Hbo b). rewrite Hxb in Hbo. inversion Hbo as [? y [_ Es]|]; subst. exists y. split; [done|].
    rewrite (spare_links (proj2 Hi) Hsp Hxb) in Es. by destruct (links y). }
  destruct Hb1 as (xb1 & Hxb1 & Hnil). split.
  - pose proof (counts_put_body _ _ _ b xb1 (mk_body BProxy [mk_link p (Some h)]) Hc1 Hxb1) as Hc2.
    set (st2 := put_body b _ st1) in *. assert (Hxp2 : hs st2 !! p = Some xp) by (cbn; by rewrite Eh).
    pose proof (counts_put _ _ st2 p xp xp' Hc2 Hxp2 Hpa) as Hc3. specialize (Hc3 ltac:(left; cbn; lia)).
    assert (Hx3 : hs (put p xp' st2) !! h = Some x) by (cbn; rewrite lookup_insert_ne, Eh by done; done).
    pose proof (counts_put _ _ _ h x x' Hc3 Hx3 Hha) as Hc4. specialize (Hc4 ltac:(left; cbn; lia)).
    apply (counts_mode (set_bare None m) _ _ st'); [|done..].
    assert (counts (set_bare None m) (bump own p (-1)) (put h x' (put p xp' st2))) as Hc5.
    { apply counts_bare_none.
      - eapply counts_ext; [|exact Hc4]. intros q _. cbn. rewrite Hnil. unfold links_in, bump. cbn.
        rewrite (shares_zero q x), (shares_zero q x') by by right.
        rewrite (pending_one x), (pending_one x') by done.
        unfold shares, pending, ind. cbn. repeat case_decide; subst; try done; lia.
      - intros q y Hq. rewrite Hba in Hq. injection Hq as <-. cbn. rewrite lookup_insert_eq. intros [= <-]. cbn. lia. }
    eapply counts_mode; [exact Hc5|done| |done]. rewrite Eh'. cbn. by rewrite Eh.
  - eapply (shape_proxying (st' := st') (x' := x') (xp' := xp') (pr := pr) (rest := rest)
      (proj2 Hi) Hba Hsp Hlo Hxb Hx Hk Hnr Hph Hxp Hpnr); try done.
    + intros l lk s xs Hin Hlk Hs Hxs. destruct (Hpr _ _ _ _ Hin Hlk Hs Hxs) as [H1 H2]. split; [|done].
      intros Hinp. destruct (decide (status xs = status_proxying)) as [|Hne]; [done|]. by destruct (Hdis l Hinp (H2 Hne)).
    + intros [c j]. unfold link_at at 1. rewrite Eb'. cbn. destruct (decide (c = b)) as [->|Hcb].
      * rewrite lookup_insert_eq. cbn. destruct j as [|j]; [by rewrite decide_True|]. cbn.
        rewrite decide_False by congruence. pose proof (Hla (b, S j)) as H1. unfold link_at at 1 in H1. cbn in H1.
        rewrite Hxb1 in H1. cbn in H1. by rewrite Hnil in H1.
      * rewrite lookup_insert_ne, decide_False by congruence. etrans; [|apply (Hla (c, j))]. done.
    + rewrite Eb'. apply lookup_insert_eq.
    + intros c Hc. rewrite Eb', lookup_insert_ne by done. apply Hbo.
    + unfold queue. by rewrite <- Ea.
Qed.

Lemma proxied_by_ok m own st p xp q : inv m own st -> bare m <> Some p -> loose m = [] -> hs st !! p = Some xp ->
  proxied_by p st = Ok q -> exists xq, hs st !! q = Some xq /\ status xq <> status_proxying /\
    status xq <> status_proxying_active /\
    (q = p \/ q <> p /\ (status xp = status_proxying \/ status xp = status_proxying_active)).
Proof.
  intros Hi Hba Hlo Hxp. unfold proxied_by. rewrite (get_some _ _ _ Hxp). mcbn.
  destruct ((status xp =? status_proxying) || (status xp =? status_proxying_active)) eqn:Hpr.
  - apply orb_true_iff in Hpr. rewrite !Z.eqb_eq in Hpr.
    destruct (proxying_header own st p xp Hi Hba Hlo Hxp Hpr) as (_ & b & lk & xb & Hl & Hg & _ & Hxb & Hne & ? & ?).
    unfold body_of. rewrite Hl. mcbn. rewrite Hg. mcbn. intros [= <-]. exists xb. split_and!; try done. by right.
  - apply orb_false_iff in Hpr. rewrite !Z.eqb_neq in Hpr. intros [= <-]. exists xp. destruct Hpr. split_and!; try done.
    by left.
Qed.

(** [future_header_dependent::enter_proxying] *)
Lemma enter_proxying_ok m own st h b p x xb : inv m own st -> bare m = Some h -> spare m = Some b -> loose m = [] ->
  build m = None -> (forall q, 0 <= own q) -> 1 <= own p ->
  hs st !! h = Some x -> kind x = KDependent -> status x = status_active -> 2 <= ref_n x -> bs st !! b = Some xb ->
  proxied_by p st <> Ok h ->
  exists st', enter_proxying h b p st = Ok st' /\ inv (set_spare None (set_bare None m)) (bump own p (-1)) st'.
Proof.
  intros Hi Hba Hsp Hlo Hbu Hown Hop Hx Hk Hst Hrefs Hxb Hself.
  destruct (inv_live Hi p) as (xp & Hxp); [lia|].
  assert (Hha : h <> always).
  { intros ->. destruct (inv_always Hi) as (y & Hy & _ & (z & Hz & ? & _) & _). congruence. }
  assert (exists q st1 xq x1, (if (status xp =? status_proxying) || (status xp =? status_proxying_active) then
      pb ← body_of xp;
      lk ← get_link (pb, O) st;
      st ← incref (dep lk) 1 st;
      '(n, st) ← decref p 1 st;
      if n =? 0 then
        st ← put_link (pb, O) (mk_link (dep lk) (Some h)) st;
        st ← free_body b st;
        st ← free p st;
        Ok (dep lk, pb, st)
      else Ok (dep lk, b, st)
    else Ok (p, b, st)) = Ok (q, b, st1) /\ inv m (bump (bump own p (-1)) q 1) st1 /\ shrinks st st1 /\
    hs st1 !! q = Some xq /\ status xq <> status_proxying /\ status xq <> status_proxying_active /\
    hs st1 !! h = Some x1 /\ upto_ref x x1 /\ (q <> h -> ref_n x1 = ref_n x) /\ q <> h)
    as (q & st1 & xq & x1 & Hstep & Hi1 & Hsh & Hxq & Hq2 & Hq3 & Hx1 & Hu1 & Hr1 & Hqh).
  { destruct ((status xp =? status_proxying) || (status xp =? status_proxying_active)) eqn:Hpr.
    - pose proof Hpr as Hpr'. apply orb_true_iff in Hpr'. rewrite !Z.eqb_eq in Hpr'.
      assert (Hph : p <> h).
      { intros ->. assert (xp = x) as -> by congruence. rewrite Hst in Hpr'. by destruct Hpr'. }
      destruct (proxying_header own st p xp Hi ltac:(congruence) Hlo Hxp Hpr')
        as (Hkp & pb & lk & xq & Hl & Hg & _ & Hxq & Hne & Hq2 & Hq3).
      assert (Hself' : dep lk <> h).
      { intros E. apply Hself. unfold proxied_by. rewrite (get_some _ _ _ Hxp). mcbn. rewrite Hpr.
        unfold body_of. rewrite Hl. mcbn. rewrite Hg. mcbn. by rewrite E. }
      assert (Hpa : p <> always).
      { intros ->. destruct (inv_always Hi) as (y & Hy & _ & (z & Hz & ? & _) & _). congruence. }
      unfold body_of. rewrite Hl. mcbn. rewrite Hg. mcbn.
      destruct (incref_ok own st (dep lk) xq Hi Hxq) as (st1 & -> & Hi1 & Hsh1 & (xq1 & Hxq1) & Ho1);
        [by eapply ref_nonneg|]. mcbn.
      assert (Hxp1 : hs st1 !! p = Some xp) by (rewrite Ho1 by done; done).
      unfold decref. rewrite (get_some _ _ _ Hxp1). mcbn.
      pose proof (inv_ref_nonneg Hi _ _ Hxp Hpa (Hown p)) as Hge.
      rewrite (pending_one xp Hkp) in Hge by (intros E; rewrite E in Hpr'; by destruct Hpr').
      rewrite (proj2 (Z.leb_le 0 (ref_n xp))) by lia. cbn [fst]. rewrite (proj2 (Z.eqb_neq _ 0)) by lia.
      assert (Hx1 : hs st1 !! h = Some x) by (rewrite Ho1; done).
      exists (dep lk), (put p (set_ref (ref_n xp - 1) xp) st1), xq1, x. split_and!; try done.
      + eapply inv_ext; [|apply (inv_set_ref _ _ _ _ _ (ref_n xp - 1) Hi1 Hxp1 Hpa); left; lia].
        intros r _. unfold bump. repeat case_decide; lia.
      + trans st1; [done|by apply shrinks_set_ref].
      + cbn. by rewrite lookup_insert_ne.
      + destruct (k_back _ _ Hsh1 _ _ Hxq1) as (y & Hy & E & _). assert (y = xq) as -> by congruence. by rewrite <- E.
      + destruct (k_back _ _ Hsh1 _ _ Hxq1) as (y & Hy & E & _). assert (y = xq) as -> by congruence. by rewrite <- E.
      + cbn. by rewrite lookup_insert_ne.
    - assert (Hph : p <> h).
      { intros ->. apply Hself. unfold proxied_by. rewrite (get_some _ _ _ Hxp). mcbn. by rewrite Hpr. }
      apply orb_false_iff in Hpr. rewrite !Z.eqb_neq in Hpr. destruct Hpr.
      exists p, st, xp, x. split_and!; try done. eapply inv_ext; [|done]. intros r _. unfold bump. case_decide; lia. }
  unfold enter_proxying. rewrite (get_some _ _ _ Hxp). mcbn. rewrite Hstep. mcbn. rewrite (get_some _ _ _ Hxq). mcbn.
  assert (Hown1 : forall r, 0 <= bump (bump own p (-1)) q 1 r).
  { intros r. specialize (Hown r). unfold bump. repeat case_decide; subst; lia. }
  assert (Hoq : 1 <= bump (bump own p (-1)) q 1 q).
  { specialize (Hown q). unfold bump. repeat case_decide; subst; try done; lia. }
  pose proof Hu1 as (Es1 & Esu1 & El1 & Ek1 & _). specialize (Hr1 Hqh).
  assert (Hxb1 : bs st1 !! b = Some xb) by by rewrite (k_bodies _ _ Hsh).
  destruct (status xq =? status_ready) eqn:Hrd.
  - apply Z.eqb_eq in Hrd. unfold decref. rewrite (get_some _ _ _ Hx1). mcbn.
    rewrite (proj2 (Z.leb_le 0 (ref_n x1))) by lia. cbn [fst]. rewrite (proj2 (Z.eqb_neq (ref_n x1 - 1) 0)) by lia. mcbn.
    pose proof (inv_set_ref _ _ _ _ _ (ref_n x1 - 1) Hi1 Hx1 Hha (or_intror Hba)) as Hi2.
    set (st2 := put h (set_ref (ref_n x1 - 1) x1) st1) in *.
    assert (Hxq2 : hs st2 !! q = Some xq) by (cbn; by rewrite lookup_insert_ne).
    assert (Hkx1 : kind x1 = KDependent) by congruence.
    assert (Hnd : forall r, load xq = Result r -> r <> h).
    { intros r Hlr ->. destruct (inv_ready Hi2 _ _ Hxq2 Hrd) as (_ & r' & Hlr' & (y & Hy & Hky & _) & _).
      assert (r' = h) as -> by congruence. cbn in Hy. rewrite lookup_insert_eq in Hy. injection Hy as <-. done. }
    destruct (drop_for_result_ok _ st2 q xq Hi2) as (r & st3 & -> & Hlr & Hi3 & Hres3 & Hsh3 & Ho3); try done.
    { intros r Hlr. rewrite bump_ne by (by apply Hnd). apply Hown1. }
    { rewrite bump_ne by done. lia. }
    mcbn. specialize (Hnd r Hlr).
    assert (Hx3 : hs st3 !! h = Some (set_ref (ref_n x1 - 1) x1)).
    { rewrite Ho3 by done. cbn. by rewrite lookup_insert_eq. }
    assert (Hxb3 : bs st3 !! b = Some xb) by (rewrite (k_bodies _ _ Hsh3); done).
    rewrite <- (put_same h _ st3 Hx3).
    destruct (enter_ready_ok m _ st3 h r (set_ref (ref_n x1 - 1) x1) (set_ref (ref_n x1 - 1) x1) Hi3)
      as (st4 & -> & Hi4 & _); try done.
    { cbn. rewrite <- Es1, Hst. done. } { by left. } { cbn. lia. }
    { intros _. split_and!; try done. specialize (Hown1 h). unfold bump in *. repeat case_decide; subst; try done; lia. }
    mcbn. rewrite decide_True in Hi4 by done.
    destruct (s_spare _ _ (proj2 Hi4) b Hsp) as (xb4 & Hxb4).
    destruct (free_spare_ok _ _ _ b xb4 Hi4 Hsp Hxb4) as [-> Hi5].
    eexists. split; [done|]. eapply inv_ext; [|exact Hi5].
    intros t _. cbn. unfold bump. repeat case_decide; lia.
  - apply Z.eqb_neq in Hrd. rewrite (proj2 (Nat.eqb_neq q h)) by done. rewrite (get_some _ _ _ Hx1). mcbn.
    destruct (proxies_ok m _ st1 h b q x1 xq xb Hi1 Hba Hsp Hlo Hx1) as (st2 & Hp & Hi2); try done; try congruence.
    { rewrite <- Es1, Hst. done. }
    exists st2. split; [exact Hp|]. eapply inv_ext; [|exact Hi2]. intros t _. unfold bump. repeat case_decide; lia.
Qed.

(** What the proxied header is does not depend on the served one. *)
Lemma proxied_by_served m own st st1 h b x xb p : inv m own st -> served m st h b x xb -> status x = status_active ->
  (exists xp', hs st1 !! p = Some xp') -> shrinks st st1 ->
  proxied_by p st <> Ok h -> proxied_by p (with_bs (<[b := mk_body BProxy []]> (bs st)) st1) <> Ok h.
Proof.
  intros Hi (Hbu & Hba & Hsp & Hlo & Hru & Hx & Hk & Hact & Hl & Hxb) Hst (xp' & Hxp') Hsh Hself.
  destruct (k_back _ _ Hsh _ _ Hxp') as (xp & Hxp & Es & _ & El & _).
  unfold proxied_by in *. rewrite (get_some _ _ _ Hxp) in Hself. rewrite (get_some p xp') by done. mcbn.
  cbn [mbind res_bind] in Hself. rewrite <- Es. unfold body_of in *. rewrite <- El.
  destruct ((status xp =? status_proxying) || (status xp =? status_proxying_active)) eqn:Hpr; [|done].
  apply orb_true_iff in Hpr. rewrite !Z.eqb_eq in Hpr.
  destruct (proxying_header own st p xp Hi ltac:(congruence) Hlo Hxp Hpr) as (Hkp & pb & lk & _ & Hlp & Hg & _).
  rewrite Hlp in *. cbn [mbind res_bind] in *. rewrite Hg in Hself. cbn [mbind res_bind] in Hself.
  assert (Hpb : pb <> b).
  { intros ->. assert (p = h) as ->.
    { eapply (s_owner _ _ (proj2 Hi)); [exists xp|exists x]; rewrite Hba; split_and!; try done.
      - destruct Hpr as [-> | ->]; done.
      - destruct Hact as [-> | ->]; done. }
    assert (xp = x) as -> by congruence. rewrite Hst in Hpr. by destruct Hpr. }
  unfold get_link, get_body in *. apply bind_ok in Hg as (y & Hy%deref_ok & Hg). cbn [fst snd] in *.
  cbn [bs with_bs]. rewrite lookup_insert_ne, Hy by done. mcbn. rewrite Hg. mcbn. done.
Qed.

Lemma make_future_value m own st v r st' y : inv m own st -> make_future v st = (r, st') ->
  hs st' !! r = Some y -> results y = Some v.
Proof.
  intros Hi. unfold make_future. destruct v; intros [= <- <-].
  - destruct (s_always _ _ (proj2 Hi)) as (z & Hz & _ & Hv). rewrite Hz. by intros [= <-].
  - cbn. rewrite lookup_insert_eq. by intros [= <-].
Qed.

Definition returned_tokens (ret : returned) (q : hid) : Z :=
  match ret with RValues _ => 0 | RFuture p => ind (p = q) end.

(** [future_body_then::leave_active], once the callback has returned. *)
Lemma leave_then_ok m own st h b x xb ret : inv m own st -> served m st h b x xb -> status x = status_active ->
  (forall q, returned_tokens ret q <= own q) ->
  (forall p, ret = RFuture p -> proxied_by p st <> Ok h) ->
  exists st', leave_then h b ret st = Ok st' /\ inv (set_build None m) (fun q => own q - returned_tokens ret q) st' /\
    (forall v, ret = RValues v -> has_value st' h v).
Proof.
  intros Hi Hsv Hst Hret Hself. pose proof Hsv as (Hbu & Hba & Hsp & Hlo & Hru & Hx & Hk & Hact & Hl & Hxb).
  assert (Hown : forall q, 0 <= own q).
  { intros q. specialize (Hret q). unfold returned_tokens in Hret. destruct ret; [done|].
    pose proof (ind_nonneg (p = q)). lia. }
  pose proof (served_ref _ _ _ _ _ _ _ Hi Hsv (Hown h)) as Hge. pose proof (Hown h) as Hoh.
  destruct (serve_ok m own st h b x xb (ref_n x) Hi Hsv Hown) as (st1 & Hd & Eb & Hsh & Hh & Ha & Hi1).
  assert (Ex : set_ref (ref_n x) x = x) by (by destruct x). rewrite Ex in *. rewrite (put_same h x st Hx) in *.
  assert (Hi1' : inv (detached h b m) own (with_bs (<[b := mk_body BProxy []]> (bs st)) st1)).
  { eapply inv_ext; [|exact Hi1]. intros q _. unfold bump. case_decide; lia. }
  clear Hi1. unfold leave_then, get_body. rewrite Hxb. mcbn. rewrite Hd. mcbn.
  assert (Est : put_body b (mk_body BProxy []) st1 = with_bs (<[b := mk_body BProxy []]> (bs st)) st1).
  { unfold put_body, with_bs. by rewrite Eb. }
  rewrite Est. set (st2 := with_bs _ st1) in *. assert (Hx2 : hs st2 !! h = Some x) by done.
  assert (Hxb2 : bs st2 !! b = Some (mk_body BProxy [])) by (cbn; by rewrite lookup_insert_eq).
  rewrite (get_some _ _ _ Hx2). mcbn.
  assert (Hnr : status x <> status_ready) by by rewrite Hst.
  destruct (ref_n x =? 1) eqn:Hone.
  - apply Z.eqb_eq in Hone. destruct (free_spare_ok _ _ _ b _ Hi1' eq_refl Hxb2) as [-> Hi2]. mcbn.
    destruct (free_bare_ok _ _ _ h x Hi2) as (st3 & -> & Hi3 & Hg); try done; [cbn; by rewrite Hru|lia|].
    mcbn. rewrite detached_none in Hi3 by done.
    assert (Hi4 : inv (set_build None m) own st3).
    { eapply inv_ext; [|exact Hi3]. intros q _. unfold bump. case_decide; lia. }
    destruct ret as [v|p].
    + exists st3. split_and!; [done| |intros; by apply has_value_gone].
      eapply inv_ext; [|exact Hi4]. intros q _. cbn. lia.
    + destruct (dropref_ok own st3 p Hi4 Hown) as (st4 & -> & Hi5 & _).
      { specialize (Hret p). cbn in Hret. by rewrite ind_yes in Hret. }
      exists st4. split_and!; [done| |done]. eapply inv_ext; [|exact Hi5]. intros q _. unfold bump, returned_tokens, ind.
      repeat case_decide; subst; try done; lia.
  - apply Z.eqb_neq in Hone. destruct ret as [v|p].
    + destruct (make_future_ok _ _ _ v Hi1') as (r & st3 & Emf & Hi3 & Hres3). rewrite Emf.
      assert (Hx3 : hs st3 !! h = Some x /\ bs st3 = bs st2).
      { unfold make_future in Emf. destruct v; [by simplify_eq|]. unfold new_result, alloc in Emf.
        injection Emf as <- <-. cbn. split; [|done]. rewrite lookup_insert_ne; [done|]. intros E.
        rewrite <- E in Hx2. rewrite (proj1 (s_fresh _ _ (proj2 Hi1'))) in Hx2; done. }
      destruct Hx3 as [Hx3 Eb3]. unfold decref. rewrite (get_some _ _ _ Hx3). mcbn.
      rewrite (proj2 (Z.leb_le 0 (ref_n x))) by lia.
      pose proof (inv_set_ref _ _ _ _ _ (ref_n x - 1) Hi3 Hx3 Ha (or_intror eq_refl)) as Hi4.
      assert (Hxb4 : bs (put h (set_ref (ref_n x - 1) x) st3) !! b = Some (mk_body BProxy [])).
      { cbn. by rewrite Eb3. }
      destruct (free_spare_ok _ _ _ b _ Hi4 eq_refl Hxb4) as [-> Hi5]. mcbn.
      destruct (become_ready_value m (bump own r 1) st h b x xb
        (with_bs (delete b (bs (put h (set_ref (ref_n x - 1) x) st3))) (put h (set_ref (ref_n x - 1) x) st3))
        r (ref_n x - 1) v Hsv Ha) as (st4 & He & Hi6 & Hv6).
      * eapply inv_ext; [|exact Hi5]. intros q _. unfold bump. repeat case_decide; lia.
      * cbn. by rewrite lookup_insert_eq.
      * lia.
      * unfold bump. case_decide; lia.
      * apply (is_result_put _ _ _ (ref_n x - 1) _ Hx3 Hk Hres3).
      * intros y Hy. destruct (decide (r = h)) as [->|].
        { destruct Hres3 as (z & Hz & ? & _). congruence. }
        cbn in Hy. rewrite lookup_insert_ne in Hy by done.
        exact (make_future_value _ _ _ _ _ _ _ Hi1' Emf Hy).
      * exists st4. split_and!; [exact He| |by intros ? [= <-]].
        eapply inv_ext; [|exact Hi6]. intros q _. unfold bump. cbn. case_decide; lia.
    + destruct (enter_proxying_ok (detached h b m) own st2 h b p x (mk_body BProxy []) Hi1') as (st3 & -> & Hi3); try done.
      * specialize (Hret p). cbn in Hret. by rewrite ind_yes in Hret.
      * lia.
      * eapply proxied_by_served; try done; [|by apply Hself].
        apply (inv_live Hi1'). specialize (Hret p). cbn in Hret. rewrite ind_yes in Hret by done. lia.
      * exists st3. split_and!; [done| |done].
        assert (Em : set_spare None (set_bare None (detached h b m)) = set_build None m).
        { destruct m. cbn in *. by subst. }
        rewrite Em in Hi3. eapply inv_ext; [|exact Hi3]. intros q _. unfold bump, returned_tokens, ind.
        repeat case_decide; subst; try done; lia.
Qed.

End Leaving.
