(* ===== verification/FutureSystem.v ===== *)
(** A program that uses futures: the handles that user code holds, the callback
    that is running, and the active queue that is depleted.

    User code (inside of a callback, or outside while no queue is being depleted)
    creates, copies, drops, chains and fulfills; the loops of
    [entered_ready_with_sucs] and [future_header_dependent::entered_active]
    ([src/future/core.cpp]) serve the active dependents one by one.  The theorems
    are about every state that such a program reaches. *)
From S2P Require Import Prelude FutureCore FutureInvariant FutureUpdates FutureSafety FutureLeave.

Module System.
Import Futures Invariant Updates Operations Leaving.

(** * The program *)

(** [roots] are the futures and promises that user code holds, one entry for each
    handle; [log] tells which callbacks ran, and on which arguments. *)
Record system := mk_system {
  futures : heap; roots : list hid; running : option hid; log : list (hid * val)
}.

(** At start there is [future_header_result<>::always]. *)
Definition start : heap :=
  mk_heap {[ always := mk_header (-1) status_ready [] (Result always) KResult true (Some []) ]} ∅ None 1 0.
Definition init : system := mk_system start [] None [].

Inductive action :=
  | MakeFuture (v : val)
  | NewPromise (is_void : bool) (deps : Z)
  | Copy (h : hid)
  | Drop (h : hid)
  | Then (is_void : bool) (args : list hid)
  | WhenAll (types : list (list Z)) (args : list hid)
  | Read (h : hid)
  | Require (h : hid) (n : Z)
  | FulfillAnonymous (h : hid) (n : Z)
  | FulfillResult (h : hid) (v : val)
  | Finalize (h : hid)
  | Serve
  | Return (ret : returned)
  | Done.

Fixpoint take_root (h : hid) (l : list hid) : option (list hid) :=
  match l with
  | [] => None
  | q :: l => if decide (q = h) then Some l else l' ← take_root h l; Some (q :: l')
  end.

Fixpoint take_roots (args l : list hid) : option (list hid) :=
  match args with [] => Some l | h :: args => l' ← take_root h l; take_roots args l' end.

Definition with_heap (s : system) (st : heap) : system := mk_system st (roots s) (running s) (log s).
Definition gain (s : system) (p : hid * heap) : system := mk_system p.2 (p.1 :: roots s) (running s) (log s).
Definition with_roots (s : system) (l : list hid) : system := mk_system (futures s) l (running s) (log s).

Definition fmap_res {A B} (f : A -> B) (r : res A) : res B := x ← r; Ok (f x).

Definition promise_at (h : hid) (s : system) : option future_header :=
  _ ← take_root h (roots s);
  x ← hs (futures s) !! h;
  match kind x with KPromise _ => Some x | _ => None end.

(** What user code does.  [None]: it does not hold the handles, or the types of the
    values are wrong. *)
Definition user_action (a : action) (s : system) : option (res system) :=
  let st := futures s in
  match a with
  | MakeFuture v => Some (Ok (gain s (make_future v st)))
  | NewPromise is_void deps => Some (fmap_res (gain s) (new_promise is_void deps st))
  | Copy h => _ ← take_root h (roots s); Some (fmap_res (fun st => gain s (h, st)) (incref h 1 st))
  | Drop h => l ← take_root h (roots s); Some (fmap_res (with_heap (with_roots s l)) (dropref h st))
  | Then is_void args =>
      l ← take_roots args (roots s); Some (fmap_res (gain (with_roots s l)) (make_header BThen is_void args st))
  | WhenAll types args =>
      l ← take_roots args (roots s);
      if (length types =? length args)%nat then Some (fmap_res (gain (with_roots s l)) (when_all types args st))
      else None
  | Read h => _ ← take_root h (roots s); Some (fmap_res (fun _ => s) (result h st))
  | Require h n => _ ← promise_at h s; Some (fmap_res (with_heap s) (require_anonymous h n st))
  | FulfillAnonymous h n => _ ← promise_at h s; Some (fmap_res (with_heap s) (fulfill_anonymous h n st))
  | FulfillResult h v =>
      x ← promise_at h s;
      if Bool.eqb (void x) (length v =? 0)%nat then Some (fmap_res (with_heap s) (fulfill_result h v st)) else None
  | Finalize h => _ ← promise_at h s; Some (fmap_res (fun st => gain s (h, st)) (finalize h st))
  | _ => None
  end.

(** The next of the active queue leaves it.  A [then] body runs its callback, the
    others are done at once. *)
Definition serve (s : system) : option (res system) :=
  match active (futures s) with
  | Some (h :: q) =>
      let st := put_active (Some q) (futures s) in
      Some (x ← get h st; b ← body_of x; xb ← get_body b st;
            match bkind xb with
            | BThen => v ← then_arguments b st; Ok (mk_system st (roots s) (Some h) (log s ++ [(h, v)]))
            | BIdentity => fmap_res (with_heap s) (leave_identity h b st)
            | BProxy => fmap_res (with_heap s) (leave_proxy h b st)
            end)
  | _ => None
  end.

(** The callback of [h] returns.  It may not return a future that proxies [h]. *)
Definition finish (h : hid) (ret : returned) (s : system) : option (res system) :=
  let st := futures s in
  let leave l := Some (x ← get h st; b ← body_of x; st ← leave_then h b ret st; Ok (mk_system st l None (log s))) in
  match ret with
  | RValues _ => leave (roots s)
  | RFuture p => l ← take_root p (roots s); if decide (proxied_by p st = Ok h) then None else leave l
  end.

Definition exec (a : action) (s : system) : option (res system) :=
  match a, running s, active (futures s) with
  | Serve, None, _ => serve s
  | Return ret, Some h, _ => finish h ret s
  | Done, None, Some [] => Some (Ok (with_heap s (put_active None (futures s))))
  | _, Some _, _ => user_action a s
  | _, None, None => user_action a s
  | _, _, _ => None
  end.

Definition step (a : action) (s s' : system) : Prop := exec a s = Some (Ok s').
Definition steps : system -> system -> Prop := rtc (fun s s' => exists a, step a s s').
Definition reachable (s : system) : Prop := steps init s.

(** The uses of a promise or a future that the code asserts against. *)
Definition misuse (a : action) (s : system) : Prop :=
  match a with
  | NewPromise _ deps => deps < 1
  | Read h => exists x, hs (futures s) !! h = Some x /\ status x <> status_ready
  | Require h n => exists x c, hs (futures s) !! h = Some x /\ kind x = KPromise c /\ (c <= 0 \/ n < 0)
  | FulfillAnonymous h n => exists x c, hs (futures s) !! h = Some x /\ kind x = KPromise c /\
      (c <= 0 \/ n < 0 \/ c < n \/ c = n /\ status x = status_results_no)
  | FulfillResult h _ => exists x c, hs (futures s) !! h = Some x /\ kind x = KPromise c /\
      (c <= 0 \/ void x = false /\ status x = status_results_yes)
  | Finalize h => exists x c, hs (futures s) !! h = Some x /\ kind x = KPromise c /\
      (c <= 0 \/ c = 1 /\ status x = status_results_no)
  | _ => False
  end.

(** * The invariant *)

Definition ran (s : system) : gset hid := list_to_set (log s).*1.

Definition sys_mode (V : gmap hid val) (P : gset hid) (s : system) : mode :=
  mk_mode (running s) None None None O [] (ran s) V P.

Record sys_inv (V : gmap hid val) (P : gset hid) (s : system) : Prop := {
  si_inv : inv (sys_mode V P s) (tokens (roots s)) (futures s);
  si_log : NoDup (log s).*1
}.

Lemma take_root_tokens h l l' q : take_root h l = Some l' -> tokens l q = ind (h = q) + tokens l' q.
Proof.
  revert l'. induction l as [|r l IH]; intros l'; cbn [take_root]; [done|].
  destruct (decide (r = h)) as [->|]; [intros [= ->]; apply tokens_cons|].
  intros (k & Hk & [= <-])%bind_Some. rewrite !tokens_cons, (IH _ Hk). lia.
Qed.

Lemma take_root_held h l l' : take_root h l = Some l' -> 1 <= tokens l h.
Proof.
  intros Ht. rewrite (take_root_tokens _ _ _ h Ht), ind_yes by done. pose proof (tokens_nonneg l' h). lia.
Qed.

Lemma take_roots_tokens args l l' q : take_roots args l = Some l' -> tokens l q = tokens args q + tokens l' q.
Proof.
  revert l. induction args as [|h args IH]; intros l; cbn [take_roots]; [intros [= <-]; done|].
  intros (k & Hk & Hl)%bind_Some. rewrite tokens_cons, (take_root_tokens _ _ _ q Hk), (IH _ Hl). lia.
Qed.

Lemma inv_pend_mono m own st P : inv m own st -> pend m ⊆ P -> inv (set_pend P m) own st.
Proof.
  intros [Hc Hs] HP. split; [by eapply counts_mode|]. eapply shape_mode; try done; try apply Hs.
  cbn. intros h x ? ? ?. apply HP. by eapply (s_pend _ _ Hs).
Qed.

Lemma sys_pend_mono V P P' s : sys_inv V P s -> P ⊆ P' -> sys_inv V P' s.
Proof. intros [Hi Hl] HP. split; [|done]. exact (inv_pend_mono _ _ _ P' Hi HP). Qed.

Lemma start_lookup h x : hs start !! h = Some x ->
  h = always /\ x = mk_header (-1) status_ready [] (Result always) KResult true (Some []).
Proof. unfold start. cbn [hs]. by intros [<- <-]%lookup_singleton_Some. Qed.

Lemma start_result : is_result start always.
Proof. eexists. split; [apply lookup_singleton_eq|done]. Qed.

Lemma init_sys_inv : sys_inv ∅ ∅ init.
Proof.
  split; [|constructor]. split.
  - split.
    + intros h Hh. cbn [futures init]. assert (hs start !! h = None) as -> by (unfold start; cbn [hs]; by apply lookup_singleton_ne).
      unfold links_to, results_to, init, start. cbn [futures hs bs roots].
      rewrite <- (insert_empty always), msum_insert, !msum_empty by apply lookup_empty.
      unfold shares. cbn. rewrite ind_no by naive_solver. done.
    + intros h x [-> _]%start_lookup. done.
    + intros x [_ ->]%start_lookup. done.
  - assert (Hnl : forall l, link_at start l = None) by done.
    split; change (futures init) with start.
    + eexists. split; [apply lookup_singleton_eq|done].
    + intros h x [-> ->]%start_lookup. done.
    + done.
    + intros h1 h2 b (x & [_ ->]%start_lookup & ? & _). done.
    + intros l lk. by rewrite Hnl.
    + intros h x l [_ ->]%start_lookup. by intros ?%elem_of_nil.
    + intros h x [_ ->]%start_lookup. constructor.
    + split; [constructor|]. by intros l ?%elem_of_nil.
    + done.
    + split; [constructor|]. by intros h ?%elem_of_nil.
    + intros h x [_ ->]%start_lookup. done.
    + done.
    + by intros h ?%elem_of_empty.
    + intros h v. cbn [vals sys_mode]. by rewrite lookup_empty.
    + split; [|done]. intros h Hh. unfold start. cbn [hs]. rewrite lookup_singleton_ne; [done|]. cbn in Hh. unfold always. lia.
    + done.
    + intros h x [_ ->]%start_lookup. done.
Qed.

(** * User code *)

Lemma sys_live V P s h l : sys_inv V P s -> take_root h (roots s) = Some l -> is_Some (hs (futures s) !! h).
Proof. intros [Hi _] Hh%take_root_held. apply (inv_live Hi). lia. Qed.

Lemma sys_gain V P s l h st : sys_inv V P s -> inv (sys_mode V P s) (bump (tokens l) h 1) st ->
  sys_inv V P (gain (with_roots s l) (h, st)).
Proof.
  intros [_ Hl] Hi. split; [|done]. eapply inv_ext; [|exact Hi]. intros q _.
  cbn [roots gain with_roots fst snd]. rewrite tokens_cons.
  unfold bump, ind. repeat case_decide; subst; try done; lia.
Qed.

Lemma sys_with V P s l st : sys_inv V P s -> inv (sys_mode V P s) (tokens l) st ->
  sys_inv V P (with_heap (with_roots s l) st).
Proof. intros [_ Hl] Hi. by split. Qed.

(** An action either goes well, or is a misuse that the code asserts against. *)
Definition outcome (V : gmap hid val) (P : gset hid) (a : action) (s : system) (r : res system) : Prop :=
  (exists s', r = Ok s' /\ sys_inv V P s' /\ ~ misuse a s) \/ (r = Aborted /\ misuse a s).

Section Promises.
Context {V : gmap hid val} {P : gset hid} {s : system} {h : hid} {x : future_header} {c : Z}.
Context (Hs : sys_inv V P s) (Hx : hs (futures s) !! h = Some x) (Hk : kind x = KPromise c).

Lemma promise_status : 0 <= c /\ (0 < c -> status x = status_results_yes \/ status x = status_results_no) /\
  (status x = status_results_no -> 0 < c /\ void x = false).
Proof.
  pose proof (s_header _ _ (proj2 (si_inv _ _ _ Hs)) _ _ Hx) as Hok. unfold header_ok in Hok. rewrite Hk in Hok.
  destruct Hok as [_ Hok]. case_decide as Hd.
  - destruct Hok as (-> & _). split_and!; [lia|lia|]. rewrite Hd. done.
  - destruct Hok as [? [[E _]|(E & ? & _)]]; rewrite E; split_and!; try lia; try done; auto.
Qed.

Lemma promise_unique (Q : future_header -> Z -> Prop) :
  (exists x' c', hs (futures s) !! h = Some x' /\ kind x' = KPromise c' /\ Q x' c') -> Q x c.
Proof. intros (x' & c' & Hx' & Hk' & HQ). assert (x' = x) as -> by congruence. assert (c' = c) as -> by congruence. done. Qed.

(** [fulfill] on every branch. *)
Lemma fulfill_cases n :
  (exists st', fulfill h n (futures s) = Ok st' /\ inv (sys_mode V P s) (tokens (roots s)) st' /\ 0 < c /\ n <= c /\
     (c = n -> status x = status_results_yes)) \/
  (fulfill h n (futures s) = Aborted /\ (c <= 0 \/ c < n \/ c = n /\ status x = status_results_no)).
Proof.
  destruct promise_status as (Hc0 & Hst & _). destruct (decide (0 < c /\ n <= c)) as [[Hc Hn]|Hbad].
  - destruct (decide (c = n /\ status x = status_results_no)) as [[-> Hno]|Hok].
    + right. unfold fulfill, countdown_of. rewrite (get_some _ _ _ Hx). mcbn. rewrite Hk. mcbn.
      rewrite (proj2 (Z.ltb_lt 0 n)), Z.sub_diag by done. cbn [Z.leb Z.compare assert_that]. mcbn.
      unfold readify. rewrite get_put. mcbn. cbn [status set_kind]. rewrite Hno. mcbn. split; [done|]. auto.
    + left. assert (Hyes : c = n -> status x = status_results_yes) by (intros E; destruct (Hst Hc); [done|tauto]).
      destruct (fulfill_ok (sys_mode V P s) _ _ h x c n (si_inv _ _ _ Hs)) as (st' & ? & ? & _); try done.
      exists st'. split_and!; done.
  - right. unfold fulfill, countdown_of. rewrite (get_some _ _ _ Hx). mcbn. rewrite Hk. mcbn.
    destruct (0 <? c) eqn:E; mcbn; [|split; [done|apply Z.ltb_ge in E; auto]]. apply Z.ltb_lt in E.
    rewrite (proj2 (Z.leb_gt 0 (c - n))) by lia. mcbn. split; [done|]. right. left. lia.
Qed.
End Promises.

Lemma require_cases V P s h x c n : sys_inv V P s -> hs (futures s) !! h = Some x -> kind x = KPromise c ->
  outcome V P (Require h n) s (fmap_res (with_heap s) (require_anonymous h n (futures s))).
Proof.
  intros Hs Hx Hk. destruct (decide (0 < c /\ 0 <= n)) as [[Hc Hn]|Hbad].
  - destruct (require_anonymous_ok _ _ _ _ _ _ n (si_inv _ _ _ Hs) eq_refl Hx Hk Hc Hn) as [E Hi]. rewrite E.
    left. eexists. split; [done|]. split; [by apply (sys_with V P s (roots s))|].
    intros H%(promise_unique Hx Hk (fun x c => c <= 0 \/ n < 0)). lia.
  - right. unfold require_anonymous, countdown_of. rewrite (get_some _ _ _ Hx). mcbn. rewrite Hk. mcbn.
    split; [|exists x, c; split_and!; [done|done|lia]].
    destruct (0 <? c) eqn:E; mcbn; [|done]. apply Z.ltb_lt in E. by rewrite (proj2 (Z.leb_gt 0 n)) by lia.
Qed.

Lemma fulfill_anonymous_cases V P s h x c n : sys_inv V P s -> hs (futures s) !! h = Some x -> kind x = KPromise c ->
  outcome V P (FulfillAnonymous h n) s (fmap_res (with_heap s) (fulfill_anonymous h n (futures s))).
Proof.
  intros Hs Hx Hk. unfold fulfill_anonymous. destruct (0 <=? n) eqn:Hn.
  - apply Z.leb_le in Hn. mcbn. destruct (fulfill_cases Hs Hx Hk n) as [(st' & -> & Hi & Hc & Hle & Hyes)|[-> Hbad]].
    + left. eexists. split; [done|]. split; [by apply (sys_with V P s (roots s))|].
      intros H%(promise_unique Hx Hk (fun x c => c <= 0 \/ n < 0 \/ c < n \/ c = n /\ status x = status_results_no)).
      destruct H as [?|[?|[?|[E Hno]]]]; [lia..|]. rewrite (Hyes E) in Hno. done.
    + right. split; [done|]. exists x, c. split_and!; try done. intuition.
  - apply Z.leb_gt in Hn. right. split; [done|]. exists x, c. split_and!; [done|done|lia].
Qed.

Lemma finalize_cases V P s h x c : sys_inv V P s -> hs (futures s) !! h = Some x -> kind x = KPromise c ->
  1 <= tokens (roots s) h ->
  outcome V P (Finalize h) s (fmap_res (fun st => gain s (h, st)) (finalize h (futures s))).
Proof.
  intros Hs Hx Hk Ho. unfold finalize. destruct (fulfill_cases Hs Hx Hk 1) as [(st' & -> & Hi & Hc & Hle & Hyes)|[-> Hbad]].
  - mcbn. destruct (inv_live Hi h) as (x' & Hx'); [lia|].
    destruct (incref_ok _ st' h x' Hi Hx') as (st2 & -> & Hi2 & _).
    { apply (ref_nonneg _ _ _ _ Hi); [lia|done]. }
    left. eexists. split; [done|]. split; [by apply (sys_gain V P s (roots s))|].
    intros H%(promise_unique Hx Hk (fun x c => c <= 0 \/ c = 1 /\ status x = status_results_no)).
    destruct H as [?|[E Hno]]; [lia|]. rewrite (Hyes E) in Hno. done.
  - right. split; [done|]. exists x, c. split_and!; try done. intuition lia.
Qed.

Lemma fulfill_result_cases V P s h x c v : sys_inv V P s -> hs (futures s) !! h = Some x -> kind x = KPromise c ->
  outcome V P (FulfillResult h v) s (fmap_res (with_heap s) (fulfill_result h v (futures s))).
Proof.
  intros Hs Hx Hk. destruct (promise_status Hs Hx Hk) as (Hc0 & Hst & Hno).
  destruct (decide (0 < c /\ (void x = true \/ status x = status_results_no))) as [[Hc Hv]|Hbad].
  - destruct (fulfill_result_ok _ _ _ h x c v (si_inv _ _ _ Hs) eq_refl eq_refl eq_refl Hx Hk Hc Hv) as (st' & -> & Hi).
    left. eexists. split; [done|]. split; [by apply (sys_with V P s (roots s))|].
    intros H%(promise_unique Hx Hk (fun x c => c <= 0 \/ void x = false /\ status x = status_results_yes)).
    destruct H as [?|[E1 E2]]; [lia|]. destruct Hv as [E|E]; [congruence|]. by rewrite E in E2.
  - right. unfold fulfill_result. rewrite (get_some _ _ _ Hx). mcbn.
    destruct (void x) eqn:Hvo; cbn [orb]; mcbn.
    + assert (c <= 0) by (destruct (decide (0 < c)); [by destruct Hbad; split; [|left]|lia]).
      split; [|exists x, c; split_and!; auto].
      unfold fulfill, countdown_of. rewrite (get_some _ _ _ Hx). mcbn. rewrite Hk. mcbn.
      by rewrite (proj2 (Z.ltb_ge 0 c)).
    + assert (status x <> status_results_no) as Hne by (intros E; apply Hbad; split; [by apply Hno|by right]).
      rewrite (proj2 (Z.eqb_neq _ _) Hne). mcbn. split; [done|]. exists x, c. split_and!; try done.
      destruct (decide (0 < c)) as [Hc|]; [right|left; lia]. split; [done|]. by destruct (Hst Hc).
Qed.

Lemma read_cases V P s h x : sys_inv V P s -> hs (futures s) !! h = Some x ->
  outcome V P (Read h) s (fmap_res (fun _ => s) (result h (futures s))).
Proof.
  intros Hs Hx. unfold result, is_ready. rewrite (get_some _ _ _ Hx). mcbn. destruct (status x =? status_ready) eqn:Hr.
  - apply Z.eqb_eq in Hr. mcbn. left.
    destruct (inv_ready (si_inv _ _ _ Hs) _ _ Hx Hr) as (_ & r & Hl & (y & Hy & _ & _ & _ & Hv) & _).
    unfold result_of. rewrite Hl. mcbn. rewrite (get_some _ _ _ Hy). mcbn. destruct (results y); [|done]. mcbn.
    exists s. split_and!; [done|done|]. intros (x' & Hx' & ?). congruence.
  - apply Z.eqb_neq in Hr. right. split; [done|]. by exists x.
Qed.

Lemma promise_at_some h s x : promise_at h s = Some x ->
  1 <= tokens (roots s) h /\ hs (futures s) !! h = Some x /\ exists c, kind x = KPromise c.
Proof.
  unfold promise_at. intros (l & Hl%take_root_held & (y & Hy & Hk)%bind_Some)%bind_Some.
  destruct (kind y) eqn:E; simplify_eq. eauto.
Qed.

(** A good outcome of an action that cannot be a misuse. *)
Lemma outcome_ok V P a s s' : ~ misuse a s -> sys_inv V P s' -> outcome V P a s (Ok s').
Proof. intros. left. by exists s'. Qed.

Lemma make_cases V P s a l args k is_void : sys_inv V P s -> next_h (futures s) ∈ P -> k <> BProxy -> ~ misuse a s ->
  take_roots args (roots s) = Some l ->
  outcome V P a s (fmap_res (gain (with_roots s l)) (make_header k is_void args (futures s))).
Proof.
  intros Hs HP Hk Hm Hl.
  destruct (make_header_ok (sys_mode V P s) _ _ k is_void args (si_inv _ _ _ Hs)) as (st & -> & Hi); try done.
  { intros q. rewrite (take_roots_tokens _ _ _ q Hl). pose proof (tokens_nonneg l q). lia. }
  mcbn. apply outcome_ok; [done|]. apply (sys_gain _ _ _ _ _ _ Hs). eapply inv_ext; [|exact Hi].
  intros q _. unfold bump. cbn beta. rewrite (take_roots_tokens _ _ _ q Hl). lia.
Qed.

Lemma when_all_cases V P s types args l : sys_inv V P s -> next_h (futures s) ∈ P -> length types = length args ->
  take_roots args (roots s) = Some l ->
  outcome V P (WhenAll types args) s (fmap_res (gain (with_roots s l)) (when_all types args (futures s))).
Proof.
  intros Hs HP Hlen Hl.
  destruct (when_all_ok (sys_mode V P s) _ _ types args (si_inv _ _ _ Hs)) as (h & st & -> & Hi); try done.
  { intros q. rewrite (take_roots_tokens _ _ _ q Hl). pose proof (tokens_nonneg l q). lia. }
  mcbn. apply outcome_ok; [tauto|]. apply (sys_gain _ _ _ _ _ _ Hs). eapply inv_ext; [|exact Hi].
  intros q _. unfold bump. cbn beta. rewrite (take_roots_tokens _ _ _ q Hl). lia.
Qed.

Lemma user_action_ok V P s a r : sys_inv V P s -> next_h (futures s) ∈ P -> user_action a s = Some r ->
  outcome V P a s r.
Proof.
  intros Hs HP. destruct a; cbn [user_action]; try done.
  - intros [= <-]. destruct (make_future_ok _ _ _ v (si_inv _ _ _ Hs)) as (h & st & -> & Hi & _).
    apply outcome_ok; [tauto|]. by apply (sys_gain V P s (roots s)).
  - intros [= <-]. destruct (decide (1 <= deps)) as [Hd|Hd].
    + destruct (new_promise_ok _ _ _ is_void deps (si_inv _ _ _ Hs) Hd) as (h & st & -> & Hi & _).
      apply outcome_ok; [cbn; lia|]. by apply (sys_gain V P s (roots s)).
    + right. unfold new_promise. rewrite (proj2 (Z.leb_gt _ _)) by lia. split; [done|cbn; lia].
  - intros (l & Hl & [= <-])%bind_Some. destruct (sys_live _ _ _ _ _ Hs Hl) as [x Hx].
    pose proof (take_root_held _ _ _ Hl) as Ho.
    destruct (incref_ok _ _ h x (si_inv _ _ _ Hs) Hx) as (st & -> & Hi & _).
    { apply (ref_nonneg _ _ _ _ (si_inv _ _ _ Hs)); [lia|done]. }
    apply outcome_ok; [tauto|]. by apply (sys_gain V P s (roots s)).
  - intros (l & Hl & [= <-])%bind_Some. pose proof (take_root_held _ _ _ Hl) as Ho.
    destruct (dropref_ok _ _ h (si_inv _ _ _ Hs)) as (st & -> & Hi & _); [intros; apply tokens_nonneg|done|].
    apply outcome_ok; [tauto|]. apply (sys_with V P s l); [done|]. eapply inv_ext; [|exact Hi].
    intros q _. pose proof (take_root_tokens _ _ _ q Hl) as E. unfold bump, ind in *. repeat case_decide; subst; try done; lia.
  - intros (l & Hl & [= <-])%bind_Some. apply make_cases; try done. tauto.
  - intros (l & Hl & Hr)%bind_Some. destruct (length types =? length args)%nat eqn:E; [|done].
    injection Hr as <-. apply Nat.eqb_eq in E. by apply when_all_cases.
  - intros (l & Hl & [= <-])%bind_Some. destruct (sys_live _ _ _ _ _ Hs Hl) as [x Hx]. by eapply read_cases.
  - intros (x & (_ & Hx & c & Hk)%promise_at_some & [= <-])%bind_Some. by eapply require_cases.
  - intros (x & (_ & Hx & c & Hk)%promise_at_some & [= <-])%bind_Some. by eapply fulfill_anonymous_cases.
  - intros (x & (_ & Hx & c & Hk)%promise_at_some & Hr)%bind_Some.
    destruct (Bool.eqb _ _); [|done]. injection Hr as <-. by eapply fulfill_result_cases.
  - intros (x & (Ho & Hx & c & Hk)%promise_at_some & [= <-])%bind_Some. by eapply finalize_cases.
Qed.

(** * Serving the active queue *)

(** The callback of a popped header starts, and comes back. *)
Lemma inv_start m own st h x b xb : inv m own st -> build m = Some h -> run m = None -> bare m = None ->
  hs st !! h = Some x -> kind x = KDependent -> status x = status_active -> load x = Body b -> bs st !! b = Some xb ->
  bkind xb = BThen -> inv (set_run (Some h) (set_build None (set_done ({[h]} ∪ done m) m))) own st.
Proof.
  intros [Hc Hs] Hbu Hru Hba Hx Hk Hst Hl Hxb Hth. split; [by eapply counts_mode|].
  assert (Hh : forall r, in_hand (set_run (Some h) (set_build None (set_done ({[h]} ∪ done m) m))) r <-> in_hand m r).
  { intros r. unfold in_hand. cbn. rewrite Hbu, Hru, Hba. naive_solver. }
  eapply shape_mode; try done; try apply Hs.
  - destruct (s_queue _ _ Hs) as [? Hq]. split; [done|]. intros r Hr. rewrite Hh. by apply Hq.
  - intros r y ? ? ?. rewrite Hh. by apply (s_active _ _ Hs r y).
  - cbn. intros r [= <-]. split_and!; [done|congruence|]. exists x, b, xb. done.
  - cbn [done set_run set_build set_done]. intros r [->%elem_of_singleton|Hr]%elem_of_union.
    + split; [|intros; rewrite Hh; by right; left]. destruct (decide (h < next_h st)%nat) as [|Hge]; [done|].
      rewrite (proj1 (s_fresh _ _ Hs)) in Hx by lia. done.
    + destruct (s_done _ _ Hs r Hr) as [? Hd]. split; [done|]. intros. rewrite Hh. by eapply Hd.
Qed.

Lemma inv_return m own st h : inv m own st -> build m = None -> run m = Some h -> bare m = None ->
  inv (set_build (Some h) (set_run None m)) own st.
Proof.
  intros [Hc Hs] Hbu Hru Hba. split; [by eapply counts_mode|].
  assert (Hh : forall r, in_hand (set_build (Some h) (set_run None m)) r <-> in_hand m r).
  { intros r. unfold in_hand. cbn. rewrite Hbu, Hru, Hba. naive_solver. }
  eapply shape_mode; try done; try apply Hs.
  - destruct (s_queue _ _ Hs) as [? Hq]. split; [done|]. intros r Hr. rewrite Hh. by apply Hq.
  - intros r y ? ? ?. rewrite Hh. by apply (s_active _ _ Hs r y).
  - intros r Hr. destruct (s_done _ _ Hs r Hr) as [? Hd]. split; [done|]. intros. rewrite Hh. by eapply Hd.
Qed.

(** The head of the queue, popped, can be served. *)
Lemma popped_served V P s h q : sys_inv V P s -> running s = None -> active (futures s) = Some (h :: q) ->
  let st := put_active (Some q) (futures s) in
  let m := set_build (Some h) (sys_mode V P s) in
  inv m (tokens (roots s)) st /\ exists b x xb, served m st h b x xb /\
    (bkind xb = BThen -> status x = status_active /\ h ∉ ran s).
Proof.
  intros [Hi _] Hru Hq st m.
  assert (Hi1 : inv m (tokens (roots s)) st) by (by apply inv_pop). split; [done|].
  destruct (proj2 (s_queue _ _ (proj2 Hi)) h) as (Hnh & x & Hx & Hk & Hact); [unfold queue; rewrite Hq; left|].
  pose proof (s_header _ _ (proj2 Hi) _ _ Hx) as Hok. unfold header_ok in Hok. rewrite Hk, decide_False in Hok
    by (destruct Hact as [-> | ->]; done).
  destruct Hok as [?|(b & xb & Hl & Hxb & [_ Hbok] & _)]; [done|].
  exists b, x, xb. split; [unfold served; split_and!; done|]. intros Hth. rewrite Hth in Hbok.
  split; [|intros Hd; apply Hnh; eapply (s_done _ _ (proj2 Hi) h Hd); try done].
  - pose proof (number_linked_nonneg (links xb)). destruct Hact as [?|E]; [done|]. rewrite E in Hbok.
    unfold status_proxying_active in Hbok. lia.
  - destruct Hact as [-> | ->]; done.
Qed.

Lemma served_read m st h b x xb : served m st h b x xb -> get h st = Ok x /\ body_of x = Ok b /\ get_body b st = Ok xb.
Proof.
  intros (_ & _ & _ & _ & _ & Hx & _ & _ & Hl & Hxb). unfold body_of, get_body. rewrite Hl, Hxb. split; [|done].
  by apply get_some.
Qed.

Definition head_body (s : system) (h : hid) (xb : future_body) : Prop :=
  exists x b, hs (futures s) !! h = Some x /\ load x = Body b /\ bs (futures s) !! b = Some xb.

Lemma dependency_results_active l q st : dependency_results l (put_active q st) = dependency_results l st.
Proof. induction l as [|lk l IH]; cbn [dependency_results]; [done|]. by rewrite IH. Qed.

(** A [then] body starts its callback; any other makes the header ready with the
    results of its dependencies. *)
Lemma serve_step_ok V P s h q : sys_inv V P s -> running s = None -> active (futures s) = Some (h :: q) ->
  exists s' xb v, serve s = Some (Ok s') /\ sys_inv V P s' /\ roots s' = roots s /\ head_body s h xb /\
    dependency_results (links xb) (futures s) = Ok v /\
    match bkind xb with
    | BThen => running s' = Some h /\ log s' = log s ++ [(h, v)] /\ futures s' = put_active (Some q) (futures s)
    | _ => running s' = None /\ log s' = log s /\ has_value (futures s') h v
    end.
Proof.
  intros Hs Hru Hq. destruct (popped_served V P s h q Hs Hru Hq) as (Hi & b & x & xb & Hsv & Hth).
  pose proof Hs as [_ Hnd]. pose proof Hsv as (_ & _ & _ & _ & _ & Hx & Hk & Hact & Hl & Hxb).
  assert (Hhb : head_body s h xb) by (by exists x, b).
  assert (Hown : forall q, 0 <= tokens (roots s) q) by (intros; apply tokens_nonneg).
  assert (Hback : forall st', inv (set_build None (set_build (Some h) (sys_mode V P s))) (tokens (roots s)) st' ->
    sys_inv V P (with_heap s st')) by (intros; split; done).
  destruct (served_read _ _ _ _ _ _ Hsv) as (Hr1 & Hr2 & Hr3).
  unfold serve. rewrite Hq, Hr1. mcbn. rewrite Hr2. mcbn. rewrite Hr3. mcbn. destruct (bkind xb) eqn:Hkb.
  - destruct (Hth eq_refl) as [Hst Hran]. destruct (served_value _ _ _ _ _ _ _ (ref_n x) Hi Hsv) as (v & _ & Hv).
    unfold then_arguments, get_body. rewrite Hxb. mcbn. rewrite Hv. mcbn. rewrite dependency_results_active in Hv.
    eexists _, xb, v. split; [done|]. rewrite Hkb. split_and!; try done. split.
    + pose proof (inv_start _ _ _ h x b xb Hi eq_refl Hru eq_refl Hx Hk Hst Hl Hxb Hkb) as Hi2.
      unfold sys_mode at 1, ran at 1. cbn [running log roots futures].
      assert (list_to_set (log s ++ [(h, v)]).*1 = {[h]} ∪ ran s) as ->; [|exact Hi2].
      unfold ran. rewrite fmap_app, list_to_set_app_L. cbn. set_solver.
    + cbn. rewrite fmap_app. apply NoDup_app. split_and!; [done| |apply NoDup_singleton].
      intros r Hr ->%list_elem_of_singleton. apply Hran. unfold ran. by apply elem_of_list_to_set.
  - destruct (leave_identity_ok _ _ _ h b x xb Hi Hsv Hown) as (st' & v & -> & Hi' & Hv & Hval). mcbn.
    rewrite dependency_results_active in Hv. eexists _, xb, v. split; [done|].
    rewrite Hkb. split_and!; try done; by apply Hback.
  - destruct (leave_proxy_ok _ _ _ h b x xb Hi Hsv Hkb Hown) as (st' & v & -> & Hi' & Hv & Hval). mcbn.
    rewrite dependency_results_active in Hv. eexists _, xb, v. split; [done|].
    rewrite Hkb. split_and!; try done; by apply Hback.
Qed.

(** The callback of [h] returns. *)
Lemma leave_then_cases V P s h ret l : sys_inv V P s -> running s = Some h ->
  (forall q, tokens (roots s) q = tokens l q + returned_tokens ret q) ->
  (forall p, ret = RFuture p -> proxied_by p (futures s) <> Ok h) ->
  exists st', (x ← get h (futures s); b ← body_of x; st ← leave_then h b ret (futures s);
    Ok (mk_system st l None (log s))) = Ok (mk_system st' l None (log s)) /\
    sys_inv V P (mk_system st' l None (log s)) /\ (forall v, ret = RValues v -> has_value st' h v).
Proof.
  intros [Hi Hnd] Hru Htok Hself.
  destruct (s_run _ _ (proj2 Hi) h Hru) as (_ & _ & x & b & xb & Hx & Hk & Hst & Hl & Hxb & Hth).
  pose proof (inv_return _ _ _ h Hi eq_refl Hru eq_refl) as Hi1.
  assert (Hsv : served (set_build (Some h) (set_run None (sys_mode V P s))) (futures s) h b x xb).
  { unfold served. split_and!; try done. by left. }
  destruct (served_read _ _ _ _ _ _ Hsv) as (Hr1 & Hr2 & Hr3). rewrite Hr1. mcbn. rewrite Hr2. mcbn.
  destruct (leave_then_ok _ _ _ h b x xb ret Hi1 Hsv Hst) as (st' & -> & Hi2 & Hval).
  { intros q. rewrite Htok. pose proof (tokens_nonneg l q). lia. }
  { exact Hself. }
  mcbn. exists st'. split; [done|]. split; [|done]. split; [|done].
  eapply inv_ext; [|exact Hi2]. intros q _. cbn beta. rewrite Htok. cbn [roots]. lia.
Qed.

Lemma finish_ok V P s h ret r : sys_inv V P s -> running s = Some h -> finish h ret s = Some r ->
  exists s', r = Ok s' /\ sys_inv V P s' /\ running s' = None /\ log s' = log s /\
    (forall v, ret = RValues v -> roots s' = roots s /\ has_value (futures s') h v).
Proof.
  intros Hs Hru. unfold finish. destruct ret as [v|p].
  - intros [= <-]. destruct (leave_then_cases V P s h (RValues v) (roots s) Hs Hru) as (st' & -> & Hs' & Hv); [|done|].
    { intros. cbn. lia. }
    eexists. split; [done|]. split; [done|]. split_and!; [done..|]. intros w [= <-]. split; [done|]. by apply Hv.
  - intros (l & Hl & Hr)%bind_Some. case_decide as Hself; [done|]. injection Hr as <-.
    destruct (leave_then_cases V P s h (RFuture p) l Hs Hru) as (st' & -> & Hs' & _).
    { intros q. rewrite (take_root_tokens _ _ _ q Hl). cbn. lia. }
    { by intros ? [= <-]. }
    eexists. split; [done|]. split; [done|]. by split_and!.
Qed.

Lemma done_ok V P s : sys_inv V P s -> active (futures s) = Some [] ->
  sys_inv V P (with_heap s (put_active None (futures s))).
Proof.
  intros [Hi Hnd] Ha. split; [|done]. apply (inv_active (sys_mode V P s)); [done|]. unfold queue. by rewrite Ha.
Qed.

(** One step of the program. *)
Lemma exec_outcome V P s a r : sys_inv V P s -> next_h (futures s) ∈ P -> exec a s = Some r -> outcome V P a s r.
Proof.
  intros Hs HP. unfold exec. intros Hr.
  assert (Hsys : match a with Serve | Return _ | Done => True | _ => False end \/ user_action a s = Some r).
  { destruct a; auto; right; by destruct (running s), (active (futures s)). }
  destruct Hsys as [Hsys|Hu]; [|by eapply user_action_ok].
  destruct a; try done; clear Hsys.
  - destruct (running s) eqn:Hru; [done|]. unfold serve in Hr. destruct (active (futures s)) as [[|h q]|] eqn:Hq; try done.
    destruct (serve_step_ok V P s h q Hs Hru Hq) as (s' & xb & v & E & Hs' & _). unfold serve in E. rewrite Hq in E.
    rewrite E in Hr. injection Hr as <-. apply outcome_ok; [tauto|done].
  - destruct (running s) as [h|] eqn:Hru; [|by destruct (active (futures s))].
    destruct (finish_ok V P s h ret r Hs Hru Hr) as (s' & -> & Hs' & _). apply outcome_ok; [tauto|done].
  - destruct (running s); [done|]. destruct (active (futures s)) as [[|]|] eqn:Hq; try done.
    injection Hr as <-. apply outcome_ok; [tauto|]. by apply done_ok.
Qed.

Lemma step_inv V P s a s' : sys_inv V P s -> step a s s' -> exists P', P ⊆ P' /\ sys_inv V P' s'.
Proof.
  intros Hs Hst. assert (P ⊆ {[next_h (futures s)]} ∪ P) as HP by set_solver.
  destruct (exec_outcome V _ s a _ (sys_pend_mono _ _ _ _ Hs HP) ltac:(set_solver) Hst) as [(s'' & [= <-] & ? & _)|[? _]]; [|done].
  by eexists.
Qed.

Lemma steps_inv V P s s' : sys_inv V P s -> steps s s' -> exists P', P ⊆ P' /\ sys_inv V P' s'.
Proof.
  intros Hs Hst. revert P Hs. induction Hst as [s|s s1 s2 (a & Ha) _ IH]; intros P Hs; [by exists P|].
  destruct (step_inv _ _ _ _ _ Hs Ha) as (P1 & ? & Hs1). destruct (IH _ Hs1) as (P2 & ? & ?). exists P2.
  split; [set_solver|done].
Qed.

Lemma reachable_inv s : reachable s -> exists P, sys_inv ∅ P s.
Proof. intros (P & _ & Hs)%(steps_inv _ _ _ _ init_sys_inv). by exists P. Qed.

Lemma reachable_exec s a r : reachable s -> exec a s = Some r -> exists P, outcome ∅ P a s r.
Proof.
  intros (P & Hs)%reachable_inv Hr. exists ({[next_h (futures s)]} ∪ P).
  apply exec_outcome; [eapply sys_pend_mono; [done|]|..]; [set_solver..|done].
Qed.

(** * Safety *)

(** C1: In every state a program reaches, every enabled action goes through without
    touching a freed header, body or link: it succeeds or fails an assertion. *)
Theorem no_undefined_behaviour s a r : reachable s -> exec a s = Some r -> (exists s', r = Ok s') \/ r = Aborted.
Proof.
  intros Hs Hr. destruct (reachable_exec s a r Hs Hr) as (P & [(s' & -> & _)|[-> _]]); eauto.
Qed.

(** C2: The assertions of promises and futures fail exactly on the documented misuses. *)
Theorem assertions_exact s a r : reachable s -> exec a s = Some r -> (r = Aborted <-> misuse a s).
Proof.
  intros Hs Hr. destruct (reachable_exec s a r Hs Hr) as (P & [(s' & -> & _ & Hn)|[-> Hm]]); [|done].
  split; [done|]. by intros ?%Hn.
Qed.

(** C3: The reference count of a header is the number of handles, dependency links and
    ready dependents that refer to it, and one more while it is a dependent that is not
    ready; it is positive as long as the header exists. *)
Theorem reference_counts s h x : reachable s -> hs (futures s) !! h = Some x -> h <> always ->
  ref_n x = tokens (roots s) h + links_to (futures s) h + results_to (futures s) h + pending x /\ 0 < ref_n x.
Proof.
  intros (P & Hs)%reachable_inv Hx Ha. split; [|by apply (c_pos _ _ _ (proj1 (si_inv _ _ _ Hs)) h)].
  pose proof (c_ref _ _ _ (proj1 (si_inv _ _ _ Hs)) h Ha) as H. rewrite Hx in H. lia.
Qed.

(** C4: A callback runs at most once. *)
Theorem callbacks_run_once s : reachable s -> NoDup (log s).*1.
Proof. intros (P & Hs)%reachable_inv. apply Hs. Qed.

(** C8: Every header is of its class: a result holds itself and its values, a promise
    is ready when its countdown is zero, a dependent that is ready shares a result and
    one that is not has a body whose links tell its status. *)
Theorem heap_typed s h x : reachable s -> hs (futures s) !! h = Some x -> header_ok (sys_mode ∅ ∅ s) (futures s) h x.
Proof. intros (P & Hs)%reachable_inv Hx. exact (s_header _ _ (proj2 (si_inv _ _ _ Hs)) _ _ Hx). Qed.

(** ** Leaks *)

Lemma results_to_inv st r : results_to st r <> 0 -> exists q z, hs st !! q = Some z /\ kind z = KDependent /\
  status z = status_ready /\ load z = Result r.
Proof.
  intros (q & z & Hz & Hne)%msum_pos. exists q, z. split; [done|]. unfold shares in Hne.
  destruct (decide (kind z = KDependent /\ status z = status_ready /\ load z = Result r)) as [?|Hn]; [done|].
  by rewrite ind_no in Hne.
Qed.

Lemma idle_no_links V P s : sys_inv V P s ->
  (forall h x, hs (futures s) !! h = Some x -> kind x = KDependent -> status x = status_ready) ->
  forall h, links_to (futures s) h = 0.
Proof.
  intros [Hi _] Hr h. apply msum_zero. intros b xb Hxb.
  destruct (s_body _ _ (proj2 Hi) _ _ Hxb) as [[? _]|(r & x & Hx & Hk & Hnr & _)]; [done|]. destruct Hnr. eauto.
Qed.

(** C5: Once no handle is held and no dependent waits, nothing is left in the heap but
    [always]: references do not leak. *)
Theorem no_leak s h x : reachable s -> roots s = [] ->
  (forall h x, hs (futures s) !! h = Some x -> kind x = KDependent -> status x = status_ready) ->
  hs (futures s) !! h = Some x -> h = always.
Proof.
  intros Hre Hro Hrd Hx. destruct (decide (h = always)) as [|Ha]; [done|exfalso].
  pose proof (reachable_inv _ Hre) as (P & Hs). pose proof (idle_no_links _ _ _ Hs Hrd) as Hno.
  assert (Hsum : forall r y, r <> always -> hs (futures s) !! r = Some y -> 0 < results_to (futures s) r).
  { intros r y Hr Hy. pose proof (c_pos _ _ _ (proj1 (si_inv _ _ _ Hs)) r y Hy Hr ltac:(done)) as Hp.
    pose proof (c_ref _ _ _ (proj1 (si_inv _ _ _ Hs)) r Hr) as H. rewrite Hy, Hno, Hro in H.
    rewrite (pending_zero y) in H by eauto. cbn in H. lia. }
  assert (Hdep : forall r y, r <> always -> hs (futures s) !! r = Some y -> kind y <> KDependent).
  { intros r y Hr Hy Hk. destruct (Z.eq_dec (results_to (futures s) r) 0) as [E|Hne]; [specialize (Hsum r y Hr Hy); lia|].
    destruct (results_to_inv _ _ Hne) as (q & z & Hz & Hkz & Hrz & Hlz).
    destruct (inv_ready (si_inv _ _ _ Hs) _ _ Hz Hrz) as (_ & r' & Hl' & (y' & Hy' & Hky' & _) & _).
    assert (r' = r) as -> by congruence. congruence. }
  specialize (Hsum h x Ha Hx). destruct (results_to_inv (futures s) h) as (q & z & Hz & Hkz & Hrz & Hlz); [lia|].
  destruct (decide (q = always)) as [->|Hq]; [|by eapply Hdep].
  destruct (s_always _ _ (proj2 (si_inv _ _ _ Hs))) as (y & Hy & ? & _). congruence.
Qed.

(** ** Values *)

Lemma has_value_result st h v x : has_value st h v -> hs st !! h = Some x -> result h st = Ok v.
Proof.
  intros Hv Hx. destruct (Hv x Hx) as (r & xr & Hr & Hl & Hxr & Hres).
  unfold result, is_ready, result_of. rewrite (get_some _ _ _ Hx). mcbn. rewrite Hr, Hl. mcbn.
  rewrite (get_some _ _ _ Hxr). mcbn. by rewrite Hres.
Qed.

Lemma result_has_value st h v : result h st = Ok v -> has_value st h v.
Proof.
  unfold result, is_ready. intros Hr x Hx. rewrite (get_some _ _ _ Hx) in Hr. cbn [mbind res_bind] in Hr.
  destruct (status x =? status_ready) eqn:E; [|done]. apply Z.eqb_eq in E. cbn [assert_that mbind res_bind] in Hr.
  apply bind_ok in Hr as (r & Hl & Hr). apply bind_ok in Hr as (xr & Hxr%deref_ok & Hres%deref_ok).
  unfold result_of in Hl. destruct (load x) eqn:El; [|done]. injection Hl as ->. by exists r, xr.
Qed.

Lemma held_live V P s h : sys_inv V P s -> h ∈ roots s -> is_Some (hs (futures s) !! h).
Proof. intros [Hi _] Hh%tokens_in. apply (inv_live Hi). lia. Qed.

(** The value of a ready future never changes, as long as a handle to it is held. *)
Theorem value_stable s s' h v : reachable s -> h ∈ roots s -> result h (futures s) = Ok v -> steps s s' ->
  h ∈ roots s' -> result h (futures s') = Ok v.
Proof.
  intros (P & Hs)%reachable_inv Hh Hv Hst Hh'. apply result_has_value in Hv. pose proof Hs as [Hi Hl].
  destruct (held_live _ _ _ _ Hs Hh) as [x Hx].
  assert (Hlt : (h < next_h (futures s))%nat).
  { destruct (decide (h < next_h (futures s))%nat) as [|Hge]; [done|].
    rewrite (proj1 (s_fresh _ _ (proj2 Hi))) in Hx by lia. done. }
  assert (Hs1 : sys_inv {[h := v]} P s) by (split; [exact (inv_see _ _ _ _ _ Hi Hlt Hv)|done]).
  destruct (steps_inv _ _ _ _ Hs1 Hst) as (P' & _ & Hs2). destruct (held_live _ _ _ _ Hs2 Hh') as [x' Hx'].
  eapply has_value_result; [|exact Hx']. eapply inv_value; [exact (si_inv _ _ _ Hs2)|]. cbn. apply lookup_singleton_eq.
Qed.

(** A served [when_all] or proxy becomes ready, and its value is the values of its
    dependencies one after the other. *)
Theorem serve_value s h q xb : reachable s -> running s = None -> active (futures s) = Some (h :: q) ->
  head_body s h xb -> bkind xb <> BThen ->
  exists s' v, exec Serve s = Some (Ok s') /\ dependency_results (links xb) (futures s) = Ok v /\
    (h ∈ roots s' -> result h (futures s') = Ok v).
Proof.
  intros (P & Hs)%reachable_inv Hru Hq (x & b & Hx & Hl & Hxb) Hk.
  destruct (serve_step_ok _ _ _ _ _ Hs Hru Hq) as (s' & xb' & v & He & Hs' & _ & (x' & b' & Hx' & Hl' & Hxb') & Hv & Hm).
  assert (xb' = xb) as -> by congruence. exists s', v. unfold exec. rewrite Hru. split; [done|]. split; [done|].
  intros Hh. destruct (held_live _ _ _ _ Hs' Hh) as [y Hy]. eapply has_value_result; [|exact Hy].
  destruct (bkind xb); [done|by apply Hm..].
Qed.

(** C6: A served [then] runs its callback on the values of its dependencies; the
    future that [then] gave has the values that the callback returns. *)
Theorem then_value s h q xb w : reachable s -> running s = None -> active (futures s) = Some (h :: q) ->
  head_body s h xb -> bkind xb = BThen ->
  exists s1 s2 v, exec Serve s = Some (Ok s1) /\ dependency_results (links xb) (futures s) = Ok v /\
    log s1 = log s ++ [(h, v)] /\ exec (Return (RValues w)) s1 = Some (Ok s2) /\
    (h ∈ roots s2 -> result h (futures s2) = Ok w).
Proof.
  intros (P & Hs)%reachable_inv Hru Hq (x & b & Hx & Hl & Hxb) Hk.
  destruct (serve_step_ok _ _ _ _ _ Hs Hru Hq) as (s1 & xb' & v & He & Hs1 & _ & (x' & b' & Hx' & Hl' & Hxb') & Hv & Hm).
  assert (xb' = xb) as -> by congruence. rewrite Hk in Hm. destruct Hm as (Hru1 & Hlog & _).
  destruct (finish h (RValues w) s1) as [r|] eqn:Hf; [|done].
  destruct (finish_ok _ _ _ _ _ _ Hs1 Hru1 Hf) as (s2 & -> & Hs2 & _ & _ & Hval).
  exists s1, s2, v. unfold exec. rewrite Hru, Hru1. split_and!; try done.
  intros Hh. destruct (held_live _ _ _ _ Hs2 Hh) as [y Hy]. eapply has_value_result; [|exact Hy]. by apply Hval.
Qed.

(** ** The queue is depleted *)

(** What the loops do when callbacks return values at once. *)
Definition next (f : hid -> val) (s : system) : action :=
  match running s with
  | Some h => Return (RValues (f h))
  | None => match active (futures s) with Some [] => Done | _ => Serve end
  end.

Definition idle (s : system) : bool :=
  match running s, active (futures s) with None, None => true | _, _ => false end.

Fixpoint drain (f : hid -> val) (fuel : nat) (s : system) : option (res system) :=
  if idle s then Some (Ok s)
  else match fuel with
       | O => None
       | S fuel => match exec (next f s) s with Some (Ok s) => drain f fuel s | r => r end
       end.

Definition waiting (st : heap) : gset hid :=
  dom (filter (fun p => kind p.2 = KDependent /\ status p.2 <> status_ready) (hs st)).

Lemma elem_of_waiting st h : h ∈ waiting st <->
  exists x, hs st !! h = Some x /\ kind x = KDependent /\ status x <> status_ready.
Proof.
  unfold waiting. rewrite elem_of_dom. unfold is_Some. setoid_rewrite map_lookup_filter_Some. cbn. naive_solver.
Qed.

Lemma sys_waiting V P s : sys_inv V P s -> sys_inv V (waiting (futures s)) s.
Proof.
  intros [[Hc Hs] Hl]. split; [|done]. split; [by eapply counts_mode|].
  eapply shape_mode; try done; try apply Hs. intros h x ? ? ?. apply elem_of_waiting. by exists x.
Qed.

Lemma waiting_bound V P s : sys_inv V P s -> waiting (futures s) ⊆ P.
Proof. intros [Hi _] h (x & ? & ? & ?)%elem_of_waiting. by apply (s_pend _ _ (proj2 Hi) h x). Qed.

(** A header that was waiting is not any more. *)
Lemma waiting_less V s s' h v : sys_inv V (waiting (futures s)) s' -> h ∈ waiting (futures s) ->
  has_value (futures s') h v -> (size (waiting (futures s')) < size (waiting (futures s)))%nat.
Proof.
  intros Hs' Hh Hv. apply subset_size. split; [by eapply waiting_bound|]. intros Hsub.
  apply Hsub, elem_of_waiting in Hh as (x & Hx & _ & Hn). by destruct (Hv x Hx) as (? & ? & ? & _).
Qed.

Lemma queued_waiting V P s h q : sys_inv V P s -> active (futures s) = Some (h :: q) -> h ∈ waiting (futures s).
Proof.
  intros [Hi _] Hq. destruct (proj2 (s_queue _ _ (proj2 Hi)) h) as (_ & x & Hx & Hk & Hact).
  - unfold queue. rewrite Hq. left.
  - apply elem_of_waiting. exists x. split_and!; [done..|]. destruct Hact as [-> | ->]; done.
Qed.

Lemma running_waiting V P s h : sys_inv V P s -> running s = Some h -> h ∈ waiting (futures s).
Proof.
  intros [Hi _] Hru. destruct (s_run _ _ (proj2 Hi) h Hru) as (_ & _ & x & b & xb & Hx & Hk & Hst & _).
  apply elem_of_waiting. exists x. split_and!; [done..|]. by rewrite Hst.
Qed.

Definition left (s : system) : nat := 2 * size (waiting (futures s)) + match running s with Some _ => 0 | None => 1 end.

Lemma drain_progress f V P s : sys_inv V P s -> idle s = false ->
  exists s' P', exec (next f s) s = Some (Ok s') /\ sys_inv V P' s' /\ (idle s' = true \/ (left s' < left s)%nat).
Proof.
  intros Hs%sys_waiting Hid. unfold idle, next, left in *. destruct (running s) as [h|] eqn:Hru.
  - destruct (finish h (RValues (f h)) s) as [r|] eqn:Hf; [|done].
    destruct (finish_ok _ _ _ _ _ _ Hs Hru Hf) as (s' & -> & Hs' & Hru' & _ & Hval).
    destruct (Hval _ eq_refl) as [_ Hv].
    exists s', (waiting (futures s)). unfold exec. rewrite Hru. split_and!; [done..|]. right. rewrite Hru'.
    pose proof (waiting_less _ _ _ h _ Hs' ltac:(eapply running_waiting; eauto) Hv). lia.
  - destruct (active (futures s)) as [[|h q]|] eqn:Hq; [..|done].
    + exists (with_heap s (put_active None (futures s))), (waiting (futures s)). unfold exec. rewrite Hru, Hq.
      split; [done|]. split; [by apply done_ok|]. left. unfold idle. cbn. by rewrite Hru.
    + destruct (serve_step_ok _ _ _ _ _ Hs Hru Hq) as (s' & xb & v & He & Hs' & _ & _ & _ & Hm).
      exists s', (waiting (futures s)). unfold exec. rewrite Hru. split; [done|]. split; [done|]. right.
      assert (Hh : h ∈ waiting (futures s)) by (eapply queued_waiting; eauto).
      destruct (bkind xb).
      * destruct Hm as (-> & _ & ->). change (waiting (put_active (Some q) (futures s))) with (waiting (futures s)). lia.
      * destruct Hm as (-> & _ & Hv). pose proof (waiting_less _ _ _ h _ Hs' Hh Hv). lia.
      * destruct Hm as (-> & _ & Hv). pose proof (waiting_less _ _ _ h _ Hs' Hh Hv). lia.
Qed.

Lemma drain_terminates_from f n : forall V P s, sys_inv V P s -> (left s <= n)%nat ->
  exists s', drain f n s = Some (Ok s') /\ idle s' = true.
Proof.
  induction n as [|n IH]; intros V P s Hs Hn; cbn [drain]; destruct (idle s) eqn:Hid; try by exists s.
  - destruct (drain_progress f _ _ _ Hs Hid) as (s' & P' & _ & Hs' & Hm).
    unfold left, idle in *. destruct (running s) as [h|] eqn:Hru; [|lia].
    pose proof (running_waiting _ _ _ _ Hs Hru) as Hw.
    destruct (decide (size (waiting (futures s)) = 0%nat)) as [E|?]; [|lia].
    apply size_empty_inv in E. set_solver.
  - destruct (drain_progress f _ _ _ Hs Hid) as (s' & P' & -> & Hs' & Hm).
    destruct Hm as [Hid'|Hlt]; [|apply (IH V P'); [done|lia]].
    exists s'. split; [|done]. destruct n; cbn [drain]; by rewrite Hid'.
Qed.

(** C7: When callbacks return values, the active queue is depleted after at most two
    steps for each dependent that waits, and one more. *)
Theorem drain_terminates f s : reachable s ->
  exists s', drain f (2 * size (waiting (futures s)) + 1) s = Some (Ok s') /\ running s' = None /\
    active (futures s') = None.
Proof.
  intros (P & Hs)%reachable_inv.
  destruct (drain_terminates_from f (2 * size (waiting (futures s)) + 1) _ _ _ Hs) as (s' & Hd & Hid).
  { unfold left. destruct (running s); lia. }
  exists s'. split; [done|]. unfold idle in Hid. by destruct (running s'), (active (futures s')).
Qed.

(** * Runs *)

Fixpoint play (l : list action) (s : system) : option system :=
  match l with
  | [] => Some s
  | a :: l => match exec a s with Some (Ok s) => play l s | _ => None end
  end.

Lemma play_steps l s s' : play l s = Some s' -> steps s s'.
Proof.
  revert s. induction l as [|a l IH]; intros s; cbn [play]; [intros [= ->]; apply rtc_refl|].
  destruct (exec a s) as [[s1| | |]|] eqn:E; try done. intros H. eapply rtc_l; [by exists a|by apply IH].
Qed.

Definition after (l : list action) : system := default init (play l init).

Definition playable (l : list action) : bool := match play l init with Some _ => true | None => false end.

Lemma after_reachable l : playable l = true -> reachable (after l).
Proof. unfold after, playable. destruct (play l init) as [s|] eqn:E; [|done]. intros _. by eapply play_steps. Qed.

Lemma after_steps l k : match play k (after l) with Some _ => true | None => false end = true ->
  steps (after l) (default init (play k (after l))).
Proof. destruct (play k (after l)) as [s|] eqn:E; [|done]. intros _. by eapply play_steps. Qed.

(** A promise [1], [then] on it ([2]), a value ([3]), [when_all] of both ([4]). *)
Definition chain : list action :=
  [NewPromise false 1; Copy 1%nat; Then false [1%nat]; MakeFuture [7]; Copy 2%nat; WhenAll [[1]; [1]] [2%nat; 3%nat]].
Definition started : list action := chain ++ [FulfillResult 1%nat [5]].
Definition called : list action := started ++ [Serve; Return (RValues [6])].
Definition finished : list action := called ++ [Serve; Done].
Definition dropped : list action := finished ++ [Drop 1%nat; Drop 2%nat; Drop 4%nat].

Example finished_value : result 4%nat (futures (after finished)) = Ok [6; 7].
Proof. vm_compute. reflexivity. Qed.

Example finished_log : log (after finished) = [(2%nat, [5])].
Proof. vm_compute. reflexivity. Qed.

Example dropped_heap : map_to_list (hs (futures (after dropped))) =
  [(always, mk_header (-1) status_ready [] (Result always) KResult true (Some []))].
Proof. vm_compute. reflexivity. Qed.


Definition header (s : system) (h : hid) : future_header :=
  default (mk_header 0 0 [] (Body O) KDependent false None) (hs (futures s) !! h).

Lemma no_undefined_behaviour_witness :
  (exists s', exec Serve (after started) = Some (Ok s')) /\
  ((exists s', Ok (after (started ++ [Serve])) = Ok s') \/ Ok (after (started ++ [Serve])) = Aborted).
Proof.
  split; [exists (after (started ++ [Serve])); vm_compute; reflexivity|].
  apply (no_undefined_behaviour (after started) Serve); [apply after_reachable|]; vm_compute; reflexivity.
Defined.

Lemma assertions_exact_witness : (Aborted : res system) = Aborted <-> misuse (FulfillAnonymous 1%nat 5) (after chain).
Proof.
  apply (assertions_exact (after chain) (FulfillAnonymous 1%nat 5)); [apply after_reachable|]; vm_compute; reflexivity.
Defined.

Lemma reference_counts_witness : let s := after chain in
  ref_n (header s 1%nat) = tokens (roots s) 1%nat + links_to (futures s) 1%nat + results_to (futures s) 1%nat +
    pending (header s 1%nat) /\ 0 < ref_n (header s 1%nat).
Proof.
  apply (reference_counts (after chain)); [apply after_reachable; vm_compute; reflexivity|vm_compute; reflexivity|done].
Defined.

Lemma callbacks_run_once_witness : log (after finished) = [(2%nat, [5])] /\ NoDup (log (after finished)).*1.
Proof. split; [vm_compute; reflexivity|]. apply callbacks_run_once, after_reachable. vm_compute. reflexivity. Defined.

Lemma heap_typed_witness : header_ok (sys_mode ∅ ∅ (after chain)) (futures (after chain)) 4%nat (header (after chain) 4%nat).
Proof. apply heap_typed; [apply after_reachable|]; vm_compute; reflexivity. Defined.

Lemma no_leak_witness : exists h x, hs (futures (after dropped)) !! h = Some x /\ h = always.
Proof.
  exists always, (header (after dropped) always).
  assert (H : hs (futures (after dropped)) !! always = Some (header (after dropped) always)) by (vm_compute; reflexivity).
  split; [exact H|]. apply (no_leak (after dropped) always (header (after dropped) always)); [|vm_compute; reflexivity| |exact H].
  - apply after_reachable. vm_compute. reflexivity.
  - intros h x Hx%elem_of_map_to_list. rewrite dropped_heap in Hx.
    apply list_elem_of_singleton in Hx. injection Hx as -> ->. done.
Defined.

Lemma value_stable_witness : result 4%nat (futures (default init (play [Drop 1%nat; Drop 2%nat] (after finished)))) = Ok [6; 7].
Proof.
  apply (value_stable (after finished)).
  - apply after_reachable. vm_compute. reflexivity.
  - vm_compute. left.
  - vm_compute. reflexivity.
  - apply after_steps. vm_compute. reflexivity.
  - vm_compute. left.
Defined.

Lemma serve_value_witness : exists s' v, exec Serve (after called) = Some (Ok s') /\
  dependency_results [mk_link 5%nat None; mk_link 3%nat None] (futures (after called)) = Ok v /\
  (4%nat ∈ roots s' -> result 4%nat (futures s') = Ok v).
Proof.
  apply (serve_value (after called) 4%nat [] (mk_body BIdentity [mk_link 5%nat None; mk_link 3%nat None]));
    [apply after_reachable; vm_compute; reflexivity|vm_compute; reflexivity|vm_compute; reflexivity| |done].
  exists (header (after called) 4%nat), 1%nat. split_and!; vm_compute; reflexivity.
Defined.

Lemma then_value_witness : exists s1 s2 v, exec Serve (after started) = Some (Ok s1) /\
  dependency_results [mk_link 1%nat None] (futures (after started)) = Ok v /\
  log s1 = log (after started) ++ [(2%nat, v)] /\ exec (Return (RValues [6])) s1 = Some (Ok s2) /\
  (2%nat ∈ roots s2 -> result 2%nat (futures s2) = Ok [6]).
Proof.
  apply (then_value (after started) 2%nat [] (mk_body BThen [mk_link 1%nat None]));
    [apply after_reachable; vm_compute; reflexivity|vm_compute; reflexivity|vm_compute; reflexivity| |done].
  exists (header (after started) 2%nat), 0%nat. split_and!; vm_compute; reflexivity.
Defined.

Lemma drain_terminates_witness : exists s', drain (fun _ => [6]) (2 * size (waiting (futures (after started))) + 1)
  (after started) = Some (Ok s') /\ running s' = None /\ active (futures s') = None.
Proof. apply (drain_terminates (fun _ => [6])), after_reachable. vm_compute. reflexivity. Defined.

End System.
