(* ===== verification/Persona.v ===== *)
(** Personas and their scopes: [src/persona.hpp].

    Each thread keeps a stack of scopes, linked through [next_], and the stack of
    those scopes that made their persona active, linked through [next_unique_].
    Fields of thread-local objects are stored xor-ed with the value they start
    with, so that zeroed memory is a thread whose default persona is active.

    Objects live at addresses; a thread is named by a number, and the addresses of
    its default persona and default scope are parameters.  The abstract state is
    the stack of entries of every thread; the pointers refine it. *)
From S2P Require Import Prelude.

Module Personas.

(** * State *)

Abbreviation tid := nat.
Abbreviation addr := Z.
Abbreviation lpc := nat.

Inductive progress_level := internal | user.
Definition level (l : progress_level) : Z := match l with internal => 0 | user => 1 end.

(** An array of two inboxes, indexed by the progress level. *)
Record inbox := mk_inbox { at_internal : list lpc; at_user : list lpc }.

Record persona := mk_persona {
  owner_xor_this : Z; peer_inbox : inbox; self_inbox : inbox;
  pros_deferred_trivial : list lpc; undischarged_n : Z
}.

(** [lock_] and [restore_top_persona_] are one field. *)
Record persona_scope := mk_scope {
  next : addr; persona_xor_default : Z; next_unique : addr; lock_or_restore : addr; unlocker : bool
}.

Record persona_tls := mk_tls {
  progressing_add_1 : Z; burstable_bits : Z; is_primordial_thread : bool;
  top_xor_default : Z; top_unique_xor_default : Z; top_persona_xor_default : Z
}.

Record state := mk_state {
  personas : gmap addr persona; scopes : gmap addr persona_scope; threads : gmap tid persona_tls; locked : gset addr
}.

Definition invalid : addr := 1.

Definition no_lpcs : inbox := mk_inbox [] [].

(** [persona()], the persona made by [constexpr persona(internal_only)], the default
    scope and the thread-local object, which is all zeros. *)
Definition new_persona (a : addr) : persona := mk_persona a no_lpcs no_lpcs [] 0.
Definition default_persona : persona := mk_persona 0 no_lpcs no_lpcs [] 0.
Definition default_scope_raw : persona_scope := mk_scope 0 0 0 0 false.
Definition the_persona_tls : persona_tls := mk_tls 0 0 false 0 0 0.

(** ** Access *)

Definition get_persona_at (a : addr) (st : state) : res persona := deref (personas st !! a).
Definition get_scope (s : addr) (st : state) : res persona_scope := deref (scopes st !! s).
Definition get_tls (t : tid) (st : state) : res persona_tls := deref (threads st !! t).

Definition put_persona (a : addr) (p : persona) (st : state) : state :=
  mk_state (<[a := p]> (personas st)) (scopes st) (threads st) (locked st).
Definition put_scope (s : addr) (x : persona_scope) (st : state) : state :=
  mk_state (personas st) (<[s := x]> (scopes st)) (threads st) (locked st).
Definition put_tls (t : tid) (x : persona_tls) (st : state) : state :=
  mk_state (personas st) (scopes st) (<[t := x]> (threads st)) (locked st).
Definition put_locked (l : gset addr) (st : state) : state :=
  mk_state (personas st) (scopes st) (threads st) l.
Definition free_scope (s : addr) (st : state) : state :=
  mk_state (personas st) (delete s (scopes st)) (threads st) (locked st).

Section Layout.
(** [&tls.default_persona] and [&tls.default_scope_raw] of each thread, the master
    persona, and whether the library is built for one thread. *)
Context (default_persona_of default_scope_of : tid -> addr) (master : addr) (threadmode_seq : bool).

Abbreviation dp := default_persona_of.
Abbreviation ds := default_scope_of.

(** ** Fields stored xor-ed *)

Definition get_owner (a : addr) (p : persona) : addr := Z.lxor (owner_xor_this p) a.
Definition set_owner (a val : addr) (p : persona) : persona :=
  mk_persona (Z.lxor val a) (peer_inbox p) (self_inbox p) (pros_deferred_trivial p) (undischarged_n p).

Definition active (a : addr) (p : persona) : bool := negb (get_owner a p =? 0).
Definition active_with_caller (t : tid) (a : addr) (p : persona) : bool := get_owner a p =? dp t.

Definition scope_persona (t : tid) (x : persona_scope) : addr := Z.lxor (persona_xor_default x) (dp t).
Definition set_scope_persona (t : tid) (val : addr) (x : persona_scope) : persona_scope :=
  mk_scope (next x) (Z.lxor val (dp t)) (next_unique x) (lock_or_restore x) (unlocker x).

Definition get_progressing (x : persona_tls) : Z := progressing_add_1 x - 1.
Definition set_progressing (val : Z) (x : persona_tls) : persona_tls :=
  mk_tls (val + 1) (burstable_bits x) (is_primordial_thread x) (top_xor_default x) (top_unique_xor_default x)
         (top_persona_xor_default x).

Definition is_burstable (lev : progress_level) (x : persona_tls) : bool :=
  negb (Z.land (Z.lor (burstable_bits x) 1) (Z.shiftl 1 (level lev)) =? 0).
Definition flip_burstable (lev : progress_level) (x : persona_tls) : persona_tls :=
  mk_tls (progressing_add_1 x) (Z.lxor (burstable_bits x) (Z.shiftl 1 (level lev))) (is_primordial_thread x)
         (top_xor_default x) (top_unique_xor_default x) (top_persona_xor_default x).

Definition get_top_scope (t : tid) (x : persona_tls) : addr := Z.lxor (top_xor_default x) (ds t).
Definition set_top_scope (t : tid) (val : addr) (x : persona_tls) : persona_tls :=
  mk_tls (progressing_add_1 x) (burstable_bits x) (is_primordial_thread x) (Z.lxor (ds t) val)
         (top_unique_xor_default x) (top_persona_xor_default x).

Definition get_top_unique_scope (t : tid) (x : persona_tls) : addr := Z.lxor (top_unique_xor_default x) (ds t).
Definition set_top_unique_scope (t : tid) (val : addr) (x : persona_tls) : persona_tls :=
  mk_tls (progressing_add_1 x) (burstable_bits x) (is_primordial_thread x) (top_xor_default x) (Z.lxor (ds t) val)
         (top_persona_xor_default x).

Definition get_top_persona (t : tid) (x : persona_tls) : addr := Z.lxor (top_persona_xor_default x) (dp t).
Definition set_top_persona (t : tid) (val : addr) (x : persona_tls) : persona_tls :=
  mk_tls (progressing_add_1 x) (burstable_bits x) (is_primordial_thread x) (top_xor_default x)
         (top_unique_xor_default x) (Z.lxor (dp t) val).

(** [current_persona] *)
Definition current_persona (t : tid) (st : state) : res addr :=
  x ← get_tls t st; Ok (get_top_persona t x).

(** * Scopes *)

(** [persona_scope::activate] of the scope at [s], whose [lock_] and [unlocker_] are set. *)
Definition activate (t : tid) (s a : addr) (st : state) : res state :=
  x ← get_tls t st;
  p ← get_persona_at a st;
  let was_active := active a p in
  _ ← assert_that (negb was_active || active_with_caller t a p);
  _ ← assert_that (negb (threadmode_seq && (a =? master)) || is_primordial_thread x);
  sc ← get_scope s st;
  let sc := set_scope_persona t a sc in
  let p := set_owner a (dp t) p in
  let sc := mk_scope (get_top_scope t x) (persona_xor_default sc)
                     (if was_active then invalid else get_top_unique_scope t x) (lock_or_restore sc) (unlocker sc) in
  let x := set_top_persona t a (set_top_scope t s x) in
  let x := if was_active then x else set_top_unique_scope t s x in
  _ ← assert_that (active_with_caller t a p);
  Ok (put_tls t x (put_scope s sc (put_persona a p st))).

(** [persona_scope(persona&)] and [persona_scope(Mutex&, persona&)] at the fresh
    address [s]; locking a mutex that is held blocks. *)
Definition scope_ctor (t : tid) (s a : addr) (st : state) : res state :=
  activate t s a (put_scope s (mk_scope 0 0 0 0 false) st).
Definition scope_ctor_lock (t : tid) (l s a : addr) (st : state) : option (res state) :=
  if decide (l ∈ locked st) then None
  else Some (activate t s a (put_scope s (mk_scope 0 0 0 l true) (put_locked ({[l]} ∪ locked st) st))).

(** [~persona_scope] *)
Definition scope_dtor (t : tid) (s : addr) (st : state) : res state :=
  sc ← get_scope s st;
  if next sc =? invalid then Ok (free_scope s st)
  else
    x ← get_tls t st;
    _ ← assert_that (s =? get_top_scope t x);
    nx ← get_scope (next sc) st;
    let x := set_top_persona t (scope_persona t nx) (set_top_scope t (next sc) x) in
    st ← (if next_unique sc =? invalid then Ok (put_tls t x st)
          else
            p ← get_persona_at (scope_persona t sc) st;
            Ok (put_tls t (set_top_unique_scope t (next_unique sc) x)
                  (put_persona (scope_persona t sc) (set_owner (scope_persona t sc) 0 p) st)));
    let st := if unlocker sc then put_locked (locked st ∖ {[lock_or_restore sc]}) st else st in
    Ok (free_scope s st).

(** [persona_scope(persona_scope&&)] of [s] to the fresh address [d]. *)
Definition scope_move (s d : addr) (st : state) : res state :=
  sc ← get_scope s st;
  let st := put_scope d sc st in
  Ok (put_scope s (mk_scope invalid (persona_xor_default sc) (next_unique sc) (lock_or_restore sc) (unlocker sc)) st).

(** [persona_scope_redundant] and its destructor. *)
Definition redundant_ctor (t : tid) (s a : addr) (st : state) : res state :=
  x ← get_tls t st;
  let sc := mk_scope (get_top_scope t x) (Z.lxor a (dp t)) 0 (get_top_persona t x) false in
  Ok (put_tls t (set_top_persona t a (set_top_scope t s x)) (put_scope s sc st)).

Definition redundant_dtor (t : tid) (s : addr) (st : state) : res state :=
  sc ← get_scope s st;
  x ← get_tls t st;
  _ ← assert_that (s =? get_top_scope t x);
  Ok (free_scope s (put_tls t (set_top_persona t (lock_or_restore sc) (set_top_scope t (next sc) x)) st)).

(** * Traversals *)

(** [persona_tls::progress_required(bottom)]: is there work left for a persona
    between the top scope and [bot]?  Each turn goes to the next scope. *)
Fixpoint progress_required_from (fuel : nat) (t : tid) (ps bot : addr) (st : state) : res bool :=
  match fuel with
  | O => Undef
  | S fuel =>
      sc ← get_scope ps st;
      p ← get_persona_at (scope_persona t sc) st;
      if negb (undischarged_n p =? 0) then Ok true
      else if ps =? bot then Ok false
      else progress_required_from fuel t (next sc) bot st
  end.

Definition progress_required (fuel : nat) (t : tid) (bottom : option addr) (st : state) : res bool :=
  x ← get_tls t st;
  progress_required_from fuel t (get_top_scope t x) (default (ds t) bottom) st.

(** [persona_tls::foreach_active_as_top]; the scopes that make a persona the top one
    while [fn] runs live at [tmp], and [A] is what [fn] accumulates. *)
Fixpoint foreach_from {A} (fuel : nat) (t : tid) (tmp ps : addr) (fn : addr -> A -> state -> res (A * state))
    (acc : A) (st : state) : res (A * state) :=
  match fuel with
  | O => Undef
  | S fuel =>
      sc ← get_scope ps st;
      let p := scope_persona t sc in
      _ ← get_persona_at p st;
      st ← redundant_ctor t tmp p st;
      '(acc, st) ← fn p acc st;
      sc ← get_scope ps st;
      st ← redundant_dtor t tmp st;
      if next_unique sc =? 0 then Ok (acc, st)
      else foreach_from fuel t tmp (next_unique sc) fn acc st
  end.

Definition foreach_active_as_top {A} (fuel : nat) (t : tid) (tmp : addr)
    (fn : addr -> A -> state -> res (A * state)) (acc : A) (st : state) : res (A * state) :=
  x ← get_tls t st;
  foreach_from fuel t tmp (get_top_unique_scope t x) fn acc st.

(** * Sending *)

Definition enqueue_at (lev : progress_level) (m : lpc) (i : inbox) : inbox :=
  match lev with
  | internal => mk_inbox (at_internal i ++ [m]) (at_user i)
  | user => mk_inbox (at_internal i) (at_user i ++ [m])
  end.
Definition to_self (lev : progress_level) (m : lpc) (p : persona) : persona :=
  mk_persona (owner_xor_this p) (peer_inbox p) (enqueue_at lev m (self_inbox p)) (pros_deferred_trivial p) (undischarged_n p).
Definition to_peer (lev : progress_level) (m : lpc) (p : persona) : persona :=
  mk_persona (owner_xor_this p) (enqueue_at lev m (peer_inbox p)) (self_inbox p) (pros_deferred_trivial p) (undischarged_n p).
Definition to_deferred (m : lpc) (p : persona) : persona :=
  mk_persona (owner_xor_this p) (peer_inbox p) (self_inbox p) (pros_deferred_trivial p ++ [m]) (undischarged_n p).

(** [persona_tls::enqueue], [persona_tls::defer]: to the caller's own inbox, or to the
    one for other threads. *)
Definition enqueue (t : tid) (a : addr) (lev : progress_level) (m : lpc) (st : state) : res state :=
  p ← get_persona_at a st;
  Ok (put_persona a ((if active_with_caller t a p then to_self else to_peer) lev m p) st).

(** [persona::lpc_ff] *)
Definition lpc_ff (t : tid) (a : addr) (m : lpc) (st : state) : res state := enqueue t a user m st.

(** [persona_tls::enqueue_quiesced_promise] of a promise whose results may be trivial to destroy. *)
Definition enqueue_quiesced_promise (t : tid) (a : addr) (lev : progress_level) (trivially_deletable : bool)
    (m : lpc) (st : state) : res state :=
  p ← get_persona_at a st;
  Ok (put_persona a
        (if active_with_caller t a p then
           match lev with
           | user => if trivially_deletable then to_deferred m p else to_self lev m p
           | internal => to_self lev m p
           end
         else to_peer lev m p) st).

(** [persona_tls::during]: when the level may be served here and now, [fn] runs with
    the persona on top, and not again before it returns; else the callback is queued. *)
Definition with_tls (t : tid) (f : persona_tls -> persona_tls) (st : state) : res state :=
  x ← get_tls t st; Ok (put_tls t (f x) st).

Definition during (t : tid) (tmp a : addr) (lev : progress_level) (m : lpc) (fn : state -> res state)
    (st : state) : res state :=
  p ← get_persona_at a st;
  if active_with_caller t a p then
    x ← get_tls t st;
    if is_burstable lev x then
      st ← with_tls t (flip_burstable lev) st;
      st ← redundant_ctor t tmp a st;
      st ← fn st;
      st ← redundant_dtor t tmp st;
      with_tls t (flip_burstable lev) st
    else Ok (put_persona a (to_self lev m p) st)
  else Ok (put_persona a (to_peer lev m p) st).

(** * Bursts *)

(** [execute] is what running a queued callback on a thread does. *)
Context (execute : lpc -> tid -> state -> res state).

Fixpoint execute_all (t : tid) (l : list lpc) (st : state) : res state :=
  match l with [] => Ok st | m :: l => st ← execute m t st; execute_all t l st end.

(** The queues of a persona. *)
Inductive queue := Peer (lev : progress_level) | Self (lev : progress_level) | Deferred.

Definition at_level (lev : progress_level) (i : inbox) : list lpc :=
  match lev with internal => at_internal i | user => at_user i end.
Definition set_level (lev : progress_level) (l : list lpc) (i : inbox) : inbox :=
  match lev with internal => mk_inbox l (at_user i) | user => mk_inbox (at_internal i) l end.
Definition get_queue (q : queue) (p : persona) : list lpc :=
  match q with
  | Peer lev => at_level lev (peer_inbox p)
  | Self lev => at_level lev (self_inbox p)
  | Deferred => pros_deferred_trivial p
  end.
Definition set_queue (q : queue) (l : list lpc) (p : persona) : persona :=
  match q with
  | Peer lev => mk_persona (owner_xor_this p) (set_level lev l (peer_inbox p)) (self_inbox p) (pros_deferred_trivial p) (undischarged_n p)
  | Self lev => mk_persona (owner_xor_this p) (peer_inbox p) (set_level lev l (self_inbox p)) (pros_deferred_trivial p) (undischarged_n p)
  | Deferred => mk_persona (owner_xor_this p) (peer_inbox p) (self_inbox p) l (undischarged_n p)
  end.

(** How many of the callbacks that are there one burst runs, when none is added by
    another thread meanwhile: of a [none] queue at most [max_n], of an [mpsc] queue not
    the last, unless it is alone, and all of the deferred promises. *)
Definition burst_size (q : queue) (max_n k : nat) : nat :=
  match q with
  | Peer _ => match k with O => O | S O => 1 | S k' => Nat.min max_n k' end
  | Self _ => Nat.min max_n k
  | Deferred => k
  end.

(** [lpc_inbox::burst]: oldest first; the rest stays in front of what is added. *)
Definition burst (t : tid) (a : addr) (q : queue) (max_n : nat) (st : state) : res (Z * state) :=
  p ← get_persona_at a st;
  let l := get_queue q p in
  let n := burst_size q max_n (length l) in
  st ← execute_all t (take n l) (put_persona a (set_queue q [] p) st);
  p ← get_persona_at a st;
  Ok (Z.of_nat n, put_persona a (set_queue q (drop n l ++ get_queue q p) p) st).

Definition max_burst : nat := 100.

Definition burst_internal (t : tid) (a : addr) (st : state) : res (Z * state) :=
  '(n1, st) ← burst t a (Peer internal) max_burst st;
  '(n2, st) ← burst t a (Self internal) max_burst st;
  Ok (n1 + n2, st).

Definition burst_user (t : tid) (a : addr) (st : state) : res (Z * state) :=
  '(n1, st) ← burst t a (Peer user) max_burst st;
  '(n2, st) ← burst t a (Self user) max_burst st;
  '(n3, st) ← burst t a Deferred max_burst st;
  Ok (n1 + n2 + n3, st).

(** [persona_tls::persona_only_progress] *)
Definition persona_only_progress (fuel : nat) (t : tid) (tmp : addr) (st : state) : res (Z * state) :=
  x ← get_tls t st;
  if negb (get_progressing x =? -1) then Ok (0, st)
  else
    _ ← assert_that (negb (is_burstable user x));
    st ← with_tls t (fun x => flip_burstable user (set_progressing (level user) x)) st;
    '(n, st) ← foreach_active_as_top fuel t tmp (fun p n st =>
        '(n1, st) ← burst_internal t p st;
        st ← with_tls t (flip_burstable user) st;
        '(n2, st) ← burst_user t p st;
        st ← with_tls t (flip_burstable user) st;
        Ok (n + n1 + n2, st)) 0 st;
    st ← with_tls t (fun x => set_progressing (-1) (flip_burstable user x)) st;
    Ok (n, st).

End Layout.
End Personas.
