(* ===== verification/PersonaScopes.v ===== *)
(** The scopes of personas refine stacks.

    The abstract state gives each thread the stack of its scopes, newest first; an
    entry tells whether it made its persona active.  The pointers, the fields stored
    xor-ed and the owners of the personas are a function of the stacks, and the
    constructors and destructors of scopes push and pop. *)
From S2P Require Import Prelude Persona.

Module Scopes.
Import Personas.

(** * Stacks *)

Inductive entry_kind := Unique | Shared | Redundant.
Record entry := mk_entry { e_scope : addr; e_persona : addr; e_kind : entry_kind; e_lock : option addr }.

#[export] Instance entry_kind_eq_dec : EqDecision entry_kind.
Proof. solve_decision. Defined.

Abbreviation stacks := (gmap tid (list entry)).

Section Layout.
Context (dp ds : tid -> addr) (master : addr) (seq : bool).

(** What the pointers say. *)
Definition top_of (t : tid) (l : list entry) : addr := match l with [] => ds t | e :: _ => e_scope e end.
Definition persona_of (t : tid) (l : list entry) : addr := match l with [] => dp t | e :: _ => e_persona e end.
Fixpoint unique_of (t : tid) (l : list entry) : addr :=
  match l with [] => ds t | e :: l => if decide (e_kind e = Unique) then e_scope e else unique_of t l end.

Definition entry_scope (t : tid) (e : entry) (l : list entry) : persona_scope :=
  mk_scope (top_of t l) (Z.lxor (e_persona e) (dp t))
    (match e_kind e with Unique => unique_of t l | Shared => invalid | Redundant => 0 end)
    (match e_kind e with Redundant => persona_of t l | _ => default 0 (e_lock e) end)
    (match e_lock e with Some _ => true | None => false end).

Fixpoint linked (t : tid) (l : list entry) (st : state) : Prop :=
  match l with
  | [] => scopes st !! ds t = Some default_scope_raw
  | e :: l => scopes st !! e_scope e = Some (entry_scope t e l) /\ linked t l st
  end.

(** The personas that a stack makes active. *)
Fixpoint uniques (t : tid) (l : list entry) : list addr :=
  match l with
  | [] => [dp t]
  | e :: l => if decide (e_kind e = Unique) then e_persona e :: uniques t l else uniques t l
  end.
Definition owned (t : tid) (l : list entry) (a : addr) : Prop := a ∈ uniques t l.

(** An address that is neither null nor the mark of a dead scope. *)
Definition valid (s : addr) : Prop := s <> invalid /\ s <> 0.

Fixpoint well_formed (t : tid) (l : list entry) : Prop :=
  match l with
  | [] => True
  | e :: l => well_formed t l /\ e_scope e ∉ e_scope <$> l /\ valid (e_scope e) /\ (forall r, e_scope e <> ds r) /\
      (e_kind e = Unique <-> ~ owned t l (e_persona e)) /\ (e_kind e = Redundant -> e_lock e = None)
  end.

Definition tls_ok (t : tid) (l : list entry) (x : persona_tls) : Prop :=
  get_top_scope ds t x = top_of t l /\ get_top_unique_scope ds t x = unique_of t l /\
  get_top_persona dp t x = persona_of t l.

Definition owns (A : stacks) (t : tid) (a : addr) : Prop := exists l, A !! t = Some l /\ owned t l a.

Record rep (A : stacks) (st : state) : Prop := {
  r_threads : forall t, is_Some (A !! t) <-> is_Some (threads st !! t);
  r_tls : forall t l x, A !! t = Some l -> threads st !! t = Some x -> tls_ok t l x;
  r_linked : forall t l, A !! t = Some l -> linked t l st /\ well_formed t l;
  r_disjoint : forall t1 t2 l1 l2 s, A !! t1 = Some l1 -> A !! t2 = Some l2 ->
    s ∈ e_scope <$> l1 -> s ∈ e_scope <$> l2 -> t1 = t2;
  r_owner : forall a p, personas st !! a = Some p ->
    (forall t, owns A t a <-> get_owner a p = dp t) /\ (get_owner a p <> 0 -> exists t, get_owner a p = dp t);
  r_alive : forall t a, owns A t a -> is_Some (personas st !! a);
  r_scopes : forall s, is_Some (scopes st !! s) ->
    exists t l, A !! t = Some l /\ (s = ds t \/ s ∈ e_scope <$> l)
}.

Context (dp_inj : Inj (=) (=) dp) (ds_inj : Inj (=) (=) ds).
Context (dp_pos : forall t, dp t <> 0) (ds_pos : forall t, ds t <> 0 /\ ds t <> invalid).

(** ** Fields stored xor-ed *)

Lemma lxor_l a b : Z.lxor (Z.lxor a b) a = b.
Proof. by rewrite Z.lxor_comm, <- Z.lxor_assoc, Z.lxor_nilpotent, Z.lxor_0_l. Qed.

Lemma lxor_r a b : Z.lxor (Z.lxor a b) b = a.
Proof. by rewrite Z.lxor_assoc, Z.lxor_nilpotent, Z.lxor_0_r. Qed.

Lemma get_set_owner a v p : get_owner a (set_owner a v p) = v.
Proof. apply lxor_r. Qed.

Lemma get_set_top t v x : get_top_scope ds t (set_top_scope ds t v x) = v.
Proof. apply lxor_l. Qed.

Lemma get_set_top_unique t v x : get_top_unique_scope ds t (set_top_unique_scope ds t v x) = v.
Proof. apply lxor_l. Qed.

Lemma get_set_top_persona t v x : get_top_persona dp t (set_top_persona dp t v x) = v.
Proof. apply lxor_l. Qed.

Lemma entry_persona t e l : scope_persona dp t (entry_scope t e l) = e_persona e.
Proof. apply lxor_r. Qed.

Lemma default_scope_persona t : scope_persona dp t default_scope_raw = dp t.
Proof. apply Z.lxor_0_l. Qed.

(** ** Stacks and what they point to *)

Lemma owned_cons t e l a : owned t (e :: l) a <-> owned t l a \/ (e_kind e = Unique /\ e_persona e = a).
Proof.
  clear dp_inj ds_inj dp_pos ds_pos. unfold owned. cbn. case_decide; [rewrite elem_of_cons|]; naive_solver.
Qed.

Lemma owned_tail t e l a : owned t l a -> owned t (e :: l) a.
Proof. rewrite owned_cons. by left. Qed.

Lemma owned_head t e l : e_kind e = Unique -> owned t (e :: l) (e_persona e).
Proof. rewrite owned_cons. by right. Qed.

#[export] Instance owned_dec t l a : Decision (owned t l a).
Proof. unfold owned. apply _. Defined.

Lemma linked_frame t l st st' : linked t l st -> scopes st' !! ds t = scopes st !! ds t ->
  (forall s, s ∈ e_scope <$> l -> scopes st' !! s = scopes st !! s) -> linked t l st'.
Proof.
  induction l as [|e l IH]; cbn; intros Hl Hd Hs; [by rewrite Hd|]. destruct Hl as [He Hl].
  split; [rewrite Hs; [done|left]|]. apply IH; [done..|]. intros s Hin. apply Hs. by right.
Qed.

Lemma linked_scope t l st s : linked t l st -> s ∈ e_scope <$> l -> is_Some (scopes st !! s).
Proof.
  induction l as [|e l IH]; cbn; intros Hl Hin; [by apply elem_of_nil in Hin|].
  apply elem_of_cons in Hin as [->|Hin]; [destruct Hl as [-> _]; by eexists|by apply IH; [apply Hl|]].
Qed.

Lemma linked_default t l st : linked t l st -> scopes st !! ds t = Some default_scope_raw.
Proof. induction l as [|e l IH]; cbn; [done|]. intros [_ ?]. auto. Qed.

Lemma linked_top t l st : linked t l st -> exists sc, scopes st !! top_of t l = Some sc /\
  scope_persona dp t sc = persona_of t l.
Proof.
  destruct l as [|e l]; cbn; intros Hl.
  - exists default_scope_raw. split; [done|apply default_scope_persona].
  - destruct Hl as [Hl _]. eexists. split; [done|apply entry_persona].
Qed.

Lemma top_not_invalid t l : well_formed t l -> top_of t l <> invalid.
Proof. destruct l as [|e l]; cbn; [intros _; apply ds_pos|unfold valid; tauto]. Qed.

Lemma unique_cases t l : unique_of t l = ds t \/ exists e, e ∈ l /\ unique_of t l = e_scope e.
Proof.
  induction l as [|e l IH]; cbn; [by left|]. case_decide; [right; exists e; split; [left|done]|].
  destruct IH as [?|(q & ? & ?)]; [by left|right]. exists q. split; [by right|done].
Qed.

Lemma well_formed_scope t l e : well_formed t l -> e ∈ l -> valid (e_scope e).
Proof.
  induction l as [|e' l IH]; cbn; intros Hw Hin; [by apply elem_of_nil in Hin|].
  apply elem_of_cons in Hin as [->|Hin]; [tauto|]. apply IH; [tauto|done].
Qed.

Lemma owns_ne A t l r b : r <> t -> owns (<[t := l]> A) r b <-> owns A r b.
Proof.
  intros. unfold owns. split; intros (k & Hk & ?); exists k; (split; [|done]).
  - rewrite lookup_insert_ne in Hk by done. done.
  - rewrite lookup_insert_ne by done. done.
Qed.

Lemma owns_eq A t l b : owns (<[t := l]> A) t b <-> owned t l b.
Proof.
  unfold owns. split; [intros (k & Hk & ?); rewrite lookup_insert_eq in Hk; by simplify_eq|].
  intros. exists l. by rewrite lookup_insert_eq.
Qed.

(** * Push and pop *)

Definition push_entry (t : tid) (l : list entry) (s a : addr) (lk : option addr) : entry :=
  mk_entry s a (if decide (owned t l a) then Shared else Unique) lk.

(** Another thread has the persona, or the master persona is taken by a thread that
    may not have it. *)
Definition taken (A : stacks) (t : tid) (a : addr) (x : persona_tls) : Prop :=
  (exists r, r <> t /\ owns A r a) \/ (seq = true /\ a = master /\ is_primordial_thread x = false).

Section Rep.
Context {A : stacks} {st : state} (HR : rep A st).

Lemma owner_of t a p : personas st !! a = Some p -> owns A t a <-> get_owner a p = dp t.
Proof. intros Hp. apply (r_owner _ _ HR a p Hp). Qed.

Lemma owner_unique t r a : owns A t a -> owns A r a -> t = r.
Proof.
  intros Ht Hr. destruct (r_alive _ _ HR _ _ Ht) as [p Hp].
  apply dp_inj. rewrite <- (proj1 (owner_of t a p Hp) Ht). by apply (owner_of r a p Hp).
Qed.

Lemma active_spec a p : personas st !! a = Some p -> active a p = true <-> exists t, owns A t a.
Proof.
  intros Hp. unfold active. rewrite negb_true_iff, Z.eqb_neq. split.
  - intros [t Ht]%(proj2 (r_owner _ _ HR a p Hp)). exists t. by apply (owner_of t a p Hp).
  - intros [t Ht]. rewrite (proj1 (owner_of t a p Hp) Ht). apply dp_pos.
Qed.

Lemma active_with_caller_spec t a p : personas st !! a = Some p ->
  active_with_caller dp t a p = true <-> owns A t a.
Proof. intros Hp. unfold active_with_caller. rewrite Z.eqb_eq. symmetry. by apply owner_of. Qed.

Context {t : tid} {l : list entry} {x : persona_tls} (Ht : A !! t = Some l) (Hx : threads st !! t = Some x).

Lemma owns_here a : owns A t a <-> owned t l a.
Proof. unfold owns. rewrite Ht. split; [intros (k & [= <-] & Hk); exact Hk|intros Hk; by exists l]. Qed.

Lemma owned_personas e : e ∈ l -> owned t l (e_persona e).
Proof.
  pose proof (proj2 (r_linked _ _ HR _ _ Ht)) as Hw. clear Ht. induction l as [|e' l' IH]; intros Hin.
  { by apply elem_of_nil in Hin. }
  cbn in Hw. destruct Hw as (Hw & _ & _ & _ & Hk & _). rewrite owned_cons.
  apply elem_of_cons in Hin as [->|Hin]; [|left; by apply IH].
  destruct (decide (owned t l' (e_persona e'))) as [|Hn]; [by left|]. right. split; [by apply Hk|done].
Qed.

(** The other threads' stacks do not see an update of this one. *)
Lemma rep_update l' x' st' p' a :
  rep A st -> threads st' = <[t := x']> (threads st) -> tls_ok t l' x' ->
  linked t l' st' -> well_formed t l' ->
  (forall r s, r <> t -> (s = ds r \/ exists k, A !! r = Some k /\ s ∈ e_scope <$> k) -> scopes st' !! s = scopes st !! s) ->
  (forall s, s ∈ e_scope <$> l' -> s ∈ e_scope <$> l \/ scopes st !! s = None) ->
  (forall s, is_Some (scopes st' !! s) -> s ∈ e_scope <$> l' \/ (is_Some (scopes st !! s) /\ s ∉ e_scope <$> l)) ->
  personas st' = <[a := p']> (personas st) -> is_Some (personas st !! a) ->
  (forall b, b <> a -> owned t l' b <-> owned t l b) ->
  (owned t l' a <-> get_owner a p' = dp t) ->
  (forall r, r <> t -> owns A r a <-> get_owner a p' = dp r) ->
  (get_owner a p' <> 0 -> exists r, get_owner a p' = dp r) ->
  rep (<[t := l']> A) st'.
Proof.
  intros _ Eth Htls Hl Hw Hsc Hnew Hdom Epe Ha Hown Hat Har Hex.
  assert (Hns : forall r b, r <> t -> owns (<[t := l']> A) r b <-> owns A r b) by (intros; by apply owns_ne).
  assert (Hnt : forall b, owns (<[t := l']> A) t b <-> owned t l' b) by (intros; apply owns_eq).
  split.
  - intros r. rewrite Eth. destruct (decide (r = t)) as [->|]; [by rewrite !lookup_insert_eq|].
    rewrite !lookup_insert_ne by done. apply (r_threads _ _ HR).
  - intros r k y. rewrite Eth. destruct (decide (r = t)) as [->|].
    + rewrite !lookup_insert_eq. by intros [= <-] [= <-].
    + rewrite !lookup_insert_ne by done. apply (r_tls _ _ HR).
  - intros r k. destruct (decide (r = t)) as [->|]; [rewrite lookup_insert_eq; by intros [= <-]|].
    rewrite lookup_insert_ne by done. intros Hk. destruct (r_linked _ _ HR _ _ Hk) as [Hlk ?]. split; [|done].
    eapply linked_frame; [done|apply (Hsc r); auto|]. intros s Hs. apply (Hsc r); [done|]. right. by exists k.
  - intros t1 t2 l1 l2 s H1 H2 Hs1 Hs2.
    assert (Hcross : forall r k, r <> t -> A !! r = Some k -> s ∈ e_scope <$> k -> s ∈ e_scope <$> l' -> False).
    { intros r k Hr Hk Hsk Hsl. destruct (Hnew s Hsl) as [Hsl'|Hnone].
      - apply Hr. by eapply (r_disjoint _ _ HR r t k l s).
      - destruct (linked_scope _ _ _ _ (proj1 (r_linked _ _ HR _ _ Hk)) Hsk) as [? ?]. congruence. }
    destruct (decide (t1 = t)) as [->|Hn1], (decide (t2 = t)) as [->|Hn2]; [done|..].
    + rewrite lookup_insert_eq in H1. rewrite lookup_insert_ne in H2 by done. injection H1 as <-. by destruct (Hcross t2 l2).
    + rewrite lookup_insert_eq in H2. rewrite lookup_insert_ne in H1 by done. injection H2 as <-. by destruct (Hcross t1 l1).
    + rewrite lookup_insert_ne in H1, H2 by done. by eapply (r_disjoint _ _ HR t1 t2 l1 l2 s).
  - intros b p. rewrite Epe. destruct (decide (b = a)) as [->|Hb].
    + rewrite lookup_insert_eq. intros [= <-]. split; [|done]. intros r.
      destruct (decide (r = t)) as [->|]; [by rewrite Hnt|]. rewrite Hns by done. by apply Har.
    + rewrite lookup_insert_ne by done. intros Hp. destruct (r_owner _ _ HR _ _ Hp) as [Ho He]. split; [|done].
      intros r. destruct (decide (r = t)) as [->|]; [rewrite Hnt, Hown by done; rewrite <- owns_here; apply Ho|].
      rewrite Hns by done. apply Ho.
  - intros r b Hb. rewrite Epe. destruct (decide (b = a)) as [->|]; [by rewrite lookup_insert_eq; eexists|].
    rewrite lookup_insert_ne by done. destruct (decide (r = t)) as [->|].
    + apply (r_alive _ _ HR t). apply owns_here, Hown; [done|]. by apply Hnt.
    + apply (r_alive _ _ HR r). by apply Hns.
  - intros s Hs. destruct (Hdom s Hs) as [Hin|[Hs' Hnin]].
    + exists t, l'. rewrite lookup_insert_eq. auto.
    + destruct (r_scopes _ _ HR s Hs') as (r & k & Hk & Hor). destruct (decide (r = t)) as [->|].
      * exists t, l'. rewrite lookup_insert_eq. split; [done|]. left. rewrite Ht in Hk. injection Hk as <-. by destruct Hor.
      * exists r, k. by rewrite lookup_insert_ne.
Qed.

(** What [activate] leaves. *)
Definition activated (s a : addr) (lk : option addr) (p : persona) (w : bool) : state :=
  let y := set_top_persona dp t a (set_top_scope ds t s x) in
  put_tls t (if w then y else set_top_unique_scope ds t s y)
    (put_scope s (entry_scope t (mk_entry s a (if w then Shared else Unique) lk) l)
      (put_persona a (set_owner a (dp t) p) st)).

Lemma activated_ok s a lk p w : scopes st !! s = None -> valid s -> (forall r, s <> ds r) ->
  personas st !! a = Some p -> (w = true <-> owned t l a) -> (forall r, owns A r a -> r = t) ->
  rep (<[t := mk_entry s a (if w then Shared else Unique) lk :: l]> A) (activated s a lk p w).
Proof.
  intros Hs Hs1 Hsd Hp Hw Hun. set (e := mk_entry s a _ lk).
  pose proof (r_tls _ _ HR _ _ _ Ht Hx) as (Htop & Htu & Htp). destruct (r_linked _ _ HR _ _ Ht) as [Hl Hwf].
  assert (Hnin : forall r k, A !! r = Some k -> s ∉ e_scope <$> k).
  { intros r k Hk Hin. destruct (linked_scope _ _ _ _ (proj1 (r_linked _ _ HR _ _ Hk)) Hin); congruence. }
  eapply (rep_update (e :: l) _ _ (set_owner a (dp t) p) a); try done.
  - unfold tls_ok. destruct w; cbn; split_and!; try apply lxor_l; done.
  - cbn. rewrite lookup_insert_eq. split; [done|].
    eapply linked_frame; [exact Hl|cbn; by rewrite lookup_insert_ne|].
    intros s' Hin. cbn. rewrite lookup_insert_ne; [done|]. intros ->. by eapply Hnin.
  - cbn. split_and!; try done; [by eapply Hnin| |by destruct w].
    rewrite <- Hw. destruct w; cbn; naive_solver.
  - intros r s' Hr Hs'. cbn. rewrite lookup_insert_ne; [done|]. intros <-.
    destruct Hs' as [->|(k & Hk & Hin)]; [by eapply Hsd|by eapply Hnin].
  - intros s' [->|Hin]%elem_of_cons; [by right|by left].
  - intros s' [y Hy]. cbn in *. apply lookup_insert_Some in Hy as [[<- _]|[Hne Hy]]; [by left; left|].
    destruct (decide (s' ∈ e_scope <$> l)); [by left; right|]. right. split; [by exists y|done].
  - intros b Hb. rewrite owned_cons. cbn. naive_solver.
  - rewrite owned_cons, get_set_owner, <- Hw. cbn. destruct w; naive_solver.
  - intros r Hr. rewrite get_set_owner. split; [intros Hor; by destruct Hr; apply Hun|].
    intros E. by destruct (Hr (dp_inj _ _ (eq_sym E))).
  - intros _. exists t. apply get_set_owner.
Qed.

(** [persona_scope::activate] of a scope whose lock is set. *)
Lemma activate_ok s a lk p : scopes st !! s = None -> valid s -> (forall r, s <> ds r) ->
  personas st !! a = Some p ->
  let st0 := put_scope s (mk_scope 0 0 0 (default 0 lk) (match lk with Some _ => true | None => false end)) st in
  (taken A t a x /\ activate dp ds master seq t s a st0 = Aborted) \/
  (~ taken A t a x /\ activate dp ds master seq t s a st0 = Ok (activated s a lk p (active a p)) /\
    push_entry t l s a lk = mk_entry s a (if active a p then Shared else Unique) lk /\
    rep (<[t := push_entry t l s a lk :: l]> A) (activated s a lk p (active a p))).
Proof.
  intros Hs Hs1 Hsd Hp st0.
  pose proof (r_tls _ _ HR _ _ _ Ht Hx) as (Htop & Htu & Htp).
  unfold activate, get_tls, get_persona_at, get_scope, st0. cbn [threads personas scopes put_scope]. rewrite Hx, Hp.
  rewrite lookup_insert_eq. mcbn.
  destruct (negb (active a p) || active_with_caller dp t a p) eqn:Ha; mcbn.
  2: { left. split; [|done]. left. apply orb_false_iff in Ha as [Ha Hc]. apply negb_false_iff in Ha.
       apply (active_spec a p Hp) in Ha as [r Hr]. exists r. split; [|done]. intros ->.
       apply (active_with_caller_spec t a p Hp) in Hr. congruence. }
  destruct (negb (seq && (a =? master)) || is_primordial_thread x) eqn:Hseq; mcbn.
  2: { left. split; [|done]. right. apply orb_false_iff in Hseq as [E1 E2]. apply negb_false_iff, andb_true_iff in E1.
       rewrite Z.eqb_eq in E1. tauto. }
  assert (Hun : forall r, owns A r a -> r = t).
  { intros r Hr. assert (active a p = true) as E by (apply (active_spec a p Hp); by exists r).
    rewrite E in Ha. cbn [negb orb] in Ha. apply (active_with_caller_spec t a p Hp) in Ha. by eapply owner_unique. }
  right. split.
  { intros [(r & Hr & Hor)|(E1 & E2 & E3)]; [by apply Hr, Hun|]. rewrite E1, E2, E3, Z.eqb_refl in Hseq. done. }
  unfold active_with_caller at 1. rewrite get_set_owner, Z.eqb_refl. mcbn.
  assert (Hact : active a p = true <-> owned t l a).
  { rewrite (active_spec a p Hp), <- owns_here. split; [|eauto]. intros [r Hr]. by rewrite <- (Hun r Hr). }
  pose proof (activated_ok s a lk p (active a p) Hs Hs1 Hsd Hp Hact Hun) as HR'.
  assert (Ek : push_entry t l s a lk = mk_entry s a (if active a p then Shared else Unique) lk).
  { unfold push_entry. f_equal. destruct (active a p); [by rewrite decide_True by tauto|]. rewrite decide_False; [done|].
    rewrite <- Hact. done. }
  split; [|split; [exact Ek|by rewrite Ek]]. f_equal. rewrite Htop, Htu. unfold activated, put_tls, put_scope, put_persona.
  cbn. rewrite insert_insert_eq. unfold entry_scope. cbn. by destruct (active a p).
Qed.

(** ** Destruction *)

Lemma linked_entry r k s : A !! r = Some k -> s ∈ e_scope <$> k -> exists e k', scopes st !! s = Some (entry_scope r e k') /\
  top_of r k' <> invalid.
Proof.
  intros Hk. destruct (r_linked _ _ HR _ _ Hk) as [Hl Hw]. clear Hk. induction k as [|e k IH]; intros Hin.
  { by apply elem_of_nil in Hin. }
  cbn in Hl, Hw. destruct Hl as [He Hl]. destruct Hw as (Hw & _).
  apply elem_of_cons in Hin as [->|Hin]; [|by apply IH]. exists e, k. split; [done|]. by apply (top_not_invalid r).
Qed.

(** What the destruction of the top scope leaves. *)
Definition popped (e : entry) (l0 : list entry) : state :=
  let y := set_top_persona dp t (persona_of t l0) (set_top_scope ds t (top_of t l0) x) in
  mk_state
    (if decide (e_kind e = Unique) then alter (set_owner (e_persona e) 0) (e_persona e) (personas st)
     else personas st)
    (delete (e_scope e) (scopes st))
    (<[t := if decide (e_kind e = Unique) then set_top_unique_scope ds t (unique_of t l0) y else y]> (threads st))
    (match e_lock e with Some k => locked st ∖ {[k]} | None => locked st end).

Lemma popped_ok e l0 : l = e :: l0 -> rep (<[t := l0]> A) (popped e l0).
Proof.
  intros El. destruct (r_linked _ _ HR _ _ Ht) as [Hl Hw].
  pose proof (r_tls _ _ HR _ _ _ Ht Hx) as (_ & Htu & _). rewrite El in Hl, Hw, Htu.
  cbn in Hl, Hw, Htu. destruct Hl as [He Hl]. destruct Hw as (Hw & Hnin & Hinv & Hnd & Hk & _).
  assert (Hoe : owns A t (e_persona e)) by (apply owns_here, owned_personas; rewrite El; left).
  destruct (r_alive _ _ HR _ _ Hoe) as [p Hp].
  assert (Hother : forall r s, r <> t -> s = ds r \/ (exists k, A !! r = Some k /\ s ∈ e_scope <$> k) -> s <> e_scope e).
  { intros r s Hr [->|(k & Hk' & Hin)] E; [by eapply Hnd|]. subst s. apply Hr.
    eapply (r_disjoint _ _ HR r t k l); try done. rewrite El. left. }
  assert (Hdom : forall s, is_Some (delete (e_scope e) (scopes st) !! s) ->
    s ∈ e_scope <$> l0 \/ is_Some (scopes st !! s) /\ s ∉ e_scope <$> l).
  { intros s [y [Hne Hy]%lookup_delete_Some]. destruct (decide (s ∈ e_scope <$> l0)) as [|Hn]; [by left|]. right.
    split; [by exists y|]. rewrite El. intros [E|E]%elem_of_cons; [by subst|done]. }
  assert (Hlk : linked t l0 (popped e l0)).
  { eapply linked_frame; [exact Hl|cbn; rewrite lookup_delete_ne; [done|by apply not_eq_sym]|].
    intros s Hs. cbn. rewrite lookup_delete_ne; [done|]. by intros <-. }
  assert (Hns : forall r s, r <> t -> (s = ds r \/ exists k, A !! r = Some k /\ s ∈ e_scope <$> k) ->
    scopes (popped e l0) !! s = scopes st !! s).
  { intros r s Hr Hs. cbn. rewrite lookup_delete_ne; [done|]. by apply not_eq_sym, (Hother r). }
  assert (Hsub : forall s, s ∈ e_scope <$> l0 -> s ∈ e_scope <$> l \/ scopes st !! s = None).
  { intros s Hs. left. rewrite El. by right. }
  assert (Hoc : forall b, b <> e_persona e -> owned t l0 b <-> owned t l b).
  { intros b Hb. rewrite El, owned_cons. naive_solver. }
  assert (Htop : tls_ok t l0 (if decide (e_kind e = Unique)
    then set_top_unique_scope ds t (unique_of t l0) (set_top_persona dp t (persona_of t l0) (set_top_scope ds t (top_of t l0) x))
    else set_top_persona dp t (persona_of t l0) (set_top_scope ds t (top_of t l0) x))).
  { unfold tls_ok. case_decide; cbn; split_and!; try apply lxor_l; done. }
  destruct (decide (e_kind e = Unique)) as [Hek|Hek].
  - eapply (rep_update l0 _ _ (set_owner (e_persona e) 0 p) (e_persona e)); try done.
    + by rewrite decide_True.
    + unfold popped. cbn [personas]. rewrite decide_True by done. apply map_eq. intros b.
      destruct (decide (b = e_persona e)) as [->|]; [by rewrite lookup_alter_eq, lookup_insert_eq, Hp|].
      by rewrite lookup_alter_ne, lookup_insert_ne.
    + rewrite get_set_owner. split; [intros Ho; by destruct (proj1 Hk Hek)|]. intros E. by destruct (dp_pos t).
    + intros r Hr. rewrite get_set_owner. split; [intros Ho; by destruct Hr; eapply owner_unique|].
      intros E. by destruct (dp_pos r).
    + by rewrite get_set_owner.
  - eapply (rep_update l0 _ _ p (e_persona e)); try done.
    + by rewrite decide_False.
    + unfold popped. cbn [personas]. rewrite decide_False by done. by rewrite insert_id.
    + rewrite <- (owner_of t _ p Hp), owns_here, El, owned_cons. naive_solver.
    + intros r Hr. by apply owner_of.
    + by apply (r_owner _ _ HR).
Qed.

(** [~persona_scope] of the top scope pops it; of any other it fails its assertion. *)
Lemma scope_dtor_top e l0 : l = e :: l0 -> e_kind e <> Redundant ->
  scope_dtor dp ds t (e_scope e) st = Ok (popped e l0).
Proof.
  intros El Hk. destruct (r_linked _ _ HR _ _ Ht) as [Hl Hw].
  pose proof (r_tls _ _ HR _ _ _ Ht Hx) as (Htop & _ & _). rewrite El in Hl, Hw, Htop. cbn in Hl, Hw, Htop. destruct Hl as [He Hl].
  destruct Hw as (Hw & _). pose proof (top_not_invalid _ _ Hw) as Hinv.
  destruct (linked_top _ _ _ Hl) as (nx & Hnx & Hnp).
  assert (owned t l (e_persona e)) as Ho by (apply owned_personas; rewrite El; left).
  apply owns_here in Ho. destruct (r_alive _ _ HR _ _ Ho) as [p Hp].
  unfold scope_dtor, get_scope, get_tls, get_persona_at. rewrite He. mcbn. cbn [next entry_scope].
  rewrite (proj2 (Z.eqb_neq _ _) Hinv), Hx. mcbn. rewrite Htop, Z.eqb_refl. mcbn. rewrite Hnx. mcbn.
  rewrite entry_persona, Hp, Hnp. cbn [next_unique unlocker lock_or_restore entry_scope].
  unfold popped. destruct (e_kind e) eqn:Ek; [| |done]; mcbn.
  - rewrite decide_True by done.
    assert (unique_of t l0 =? invalid = false) as ->.
    { apply Z.eqb_neq. destruct (unique_cases t l0) as [->|(q & Hin & ->)]; [apply ds_pos|].
      by eapply (well_formed_scope t l0). }
    mcbn. assert (alter (set_owner (e_persona e) 0) (e_persona e) (personas st) =
      <[e_persona e := set_owner (e_persona e) 0 p]> (personas st)) as ->.
    { apply map_eq. intros b. destruct (decide (b = e_persona e)) as [->|];
        [by rewrite lookup_alter_eq, lookup_insert_eq, Hp|by rewrite lookup_alter_ne, lookup_insert_ne]. }
    by destruct (e_lock e).
  - rewrite decide_False by done. rewrite Z.eqb_refl. mcbn. by destruct (e_lock e).
Qed.

Lemma scope_dtor_other s : is_Some (scopes st !! s) -> (forall r, s <> ds r) -> s <> top_of t l ->
  scope_dtor dp ds t s st = Aborted.
Proof.
  intros Hs Hsd Hne. destruct (r_scopes _ _ HR s Hs) as (r & k & Hk & [->|Hin]); [by destruct (Hsd r)|].
  destruct (linked_entry _ _ _ Hk Hin) as (e & k' & He & Hinv).
  unfold scope_dtor, get_scope, get_tls. rewrite He. mcbn. cbn [next entry_scope].
  rewrite (proj2 (Z.eqb_neq _ _) Hinv), Hx. mcbn. destruct (r_tls _ _ HR _ _ _ Ht Hx) as (-> & _).
  by rewrite (proj2 (Z.eqb_neq _ _) Hne).
Qed.

(** A redundant scope, of a persona that is active here. *)
Lemma redundant_ctor_ok s a : scopes st !! s = None -> valid s -> (forall r, s <> ds r) -> owned t l a ->
  exists st', redundant_ctor dp ds t s a st = Ok st' /\ rep (<[t := mk_entry s a Redundant None :: l]> A) st' /\
    personas st' = personas st.
Proof.
  intros Hs Hs1 Hsd Ho. pose proof (r_tls _ _ HR _ _ _ Ht Hx) as (Htop & Htu & Htp).
  destruct (r_linked _ _ HR _ _ Ht) as [Hl Hwf]. apply owns_here in Ho as Hoa. destruct (r_alive _ _ HR _ _ Hoa) as [p Hp].
  unfold redundant_ctor, get_tls. rewrite Hx. mcbn. eexists. split; [done|]. split; [|done].
  set (e := mk_entry s a Redundant None).
  assert (Hnin : forall r k, A !! r = Some k -> s ∉ e_scope <$> k).
  { intros r k Hk Hin. destruct (linked_scope _ _ _ _ (proj1 (r_linked _ _ HR _ _ Hk)) Hin); congruence. }
  eapply (rep_update (e :: l) _ _ p a); try done.
  - unfold tls_ok. cbn. split_and!; try apply lxor_l; done.
  - cbn. rewrite lookup_insert_eq. split; [unfold entry_scope; cbn; by rewrite Htop, Htp|].
    eapply linked_frame; [exact Hl|cbn; by rewrite lookup_insert_ne|].
    intros s' Hin. cbn. rewrite lookup_insert_ne; [done|]. intros ->. by eapply Hnin.
  - cbn. split_and!; try done. by eapply Hnin.
  - intros r s' Hr Hs'. cbn. rewrite lookup_insert_ne; [done|]. intros <-.
    destruct Hs' as [->|(k & Hk & Hin)]; [by eapply Hsd|by eapply Hnin].
  - intros s' [->|Hin]%elem_of_cons; [by right|by left].
  - intros s' [y Hy]. cbn in *. apply lookup_insert_Some in Hy as [[<- _]|[Hne Hy]]; [by left; left|].
    destruct (decide (s' ∈ e_scope <$> l)); [by left; right|]. right. split; [by exists y|done].
  - cbn. by rewrite insert_id.
  - rewrite <- (owner_of t _ p Hp), owns_here, owned_cons. cbn. naive_solver.
  - intros r Hr. by apply owner_of.
  - by apply (r_owner _ _ HR).
Qed.

Lemma redundant_dtor_top e l0 : l = e :: l0 -> e_kind e = Redundant -> redundant_dtor dp ds t (e_scope e) st = Ok (popped e l0).
Proof.
  intros El Hk. destruct (r_linked _ _ HR _ _ Ht) as [Hl Hw].
  pose proof (r_tls _ _ HR _ _ _ Ht Hx) as (Htop & _ & _). rewrite El in Hl, Hw, Htop. cbn in Hl, Hw, Htop. destruct Hl as [He Hl].
  destruct Hw as (_ & _ & _ & _ & _ & Hlk). unfold redundant_dtor, get_scope, get_tls. rewrite He, Hx. mcbn.
  rewrite Htop, Z.eqb_refl. mcbn. cbn [next lock_or_restore entry_scope]. unfold popped. rewrite Hk, (Hlk Hk). done.
Qed.

End Rep.

End Layout.
End Scopes.
