(* ===== verification/PersonaSystem.v ===== *)
(** Threads that take and release personas, and the progress of one thread.

    A step is one call of one thread: constructing or destroying a scope, or sending a
    callback.  The constructors and destructors refine the stacks of
    [PersonaScopes.v]; the traversals of a thread's scopes see each of its active
    personas. *)
From S2P Require Import Prelude Persona PersonaScopes.

Module PersonaSystem.
Import Personas Scopes.

Section Layout.
Context (dp ds : tid -> addr) (master : addr) (seq : bool).

(** * Steps *)

Inductive action :=
  | Start (primordial : bool)
  | NewPersona (a : addr)
  | Push (s a : addr)
  | PushLocked (k s a : addr)
  | Pop (s : addr)
  | Send (a : addr) (lev : progress_level) (m : lpc)
  | SendPromise (a : addr) (lev : progress_level) (trivially_deletable : bool) (m : lpc)
  | Backend (a : addr) (n : Z).

Definition fresh_scope (s : addr) (st : state) : Prop := scopes st !! s = None /\ valid s /\ forall r, s <> ds r.

Definition set_undischarged (n : Z) (p : persona) : persona :=
  mk_persona (owner_xor_this p) (peer_inbox p) (self_inbox p) (pros_deferred_trivial p) n.

(** [step t act st r]: the call [act] of thread [t] in state [st] comes out as [r]. *)
Inductive step (t : tid) : action -> state -> res state -> Prop :=
  | step_start b st : threads st !! t = None -> personas st !! dp t = None -> scopes st !! ds t = None ->
      step t (Start b) st (Ok (mk_state (<[dp t := default_persona]> (personas st))
        (<[ds t := default_scope_raw]> (scopes st)) (<[t := mk_tls 0 0 b 0 0 0]> (threads st)) (locked st)))
  | step_persona a st : personas st !! a = None -> (forall r, a <> dp r) ->
      step t (NewPersona a) st (Ok (put_persona a (new_persona a) st))
  | step_push s a st : is_Some (threads st !! t) -> is_Some (personas st !! a) -> fresh_scope s st ->
      step t (Push s a) st (scope_ctor dp ds master seq t s a st)
  | step_push_locked k s a st r : is_Some (threads st !! t) -> is_Some (personas st !! a) -> fresh_scope s st ->
      scope_ctor_lock dp ds master seq t k s a st = Some r -> step t (PushLocked k s a) st r
  | step_pop s st : is_Some (threads st !! t) -> is_Some (scopes st !! s) -> (forall r, s <> ds r) ->
      step t (Pop s) st (scope_dtor dp ds t s st)
  | step_send a lev m st : is_Some (personas st !! a) -> step t (Send a lev m) st (enqueue dp t a lev m st)
  | step_promise a lev d m st : is_Some (personas st !! a) ->
      step t (SendPromise a lev d m) st (enqueue_quiesced_promise dp t a lev d m st)
  | step_backend a n p st : personas st !! a = Some p ->
      step t (Backend a n) st (Ok (put_persona a (set_undischarged n p) st)).

Definition nothing : state := mk_state ∅ ∅ ∅ ∅.
Definition reachable (st : state) : Prop := rtc (fun s s' => exists t act, step t act s (Ok s')) nothing st.

(** * The specification *)

(** What a call does to the stacks; [None] is a failed assertion. *)
Inductive spec (st : state) (A : stacks) (t : tid) : action -> option stacks -> Prop :=
  | spec_start b : A !! t = None -> spec st A t (Start b) (Some (<[t := []]> A))
  | spec_push s a l x : A !! t = Some l -> threads st !! t = Some x -> ~ taken dp master seq A t a x ->
      spec st A t (Push s a) (Some (<[t := push_entry dp t l s a None :: l]> A))
  | spec_push_locked k s a l x : A !! t = Some l -> threads st !! t = Some x -> ~ taken dp master seq A t a x ->
      k ∉ locked st -> spec st A t (PushLocked k s a) (Some (<[t := push_entry dp t l s a (Some k) :: l]> A))
  | spec_taken s a x act : threads st !! t = Some x -> taken dp master seq A t a x ->
      act = Push s a \/ (exists k, act = PushLocked k s a) -> spec st A t act None
  | spec_pop e l : A !! t = Some (e :: l) -> spec st A t (Pop (e_scope e)) (Some (<[t := l]> A))
  | spec_not_top s l : A !! t = Some l -> s <> top_of ds t l -> spec st A t (Pop s) None
  | spec_other act : match act with NewPersona _ | Send _ _ _ | SendPromise _ _ _ _ | Backend _ _ => True | _ => False end ->
      spec st A t act (Some A).

(** User code has no redundant scopes. *)
Definition plain (A : stacks) : Prop := forall t l e, A !! t = Some l -> e ∈ l -> e_kind e <> Redundant.

Definition refines (A : stacks) (st : state) : Prop := rep dp ds A st /\ plain A.

Lemma plain_insert A t l : plain A -> (forall e, e ∈ l -> e_kind e <> Redundant) -> plain (<[t := l]> A).
Proof. intros HA Hl r k e [[<- <-]|[_ Hk]]%lookup_insert_Some Hin; [by apply Hl|by eapply HA]. Qed.

(** ** Changes that the scopes do not see *)

Record quiet (st st' : state) : Prop := {
  q_scopes : scopes st' = scopes st;
  q_threads : threads st' = threads st;
  q_owners : forall a, owner_xor_this <$> personas st' !! a = owner_xor_this <$> personas st !! a
}.

#[export] Instance quiet_preorder : PreOrder quiet.
Proof.
  split; [by split|]. intros s1 s2 s3 [E1 T1 O1] [E2 T2 O2]. split; [congruence..|]. intros a. by rewrite O2, O1.
Qed.

Lemma quiet_lookup st st' a p' : quiet st st' -> personas st' !! a = Some p' ->
  exists p, personas st !! a = Some p /\ owner_xor_this p' = owner_xor_this p.
Proof.
  intros Hq Hp. pose proof (q_owners _ _ Hq a) as E. rewrite Hp in E. cbn in E.
  destruct (personas st !! a) as [p|]; [|done]. exists p. cbn in E. split; congruence.
Qed.

Lemma quiet_alive st st' a : quiet st st' -> is_Some (personas st !! a) -> is_Some (personas st' !! a).
Proof. intros Hq [p Hp]. pose proof (q_owners _ _ Hq a) as E. rewrite Hp in E. destruct (personas st' !! a); [by eexists|done]. Qed.

Lemma quiet_put st a p p' : personas st !! a = Some p -> owner_xor_this p' = owner_xor_this p -> quiet st (put_persona a p' st).
Proof.
  intros Hp E. split; [done..|]. intros b. cbn. destruct (decide (b = a)) as [->|].
  - rewrite lookup_insert_eq, Hp. cbn. by rewrite E.
  - by rewrite lookup_insert_ne.
Qed.

Lemma linked_scopes t l st st' : scopes st' = scopes st -> linked dp ds t l st -> linked dp ds t l st'.
Proof. intros E Hl. eapply linked_frame; [exact Hl|by rewrite E|intros; by rewrite E]. Qed.

Lemma rep_quiet A st st' : rep dp ds A st -> quiet st st' -> rep dp ds A st'.
Proof.
  intros HR Hq. pose proof Hq as [Es Et _]. split.
  - intros t. rewrite Et. apply (r_threads _ _ _ _ HR).
  - intros t l x. rewrite Et. apply (r_tls _ _ _ _ HR).
  - intros t l Hl. destruct (r_linked _ _ _ _ HR t l Hl). split; [by eapply linked_scopes|done].
  - apply (r_disjoint _ _ _ _ HR).
  - intros a p' Hp'. destruct (quiet_lookup _ _ _ _ Hq Hp') as (p & Hp & E).
    unfold get_owner. rewrite E. apply (r_owner _ _ _ _ HR a p Hp).
  - intros t a Ho. eapply quiet_alive; [done|]. by apply (r_alive _ _ _ _ HR t).
  - intros s. rewrite Es. apply (r_scopes _ _ _ _ HR).
Qed.

Context (dp_inj : Inj (=) (=) dp) (ds_inj : Inj (=) (=) ds).
Context (dp_pos : forall t, dp t <> 0) (ds_pos : forall t, ds t <> 0 /\ ds t <> invalid).

(** * Refinement *)

Lemma rep_locked A st k : rep dp ds A st -> rep dp ds A (put_locked k st).
Proof. intros HR. eapply rep_quiet; [exact HR|]. by split. Qed.

Lemma rep_start A st t b : rep dp ds A st -> threads st !! t = None -> personas st !! dp t = None ->
  scopes st !! ds t = None ->
  rep dp ds (<[t := []]> A) (mk_state (<[dp t := default_persona]> (personas st))
        (<[ds t := default_scope_raw]> (scopes st)) (<[t := mk_tls 0 0 b 0 0 0]> (threads st)) (locked st)).
Proof.
  intros HR Ht Hp Hs.
  assert (HA : A !! t = None).
  { destruct (A !! t) eqn:E; [|done]. destruct (proj1 (r_threads _ _ _ _ HR t)) as [? ?]; [by eexists|congruence]. }
  assert (Hne : forall r l, A !! r = Some l -> r <> t) by (intros r l Hr ->; congruence).
  split.
  - intros r. cbn. destruct (decide (r = t)) as [->|]; [rewrite !lookup_insert_eq; split; by eexists|].
    rewrite !lookup_insert_ne by done. apply (r_threads _ _ _ _ HR).
  - intros r l x. cbn. intros [[<- <-]|[Hr Hl]]%lookup_insert_Some.
    + rewrite lookup_insert_eq. intros [= <-]. unfold tls_ok. cbn. split_and!; apply Z.lxor_0_l.
    + rewrite lookup_insert_ne by done. by apply (r_tls _ _ _ _ HR).
  - intros r l [[<- <-]|[Hr Hl]]%lookup_insert_Some; [cbn; by rewrite lookup_insert_eq|].
    destruct (r_linked _ _ _ _ HR r l Hl) as [Hlk Hw]. split; [|done].
    eapply linked_frame; [exact Hlk|cbn; rewrite lookup_insert_ne; [done|]|].
    + intros E%(inj ds). done.
    + intros s Hin. cbn. rewrite lookup_insert_ne; [done|]. intros <-.
      destruct (linked_scope _ _ _ _ _ _ Hlk Hin). congruence.
  - intros t1 t2 l1 l2 s [[<- <-]|[H1 Hl1]]%lookup_insert_Some; [intros _ Hin; by apply elem_of_nil in Hin|].
    intros [[<- <-]|[H2 Hl2]]%lookup_insert_Some; [intros _ Hin; by apply elem_of_nil in Hin|].
    by apply (r_disjoint _ _ _ _ HR t1 t2 l1 l2 s).
  - intros a p. cbn. intros [[<- <-]|[Ha Hpa]]%lookup_insert_Some.
    + unfold get_owner. cbn. rewrite Z.lxor_0_l. split; [|by exists t]. intros r.
      destruct (decide (r = t)) as [->|Hr].
      * rewrite owns_eq. unfold owned. cbn. rewrite list_elem_of_singleton. done.
      * rewrite owns_ne by done. split; [|by intros E%(inj dp)].
        intros Ho. destruct (r_alive _ _ _ _ HR _ _ Ho). congruence.
    + destruct (r_owner _ _ _ _ HR a p Hpa) as [Ho He]. split; [|done]. intros r. rewrite <- Ho.
      destruct (decide (r = t)) as [->|Hr]; [|by apply owns_ne]. rewrite owns_eq. unfold owned. cbn.
      rewrite list_elem_of_singleton. split; [by intros ->|]. intros (l & Hl & _). congruence.
  - intros r a Ho. cbn. destruct (decide (a = dp t)) as [->|Ha]; [rewrite lookup_insert_eq; by eexists|].
    rewrite lookup_insert_ne by done. destruct (decide (r = t)) as [->|Hr].
    + apply owns_eq in Ho. unfold owned in Ho. cbn in Ho. by apply list_elem_of_singleton in Ho.
    + apply owns_ne in Ho; [|done]. by apply (r_alive _ _ _ _ HR r).
  - intros s [y Hy]. cbn in Hy. apply lookup_insert_Some in Hy as [[<- _]|[Hne' Hy]].
    + exists t, []. rewrite lookup_insert_eq. auto.
    + destruct (r_scopes _ _ _ _ HR s) as (r & l & Hl & Hor); [by eexists|]. exists r, l.
      rewrite lookup_insert_ne; [done|]. by apply not_eq_sym, (Hne r l).
Qed.

Lemma rep_persona A st a : rep dp ds A st -> personas st !! a = None -> (forall r, a <> dp r) ->
  rep dp ds A (put_persona a (new_persona a) st).
Proof.
  intros HR Ha Hd. split; try apply HR.
  - intros t l Hl. destruct (r_linked _ _ _ _ HR t l Hl) as [Hlk ?]. split; [exact (linked_scopes t l st (put_persona a (new_persona a) st) eq_refl Hlk)|done].
  - intros b p. cbn. intros [[<- <-]|[Hb Hp]]%lookup_insert_Some; [|by apply (r_owner _ _ _ _ HR)].
    unfold get_owner. cbn. rewrite Z.lxor_nilpotent. split; [|done]. intros t. split.
    + intros Ho. destruct (r_alive _ _ _ _ HR _ _ Ho). congruence.
    + intros E. by destruct (dp_pos t).
  - intros t b Ho. cbn. destruct (decide (b = a)) as [->|]; [rewrite lookup_insert_eq; by eexists|].
    rewrite lookup_insert_ne by done. by apply (r_alive _ _ _ _ HR t).
Qed.

Lemma enqueue_quiet t a lev m st : is_Some (personas st !! a) -> exists st', enqueue dp t a lev m st = Ok st' /\ quiet st st'.
Proof.
  intros [p Hp]. unfold enqueue, get_persona_at. rewrite Hp. mcbn. eexists. split; [done|].
  apply (quiet_put _ _ _ _ Hp). by destruct (active_with_caller dp t a p), lev.
Qed.

Lemma promise_quiet t a lev d m st : is_Some (personas st !! a) ->
  exists st', enqueue_quiesced_promise dp t a lev d m st = Ok st' /\ quiet st st'.
Proof.
  intros [p Hp]. unfold enqueue_quiesced_promise, get_persona_at. rewrite Hp. mcbn. eexists. split; [done|].
  apply (quiet_put _ _ _ _ Hp). by destruct (active_with_caller dp t a p), lev, d.
Qed.

(** A call does to the pointers what the specification says of the stacks. *)
Lemma step_refines A st t act r : refines A st -> step t act st r ->
  exists o, spec st A t act o /\ match o with Some A' => exists st', r = Ok st' /\ refines A' st' | None => r = Aborted end.
Proof.
  intros [HR HP] Hst. destruct Hst as [b st Ht Hp Hs|a st Ha Hd|s a st [x Hx] [p Hp] (Hs & Hs1 & Hsd)
    |k s a st r [x Hx] [p Hp] (Hs & Hs1 & Hsd) Hc|s st [x Hx] Hs Hsd|a lev m st Ha|a lev d m st Ha|a n p st Hp].
  - exists (Some (<[t := []]> A)). split.
    + constructor. destruct (A !! t) eqn:E; [|done]. destruct (proj1 (r_threads _ _ _ _ HR t)) as [? ?]; [by eexists|congruence].
    + eexists. split; [done|]. split; [by apply rep_start|]. apply plain_insert; [done|]. by intros e ?%elem_of_nil.
  - exists (Some A). split; [by constructor|]. eexists. split; [done|]. split; [by apply rep_persona|done].
  - destruct (proj2 (r_threads _ _ _ _ HR t)) as [l Hl]; [by eexists|].
    destruct (activate_ok dp ds master seq dp_inj dp_pos ds_pos HR Hl Hx s a None p Hs Hs1 Hsd Hp) as [[Htk E]|(Htk & E & _ & HR')].
    + exists None. split; [eapply spec_taken; eauto|exact E].
    + eexists. split; [eapply spec_push; eauto|]. eexists. split; [exact E|]. split; [exact HR'|].
      apply plain_insert; [done|]. intros e [->|Hin]%elem_of_cons; [unfold push_entry; cbn; by case_decide|by eapply HP].
  - destruct (proj2 (r_threads _ _ _ _ HR t)) as [l Hl]; [by eexists|].
    unfold scope_ctor_lock in Hc. case_decide as Hk; [done|]. injection Hc as <-.
    destruct (activate_ok dp ds master seq dp_inj dp_pos ds_pos (rep_locked _ _ ({[k]} ∪ locked st) HR) Hl Hx s a (Some k) p
      Hs Hs1 Hsd Hp) as [[Htk E]|(Htk & E & _ & HR')].
    + exists None. split; [eapply spec_taken; eauto|exact E].
    + eexists. split; [eapply spec_push_locked; eauto|]. eexists. split; [exact E|]. split; [exact HR'|].
      apply plain_insert; [done|]. intros e [->|Hin]%elem_of_cons; [unfold push_entry; cbn; by case_decide|by eapply HP].
  - destruct (proj2 (r_threads _ _ _ _ HR t)) as [l Hl]; [by eexists|].
    destruct (decide (s = top_of ds t l)) as [Etop|Hne].
    + destruct l as [|e l]; [by destruct (Hsd t)|]. cbn in Etop. subst s.
      eexists. split; [by apply (spec_pop _ _ _ e l)|]. exists (popped dp ds (t := t) (st := st) (x := x) e l). split.
      * eapply scope_dtor_top; try done. eapply HP; [exact Hl|left].
      * split; [by eapply popped_ok|]. apply plain_insert; [done|]. intros q Hq. eapply HP; [exact Hl|by right].
    + exists None. split; [by eapply spec_not_top|]. by eapply scope_dtor_other.
  - destruct (enqueue_quiet t a lev m st Ha) as (st' & -> & Hq). exists (Some A). split; [by constructor|].
    exists st'. split; [done|]. split; [by eapply rep_quiet|done].
  - destruct (promise_quiet t a lev d m st Ha) as (st' & -> & Hq). exists (Some A). split; [by constructor|].
    exists st'. split; [done|]. split; [by eapply rep_quiet|done].
  - exists (Some A). split; [by constructor|]. eexists. split; [done|]. split; [|done].
    eapply rep_quiet; [exact HR|]. by apply (quiet_put _ _ _ _ Hp).
Qed.

(** * Traversals *)

(** Making a persona the top one for the time of a call that leaves the scopes as it
    finds them. *)
Definition as_top (t : tid) (tmp a : addr) (x : persona_tls) (st : state) : state :=
  put_tls t (set_top_persona dp t a (set_top_scope ds t tmp x))
    (put_scope tmp (mk_scope (get_top_scope ds t x) (Z.lxor a (dp t)) 0 (get_top_persona dp t x) false) st).

Lemma redundant_as_top t tmp a x st : threads st !! t = Some x ->
  redundant_ctor dp ds t tmp a st = Ok (as_top t tmp a x st).
Proof. intros Hx. unfold redundant_ctor, get_tls. by rewrite Hx. Qed.

Lemma restore_tls t tmp a x : set_top_persona dp t (get_top_persona dp t x)
  (set_top_scope ds t (get_top_scope ds t x) (set_top_persona dp t a (set_top_scope ds t tmp x))) = x.
Proof.
  unfold set_top_persona, set_top_scope, get_top_persona, get_top_scope. cbn.
  rewrite (Z.lxor_comm (ds t)), (Z.lxor_comm (dp t) (Z.lxor _ _)), !lxor_r. by destruct x.
Qed.

Lemma redundant_back t tmp a x st st1 : threads st !! t = Some x -> scopes st !! tmp = None ->
  quiet (as_top t tmp a x st) st1 -> exists st2, redundant_dtor dp ds t tmp st1 = Ok st2 /\ quiet st st2 /\ personas st2 = personas st1.
Proof.
  intros Hx Hs [Es Et Eo]. unfold redundant_dtor, get_scope, get_tls. rewrite Es, Et. cbn [scopes threads as_top put_tls put_scope].
  rewrite !lookup_insert_eq. mcbn.
  assert (get_top_scope ds t (set_top_persona dp t a (set_top_scope ds t tmp x)) = tmp) as -> by apply lxor_l.
  rewrite Z.eqb_refl. mcbn. eexists. split; [done|]. cbn [next lock_or_restore]. rewrite restore_tls. split; [|done]. split.
  - cbn. rewrite Es. cbn. by apply delete_insert_id.
  - cbn. rewrite Et. cbn. rewrite insert_insert_eq. by apply insert_id.
  - intros b. cbn. rewrite Eo. done.
Qed.

(** [fn] with its [persona] on top. *)
Definition quiet_fn {A} (t : tid) (I : list addr -> A -> gmap addr persona -> Prop)
    (fn : addr -> A -> state -> res (A * state)) : Prop :=
  forall v p acc st, I v acc (personas st) -> is_Some (threads st !! t) -> is_Some (personas st !! p) -> p ∉ v ->
    exists acc' st', fn p acc st = Ok (acc', st') /\ quiet st st' /\ I (v ++ [p]) acc' (personas st').

Lemma get_scope_some s sc st : scopes st !! s = Some sc -> get_scope s st = Ok sc.
Proof. intros E. unfold get_scope. by rewrite E. Qed.

(** One turn of the loop. *)
Lemma foreach_turn {A} (fn : addr -> A -> state -> res (A * state)) I t tmp ps sc x v acc st fuel :
  quiet_fn t I fn -> I v acc (personas st) -> scopes st !! ps = Some sc -> threads st !! t = Some x ->
  scopes st !! tmp = None -> is_Some (personas st !! scope_persona dp t sc) -> scope_persona dp t sc ∉ v ->
  exists acc' st', quiet st st' /\ I (v ++ [scope_persona dp t sc]) acc' (personas st') /\
    foreach_from dp ds (S fuel) t tmp ps fn acc st =
      (if next_unique sc =? 0 then Ok (acc', st') else foreach_from dp ds fuel t tmp (next_unique sc) fn acc' st').
Proof.
  intros Hfn HI Hsc Hx Htmp [p Hp] Hnv. cbn [foreach_from]. rewrite (get_scope_some _ _ _ Hsc). mcbn.
  unfold get_persona_at. rewrite Hp. mcbn. rewrite (redundant_as_top _ _ _ _ _ Hx). mcbn.
  destruct (Hfn v (scope_persona dp t sc) acc (as_top t tmp (scope_persona dp t sc) x st) HI) as (acc' & st1 & -> & Hq & HI').
  { cbn. rewrite lookup_insert_eq. by eexists. } { cbn. by eexists. } { done. }
  mcbn. destruct (redundant_back _ _ _ _ _ _ Hx Htmp Hq) as (st2 & Hback & Hq2 & Epe). rewrite <- Epe in HI'.
  rewrite (get_scope_some ps sc st1).
  - mcbn. rewrite Hback. mcbn. by exists acc', st2.
  - rewrite (q_scopes _ _ Hq). cbn. rewrite lookup_insert_ne; [done|]. intros <-. congruence.
Qed.

Lemma nodup_head (v : list addr) p l : NoDup (v ++ p :: l) -> p ∉ v.
Proof. intros (_ & H & _)%NoDup_app Hin. apply (H p Hin). left. Qed.

(** The traversal visits the personas of the unique scopes, newest first, then the default one. *)
Lemma foreach_from_ok {A} (fn : addr -> A -> state -> res (A * state)) I t tmp l : quiet_fn t I fn ->
  forall fuel v acc st, (length l < fuel)%nat -> I v acc (personas st) -> linked dp ds t l st -> is_Some (threads st !! t) ->
  scopes st !! tmp = None -> (forall e, e ∈ l -> valid (e_scope e)) -> (forall a, owned dp t l a -> is_Some (personas st !! a)) ->
  NoDup (v ++ uniques dp t l) ->
  exists acc' st', foreach_from dp ds fuel t tmp (unique_of ds t l) fn acc st = Ok (acc', st') /\
    quiet st st' /\ I (v ++ uniques dp t l) acc' (personas st').
Proof.
  intros Hfn. induction l as [|e l IH]; intros fuel v acc st Hfuel HI Hl [x Hx] Htmp Hnz Hal Hnd.
  - destruct fuel as [|fuel]; [cbn in Hfuel; lia|]. cbn [unique_of]. cbn in Hl.
    destruct (foreach_turn fn I t tmp (ds t) default_scope_raw x v acc st fuel Hfn HI Hl Hx Htmp) as (acc' & st' & Hq & HI' & ->).
    { rewrite default_scope_persona. apply Hal. unfold owned. cbn. left. }
    { rewrite default_scope_persona. by apply (nodup_head v (dp t) []). }
    exists acc', st'. rewrite default_scope_persona in HI'. done.
  - cbn [unique_of uniques]. destruct Hl as [He Hl]. case_decide as Hk.
    + destruct fuel as [|fuel]; [lia|].
      assert (Hown : owned dp t (e :: l) (e_persona e)) by (by apply owned_head).
      destruct (foreach_turn fn I t tmp (e_scope e) (entry_scope dp ds t e l) x v acc st fuel Hfn HI He Hx Htmp)
        as (acc' & st' & Hq & HI' & ->); [rewrite entry_persona; by apply Hal| |].
      { rewrite entry_persona. cbn in Hnd. rewrite decide_True in Hnd by done. by eapply nodup_head. }
      rewrite entry_persona in HI'. cbn [next_unique entry_scope]. rewrite Hk.
      assert ((unique_of ds t l =? 0) = false) as ->.
      { apply Z.eqb_neq. destruct (unique_cases ds t l) as [->|(q & Hin & ->)]; [apply ds_pos|].
        destruct (Hnz q) as [_ ?]; [by right|done]. }
      destruct (IH fuel (v ++ [e_persona e]) acc' st') as (acc2 & st2 & -> & Hq2 & HI2); try done.
      * cbn in Hfuel. lia.
      * by eapply linked_scopes; [apply Hq|].
      * rewrite (q_threads _ _ Hq). by eexists.
      * by rewrite (q_scopes _ _ Hq).
      * intros q Hin. apply Hnz. by right.
      * intros b Hb. eapply quiet_alive; [exact Hq|]. by apply Hal, owned_tail.
      * cbn in Hnd. rewrite decide_True in Hnd by done. by rewrite <- app_assoc.
      * exists acc2, st2. split; [done|]. split; [by etrans|]. by rewrite <- app_assoc in HI2.
    + destruct (IH fuel v acc st) as (acc2 & st2 & E & Hq2 & HI2); try done.
      * cbn in Hfuel. lia.
      * intros q Hin. apply Hnz. by right.
      * intros b Hb. by apply Hal, owned_tail.
      * cbn in Hnd. by rewrite decide_False in Hnd by done.
      * by exists acc2, st2.
Qed.

(** [progress_required] looks at the personas of the scopes down to the default one. *)
Definition has_work (st : state) (a : addr) : bool :=
  match personas st !! a with Some p => negb (undischarged_n p =? 0) | None => false end.

Lemma progress_required_ok t st l : forall fuel, (length l < fuel)%nat -> linked dp ds t l st -> well_formed dp ds t l ->
  (forall a, a ∈ (e_persona <$> l) ++ [dp t] -> is_Some (personas st !! a)) ->
  progress_required_from dp fuel t (top_of ds t l) (ds t) st = Ok (existsb (has_work st) ((e_persona <$> l) ++ [dp t])).
Proof.
  induction l as [|e l IH]; intros fuel Hfuel Hl Hw Hal; (destruct fuel as [|fuel]; [cbn in Hfuel; lia|]);
    cbn [progress_required_from top_of].
  - rewrite (get_scope_some _ _ _ Hl). mcbn. rewrite default_scope_persona.
    destruct (Hal (dp t)) as [p Hp]; [left|]. unfold get_persona_at. rewrite Hp. mcbn. cbn. unfold has_work.
    rewrite Hp, Z.eqb_refl. by destruct (negb (undischarged_n p =? 0)).
  - destruct Hl as [He Hl]. cbn in Hw. rewrite (get_scope_some _ _ _ He). mcbn. rewrite entry_persona.
    destruct (Hal (e_persona e)) as [p Hp]; [left|]. unfold get_persona_at. rewrite Hp. mcbn.
    change ((e_persona <$> e :: l) ++ [dp t]) with (e_persona e :: ((e_persona <$> l) ++ [dp t])). cbn [existsb].
    unfold has_work at 1. rewrite Hp. destruct (negb (undischarged_n p =? 0)); [done|]. cbn [orb].
    rewrite (proj2 (Z.eqb_neq _ _)) by (apply Hw). cbn [next entry_scope]. apply IH; [cbn in Hfuel; lia|done|apply Hw|].
    intros a Ha. apply Hal. by right.
Qed.

(** ** The rest of the invariant, as the traversals need it *)

Lemma refines_thread A st t x : refines A st -> threads st !! t = Some x ->
  exists l, A !! t = Some l /\ linked dp ds t l st /\ well_formed dp ds t l /\
    get_top_unique_scope ds t x = unique_of ds t l /\ get_top_scope ds t x = top_of ds t l /\
    (forall a, owned dp t l a -> is_Some (personas st !! a)) /\
    (forall a, a ∈ (e_persona <$> l) ++ [dp t] -> owned dp t l a).
Proof.
  intros [HR _] Hx. destruct (proj2 (r_threads _ _ _ _ HR t)) as [l Hl]; [by eexists|].
  destruct (r_linked _ _ _ _ HR _ _ Hl) as [Hlk Hw]. destruct (r_tls _ _ _ _ HR _ _ _ Hl Hx) as (H1 & H2 & _).
  exists l. split_and!; try done.
  - intros a Ha. apply (r_alive _ _ _ _ HR t). by exists l.
  - intros a [Ha|Ha]%elem_of_app.
    + apply list_elem_of_fmap in Ha as (e & -> & He). exact (owned_personas dp ds HR Hl e He).
    + apply list_elem_of_singleton in Ha as ->. unfold owned. clear. induction l as [|e l IH]; cbn; [left|].
      case_decide; [by right|done].
Qed.

Lemma unique_nodup t l : well_formed dp ds t l -> NoDup (uniques dp t l).
Proof.
  induction l as [|e l IH]; cbn; [intros _; apply NoDup_singleton|]. intros (Hw & _ & _ & _ & Hk & _).
  case_decide as Hu; [|by apply IH]. apply NoDup_cons. split; [by apply Hk|by apply IH].
Qed.

Lemma uniques_personas t l a : a ∈ uniques dp t l -> a ∈ (e_persona <$> l) ++ [dp t].
Proof.
  induction l as [|e l IH]; cbn; [done|]. case_decide.
  - intros [->|Ha]%elem_of_cons; [left|right; by apply IH].
  - intros Ha. right. by apply IH.
Qed.

Lemma reachable_refines st : reachable st -> exists A, refines A st.
Proof.
  unfold reachable. intros Hr. remember nothing as st0 eqn:E0.
  assert (H0 : exists A, refines A st0).
  { subst. exists ∅. split; [|intros t l e H; by rewrite lookup_empty in H]. split; cbn.
    - intros t. rewrite !lookup_empty. done.
    - intros t l x H. by rewrite lookup_empty in H.
    - intros t l H. by rewrite lookup_empty in H.
    - intros t1 t2 l1 l2 s H. by rewrite lookup_empty in H.
    - intros a p H. by rewrite lookup_empty in H.
    - intros t a (l & H & _). by rewrite lookup_empty in H.
    - intros s [y H]. by rewrite lookup_empty in H. }
  clear E0. induction Hr as [|st0 st1 st2 (t & act & Hst) _ IH]; [done|]. apply IH. destruct H0 as [A HA].
  destruct (step_refines A st0 t act _ HA Hst) as (o & _ & Ho). destruct o as [A'|]; [|done].
  destruct Ho as (st' & [= <-] & ?). by exists A'.
Qed.

(** * Calls that run callbacks *)

Definition queue_at (st : state) (a : addr) (q : queue) : list lpc :=
  match personas st !! a with Some p => get_queue q p | None => [] end.

(** The queues other than those of [X] keep what they have, in front. *)
Definition queues_grow (X : addr -> queue -> Prop) (st st' : state) : Prop :=
  forall a q, ~ X a q -> queue_at st a q `prefix_of` queue_at st' a q.

Lemma queues_grow_refl X st : queues_grow X st st.
Proof. by intros a q _. Qed.

Lemma queues_grow_trans X st1 st2 st3 : queues_grow X st1 st2 -> queues_grow X st2 st3 -> queues_grow X st1 st3.
Proof. intros H1 H2 a q Hn. etrans; [by apply H1|by apply H2]. Qed.

Lemma queues_grow_weaken (X Y : addr -> queue -> Prop) st st' : (forall a q, X a q -> Y a q) -> queues_grow X st st' -> queues_grow Y st st'.
Proof. intros HX Hg a q Hn. apply Hg. auto. Qed.

Lemma queues_grow_nonempty X st st' a q : queues_grow X st st' -> ~ X a q -> queue_at st a q <> [] -> queue_at st' a q <> [].
Proof. intros Hg Hn Hne E. apply Hne. pose proof (Hg a q Hn) as Hp. rewrite E in Hp. by apply prefix_nil_inv in Hp. Qed.

(** What a callback may do on thread [t], when the personas of [D] exist: it leaves
    the scopes, threads and owners as it finds them, and adds to queues. *)
Definition call_ok (D : gset addr) (t : tid) (f : state -> res state) : Prop :=
  forall st, is_Some (threads st !! t) -> (forall a, a ∈ D -> is_Some (personas st !! a)) ->
    exists st', f st = Ok st' /\ quiet st st' /\ queues_grow (fun _ _ => False) st st'.

Lemma flip_twice lev x : flip_burstable lev (flip_burstable lev x) = x.
Proof. unfold flip_burstable. cbn. rewrite lxor_r. by destruct x. Qed.

Lemma with_tls_ok t f x st : threads st !! t = Some x -> with_tls t f st = Ok (put_tls t (f x) st).
Proof. intros Hx. unfold with_tls, get_tls. by rewrite Hx. Qed.

Lemma internal_burstable x : is_burstable internal x = true.
Proof.
  unfold is_burstable. apply negb_true_iff, Z.eqb_neq. intros E. apply (f_equal (fun z => Z.testbit z 0)) in E.
  rewrite Z.land_spec, Z.lor_spec, Z.shiftl_spec, Z.bits_0 in E by done. cbn in E. by rewrite orb_true_r in E.
Qed.

Lemma burstable_user x : is_burstable user x = Z.testbit (burstable_bits x) 1.
Proof.
  unfold is_burstable. cbn [level]. change (Z.shiftl 1 1) with (2 ^ 1).
  destruct (Z.testbit (burstable_bits x) 1) eqn:Hb.
  - apply negb_true_iff, Z.eqb_neq. intros E. apply (f_equal (fun z => Z.testbit z 1)) in E.
    rewrite Z.land_spec, Z.lor_spec, Hb, Z.bits_0 in E. done.
  - apply negb_false_iff, Z.eqb_eq. apply Z.bits_inj'. intros i Hi. rewrite Z.land_spec, Z.lor_spec, Z.bits_0.
    destruct (decide (i = 1)) as [->|Hne]; [by rewrite Hb|]. rewrite Z.pow2_bits_false by lia. apply andb_false_r.
Qed.

(** A change of the thread's fields that is undone. *)
Lemma quiet_bracket t f g x st st1 : threads st !! t = Some x -> quiet (put_tls t (f x) st) st1 -> g (f x) = x ->
  exists st2, with_tls t g st1 = Ok st2 /\ quiet st st2 /\ personas st2 = personas st1.
Proof.
  intros Hx [Es Et Eo] Hg. rewrite (with_tls_ok t g (f x)) by (rewrite Et; apply lookup_insert_eq).
  eexists. split; [done|]. split; [|done]. split.
  - cbn. by rewrite Es.
  - cbn. rewrite Et, Hg. cbn. rewrite insert_insert_eq. by apply insert_id.
  - intros a. apply Eo.
Qed.

Section Bursts.
Context (execute : lpc -> tid -> state -> res state) (D : gset addr) (t : tid).
Context (Hex : forall m, call_ok D t (execute m t)).

Definition ready (st : state) : Prop := is_Some (threads st !! t) /\ forall a, a ∈ D -> is_Some (personas st !! a).

Lemma ready_quiet st st' : ready st -> quiet st st' -> ready st'.
Proof.
  intros [Ht Hd] Hq. split; [by rewrite (q_threads _ _ Hq)|]. intros a Ha. eapply quiet_alive; [exact Hq|]. by apply Hd.
Qed.

Lemma execute_all_ok l st : ready st -> exists st', execute_all execute t l st = Ok st' /\ quiet st st' /\
  queues_grow (fun _ _ => False) st st'.
Proof.
  revert st. induction l as [|m l IH]; intros st Hr; cbn [execute_all].
  { exists st. split_and!; [done|done|apply queues_grow_refl]. }
  destruct (Hex m st (proj1 Hr) (proj2 Hr)) as (st1 & -> & Hq & Hg). mcbn.
  destruct (IH st1) as (st2 & -> & Hq2 & Hg2); [by eapply ready_quiet|].
  exists st2. split_and!; [done|by etrans|by eapply queues_grow_trans].
Qed.

Definition these (a : addr) (q : queue) (b : addr) (r : queue) : Prop := b = a /\ r = q.

Lemma get_set_queue q l p : get_queue q (set_queue q l p) = l.
Proof. by destruct q as [[]|[]|]. Qed.

Lemma get_set_queue_ne q r l p : r <> q -> get_queue r (set_queue q l p) = get_queue r p.
Proof. by destruct q as [[]|[]|], r as [[]|[]|]. Qed.

Lemma set_queue_owner q l p : owner_xor_this (set_queue q l p) = owner_xor_this p.
Proof. by destruct q as [[]|[]|]. Qed.

Lemma set_queue_ok a q l p st : personas st !! a = Some p -> quiet st (put_persona a (set_queue q l p) st) /\
  queues_grow (these a q) st (put_persona a (set_queue q l p) st) /\ queue_at (put_persona a (set_queue q l p) st) a q = l.
Proof.
  intros Hp. split_and!.
  - apply (quiet_put _ _ _ _ Hp). apply set_queue_owner.
  - intros b r Hn. unfold queue_at. cbn. destruct (decide (b = a)) as [->|].
    + rewrite lookup_insert_eq, Hp, get_set_queue_ne; [done|]. intros ->. by apply Hn.
    + by rewrite lookup_insert_ne.
  - unfold queue_at. cbn. rewrite lookup_insert_eq. apply get_set_queue.
Qed.

(** A burst runs the oldest callbacks; the rest stays in front of what they add. *)
Lemma burst_ok a q max_n st : ready st -> is_Some (personas st !! a) ->
  let n := burst_size q max_n (length (queue_at st a q)) in
  exists st', burst execute t a q max_n st = Ok (Z.of_nat n, st') /\ quiet st st' /\ queues_grow (these a q) st st' /\
    drop n (queue_at st a q) `prefix_of` queue_at st' a q.
Proof.
  intros Hr [p Hp] n. unfold burst, get_persona_at. rewrite Hp. mcbn.
  assert (Eq : queue_at st a q = get_queue q p) by (unfold queue_at; by rewrite Hp).
  destruct (set_queue_ok a q [] p st Hp) as (Hq1 & Hg1 & Hn1).
  destruct (execute_all_ok (take n (get_queue q p)) (put_persona a (set_queue q [] p) st)) as (st2 & E & Hq2 & Hg2).
  { by eapply ready_quiet. }
  unfold n in *. rewrite Eq in *. rewrite E. mcbn.
  destruct (quiet_alive st st2 a) as [p2 Hp2]; [by etrans|by eexists|]. rewrite Hp2. mcbn.
  set (l := drop _ _ ++ _). destruct (set_queue_ok a q l p2 st2 Hp2) as (Hq3 & Hg3 & Hn3).
  eexists. split; [done|]. split; [by etrans; [exact Hq1|by etrans]|]. split.
  - eapply queues_grow_trans; [exact Hg1|]. eapply queues_grow_trans; [|exact Hg3]. eapply queues_grow_weaken; [|exact Hg2]. done.
  - rewrite Hn3. by eexists.
Qed.

Lemma burst_some a q st : queue_at st a q <> [] -> (1 <= burst_size q max_burst (length (queue_at st a q)))%nat.
Proof. destruct (queue_at st a q) as [|m [|m' l]]; [done|intros _; destruct q; cbn; lia|intros _; destruct q; cbn; lia]. Qed.

(** Bursts one after the other run something if one of their queues has something. *)
Lemma burst_internal_ok a st : ready st -> is_Some (personas st !! a) ->
  exists n st', burst_internal execute t a st = Ok (n, st') /\ 0 <= n /\ quiet st st' /\
    queues_grow (fun b q => b = a /\ (q = Peer internal \/ q = Self internal)) st st' /\
    (queue_at st a (Peer internal) <> [] \/ queue_at st a (Self internal) <> [] -> 1 <= n).
Proof.
  intros Hr Ha. unfold burst_internal.
  destruct (burst_ok a (Peer internal) max_burst st Hr Ha) as (st1 & -> & Hq1 & Hg1 & _). mcbn.
  destruct (burst_ok a (Self internal) max_burst st1) as (st2 & -> & Hq2 & Hg2 & _);
    [by eapply ready_quiet|by eapply quiet_alive|]. mcbn.
  do 2 eexists. split; [done|]. split; [lia|]. split; [by etrans|]. split.
  - eapply queues_grow_trans; (eapply queues_grow_weaken; [|eassumption]); intros b q [-> ->]; auto.
  - intros [Hne|Hne].
    + apply burst_some in Hne. lia.
    + apply (queues_grow_nonempty _ _ _ _ _ Hg1) in Hne; [|by intros [_ ?]]. apply burst_some in Hne. lia.
Qed.

Lemma burst_user_ok a st : ready st -> is_Some (personas st !! a) ->
  exists n st', burst_user execute t a st = Ok (n, st') /\ 0 <= n /\ quiet st st' /\
    queues_grow (fun b q => b = a) st st' /\
    (queue_at st a (Peer user) <> [] \/ queue_at st a (Self user) <> [] \/ queue_at st a Deferred <> [] -> 1 <= n).
Proof.
  intros Hr Ha. unfold burst_user.
  destruct (burst_ok a (Peer user) max_burst st Hr Ha) as (st1 & -> & Hq1 & Hg1 & _). mcbn.
  destruct (burst_ok a (Self user) max_burst st1) as (st2 & -> & Hq2 & Hg2 & _);
    [by eapply ready_quiet|by eapply quiet_alive|]. mcbn.
  assert (quiet st st2) as Hq12 by by etrans.
  destruct (burst_ok a Deferred max_burst st2) as (st3 & -> & Hq3 & Hg3 & _);
    [by eapply ready_quiet|by eapply quiet_alive|]. mcbn.
  do 2 eexists. split; [done|]. split; [lia|]. split; [by etrans|]. split.
  - eapply queues_grow_trans; [|eapply queues_grow_trans]; (eapply queues_grow_weaken; [|eassumption]); by intros b q [-> _].
  - intros [Hne|[Hne|Hne]].
    + apply burst_some in Hne. lia.
    + apply (queues_grow_nonempty _ _ _ _ _ Hg1) in Hne; [|by intros [_ ?]]. apply burst_some in Hne. lia.
    + apply (queues_grow_nonempty _ _ _ _ _ Hg1) in Hne; [|by intros [_ ?]].
      apply (queues_grow_nonempty _ _ _ _ _ Hg2) in Hne; [|by intros [_ ?]]. apply burst_some in Hne. lia.
Qed.

End Bursts.

(** * Theorems *)

Lemma stack_size t l st : linked dp ds t l st -> well_formed dp ds t l -> (length l <= size (scopes st))%nat.
Proof.
  intros Hl Hw. assert (Hnd : NoDup (e_scope <$> l)).
  { clear Hl. induction l as [|e l IH]; cbn; [constructor|]. cbn in Hw. apply NoDup_cons. split; [apply Hw|apply IH, Hw]. }
  rewrite <- (length_fmap e_scope l), <- (size_list_to_set (C := gset addr)) by done. rewrite <- (size_dom (D := gset addr)).
  apply subseteq_size. intros s Hs%elem_of_list_to_set. apply elem_of_dom. by eapply linked_scope.
Qed.

Definition enough (st : state) : nat := S (size (scopes st)).

(** C18: The pointers of scopes refine stacks: what a call does to the objects is what
    the specification says of the stacks, and its assertions fail exactly when the
    specification fails: the persona is active with another thread, the master persona
    is taken by a thread that may not, or the scope is not the newest of the thread. *)
Theorem scopes_refine st : reachable st -> exists A, refines A st /\ forall t act r, step t act st r ->
  exists o, spec st A t act o /\ match o with Some A' => exists st', r = Ok st' /\ refines A' st' | None => r = Aborted end.
Proof. intros (A & HA)%reachable_refines. exists A. split; [done|]. intros t act r. by apply step_refines. Qed.

(** Destroying a scope right after it was constructed restores the state: the stack
    and the current persona of the thread, and the owner of the persona. *)
Theorem scope_roundtrip t s a st st' : reachable st -> step t (Push s a) st (Ok st') -> scope_dtor dp ds t s st' = Ok st.
Proof.
  intros (A & HR & HP)%reachable_refines Hst. inversion Hst as [| |? ? ? [x Hx] [p Hp] (Hs & Hs1 & Hsd) E1 E2 E3| | | | |]; subst.
  destruct (proj2 (r_threads _ _ _ _ HR t)) as [l Hl]; [by eexists|].
  destruct (activate_ok dp ds master seq dp_inj dp_pos ds_pos HR Hl Hx s a None p Hs Hs1 Hsd Hp) as [[_ E]|(Htk & E & Ek & HR')];
    unfold scope_ctor in E3; cbn [default] in E; rewrite E in E3; [done|injection E3 as <-].
  rewrite Ek in HR'. set (w := active a p) in *. set (e := mk_entry s a (if w then Shared else Unique) None) in *.
  set (st1 := activated dp ds s a None p w) in *.
  destruct (proj1 (r_threads _ _ _ _ HR' t)) as [x1 Hx1]; [rewrite lookup_insert_eq; by eexists|].
  assert (Hl1 : <[t := e :: l]> A !! t = Some (e :: l)) by apply lookup_insert_eq.
  assert (Hke : e_kind e <> Redundant) by (unfold e; cbn; by destruct w).
  change s with (e_scope e). erewrite (scope_dtor_top dp ds ds_pos HR' Hl1 Hx1 e l) by done. f_equal.
  pose proof (r_tls _ _ _ _ HR _ _ _ Hl Hx) as (Htop & Htu & Htp).
  assert (Ex1 : x1 = (if w then set_top_persona dp t a (set_top_scope ds t s x)
    else set_top_unique_scope ds t s (set_top_persona dp t a (set_top_scope ds t s x)))).
  { unfold st1, activated in Hx1. cbn in Hx1. rewrite lookup_insert_eq in Hx1. congruence. }
  clear Hst E. unfold popped, st1, activated. destruct st as [pe sc th lo]. cbn in *. f_equal.
  - pose proof (active_spec dp ds dp_pos HR a p Hp) as Has. unfold active in w.
    destruct w eqn:Ew; cbn.
    + rewrite insert_id; [done|]. rewrite Hp. f_equal. apply Has in Ew as [r Hr].
      assert (r = t) as ->.
      { destruct (decide (r = t)) as [|Hn]; [done|]. destruct Htk. left. by exists r. }
      apply (owner_of dp ds HR t a p Hp) in Hr. unfold set_owner. rewrite <- Hr. unfold get_owner. rewrite lxor_r. by destruct p.
    + rewrite alter_insert_eq. rewrite insert_id; [done|]. rewrite Hp. f_equal.
      apply negb_false_iff, Z.eqb_eq in Ew. unfold set_owner. cbn. rewrite <- Ew. unfold get_owner. rewrite lxor_r. by destruct p.
  - by apply delete_insert_id.
  - rewrite insert_insert_eq, Ex1, <- Htop, <- Htu, <- Htp. apply insert_id. rewrite Hx. f_equal.
    destruct x as [x1' x2 x3 x4 x5 x6]. unfold set_top_persona, set_top_scope, set_top_unique_scope, get_top_scope,
      get_top_unique_scope, get_top_persona. destruct w; cbn; f_equal; by rewrite Z.lxor_comm, lxor_r.
Qed.

Lemma active_owned A st t l a p : refines A st -> A !! t = Some l -> personas st !! a = Some p ->
  active_with_caller dp t a p = true <-> a ∈ uniques dp t l.
Proof.
  intros [HR _] Hl Hp. rewrite (active_with_caller_spec dp ds HR t a p Hp). apply (owns_here dp Hl).
Qed.

(** What the traversals need of a thread. *)
Lemma thread_facts st t x : reachable st -> threads st !! t = Some x ->
  exists l, linked dp ds t l st /\ well_formed dp ds t l /\ (length l < enough st)%nat /\
    get_top_unique_scope ds t x = unique_of ds t l /\ get_top_scope ds t x = top_of ds t l /\
    (forall a, owned dp t l a -> is_Some (personas st !! a)) /\
    (forall a, a ∈ (e_persona <$> l) ++ [dp t] -> owned dp t l a) /\
    (forall a p, personas st !! a = Some p -> active_with_caller dp t a p = true <-> a ∈ uniques dp t l).
Proof.
  intros (A & HA)%reachable_refines Hx. destruct (refines_thread A st t x HA Hx) as (l & Hl & Hlk & Hw & H1 & H2 & H3 & H4).
  exists l. split_and!; try done.
  - unfold enough. pose proof (stack_size t l st Hlk Hw). lia.
  - intros a p Hp. by eapply active_owned.
Qed.

(** [foreach_active_as_top] visits every persona that is active with the thread,
    each once, and leaves the stack as it found it. *)
Theorem foreach_visits st t x tmp f : reachable st -> threads st !! t = Some x -> fresh_scope tmp st ->
  (forall a, call_ok (dom (personas st)) t (f a)) ->
  exists v st', foreach_active_as_top dp ds (enough st) t tmp
      (fun p v st => st ← f p st; Ok (v ++ [p], st)) [] st = Ok (v, st') /\
    quiet st st' /\ NoDup v /\
    forall a p, personas st !! a = Some p -> a ∈ v <-> active_with_caller dp t a p = true.
Proof.
  intros Hre Hx (Htmp & Hv & _) Hf. destruct (thread_facts st t x Hre Hx) as (l & Hlk & Hw & Hlen & Htu & _ & Hal & _ & Hact).
  pose proof (unique_nodup t l Hw) as Hnd.
  unfold foreach_active_as_top, get_tls. rewrite Hx. mcbn. rewrite Htu.
  destruct (foreach_from_ok (fun p v st => st ← f p st; Ok (v ++ [p], st))
    (fun v acc per => acc = v /\ forall a, a ∈ dom (personas st) -> is_Some (per !! a)) t tmp l) with
    (fuel := enough st) (v := @nil addr) (acc := @nil addr) (st := st) as (v & st' & E & Hq & Hv' & _); try done.
  - intros v p acc st1 [-> Hd] Ht Hp Hn. destruct (Hf p st1 Ht Hd) as (st2 & -> & Hq & _). mcbn.
    exists (v ++ [p]), st2. split_and!; [done|done|done|]. intros a Ha. eapply quiet_alive; [exact Hq|by apply Hd].
  - split; [done|]. intros a Ha. by apply elem_of_dom.
  - intros e He. by eapply well_formed_scope.
  - exists v, st'. cbn in Hv'. subst v. split_and!; [exact E|done|done|]. intros a p Hp. symmetry. by apply Hact.
Qed.

(** [progress_required] ends, and tells whether some persona that is active with
    the thread has work left. *)
Theorem progress_required_exact st t x : reachable st -> threads st !! t = Some x ->
  exists b, progress_required dp ds (enough st) t None st = Ok b /\
    (b = true <-> exists a p, personas st !! a = Some p /\ active_with_caller dp t a p = true /\ undischarged_n p <> 0).
Proof.
  intros Hre Hx. destruct (thread_facts st t x Hre Hx) as (l & Hlk & Hw & Hlen & _ & Htop & Hal & Hin & Hact).
  exists (existsb (has_work st) ((e_persona <$> l) ++ [dp t])). split.
  - unfold progress_required, get_tls. rewrite Hx. mcbn. rewrite Htop. cbn [default].
    apply progress_required_ok; try done. intros a Ha. by apply Hal, Hin.
  - rewrite existsb_exists. setoid_rewrite <- list_elem_of_In. unfold has_work. split.
    + intros (a & Ha & Hwk). destruct (personas st !! a) as [p|] eqn:Hp; [|done]. exists a, p. split; [done|].
      split; [apply Hact; [done|]; by apply Hin|]. by apply negb_true_iff, Z.eqb_neq in Hwk.
    + intros (a & p & Hp & Ha%Hact & Hu); [|done]. exists a. split; [by apply uniques_personas|].
      rewrite Hp. by apply negb_true_iff, Z.eqb_neq.
Qed.

(** [during] runs its callback at once, with the persona on top and not in the
    middle of another user-level callback, exactly when the persona is active here and
    the level may be served; else it enqueues it. *)
Theorem during_cases st t x tmp a p lev m fn : reachable st -> threads st !! t = Some x -> fresh_scope tmp st ->
  personas st !! a = Some p -> call_ok (dom (personas st)) t fn ->
  if active_with_caller dp t a p && is_burstable lev x
  then exists st1 st2 st', fn st1 = Ok st2 /\ current_persona dp t st1 = Ok a /\
         (exists x1, threads st1 !! t = Some x1 /\ is_burstable user x1 = match lev with user => false | internal => is_burstable user x end) /\
         during dp ds t tmp a lev m fn st = Ok st' /\ quiet st st' /\ personas st' = personas st2
  else during dp ds t tmp a lev m fn st = enqueue dp t a lev m st.
Proof.
  intros _ Hx (Htmp & _) Hp Hfn. unfold during, enqueue, get_persona_at, get_tls. rewrite Hp. mcbn.
  destruct (active_with_caller dp t a p); cbn [andb]; [|done]. rewrite Hx. mcbn. destruct (is_burstable lev x) eqn:Hb; [|done].
  set (y := flip_burstable lev x). set (st0 := put_tls t y st). set (st1 := as_top t tmp a y st0).
  assert (Hy : threads st0 !! t = Some y) by apply lookup_insert_eq.
  assert (Ht1 : threads st1 !! t = Some (set_top_persona dp t a (set_top_scope ds t tmp y))) by apply lookup_insert_eq.
  destruct (Hfn st1) as (st2 & E & Hq & _).
  { by eexists. } { intros b Hb'. cbn. by apply elem_of_dom. }
  destruct (redundant_back t tmp a y st0 st2 Hy Htmp Hq) as (st3 & E3 & Hq3 & Ep3).
  destruct (quiet_bracket t (flip_burstable lev) (flip_burstable lev) x st st3 Hx Hq3 (flip_twice lev x)) as (st4 & E4 & Hq4 & Ep4).
  exists st1, st2, st4. split; [done|]. split.
  { unfold current_persona, get_tls. rewrite Ht1. mcbn. by rewrite get_set_top_persona. }
  split.
  { eexists. split; [done|]. rewrite burstable_user.
    change (burstable_bits (set_top_persona dp t a (set_top_scope ds t tmp y)))
      with (Z.lxor (burstable_bits x) (Z.shiftl 1 (level lev))). rewrite Z.lxor_spec. destruct lev.
    - change (Z.testbit (Z.shiftl 1 (level internal)) 1) with false. by rewrite burstable_user, xorb_false_r.
    - change (Z.testbit (Z.shiftl 1 (level user)) 1) with true. rewrite burstable_user in Hb. by rewrite Hb. }
  split; [|split; [done|congruence]].
  rewrite (with_tls_ok t (flip_burstable lev) x st Hx). mcbn. fold y st0.
  rewrite (redundant_as_top t tmp a y st0 Hy). mcbn. fold st1. rewrite E. mcbn. rewrite E3. mcbn. exact E4.
Qed.

(** ** Progress *)

Section Progress.
Context (execute : lpc -> tid -> state -> res state).

(** The body of the loop of [persona_only_progress]. *)
Definition progress_turn (t : tid) (p : addr) (n : Z) (st : state) : res (Z * state) :=
  '(n1, st) ← burst_internal execute t p st;
  st ← with_tls t (flip_burstable user) st;
  '(n2, st) ← burst_user execute t p st;
  st ← with_tls t (flip_burstable user) st;
  Ok (n + n1 + n2, st).

Lemma progress_turn_ok D t p n st : (forall m, call_ok D t (execute m t)) -> ready D t st -> is_Some (personas st !! p) ->
  exists n' st', progress_turn t p n st = Ok (n', st') /\ quiet st st' /\ n <= n' /\
    queues_grow (fun b _ => b = p) st st' /\ (forall q, queue_at st p q <> [] -> n + 1 <= n').
Proof.
  intros Hex Hr Hp. unfold progress_turn.
  destruct (burst_internal_ok execute D t Hex p st Hr Hp) as (n1 & st1 & -> & Hn1 & Hq1 & Hg1 & Hne1). mcbn.
  destruct (proj1 (ready_quiet D t st st1 Hr Hq1)) as [x Hx]. rewrite (with_tls_ok t _ x st1 Hx). mcbn.
  set (st2 := put_tls t (flip_burstable user x) st1).
  destruct (burst_user_ok execute D t Hex p st2) as (n2 & st3 & -> & Hn2 & Hq2 & Hg2 & Hne2).
  { split; [cbn; rewrite lookup_insert_eq; by eexists|]. apply (ready_quiet D t st st1 Hr Hq1). }
  { exact (quiet_alive _ _ _ Hq1 Hp). }
  mcbn. destruct (quiet_bracket t (flip_burstable user) (flip_burstable user) x st1 st3 Hx Hq2 (flip_twice user x))
    as (st4 & -> & Hq4 & Ep4). mcbn.
  assert (Hg24 : queues_grow (fun b _ => b = p) st1 st4).
  { intros b q Hn. pose proof (Hg2 b q Hn) as H. unfold queue_at in *. rewrite Ep4. exact H. }
  exists (n + n1 + n2), st4. split_and!; [done|by etrans|lia| |].
  - eapply queues_grow_trans; [|exact Hg24]. eapply queues_grow_weaken; [|exact Hg1]. by intros b q [-> _].
  - intros q Hne. assert (Hlater : forall r, r <> Peer internal -> r <> Self internal -> queue_at st p r <> [] -> queue_at st2 p r <> []).
    { intros r Hr1 Hr2 Hner. refine (queues_grow_nonempty _ _ _ _ _ Hg1 _ Hner). by intros [_ [?|?]]. }
    destruct q as [[]|[]|]; [| | | |].
    + specialize (Hne1 (or_introl Hne)). lia.
    + specialize (Hne2 (or_introl (Hlater (Peer user) ltac:(done) ltac:(done) Hne))). lia.
    + specialize (Hne1 (or_intror Hne)). lia.
    + specialize (Hne2 (or_intror (or_introl (Hlater (Self user) ltac:(done) ltac:(done) Hne)))). lia.
    + specialize (Hne2 (or_intror (or_intror (Hlater Deferred ltac:(done) ltac:(done) Hne)))). lia.
Qed.

(** What the loop keeps, for a queue [q] of [a] that may have something in it. *)
Definition progress_inv (D : gset addr) (a : addr) (q : queue) (busy : Prop) (v : list addr) (n : Z)
    (per : gmap addr persona) : Prop :=
  0 <= n /\ (forall b, b ∈ D -> is_Some (per !! b)) /\
  (busy -> if decide (a ∈ v) then 1 <= n else queue_at (mk_state per ∅ ∅ ∅) a q <> []).

Lemma progress_step D a q busy t : (forall m, call_ok D t (execute m t)) ->
  quiet_fn t (progress_inv D a q busy) (progress_turn t).
Proof.
  intros Hex v p n st (Hn & Hd & Hb) Ht Hp Hnv.
  destruct (progress_turn_ok D t p n st Hex (conj Ht Hd) Hp) as (n' & st' & E & Hq & Hle & Hg & Hne).
  exists n', st'. split; [done|]. split; [done|]. split; [lia|]. split; [intros b Hin; eapply quiet_alive; [exact Hq|by apply Hd]|].
  intros Hbusy. specialize (Hb Hbusy). destruct (decide (a ∈ v)) as [Hv|Hv].
  - rewrite decide_True by (apply elem_of_app; by left). lia.
  - destruct (decide (a = p)) as [->|Hap].
    + rewrite decide_True by (apply elem_of_app; right; left). specialize (Hne q Hb). lia.
    + rewrite decide_False; [exact (queues_grow_nonempty _ _ _ _ _ Hg Hap Hb)|].
      intros [?|Hin%list_elem_of_singleton]%elem_of_app; done.
Qed.

Lemma progress_ok st t x tmp a q : reachable st -> threads st !! t = Some x -> fresh_scope tmp st ->
  get_progressing x = -1 -> is_burstable user x = false ->
  (forall m, call_ok (dom (personas st)) t (execute m t)) ->
  exists n st', persona_only_progress dp ds execute (enough st) t tmp st = Ok (n, st') /\ quiet st st' /\ 0 <= n /\
    (forall p, personas st !! a = Some p -> active_with_caller dp t a p = true -> get_queue q p <> [] -> 1 <= n).
Proof.
  intros Hre Hx (Htmp & Hv & _) Hpr Hbu Hex.
  destruct (thread_facts st t x Hre Hx) as (l & Hlk & Hw & Hlen & Htu & _ & Hal & _ & Hact).
  pose proof (unique_nodup t l Hw) as Hnd.
  unfold persona_only_progress, get_tls. rewrite Hx. mcbn. rewrite Hpr, Z.eqb_refl, Hbu. cbn [negb]. mcbn.
  set (f := fun x => flip_burstable user (set_progressing (level user) x)).
  rewrite (with_tls_ok t f x st Hx). mcbn. set (st0 := put_tls t (f x) st).
  unfold foreach_active_as_top, get_tls. assert (Hx0 : threads st0 !! t = Some (f x)) by apply lookup_insert_eq.
  rewrite Hx0. mcbn. change (get_top_unique_scope ds t (f x)) with (get_top_unique_scope ds t x). rewrite Htu.
  destruct (foreach_from_ok (progress_turn t) (progress_inv (dom (personas st)) a q (queue_at st a q <> [])) t tmp l
    (progress_step _ a q _ t Hex) (enough st) [] 0 st0) as (n & st1 & E & Hq & (Hn & _ & Hb)); try done.
  - split; [lia|]. split; [intros b Hin; by apply elem_of_dom|]. intros Hne. rewrite decide_False by (by intros ?%elem_of_nil). done.
  - exact (linked_scopes t l st st0 eq_refl Hlk).
  - intros e He. by eapply well_formed_scope.
  - unfold progress_turn in E. rewrite E. mcbn.
    assert (Hg : (fun x => set_progressing (-1) (flip_burstable user x)) (f x) = x).
    { unfold f. unfold get_progressing in Hpr. destruct x as [x1 x2 x3 x4 x5 x6]. cbn in Hpr. unfold flip_burstable, set_progressing.
      cbn. rewrite lxor_r. f_equal. lia. }
    destruct (quiet_bracket t f _ x st st1 Hx Hq Hg) as (st2 & -> & Hq2 & _). mcbn.
    exists n, st2. split_and!; [done|done|done|]. intros p Hp Ha Hne.
    assert (queue_at st a q <> []) as Hne' by (unfold queue_at; by rewrite Hp).
    specialize (Hb Hne'). cbn [app] in Hb. rewrite decide_True in Hb; [done|]. by apply (Hact a p Hp).
Qed.

(** [persona_only_progress] returns, leaves the scopes and the state of the thread
    as it found them, and runs at least one callback if any queue of a persona that is
    active with the thread has one; inside of itself it does nothing. *)
Theorem progress_runs st t x tmp : reachable st -> threads st !! t = Some x -> fresh_scope tmp st ->
  is_burstable user x = false -> (forall m, call_ok (dom (personas st)) t (execute m t)) ->
  exists n st', persona_only_progress dp ds execute (enough st) t tmp st = Ok (n, st') /\
    (get_progressing x <> -1 -> n = 0 /\ st' = st) /\
    (get_progressing x = -1 -> quiet st st' /\ 0 <= n /\
      forall a q p, personas st !! a = Some p -> active_with_caller dp t a p = true -> get_queue q p <> [] -> 1 <= n).
Proof.
  intros Hre Hx Hf Hbu Hex. destruct (decide (get_progressing x = -1)) as [Hpr|Hpr].
  - destruct (progress_ok st t x tmp 0 Deferred Hre Hx Hf Hpr Hbu Hex) as (n & st' & E & Hq & Hn & _).
    exists n, st'. split; [done|]. split; [done|]. intros _. split_and!; [done..|]. intros a q p Hp Ha Hne.
    destruct (progress_ok st t x tmp a q Hre Hx Hf Hpr Hbu Hex) as (n2 & st2 & E2 & _ & _ & Hn2).
    rewrite E in E2. injection E2 as <- <-. by eapply Hn2.
  - exists 0, st. split; [|done]. unfold persona_only_progress, get_tls. rewrite Hx. mcbn.
    by rewrite (proj2 (Z.eqb_neq _ _) Hpr).
Qed.

End Progress.

(** ** Moving a scope *)

(** A scope that is moved while it is the newest of its thread breaks the stack:
    the thread still points to the old object, so that the destructor of the new one
    fails its assertion, and a traversal of the scopes runs into the mark of the dead
    object. *)
Theorem scope_move_breaks st t s a st1 d : reachable st -> step t (Push s a) st (Ok st1) -> fresh_scope d st1 ->
  exists st2, scope_move s d st1 = Ok st2 /\ scope_dtor dp ds t d st2 = Aborted /\
    (scopes st1 !! invalid = None -> has_work st a = false ->
     progress_required dp ds (enough st2) t None st2 = Undef).
Proof.
  intros (A & HR & HP)%reachable_refines Hst (Hd & Hdv & _).
  inversion Hst as [| |? ? ? [x Hx] [p Hp] (Hs & Hs1 & Hsd) E1 E2 E3| | | | |]; subst.
  destruct (proj2 (r_threads _ _ _ _ HR t)) as [l Hl]; [by eexists|].
  destruct (activate_ok dp ds master seq dp_inj dp_pos ds_pos HR Hl Hx s a None p Hs Hs1 Hsd Hp) as [[_ E]|(Htk & E & Ek & HR')];
    unfold scope_ctor in E3; cbn [default] in E; rewrite E in E3; [done|injection E3 as <-].
  set (w := active a p) in *. set (sc := entry_scope dp ds t (mk_entry s a (if w then Shared else Unique) None) l).
  assert (Hsc : scopes (activated dp ds (t := t) (l := l) (x := x) (st := st) s a None p w) !! s = Some sc) by apply lookup_insert_eq.
  assert (Hds : d <> s) by (intros ->; congruence).
  unfold scope_move. rewrite (get_scope_some _ _ _ Hsc). mcbn. eexists. split; [done|]. set (st2 := put_scope s _ _).
  assert (Hx2 : threads st2 !! t = Some (if w then set_top_persona dp t a (set_top_scope ds t s x)
    else set_top_unique_scope ds t s (set_top_persona dp t a (set_top_scope ds t s x)))) by apply lookup_insert_eq.
  set (x2 := if w then _ else _) in Hx2. assert (Htop : get_top_scope ds t x2 = s) by (unfold x2; destruct w; apply lxor_l).
  assert (Hd2 : scopes st2 !! d = Some sc) by (cbn; rewrite lookup_insert_ne by done; apply lookup_insert_eq). split.
  - unfold scope_dtor. rewrite (get_scope_some _ _ _ Hd2). mcbn. unfold get_tls. rewrite Hx2.
    cbn [next entry_scope sc]. destruct (r_linked _ _ _ _ HR _ _ Hl) as [_ Hw].
    rewrite (proj2 (Z.eqb_neq _ _) (top_not_invalid dp ds ds_pos _ _ Hw)). mcbn. rewrite Htop.
    by rewrite (proj2 (Z.eqb_neq _ _) Hds).
  - intros Hinv Hwork. unfold progress_required, get_tls. rewrite Hx2. mcbn. rewrite Htop. cbn [default].
    unfold enough. cbn [progress_required_from].
    assert (Hs2 : scopes st2 !! s = Some (mk_scope invalid (persona_xor_default sc) (next_unique sc) (lock_or_restore sc) (unlocker sc)))
      by apply lookup_insert_eq.
    rewrite (get_scope_some _ _ _ Hs2). mcbn.
    assert (scope_persona dp t (mk_scope invalid (persona_xor_default sc) (next_unique sc) (lock_or_restore sc) (unlocker sc)) = a)
      as -> by apply lxor_r.
    unfold get_persona_at, st2. cbn [personas put_scope put_tls activated put_persona]. rewrite lookup_insert_eq. mcbn.
    cbn [undischarged_n set_owner next]. unfold has_work in Hwork. rewrite Hp in Hwork. rewrite Hwork.
    rewrite (proj2 (Z.eqb_neq s (ds t)) (Hsd t)).
    destruct (size (scopes _)) eqn:Esz; [done|]. cbn [progress_required_from]. unfold get_scope.
    assert (scopes st2 !! invalid = None) as Hinv2.
    { cbn. rewrite lookup_insert_ne by (by destruct Hs1). rewrite lookup_insert_ne by (by destruct Hdv). exact Hinv. }
    unfold st2 in Hinv2. by rewrite Hinv2.
Qed.

End Layout.
(** * A run *)

(** Thread 0 starts, a persona is made at 64, taken by a scope at 16, and gets a callback. *)
Definition dp0 (t : tid) : addr := 4096 + 64 * Z.of_nat t.
Definition ds0 (t : tid) : addr := 4104 + 64 * Z.of_nat t.

Lemma dp0_inj : Inj (=) (=) dp0.
Proof. intros t r. unfold dp0. lia. Qed.
Lemma ds0_inj : Inj (=) (=) ds0.
Proof. intros t r. unfold ds0. lia. Qed.
Lemma dp0_pos t : dp0 t <> 0.
Proof. unfold dp0. lia. Qed.
Lemma ds0_pos t : ds0 t <> 0 /\ ds0 t <> invalid.
Proof. unfold ds0, invalid. lia. Qed.

Definition from_res (r : res state) : state := match r with Ok st => st | _ => nothing end.

Definition run1 : state := mk_state {[ dp0 0 := default_persona ]} {[ ds0 0 := default_scope_raw ]} {[ O := mk_tls 0 0 true 0 0 0 ]} ∅.
Definition run2 : state := put_persona 64 (new_persona 64) run1.
Definition run3 : state := from_res (scope_ctor dp0 ds0 2048 false 0 16 64 run2).
Definition run4 : state := from_res (enqueue dp0 0 64 user 7 run3).

Abbreviation step0 := (step dp0 ds0 2048 false).
Abbreviation reachable0 := (reachable dp0 ds0 2048 false).

Lemma reachable_step t act st st' : reachable0 st -> step0 t act st (Ok st') -> reachable0 st'.
Proof. intros Hr Hs. eapply rtc_r; [exact Hr|]. by exists t, act. Qed.

Lemma fresh0 s st : scopes st !! s = None -> 1 < s < 4096 -> fresh_scope ds0 s st.
Proof. intros Hs Hr. split; [done|]. unfold valid, invalid, ds0. split; [lia|]. intros r. lia. Qed.

Lemma run1_reachable : reachable0 run1.
Proof.
  apply (reachable_step 0 (Start true) nothing); [apply rtc_refl|].
  assert (run1 = mk_state (<[dp0 0 := default_persona]> (personas nothing)) (<[ds0 0 := default_scope_raw]> (scopes nothing))
    (<[O := mk_tls 0 0 true 0 0 0]> (threads nothing)) (locked nothing)) as -> by done.
  by constructor.
Qed.

Lemma run2_reachable : reachable0 run2.
Proof.
  apply (reachable_step 0 (NewPersona 64) run1); [apply run1_reachable|]. constructor; [done|]. intros r. unfold dp0. lia.
Qed.

Lemma run3_step : step0 0 (Push 16 64) run2 (Ok run3).
Proof.
  assert (E : scope_ctor dp0 ds0 2048 false 0 16 64 run2 = Ok run3) by (vm_compute; reflexivity). rewrite <- E.
  constructor; [by eexists|by eexists|]. apply fresh0; [done|lia].
Qed.

Lemma run4_reachable : reachable0 run4.
Proof.
  apply (reachable_step 0 (Send 64 user 7) run3).
  - exact (reachable_step _ _ _ _ run2_reachable run3_step).
  - assert (E : enqueue dp0 0 64 user 7 run3 = Ok run4) by (vm_compute; reflexivity). rewrite <- E. constructor.
    exists (default default_persona (personas run3 !! 64)). vm_compute. reflexivity.
Qed.

Definition tls4 : persona_tls := default the_persona_tls (threads run4 !! O).

Lemma tls4_ok : threads run4 !! O = Some tls4.
Proof. vm_compute. reflexivity. Qed.

Lemma fresh4 : fresh_scope ds0 32 run4.
Proof. apply fresh0; [vm_compute; reflexivity|lia]. Qed.

Lemma call_nothing D t : call_ok D t (fun st => Ok st).
Proof. intros st _ _. exists st. split_and!; [done|done|apply queues_grow_refl]. Qed.

Lemma scopes_refine_witness : exists A, refines dp0 ds0 A run4.
Proof.
  destruct (scopes_refine dp0 ds0 2048 false dp0_inj ds0_inj dp0_pos ds0_pos run4 run4_reachable) as (A & HA & _).
  by exists A.
Defined.

Lemma scope_roundtrip_witness : scope_dtor dp0 ds0 0 16 run3 = Ok run2.
Proof. apply (scope_roundtrip dp0 ds0 2048 false dp0_inj ds0_inj dp0_pos ds0_pos 0 16 64 _ _ run2_reachable run3_step). Defined.

Lemma foreach_visits_witness : exists v st', foreach_active_as_top dp0 ds0 (enough run4) 0 32
    (fun p v st => st ← Ok st; Ok (v ++ [p], st)) [] run4 = Ok (v, st') /\
  quiet run4 st' /\ NoDup v /\
  forall a p, personas run4 !! a = Some p -> a ∈ v <-> active_with_caller dp0 0 a p = true.
Proof.
  apply (foreach_visits dp0 ds0 2048 false dp0_inj ds0_inj dp0_pos ds0_pos run4 0 tls4 32 (fun _ st => Ok st));
    [exact run4_reachable|exact tls4_ok|exact fresh4|intros; apply call_nothing].
Defined.

Lemma progress_required_exact_witness : exists b, progress_required dp0 ds0 (enough run4) 0 None run4 = Ok b /\
  (b = true <-> exists a p, personas run4 !! a = Some p /\ active_with_caller dp0 0 a p = true /\ undischarged_n p <> 0).
Proof.
  apply (progress_required_exact dp0 ds0 2048 false dp0_inj ds0_inj dp0_pos ds0_pos run4 0 tls4);
    [exact run4_reachable|exact tls4_ok].
Defined.

Definition persona4 : persona := default default_persona (personas run4 !! 64).

Lemma during_cases_witness : if active_with_caller dp0 0 64 persona4 && is_burstable internal tls4
  then exists st1 st2 st', Ok st1 = Ok st2 /\ current_persona dp0 0 st1 = Ok 64 /\
         (exists x1, threads st1 !! O = Some x1 /\ is_burstable user x1 = is_burstable user tls4) /\
         during dp0 ds0 0 32 64 internal 9 (fun st => Ok st) run4 = Ok st' /\ quiet run4 st' /\ personas st' = personas st2
  else during dp0 ds0 0 32 64 internal 9 (fun st => Ok st) run4 = enqueue dp0 0 64 internal 9 run4.
Proof.
  apply (during_cases dp0 ds0 2048 false run4 0 tls4 32 64 persona4 internal 9 (fun st => Ok st));
    [exact run4_reachable|exact tls4_ok|exact fresh4|vm_compute; reflexivity|apply call_nothing].
Defined.

Lemma progress_runs_witness : exists n st',
  persona_only_progress dp0 ds0 (fun _ _ st => Ok st) (enough run4) 0 32 run4 = Ok (n, st') /\
  (get_progressing tls4 <> -1 -> n = 0 /\ st' = run4) /\
  (get_progressing tls4 = -1 -> quiet run4 st' /\ 0 <= n /\
    forall a q p, personas run4 !! a = Some p -> active_with_caller dp0 0 a p = true -> get_queue q p <> [] -> 1 <= n).
Proof.
  apply (progress_runs dp0 ds0 2048 false dp0_inj ds0_inj dp0_pos ds0_pos (fun _ _ st => Ok st) run4 0 tls4 32);
    [exact run4_reachable|exact tls4_ok|exact fresh4|vm_compute; reflexivity|intros; apply call_nothing].
Defined.

Lemma scope_move_breaks_witness : exists st2, scope_move 16 32 run3 = Ok st2 /\ scope_dtor dp0 ds0 0 32 st2 = Aborted /\
  (scopes run3 !! invalid = None -> has_work run2 64 = false -> progress_required dp0 ds0 (enough st2) 0 None st2 = Undef).
Proof.
  apply (scope_move_breaks dp0 ds0 2048 false dp0_inj ds0_inj dp0_pos ds0_pos run2 0 16 64);
    [exact run2_reachable|exact run3_step|apply fresh0; [vm_compute; reflexivity|lia]].
Defined.

Example progress4 : fst <$> match persona_only_progress dp0 ds0 (fun _ _ st => Ok st) (enough run4) 0 32 run4 with
                            | Ok p => Some p | _ => None end = Some 1.
Proof. vm_compute. reflexivity. Qed.

End PersonaSystem.
