(* ===== verification/CodeSegments.v ===== *)
(** The registry of code segments of one process: [src/ccs.hpp], [src/ccs_fwd.hpp],
    [src/ccs.cpp], and the encoding of function tokens in [src/global_fnptr.hpp].

    Processes load the same code at different addresses.  A function pointer is sent as
    a token: an offset into the primary segment, into a segment named by an index that
    all processes agree on, or into one named by its hash.  Each thread caches the
    segments it has used, in arrays sorted for binary search.

    The table of loaded segments is read from the system's program headers, which are a
    parameter; hashes are numbers whose order is that of the byte arrays, and the empty
    hash is 0.  What processes do together is in [CodeSegmentsSystem.v]. *)
From S2P Require Import Prelude.
From stdpp Require Import sorting.
#[local] Open Scope Z_scope.

Module CodeSegments.

(** * Segments *)

Abbreviation segment_hash := Z (only parsing).

Record segment_info := mk_seg { start : Z; end_ : Z; ident : segment_hash; flags : Z; idx : Z }.

(** [segment_flags] *)
Definition touched : Z := 1.
Definition verified : Z := 2.
Definition bad_verification : Z := 4.
Definition bad_segment : Z := 8.
Definition upcxx_binary : Z := 16.

Definition has (f : Z) (s : segment_info) : bool := negb (Z.land (flags s) f =? 0).
Definition with_flags (f : Z) (s : segment_info) : segment_info := mk_seg (start s) (end_ s) (ident s) f (idx s).
Definition with_idx (i : Z) (s : segment_info) : segment_info := mk_seg (start s) (end_ s) (ident s) (flags s) i.
Definition set_verified (s : segment_info) : segment_info :=
  with_flags (Z.ldiff (Z.lor (flags s) verified) bad_verification) s.
Definition set_bad_verification (s : segment_info) : segment_info :=
  with_flags (Z.ldiff (Z.lor (flags s) bad_verification) verified) s.

(** The static members of [segmap_cache]; [loaded] is what the program headers say. *)
Record process := mk_process {
  loaded : list segment_info; segment_map : list segment_info; primary : segment_info;
  enforce_verification : bool; verified_segment_count : Z; max_segments : Z;
  indexed_segment_starts : list Z; epoch : Z
}.

(** The caches of a thread; their occupancies are the lengths of the lists. *)
Record segment_lookup_ptr := mk_ptr { p_start : Z; p_end : Z; p_ident : segment_hash }.
Record segment_lookup_tkn := mk_tkn { t_ident : segment_hash; t_start : Z }.
Record segment_lookup_idx := mk_idx { i_start : Z; i_end : Z; i_idx : Z }.
Record segmap_cache := mk_cache {
  cache_ptr : list segment_lookup_ptr; cache_tkn : list segment_lookup_tkn; cache_idx : list segment_lookup_idx;
  cache_epoch : Z; cache_evict_index : nat; idx_cache_evict_index : nat
}.

Definition empty_cache : segmap_cache := mk_cache [] [] [] 0 0 0.
Definition max_cache_size : nat := 20.

Definition set_map (m : list segment_info) (p : process) : process :=
  mk_process (loaded p) m (primary p) (enforce_verification p) (verified_segment_count p) (max_segments p)
    (indexed_segment_starts p) (epoch p).

(** What a thread works on: the process, under its lock, and the thread's own caches. *)
Abbreviation local := (process * segmap_cache)%type.

(** ** The table *)

(** The last loops of [build_segment_map]: segments with the same hash are bad. *)
Definition mark_bad (s : segment_info) : segment_info := with_flags (Z.lor (flags s) bad_segment) s.
Definition mark_pair (m : list segment_info) (i j : nat) : list segment_info :=
  match m !! i, m !! j with
  | Some a, Some b => if ident a =? ident b then <[j := mark_bad b]> (<[i := mark_bad a]> m) else m
  | _, _ => m
  end.
Definition mark_from (m : list segment_info) (i : nat) : list segment_info :=
  foldl (fun m j => mark_pair m i j) m (seq (S i) (length m - S i)).
Definition build_segment_map (l : list segment_info) : list segment_info :=
  foldl mark_from l (seq 0 (length l)).

Definition keepflags : Z := Z.lor (Z.lor touched verified) bad_verification.

Definition merge_flags (old : list segment_info) (nseg : segment_info) : segment_info :=
  foldl (fun n o => if ident n =? ident o
                    then mk_seg (start n) (end_ n) (ident n) (Z.lor (flags n) (Z.land (flags o) keepflags)) (idx o)
                    else n) nseg old.

Definition rebuild_segment_map (p : process) : process :=
  set_map (merge_flags (segment_map p) <$> build_segment_map (loaded p)) p.

Definition find_primary_upcxx_segment (sentinel : Z) (m : list segment_info) : res segment_info :=
  match list_find (fun s => has upcxx_binary s = true) m with
  | Some (_, s) => Ok s
  | None =>
      match list_find (fun s => start s <= sentinel /\ sentinel < end_ s) m with
      | Some (_, s) => Ok s
      | None => Aborted
      end
  end.

(** What [init] and the initializers of the static members make. *)
Definition init_process (l : list segment_info) (sentinel max : Z) (enforce : bool) : res process :=
  let m := build_segment_map l in
  pr ← find_primary_upcxx_segment sentinel m;
  Ok (mk_process l m pr enforce 1 max (replicate (Z.to_nat max) 0) 0).

(** * Caches *)

(** [std::upper_bound] and [std::lower_bound] on arrays that are sorted. *)
Fixpoint upper_bound {A} (end_of : A -> Z) (uptr : Z) (l : list A) : nat :=
  match l with [] => O | x :: l => if uptr <=? end_of x then O else S (upper_bound end_of uptr l) end.
Fixpoint lower_bound (id : segment_hash) (l : list segment_lookup_tkn) : nat :=
  match l with [] => O | x :: l => if t_ident x <? id then S (lower_bound id l) else O end.

Definition key_le {A} (key : A -> Z) (x y : A) : Prop := key x <= key y.
#[export] Instance key_le_dec {A} (key : A -> Z) x y : Decision (key_le key x y).
Proof. unfold key_le. apply _. Defined.
Definition sort_by {A} (key : A -> Z) (l : list A) : list A := merge_sort (key_le key) l.

Definition search {A} (start_of end_of : A -> Z) (l : list A) (uptr : Z) : option A :=
  match l !! upper_bound end_of uptr l with
  | Some x => if start_of x <=? uptr then Some x else None
  | None => None
  end.

(** [search_cache(uptr)]: out of date, the caches of unverified segments are emptied. *)
Definition search_cache (uptr : Z) (st : local) : option segment_lookup_ptr * local :=
  let '(p, c) := st in
  if epoch p =? cache_epoch c then (search p_start p_end (cache_ptr c) uptr, st)
  else (None, (p, mk_cache [] [] (cache_idx c) (epoch p) (cache_evict_index c) (idx_cache_evict_index c))).

Definition search_idx_cache (uptr : Z) (c : segmap_cache) : option segment_lookup_idx :=
  search i_start i_end (cache_idx c) uptr.

(** [search_cache(ident)] *)
Definition search_tkn (id : segment_hash) (c : segmap_cache) : option segment_lookup_tkn :=
  match cache_tkn c !! lower_bound id (cache_tkn c) with
  | Some x => if t_ident x =? id then Some x else None
  | None => None
  end.

Definition activate_idx (seg : segment_info) (c : segmap_cache) : res segmap_cache :=
  let e := mk_idx (start seg) (end_ seg) (idx seg) in
  if (length (cache_idx c) <? max_cache_size)%nat then
    Ok (mk_cache (cache_ptr c) (cache_tkn c) (sort_by i_start (cache_idx c ++ [e])) (cache_epoch c)
          (cache_evict_index c) (idx_cache_evict_index c))
  else
    _ ← assert_that (idx_cache_evict_index c <? max_cache_size)%nat;
    Ok (mk_cache (cache_ptr c) (cache_tkn c) (sort_by i_start (<[idx_cache_evict_index c := e]> (cache_idx c)))
          (cache_epoch c) (cache_evict_index c) ((idx_cache_evict_index c + 1) mod max_cache_size)%nat).

Definition activate_hash (seg : segment_info) (c : segmap_cache) : res segmap_cache :=
  let e := mk_ptr (start seg) (end_ seg) (ident seg) in
  let k := mk_tkn (ident seg) (start seg) in
  if (length (cache_ptr c) <? max_cache_size)%nat then
    Ok (mk_cache (sort_by p_start (cache_ptr c ++ [e])) (sort_by t_ident (cache_tkn c ++ [k])) (cache_idx c)
          (cache_epoch c) (cache_evict_index c) (idx_cache_evict_index c))
  else
    _ ← assert_that (cache_evict_index c <? max_cache_size)%nat;
    old ← deref (cache_tkn c !! cache_evict_index c);
    let it := upper_bound p_end (t_start old) (cache_ptr c) in
    x ← deref (cache_ptr c !! it);
    _ ← assert_that (p_start x =? t_start old);
    Ok (mk_cache (sort_by p_start (<[it := e]> (cache_ptr c)))
          (sort_by t_ident (<[cache_evict_index c := k]> (cache_tkn c))) (cache_idx c)
          (cache_epoch c) ((cache_evict_index c + 1) mod max_cache_size)%nat (idx_cache_evict_index c)).

(** [activate] of the entry at [i] of the table. *)
Definition activate (i : nat) (st : local) : res local :=
  let '(p, c) := st in
  seg ← deref (segment_map p !! i);
  let p := set_map (<[i := with_flags (Z.lor (flags seg) touched) seg]> (segment_map p)) p in
  c ← (if 0 <? idx seg then activate_idx seg c else activate_hash seg c);
  Ok (p, c).

Definition try_inactive (uptr : Z) (st : local) : res (option segment_info * local) :=
  match list_find (fun s => start s < uptr /\ uptr < end_ s) (segment_map st.1) with
  | Some (i, s) =>
      _ ← assert_that (negb (has bad_segment s));
      st ← activate i st; Ok (Some s, st)
  | None => Ok (None, st)
  end.

(** [search_map(uptr)]; nothing found is a tuple of zeros. *)
Definition search_map (uptr : Z) (st : local) : res ((Z * Z * segment_hash * Z) * local) :=
  '(it, st) ← try_inactive uptr st;
  match it with
  | Some s => Ok ((start s, end_ s, ident s, idx s), st)
  | None =>
      '(it, st) ← try_inactive uptr (rebuild_segment_map st.1, st.2);
      match it with
      | Some s => Ok ((start s, end_ s, ident s, idx s), st)
      | None => Ok ((0, 0, 0, 0), st)
      end
  end.

(** [search_map(ident)] *)
Definition find_ident (id : segment_hash) (st : local) : option (nat * segment_info) :=
  list_find (fun s => ident s = id) (segment_map st.1).

Definition search_map_ident (id : segment_hash) (st : local) : res (option Z * local) :=
  match find_ident id st with
  | Some (i, s) => st ← activate i st; Ok (Some (start s), st)
  | None =>
      let st := (rebuild_segment_map st.1, st.2) in
      match find_ident id st with
      | Some (i, s) => st ← activate i st; Ok (Some (start s), st)
      | None => Ok (None, st)
      end
  end.

(** * Tokens *)

(** [function_token_ss], [function_token_ms], [function_token_ms_idx] *)
Inductive function_token := Single (offset : Z) | Multi (offset : Z) (id : segment_hash) | MultiIdx (offset : Z) (i : Z).

Definition in_primary (uptr : Z) (p : process) : bool := (start (primary p) <=? uptr) && (uptr <? end_ (primary p)).

Definition tokenize_ss (uptr : Z) (p : process) : res function_token :=
  _ ← assert_that (in_primary uptr p); Ok (Single (uptr - start (primary p))).

Definition tokenize_ms (uptr : Z) (st : local) : res (function_token * local) :=
  let '(hit, st) := search_cache uptr st in
  match hit with
  | Some it => Ok (Multi (uptr - p_start it) (p_ident it), st)
  | None =>
      '(r, st) ← search_map uptr st;
      let '(s, e, h, _) := r in
      if negb (e =? 0) then Ok (Multi (uptr - s) h, st) else Aborted
  end.

Definition tokenize_ms_idx (uptr : Z) (st : local) : res (function_token * local) :=
  match search_idx_cache uptr st.2 with
  | Some it => Ok (MultiIdx (uptr - i_start it) (i_idx it), st)
  | None =>
      '(r, st) ← search_map uptr st;
      let '(s, e, _, i) := r in
      if negb (e =? 0) && (0 <? i) then Ok (MultiIdx (uptr - s) i, st) else Ok (MultiIdx 0 0, st)
  end.

(** [function_token::tokenize]; [None] is the exception [segment_verification_error]. *)
Definition tokenize (uptr : Z) (st : local) : res (option function_token * local) :=
  if in_primary uptr st.1 then t ← tokenize_ss uptr st.1; Ok (Some t, st)
  else
    match search_idx_cache uptr st.2 with
    | Some it => Ok (Some (MultiIdx (uptr - i_start it) (i_idx it)), st)
    | None =>
        let '(hit, st) := if negb (enforce_verification st.1) then search_cache uptr st else (None, st) in
        match hit with
        | Some it => Ok (Some (Multi (uptr - p_start it) (p_ident it)), st)
        | None =>
            '(r, st) ← search_map uptr st;
            let '(s, e, h, i) := r in
            if negb (e =? 0) then
              if 0 <? i then Ok (Some (MultiIdx (uptr - s) i), st)
              else if negb (enforce_verification st.1) then Ok (Some (Multi (uptr - s) h), st)
              else Ok (None, st)
            else Aborted
        end
    end.

Definition lookup_at_idx (i : Z) (p : process) : res Z :=
  _ ← assert_that (i <=? verified_segment_count p);
  if 0 <=? i then deref (indexed_segment_starts p !! Z.to_nat i) else Undef.

Definition detokenize_ms (offset : Z) (id : segment_hash) (st : local) : res (Z * local) :=
  match search_tkn id st.2 with
  | Some it => Ok (w64 (t_start it + offset), st)
  | None =>
      '(r, st) ← search_map_ident id st;
      match r with Some s => Ok (w64 (s + offset), st) | None => Aborted end
  end.

(** [function_token::detokenize] *)
Definition detokenize (t : function_token) (st : local) : res (Z * local) :=
  match t with
  | Single offset => Ok (w64 (start (primary st.1) + offset), st)
  | MultiIdx offset i => s ← lookup_at_idx i st.1; Ok (w64 (s + offset), st)
  | Multi offset id => detokenize_ms offset id st
  end.

(** ** On the wire *)

Definition msb : Z := Z.shiftl 1 63.
Definition idx_shift : Z := 48.
Definition upper_bits : Z := Z.shiftl 65535 idx_shift.
Definition lower_bits : Z := Z.ldiff (2 ^ 64 - 1) upper_bits.
Definition idx_bits : Z := Z.ldiff upper_bits msb.

(** [serialization<global_fnptr>]: a word, and a hash for segments named by one. *)
Definition serialize (t : function_token) : res (Z * option segment_hash) :=
  match t with
  | Single offset => _ ← assert_that (Z.land offset msb =? 0); Ok (offset, None)
  | MultiIdx offset i =>
      _ ← assert_that (offset <? Z.shiftl 1 idx_shift);
      _ ← assert_that (0 <? i);
      Ok (Z.lor (Z.lor offset (Z.shiftl i idx_shift)) msb, None)
  | Multi offset id =>
      _ ← assert_that (Z.land offset upper_bits =? 0);
      Ok (Z.lor offset msb, Some id)
  end.

Definition deserialize (w : Z * option segment_hash) : res function_token :=
  let offset := w.1 in
  if Z.land offset msb =? 0 then Ok (Single offset)
  else
    let i := Z.shiftr (Z.land offset idx_bits) idx_shift in
    if 0 <? i then Ok (MultiIdx (Z.land offset lower_bits) i)
    else id ← deref w.2; Ok (Multi (Z.land offset lower_bits) id).

(** * Verification *)

(** [verify_segment]: what a process contributes to the reduction, the reduction, and
    what it does with the result; [false] is the exception. *)
Definition verify_contribution (uptr : Z) (p : process) : res (segment_hash * process) :=
  let p := rebuild_segment_map p in
  match list_find (fun s => start s < uptr /\ uptr < end_ s) (segment_map p) with
  | Some (_, s) => _ ← assert_that (negb (has bad_segment s)); Ok (ident s, p)
  | None => Ok (0, p)
  end.

Definition seghash_reduce (lhs rhs : segment_hash) : segment_hash := if lhs =? rhs then lhs else 0.

Definition store_start (i s : Z) (l : list Z) : res (list Z) :=
  if (0 <=? i) && (i <? Z.of_nat (length l)) then Ok (<[Z.to_nat i := s]> l) else Undef.

Definition verify_commit (h reduced : segment_hash) (p : process) : res (bool * process) :=
  match list_find (fun s => ident s = h) (segment_map p) with
  | Some (k, it) =>
      if negb (reduced =? 0) then
        if has verified it then Ok (true, p)
        else
          let i := verified_segment_count p in
          _ ← assert_that (i <=? max_segments p);
          starts ← store_start i (start it) (indexed_segment_starts p);
          Ok (true, mk_process (loaded p) (<[k := with_idx i (set_verified it)]> (segment_map p)) (primary p)
                      (enforce_verification p) (i + 1) (max_segments p) starts (w64 (epoch p + 1)))
      else Ok (false, set_map (<[k := set_bad_verification it]> (segment_map p)) p)
  | None => Ok (false, p)
  end.

(** [verify_all]: the checks of a process, and what it does with the common result. *)
Definition verify_checklist (hashlist : list segment_hash) (m : list segment_info) : list bool :=
  (fun h => existsb (fun s => h =? ident s) m) <$> hashlist.

Definition mark_checked (m : list segment_info) (x : segment_hash * bool) : list segment_info :=
  match list_find (fun s => ident s = x.1) m with
  | Some (k, s) => <[k := (if x.2 then set_verified s else set_bad_verification s)]> m
  | None => m
  end.

Definition mark_rest (s : segment_info) : segment_info :=
  if has verified s || has bad_verification s then s else set_bad_verification s.

(** The loop from [i] over the indices, [n] turns. *)
Fixpoint is_indexed (n : nat) (i s : Z) (starts : list Z) : res bool :=
  match n with
  | O => Ok false
  | S n => x ← deref (starts !! Z.to_nat i); if s =? x then Ok true else is_indexed n (i + 1) s starts
  end.

Fixpoint new_segments (count : Z) (starts : list Z) (m : list segment_info) : res (list segment_info) :=
  match m with
  | [] => Ok []
  | s :: m =>
      if has verified s then
        found ← is_indexed (Z.to_nat count) 1 (start s) starts;
        l ← new_segments count starts m;
        Ok (if (found : bool) then l else s :: l)
      else new_segments count starts m
  end.

Fixpoint assign_indices (l : list segment_info) (p : process) : res process :=
  match l with
  | [] => Ok p
  | s :: l =>
      let i := verified_segment_count p in
      starts ← store_start i (start s) (indexed_segment_starts p);
      let m := (fun s2 => if start s =? start s2 then with_idx i s2 else s2) <$> segment_map p in
      assign_indices l (mk_process (loaded p) m (primary p) (enforce_verification p) (i + 1) (max_segments p)
                          starts (epoch p))
  end.

(** [int16_t] *)
Definition i16 (z : Z) : Z := (z + 2 ^ 15) mod 2 ^ 16 - 2 ^ 15.

Definition verify_all_commit (checked : list (segment_hash * bool)) (p : process) : res process :=
  let m := mark_rest <$> foldl mark_checked (segment_map p) checked in
  _ ← assert_that (forallb (fun s => negb (start s =? start (primary p)) || has verified s) m);
  l ← new_segments (verified_segment_count p) (indexed_segment_starts p) m;
  let l := sort_by ident l in
  let required := i16 (verified_segment_count p + Z.of_nat (length l)) in
  _ ← assert_that (required <=? max_segments p);
  _ ← assert_that (0 <? required);
  p ← assign_indices l (set_map m p);
  Ok (match l with
      | [] => p
      | _ => mk_process (loaded p) (segment_map p) (primary p) (enforce_verification p) (verified_segment_count p)
               (max_segments p) (indexed_segment_starts p) (w64 (epoch p + 1))
      end).

End CodeSegments.
