(* ===== verification/CodeSegmentsLookup.v ===== *)
(** Looking up code segments: what holds of the table and of the caches, and that a
    lookup through them finds what the loaded segments say. *)
From S2P Require Import Prelude CodeSegments.
From stdpp Require Import sorting.
#[local] Open Scope Z_scope.

Module Lookup.
Import CodeSegments.

(** * Flags *)

Lemma has_bit k s : 0 <= k -> has (2 ^ k) s = Z.testbit (flags s) k.
Proof. intros Hk. unfold has. by rewrite land_pow2_test, negb_involutive. Qed.

Lemma has_verified s : has verified s = Z.testbit (flags s) 1.
Proof. by apply (has_bit 1). Qed.
Lemma has_bad s : has bad_segment s = Z.testbit (flags s) 3.
Proof. by apply (has_bit 3). Qed.

(** What is left of a segment without its flags and index. *)
Definition seg_key (s : segment_info) : Z * Z * Z := (start s, end_ s, ident s).

(** Changes of flags keep the key, the index and whether the segment is bad. *)
Definition same_seg (s s' : segment_info) : Prop :=
  seg_key s' = seg_key s /\ idx s' = idx s /\ has bad_segment s' = has bad_segment s.

Lemma with_flags_same f s : Z.testbit f 3 = Z.testbit (flags s) 3 -> same_seg s (with_flags f s).
Proof. intros E. unfold same_seg. by rewrite !has_bad. Qed.

Ltac flag_bits := cbn [flags with_flags set_verified set_bad_verification];
  rewrite ?Z.ldiff_spec, ?Z.lor_spec; by match goal with |- context [Z.testbit (flags ?s) ?k] => destruct (Z.testbit (flags s) k) end.

Lemma set_verified_same s : same_seg s (set_verified s).
Proof. unfold set_verified. apply with_flags_same. flag_bits. Qed.
Lemma set_bad_same s : same_seg s (set_bad_verification s).
Proof. unfold set_bad_verification. apply with_flags_same. flag_bits. Qed.
Lemma touch_same s : same_seg s (with_flags (Z.lor (flags s) touched) s).
Proof. apply with_flags_same. flag_bits. Qed.

Lemma set_verified_has s : has verified (set_verified s) = true.
Proof. rewrite has_verified. flag_bits. Qed.
Lemma set_bad_has s : has verified (set_bad_verification s) = false.
Proof. rewrite has_verified. flag_bits. Qed.
Lemma touch_has s : has verified (with_flags (Z.lor (flags s) touched) s) = has verified s.
Proof. rewrite !has_verified. flag_bits. Qed.

(** * What holds of a process *)

(** The segments the system reports: apart from each other, each with its own hash. *)
Record wf_loaded (l : list segment_info) : Prop := {
  wf_seg : forall s, s ∈ l -> 0 < start s /\ start s < end_ s /\ end_ s < w64_mod /\ idx s = 0 /\ Z.land (flags s) keepflags = 0;
  wf_ident : NoDup (ident <$> l);
  wf_apart : forall s s', s ∈ l -> s' ∈ l -> s = s' \/ end_ s < start s' \/ end_ s' < start s
}.

(** [ids] are the hashes that have an index, in the order of the indices from 1;
    [V] the hashes of verified segments; [pid] the hash of the primary segment. *)
Record process_ok (pid : Z) (V : Z -> Prop) (ids : list Z) (p : process) : Prop := {
  po_loaded : wf_loaded (loaded p);
  po_known : forall s, s ∈ segment_map p -> exists s0, s0 ∈ loaded p /\ seg_key s = seg_key s0 /\ has bad_segment s = has bad_segment s0;
  po_idents : NoDup (ident <$> segment_map p);
  po_verified : forall s, s ∈ segment_map p -> has verified s = true <-> V (ident s);
  po_idx : forall s, s ∈ segment_map p -> idx s = 0 /\ ident s ∉ ids \/ 0 < idx s /\ ids !! Z.to_nat (idx s - 1) = Some (ident s);
  po_ids : forall i id, ids !! i = Some id ->
    exists s, s ∈ segment_map p /\ ident s = id /\ indexed_segment_starts p !! S i = Some (start s);
  po_nodup : NoDup ids;
  po_count : verified_segment_count p = Z.of_nat (length ids) + 1;
  po_free : forall i x, (length ids < i)%nat -> indexed_segment_starts p !! i = Some x -> x = 0;
  po_room : Z.of_nat (length (indexed_segment_starts p)) <= 32767;
  po_epoch : 0 <= epoch p <= Z.of_nat (length ids);
  po_primary : exists s0, s0 ∈ loaded p /\ seg_key (primary p) = seg_key s0;
  po_pid : ident (primary p) = pid
}.

Lemma loaded_ident l s s' : wf_loaded l -> s ∈ l -> s' ∈ l -> ident s = ident s' -> s = s'.
Proof.
  intros Hl [i Hi]%list_elem_of_lookup [j Hj]%list_elem_of_lookup E.
  assert (i = j) as ->; [|congruence].
  eapply NoDup_lookup; [apply (wf_ident _ Hl)|by rewrite list_lookup_fmap, Hi|]. rewrite list_lookup_fmap, Hj. cbn. by rewrite E.
Qed.

(** Two loaded segments with an address in common, ends included, are one. *)
Lemma loaded_address l s s' a : wf_loaded l -> s ∈ l -> s' ∈ l -> start s <= a <= end_ s -> start s' <= a <= end_ s' -> s = s'.
Proof. intros Hl Hs Hs' H1 H2. destruct (wf_apart _ Hl s s' Hs Hs') as [|[|]]; [done|lia..]. Qed.

Section process.
Context {pid : Z} {V : Z -> Prop} {ids : list Z} {p : process} (Hp : process_ok pid V ids p).

Lemma map_ident s s' : s ∈ segment_map p -> s' ∈ segment_map p -> ident s = ident s' -> s = s'.
Proof using Hp.
  intros [i Hi]%list_elem_of_lookup [j Hj]%list_elem_of_lookup E.
  assert (i = j) as ->; [|congruence].
  eapply NoDup_lookup; [apply (po_idents _ _ _ _ Hp)|by rewrite list_lookup_fmap, Hi|]. rewrite list_lookup_fmap, Hj. cbn. by rewrite E.
Qed.

Lemma map_indexed s : s ∈ segment_map p -> 0 < idx s <-> ident s ∈ ids.
Proof using Hp.
  intros Hs. destruct (po_idx _ _ _ _ Hp s Hs) as [[E Hn]|[Hi E]].
  - split; [lia|done].
  - split; [|done]. intros _. by eapply list_elem_of_lookup_2.
Qed.

Lemma map_known s s0 a : s ∈ segment_map p -> s0 ∈ loaded p -> start s <= a <= end_ s -> start s0 <= a <= end_ s0 ->
  seg_key s = seg_key s0 /\ has bad_segment s = has bad_segment s0.
Proof using Hp.
  intros Hs H0 Ha Ha0. destruct (po_known _ _ _ _ Hp s Hs) as (s1 & H1 & Ek & Eb).
  assert (s1 = s0) as ->; [|done]. injection Ek as E1 E2 E3.
  apply (loaded_address (loaded p) s1 s0 a); [apply Hp|done..|lia|done].
Qed.

End process.

(** The table may change entry by entry. *)
Lemma process_ok_map pid V V' ids p m : process_ok pid V ids p ->
  ident <$> m = ident <$> segment_map p ->
  (forall i s s', segment_map p !! i = Some s -> m !! i = Some s' -> same_seg s s' /\ (has verified s' = true <-> V' (ident s'))) ->
  process_ok pid V' ids (set_map m p).
Proof.
  intros Hp Ei Hm.
  assert (Hback : forall s', s' ∈ m -> exists s, s ∈ segment_map p /\ same_seg s s' /\ (has verified s' = true <-> V' (ident s'))).
  { intros s' [i Hi]%list_elem_of_lookup. apply (f_equal (fun l => l !! i)) in Ei as Ei'.
    rewrite !list_lookup_fmap, Hi in Ei'. destruct (segment_map p !! i) as [s|] eqn:Es; [|done].
    exists s. split; [by eapply list_elem_of_lookup_2|by apply (Hm i)]. }
  split; cbn; try apply Hp.
  - intros s' (s & Hs & (Ek & _ & Eb) & _)%Hback. rewrite Ek, Eb. by apply (po_known _ _ _ _ Hp).
  - rewrite Ei. apply Hp.
  - intros s' (s & Hs & _ & Hv)%Hback. done.
  - intros s' (s & Hs & (Ek & Ex & _) & _)%Hback. injection Ek as E1 E2 E3. rewrite Ex, E3. by apply (po_idx _ _ _ _ Hp).
  - intros i id Hi. destruct (po_ids _ _ _ _ Hp i id Hi) as (s & Hs & Es & Est).
    apply list_elem_of_lookup in Hs as [j Hj]. apply (f_equal (fun l => l !! j)) in Ei as Ei'.
    rewrite !list_lookup_fmap, Hj in Ei'. destruct (m !! j) as [s'|] eqn:Es'; [|done].
    exists s'. split; [by eapply list_elem_of_lookup_2|]. destruct (Hm j s s' Hj Es') as [(Ek & _ & _) _].
    injection Ek as E1 E2 E3. split; congruence.
Qed.

Lemma process_ok_entry pid V V' ids p i s s' : process_ok pid V ids p -> segment_map p !! i = Some s -> same_seg s s' ->
  (forall t, t ∈ segment_map p -> ident t <> ident s -> V' (ident t) <-> V (ident t)) -> (has verified s' = true <-> V' (ident s)) ->
  process_ok pid V' ids (set_map (<[i := s']> (segment_map p)) p).
Proof.
  intros Hp Hi Hs HV Hv. assert (Ek := proj1 Hs). injection Ek as E1 E2 E3. eapply process_ok_map; [exact Hp| |].
  - rewrite list_fmap_insert, E3. apply list_insert_id. by rewrite list_lookup_fmap, Hi.
  - intros j t t' Ht Ht'. destruct (decide (j = i)) as [->|Hn].
    + rewrite list_lookup_insert_eq in Ht' by (by eapply lookup_lt_Some). injection Ht' as <-. assert (t = s) as -> by congruence.
      split; [done|]. by rewrite E3.
    + rewrite list_lookup_insert_ne in Ht' by done. assert (t' = t) as -> by congruence. split; [done|].
      assert (Hin : t ∈ segment_map p) by (by eapply list_elem_of_lookup_2). rewrite HV; [by apply (po_verified _ _ _ _ Hp)|done|].
      intros E. apply Hn. eapply NoDup_lookup; [apply (po_idents _ _ _ _ Hp)|by rewrite list_lookup_fmap, Ht|].
      rewrite list_lookup_fmap, Hi. cbn. by rewrite E.
Qed.

(** * Rebuilding the table *)

Lemma mark_pair_id m i j : NoDup (ident <$> m) -> i <> j -> mark_pair m i j = m.
Proof.
  intros Hm Hij. unfold mark_pair. destruct (m !! i) as [a|] eqn:Ea; [|done]. destruct (m !! j) as [b|] eqn:Eb; [|done].
  destruct (Z.eqb_spec (ident a) (ident b)) as [E|]; [|done]. exfalso. apply Hij.
  eapply NoDup_lookup; [exact Hm|by rewrite list_lookup_fmap, Ea|]. rewrite list_lookup_fmap, Eb. cbn. by rewrite E.
Qed.

Lemma foldl_id {A B} (f : A -> B -> A) a l : (forall b, b ∈ l -> f a b = a) -> foldl f a l = a.
Proof.
  induction l as [|b l IH]; [done|]. intros H. cbn. rewrite (H b) by left. apply IH. intros c Hc. apply H. by right.
Qed.

(** With distinct hashes there is nothing to mark. *)
Lemma build_segment_map_id l : NoDup (ident <$> l) -> build_segment_map l = l.
Proof.
  intros Hl. apply foldl_id. intros i _. apply foldl_id. intros j Hj%elem_of_seq. apply mark_pair_id; [done|lia].
Qed.

Lemma merge_flags_miss old n : ident n ∉ (ident <$> old) -> merge_flags old n = n.
Proof.
  intros Hn. apply foldl_id. intros o Ho. destruct (Z.eqb_spec (ident n) (ident o)) as [E|]; [|done].
  destruct Hn. rewrite E. by apply list_elem_of_fmap_2.
Qed.

Lemma merge_flags_app old1 old2 n : merge_flags (old1 ++ old2) n = merge_flags old2 (merge_flags old1 n).
Proof. apply foldl_app. Qed.

Lemma merge_flags_hit old o n : NoDup (ident <$> old) -> o ∈ old -> ident n = ident o ->
  merge_flags old n = mk_seg (start n) (end_ n) (ident n) (Z.lor (flags n) (Z.land (flags o) keepflags)) (idx o).
Proof.
  intros Hnd (l1 & l2 & ->)%list_elem_of_split E. rewrite fmap_app, fmap_cons in Hnd.
  apply NoDup_app in Hnd as (_ & H1 & [H2 _]%NoDup_cons). rewrite merge_flags_app, (merge_flags_miss l1).
  - change (o :: l2) with ([o] ++ l2). rewrite merge_flags_app. unfold merge_flags at 2. cbn [foldl].
    rewrite (proj2 (Z.eqb_eq _ _) E). apply merge_flags_miss. cbn [ident]. by rewrite E.
  - rewrite E. intros Hin. apply (H1 _ Hin). left.
Qed.

Lemma keep_verified a b : Z.land a keepflags = 0 -> Z.testbit (Z.lor a (Z.land b keepflags)) 1 = Z.testbit b 1.
Proof.
  intros Ha. assert (Hk : Z.testbit keepflags 1 = true) by done.
  apply (f_equal (fun z => Z.testbit z 1)) in Ha. rewrite Z.land_spec, Z.bits_0, Hk, andb_true_r in Ha.
  by rewrite Z.lor_spec, Z.land_spec, Hk, Ha, andb_true_r.
Qed.

Lemma keep_bad a b : Z.testbit (Z.lor a (Z.land b keepflags)) 3 = Z.testbit a 3.
Proof. rewrite Z.lor_spec, Z.land_spec. change (Z.testbit keepflags 3) with false. by rewrite andb_false_r, orb_false_r. Qed.

(** An entry of the new table: as it was loaded, with the state of the old entry. *)
Lemma merge_flags_spec pid V ids p s0 : process_ok pid V ids p -> s0 ∈ loaded p ->
  seg_key (merge_flags (segment_map p) s0) = seg_key s0 /\
  has bad_segment (merge_flags (segment_map p) s0) = has bad_segment s0 /\
  ((exists o, o ∈ segment_map p /\ ident o = ident s0 /\ idx (merge_flags (segment_map p) s0) = idx o /\
      has verified (merge_flags (segment_map p) s0) = has verified o) \/
   (forall o, o ∈ segment_map p -> ident o <> ident s0) /\ merge_flags (segment_map p) s0 = s0).
Proof.
  intros Hp H0. destruct (wf_seg _ (po_loaded _ _ _ _ Hp) s0 H0) as (_ & _ & _ & _ & Hk).
  destruct (decide (ident s0 ∈ ident <$> segment_map p)) as [(o & E & Ho)%list_elem_of_fmap|Hn].
  - rewrite (merge_flags_hit (segment_map p) o s0) by (done || apply Hp). split_and!.
    + done.
    + rewrite !has_bad. cbn [flags]. apply keep_bad.
    + left. exists o. split_and!; [done|done|done|]. rewrite !has_verified. cbn [flags]. by apply keep_verified.
  - rewrite merge_flags_miss by done. split_and!; [done..|]. right. split; [|done]. intros o Ho E. apply Hn. rewrite <- E.
    by apply list_elem_of_fmap_2.
Qed.

Lemma fmap_seg_key (m : list segment_info) (f : segment_info -> segment_info) : (forall s, s ∈ m -> seg_key (f s) = seg_key s) -> ident <$> (f <$> m) = ident <$> m.
Proof.
  intros H. rewrite <- list_fmap_compose. apply list_fmap_ext. intros i s Hs. cbn.
  assert (E : seg_key (f s) = seg_key s) by (apply H; by eapply list_elem_of_lookup_2). by injection E.
Qed.

(** Rebuilding keeps the invariant, and afterwards every loaded segment is in the table.
    Hashes with an index are in it before, so that no state is lost. *)
Lemma rebuild_ok pid V ids p : process_ok pid V ids p ->
  (forall id, V id -> exists s, s ∈ segment_map p /\ ident s = id) ->
  process_ok pid V ids (rebuild_segment_map p) /\
  forall s0, s0 ∈ loaded p -> exists s, s ∈ segment_map (rebuild_segment_map p) /\ seg_key s = seg_key s0.
Proof.
  intros Hp HV. unfold rebuild_segment_map. rewrite build_segment_map_id by apply (wf_ident _ (po_loaded _ _ _ _ Hp)).
  set (f := merge_flags (segment_map p)).
  assert (Hf : forall s0, s0 ∈ loaded p -> seg_key (f s0) = seg_key s0) by (intros s0 H0; apply (merge_flags_spec _ _ _ _ _ Hp H0)).
  assert (Hin : forall s0, s0 ∈ loaded p -> f s0 ∈ f <$> loaded p) by (intros; by apply list_elem_of_fmap_2).
  split; [|intros s0 H0; exists (f s0); auto].
  split; cbn [segment_map set_map loaded primary verified_segment_count indexed_segment_starts]; try apply Hp.
  - intros s (s0 & -> & H0)%list_elem_of_fmap. exists s0. split; [done|]. split; [by apply Hf|]. apply (merge_flags_spec _ _ _ _ _ Hp H0).
  - rewrite fmap_seg_key by done. apply (wf_ident _ (po_loaded _ _ _ _ Hp)).
  - intros s (s0 & -> & H0)%list_elem_of_fmap. injection (Hf s0 H0) as _ _ Ei. rewrite Ei.
    destruct (merge_flags_spec _ _ _ _ _ Hp H0) as (_ & _ & [(o & Ho & Eo & _ & Ev)|[Hn Ev]]).
    + unfold f. rewrite Ev, <- Eo. by apply (po_verified _ _ _ _ Hp).
    + unfold f. rewrite Ev. split.
      * intros Hv. exfalso. destruct (wf_seg _ (po_loaded _ _ _ _ Hp) s0 H0) as (_ & _ & _ & _ & Hk). rewrite has_verified in Hv.
        apply (f_equal (fun z => Z.testbit z 1)) in Hk. rewrite Z.land_spec, Z.bits_0, Hv in Hk. done.
      * intros (o & Ho & Eo)%HV. by destruct (Hn o Ho).
  - intros s (s0 & -> & H0)%list_elem_of_fmap. injection (Hf s0 H0) as _ _ Ei. rewrite Ei.
    destruct (merge_flags_spec _ _ _ _ _ Hp H0) as (_ & _ & [(o & Ho & Eo & Ex & _)|[Hn Ev]]).
    + unfold f. rewrite Ex, <- Eo. by apply (po_idx _ _ _ _ Hp).
    + unfold f. rewrite Ev. left. split; [apply (wf_seg _ (po_loaded _ _ _ _ Hp) s0 H0)|].
      intros [i Hi]%list_elem_of_lookup. destruct (po_ids _ _ _ _ Hp i _ Hi) as (o & Ho & Eo & _). by destruct (Hn o Ho).
  - intros i id Hi. destruct (po_ids _ _ _ _ Hp i id Hi) as (s & Hs & Es & Est).
    destruct (po_known _ _ _ _ Hp s Hs) as (s0 & H0 & Ek & _). exists (f s0). split; [by apply Hin|].
    pose proof (Hf s0 H0) as E. rewrite <- Ek in E. injection E as E1 E2 E3. split; congruence.
Qed.

(** * Caches *)

Lemma sort_by_perm {A} (key : A -> Z) l : sort_by key l ≡ₚ l.
Proof. apply merge_sort_Permutation. Qed.

#[export] Instance key_le_total {A} (key : A -> Z) : Total (key_le key).
Proof. intros x y. unfold key_le. lia. Qed.
#[export] Instance key_le_trans {A} (key : A -> Z) : Transitive (key_le key).
Proof. intros x y z. unfold key_le. lia. Qed.

Lemma sort_by_sorted {A} (key : A -> Z) l : StronglySorted (key_le key) (sort_by key l).
Proof. apply StronglySorted_merge_sort; apply _. Qed.

Lemma sort_by_length {A} (key : A -> Z) l : length (sort_by key l) = length l.
Proof. by rewrite sort_by_perm. Qed.

Lemma sort_by_elem {A} (key : A -> Z) l x : x ∈ sort_by key l <-> x ∈ l.
Proof. by rewrite sort_by_perm. Qed.

Lemma elem_of_insert_inv {A} (l : list A) i x y : y ∈ <[i := x]> l -> y = x \/ y ∈ l.
Proof.
  intros [j Hj]%list_elem_of_lookup. apply list_lookup_insert_Some in Hj as [(_ & <- & _)|[_ Hj]]; [by left|].
  right. by eapply list_elem_of_lookup_2.
Qed.

Lemma insert_swap_perm {A} (l : list A) i a x : l !! i = Some a -> a :: <[i := x]> l ≡ₚ x :: l.
Proof.
  intros Hi. assert (i < length l)%nat by (by eapply lookup_lt_Some). rewrite insert_take_drop by done.
  rewrite <- (take_drop_middle l i a Hi) at 3. rewrite <- !Permutation_middle. constructor.
Qed.

Lemma sorted_lookup {A} (R : relation A) l i j x y : StronglySorted R l -> l !! i = Some x -> l !! j = Some y -> (i < j)%nat -> R x y.
Proof.
  intros Hs. revert i j. induction Hs as [|z l _ IH Hz]; intros i j; [done|]. destruct j as [|j]; [lia|]. destruct i as [|i]; cbn.
  - intros [= ->] Hy _. rewrite Forall_forall in Hz. apply Hz. by eapply list_elem_of_lookup_2.
  - intros Hx Hy Hij. apply (IH i j); [done|done|lia].
Qed.

(** [upper_bound] is the first element whose end is not before the address. *)
Lemma upper_bound_spec {A} (end_of : A -> Z) a l x : l !! upper_bound end_of a l = Some x ->
  a <= end_of x /\ forall j y, (j < upper_bound end_of a l)%nat -> l !! j = Some y -> end_of y < a.
Proof.
  induction l as [|y l IH]; cbn; [done|]. destruct (Z.leb_spec a (end_of y)); cbn.
  - intros [= ->]. split; [done|lia].
  - intros (H1 & H2)%IH. split; [done|]. intros [|j] z Hj Hz; cbn in Hz; [by simplify_eq|]. apply (H2 j); [lia|done].
Qed.

Lemma upper_bound_some {A} (end_of : A -> Z) a l x : x ∈ l -> a <= end_of x -> is_Some (l !! upper_bound end_of a l).
Proof.
  induction l as [|y l IH]; [by intros ?%elem_of_nil|]. intros Hx Ha. cbn. destruct (Z.leb_spec a (end_of y)); [by eexists|].
  cbn. apply IH; [|done]. apply elem_of_cons in Hx as [->|]; [lia|done].
Qed.

Lemma search_spec {A} (start_of end_of : A -> Z) l a x : search start_of end_of l a = Some x ->
  x ∈ l /\ start_of x <= a <= end_of x.
Proof.
  unfold search. destruct (l !! _) as [y|] eqn:E; [|done]. destruct (Z.leb_spec (start_of y) a); [|done]. intros [= ->].
  apply upper_bound_spec in E as E'. split; [by eapply list_elem_of_lookup_2|]. destruct E' as [? _]. lia.
Qed.

Definition ptr_of (s : segment_info) : segment_lookup_ptr := mk_ptr (start s) (end_ s) (ident s).
Definition tkn_of (e : segment_lookup_ptr) : segment_lookup_tkn := mk_tkn (p_ident e) (p_start e).

(** What the caches of a thread hold, when [l] are the loaded segments. *)
Record cache_ok (ids : list Z) (l : list segment_info) (c : segmap_cache) : Prop := {
  co_ptr : forall e, e ∈ cache_ptr c -> exists s, s ∈ l /\ e = ptr_of s;
  co_tkn : cache_tkn c ≡ₚ tkn_of <$> cache_ptr c;
  co_sorted : StronglySorted (key_le p_start) (cache_ptr c);
  co_tkn_sorted : StronglySorted (key_le t_ident) (cache_tkn c);
  co_size : (length (cache_ptr c) <= max_cache_size)%nat;
  co_evict : (cache_evict_index c < max_cache_size)%nat;
  co_idx : forall e, e ∈ cache_idx c -> exists s, s ∈ l /\ i_start e = start s /\ i_end e = end_ s /\
    0 < i_idx e /\ ids !! Z.to_nat (i_idx e - 1) = Some (ident s);
  co_idx_sorted : StronglySorted (key_le i_start) (cache_idx c);
  co_idx_size : (length (cache_idx c) <= max_cache_size)%nat;
  co_idx_evict : (idx_cache_evict_index c < max_cache_size)%nat
}.

Lemma cache_ok_mono ids ids' l l' c : cache_ok ids l c -> ids `prefix_of` ids' -> (forall s, s ∈ l -> s ∈ l') -> cache_ok ids' l' c.
Proof.
  intros Hc Hi Hl. split; try apply Hc.
  - intros e (s & Hs & ->)%(co_ptr _ _ _ Hc). eauto.
  - intros e (s & Hs & H1 & H2 & H3 & H4)%(co_idx _ _ _ Hc). exists s. split_and!; auto. by eapply prefix_lookup_Some.
Qed.

Lemma empty_cache_ok ids l : cache_ok ids l empty_cache.
Proof. split; cbn; try (by intros ? ?%elem_of_nil) || (by constructor) || done || (unfold max_cache_size; lia). Qed.

Lemma cache_flush_ok ids l c e : cache_ok ids l c ->
  cache_ok ids l (mk_cache [] [] (cache_idx c) e (cache_evict_index c) (idx_cache_evict_index c)).
Proof. intros Hc. split; cbn; try apply Hc; try (by intros ? ?%elem_of_nil) || (by constructor) || lia. Qed.

Lemma mod_cache n : ((n + 1) mod max_cache_size < max_cache_size)%nat.
Proof. apply Nat.mod_upper_bound. done. Qed.

Lemma activate_idx_ok ids l c s s0 : cache_ok ids l c -> s0 ∈ l -> seg_key s = seg_key s0 -> 0 < idx s ->
  ids !! Z.to_nat (idx s - 1) = Some (ident s) -> exists c', activate_idx s c = Ok c' /\ cache_ok ids l c' /\
    cache_epoch c' = cache_epoch c /\ cache_ptr c' = cache_ptr c.
Proof.
  intros Hc H0 Ek Hi Hids. injection Ek as E1 E2 E3. unfold activate_idx. set (e := mk_idx _ _ _).
  assert (He : exists s, s ∈ l /\ i_start e = start s /\ i_end e = end_ s /\ 0 < i_idx e /\
    ids !! Z.to_nat (i_idx e - 1) = Some (ident s)) by (exists s0; cbn; rewrite <- E3; auto).
  destruct (Nat.ltb_spec (length (cache_idx c)) max_cache_size).
  - eexists. split; [done|]. split; [|done]. split; cbn; try apply Hc.
    + intros e'. rewrite sort_by_elem, elem_of_app, list_elem_of_singleton. intros [Hin| ->]; [by apply (co_idx _ _ _ Hc)|done].
    + apply sort_by_sorted.
    + rewrite sort_by_length, length_app. cbn. lia.
  - rewrite (proj2 (Nat.ltb_lt _ _) (co_idx_evict _ _ _ Hc)). mcbn. eexists. split; [done|]. split; [|done]. split; cbn; try apply Hc.
    + intros e'. rewrite sort_by_elem. intros [->|Hin]%elem_of_insert_inv; [done|by apply (co_idx _ _ _ Hc)].
    + apply sort_by_sorted.
    + rewrite sort_by_length, length_insert. apply Hc.
    + apply mod_cache.
Qed.

(** The entry that is evicted from both caches is the same. *)
Lemma evict_entry ids l c old : cache_ok ids l c -> wf_loaded l -> cache_tkn c !! cache_evict_index c = Some old ->
  exists x, cache_ptr c !! upper_bound p_end (t_start old) (cache_ptr c) = Some x /\ tkn_of x = old.
Proof.
  intros Hc Hl Hold. assert (Hin : old ∈ tkn_of <$> cache_ptr c) by (rewrite <- (co_tkn _ _ _ Hc); by eapply list_elem_of_lookup_2).
  apply list_elem_of_fmap in Hin as (y & -> & Hy). destruct (co_ptr _ _ _ Hc y Hy) as (s & Hs & ->).
  destruct (wf_seg _ Hl s Hs) as (_ & Hlt & _). cbn [t_start tkn_of p_start ptr_of].
  destruct (upper_bound_some p_end (start s) (cache_ptr c) _ Hy) as [x Hx]; [cbn; lia|]. exists x. split; [done|].
  destruct (upper_bound_spec _ _ _ _ Hx) as [Hle Hbefore].
  destruct (co_ptr _ _ _ Hc x) as (s' & Hs' & ->); [by eapply list_elem_of_lookup_2|]. cbn in Hle.
  assert (start s' <= start s) as Hst.
  { apply list_elem_of_lookup in Hy as [j Hj].
    assert (upper_bound p_end (start s) (cache_ptr c) <= j)%nat as Hge.
    { apply Nat.nlt_ge. intros Hj'. specialize (Hbefore j _ Hj' Hj). cbn in Hbefore. lia. }
    destruct (decide (upper_bound p_end (start s) (cache_ptr c) = j)) as [E|Hne].
    - rewrite E, Hj in Hx. injection Hx as E1 _ _. lia.
    - assert (R : key_le p_start (ptr_of s') (ptr_of s)); [|exact R].
      eapply (sorted_lookup _ _ _ _ _ _ (co_sorted _ _ _ Hc)); [exact Hx|exact Hj|lia]. }
  by rewrite (loaded_address l s' s (start s) Hl Hs' Hs) by lia.
Qed.

Lemma activate_hash_ok ids l c s s0 : cache_ok ids l c -> wf_loaded l -> s0 ∈ l -> seg_key s = seg_key s0 ->
  exists c', activate_hash s c = Ok c' /\ cache_ok ids l c' /\ cache_epoch c' = cache_epoch c /\
    forall e, e ∈ cache_ptr c' -> e = ptr_of s0 \/ e ∈ cache_ptr c.
Proof.
  intros Hc Hl H0 Ek. injection Ek as E1 E2 E3. unfold activate_hash.
  assert (He : mk_ptr (start s) (end_ s) (ident s) = ptr_of s0) by (unfold ptr_of; congruence).
  assert (Hk : mk_tkn (ident s) (start s) = tkn_of (ptr_of s0)) by (unfold tkn_of; cbn; congruence). rewrite He, Hk.
  destruct (Nat.ltb_spec (length (cache_ptr c)) max_cache_size).
  - eexists. split; [done|]. split; [|split; [done|cbn; intros e; rewrite sort_by_elem, elem_of_app, list_elem_of_singleton; naive_solver]].
    split; cbn; try apply Hc; try apply sort_by_sorted.
    + intros e'. rewrite sort_by_elem, elem_of_app, list_elem_of_singleton. intros [Hin| ->]; [by apply (co_ptr _ _ _ Hc)|by exists s0].
    + by rewrite !sort_by_perm, (co_tkn _ _ _ Hc), fmap_app.
    + rewrite sort_by_length, length_app. cbn. lia.
  - rewrite (proj2 (Nat.ltb_lt _ _) (co_evict _ _ _ Hc)). mcbn.
    assert (Hlen : length (cache_tkn c) = length (cache_ptr c)) by (by rewrite (co_tkn _ _ _ Hc), length_fmap).
    destruct (lookup_lt_is_Some_2 (cache_tkn c) (cache_evict_index c)) as [old Hold]; [pose proof (co_evict _ _ _ Hc); lia|].
    rewrite Hold. mcbn. destruct (evict_entry ids l c old Hc Hl Hold) as (x & Hx & Ex). rewrite Hx. mcbn.
    assert (p_start x =? t_start old = true) as -> by (rewrite <- Ex; apply Z.eqb_refl). mcbn.
    set (it := upper_bound _ _ _) in *. eexists. split; [done|].
    split; [|split; [done|cbn; intros e; rewrite sort_by_elem; by intros ?%elem_of_insert_inv]].
    split; cbn; try apply Hc; try apply sort_by_sorted.
    + intros e'. rewrite sort_by_elem. intros [->|Hin]%elem_of_insert_inv; [by exists s0|by apply (co_ptr _ _ _ Hc)].
    + rewrite !sort_by_perm. rewrite list_fmap_insert. apply (Permutation_cons_inv (a := old)).
      etrans; [apply (insert_swap_perm _ _ _ _ Hold)|]. symmetry.
      etrans; [apply (insert_swap_perm (tkn_of <$> cache_ptr c) it old); by rewrite list_lookup_fmap, Hx, <- Ex|].
      by rewrite (co_tkn _ _ _ Hc).
    + rewrite sort_by_length, length_insert. apply Hc.
    + apply mod_cache.
Qed.

(** * Lookups through the caches *)

(** A cache that is up to date holds no segment with an index among the others. *)
Definition fresh (ids : list Z) (ep : Z) (c : segmap_cache) : Prop :=
  cache_epoch c <= ep /\ (cache_epoch c = ep -> forall e, e ∈ cache_ptr c -> p_ident e ∉ ids).

(** Between calls the verified segments are those with an index. *)
Record local_ok (pid : Z) (ids : list Z) (st : local) : Prop := {
  lo_process : process_ok pid (fun id => id ∈ ids) ids st.1;
  lo_cache : cache_ok ids (loaded st.1) st.2;
  lo_fresh : fresh ids (epoch st.1) st.2
}.

(** Lookups change the table and the caches, and nothing else. *)
Definition same_process (p p' : process) : Prop := exists m, p' = set_map m p.

Lemma same_process_loaded p p' : same_process p p' -> loaded p' = loaded p.
Proof. by intros [m ->]. Qed.
Lemma same_process_refl p : same_process p p.
Proof. exists (segment_map p). by destruct p. Qed.
Lemma same_process_trans p1 p2 p3 : same_process p1 p2 -> same_process p2 p3 -> same_process p1 p3.
Proof. intros [m ->] [m' ->]. by exists m'. Qed.

(** The index of a segment, as the table gives it. *)
Definition index_of (ids : list Z) (id i : Z) : Prop := i = 0 /\ id ∉ ids \/ 0 < i /\ ids !! Z.to_nat (i - 1) = Some id.

Lemma index_of_in ids id i : index_of ids id i -> 0 < i <-> id ∈ ids.
Proof.
  intros [[-> Hn]|[Hi Hl]]; [split; [lia|done]|]. split; [|done]. intros _. by eapply list_elem_of_lookup_2.
Qed.

Definition inside (a : Z) (s : segment_info) : Prop := start s < a /\ a < end_ s.

Section lookup.
Context (pid : Z) (ids : list Z).

Lemma activate_segment_ok st i s : local_ok pid ids st -> segment_map st.1 !! i = Some s ->
  exists st', activate i st = Ok st' /\ local_ok pid ids st' /\ same_process st.1 st'.1.
Proof.
  destruct st as [p c]. cbn [fst]. intros [Hp Hc Hf] Hi. unfold activate. cbn [fst snd] in *. rewrite Hi. mcbn.
  assert (Hs : s ∈ segment_map p) by (by eapply list_elem_of_lookup_2).
  destruct (po_known _ _ _ _ Hp s Hs) as (s0 & H0 & Ek & _).
  assert (exists c', (if 0 <? idx s then activate_idx s c else activate_hash s c) = Ok c' /\ cache_ok ids (loaded p) c' /\
    fresh ids (epoch p) c') as (c' & -> & Hc' & Hf').
  { destruct (Z.ltb_spec 0 (idx s)).
    - destruct (activate_idx_ok ids (loaded p) c s s0) as (c' & E & Hc' & E1 & E2); try done.
      { destruct (po_idx _ _ _ _ Hp s Hs) as [[? _]|[_ ?]]; [lia|done]. }
      exists c'. unfold fresh. by rewrite E1, E2.
    - destruct (activate_hash_ok ids (loaded p) c s s0) as (c' & E & Hc' & E1 & E2); try done; [apply Hp|].
      exists c'. split_and!; [done|done|]. unfold fresh. rewrite E1. split; [apply Hf|]. intros Ee e [->|He]%E2; [|by apply Hf].
      cbn. injection Ek as _ _ <-. intros Hin%(map_indexed Hp s Hs). lia. }
  mcbn. eexists. split; [done|]. split; [|by eexists]. split; [|done|done]. cbn [fst].
  eapply process_ok_entry; [exact Hp|exact Hi|apply touch_same|done|]. rewrite touch_has. by apply (po_verified _ _ _ _ Hp).
Qed.

Lemma try_inactive_ok st s0 a : local_ok pid ids st -> s0 ∈ loaded st.1 -> inside a s0 -> has bad_segment s0 = false ->
  (forall s, s ∈ segment_map st.1 -> seg_key s <> seg_key s0) /\ try_inactive a st = Ok (None, st) \/
  exists s st', try_inactive a st = Ok (Some s, st') /\ local_ok pid ids st' /\ same_process st.1 st'.1 /\
    seg_key s = seg_key s0 /\ index_of ids (ident s0) (idx s).
Proof.
  intros Hst H0 [Ha1 Ha2] Hb. pose proof (lo_process _ _ _ Hst) as Hp. unfold try_inactive.
  destruct (list_find _ (segment_map st.1)) as [[i s]|] eqn:E.
  - right. apply list_find_Some in E as (Hi & [H1 H2] & _).
    assert (Hs : s ∈ segment_map st.1) by (by eapply list_elem_of_lookup_2).
    destruct (map_known Hp s s0 a Hs H0) as [Ek Ebad]; [lia..|]. rewrite Ebad, Hb. mcbn.
    destruct (activate_segment_ok st i s Hst Hi) as (st' & -> & Hst' & Hsame). mcbn. exists s, st'. split_and!; try done.
    injection Ek as _ _ <-. by apply (po_idx _ _ _ _ Hp).
  - left. split; [|done]. intros s Hs Ek. rewrite list_find_None, Forall_forall in E. apply (E s Hs).
    injection Ek as E1 E2 E3. lia.
Qed.

Lemma rebuild_local_ok st : local_ok pid ids st -> local_ok pid ids (rebuild_segment_map st.1, st.2) /\
  same_process st.1 (rebuild_segment_map st.1) /\
  forall s0, s0 ∈ loaded st.1 -> exists s, s ∈ segment_map (rebuild_segment_map st.1) /\ seg_key s = seg_key s0.
Proof.
  intros [Hp Hc Hf]. destruct (rebuild_ok _ _ _ _ Hp) as [Hp' Hin].
  { intros id [i Hi]%list_elem_of_lookup. destruct (po_ids _ _ _ _ Hp i id Hi) as (s & ? & ? & _). eauto. }
  split; [by split|]. split; [by eexists|done].
Qed.

(** Searching the table finds every loaded segment, at the latest after rebuilding. *)
Lemma search_map_ok st s0 a : local_ok pid ids st -> s0 ∈ loaded st.1 -> inside a s0 -> has bad_segment s0 = false ->
  exists i st', search_map a st = Ok ((start s0, end_ s0, ident s0, i), st') /\ local_ok pid ids st' /\
    same_process st.1 st'.1 /\ index_of ids (ident s0) i.
Proof.
  intros Hst H0 Ha Hb. unfold search_map.
  destruct (try_inactive_ok st s0 a Hst H0 Ha Hb) as [[_ ->]|(s & st' & -> & Hst' & Hs & Ek & Hi)]; mcbn.
  2: { injection Ek as -> -> ->. by exists (idx s), st'. }
  destruct (rebuild_local_ok st Hst) as (Hst1 & Hs1 & Hin).
  destruct (try_inactive_ok (rebuild_segment_map st.1, st.2) s0 a Hst1) as [[Hno _]|(s & st' & -> & Hst' & Hs & Ek & Hi)]; try done.
  - destruct (Hin s0 H0) as (s & Hs & Ek). by destruct (Hno s Hs).
  - mcbn. injection Ek as -> -> ->. by exists (idx s), st'.
Qed.

(** An address that is in no segment is not found, and nothing is cached. *)
Lemma search_map_none st a : local_ok pid ids st -> (forall s, s ∈ loaded st.1 -> ~ inside a s) ->
  search_map a st = Ok ((0, 0, 0, 0), (rebuild_segment_map st.1, st.2)).
Proof.
  intros Hst Ha. assert (Hno : forall st1, local_ok pid ids st1 -> loaded st1.1 = loaded st.1 -> try_inactive a st1 = Ok (None, st1)).
  { intros st1 Hst1 El. unfold try_inactive. destruct (list_find _ _) as [[i s]|] eqn:E; [|done]. exfalso.
    apply list_find_Some in E as (Hi & [H1 H2] & _).
    destruct (po_known _ _ _ _ (lo_process _ _ _ Hst1) s) as (s0 & H0 & Ek & _); [by eapply list_elem_of_lookup_2|].
    injection Ek as E1 E2 _. rewrite El in H0. apply (Ha s0 H0). split; lia. }
  unfold search_map. rewrite Hno by done. mcbn. rewrite Hno by (done || apply (rebuild_local_ok st Hst)). done.
Qed.

(** * Tokens *)

(** The function at [off] in the segment with hash [id]. *)
Definition denotes (t : function_token) (id off : Z) : Prop :=
  match t with
  | Single o => o = off /\ id = pid
  | Multi o h => o = off /\ h = id
  | MultiIdx o i => o = off /\ 0 < i /\ ids !! Z.to_nat (i - 1) = Some id
  end.

Lemma primary_ok st s0 a : local_ok pid ids st -> s0 ∈ loaded st.1 -> inside a s0 ->
  in_primary a st.1 = true -> start (primary st.1) = start s0 /\ pid = ident s0.
Proof.
  intros [Hp _ _] H0 [Ha1 Ha2] [H1%Z.leb_le H2%Z.ltb_lt]%andb_prop. destruct (po_primary _ _ _ _ Hp) as (s1 & Hs1 & Ek).
  rewrite <- (po_pid _ _ _ _ Hp). injection Ek as E1 E2 E3. rewrite E1, E3. assert (s1 = s0) as ->; [|done].
  apply (loaded_address (loaded st.1) s1 s0 a); [apply Hp|done|done| |]; unfold inside in *; lia.
Qed.

Lemma idx_hit st s0 a e : local_ok pid ids st -> s0 ∈ loaded st.1 -> inside a s0 ->
  search_idx_cache a st.2 = Some e -> denotes (MultiIdx (a - i_start e) (i_idx e)) (ident s0) (a - start s0).
Proof.
  intros [Hp Hc _] H0 [Ha1 Ha2] (Hin & Hle)%search_spec. destruct (co_idx _ _ _ Hc e Hin) as (s & Hs & E1 & E2 & Hi & Hids).
  assert (s = s0) as -> by (apply (loaded_address (loaded st.1) s s0 a); [apply Hp|done..|lia|lia]).
  cbn. split_and!; [lia|done|done].
Qed.

Lemma search_cache_ok a st hit st' : local_ok pid ids st -> search_cache a st = (hit, st') ->
  local_ok pid ids st' /\ st'.1 = st.1 /\
  forall e s0, hit = Some e -> s0 ∈ loaded st.1 -> inside a s0 -> e = ptr_of s0 /\ ident s0 ∉ ids.
Proof.
  destruct st as [p c]. intros [Hp Hc Hf]. cbn in Hp, Hc. unfold search_cache. destruct (Z.eqb_spec (epoch p) (cache_epoch c)) as [Ee|].
  - intros [= <- <-]. split; [done|]. split; [done|]. intros e s0 (Hin & Hle)%search_spec H0 [Ha1 Ha2].
    destruct (co_ptr _ _ _ Hc e Hin) as (s & Hs & ->). cbn in *.
    assert (s = s0) as -> by (apply (loaded_address (loaded p) s s0 a); [apply Hp|done..|lia|lia]).
    split; [done|]. by apply (proj2 Hf (eq_sym Ee) (ptr_of s0)).
  - intros [= <- <-]. split; [|by split]. split; [done|by apply cache_flush_ok|]. split; [cbn; lia|].
    intros _ e. by intros ?%elem_of_nil.
Qed.

(** The token of the address [a] of segment [s], or the exception, without caches. *)
Definition token_of (p : process) (s : segment_info) (a : Z) : option function_token :=
  if in_primary a p then Some (Single (a - start s))
  else match list_find (fun id => id = ident s) ids with
       | Some (i, _) => Some (MultiIdx (a - start s) (Z.of_nat i + 1))
       | None => if enforce_verification p then None else Some (Multi (a - start s) (ident s))
       end.

Lemma find_index st s i : local_ok pid ids st -> 0 < i -> ids !! Z.to_nat (i - 1) = Some (ident s) ->
  list_find (fun id => id = ident s) ids = Some (Z.to_nat (i - 1), ident s).
Proof.
  intros [Hp _ _] Hi Hl. apply list_find_Some. split; [done|]. split; [done|]. intros j y Hj Hlt ->.
  pose proof (NoDup_lookup _ _ _ _ (po_nodup _ _ _ _ Hp) Hj Hl). lia.
Qed.

Lemma find_no_index id : id ∉ ids -> list_find (fun id' => id' = id) ids = None.
Proof. intros Hn. apply list_find_None, Forall_forall. by intros x Hx ->. Qed.

Lemma token_of_idx st s a i : local_ok pid ids st -> in_primary a st.1 = false -> 0 < i -> ids !! Z.to_nat (i - 1) = Some (ident s) ->
  token_of st.1 s a = Some (MultiIdx (a - start s) i).
Proof.
  intros Hst Epr Hi Hl. unfold token_of. rewrite Epr, (find_index st s i Hst Hi Hl). by replace (Z.of_nat _ + 1) with i by lia.
Qed.

Lemma token_of_hash p s a : in_primary a p = false -> ident s ∉ ids ->
  token_of p s a = if enforce_verification p then None else Some (Multi (a - start s) (ident s)).
Proof. intros Epr Hn. unfold token_of. by rewrite Epr, find_no_index. Qed.

(** What a token stands for. *)
Lemma token_of_denotes st s0 a t : local_ok pid ids st -> s0 ∈ loaded st.1 -> inside a s0 ->
  token_of st.1 s0 a = Some t -> denotes t (ident s0) (a - start s0).
Proof.
  intros Hst H0 Ha. unfold token_of. destruct (in_primary a st.1) eqn:Epr.
  { intros [= <-]. by destruct (primary_ok st s0 a Hst H0 Ha Epr). }
  destruct (list_find _ ids) as [[i id]|] eqn:E; [|by destruct (enforce_verification _); intros [= <-]].
  apply list_find_Some in E as (Hi & -> & _). intros [= <-]. cbn. split_and!; [done|lia|]. by replace (Z.to_nat _) with i by lia.
Qed.

(** The caches make no difference. *)
Lemma tokenize_ok st s0 a : local_ok pid ids st -> s0 ∈ loaded st.1 -> inside a s0 -> has bad_segment s0 = false ->
  exists st', tokenize a st = Ok (token_of st.1 s0 a, st') /\ local_ok pid ids st' /\ same_process st.1 st'.1.
Proof.
  intros Hst H0 Ha Hb. unfold tokenize. destruct (in_primary a st.1) eqn:Epr.
  { unfold tokenize_ss, token_of. rewrite Epr. mcbn. destruct (primary_ok st s0 a Hst H0 Ha Epr) as [-> _].
    eexists. split_and!; [done|done|apply same_process_refl]. }
  destruct (search_idx_cache a st.2) as [e|] eqn:Eidx.
  { destruct (idx_hit st s0 a e Hst H0 Ha Eidx) as (Eo & Hi & Hl). rewrite (token_of_idx st s0 a _ Hst Epr Hi Hl), Eo.
    eexists. split_and!; [done|done|apply same_process_refl]. }
  destruct (if negb (enforce_verification st.1) then search_cache a st else (None, st)) as [hit st1] eqn:Ehit.
  assert (local_ok pid ids st1 /\ st1.1 = st.1 /\
    (forall e, hit = Some e -> (e = ptr_of s0 /\ ident s0 ∉ ids) /\ enforce_verification st.1 = false)) as (Hst1 & E1 & Hhit).
  { destruct (enforce_verification st.1) eqn:Een; cbn in Ehit; [by injection Ehit as <- <-|].
    destruct (search_cache_ok a st hit st1 Hst Ehit) as (? & ? & Hh). split_and!; [done|done|]. intros e He. split; [by eapply Hh|done]. }
  destruct hit as [e|].
  { destruct (Hhit e eq_refl) as [[-> Hn] Een]. rewrite (token_of_hash st.1 s0 a Epr Hn), Een.
    eexists. split_and!; [done|done|rewrite E1; apply same_process_refl]. }
  rewrite <- E1 in H0. destruct (search_map_ok st1 s0 a Hst1 H0 Ha Hb) as (i & st2 & -> & Hst2 & Hs2 & Hi). mcbn. rewrite E1 in *.
  destruct (wf_seg _ (po_loaded _ _ _ _ (lo_process _ _ _ Hst)) s0 H0) as (H1 & H2 & _).
  rewrite (proj2 (Z.eqb_neq (end_ s0) 0)) by lia. cbn [negb].
  assert (Een : enforce_verification st2.1 = enforce_verification st.1) by (by destruct Hs2 as [m ->]). rewrite Een.
  destruct Hi as [[-> Hn]|[Hpos Hl]].
  - rewrite (token_of_hash st.1 s0 a Epr Hn). cbn [Z.ltb Z.compare]. destruct (enforce_verification st.1); cbn [negb]; by eexists.
  - rewrite (token_of_idx st s0 a i Hst Epr Hpos Hl), (proj2 (Z.ltb_lt 0 i)) by done. by eexists.
Qed.

(** Whatever the address, a call leaves a good state. *)
Lemma try_inactive_keeps st a r st' : local_ok pid ids st -> try_inactive a st = Ok (r, st') ->
  local_ok pid ids st' /\ same_process st.1 st'.1.
Proof.
  intros Hst. unfold try_inactive. destruct (list_find _ _) as [[i s]|] eqn:E.
  - apply list_find_Some in E as (Hi & _). destruct (activate_segment_ok st i s Hst Hi) as (st1 & E1 & ? & ?).
    rewrite E1. destruct (negb _); mcbn; [|done]. by intros [= _ <-].
  - intros [= _ <-]. split; [done|apply same_process_refl].
Qed.

Lemma search_map_keeps st a r st' : local_ok pid ids st -> search_map a st = Ok (r, st') ->
  local_ok pid ids st' /\ same_process st.1 st'.1.
Proof.
  intros Hst. unfold search_map. destruct (try_inactive a st) as [[it st1]| | |] eqn:E1; mcbn; try done.
  destruct (try_inactive_keeps _ _ _ _ Hst E1) as [Hst1 Hs1]. destruct it as [s|]; [by intros [= _ <-]|].
  destruct (rebuild_local_ok st1 Hst1) as (Hst2 & Hs2 & _).
  destruct (try_inactive a (rebuild_segment_map st1.1, st1.2)) as [[it st3]| | |] eqn:E3; mcbn; try done.
  destruct (try_inactive_keeps _ _ _ _ Hst2 E3) as [Hst3 Hs3].
  assert (Hall : same_process st.1 st3.1) by (apply (same_process_trans _ _ _ Hs1); by apply (same_process_trans _ _ _ Hs2)).
  destruct it; by intros [= _ <-].
Qed.

Lemma tokenize_keeps st a o st' : local_ok pid ids st -> tokenize a st = Ok (o, st') ->
  local_ok pid ids st' /\ same_process st.1 st'.1.
Proof.
  intros Hst. unfold tokenize. destruct (in_primary a st.1) eqn:Epr.
  { unfold tokenize_ss. rewrite Epr. mcbn. intros [= _ <-]. split; [done|apply same_process_refl]. }
  destruct (search_idx_cache a st.2) as [e|]; [intros [= _ <-]; split; [done|apply same_process_refl]|].
  destruct (if negb (enforce_verification st.1) then search_cache a st else (None, st)) as [hit st1] eqn:Ehit.
  assert (local_ok pid ids st1 /\ st1.1 = st.1) as (Hst1 & E1).
  { destruct (negb _); [|by injection Ehit as <- <-]. by destruct (search_cache_ok a st hit st1 Hst Ehit) as (? & ? & _). }
  destruct hit as [e|]; [intros [= _ <-]; rewrite E1; split; [done|apply same_process_refl]|].
  destruct (search_map a st1) as [[[[[s e] h] i] st2]| | |] eqn:E2; mcbn; try done.
  destruct (search_map_keeps _ _ _ _ Hst1 E2) as [Hst2 Hs2]. rewrite E1 in Hs2.
  destruct (negb (e =? 0)); [|done]. destruct (0 <? i); [by intros [= _ <-]|]. destruct (enforce_verification st2.1); by intros [= _ <-].
Qed.

Lemma detokenize_keeps st t v st' : local_ok pid ids st -> detokenize t st = Ok (v, st') ->
  local_ok pid ids st' /\ same_process st.1 st'.1.
Proof.
  intros Hst. destruct t as [o|o id|o i]; cbn [detokenize].
  - intros [= _ <-]. split; [done|apply same_process_refl].
  - unfold detokenize_ms. destruct (search_tkn id st.2); [intros [= _ <-]; split; [done|apply same_process_refl]|].
    unfold search_map_ident. destruct (find_ident id st) as [[i s]|] eqn:E.
    + apply list_find_Some in E as (Hi & _). destruct (activate_segment_ok st i s Hst Hi) as (st1 & -> & ? & ?). mcbn. by intros [= _ <-].
    + destruct (rebuild_local_ok st Hst) as (Hst1 & Hs1 & _). clear E.
      destruct (find_ident id (rebuild_segment_map st.1, st.2)) as [[i s]|] eqn:E; [|done].
      apply list_find_Some in E as (Hi & _). destruct (activate_segment_ok _ i s Hst1 Hi) as (st2 & -> & ? & Hs2). mcbn. intros [= _ <-].
      split; [done|]. by apply (same_process_trans _ _ _ Hs1).
  - destruct (lookup_at_idx i st.1); mcbn; try done. intros [= _ <-]. split; [done|apply same_process_refl].
Qed.

(** Outside of all segments, ends included, there is no token. *)
Lemma tokenize_none st a : local_ok pid ids st -> (forall s, s ∈ loaded st.1 -> ~ start s <= a <= end_ s) -> tokenize a st = Aborted.
Proof.
  intros Hst Ha. pose proof Hst as [Hp Hc _]. unfold tokenize. destruct (in_primary a st.1) eqn:Epr.
  { exfalso. apply andb_prop in Epr as [H1%Z.leb_le H2%Z.ltb_lt]. destruct (po_primary _ _ _ _ Hp) as (s & Hs & Ek).
    injection Ek as E1 E2 _. apply (Ha s Hs). lia. }
  destruct (search_idx_cache a st.2) as [e|] eqn:Eidx.
  { exfalso. apply search_spec in Eidx as (Hin & Hle). destruct (co_idx _ _ _ Hc e Hin) as (s & Hs & E1 & E2 & _). apply (Ha s Hs). lia. }
  destruct (if negb (enforce_verification st.1) then search_cache a st else (None, st)) as [hit st1] eqn:Ehit.
  assert (local_ok pid ids st1 /\ st1.1 = st.1 /\ hit = None) as (Hst1 & E1 & ->).
  { destruct (enforce_verification st.1) eqn:Een; cbn in Ehit; [by injection Ehit as <- <-|].
    destruct (search_cache_ok a st hit st1 Hst Ehit) as (? & ? & _). split_and!; [done|done|]. destruct hit as [e|]; [|done]. exfalso.
    destruct st as [p c]. unfold search_cache in Ehit. destruct (epoch p =? cache_epoch c); [|done].
    injection Ehit as Eh _. apply search_spec in Eh as (Hin & Hle). destruct (co_ptr _ _ _ Hc e Hin) as (s & Hs & ->). by apply (Ha s Hs). }
  rewrite (search_map_none st1 a); [done|done|]. rewrite E1. intros s Hs [? ?]. apply (Ha s Hs). lia.
Qed.

Lemma find_ident_ok st s0 : local_ok pid ids st -> s0 ∈ loaded st.1 ->
  (forall s, s ∈ segment_map st.1 -> seg_key s <> seg_key s0) /\ find_ident (ident s0) st = None \/
  exists i s, find_ident (ident s0) st = Some (i, s) /\ segment_map st.1 !! i = Some s /\ start s = start s0.
Proof.
  intros [Hp _ _] H0. unfold find_ident. destruct (list_find _ _) as [[i s]|] eqn:E.
  - right. apply list_find_Some in E as (Hi & Es & _). exists i, s. split_and!; [done|done|].
    destruct (po_known _ _ _ _ Hp s) as (s1 & H1 & Ek & _); [by eapply list_elem_of_lookup_2|]. injection Ek as E1 E2 E3.
    rewrite E1. f_equal. apply (loaded_ident (loaded st.1)); [apply Hp|done|done|congruence].
  - left. split; [|done]. intros s Hs Ek. rewrite list_find_None, Forall_forall in E. apply (E s Hs). by injection Ek.
Qed.

Lemma search_map_ident_ok st s0 : local_ok pid ids st -> s0 ∈ loaded st.1 ->
  exists st', search_map_ident (ident s0) st = Ok (Some (start s0), st') /\ local_ok pid ids st' /\ same_process st.1 st'.1.
Proof.
  intros Hst H0. unfold search_map_ident.
  destruct (find_ident_ok st s0 Hst H0) as [[_ ->]|(i & s & -> & Hi & Es)].
  2: { destruct (activate_segment_ok st i s Hst Hi) as (st' & -> & ? & ?). mcbn. rewrite Es. by exists st'. }
  destruct (rebuild_local_ok st Hst) as (Hst1 & Hs1 & Hin).
  destruct (find_ident_ok (rebuild_segment_map st.1, st.2) s0 Hst1 H0) as [[Hno _]|(i & s & -> & Hi & Es)].
  - destruct (Hin s0 H0) as (s & Hs & Ek). by destruct (Hno s Hs).
  - destruct (activate_segment_ok _ i s Hst1 Hi) as (st' & -> & ? & ?). mcbn. rewrite Es. by exists st'.
Qed.

Lemma search_tkn_ok st s0 e : local_ok pid ids st -> s0 ∈ loaded st.1 -> search_tkn (ident s0) st.2 = Some e -> t_start e = start s0.
Proof.
  intros [Hp Hc _] H0. unfold search_tkn. destruct (_ !! _) as [x|] eqn:E; [|done]. destruct (Z.eqb_spec (t_ident x) (ident s0)) as [Ei|]; [|done].
  intros [= <-]. assert (Hin : x ∈ tkn_of <$> cache_ptr st.2) by (rewrite <- (co_tkn _ _ _ Hc); by eapply list_elem_of_lookup_2).
  apply list_elem_of_fmap in Hin as (y & -> & Hy). destruct (co_ptr _ _ _ Hc y Hy) as (s & Hs & ->). cbn in *.
  f_equal. by apply (loaded_ident (loaded st.1)); [apply Hp|..].
Qed.

(** A token is turned into the function it denotes, where its segment is loaded. *)
Theorem detokenize_ok st s0 t off : local_ok pid ids st -> s0 ∈ loaded st.1 -> denotes t (ident s0) off ->
  exists st', detokenize t st = Ok (w64 (start s0 + off), st') /\ local_ok pid ids st' /\ same_process st.1 st'.1.
Proof.
  intros Hst H0 Hd. pose proof Hst as [Hp Hc _]. destruct t as [o|o id|o i]; cbn [denotes] in Hd.
  - destruct Hd as [-> E]. destruct (po_primary _ _ _ _ Hp) as (s & Hs & Ek). pose proof (po_pid _ _ _ _ Hp) as Ep.
    injection Ek as E1 E2 E3. cbn [detokenize]. rewrite E1. exists st. split_and!; [|done|apply same_process_refl].
    by rewrite (loaded_ident (loaded st.1) s s0 (po_loaded _ _ _ _ Hp) Hs H0) by congruence.
  - destruct Hd as [-> ->]. cbn [detokenize]. unfold detokenize_ms. destruct (search_tkn (ident s0) st.2) as [e|] eqn:E.
    + rewrite (search_tkn_ok st s0 e Hst H0 E). exists st. split_and!; [done|done|apply same_process_refl].
    + destruct (search_map_ident_ok st s0 Hst H0) as (st' & -> & ? & ?). mcbn. by exists st'.
  - destruct Hd as (-> & Hi & Hids). cbn [detokenize]. unfold lookup_at_idx. rewrite (po_count _ _ _ _ Hp).
    assert (Z.to_nat (i - 1) < length ids)%nat by (by eapply lookup_lt_Some).
    rewrite (proj2 (Z.leb_le _ _)) by lia. mcbn. rewrite (proj2 (Z.leb_le _ _)) by lia.
    destruct (po_ids _ _ _ _ Hp _ _ Hids) as (s & Hs & Es & Est). replace (S (Z.to_nat (i - 1))) with (Z.to_nat i) in Est by lia.
    rewrite Est. mcbn. exists st. split_and!; [|done|apply same_process_refl].
    destruct (po_known _ _ _ _ Hp s Hs) as (s1 & H1 & Ek & _). injection Ek as E1 E2 E3. rewrite E1.
    by rewrite (loaded_ident (loaded st.1) s1 s0 (po_loaded _ _ _ _ Hp) H1 H0) by congruence.
Qed.

End lookup.

End Lookup.
