(* ===== verification/CodeSegmentsVerify.v ===== *)
(** Verification of code segments: a process gives an index to each segment that all
    processes have.  What a process does with the result of the collective keeps its
    table, its indices and the caches of its threads consistent. *)
From S2P Require Import Prelude CodeSegments CodeSegmentsLookup.
From stdpp Require Import sorting.
#[local] Open Scope Z_scope.

Module Verify.
Import CodeSegments Lookup.

Lemma store_start_ok i s l l' : store_start i s l = Ok l' -> 0 <= i < Z.of_nat (length l) /\ l' = <[Z.to_nat i := s]> l.
Proof.
  unfold store_start. destruct (Z.leb_spec 0 i); [|done]. destruct (Z.ltb_spec i (Z.of_nat (length l))); [|done].
  cbn. by intros [= <-].
Qed.

(** ** One more index *)

Definition with_index (s : segment_info) (i : Z) (s2 : segment_info) : segment_info :=
  if start s =? start s2 then with_idx i s2 else s2.

Definition indexed (p : process) (m : list segment_info) (starts : list Z) (e : Z) : process :=
  mk_process (loaded p) m (primary p) (enforce_verification p) (verified_segment_count p + 1) (max_segments p) starts e.

Lemma with_index_key s i s2 : seg_key (with_index s i s2) = seg_key s2 /\ flags (with_index s i s2) = flags s2.
Proof. unfold with_index. by destruct (_ =? _). Qed.

(** In a table, entries that start at the same address are the same. *)
Lemma map_start pid V ids p s s' : process_ok pid V ids p -> s ∈ segment_map p -> s' ∈ segment_map p -> start s = start s' -> s = s'.
Proof.
  intros Hp Hs Hs' E. apply (map_ident Hp); [done|done|].
  destruct (po_known _ _ _ _ Hp s Hs) as (s0 & H0 & Ek & _). destruct (po_known _ _ _ _ Hp s' Hs') as (s0' & H0' & Ek' & _).
  injection Ek as E1 E2 ->. injection Ek' as E1' E2' ->. f_equal.
  pose proof (po_loaded _ _ _ _ Hp) as Hl.
  destruct (wf_seg _ Hl s0 H0) as (_ & ? & _). destruct (wf_seg _ Hl s0' H0') as (_ & ? & _).
  apply (loaded_address (loaded p) s0 s0' (start s0)); [done..|lia|lia].
Qed.

Lemma assign_one_ok pid V ids p s starts e : process_ok pid V ids p ->
  (exists s1, s1 ∈ segment_map p /\ seg_key s1 = seg_key s) -> ident s ∉ ids -> 0 <= e <= Z.of_nat (length ids) + 1 ->
  store_start (verified_segment_count p) (start s) (indexed_segment_starts p) = Ok starts ->
  process_ok pid V (ids ++ [ident s]) (indexed p (with_index s (verified_segment_count p) <$> segment_map p) starts e).
Proof.
  intros Hp (s1 & Hs1 & Ek1) Hn He (Hr & ->)%store_start_ok. set (i := verified_segment_count p) in *.
  assert (Hi : i = Z.of_nat (length ids) + 1) by apply Hp. injection Ek1 as E1 E2 E3.
  assert (Hsame : forall s2, s2 ∈ segment_map p -> start s = start s2 -> s2 = s1).
  { intros s2 Hs2 E. apply (map_start _ _ _ _ _ _ Hp Hs2 Hs1). congruence. }
  assert (Hother : forall s2, s2 ∈ segment_map p -> start s <> start s2 -> ident s2 <> ident s).
  { intros s2 Hs2 Hne E. apply Hne. rewrite <- E1. f_equal. apply (map_ident Hp); [done|done|congruence]. }
  split; cbn [loaded indexed segment_map primary indexed_segment_starts verified_segment_count]; try apply Hp.
  - intros s2 (s0 & -> & H0)%list_elem_of_fmap. destruct (with_index_key s i s0) as [-> Ef]. unfold has. rewrite Ef.
    by apply (po_known _ _ _ _ Hp).
  - rewrite fmap_seg_key by (intros; apply with_index_key). apply Hp.
  - intros s2 (s0 & -> & H0)%list_elem_of_fmap. destruct (with_index_key s i s0) as [Ek Ef]. injection Ek as _ _ ->.
    unfold has. rewrite Ef. by apply (po_verified _ _ _ _ Hp).
  - intros s2 (s0 & -> & H0)%list_elem_of_fmap. unfold with_index. destruct (Z.eqb_spec (start s) (start s0)) as [E|Hne].
    + right. rewrite (Hsame s0 H0 E). cbn. split; [lia|]. rewrite E3, Hi. replace (Z.to_nat _) with (length ids) by lia.
      by rewrite list_lookup_middle.
    + specialize (Hother s0 H0 Hne). destruct (po_idx _ _ _ _ Hp s0 H0) as [[Ei Hni]|[Hpos Hlk]].
      * left. split; [done|]. rewrite elem_of_app, list_elem_of_singleton. naive_solver.
      * right. split; [done|]. by apply lookup_app_l_Some.
  - intros j id Hj. apply lookup_app_Some in Hj as [Hj|[Hge Hj]].
    + assert (j < length ids)%nat by (by eapply lookup_lt_Some).
      destruct (po_ids _ _ _ _ Hp j id Hj) as (s0 & H0 & Ei & Est). exists (with_index s i s0).
      split; [by apply list_elem_of_fmap_2|]. destruct (with_index_key s i s0) as [Ek _]. injection Ek as E _ E'.
      split; [congruence|]. rewrite list_lookup_insert_ne by lia. congruence.
    + apply list_lookup_singleton_Some in Hj as [Hj <-]. exists (with_index s i s1). split; [by apply list_elem_of_fmap_2|].
      destruct (with_index_key s i s1) as [Ek _]. injection Ek as E _ E'. split; [congruence|].
      replace (S j) with (Z.to_nat i) by lia. rewrite list_lookup_insert_eq by lia. congruence.
  - apply NoDup_app. split; [apply Hp|]. split; [|apply NoDup_singleton]. intros x Hx ->%list_elem_of_singleton. done.
  - rewrite length_app. cbn. lia.
  - intros j x Hj. rewrite length_app in Hj. cbn in Hj. rewrite list_lookup_insert_ne by lia. apply (po_free _ _ _ _ Hp). lia.
  - rewrite length_insert. apply Hp.
  - rewrite length_app. cbn. lia.
Qed.

(** ** [verify_segment] *)

Lemma verify_contribution_ok pid ids p a h p' : process_ok pid (fun id => id ∈ ids) ids p -> verify_contribution a p = Ok (h, p') ->
  process_ok pid (fun id => id ∈ ids) ids p' /\ p' = rebuild_segment_map p /\
  (h = 0 \/ exists s, s ∈ segment_map p' /\ ident s = h /\ inside a s).
Proof.
  intros Hp. unfold verify_contribution. destruct (rebuild_ok _ _ _ _ Hp) as [Hp' _].
  { intros id [i Hi]%list_elem_of_lookup. destruct (po_ids _ _ _ _ Hp i id Hi) as (s & ? & ? & _). eauto. }
  destruct (list_find _ _) as [[k s]|] eqn:E.
  - apply list_find_Some in E as (Hk & Hin & _). destruct (negb _); mcbn; [|done]. intros [= <- <-].
    split_and!; [done|done|]. right. exists s. split_and!; [by eapply list_elem_of_lookup_2|done|done].
  - intros [= <- <-]. auto.
Qed.

Lemma with_index_entry pid V ids p k it i : process_ok pid V ids p -> segment_map p !! k = Some it ->
  with_index it i <$> segment_map p = <[k := with_idx i it]> (segment_map p).
Proof.
  intros Hp Hk. apply list_eq. intros j. rewrite list_lookup_fmap. destruct (decide (j = k)) as [->|Hne].
  - rewrite Hk, list_lookup_insert_eq by (by eapply lookup_lt_Some). cbn. unfold with_index. by rewrite Z.eqb_refl.
  - rewrite list_lookup_insert_ne by done. destruct (segment_map p !! j) as [s|] eqn:Es; [|done]. cbn. f_equal.
    unfold with_index. destruct (Z.eqb_spec (start it) (start s)) as [E|]; [|done]. exfalso. apply Hne.
    assert (it = s) as -> by (apply (map_start _ _ _ _ _ _ Hp); [by eapply list_elem_of_lookup_2..|done]).
    eapply NoDup_lookup; [apply (po_idents _ _ _ _ Hp)|by rewrite list_lookup_fmap, Es|by rewrite list_lookup_fmap, Hk].
Qed.

(** Changing whether a segment counts as verified. *)
Lemma process_ok_iff pid V V' ids p : process_ok pid V ids p -> (forall id, V id <-> V' id) -> process_ok pid V' ids p.
Proof. intros Hp HV. split; try apply Hp. intros s Hs. rewrite <- HV. by apply (po_verified _ _ _ _ Hp). Qed.

(** A collective may give more indices; then caches are out of date. *)
Definition later (ids ids' : list Z) (p p' : process) : Prop :=
  loaded p' = loaded p /\ (ids' = ids /\ epoch p' = epoch p \/ epoch p < epoch p').

Lemma later_fresh ids ids' p p' c : later ids ids' p p' -> fresh ids (epoch p) c -> fresh ids' (epoch p') c.
Proof. intros [_ [[-> ->]|He]] Hc; [done|]. destruct Hc. split; [lia|]. intros ?. lia. Qed.

(** Epochs do not wrap around. *)
Lemma epoch_next pid V ids p s starts : process_ok pid V ids p ->
  store_start (verified_segment_count p) s (indexed_segment_starts p) = Ok starts ->
  w64 (epoch p + 1) = epoch p + 1 /\ 0 <= epoch p + 1 <= Z.of_nat (length ids) + 1.
Proof.
  intros Hp (H & _)%store_start_ok. pose proof (po_room _ _ _ _ Hp). pose proof (po_epoch _ _ _ _ Hp).
  rewrite (po_count _ _ _ _ Hp) in H. split; [|lia]. apply w64_small. unfold is_u64, w64_mod. lia.
Qed.

(** All processes have a segment with hash [h]: it gets the next index, unless it has one. *)
Lemma verify_commit_yes pid ids p h ok p' : process_ok pid (fun id => id ∈ ids) ids p -> h <> 0 ->
  (exists s, s ∈ segment_map p /\ ident s = h) -> verify_commit h h p = Ok (ok, p') ->
  ok = true /\ later ids (if decide (h ∈ ids) then ids else ids ++ [h]) p p' /\
  process_ok pid (fun id => id ∈ if decide (h ∈ ids) then ids else ids ++ [h]) (if decide (h ∈ ids) then ids else ids ++ [h]) p'.
Proof.
  intros Hp Hh (s & Hs & Es). unfold verify_commit. destruct (list_find _ _) as [[k it]|] eqn:E.
  2: { rewrite list_find_None, Forall_forall in E. by destruct (E s Hs). }
  apply list_find_Some in E as (Hk & Ei & _). rewrite (proj2 (Z.eqb_neq h 0)) by done. cbn [negb].
  assert (Hit : it ∈ segment_map p) by (by eapply list_elem_of_lookup_2).
  pose proof (po_verified _ _ _ _ Hp it Hit) as Hv. rewrite Ei in Hv. destruct (has verified it) eqn:Ehv.
  - intros [= <- <-]. rewrite decide_True by (by apply Hv). split_and!; [done| |done]. split; [done|by left].
  - rewrite decide_False by (by intros H%Hv). destruct (_ <=? _) eqn:Emax; mcbn; [|done].
    destruct (store_start _ _ _) as [starts| | |] eqn:Est; mcbn; try done. intros [= <- <-].
    destruct (epoch_next _ _ _ _ _ _ Hp Est) as [-> He]. split; [done|]. split; [split; [done|right; cbn; lia]|].
    set (p1 := set_map (<[k := set_verified it]> (segment_map p)) p).
    assert (Hp1 : process_ok pid (fun id => id ∈ ids ++ [h]) ids p1).
    { eapply process_ok_entry; [exact Hp|exact Hk|apply set_verified_same| |].
      - intros t _ Hne. rewrite elem_of_app, list_elem_of_singleton. rewrite Ei in Hne. naive_solver.
      - rewrite set_verified_has, Ei, elem_of_app, list_elem_of_singleton. naive_solver. }
    assert (Hk1 : segment_map p1 !! k = Some (set_verified it)) by (cbn; rewrite list_lookup_insert_eq; [done|by eapply lookup_lt_Some]).
    assert (Hid : ident (set_verified it) = h) by done.
    pose proof (assign_one_ok pid _ ids p1 (set_verified it) starts (epoch p + 1) Hp1) as Hone. rewrite Hid in Hone.
    rewrite (with_index_entry _ _ _ _ _ _ _ Hp1 Hk1) in Hone. cbn [segment_map set_map p1] in Hone.
    rewrite list_insert_insert_eq in Hone. apply Hone; [|by intros H%Hv|done|exact Est].
    exists (set_verified it). split; [|done]. by eapply list_elem_of_lookup_2.
Qed.

(** Not all have it: the segment is marked, if there is one, and an exception thrown. *)
Lemma verify_commit_no pid ids p h ok p' : process_ok pid (fun id => id ∈ ids) ids p -> h ∉ ids ->
  verify_commit h 0 p = Ok (ok, p') -> ok = false /\ later ids ids p p' /\ process_ok pid (fun id => id ∈ ids) ids p'.
Proof.
  intros Hp Hn. unfold verify_commit. assert (Hl : forall m, later ids ids p (set_map m p)) by (intros m; split; [done|by left]).
  destruct (list_find _ _) as [[k it]|] eqn:E; [|intros [= <- <-]; split_and!; [done|split; [done|by left]|done]].
  apply list_find_Some in E as (Hk & Ei & _). cbn [negb Z.eqb]. intros [= <- <-]. split; [done|]. split; [apply Hl|].
  eapply process_ok_entry; [exact Hp|exact Hk|apply set_bad_same|done|]. rewrite set_bad_has, Ei. done.
Qed.

(** ** [verify_all] *)

Lemma mark_one_ok pid V ids p h b : process_ok pid V ids p ->
  process_ok pid (fun id => if decide (id = h) then b = true else V id) ids (set_map (mark_checked (segment_map p) (h, b)) p).
Proof.
  intros Hp. unfold mark_checked. cbn [fst snd]. destruct (list_find _ _) as [[k s]|] eqn:E.
  - apply list_find_Some in E as (Hk & Es & _). eapply process_ok_entry; [exact Hp|exact Hk| | |].
    + destruct b; [apply set_verified_same|apply set_bad_same].
    + intros t _ Hne. by rewrite decide_False by congruence.
    + rewrite decide_True by done. destruct b; [by rewrite set_verified_has|by rewrite set_bad_has].
  - assert (Hv : forall s, s ∈ segment_map p -> has verified s = true <-> (if decide (ident s = h) then b = true else V (ident s))).
    { intros s Hs. rewrite list_find_None, Forall_forall in E. rewrite decide_False by (by apply E). by apply (po_verified _ _ _ _ Hp). }
    split; try apply Hp. exact Hv.
Qed.

Lemma mark_all_ok pid ids checked : forall V p, process_ok pid V ids p -> NoDup (checked.*1) ->
  process_ok pid (fun id => (id, true) ∈ checked \/ id ∉ checked.*1 /\ V id) ids
    (set_map (foldl mark_checked (segment_map p) checked) p).
Proof.
  induction checked as [|[h b] checked IH]; intros V p Hp Hnd.
  - eapply process_ok_iff; [|intros id; cbn; split; [|intros [?%elem_of_nil|[_ ?]]; [done|eassumption]]].
    + cbn. destruct p. exact Hp.
    + intros Hid. right. split; [by apply not_elem_of_nil|exact Hid].
  - cbn in Hnd. apply NoDup_cons in Hnd as [Hn Hnd].
    pose proof (IH _ _ (mark_one_ok pid V ids p h b Hp) Hnd) as H. cbn [segment_map set_map foldl] in *.
    eapply process_ok_iff; [exact H|]. intros id. cbn. destruct (decide (id = h)) as [->|Hne].
    + rewrite !elem_of_cons. split.
      * intros [Hin|[_ ->]]; [destruct Hn; apply list_elem_of_fmap; by exists (h, true)|by left; left].
      * intros [[E|Hin]|[Hin _]]; [injection E as <-; by right|by left|by destruct Hin; left].
    + rewrite !elem_of_cons. split.
      * intros [Hin|[Hin HV]]; [by left; right|right; split; [|done]; by intros [|]].
      * intros [[E|Hin]|[Hin HV]]; [by injection E|by left|right; split; [|done]]. intros Hx. apply Hin. by right.
Qed.

Lemma mark_rest_ok pid V ids p m : process_ok pid V ids (set_map m p) -> process_ok pid V ids (set_map (mark_rest <$> m) p).
Proof.
  intros Hp. change (set_map (mark_rest <$> m) p) with (set_map (mark_rest <$> m) (set_map m p)).
  assert (Hs : forall s, same_seg s (mark_rest s) /\ has verified (mark_rest s) = has verified s).
  { intros s. unfold mark_rest. destruct (has verified s) eqn:E; cbn [orb]; [by rewrite E|].
    destruct (has bad_verification s); [by rewrite E|]. split; [apply set_bad_same|apply set_bad_has]. }
  eapply process_ok_map; [exact Hp|cbn; apply fmap_seg_key; intros; apply Hs|]. cbn. intros i s s' Hi.
  rewrite list_lookup_fmap, Hi. intros [= <-]. destruct (Hs s) as [Hsame ->]. split; [done|].
  destruct Hsame as [Ek _]. injection Ek as _ _ ->. apply (po_verified _ _ _ _ Hp). by eapply list_elem_of_lookup_2.
Qed.

Lemma is_indexed_spec starts s b : forall n i, 0 <= i -> is_indexed n i s starts = Ok b ->
  b = true <-> exists j, (Z.to_nat i <= j < Z.to_nat i + n)%nat /\ starts !! j = Some s.
Proof.
  induction n as [|n IH]; intros i Hi; cbn.
  - intros [= <-]. split; [done|intros (j & ? & _); lia].
  - destruct (starts !! Z.to_nat i) as [x|] eqn:Ex; mcbn; [|done]. destruct (Z.eqb_spec s x) as [->|Hne].
    + intros [= <-]. split; [|done]. intros _. exists (Z.to_nat i). split; [lia|done].
    + intros H. rewrite (IH (i + 1) ltac:(lia) H). split; intros (j & Hj & Hl).
      * exists j. split; [lia|done].
      * exists j. split; [|done]. enough (j <> Z.to_nat i) by lia. intros ->. congruence.
Qed.

(** What [verify_all] finds to be new: verified segments without an index. *)
Lemma new_segments_spec pid V ids p m l : process_ok pid V ids (set_map m p) ->
  new_segments (verified_segment_count p) (indexed_segment_starts p) m = Ok l ->
  l `sublist_of` m /\ forall s, s ∈ l <-> s ∈ m /\ has verified s = true /\ ident s ∉ ids.
Proof.
  intros Hp.
  assert (Hf : forall s b, s ∈ m -> is_indexed (Z.to_nat (verified_segment_count p)) 1 (start s) (indexed_segment_starts p) = Ok b ->
    b = true <-> ident s ∈ ids).
  { intros s b Hs Hb. pose proof (po_count _ _ _ _ Hp) as Hc. cbn in Hc. rewrite (is_indexed_spec _ _ _ _ 1 ltac:(lia) Hb). split.
    - intros (j & Hj & Hl). destruct (decide (length ids < j)%nat) as [Hlt|Hle].
      + pose proof (po_free _ _ _ _ Hp j _ Hlt Hl) as E0. destruct (po_known _ _ _ _ Hp s Hs) as (s0 & H0 & Ek & _).
        destruct (wf_seg _ (po_loaded _ _ _ _ Hp) s0 H0) as (? & _). injection Ek as E1 _ _. lia.
      + destruct (lookup_lt_is_Some_2 ids (j - 1)) as [id Hid]; [lia|].
        destruct (po_ids _ _ _ _ Hp _ _ Hid) as (s2 & Hs2 & Ei & Est). replace (S (j - 1)) with j in Est by lia. cbn in Est.
        assert (s = s2) as -> by (apply (map_start _ _ _ _ _ _ Hp Hs Hs2); congruence). rewrite Ei. by eapply list_elem_of_lookup_2.
    - intros [i Hi]%list_elem_of_lookup. assert (i < length ids)%nat by (by eapply lookup_lt_Some).
      destruct (po_ids _ _ _ _ Hp _ _ Hi) as (s2 & Hs2 & Ei & Est). cbn in Est.
      assert (s2 = s) as -> by (by apply (map_ident Hp)). exists (S i). split; [lia|done]. }
  clear Hp. revert l. induction m as [|s m IH]; intros l; cbn [new_segments].
  - intros [= <-]. split; [done|]. intros s. rewrite elem_of_nil. naive_solver.
  - assert (Hf' : forall s b, s ∈ m -> is_indexed (Z.to_nat (verified_segment_count p)) 1 (start s) (indexed_segment_starts p) = Ok b ->
      b = true <-> ident s ∈ ids) by (intros s1 b Hs1; apply Hf; by right).
    specialize (IH Hf'). destruct (has verified s) eqn:Ev.
    + destruct (is_indexed _ _ _ _) as [b| | |] eqn:Eb; mcbn; try done.
      destruct (new_segments _ _ m) as [l'| | |] eqn:El; mcbn; try done. destruct (IH _ eq_refl) as [Hsub Hin]. intros [= <-].
      pose proof (Hf s b ltac:(left) Eb) as Hb. destruct b.
      * split; [by apply sublist_cons|]. intros s1. rewrite Hin, elem_of_cons. split; [naive_solver|].
        intros [[->|?] [? ?]]; [naive_solver|done].
      * split; [by apply sublist_skip|]. intros s1. rewrite !elem_of_cons, Hin. split; [|naive_solver].
        intros [->|?]; [|naive_solver]. split; [by left|]. split; [done|]. intros ?%Hb. done.
    + intros El. destruct (IH _ El) as [Hsub Hin]. split; [by apply sublist_cons|]. intros s1. rewrite Hin, elem_of_cons.
      split; [naive_solver|]. intros [[->|?] [? ?]]; [congruence|done].
Qed.

Lemma assign_indices_ok pid V : forall l ids p p', process_ok pid V ids p ->
  (forall s, s ∈ l -> exists s1, s1 ∈ segment_map p /\ seg_key s1 = seg_key s) -> NoDup (ident <$> l) ->
  (forall s, s ∈ l -> ident s ∉ ids) -> assign_indices l p = Ok p' ->
  process_ok pid V (ids ++ (ident <$> l)) p' /\ loaded p' = loaded p /\ epoch p' = epoch p.
Proof.
  induction l as [|s l IH]; intros ids p p' Hp Hin Hnd Hn; cbn [assign_indices].
  - intros [= <-]. cbn. by rewrite app_nil_r.
  - destruct (store_start _ _ _) as [starts| | |] eqn:Est; mcbn; try done.
    pose proof (assign_one_ok pid V ids p s starts (epoch p) Hp (Hin s ltac:(left)) (Hn s ltac:(left))
      ltac:(pose proof (po_epoch _ _ _ _ Hp); lia) Est) as Hp1.
    cbn in Hnd. apply NoDup_cons in Hnd as [Hns Hnd]. intros H.
    destruct (IH (ids ++ [ident s]) _ p' Hp1) as (Hp' & El & Ee); [|done| |exact H|].
    + intros s2 Hs2. destruct (Hin s2) as (s1 & Hs1 & Ek); [by right|].
      exists (with_index s (verified_segment_count p) s1). split; [by apply list_elem_of_fmap_2|].
      by rewrite (proj1 (with_index_key _ _ _)).
    + intros s2 Hs2. rewrite elem_of_app, list_elem_of_singleton. intros [Hx|Hx].
      * apply (Hn s2); [by right|done].
      * apply Hns. rewrite <- Hx. by apply list_elem_of_fmap_2.
    + split_and!; [by rewrite <- app_assoc in Hp'|done|done].
Qed.

Lemma process_ok_epoch pid V ids p e : process_ok pid V ids p -> 0 <= e <= Z.of_nat (length ids) ->
  process_ok pid V ids (mk_process (loaded p) (segment_map p) (primary p) (enforce_verification p) (verified_segment_count p)
    (max_segments p) (indexed_segment_starts p) e).
Proof. intros Hp He. by split; try apply Hp. Qed.

(** The hashes that [verify_all] gives an index, in the order in which it does. *)
Definition new_ids (checked : list (Z * bool)) (ids : list Z) : list Z :=
  sort_by (fun id => id) (filter (fun id => id ∉ ids) ((filter (fun x => x.2 = true) checked).*1)).

Lemma new_ids_elem checked ids id : id ∈ new_ids checked ids <-> (id, true) ∈ checked /\ id ∉ ids.
Proof.
  unfold new_ids. rewrite sort_by_elem, list_elem_of_filter, list_elem_of_fmap. setoid_rewrite list_elem_of_filter. split.
  - intros [Hn ([i b] & -> & [Hb Hin])]. cbn in *. by subst b.
  - intros [Hin Hn]. split; [done|]. by exists (id, true).
Qed.

Lemma new_ids_nodup checked ids : NoDup (checked.*1) -> NoDup (new_ids checked ids).
Proof.
  intros H. unfold new_ids. rewrite sort_by_perm. apply NoDup_filter. eapply sublist_NoDup; [exact H|].
  apply fmap_sublist, sublist_filter.
Qed.

Lemma sorted_idents l : StronglySorted (key_le (fun id => id)) (ident <$> sort_by ident l).
Proof. eapply StronglySorted_fmap; [|apply sort_by_sorted]. done. Qed.

Theorem verify_all_commit_ok pid ids p checked p' : process_ok pid (fun id => id ∈ ids) ids p -> NoDup (checked.*1) ->
  (forall id, id ∈ ids -> (id, true) ∈ checked) ->
  (forall id, (id, true) ∈ checked -> exists s, s ∈ segment_map p /\ ident s = id) ->
  verify_all_commit checked p = Ok p' ->
  later ids (ids ++ new_ids checked ids) p p' /\ process_ok pid (fun id => id ∈ ids ++ new_ids checked ids) (ids ++ new_ids checked ids) p'.
Proof.
  intros Hp Hnd Hold Hall. unfold verify_all_commit. set (m1 := foldl mark_checked (segment_map p) checked).
  assert (Hp1 : process_ok pid (fun id => (id, true) ∈ checked) ids (set_map m1 p)).
  { eapply process_ok_iff; [exact (mark_all_ok _ _ _ _ _ Hp Hnd)|]. intros id. split; [|by left].
    intros [?|[_ Hid]]; [done|by apply Hold]. }
  apply mark_rest_ok in Hp1 as Hp2. set (m2 := mark_rest <$> m1) in *.
  destruct (forallb _ m2); mcbn; [|done]. destruct (new_segments _ _ m2) as [l| | |] eqn:El; mcbn; try done.
  destruct (new_segments_spec _ _ _ _ _ _ Hp2 El) as [Hsub Hin].
  destruct (i16 _ <=? _); mcbn; [|done]. destruct (0 <? _); mcbn; [|done].
  destruct (assign_indices _ _) as [p3| | |] eqn:Ea; mcbn; try done.
  assert (Hndl : NoDup (ident <$> l)) by (eapply sublist_NoDup; [apply (po_idents _ _ _ _ Hp2)|by apply fmap_sublist]).
  assert (Eids : ident <$> sort_by ident l = new_ids checked ids).
  { apply (StronglySorted_unique_strong (key_le (fun id => id))).
    - unfold key_le. intros x y _ _ ? ?. lia.
    - apply sorted_idents.
    - apply sort_by_sorted.
    - rewrite sort_by_perm. apply NoDup_Permutation; [done|by apply new_ids_nodup|]. intros id.
      rewrite new_ids_elem, list_elem_of_fmap. split.
      + intros (s & -> & (Hs & Hv & Hn)%Hin). split; [|done]. by apply (po_verified _ _ _ _ Hp2 s Hs).
      + intros [Hc Hn]. destruct (Hall id Hc) as (s & Hs & <-).
        assert (Hs2 : ident s ∈ ident <$> m2).
        { assert (E : ident <$> m2 = ident <$> segment_map p).
          { unfold m2. rewrite fmap_seg_key; [|intros s1 _; unfold mark_rest; destruct (_ || _); done].
            unfold m1. clear. generalize (segment_map p) as m. induction checked as [|[h b] c IH]; intros m; [done|]. cbn [foldl].
            rewrite IH. unfold mark_checked. cbn [fst snd]. destruct (list_find _ m) as [[k s]|] eqn:E; [|done].
            apply list_find_Some in E as (Hk & _). rewrite list_fmap_insert. apply list_insert_id.
            rewrite list_lookup_fmap, Hk. by destruct b. }
          rewrite E. by apply list_elem_of_fmap_2. }
        apply list_elem_of_fmap in Hs2 as (s2 & E2 & Hs2). exists s2. split; [done|]. apply Hin. split; [done|]. rewrite <- E2.
        split; [|done]. apply (po_verified _ _ _ _ Hp2 s2 Hs2). by rewrite <- E2. }
  destruct (assign_indices_ok pid _ (sort_by ident l) ids _ p3 Hp2) as (Hp3 & El3 & Ee3); [| | |exact Ea|].
  - intros s Hs. apply sort_by_elem, Hin in Hs as (Hs & _). by exists s.
  - by rewrite sort_by_perm.
  - intros s Hs. apply sort_by_elem, Hin in Hs as (_ & _ & Hn). done.
  - rewrite Eids in Hp3.
    assert (Hp4 : process_ok pid (fun id => id ∈ ids ++ new_ids checked ids) (ids ++ new_ids checked ids) p3).
    { eapply process_ok_iff; [exact Hp3|]. intros id. rewrite elem_of_app, new_ids_elem. split.
      - intros Hc. destruct (decide (id ∈ ids)); [by left|by right].
      - intros [Hid|[Hc _]]; [by apply Hold|done]. }
    cbn in El3, Ee3. destruct (sort_by ident l) as [|s1 l1] eqn:El1; intros [= <-].
    + split; [|exact Hp4]. split; [done|]. left. by rewrite <- Eids, app_nil_r.
    + assert (Hlen : Z.of_nat (length (new_ids checked ids)) >= 1) by (rewrite <- Eids; cbn; lia).
      pose proof (po_epoch _ _ _ _ Hp). pose proof (po_room _ _ _ _ Hp3) as Hroom. pose proof (po_room _ _ _ _ Hp).
      assert (Hle : Z.of_nat (length ids) < 32767).
      { cbn [assign_indices] in Ea. destruct (store_start _ _ _) as [starts| | |] eqn:Est; cbn in Ea; try done.
        apply store_start_ok in Est as [Hst _]. cbn in Hst. rewrite (po_count _ _ _ _ Hp) in Hst. lia. }
      rewrite Ee3, w64_small by (unfold is_u64, w64_mod; lia). split; [split; [done|right; cbn; lia]|].
      apply process_ok_epoch; [done|]. rewrite length_app. lia.
Qed.

End Verify.
