(* ===== verification/CodeSegmentsSystem.v ===== *)
(** Processes that send function pointers to each other.

    A step is one call of one thread, the loading of a library, or a collective
    verification.  Between any of them the indices of verified segments agree, so that
    a token made by one process is turned by another into the same function. *)
From S2P Require Import Prelude CodeSegments CodeSegmentsLookup CodeSegmentsVerify.
From stdpp Require Import sorting.
#[local] Open Scope Z_scope.

Module SegmentSystem.
Import CodeSegments Lookup Verify.

(** * Steps *)

(** The collective [verify_segment]: contributions, the reduction, and the rest; the
    pointers are those of the ranks, in their order. *)
Definition contributions (ptrs : list Z) (ps : list process) : res (list (Z * process)) :=
  mapM (fun x => verify_contribution x.1 x.2) (zip ptrs ps).

Definition reduce_hashes (hs : list Z) : Z := match hs with [] => 0 | h :: hs => foldl seghash_reduce h hs end.

Definition verify_segment (ptrs : list Z) (ps : list process) : res (list (bool * process)) :=
  cs ← contributions ptrs ps;
  mapM (fun x => verify_commit x.1 (reduce_hashes cs.*1) x.2) cs.

(** The collective [verify_all]: rank 0 broadcasts its hashes, all say which they have. *)
Definition all_have (lists : list (list bool)) : list bool :=
  match lists with [] => [] | l :: ls => foldl (zip_with andb) l ls end.

Definition verify_all (ps : list process) : res (list process) :=
  let ps := rebuild_segment_map <$> ps in
  let hashlist := match ps with [] => [] | p0 :: _ => ident <$> segment_map p0 end in
  let checklist := all_have ((fun p => verify_checklist hashlist (segment_map p)) <$> ps) in
  mapM (verify_all_commit (zip hashlist checklist)) ps.

Record rank := mk_rank { proc : process; caches : gmap nat segmap_cache }.

Definition cache_of (t : nat) (k : rank) : segmap_cache := default empty_cache (caches k !! t).
Definition put_local (t : nat) (st : local) (k : rank) : rank := mk_rank st.1 (<[t := st.2]> (caches k)).
Definition with_proc (p : process) (k : rank) : rank := mk_rank p (caches k).
Definition set_loaded (l : list segment_info) (p : process) : process :=
  mk_process l (segment_map p) (primary p) (enforce_verification p) (verified_segment_count p) (max_segments p)
    (indexed_segment_starts p) (epoch p).
Definition set_enforce (b : bool) (p : process) : process :=
  mk_process (loaded p) (segment_map p) (primary p) b (verified_segment_count p) (max_segments p)
    (indexed_segment_starts p) (epoch p).

(** The pointers given to [verify_segment] are to one function: in segments with the same
    hash, or in segments none of which has been verified. *)
Definition one_function (cs : list (Z * process)) : Prop :=
  (exists h, h <> 0 /\ forall x, x ∈ cs -> x.1 = h) \/
  (forall x, x ∈ cs -> forall s, s ∈ segment_map x.2 -> ident s = x.1 -> has verified s = false).

Inductive step (sys : list rank) : list rank -> Prop :=
  | step_load r k l : sys !! r = Some k -> wf_loaded l -> (forall s, s ∈ loaded (proc k) -> s ∈ l) ->
      step sys (<[r := with_proc (set_loaded l (proc k)) k]> sys)
  | step_enforce r k b : sys !! r = Some k -> step sys (<[r := with_proc (set_enforce b (proc k)) k]> sys)
  | step_tokenize r k t a o st : sys !! r = Some k -> tokenize a (proc k, cache_of t k) = Ok (o, st) ->
      step sys (<[r := put_local t st k]> sys)
  | step_detokenize r k t tok v st : sys !! r = Some k -> detokenize tok (proc k, cache_of t k) = Ok (v, st) ->
      step sys (<[r := put_local t st k]> sys)
  | step_verify_segment ptrs cs out : length ptrs = length sys -> contributions ptrs (proc <$> sys) = Ok cs -> one_function cs ->
      verify_segment ptrs (proc <$> sys) = Ok out -> step sys (zip_with with_proc out.*2 sys)
  | step_verify_all out : verify_all (proc <$> sys) = Ok out -> step sys (zip_with with_proc out sys).

(** After start-up; the executable's primary segment is the same everywhere. *)
Definition initial (pid : Z) (sys : list rank) : Prop :=
  forall k, k ∈ sys -> caches k = ∅ /\ ident (primary (proc k)) = pid /\
    exists l sentinel max e, wf_loaded l /\ max <= 32767 /\ init_process l sentinel max e = Ok (proc k).

Definition reachable (pid : Z) (sys : list rank) : Prop := exists s0, initial pid s0 /\ rtc step s0 sys.

(** * The invariant *)

Record rank_ok (pid : Z) (ids : list Z) (k : rank) : Prop := {
  ro_process : process_ok pid (fun id => id ∈ ids) ids (proc k);
  ro_caches : forall t c, caches k !! t = Some c -> cache_ok ids (loaded (proc k)) c /\ fresh ids (epoch (proc k)) c
}.

Definition sys_ok (pid : Z) (ids : list Z) (sys : list rank) : Prop := forall k, k ∈ sys -> rank_ok pid ids k.

Lemma rank_local pid ids k t : rank_ok pid ids k -> local_ok pid ids (proc k, cache_of t k).
Proof.
  intros [Hp Hc]. unfold cache_of. destruct (caches k !! t) as [c|] eqn:E; cbn.
  - by destruct (Hc t c E).
  - split; [done|apply empty_cache_ok|]. split; [apply Hp|]. intros _ e. by intros ?%elem_of_nil.
Qed.

Lemma find_primary_elem sentinel m s : find_primary_upcxx_segment sentinel m = Ok s -> s ∈ m.
Proof.
  unfold find_primary_upcxx_segment. destruct (list_find _ m) as [[i s1]|] eqn:E.
  - intros [= <-]. apply list_find_Some in E as (Hi & _). by eapply list_elem_of_lookup_2.
  - clear E. destruct (list_find _ m) as [[i s1]|] eqn:E; [|done]. intros [= <-]. apply list_find_Some in E as (Hi & _).
    by eapply list_elem_of_lookup_2.
Qed.

Lemma init_process_ok l sentinel max e p : wf_loaded l -> max <= 32767 -> init_process l sentinel max e = Ok p ->
  process_ok (ident (primary p)) (fun id => id ∈ []) [] p.
Proof.
  intros Hl Hmax. unfold init_process. rewrite build_segment_map_id by apply (wf_ident _ Hl).
  destruct (find_primary_upcxx_segment sentinel l) as [pr| | |] eqn:Epr; mcbn; try done. intros [= <-].
  apply find_primary_elem in Epr.
  assert (Hfl : forall s, s ∈ l -> has verified s = false).
  { intros s Hs. destruct (wf_seg _ Hl s Hs) as (_ & _ & _ & _ & Hk). rewrite has_verified.
    apply (f_equal (fun z => Z.testbit z 1)) in Hk. rewrite Z.land_spec, Z.bits_0 in Hk.
    by rewrite (eq_refl : Z.testbit keepflags 1 = true), andb_true_r in Hk. }
  split; cbn; try done.
  - intros s Hs. by exists s.
  - apply Hl.
  - intros s Hs. rewrite Hfl by done. split; [done|by intros ?%elem_of_nil].
  - intros s Hs. left. split; [apply (wf_seg _ Hl s Hs)|apply not_elem_of_nil].
  - constructor.
  - intros i x _ Hi. by apply lookup_replicate in Hi as [? _].
  - rewrite length_replicate. lia.
  - by exists pr.
Qed.

Lemma initial_ok pid sys : initial pid sys -> sys_ok pid [] sys.
Proof.
  intros H k Hk. destruct (H k Hk) as (Hc & <- & l & sent & max & e & Hl & Hmax & Hi). split; [by eapply init_process_ok|].
  intros t c. rewrite Hc. by rewrite lookup_empty.
Qed.

Lemma sys_ok_insert pid ids sys r k : sys_ok pid ids sys -> rank_ok pid ids k -> sys_ok pid ids (<[r := k]> sys).
Proof. intros H Hk q [->|Hq]%elem_of_insert_inv; [done|by apply H]. Qed.

Lemma put_local_ok pid ids k t st : rank_ok pid ids k -> local_ok pid ids st -> same_process (proc k) st.1 ->
  rank_ok pid ids (put_local t st k).
Proof.
  intros Hk [Hp Hc Hf] Hs. split; [done|]. cbn. intros t' c [[<- <-]|[_ Ht]]%lookup_insert_Some; [done|].
  destruct Hs as [m Hs]. rewrite Hs. by apply (ro_caches _ _ _ Hk t').
Qed.

Lemma load_ok pid ids k l : rank_ok pid ids k -> wf_loaded l -> (forall s, s ∈ loaded (proc k) -> s ∈ l) ->
  rank_ok pid ids (with_proc (set_loaded l (proc k)) k).
Proof.
  intros [Hp Hc] Hl Hin. split.
  - split; cbn; try apply Hp; [done| |].
    + intros s (s0 & H0 & E)%(po_known _ _ _ _ Hp). exists s0. auto.
    + destruct (po_primary _ _ _ _ Hp) as (s0 & H0 & E). exists s0. auto.
  - cbn. intros t c [H1 H2]%Hc. split; [|done]. by eapply cache_ok_mono.
Qed.

Lemma enforce_ok pid ids k b : rank_ok pid ids k -> rank_ok pid ids (with_proc (set_enforce b (proc k)) k).
Proof. intros [Hp Hc]. split; [split; cbn; apply Hp|done]. Qed.

(** ** Collectives *)

Lemma later_trans ids ids' p1 p2 p3 : later ids ids p1 p2 -> later ids ids' p2 p3 -> later ids ids' p1 p3.
Proof.
  intros [E1 H1] [E2 H2]. split; [congruence|]. destruct H1 as [[_ H1]|H1], H2 as [[-> H2]|H2]; [left; split; congruence|right; lia..].
Qed.

Lemma seghash_reduce_spec : forall hs h, foldl seghash_reduce h hs = if decide (Forall (fun x => x = h) hs) then h else 0.
Proof.
  assert (Hz : forall hs, foldl seghash_reduce 0 hs = 0).
  { induction hs as [|x hs IH]; [done|]. cbn. unfold seghash_reduce at 2. by destruct (0 =? x). }
  induction hs as [|x hs IH]; intros h; cbn; [by rewrite decide_True by constructor|].
  unfold seghash_reduce at 2. destruct (Z.eqb_spec h x) as [->|Hne].
  - rewrite IH. apply decide_ext. rewrite Forall_cons. naive_solver.
  - rewrite Hz. rewrite decide_False; [done|]. rewrite Forall_cons. naive_solver.
Qed.

(** The reduction is not zero exactly when all hashes are the same. *)
Lemma reduce_hashes_spec hs h : h <> 0 -> reduce_hashes hs = h <-> hs <> [] /\ forall x, x ∈ hs -> x = h.
Proof.
  intros Hh. destruct hs as [|h0 hs]; cbn.
  - split; [intros <-; done|naive_solver].
  - rewrite seghash_reduce_spec. split.
    + destruct (decide _) as [Hall|]; [|naive_solver]. intros ->. split; [done|]. rewrite Forall_forall in Hall.
      intros x [->|Hx]%elem_of_cons; auto.
    + intros [_ Hall]. assert (h0 = h) as -> by (apply Hall; left). rewrite decide_True; [done|].
      apply Forall_forall. intros x Hx. apply Hall. by right.
Qed.

Lemma contributions_ok pid ids ptrs sys cs : sys_ok pid ids sys -> length ptrs = length sys ->
  contributions ptrs (proc <$> sys) = Ok cs ->
  Forall2 (fun k x => process_ok pid (fun id => id ∈ ids) ids x.2 /\ later ids ids (proc k) x.2 /\
    (x.1 = 0 \/ exists s, s ∈ segment_map x.2 /\ ident s = x.1)) sys cs.
Proof.
  intros Hsys Hlen Hcs%mapM_ok. revert ptrs cs Hlen Hcs. induction sys as [|k sys IH]; intros [|a ptrs] cs Hlen Hcs; try done.
  - cbn in Hcs. inversion Hcs. constructor.
  - cbn in Hcs. inversion Hcs as [|? [h p'] ? cs' Hc Hcs']; subst. cbn in Hc. constructor.
    + destruct (verify_contribution_ok _ _ _ _ _ _ (ro_process _ _ _ (Hsys k ltac:(left))) Hc) as (Hp & -> & Hh).
      split; [done|]. split; [split; [done|by left]|]. destruct Hh as [|(s & ? & ? & _)]; [by left|right; by exists s].
    + apply (IH ltac:(intros q Hq; apply Hsys; by right) ptrs); [by injection Hlen|done].
Qed.

(** A rank whose process has moved on. *)
Lemma with_proc_ok pid ids ids' k p : rank_ok pid ids k -> process_ok pid (fun id => id ∈ ids') ids' p ->
  later ids ids' (proc k) p -> ids `prefix_of` ids' -> rank_ok pid ids' (with_proc p k).
Proof.
  intros [_ Hc] Hp Hl Hpre. split; [done|]. cbn. intros t c [H1 H2]%Hc. split; [|by eapply later_fresh].
  eapply cache_ok_mono; [exact H1|done|]. by rewrite (proj1 Hl).
Qed.

Lemma sys_ok_procs pid ids ids' sys ps : sys_ok pid ids sys -> ids `prefix_of` ids' ->
  Forall2 (fun k p => process_ok pid (fun id => id ∈ ids') ids' p /\ later ids ids' (proc k) p) sys ps ->
  sys_ok pid ids' (zip_with with_proc ps sys).
Proof.
  intros Hsys Hpre Hall q Hq. apply elem_of_lookup_zip_with in Hq as (i & p & k & -> & Hp & Hk).
  destruct (Forall2_lookup_lr _ _ _ _ _ _ Hall Hk Hp) as [Hok El]. eapply with_proc_ok; try done. apply Hsys.
  by eapply list_elem_of_lookup_2.
Qed.

(** [verify_segment]: all processes return, or all throw. *)
Lemma verify_segment_ok pid ids ptrs sys cs out : sys_ok pid ids sys -> length ptrs = length sys -> sys <> [] ->
  contributions ptrs (proc <$> sys) = Ok cs -> one_function cs -> verify_segment ptrs (proc <$> sys) = Ok out ->
  exists ids', ids `prefix_of` ids' /\
    Forall2 (fun k x => process_ok pid (fun id => id ∈ ids') ids' x.2 /\ later ids ids' (proc k) x.2) sys out /\
    ((exists h, h <> 0 /\ h ∈ ids' /\ (forall x, x ∈ cs -> x.1 = h) /\ forall x, x ∈ out -> x.1 = true) \/
     (ids' = ids /\ ~ (exists h, h <> 0 /\ forall x, x ∈ cs -> x.1 = h) /\ forall x, x ∈ out -> x.1 = false)).
Proof.
  intros Hsys Hlen Hne Hcs Hone Hout. pose proof (contributions_ok _ _ _ _ _ Hsys Hlen Hcs) as Hall.
  unfold verify_segment in Hout. rewrite Hcs in Hout. revert Hout. mcbn. intros Hout%mapM_ok.
  assert (Hcne : cs.*1 <> []).
  { intros E%fmap_nil_inv. subst cs. apply Forall2_nil_inv_r in Hall. done. }
  destruct (decide (reduce_hashes cs.*1 = 0)) as [E0|Hn0].
  - rewrite E0 in Hout. exists ids. split; [done|].
    assert (Hno : ~ exists h, h <> 0 /\ forall x, x ∈ cs -> x.1 = h).
    { intros (h & Hh & Hx). apply Hh. rewrite <- E0. symmetry. apply reduce_hashes_spec; [done|]. split; [done|].
      intros y (x & -> & Hy)%list_elem_of_fmap. by apply Hx. }
    assert (Hunv : forall x, x ∈ cs -> forall s, s ∈ segment_map x.2 -> ident s = x.1 -> has verified s = false) by (by destruct Hone).
    assert (Hboth : Forall2 (fun k x => (process_ok pid (fun id => id ∈ ids) ids x.2 /\ later ids ids (proc k) x.2) /\ x.1 = false) sys out).
    { clear Hcs Hone E0 Hcne Hno Hsys Hlen Hne. revert out Hout. induction Hall as [|k [h p] sys' cs' (Hp & El & Hh) _ IH]; intros out Hout.
      - inversion Hout. constructor.
      - inversion Hout as [|? [b p'] ? out' Hc Hout']; subst. cbn in *.
        assert (Hn : h ∉ ids).
        { intros [i Hi]%list_elem_of_lookup. destruct (po_ids _ _ _ _ Hp i h Hi) as (s & Hs & Es & _).
          pose proof (Hunv (h, p) ltac:(left) s Hs Es) as Hv. cbn in *.
          assert (has verified s = true); [|congruence]. apply (po_verified _ _ _ _ Hp s Hs). rewrite Es. by eapply list_elem_of_lookup_2. }
        destruct (verify_commit_no _ _ _ _ _ _ Hp Hn Hc) as (-> & El' & Hp'). constructor; [cbn; split; [split; [done|by eapply later_trans]|done]|].
        apply IH; [intros x Hx; apply Hunv; by right|done]. }
    split; [eapply Forall2_impl; [exact Hboth|]; naive_solver|]. right. split_and!; [done|done|].
    intros x [i Hi]%list_elem_of_lookup. destruct (Forall2_lookup_r _ _ _ _ _ Hboth Hi) as (k & _ & _ & ?). done.
  - set (h := reduce_hashes cs.*1) in *. destruct (proj1 (reduce_hashes_spec cs.*1 h Hn0) eq_refl) as [_ Hsame].
    assert (Hsame' : forall x, x ∈ cs -> x.1 = h) by (intros x Hx; apply Hsame; by apply list_elem_of_fmap_2).
    exists (if decide (h ∈ ids) then ids else ids ++ [h]). split; [case_decide; [done|by eexists]|].
    set (ids' := if decide (h ∈ ids) then ids else ids ++ [h]).
    assert (Hboth : Forall2 (fun k x => (process_ok pid (fun id => id ∈ ids') ids' x.2 /\ later ids ids' (proc k) x.2) /\ x.1 = true) sys out).
    { clearbody h. clear Hcs Hone Hcne Hsame Hsys Hlen Hne. revert out Hout. induction Hall as [|k [h1 p] sys' cs' (Hp & El & Hh) _ IH]; intros out Hout.
      - inversion Hout. constructor.
      - inversion Hout as [|? [b p'] ? out' Hc Hout']; subst. cbn in *.
        assert (h1 = h) as -> by (by apply (Hsame' (h1, p)); left).
        destruct Hh as [|Hh]; [done|].
        destruct (verify_commit_yes _ _ _ _ _ _ Hp Hn0 Hh Hc) as (-> & El' & Hp'). constructor; [cbn; split; [split; [done|by eapply later_trans]|done]|].
        apply IH; [intros x Hx; apply Hsame'; by right|done]. }
    split; [eapply Forall2_impl; [exact Hboth|]; naive_solver|]. left. exists h. split_and!; [done| |done|].
    + unfold ids'. case_decide; [done|]. rewrite elem_of_app, list_elem_of_singleton. by right.
    + intros x [i Hi]%list_elem_of_lookup. destruct (Forall2_lookup_r _ _ _ _ _ Hboth Hi) as (k & _ & _ & ?). done.
Qed.

(** [verify_all]: the checks that all processes make of the hashes of rank 0. *)
Lemma all_have_fmap {A} (f : A -> Z -> bool) hl m ms :
  all_have ((fun m => f m <$> hl) <$> (m :: ms)) = (fun h => forallb (fun m => f m h) (m :: ms)) <$> hl.
Proof.
  cbn [fmap list_fmap all_have forallb]. generalize (f m) as g. induction ms as [|m' ms IH]; intros g; cbn.
  - apply list_fmap_ext. intros i x _. by rewrite andb_true_r.
  - replace (zip_with andb (g <$> hl) (f m' <$> hl)) with ((fun h => g h && f m' h) <$> hl).
    + rewrite IH. apply list_fmap_ext. intros i x _. by rewrite andb_assoc.
    + clear IH. induction hl as [|h hl IHh]; [done|]. cbn. by f_equal.
Qed.

Lemma zip_fmap {A B} (g : A -> B) l : zip l (g <$> l) = (fun h => (h, g h)) <$> l.
Proof. induction l as [|x l IH]; [done|]. cbn. by f_equal. Qed.

(** The hashes of rank 0, each with whether all processes have it. *)
Definition checks (ps : list process) : list (Z * bool) :=
  match ps with
  | [] => []
  | p0 :: _ => (fun h => (h, forallb (fun p => existsb (fun s => h =? ident s) (segment_map p)) ps)) <$> (ident <$> segment_map p0)
  end.

Lemma verify_all_checks ps : verify_all ps = mapM (verify_all_commit (checks (rebuild_segment_map <$> ps))) (rebuild_segment_map <$> ps).
Proof.
  unfold verify_all, verify_checklist. f_equal. f_equal. destruct ps as [|p ps]; [done|]. rewrite fmap_cons. cbn [checks].
  rewrite (all_have_fmap (fun p h => existsb (fun s => h =? ident s) (segment_map p))). by rewrite zip_fmap.
Qed.

Lemma checks_in ps id : (id, true) ∈ checks ps -> forall p, p ∈ ps -> exists s, s ∈ segment_map p /\ ident s = id.
Proof.
  destruct ps as [|p0 ps]; [by intros ?%elem_of_nil|]. intros (h & E & _)%list_elem_of_fmap p Hp. apply pair_eq in E as [-> E].
  symmetry in E. rewrite forallb_forall in E. specialize (E p (proj1 (list_elem_of_In _ _) Hp)).
  apply existsb_exists in E as (s & Hs%list_elem_of_In & Eh%Z.eqb_eq). by exists s.
Qed.

Lemma checks_all ps id : ps <> [] -> (forall p, p ∈ ps -> exists s, s ∈ segment_map p /\ ident s = id) -> (id, true) ∈ checks ps.
Proof.
  destruct ps as [|p0 ps]; [done|]. intros _ H. apply list_elem_of_fmap. exists id. split.
  - f_equal. symmetry. apply forallb_forall. intros p Hp%list_elem_of_In. destruct (H p Hp) as (s & Hs & <-).
    apply existsb_exists. exists s. split; [by apply list_elem_of_In|apply Z.eqb_refl].
  - destruct (H p0 ltac:(left)) as (s & Hs & <-). by apply list_elem_of_fmap_2.
Qed.

Lemma verify_all_ok pid ids sys out : sys_ok pid ids sys -> verify_all (proc <$> sys) = Ok out ->
  exists ids', ids `prefix_of` ids' /\
    Forall2 (fun k p => process_ok pid (fun id => id ∈ ids') ids' p /\ later ids ids' (proc k) p) sys out /\
    (sys <> [] -> forall id, (forall k, k ∈ sys -> id ∈ ident <$> loaded (proc k)) -> id ∈ ids').
Proof.
  intros Hsys. rewrite verify_all_checks, <- list_fmap_compose. set (f := rebuild_segment_map ∘ proc). intros Hout%mapM_ok.
  assert (Hf : forall k, k ∈ sys -> process_ok pid (fun id => id ∈ ids) ids (f k) /\ later ids ids (proc k) (f k) /\
    forall s0, s0 ∈ loaded (proc k) -> exists s, s ∈ segment_map (f k) /\ seg_key s = seg_key s0).
  { intros k Hk. destruct (rebuild_local_ok _ _ _ (rank_local pid ids k 0 (Hsys k Hk))) as ([H _] & _ & Hin).
    split_and!; [done|split; [done|by left]|done]. }
  set (cs := checks (f <$> sys)) in *.
  assert (Hnd : NoDup cs.*1).
  { unfold cs. destruct sys as [|k sys]; [constructor|]. cbn [fmap list_fmap checks]. rewrite <- list_fmap_compose. cbn.
    rewrite list_fmap_id. apply (po_idents _ _ _ _ (proj1 (Hf k ltac:(left)))). }
  assert (Hold : sys <> [] -> forall id, id ∈ ids -> (id, true) ∈ cs).
  { intros Hne id [i Hi]%list_elem_of_lookup. apply checks_all; [by intros ?%fmap_nil_inv|].
    intros p (k & -> & Hk)%list_elem_of_fmap. destruct (po_ids _ _ _ _ (proj1 (Hf k Hk)) i id Hi) as (s & ? & ? & _). by exists s. }
  exists (ids ++ new_ids cs ids). split; [by eexists|]. split.
  2: { intros Hne id Hid. rewrite elem_of_app, new_ids_elem. destruct (decide (id ∈ ids)); [by left|right]. split; [|done].
    apply checks_all; [by intros ?%fmap_nil_inv|]. intros p (k & -> & Hk)%list_elem_of_fmap.
    specialize (Hid k Hk). apply list_elem_of_fmap in Hid as (s0 & -> & H0). destruct (proj2 (proj2 (Hf k Hk)) s0 H0) as (s & Hs & Ek).
    exists s. split; [done|by injection Ek]. }
  rewrite Forall2_fmap_l in Hout. apply Forall2_same_length_lookup_2.
  { by eapply Forall2_length. }
  intros i k p Hk Hp. pose proof (Forall2_lookup_lr _ _ _ _ _ _ Hout Hk Hp) as Hc. cbn in Hc.
  assert (Hin : k ∈ sys) by (by eapply list_elem_of_lookup_2). destruct (Hf k Hin) as (Hok & El & _).
  destruct (verify_all_commit_ok pid ids (f k) cs p Hok Hnd) as [El' Hok']; [|  |exact Hc|].
  - apply Hold. intros ->. by apply elem_of_nil in Hin.
  - intros id Hid. apply (checks_in _ _ Hid). by apply list_elem_of_fmap_2.
  - split; [exact Hok'|by eapply later_trans].
Qed.

(** ** Every step keeps the invariant *)

Theorem step_ok pid ids sys sys' : sys_ok pid ids sys -> step sys sys' -> exists ids', ids `prefix_of` ids' /\ sys_ok pid ids' sys'.
Proof.
  intros Hsys Hstep. destruct Hstep as [r k l Hk Hl Hin|r k b Hk|r k t a o st Hk Ht|r k t tok v st Hk Ht|ptrs cs out Hlen Hcs Hone Hout|out Hout].
  1-4: assert (Hok : rank_ok pid ids k) by (apply Hsys; by eapply list_elem_of_lookup_2); exists ids; split; [done|];
       apply sys_ok_insert; [done|].
  - by apply load_ok.
  - by apply enforce_ok.
  - destruct (tokenize_keeps _ _ _ _ _ _ (rank_local _ _ _ t Hok) Ht) as [H1 H2]. by apply put_local_ok.
  - destruct (detokenize_keeps _ _ _ _ _ _ (rank_local _ _ _ t Hok) Ht) as [H1 H2]. by apply put_local_ok.
  - destruct (decide (sys = [])) as [->|Hne].
    { exists ids. split; [done|]. intros k Hk. apply elem_of_lookup_zip_with in Hk as (i & ? & ? & _ & _ & ?). done. }
    destruct (verify_segment_ok _ _ _ _ _ _ Hsys Hlen Hne Hcs Hone Hout) as (ids' & Hpre & Hall & _).
    exists ids'. split; [done|]. eapply sys_ok_procs; [exact Hsys|done|]. rewrite Forall2_fmap_r. exact Hall.
  - destruct (verify_all_ok _ _ _ _ Hsys Hout) as (ids' & Hpre & Hall & _). exists ids'. split; [done|].
    by eapply sys_ok_procs.
Qed.

Lemma steps_ok pid ids sys sys' : sys_ok pid ids sys -> rtc step sys sys' -> exists ids', ids `prefix_of` ids' /\ sys_ok pid ids' sys'.
Proof.
  intros Hok Hs. revert ids Hok. induction Hs as [sys|sys sys1 sys2 Hstep _ IH]; intros ids Hok; [by exists ids|].
  destruct (step_ok _ _ _ _ Hok Hstep) as (ids1 & Hp1 & Hok1). destruct (IH ids1 Hok1) as (ids2 & Hp2 & Hok2).
  exists ids2. split; [by etrans|done].
Qed.

Lemma reachable_ok pid sys : reachable pid sys -> exists ids, sys_ok pid ids sys.
Proof. intros (s0 & Hi%initial_ok & Hs). destruct (steps_ok _ _ _ _ Hi Hs) as (ids & _ & H). by exists ids. Qed.

End SegmentSystem.
