(* ===== verification/CodeSegmentsTokens.v ===== *)
(** What is promised of function tokens: that the caches make no difference, that the
    indices of verified segments are the same everywhere, and that a function sent from
    one process to another arrives as the same function. *)
From S2P Require Import Prelude CodeSegments CodeSegmentsLookup CodeSegmentsVerify CodeSegmentsSystem.
From stdpp Require Import sorting.
#[local] Open Scope Z_scope.

Module Tokens.
Import CodeSegments Lookup Verify SegmentSystem.

(** * On the wire *)

(** The offsets and indices that fit into a word. *)
Definition fits (t : function_token) : Prop :=
  match t with
  | Single o => 0 <= o < 2 ^ 63
  | Multi o _ => 0 <= o < 2 ^ 48
  | MultiIdx o i => 0 <= o < 2 ^ 48 /\ 0 < i < 2 ^ 15
  end.

Lemma small_bit o n m : 0 <= o < 2 ^ n -> n <= m -> Z.testbit o m = false.
Proof.
  intros Ho Hm. destruct (decide (n < 0)) as [Hn|]; [rewrite Z.pow_neg_r in Ho; lia|].
  rewrite <- (Z.mod_small o (2 ^ n)) by done. apply Z.mod_pow2_bits_high. lia.
Qed.

(** The bits of the masks. *)
Lemma msb_bits k : 0 <= k -> Z.testbit msb k = (k =? 63).
Proof. intros Hk. change msb with (2 ^ 63). rewrite Z.pow2_bits_eqb by lia. apply Z.eqb_sym. Qed.

Lemma ones_bits n k : 0 <= n -> 0 <= k -> Z.testbit (Z.ones n) k = (k <? n).
Proof. intros Hn Hk. apply Z.testbit_ones_nonneg; lia. Qed.

Lemma upper_bits_bits k : 0 <= k -> Z.testbit upper_bits k = (48 <=? k) && (k <? 64).
Proof.
  intros Hk. change upper_bits with (Z.shiftl (Z.ones 16) 48). rewrite Z.shiftl_spec by done.
  destruct (Z.leb_spec 48 k).
  - rewrite ones_bits by lia. destruct (Z.ltb_spec (k - 48) 16), (Z.ltb_spec k 64); lia || done.
  - by rewrite Z.testbit_neg_r by lia.
Qed.

Lemma idx_bits_bits k : 0 <= k -> Z.testbit idx_bits k = (48 <=? k) && (k <? 63).
Proof.
  intros Hk. unfold idx_bits. rewrite Z.ldiff_spec, upper_bits_bits, msb_bits by done.
  destruct (Z.leb_spec 48 k), (Z.ltb_spec k 64), (Z.ltb_spec k 63), (Z.eqb_spec k 63); lia || done.
Qed.

Lemma lower_bits_bits k : 0 <= k -> Z.testbit lower_bits k = (k <? 48).
Proof.
  intros Hk. change lower_bits with (Z.ones 48). by apply ones_bits.
Qed.

Lemma msb_test o : (Z.land o msb =? 0) = negb (Z.testbit o 63).
Proof. by apply (land_pow2_test o 63). Qed.

(** The word of a token of a segment that is not the primary one; a hash goes with index 0. *)
Definition word (o i : Z) : Z := Z.lor (Z.lor o (Z.shiftl i 48)) msb.

Section word.
Context (o i : Z) (Ho : 0 <= o < 2 ^ 48) (Hi : 0 <= i < 2 ^ 15).

Lemma word_bits k : 0 <= k -> Z.testbit (word o i) k = if k <? 48 then Z.testbit o k else if k <? 63 then Z.testbit i (k - 48) else k =? 63.
Proof using Ho Hi.
  intros Hk. unfold word. rewrite !Z.lor_spec, Z.shiftl_spec, msb_bits by done.
  destruct (Z.ltb_spec k 48).
  - rewrite (Z.testbit_neg_r i) by lia. rewrite (proj2 (Z.eqb_neq k 63)) by lia. by rewrite !orb_false_r.
  - rewrite (small_bit o 48 k) by lia. destruct (Z.ltb_spec k 63).
    + rewrite (proj2 (Z.eqb_neq k 63)) by lia. by rewrite orb_false_r.
    + by rewrite (small_bit i 15 (k - 48)) by lia.
Qed.

Lemma word_msb : (Z.land (word o i) msb =? 0) = false.
Proof using Ho Hi. by rewrite msb_test, word_bits. Qed.

Lemma word_lower : Z.land (word o i) lower_bits = o.
Proof using Ho Hi.
  apply Z.bits_inj'. intros k Hk. rewrite Z.land_spec, lower_bits_bits, word_bits by done.
  destruct (Z.ltb_spec k 48); [apply andb_true_r|]. rewrite (small_bit o 48 k) by lia. apply andb_false_r.
Qed.

Lemma word_idx : Z.shiftr (Z.land (word o i) idx_bits) idx_shift = i.
Proof using Ho Hi.
  apply Z.bits_inj'. intros k Hk. unfold idx_shift. rewrite Z.shiftr_spec, Z.land_spec, idx_bits_bits, word_bits by lia.
  destruct (Z.ltb_spec (k + 48) 48); [lia|]. rewrite (proj2 (Z.leb_le 48 (k + 48))) by lia. cbn [andb].
  destruct (Z.ltb_spec (k + 48) 63); [by rewrite andb_true_r; f_equal; lia|]. rewrite (small_bit i 15 k) by lia. apply andb_false_r.
Qed.
End word.

Lemma wire_round_trip t : fits t -> exists w, serialize t = Ok w /\ deserialize w = Ok t.
Proof.
  destruct t as [o|o id|o i]; cbn [fits]; intros Ht.
  - assert (Hm : (Z.land o msb =? 0) = true) by (by rewrite msb_test, (small_bit o 63 63) by lia).
    cbn [serialize]. rewrite Hm. mcbn. eexists. split; [done|]. unfold deserialize. cbn [fst]. by rewrite Hm.
  - cbn [serialize]. assert (Z.land o upper_bits = 0) as ->.
    { apply Z.bits_inj'. intros k Hk. rewrite Z.land_spec, upper_bits_bits, Z.bits_0 by done.
      destruct (Z.leb_spec 48 k); [by rewrite (small_bit o 48 k)|apply andb_false_r]. }
    rewrite Z.eqb_refl. mcbn. eexists. split; [done|]. unfold deserialize. cbn [fst snd].
    replace (Z.lor o msb) with (word o 0) by (unfold word; by rewrite Z.shiftl_0_l, Z.lor_0_r).
    rewrite word_msb, word_idx, word_lower by lia. done.
  - destruct Ht as [Ho Hi]. cbn [serialize]. change (Z.shiftl 1 idx_shift) with (2 ^ 48).
    rewrite (proj2 (Z.ltb_lt o (2 ^ 48))), (proj2 (Z.ltb_lt 0 i)) by lia. mcbn. eexists. split; [done|].
    unfold deserialize. cbn [fst snd]. change (Z.lor (Z.lor o (Z.shiftl i idx_shift)) msb) with (word o i).
    rewrite word_msb, word_idx, word_lower by lia. by rewrite (proj2 (Z.ltb_lt 0 i)) by lia.
Qed.

(** * Tokens of reachable systems *)

Lemma token_fits st pid ids s0 a t : local_ok pid ids st -> 0 <= a - start s0 < 2 ^ 48 -> token_of ids st.1 s0 a = Some t -> fits t.
Proof.
  intros [Hp _ _] Ha. unfold token_of. destruct (in_primary a st.1); [intros [= <-]; cbn; lia|].
  destruct (list_find _ ids) as [[i id]|] eqn:E; [|destruct (enforce_verification _); intros [= <-]; cbn; lia].
  intros [= <-]. split; [done|]. apply list_find_Some in E as (Hi%lookup_lt_Some & _).
  pose proof (po_room _ _ _ _ Hp). pose proof (po_count _ _ _ _ Hp).
  destruct (lookup_lt_is_Some_2 ids (length ids - 1)) as [id' Hid]; [lia|].
  destruct (po_ids _ _ _ _ Hp _ _ Hid) as (s & _ & _ & Hst%lookup_lt_Some). lia.
Qed.

(** C20: turning a pointer into a token does not depend on the caches of the thread.
    There is one sequence of hashes such that, for every thread of every process, the
    token of an address of a loaded segment is an offset into the primary segment if it
    is there, an offset with the position of the segment's hash in that sequence if it
    has one, and otherwise an offset with the hash, or an exception if verification is
    enforced; an address outside of all segments stops the process. *)
Theorem tokenize_exact pid sys : reachable pid sys -> exists ids, NoDup ids /\ forall r k t a, sys !! r = Some k ->
  (forall s0, s0 ∈ loaded (proc k) -> inside a s0 -> has bad_segment s0 = false ->
     exists st', tokenize a (proc k, cache_of t k) = Ok (token_of ids (proc k) s0 a, st')) /\
  ((forall s0, s0 ∈ loaded (proc k) -> ~ start s0 <= a <= end_ s0) -> tokenize a (proc k, cache_of t k) = Aborted).
Proof.
  intros (ids & Hok)%reachable_ok. destruct sys as [|k0 sys].
  { exists []. split; [constructor|]. intros r k t a Hk. done. }
  exists ids. split; [apply (po_nodup _ _ _ _ (ro_process _ _ _ (Hok k0 ltac:(left))))|]. intros r k t a Hk.
  assert (Hl := rank_local pid ids k t (Hok k (list_elem_of_lookup_2 _ _ _ Hk))). split.
  - intros s0 H0 Ha Hb. destruct (tokenize_ok pid ids (proc k, cache_of t k) s0 a Hl H0 Ha Hb) as (st' & E & _). by exists st'.
  - intros Ha. by apply (tokenize_none pid ids).
Qed.

(** C19: a function sent to another process arrives as the same function: a token made by
    a thread of one process fits into the word and the hash that are sent, and after any
    further steps of any process (verifications, libraries loaded, other lookups) every
    thread of every process that has loaded a segment with the same hash turns it into
    the address at the same offset of that segment. *)
Theorem token_round_trip pid sys r k t a s0 tok st : reachable pid sys -> sys !! r = Some k ->
  s0 ∈ loaded (proc k) -> inside a s0 -> has bad_segment s0 = false -> a - start s0 < 2 ^ 48 ->
  tokenize a (proc k, cache_of t k) = Ok (Some tok, st) ->
  exists w, serialize tok = Ok w /\ deserialize w = Ok tok /\
    forall sys' q k' t' s1, rtc step (<[r := put_local t st k]> sys) sys' -> sys' !! q = Some k' ->
      s1 ∈ loaded (proc k') -> ident s1 = ident s0 ->
      exists st', detokenize tok (proc k', cache_of t' k') = Ok (w64 (start s1 + (a - start s0)), st').
Proof.
  intros (ids & Hok)%reachable_ok Hk H0 Ha Hb Hlt Ht.
  assert (Hl := rank_local pid ids k t (Hok k (list_elem_of_lookup_2 _ _ _ Hk))).
  destruct (tokenize_ok pid ids (proc k, cache_of t k) s0 a Hl H0 Ha Hb) as (st1 & E & _ & _). cbn [fst] in E.
  assert (Etok : token_of ids (proc k) s0 a = Some tok) by congruence.
  destruct (wire_round_trip tok) as (w & Ew & Ed).
  { eapply (token_fits (proc k, cache_of t k)); [exact Hl| |exact Etok]. destruct Ha. lia. }
  exists w. split; [done|]. split; [done|]. intros sys' q k' t' s1 Hs Hq H1 Eid.
  destruct (step_ok _ _ _ _ Hok (step_tokenize sys r k t a _ st Hk Ht)) as (ids1 & Hpre1 & Hok1).
  destruct (steps_ok _ _ _ _ Hok1 Hs) as (ids2 & Hpre2 & Hok2).
  pose proof (token_of_denotes pid ids (proc k, cache_of t k) s0 a tok Hl H0 Ha Etok) as Hd. rewrite <- Eid in Hd.
  assert (Hd2 : denotes pid ids2 tok (ident s1) (a - start s0)).
  { destruct tok as [o|o id|o i]; [exact Hd|exact Hd|]. destruct Hd as (? & ? & Hi). split_and!; [done|done|].
    eapply prefix_lookup_Some; [|exact Hpre2]. by eapply prefix_lookup_Some. }
  destruct (detokenize_ok pid ids2 (proc k', cache_of t' k') s1 tok _ (rank_local _ _ _ _ (Hok2 k' (list_elem_of_lookup_2 _ _ _ Hq))) H1 Hd2)
    as (st' & E' & _). by exists st'.
Qed.

Lemma lookup_at_idx_ok pid ids p i id : process_ok pid (fun id => id ∈ ids) ids p -> ids !! i = Some id ->
  exists s0, s0 ∈ loaded p /\ ident s0 = id /\ lookup_at_idx (Z.of_nat i + 1) p = Ok (start s0).
Proof.
  intros Hp Hi. destruct (po_ids _ _ _ _ Hp i id Hi) as (s & Hs & Es & Est).
  destruct (po_known _ _ _ _ Hp s Hs) as (s0 & H0 & Ek & _). injection Ek as E1 _ E3. exists s0. split; [done|]. split; [congruence|].
  unfold lookup_at_idx. rewrite (po_count _ _ _ _ Hp). apply lookup_lt_Some in Hi. rewrite (proj2 (Z.leb_le _ _)) by lia. mcbn.
  rewrite (proj2 (Z.leb_le _ _)) by lia. replace (Z.to_nat (Z.of_nat i + 1)) with (S i) by lia. rewrite Est. mcbn. by rewrite E1.
Qed.

(** Indices mean the same everywhere: in every reachable system all processes have
    given indices to the same hashes in the same order, each hash at most one, and have
    at each index the start of their own segment with that hash. *)
Theorem indices_agree pid sys : reachable pid sys -> exists ids, NoDup ids /\ forall k, k ∈ sys ->
  verified_segment_count (proc k) = Z.of_nat (length ids) + 1 /\
  forall i id, ids !! i = Some id ->
    exists s0, s0 ∈ loaded (proc k) /\ ident s0 = id /\ lookup_at_idx (Z.of_nat i + 1) (proc k) = Ok (start s0).
Proof.
  intros (ids & Hok)%reachable_ok. destruct sys as [|k0 sys].
  { exists []. split; [constructor|]. by intros k ?%elem_of_nil. }
  exists ids. split; [apply (po_nodup _ _ _ _ (ro_process _ _ _ (Hok k0 ltac:(left))))|]. intros k Hk.
  pose proof (ro_process _ _ _ (Hok k Hk)) as Hp. split; [apply Hp|]. intros i id. by apply lookup_at_idx_ok with (1 := Hp).
Qed.

(** C21: [verify_segment] is collective: all processes return or all throw.  They return
    exactly when their pointers are in segments with one hash, and then that hash has the
    same index everywhere. *)
Theorem verify_segment_agrees pid sys ptrs cs out : reachable pid sys -> sys <> [] -> length ptrs = length sys ->
  contributions ptrs (proc <$> sys) = Ok cs -> one_function cs -> verify_segment ptrs (proc <$> sys) = Ok out ->
  length out = length sys /\
  ((exists h i, (forall x, x ∈ cs -> x.1 = h) /\ (forall x, x ∈ out -> x.1 = true) /\
      forall x, x ∈ out -> exists s0, s0 ∈ loaded x.2 /\ ident s0 = h /\ lookup_at_idx i x.2 = Ok (start s0)) \/
   ~ (exists h, h <> 0 /\ forall x, x ∈ cs -> x.1 = h) /\ forall x, x ∈ out -> x.1 = false).
Proof.
  intros (ids & Hok)%reachable_ok Hne Hlen Hcs Hone Hout.
  destruct (verify_segment_ok _ _ _ _ _ _ Hok Hlen Hne Hcs Hone Hout) as (ids' & _ & Hall & Hcase).
  split; [symmetry; by eapply Forall2_length|]. destruct Hcase as [(h & _ & Hin & Hc & Ht)|(_ & Hn & Hf)]; [|by right].
  left. apply list_elem_of_lookup in Hin as [i Hi]. exists h, (Z.of_nat i + 1). split_and!; [done|done|].
  intros x [j Hj]%list_elem_of_lookup. destruct (Forall2_lookup_r _ _ _ _ _ Hall Hj) as (k & _ & Hp & _).
  by apply lookup_at_idx_ok with (1 := Hp).
Qed.

(** After [verify_all], exactly the hashes of segments that every process has loaded have an
    index, the same one everywhere. *)
Theorem verify_all_exact pid sys out : reachable pid sys -> sys <> [] -> verify_all (proc <$> sys) = Ok out ->
  exists ids, NoDup ids /\ (forall id, id ∈ ids <-> forall k, k ∈ sys -> id ∈ ident <$> loaded (proc k)) /\
    length out = length sys /\
    forall p i id, p ∈ out -> ids !! i = Some id ->
      exists s0, s0 ∈ loaded p /\ ident s0 = id /\ lookup_at_idx (Z.of_nat i + 1) p = Ok (start s0).
Proof.
  intros (ids0 & Hok)%reachable_ok Hne Hout. destruct (verify_all_ok _ _ _ _ Hok Hout) as (ids & _ & Hall & Hex).
  assert (Hp : forall p, p ∈ out -> process_ok pid (fun id => id ∈ ids) ids p).
  { intros p [j Hj]%list_elem_of_lookup. by destruct (Forall2_lookup_r _ _ _ _ _ Hall Hj) as (k & _ & ? & _). }
  exists ids. split_and!.
  - destruct sys as [|k0 sys]; [done|]. inversion Hall as [|? p ? ? [H _]]. apply (po_nodup _ _ _ _ H).
  - intros id. split; [|by apply Hex]. intros [i Hi]%list_elem_of_lookup k [j Hj]%list_elem_of_lookup.
    destruct (Forall2_lookup_l _ _ _ _ _ Hall Hj) as (p & _ & H & E & _).
    destruct (lookup_at_idx_ok _ _ _ _ _ H Hi) as (s0 & H0 & <- & _). rewrite <- E. by apply list_elem_of_fmap_2.
  - symmetry. by eapply Forall2_length.
  - intros p i id Hin. by apply lookup_at_idx_ok with (1 := Hp p Hin).
Qed.

(** * A run of two processes *)

Definition seg_at (a h f : Z) : segment_info := mk_seg a (a + 8192) h f 0.
Definition exe_at (a : Z) : segment_info := seg_at a 11 upcxx_binary.
Definition process_at (a max : Z) (l : list segment_info) : process :=
  mk_process l l (exe_at a) false 1 max (replicate (Z.to_nat max) 0) 0.
Definition world0 : list rank :=
  [mk_rank (process_at 4096 8 [exe_at 4096; seg_at 65536 22 0]) ∅;
   mk_rank (process_at 40960 8 [seg_at 73728 33 0; seg_at 106496 22 0; exe_at 40960]) ∅].

(** Rank 0 makes a token of a function of the library before it is verified ... *)
Definition outcome {A} (d : A) (x : res A) : A := match x with Ok a => a | _ => d end.
Definition rank_at (r : nat) (sys : list rank) : rank := nth r sys (mk_rank (process_at 0 0 []) ∅).
Definition local_at (r t : nat) (sys : list rank) : local := (proc (rank_at r sys), cache_of t (rank_at r sys)).
Definition after_tokenize (a : Z) (r t : nat) (sys : list rank) : local :=
  (outcome (None, local_at r t sys) (tokenize a (local_at r t sys))).2.
Definition world1 : list rank := <[0%nat := put_local 0 (after_tokenize 65600 0 0 world0) (rank_at 0 world0)]> world0.
(** ... and then all segments are verified. *)
Definition world2 : list rank := zip_with with_proc (outcome [] (verify_all (proc <$> world1))) world1.

Fixpoint wf_loadedb (l : list segment_info) : bool :=
  match l with
  | [] => true
  | s :: l => (0 <? start s) && (start s <? end_ s) && (end_ s <? w64_mod) && (idx s =? 0) && (Z.land (flags s) keepflags =? 0) &&
      forallb (fun s' => negb (ident s =? ident s') && ((end_ s <? start s') || (end_ s' <? start s))) l && wf_loadedb l
  end.

Lemma wf_loadedb_ok l : wf_loadedb l = true -> wf_loaded l.
Proof.
  induction l as [|s l IH]; cbn [wf_loadedb].
  - intros _. split; [by intros s ?%elem_of_nil|constructor|by intros s s' ?%elem_of_nil].
  - rewrite !andb_true_iff, !Z.ltb_lt, !Z.eqb_eq, forallb_forall. intros [[[[[[H1 H2] H3] H4] H5] H6] [Hs Hi Ha]%IH].
    assert (Hd : forall s', s' ∈ l -> ident s <> ident s' /\ (end_ s < start s' \/ end_ s' < start s)).
    { intros s' Hs'%list_elem_of_In. specialize (H6 s' Hs'). apply andb_prop in H6 as [H6 H7].
      apply negb_true_iff, Z.eqb_neq in H6. apply orb_prop in H7 as [H7%Z.ltb_lt|H7%Z.ltb_lt]; auto. }
    split.
    + intros s' [->|Hs']%elem_of_cons; [done|by apply Hs].
    + cbn. apply NoDup_cons. split; [|done]. intros (s' & E & Hs')%list_elem_of_fmap. by destruct (Hd s' Hs').
    + intros s1 s2 [->|Hs1]%elem_of_cons [->|Hs2]%elem_of_cons; [by left| | |by apply Ha].
      * right. by apply Hd.
      * right. destruct (Hd s1 Hs1) as [_ [|]]; auto.
Qed.

Lemma world0_initial : initial 11 world0.
Proof.
  intros k Hk. assert (H : caches k = ∅ /\ ident (primary (proc k)) = 11 /\ wf_loadedb (loaded (proc k)) = true /\
    init_process (loaded (proc k)) 0 8 false = Ok (proc k)).
  { apply elem_of_cons in Hk as [->|[->|[]%elem_of_nil]%elem_of_cons]; split_and!; vm_compute; reflexivity. }
  destruct H as (H1 & H2 & H3 & H4). split; [done|]. split; [done|]. exists (loaded (proc k)), 0, 8, false.
  split; [by apply wf_loadedb_ok|]. split; [lia|done].
Qed.

Lemma step_run1 : step world0 world1.
Proof. eapply (step_tokenize world0 0 _ 0 65600). { reflexivity. } vm_compute. reflexivity. Qed.
Lemma step_run2 : step world1 world2.
Proof. apply step_verify_all. vm_compute. reflexivity. Qed.

Lemma world0_reachable : reachable 11 world0.
Proof. exists world0. split; [apply world0_initial|apply rtc_refl]. Qed.
Lemma world2_reachable : reachable 11 world2.
Proof. exists world0. split; [apply world0_initial|]. eapply rtc_l; [apply step_run1|]. apply rtc_once, step_run2. Qed.

Lemma tokenize_exact_witness : reachable 11 world2 /\ (exists ids, NoDup ids /\ exists st',
  tokenize 65600 (local_at 0 0 world2) = Ok (token_of ids (proc (rank_at 0 world2)) (seg_at 65536 22 0) 65600, st')) /\
  tokenize 20000 (local_at 0 0 world2) = Aborted.
Proof.
  split; [apply world2_reachable|]. destruct (tokenize_exact 11 world2 world2_reachable) as (ids & Hnd & H). split.
  - exists ids. split; [done|]. destruct (H 0%nat (rank_at 0 world2) 0%nat 65600 eq_refl) as [H1 _]. apply H1; [right; left|done|done].
  - destruct (H 0%nat (rank_at 0 world2) 0%nat 20000 eq_refl) as [_ H2]. apply H2.
    intros s0 [->|[->|[]%elem_of_nil]%elem_of_cons]%elem_of_cons; cbn; lia.
Defined.

(** The token is made with the hash, arrives after the verification, and is found. *)
Lemma token_round_trip_witness : exists w, serialize (Multi 64 22) = Ok w /\ deserialize w = Ok (Multi 64 22) /\
  exists st', detokenize (Multi 64 22) (local_at 1 5 world2) = Ok (w64 (106496 + (65600 - 65536)), st').
Proof.
  destruct (token_round_trip 11 world0 0 (rank_at 0 world0) 0 65600 (seg_at 65536 22 0) (Multi 64 22) (after_tokenize 65600 0 0 world0)
    world0_reachable eq_refl) as (w & H1 & H2 & H3); [right; left|done|done|cbn; lia|vm_compute; reflexivity|].
  exists w. split; [done|]. split; [done|].
  apply (H3 world2 1%nat (rank_at 1 world2) 5%nat (seg_at 106496 22 0) (rtc_once _ _ step_run2) eq_refl); [right; left|done].
Defined.

Lemma indices_agree_witness : reachable 11 world2 /\ exists ids : list Z, NoDup ids /\ forall k, k ∈ world2 ->
  verified_segment_count (proc k) = Z.of_nat (length ids) + 1.
Proof.
  split; [apply world2_reachable|]. destruct (indices_agree 11 world2 world2_reachable) as (ids & Hnd & H). exists ids. split; [done|].
  intros k Hk. by destruct (H k Hk).
Defined.

(** Functions of the library at both ranks: both get a contribution, and both return. *)
Definition both_contribute : list (Z * process) := outcome [] (contributions [65600; 106560] (proc <$> world0)).
Definition both_verified : list (bool * process) := outcome [] (verify_segment [65600; 106560] (proc <$> world0)).

Lemma verify_segment_agrees_witness : both_contribute.*1 = [22; 22] /\ both_verified.*1 = [true; true] /\ length both_verified = length world0.
Proof.
  split; [vm_compute; reflexivity|]. split; [vm_compute; reflexivity|].
  apply (verify_segment_agrees 11 world0 [65600; 106560] both_contribute both_verified world0_reachable); [done|done|vm_compute; reflexivity| |vm_compute; reflexivity].
  left. exists 22. split; [done|]. assert (E : both_contribute.*1 = [22; 22]) by (vm_compute; reflexivity).
  intros x Hx. assert (Hin : x.1 ∈ [22; 22]) by (rewrite <- E; by apply list_elem_of_fmap_2).
  apply elem_of_cons in Hin as [->|[->|[]%elem_of_nil]%elem_of_cons]; done.
Defined.

Lemma verify_all_exact_witness : exists out, verify_all (proc <$> world0) = Ok out /\ length out = 2%nat /\ exists ids : list Z, 22 ∈ ids /\ 33 ∉ ids.
Proof.
  exists (outcome [] (verify_all (proc <$> world0))). split; [vm_compute; reflexivity|].
  destruct (verify_all_exact 11 world0 (outcome [] (verify_all (proc <$> world0))) world0_reachable) as (ids & _ & Hids & Hlen & _);
    [done|vm_compute; reflexivity|].
  split; [exact Hlen|]. exists ids. split.
  - apply Hids. intros k [->|[->|[]%elem_of_nil]%elem_of_cons]%elem_of_cons; cbn; rewrite !elem_of_cons; auto.
  - intros H. apply Hids with (k := rank_at 0 world0) in H; [|left]. cbn in H.
    apply elem_of_cons in H as [|[|[]%elem_of_nil]%elem_of_cons]; lia.
Defined.

(** * What the code does at its limits *)

(** With room for [max] indices, from 0, the [max]th verification writes after the end of
    the array: the test allows the index [max]. *)
Lemma verify_segment_overruns : verify_segment [65600; 106560] (proc <$> [mk_rank (process_at 4096 1 [exe_at 4096; seg_at 65536 22 0]) ∅;
  mk_rank (process_at 40960 1 [exe_at 40960; seg_at 106496 22 0]) ∅]) = Undef.
Proof. vm_compute. reflexivity. Qed.

(** When all indices are in use, [verify_all] reads after the end of the array. *)
Lemma verify_all_overreads : verify_all [process_at 4096 1 [exe_at 4096]] = Undef.
Proof. vm_compute. reflexivity. Qed.

(** Rank 1 loads a copy of the library, and both ranks load another one.  The rebuilt
    table takes the copy for verified, so that it gets an index at rank 1 alone, and the
    function at offset 64 of the other library, sent from rank 0, arrives as an address
    in the copy. *)
Definition world3 : list rank :=
  [with_proc (set_loaded (loaded (proc (rank_at 0 world2)) ++ [seg_at 200704 44 0]) (proc (rank_at 0 world2))) (rank_at 0 world2);
   with_proc (set_loaded (loaded (proc (rank_at 1 world2)) ++ [seg_at 303104 22 0; seg_at 401408 44 0]) (proc (rank_at 1 world2))) (rank_at 1 world2)].
Definition world4 : list rank := zip_with with_proc (outcome [] (verify_all (proc <$> world3))) world3.

Lemma duplicate_breaks_indices :
  (outcome (None, local_at 0 0 world4) (tokenize 200768 (local_at 0 0 world4))).1 = Some (MultiIdx 64 3) /\
  (outcome (0, local_at 1 0 world4) (detokenize (MultiIdx 64 3) (local_at 1 0 world4))).1 = 303104 + 64.
Proof. split; vm_compute; reflexivity. Qed.

(** The first byte of a segment is found in the caches and not in the table. *)
Lemma first_byte_depends_on_cache : tokenize 65536 (local_at 0 0 world0) = Aborted /\
  (outcome (None, local_at 0 0 world0) (tokenize 65536 (after_tokenize 65600 0 0 world0))).1 = Some (Multi 0 22).
Proof. split; vm_compute; reflexivity. Qed.

End Tokens.
