(* ===== verification/HandleQueue.v ===== *)
(** Callbacks that wait for communication handles: [src/backend/gasnet/handle_cb.hpp] and
    [handle_cb_queue::burst] of [src/backend/gasnet/runtime.cpp].

    A queue is a singly linked list with a pointer to the cell that holds its last null
    pointer, stored xor-ed with the address of the queue, so that zeroed memory is an
    empty queue.  [burst] tests the handles of the list in order, executes the callbacks
    whose communication is done, and gives up after a number of failures that depends on
    how often it gave up before.

    What a callback does is data here: it registers further callbacks, may put its
    successor in its own place (the source and operation callbacks of one put), and
    deletes objects.  Whether a handle is done at the time of a test is a parameter. *)
From S2P Require Import Prelude.
#[local] Open Scope Z_scope.

Module HandleQueue.

(** * The queue *)

Abbreviation addr := Z (only parsing).

(** What [execute_and_delete] does: the callbacks it registers, those given to its
    [handle_cb_successor], and the objects it deletes. *)
Record body := mk_body { registers : list addr; successor : option addr; deletes : list addr }.

(** A callback whose [next_] is 1 was never put into a queue. *)
Record handle_cb := mk_cb { next_ : addr; handle : Z; execute : body }.

(** The objects in memory, and what is observed: the callbacks executed, oldest first, and
    the number of tests made. *)
Record queue := mk_queue {
  head_ : addr; tailp_xor_head_ : Z; aborted_burst_n_ : Z;
  cbs : gmap addr handle_cb; log : list addr; clock : nat
}.

Definition not_queued : addr := 1.
Definition next_at (c : addr) : addr := c + 8.

(** [handle_cb_queue()] *)
Definition empty_queue (m : gmap addr handle_cb) : queue := mk_queue 0 0 0 m [] 0.

Definition set_next (n : addr) (x : handle_cb) : handle_cb := mk_cb n (handle x) (execute x).
Definition put (c : addr) (x : handle_cb) (q : queue) : queue :=
  mk_queue (head_ q) (tailp_xor_head_ q) (aborted_burst_n_ q) (<[c := x]> (cbs q)) (log q) (clock q).
Definition get (c : addr) (q : queue) : res handle_cb := deref (cbs q !! c).

Section queue.
(** The address of [head_], and what [gex_Event_Test] says at each test. *)
Context (self : addr) (event_done : nat -> Z -> bool).

(** Reading and writing through a [handle_cb**]. *)
Definition load (pp : addr) (q : queue) : res addr :=
  if pp =? self then Ok (head_ q) else x ← get (pp - 8) q; Ok (next_ x).
Definition store (pp v : addr) (q : queue) : res queue :=
  if pp =? self then Ok (mk_queue v (tailp_xor_head_ q) (aborted_burst_n_ q) (cbs q) (log q) (clock q))
  else x ← get (pp - 8) q; Ok (put (pp - 8) (set_next v x) q).

Definition get_tailp (q : queue) : addr := Z.lxor (tailp_xor_head_ q) self.
Definition set_tailp (tailp : addr) (q : queue) : queue :=
  mk_queue (head_ q) (Z.lxor self tailp) (aborted_burst_n_ q) (cbs q) (log q) (clock q).

Definition empty (q : queue) : bool := head_ q =? 0.

Definition enqueue (c : addr) (q : queue) : res queue :=
  x ← get c q;
  _ ← assert_that (next_ x =? not_queued);
  q ← store (get_tailp q) c (put c (set_next 0 x) q);
  Ok (set_tailp (next_at c) q).

(** [handle_cb_successor::operator()] for the cell [pp]. *)
Definition add_successor (pp c : addr) (q : queue) : res queue :=
  x ← get c q;
  if next_ x =? not_queued then
    v ← load pp q;
    let q := if v =? 0 then set_tailp (next_at c) q else q in
    store pp c (put c (set_next v x) q)
  else Ok q.

(** Calls for all elements of a list. *)
Fixpoint each (f : addr -> queue -> res queue) (l : list addr) (q : queue) : res queue :=
  match l with [] => Ok q | c :: l => q ← f c q; each f l q end.

Definition free (c : addr) (q : queue) : res queue :=
  _ ← get c q;
  Ok (mk_queue (head_ q) (tailp_xor_head_ q) (aborted_burst_n_ q) (delete c (cbs q)) (log q) (clock q)).

Definition log_execution (c : addr) (q : queue) : queue :=
  mk_queue (head_ q) (tailp_xor_head_ q) (aborted_burst_n_ q) (cbs q) (log q ++ [c]) (clock q).

Definition execute_and_delete (c pp : addr) (q : queue) : res queue :=
  x ← get c q;
  q ← each enqueue (registers (execute x)) (log_execution c q);
  q ← (match successor (execute x) with Some s => add_successor pp s q | None => Ok q end);
  each free (deletes (execute x)) q.

Definition execute_outside (c : addr) (q : queue) : res queue := execute_and_delete c (get_tailp q) q.

(** The test of the handle of [p], at this time. *)
Definition test (x : handle_cb) (q : queue) : bool * queue :=
  (event_done (clock q) (handle x),
   mk_queue (head_ q) (tailp_xor_head_ q) (aborted_burst_n_ q) (cbs q) (log q) (S (clock q))).

(** The loop of [burst]. *)
Fixpoint burst_loop (fuel : nat) (spinning : bool) (limit : Z) (pp : addr) (exec_n miss_n aborted : Z) (q : queue)
    : res (Z * Z * queue) :=
  match fuel with
  | O => Undef
  | S fuel =>
      p ← load pp q;
      if p =? 0 then Ok (exec_n, aborted, q)
      else
        x ← get p q;
        let '(ready, q) := test x q in
        if (ready : bool) then
          q ← store pp (next_ x) q;
          let q := if next_ x =? 0 then set_tailp pp q else q in
          q ← execute_and_delete p pp q;
          burst_loop fuel spinning limit pp (exec_n + 1) 0 0 q
        else if miss_n + 1 =? limit then
          Ok (exec_n, if spinning && (exec_n =? 0) then Z.min (aborted + 1) 1024 else aborted, q)
        else burst_loop fuel spinning limit (next_at p) exec_n (miss_n + 1) aborted q
  end.

Definition burst (fuel : nat) (maybe_spinning : bool) (q : queue) : res (Z * queue) :=
  let aborted := aborted_burst_n_ q in
  let n := if maybe_spinning then aborted else 0 in
  '(exec_n, aborted, q) ← burst_loop fuel maybe_spinning (4 + n) self 0 (-4 * n) aborted q;
  Ok (exec_n, mk_queue (head_ q) (tailp_xor_head_ q) aborted (cbs q) (log q) (clock q)).

End queue.

End HandleQueue.
