(* ===== verification/HandleQueueSafety.v ===== *)
(** The handle queue on pointers is a list: what its operations do to that list, and that
    no callback is lost, executed twice or used after it is deleted. *)
From S2P Require Import Prelude HandleQueue.
#[local] Open Scope Z_scope.

Module HandleSafety.
Import HandleQueue.

Definition children (x : handle_cb) : list Z := registers (execute x) ++ option_list (successor (execute x)).

(** What programs do: objects have addresses of their own; each callback is registered, or
    a successor, at one place; an object is deleted by its last callback. *)
Record wf_program (self : Z) (m : gmap Z handle_cb) : Prop := {
  wp_addr : forall c, is_Some (m !! c) -> c <> 0 /\ c <> 1 /\ next_at c <> self;
  wp_fresh : forall c x, m !! c = Some x -> next_ x = not_queued;
  wp_children : forall c x e, m !! c = Some x -> e ∈ children x -> is_Some (m !! e);
  wp_distinct : forall c x, m !! c = Some x -> NoDup (children x);
  wp_parent : forall c c' x x' e, m !! c = Some x -> m !! c' = Some x' -> e ∈ children x -> e ∈ children x' -> c = c';
  wp_deletes : forall c x d, m !! c = Some x -> d ∈ deletes (execute x) ->
    d = c \/ exists y, m !! d = Some y /\ successor (execute y) = Some c;
  wp_deletes_distinct : forall c x, m !! c = Some x -> NoDup (deletes (execute x));
  wp_source : forall c x s, m !! c = Some x -> successor (execute x) = Some s -> deletes (execute x) = []
}.

Section queue.
Context (self : Z) (event_done : nat -> Z -> bool) (m : gmap Z handle_cb) (Hwf : wf_program self m).

(** * The list *)

(** The cell after the last element of [l], which starts at the cell [pp], and the cells
    that hold the elements. *)
Definition end_cell (pp : Z) (l : list Z) : Z := foldl (fun _ c => next_at c) pp l.
Fixpoint used (pp : Z) (l : list Z) : list Z := match l with [] => [] | c :: l => pp :: used (next_at c) l end.

Fixpoint seg (q : queue) (pp : Z) (l : list Z) : Prop :=
  match l with [] => True | c :: l => load self pp q = Ok c /\ seg q (next_at c) l end.

Lemma end_cell_app pp l1 l2 : end_cell pp (l1 ++ l2) = end_cell (end_cell pp l1) l2.
Proof. apply foldl_app. Qed.

Lemma hseg_app q pp l1 l2 : seg q pp (l1 ++ l2) <-> seg q pp l1 /\ seg q (end_cell pp l1) l2.
Proof. revert pp. induction l1 as [|c l1 IH]; intros pp; cbn; [tauto|]. rewrite IH. tauto. Qed.

Lemma cells_used pp l : pp :: (next_at <$> l) = used pp l ++ [end_cell pp l].
Proof. revert pp. induction l as [|c l IH]; intros pp; [done|]. cbn. f_equal. apply (IH (next_at c)). Qed.

Lemma hseg_frame q q' pp l : seg q pp l -> (forall p, p ∈ used pp l -> load self p q' = load self p q) -> seg q' pp l.
Proof.
  revert pp. induction l as [|c l IH]; intros pp; cbn; [done|]. intros [H1 H2] Hf. split; [by rewrite Hf by left|].
  apply IH; [done|]. intros p Hp. apply Hf. by right.
Qed.

Lemma used_app pp l1 l2 : used pp (l1 ++ l2) = used pp l1 ++ used (end_cell pp l1) l2.
Proof. revert pp. induction l1 as [|c l1 IH]; intros pp; [done|]. cbn. by rewrite IH. Qed.

Lemma next_at_inj : Inj (=) (=) next_at.
Proof. intros c d. unfold next_at. lia. Qed.

Lemma cells_nodup l : NoDup l -> (forall c, c ∈ l -> is_Some (m !! c)) -> NoDup (used self l ++ [end_cell self l]).
Proof using Hwf.
  intros Hl Hm. rewrite <- cells_used. apply NoDup_cons. split.
  - intros (c & E & Hc)%list_elem_of_fmap. by destruct (wp_addr _ _ Hwf c (Hm c Hc)) as (_ & _ & []).
  - by apply (NoDup_fmap_2 _ (Inj0 := next_at_inj)).
Qed.

Lemma end_cell_elem l : end_cell self l = self \/ exists c, c ∈ l /\ end_cell self l = next_at c.
Proof.
  destruct l as [|c l _] using rev_ind; [by left|right]. exists c. rewrite end_cell_app, elem_of_app. split; [right; left|done].
Qed.

Lemma used_elem l p : p ∈ used self l -> p = self \/ exists c, c ∈ l /\ p = next_at c.
Proof.
  intros Hp. assert (Hin : p ∈ self :: (next_at <$> l)) by (rewrite cells_used, elem_of_app; by left).
  apply elem_of_cons in Hin as [->|(c & -> & Hc)%list_elem_of_fmap]; [by left|right]. by exists c.
Qed.

(** The state of a queue that holds [l]; it began with the objects [m]. *)
Record core (l : list Z) (q : queue) : Prop := {
  c_seg : seg q self l;
  c_end : load self (end_cell self l) q = Ok 0;
  c_tail : get_tailp self q = end_cell self l;
  c_nodup : NoDup (l ++ log q);
  c_cbs : forall c x, cbs q !! c = Some x -> exists x0, m !! c = Some x0 /\ handle x = handle x0 /\ execute x = execute x0 /\
    (c ∉ l ++ log q -> next_ x = not_queued);
  c_deleted : forall c x0, m !! c = Some x0 -> cbs q !! c = None ->
    c ∈ log q /\ forall s, successor (execute x0) = Some s -> s ∈ log q;
  c_known : forall c, c ∈ l ++ log q -> is_Some (m !! c)
}.

(** Callbacks that are yet to run have not handed out those they will register. *)
Record inv (l : list Z) (q : queue) : Prop := {
  i_core : core l q;
  i_later : forall c x0 e, m !! c = Some x0 -> c ∉ log q -> e ∈ children x0 -> e ∉ l ++ log q
}.

(** ** Memory *)

Lemma load_put p c x q : p <> next_at c -> load self p (put c x q) = load self p q.
Proof.
  intros Hp. unfold load. destruct (Z.eqb_spec p self); [done|]. unfold get. cbn. rewrite lookup_insert_ne; [done|].
  unfold next_at in Hp. lia.
Qed.

Lemma load_put_eq c x q : next_at c <> self -> load self (next_at c) (put c x q) = Ok (next_ x).
Proof.
  intros Hc. unfold load. rewrite (proj2 (Z.eqb_neq _ _)) by done. unfold get. cbn. replace (next_at c - 8) with c by (unfold next_at; lia).
  by rewrite lookup_insert_eq.
Qed.

Lemma load_next c x q : next_at c <> self -> cbs q !! c = Some x -> load self (next_at c) q = Ok (next_ x).
Proof.
  intros Hc Hx. unfold load. rewrite (proj2 (Z.eqb_neq _ _)) by done. unfold get. replace (next_at c - 8) with c by (unfold next_at; lia).
  by rewrite Hx.
Qed.

(** What does not change when a cell is written. *)
Definition same_rest (q q' : queue) : Prop :=
  aborted_burst_n_ q' = aborted_burst_n_ q /\ log q' = log q /\ clock q' = clock q.

Definition kept (q q' : queue) : Prop := same_rest q q' /\ forall d, is_Some (cbs q !! d) -> is_Some (cbs q' !! d).

Lemma store_ok pp v v0 q : load self pp q = Ok v0 -> exists q', store self pp v q = Ok q' /\ load self pp q' = Ok v /\
  (forall p, p <> pp -> load self p q' = load self p q) /\ tailp_xor_head_ q' = tailp_xor_head_ q /\ same_rest q q' /\
  forall d, cbs q' !! d = cbs q !! d \/ next_at d = pp /\ exists x, cbs q !! d = Some x /\ cbs q' !! d = Some (set_next v x).
Proof.
  unfold load, store. destruct (Z.eqb_spec pp self) as [->|Hne].
  - intros _. eexists. split; [done|]. split; [done|]. split.
    + intros p Hp. by rewrite (proj2 (Z.eqb_neq _ _)).
    + split_and!; try done. by left.
  - unfold get. destruct (cbs q !! (pp - 8)) as [x|] eqn:Ex; [|done]. intros _. mcbn. eexists. split; [done|].
    split; [cbn; by rewrite lookup_insert_eq|]. split.
    + intros p Hp. pose proof (load_put p (pp - 8) (set_next v x) q) as H. unfold load, get in H. apply H. unfold next_at. lia.
    + split_and!; try done. intros d. cbn. destruct (decide (d = pp - 8)) as [->|Hd].
      * right. split; [unfold next_at; lia|]. exists x. by rewrite lookup_insert_eq.
      * left. by rewrite lookup_insert_ne.
Qed.

(** ** Putting a callback into the list *)

Lemma core_alive l q c : core l q -> is_Some (m !! c) -> c ∉ l ++ log q ->
  exists x x0, cbs q !! c = Some x /\ m !! c = Some x0 /\ next_ x = not_queued.
Proof.
  intros Hq [x0 H0] Hc. destruct (cbs q !! c) as [x|] eqn:Ex.
  - exists x, x0. split_and!; [done|done|]. destruct (c_cbs _ _ Hq c x Ex) as (? & _ & _ & _ & H). by apply H.
  - destruct Hc, (c_deleted _ _ Hq c x0 H0 Ex) as [H _]. rewrite elem_of_app. by right.
Qed.

Lemma load_end l1 l2 q : core (l1 ++ l2) q -> load self (end_cell self l1) q = Ok (default 0 (head l2)).
Proof.
  intros Hq. destruct l2 as [|d l2]; cbn.
  - rewrite app_nil_r in Hq. apply Hq.
  - pose proof (c_seg _ _ Hq) as H. apply hseg_app in H as [_ H]. apply H.
Qed.

Lemma get_set_tailp t q : get_tailp self (set_tailp self t q) = t.
Proof. unfold get_tailp, set_tailp. cbn. by rewrite (Z.lxor_comm self t), Z.lxor_assoc, Z.lxor_nilpotent, Z.lxor_0_r. Qed.

(** The cell where a list is split is used by neither part. *)
Lemma core_in l q d : core l q -> d ∈ l -> d <> 0 /\ d <> 1 /\ next_at d <> self.
Proof using Hwf. intros Hq Hd. apply (wp_addr _ _ Hwf), (c_known _ _ Hq). rewrite elem_of_app. by left. Qed.

Lemma core_cells l q : core l q -> NoDup (used self l ++ [end_cell self l]).
Proof using Hwf.
  intros Hq. apply cells_nodup; [by pose proof (c_nodup _ _ Hq) as [? _]%NoDup_app|].
  intros d Hd. apply (c_known _ _ Hq). rewrite elem_of_app. by left.
Qed.

Lemma cells_before l1 l2 q p : core (l1 ++ l2) q -> p ∈ used self l1 -> p <> end_cell self l1.
Proof using Hwf.
  intros Hq Hp ->. pose proof (core_cells _ _ Hq) as H. rewrite used_app, <- app_assoc, end_cell_app in H.
  apply NoDup_app in H as (_ & H & _). apply (H _ Hp). rewrite elem_of_app. destruct l2 as [|d r]; [right; left|left; left].
Qed.

Lemma cells_after l1 d r q p : core (l1 ++ d :: r) q -> p ∈ next_at d :: used (next_at d) r ++ [end_cell (next_at d) r] -> p <> end_cell self l1.
Proof using Hwf.
  intros Hq Hp ->. pose proof (core_cells _ _ Hq) as H. rewrite used_app, <- app_assoc, end_cell_app in H.
  apply NoDup_app in H as (_ & _ & H). cbn in H. apply NoDup_cons in H as [H _]. apply H.
  apply elem_of_cons in Hp as [->|Hp]; [|done]. rewrite elem_of_app. destruct r as [|d' r]; [right; left|left; left].
Qed.

Lemma not_own_cell l q c p : core l q -> next_at c <> self -> c ∉ l -> p ∈ used self l ++ [end_cell self l] -> p <> next_at c.
Proof.
  intros Hq Hcs Hc. rewrite <- cells_used. intros [->|(d & -> & Hd)%list_elem_of_fmap]%elem_of_cons; [done|].
  by intros ->%next_at_inj.
Qed.

(** The list after one of its cells was written; [q'] is otherwise as [q]. *)
Lemma add_successor_ok before after c q : core (before ++ after) q -> is_Some (m !! c) -> c ∉ (before ++ after) ++ log q ->
  exists q', add_successor self (end_cell self before) c q = Ok q' /\ core (before ++ c :: after) q' /\ kept q q'.
Proof using Hwf.
  intros Hq Hm Hc. destruct (core_alive _ _ _ Hq Hm Hc) as (x & x0 & Hx & Hx0 & Hn).
  destruct (wp_addr _ _ Hwf c Hm) as (Hc0 & Hc1 & Hcs). unfold add_successor, get. rewrite Hx. mcbn. rewrite Hn. cbn [Z.eqb not_queued Pos.eqb].
  rewrite (load_end before after q Hq). mcbn. set (pp := end_cell self before). set (v := default 0 (head after)).
  assert (Hcl : c ∉ before ++ after) by (intros H; apply Hc; rewrite elem_of_app; by left).
  assert (Hown : forall p, p ∈ used self (before ++ after) ++ [end_cell self (before ++ after)] -> p <> next_at c)
    by (intros p; by apply (not_own_cell _ q)).
  assert (Hpp : pp <> next_at c).
  { apply Hown. rewrite used_app, end_cell_app. fold pp. rewrite !elem_of_app. destruct after; [right; left|left; right; left]. }
  set (q1 := if v =? 0 then set_tailp self (next_at c) q else q).
  assert (Hq1 : load self pp (put c (set_next v x) q1) = Ok v).
  { rewrite load_put by done. etrans; [|apply (load_end before after q Hq)]. unfold q1. by destruct (v =? 0). }
  destruct (store_ok pp c v _ Hq1) as (q' & -> & Hl1 & Hl2 & Htail & Hrest & Hcbs). exists q'. split; [done|].
  assert (Hload : forall p, p <> pp -> p <> next_at c -> load self p q' = load self p q).
  { intros p H1 H2. rewrite Hl2, load_put by done. unfold q1. by destruct (v =? 0). }
  assert (Hlc : load self (next_at c) q' = Ok v) by (rewrite Hl2 by done; by apply load_put_eq).
  assert (Hrest' : same_rest q q') by (destruct Hrest as (E1 & E2 & E3); unfold same_rest; rewrite E1, E2, E3; unfold q1; by destruct (v =? 0)).
  assert (Hlog : log q' = log q) by apply Hrest'.
  pose proof (c_seg _ _ Hq) as Hseg. apply hseg_app in Hseg as [Hs1 Hs2]. fold pp in Hs2.
  assert (Hperm : (before ++ c :: after) ++ log q ≡ₚ c :: (before ++ after) ++ log q) by (by rewrite <- !app_assoc, Permutation_middle).
  assert (Hkeep : kept q q').
  { split; [done|]. intros d [y Hd]. destruct (Hcbs d) as [E|(_ & y1 & _ & E)]; rewrite E; [|by eexists]. cbn.
    destruct (decide (d = c)) as [->|Hne]; [rewrite lookup_insert_eq; by eexists|]. rewrite lookup_insert_ne by done. unfold q1.
    destruct (v =? 0); by exists y. }
  split; [|done]. split.
  - apply hseg_app. fold pp. split; [|cbn; split; [done|]].
    + apply (hseg_frame q); [done|]. intros p Hp. apply Hload; [by apply (cells_before _ _ _ _ Hq)|].
      apply Hown. rewrite used_app, !elem_of_app. auto.
    + destruct after as [|d r]; [done|]. cbn in Hs2 |- *. split; [exact Hlc|]. apply (hseg_frame q); [apply Hs2|].
      intros p Hp. apply Hload.
      * apply (cells_after _ _ _ _ _ Hq). rewrite elem_of_cons, elem_of_app. auto.
      * apply Hown. rewrite used_app. cbn. rewrite !elem_of_app, elem_of_cons. auto.
  - rewrite end_cell_app. cbn [end_cell foldl]. fold (end_cell (next_at c) after). destruct after as [|d r]; [exact Hlc|].
    cbn [end_cell foldl]. fold (end_cell (next_at d) r). pose proof (c_end _ _ Hq) as He. rewrite end_cell_app in He. cbn in He.
    rewrite <- He. apply Hload.
    + apply (cells_after _ _ _ _ _ Hq). rewrite elem_of_cons, elem_of_app, list_elem_of_singleton. auto.
    + apply Hown. rewrite end_cell_app, elem_of_app, list_elem_of_singleton. auto.
  - unfold get_tailp. rewrite Htail. cbn [put tailp_xor_head_]. fold (get_tailp self q1). rewrite end_cell_app. cbn [end_cell foldl].
    fold (end_cell (next_at c) after). unfold q1, v. destruct after as [|d r]; cbn; [apply get_set_tailp|].
    destruct (core_in _ _ d Hq) as (Hd0 & _); [rewrite elem_of_app; right; left|]. rewrite (proj2 (Z.eqb_neq d 0)) by done.
    rewrite (c_tail _ _ Hq), end_cell_app. done.
  - rewrite Hlog, Hperm. apply NoDup_cons. split; [done|apply Hq].
  - intros d y Hy. rewrite Hlog.
    assert (Hmem : forall e, e ∈ (before ++ c :: after) ++ log q <-> e = c \/ e ∈ (before ++ after) ++ log q)
      by (intros e; by rewrite Hperm, elem_of_cons).
    assert (Ecb : forall e, e <> c -> cbs (put c (set_next v x) q1) !! e = cbs q !! e).
    { intros e He. cbn. rewrite lookup_insert_ne by done. unfold q1. by destruct (v =? 0). }
    destruct (Hcbs d) as [E|(Ed & y1 & E1 & E)].
    + rewrite Hy in E. destruct (decide (d = c)) as [->|Hne].
      * cbn in E. rewrite lookup_insert_eq in E. injection E as ->. destruct (c_cbs _ _ Hq c x Hx) as (y0 & ? & ? & ? & _).
        exists y0. split_and!; [done..|]. rewrite Hmem. naive_solver.
      * rewrite Ecb in E by done. destruct (c_cbs _ _ Hq d y (eq_sym E)) as (y0 & ? & ? & ? & Hin). exists y0.
        split_and!; [done..|]. rewrite Hmem. naive_solver.
    + assert (Hdc : d <> c) by (intros ->; by apply Hpp). rewrite Ecb in E1 by done. rewrite Hy in E. injection E as ->.
      destruct (c_cbs _ _ Hq d y1 E1) as (y0 & ? & ? & ? & _). exists y0. split_and!; [done..|]. rewrite Hmem.
      intros Hn'. destruct Hn'. right. rewrite !elem_of_app. left; left.
      destruct (end_cell_elem before) as [Eb|(e & He & Eb)].
      * by destruct (wp_addr _ _ Hwf d ltac:(by eexists)) as (_ & _ & []); rewrite Ed.
      * fold pp in Eb. rewrite Eb in Ed. by apply next_at_inj in Ed as ->.
  - intros d y0 Hy0 Hd. rewrite Hlog. apply (c_deleted _ _ Hq d y0 Hy0). destruct (Hcbs d) as [E|(_ & y & _ & E)]; [|congruence].
    rewrite E in Hd. cbn in Hd. destruct (decide (d = c)) as [->|Hne]; [by rewrite lookup_insert_eq in Hd|].
    rewrite lookup_insert_ne in Hd by done. unfold q1 in Hd. by destruct (v =? 0).
  - intros d. rewrite Hlog, Hperm, elem_of_cons. intros [->|Hd]; [done|by apply (c_known _ _ Hq)].
Qed.

Lemma put_set_tailp t c x q : put c x (set_tailp self t q) = set_tailp self t (put c x q).
Proof. done. Qed.

Lemma store_set_tailp t pp v q : store self pp v (set_tailp self t q) = (q' ← store self pp v q; Ok (set_tailp self t q')).
Proof. unfold store. destruct (pp =? self); [done|]. unfold get. cbn. by destruct (cbs q !! _). Qed.

(** At the end of the list there is nothing for a successor to come before. *)
Lemma enqueue_successor l c q : core l q -> is_Some (m !! c) -> c ∉ l ++ log q ->
  enqueue self c q = add_successor self (end_cell self l) c q.
Proof.
  intros Hq Hm Hc. destruct (core_alive _ _ _ Hq Hm Hc) as (x & x0 & Hx & Hx0 & Hn). unfold enqueue, add_successor, get.
  rewrite Hx. mcbn. rewrite Hn. cbn [not_queued Z.eqb Pos.eqb]. mcbn. rewrite (c_end _ _ Hq). mcbn. cbn [Z.eqb].
  rewrite put_set_tailp, store_set_tailp. rewrite <- (c_tail _ _ Hq). done.
Qed.

Lemma core_enqueue_ok l c q : core l q -> is_Some (m !! c) -> c ∉ l ++ log q ->
  exists q', enqueue self c q = Ok q' /\ core (l ++ [c]) q' /\ kept q q'.
Proof using Hwf.
  intros Hq Hm Hc. rewrite (enqueue_successor l) by done. apply add_successor_ok; by rewrite ?app_nil_r.
Qed.

Lemma same_rest_trans q1 q2 q3 : same_rest q1 q2 -> same_rest q2 q3 -> same_rest q1 q3.
Proof. unfold same_rest. naive_solver congruence. Qed.

Lemma kept_trans q1 q2 q3 : kept q1 q2 -> kept q2 q3 -> kept q1 q3.
Proof. intros [H1 H2] [H3 H4]. split; [by eapply same_rest_trans|]. auto. Qed.

Lemma queue_each_ok new : forall l q, core l q -> (forall c, c ∈ new -> is_Some (m !! c)) -> NoDup new ->
  (forall c, c ∈ new -> c ∉ l ++ log q) ->
  exists q', each (enqueue self) new q = Ok q' /\ core (l ++ new) q' /\ kept q q'.
Proof using Hwf.
  induction new as [|c new IH]; intros l q Hq Hm Hnd Hn; cbn [each].
  - exists q. rewrite app_nil_r. split_and!; [done|done|by split; [split_and!|]].
  - apply NoDup_cons in Hnd as [Hc Hnd]. destruct (core_enqueue_ok l c q Hq) as (q1 & -> & Hq1 & Hr1); [apply Hm; left|apply Hn; left|].
    mcbn. destruct (IH (l ++ [c]) q1 Hq1) as (q2 & -> & Hq2 & Hr2).
    + intros d Hd. apply Hm. by right.
    + done.
    + intros d Hd. pose proof Hr1 as ((_ & -> & _) & _). specialize (Hn d ltac:(by right)). rewrite !elem_of_app, list_elem_of_singleton in *.
      naive_solver.
    + exists q2. rewrite <- app_assoc in Hq2. split_and!; [done|done|by eapply kept_trans].
Qed.

(** ** Taking a callback out of the list *)

Lemma unlink_ok before c rest q : core (before ++ c :: rest) q -> exists x q1 q2,
  get c q = Ok x /\ store self (end_cell self before) (next_ x) q = Ok q1 /\
  q2 = (if next_ x =? 0 then set_tailp self (end_cell self before) q1 else q1) /\ kept q q2 /\
  get c q2 = Ok x /\ core (before ++ rest) (log_execution c q2).
Proof using Hwf.
  intros Hq. set (pp := end_cell self before). assert (Hcin : c ∈ before ++ c :: rest) by (rewrite elem_of_app; right; left).
  destruct (core_in _ _ c Hq Hcin) as (Hc0 & Hc1 & Hcs). pose proof (c_nodup _ _ Hq) as Hnd. rewrite <- app_assoc in Hnd.
  destruct (cbs q !! c) as [x|] eqn:Ex.
  2: { exfalso. destruct (c_known _ _ Hq c) as [x0 H0]; [rewrite elem_of_app; by left|].
       destruct (c_deleted _ _ Hq c x0 H0 Ex) as [Hl _]. pose proof (c_nodup _ _ Hq) as (_ & H & _)%NoDup_app. by apply (H c). }
  assert (Hnext : next_ x = default 0 (head rest)).
  { pose proof (load_next c x q Hcs Ex) as H1. pose proof (load_end (before ++ [c]) rest q) as H2. rewrite <- app_assoc, end_cell_app in H2.
    specialize (H2 Hq). cbn in H2. congruence. }
  exists x. unfold get at 1. rewrite Ex. pose proof (load_end before (c :: rest) q Hq) as Hpp. fold pp in Hpp. cbn in Hpp.
  destruct (store_ok pp (next_ x) _ q Hpp) as (q1 & Est & Hl1 & Hl2 & Htail & Hrest & Hcbs).
  set (q2 := if next_ x =? 0 then set_tailp self pp q1 else q1). exists q1, q2.
  assert (Hld : forall p, load self p (log_execution c q2) = load self p q1) by (intros p; unfold q2; by destruct (next_ x =? 0)).
  assert (Hcb2 : cbs (log_execution c q2) = cbs q1) by (unfold q2; by destruct (next_ x =? 0)).
  assert (Hr2 : same_rest q q2) by (destruct Hrest as (E1 & E2 & E3); unfold same_rest, q2; by destruct (next_ x =? 0)).
  assert (Hlog : log (log_execution c q2) = log q ++ [c]) by (cbn; by rewrite (proj1 (proj2 Hr2))).
  assert (Hperm : (before ++ rest) ++ log q ++ [c] ≡ₚ (before ++ c :: rest) ++ log q).
  { rewrite <- !app_assoc. apply Permutation_app_head. cbn. rewrite app_assoc, (Permutation_app_comm (rest ++ log q)). done. }
  assert (Hppc : pp <> next_at c) by (intros E; apply (cells_after before c rest q (next_at c) Hq); [left|done]).
  assert (Hgc : cbs q1 !! c = Some x) by (destruct (Hcbs c) as [E|[E _]]; [congruence|by destruct Hppc]).
  pose proof (c_seg _ _ Hq) as Hseg. apply hseg_app in Hseg as [Hs1 Hs2]. fold pp in Hs2. cbn in Hs2. destruct Hs2 as [_ Hs2].
  assert (Hk2 : kept q q2).
  { split; [done|]. intros d [y Hd]. change (cbs q2) with (cbs (log_execution c q2)). rewrite Hcb2.
    destruct (Hcbs d) as [E|(_ & y1 & _ & E)]; rewrite E; [by exists y|by eexists]. }
  split_and!; [done|exact Est|done|done| |].
  { unfold get. change (cbs q2) with (cbs (log_execution c q2)). by rewrite Hcb2, Hgc. }
  split.
  - apply hseg_app. split.
    + apply (hseg_frame q); [done|]. intros p Hp. rewrite Hld. apply Hl2. by apply (cells_before _ _ _ _ Hq).
    + fold pp. destruct rest as [|d r]; [done|]. cbn in Hs2, Hnext |- *. split; [by rewrite Hld, Hl1, Hnext|].
      apply (hseg_frame q); [apply Hs2|]. intros p Hp. rewrite Hld. apply Hl2. apply (cells_after _ _ _ _ _ Hq).
      cbn. rewrite !elem_of_cons, elem_of_app. auto.
  - rewrite Hld, end_cell_app. fold pp. destruct rest as [|d r]; [cbn in Hnext |- *; by rewrite Hl1, Hnext|].
    pose proof (c_end _ _ Hq) as He. rewrite end_cell_app in He. cbn in He |- *. rewrite <- He. apply Hl2.
    apply (cells_after _ _ _ _ _ Hq). cbn. rewrite !elem_of_cons, elem_of_app, list_elem_of_singleton. auto.
  - rewrite end_cell_app. fold pp. unfold get_tailp. cbn [log_execution tailp_xor_head_]. fold (get_tailp self q2). unfold q2.
    rewrite Hnext. destruct rest as [|d r]; cbn [head default Z.eqb]; [apply get_set_tailp|]. cbn [default].
    destruct (core_in _ _ d Hq) as (Hd0 & _); [rewrite elem_of_app; right; right; left|]. cbn. rewrite (proj2 (Z.eqb_neq d 0)) by done.
    unfold get_tailp. rewrite Htail. fold (get_tailp self q). by rewrite (c_tail _ _ Hq), end_cell_app.
  - rewrite Hlog, Hperm. apply Hq.
  - intros d y. rewrite Hcb2, Hlog. intros Hy.
    assert (Hmem : d ∈ (before ++ rest) ++ log q ++ [c] <-> d ∈ (before ++ c :: rest) ++ log q) by (by rewrite Hperm).
    destruct (Hcbs d) as [E|(Ed & y1 & E1 & E)].
    + rewrite Hy in E. setoid_rewrite Hmem. by apply (c_cbs _ _ Hq).
    + rewrite Hy in E. injection E as ->. destruct (c_cbs _ _ Hq d y1 E1) as (y0 & ? & ? & ? & _). exists y0. split_and!; [done..|].
      rewrite Hmem. intros Hn. destruct Hn. rewrite elem_of_app. left. rewrite elem_of_app. left.
      destruct (end_cell_elem before) as [Eb|(e & He & Eb)].
      * by destruct (wp_addr _ _ Hwf d ltac:(by eexists)) as (_ & _ & []); rewrite Ed.
      * fold pp in Eb. rewrite Eb in Ed. by apply next_at_inj in Ed as ->.
  - intros d y0 Hy0. rewrite Hcb2, Hlog. intros Hd. destruct (Hcbs d) as [E|(_ & y & _ & E)]; [|congruence]. rewrite E in Hd.
    destruct (c_deleted _ _ Hq d y0 Hy0 Hd) as [H1 H2]. split; [rewrite elem_of_app; by left|].
    intros s Hs. rewrite elem_of_app. left. by apply H2.
  - intros d. rewrite Hlog, Hperm. by apply (c_known _ _ Hq).
Qed.

(** ** Executing a callback *)

Lemma load_free p d q q' : free d q = Ok q' -> p <> next_at d -> load self p q' = load self p q.
Proof.
  unfold free, get. destruct (cbs q !! d) as [x|]; mcbn; [|done]. intros [= <-] Hp. unfold load. destruct (Z.eqb_spec p self); [done|].
  unfold get. cbn. rewrite lookup_delete_ne; [done|]. unfold next_at in Hp. lia.
Qed.

(** An object may be deleted once its callback and the successor of that have run. *)
Lemma free_ok l q d x : core l q -> cbs q !! d = Some x -> d ∈ log q -> (forall s, successor (execute x) = Some s -> s ∈ log q) ->
  exists q', free d q = Ok q' /\ core l q' /\ same_rest q q' /\ forall e, e <> d -> cbs q' !! e = cbs q !! e.
Proof using Hwf.
  intros Hq Hx Hd Hs. destruct (c_cbs _ _ Hq d x Hx) as (x0 & Hx0 & _ & Ebody & _).
  assert (Hdl : d ∉ l) by (intros H; pose proof (c_nodup _ _ Hq) as (_ & Hn & _)%NoDup_app; by apply (Hn d)).
  destruct (wp_addr _ _ Hwf d) as (_ & _ & Hds); [by eexists|].
  unfold free, get. rewrite Hx. mcbn. set (q' := mk_queue _ _ _ _ _ _). exists q'. split; [done|].
  assert (Hld : forall p, p ∈ used self l ++ [end_cell self l] -> load self p q' = load self p q).
  { intros p Hp. apply (load_free p d); [unfold free, get; by rewrite Hx|]. by apply (not_own_cell l q). }
  split; [|split; [by split_and!|intros e He; cbn; by rewrite lookup_delete_ne]]. split; cbn; try apply Hq.
  - apply (hseg_frame q); [apply Hq|]. intros p Hp. apply Hld. rewrite elem_of_app. by left.
  - rewrite Hld; [apply Hq|]. rewrite elem_of_app. right. left.
  - intros c y [_ Hy]%lookup_delete_Some. by apply (c_cbs _ _ Hq).
  - intros c y0 Hy0 [->|Hy]%lookup_delete_None; [|by apply (c_deleted _ _ Hq c y0)].
    split; [done|]. assert (y0 = x0) as -> by congruence. by rewrite <- Ebody.
Qed.

Lemma each_free_ok ds : forall l q, core l q -> NoDup ds ->
  (forall d, d ∈ ds -> d ∈ log q /\ exists x, cbs q !! d = Some x /\ forall s, successor (execute x) = Some s -> s ∈ log q) ->
  exists q', each free ds q = Ok q' /\ core l q' /\ same_rest q q'.
Proof using Hwf.
  induction ds as [|d ds IH]; intros l q Hq Hnd Hd; cbn [each].
  - exists q. split_and!; [done|done|by split_and!].
  - apply NoDup_cons in Hnd as [Hn Hnd]. destruct (Hd d ltac:(left)) as (H1 & x & Hx & Hs).
    destruct (free_ok l q d x Hq Hx H1 Hs) as (q1 & -> & Hq1 & Hr1 & Hc1). mcbn. pose proof Hr1 as (_ & El & _).
    destruct (IH l q1 Hq1 Hnd) as (q2 & -> & Hq2 & Hr2).
    + intros e He. rewrite El, Hc1 by (intros ->; done). apply Hd. by right.
    + exists q2. split_and!; [done|done|by eapply same_rest_trans].
Qed.

(** [c] has been logged, what it hands out has not been handed out. *)
Lemma run_body_ok before after c x0 x q : core (before ++ after) q -> m !! c = Some x0 -> cbs q !! c = Some x -> c ∈ log q ->
  (forall e, e ∈ children x0 -> e ∉ (before ++ after) ++ log q) ->
  (forall d y0, m !! d = Some y0 -> successor (execute y0) = Some c -> d ∈ log q) ->
  (forall d y0, m !! d = Some y0 -> cbs q !! d = None -> successor (execute y0) = Some c -> False) ->
  exists q1 q2 q3, each (enqueue self) (registers (execute x)) q = Ok q1 /\
    match successor (execute x) with Some s => add_successor self (end_cell self before) s q1 | None => Ok q1 end = Ok q2 /\
    each free (deletes (execute x)) q2 = Ok q3 /\
    core (before ++ option_list (successor (execute x)) ++ after ++ registers (execute x)) q3 /\ same_rest q q3.
Proof using Hwf.
  intros Hq Hx0 Hx Hc Hch Hsrc Halive. destruct (c_cbs _ _ Hq c x Hx) as (x0' & Hx0' & _ & Eb & _).
  assert (x0' = x0) as -> by congruence. rewrite Eb.
  pose proof (wp_distinct _ _ Hwf c x0 Hx0) as Hnd. unfold children in Hnd, Hch. apply NoDup_app in Hnd as (Hnd1 & Hnd2 & _).
  destruct (queue_each_ok (registers (execute x0)) (before ++ after) q Hq) as (q1 & E1 & Hq1 & Hr1); [|done| |].
  { intros e He. apply (wp_children _ _ Hwf c x0 e Hx0). unfold children. rewrite elem_of_app. by left. }
  { intros e He. apply Hch. rewrite elem_of_app. by left. }
  exists q1. pose proof Hr1 as ((_ & El1 & _) & _).
  assert (exists q2, match successor (execute x0) with Some s => add_successor self (end_cell self before) s q1 | None => Ok q1 end = Ok q2 /\
    core (before ++ option_list (successor (execute x0)) ++ after ++ registers (execute x0)) q2 /\ kept q q2) as (q2 & E2 & Hq2 & Hr2).
  { rewrite <- app_assoc in Hq1. destruct (successor (execute x0)) as [s|] eqn:Es; [|by exists q1].
    destruct (add_successor_ok before (after ++ registers (execute x0)) s q1 Hq1) as (q2 & -> & Hq2 & Hr2).
    - apply (wp_children _ _ Hwf c x0 s Hx0). unfold children. rewrite Es, elem_of_app. right. left.
    - rewrite El1. specialize (Hch s). rewrite !elem_of_app in *. intros H.
      destruct H as [[H|[H|H]]|H]; [apply Hch; [right; left|auto]..| |apply Hch; [right; left|auto]].
      apply (Hnd2 s H). left.
    - exists q2. split_and!; [done|done|by eapply kept_trans]. }
  exists q2. pose proof Hr2 as ((_ & El2 & _) & Hal2).
  destruct (each_free_ok (deletes (execute x0)) _ q2 Hq2) as (q3 & E3 & Hq3 & Hr3).
  - by apply (wp_deletes_distinct _ _ Hwf c x0).
  - intros d Hd. rewrite El2. assert (Hsn : successor (execute x0) = None).
    { destruct (successor (execute x0)) as [s|] eqn:Es; [|done]. rewrite (wp_source _ _ Hwf c x0 s Hx0 Es) in Hd. by apply elem_of_nil in Hd. }
    assert (Hall : d ∈ log q /\ exists y0, m !! d = Some y0 /\ forall s, successor (execute y0) = Some s -> s ∈ log q).
    { destruct (wp_deletes _ _ Hwf c x0 d Hx0 Hd) as [->|(y & Hy & Es)].
      - split; [done|]. exists x0. split; [done|]. intros s. by rewrite Hsn.
      - split; [by apply (Hsrc d y)|]. exists y. split; [done|]. intros s. rewrite Es. by intros [= <-]. }
    destruct Hall as (H1 & y0 & Hy0 & H2). split; [done|].
    assert (Hal : is_Some (cbs q !! d)).
    { destruct (wp_deletes _ _ Hwf c x0 d Hx0 Hd) as [->|(y & Hy & Es)]; [by eexists|].
      destruct (cbs q !! d) as [z|] eqn:Ez; [by eexists|]. by destruct (Halive d y Hy Ez Es). }
    destruct (Hal2 d Hal) as [z Hz]. exists z. split; [done|]. destruct (c_cbs _ _ Hq2 d z Hz) as (y1 & Hy1 & _ & -> & _).
    assert (y1 = y0) as -> by congruence. done.
  - exists q3. split_and!; [done|done|done|done|eapply same_rest_trans; [apply Hr2|done]].
Qed.

Lemma in_log_not_queued l q c : core l q -> c ∈ l -> c ∉ log q.
Proof. intros Hq Hl Hc. pose proof (c_nodup _ _ Hq) as (_ & H & _)%NoDup_app. by apply (H c). Qed.

(** What a callback hands out has been handed out by it alone. *)
Lemma later_grow l l' q q' c x0 : inv l q -> m !! c = Some x0 -> core l' q' -> log q' = log q ++ [c] ->
  (forall e, e ∈ l' ++ log q' -> e ∈ l ++ log q \/ e = c \/ e ∈ children x0) ->
  (forall d y0, m !! d = Some y0 -> d ∉ log q -> c ∉ children y0) -> inv l' q'.
Proof using Hwf.
  intros [Hq Hlater] Hx0 Hq' El Hin Hc. split; [done|]. intros d y0 e Hy0. rewrite El, not_elem_of_app, not_elem_of_cons.
  intros (Hd & Hdc & _) He Hm. rewrite <- El in Hm. destruct (Hin e Hm) as [H|[->|H]].
  - by apply (Hlater d y0 e).
  - by apply (Hc d y0).
  - by apply Hdc, (wp_parent _ _ Hwf d c y0 x0 e).
Qed.

(** A callback that is in the list runs. *)
Lemma execute_ok before c rest q : inv (before ++ c :: rest) q -> exists x x0 q1 q2 q3,
  get c q = Ok x /\ m !! c = Some x0 /\ handle x = handle x0 /\ store self (end_cell self before) (next_ x) q = Ok q1 /\
  q2 = (if next_ x =? 0 then set_tailp self (end_cell self before) q1 else q1) /\
  execute_and_delete self c (end_cell self before) q2 = Ok q3 /\
  inv (before ++ option_list (successor (execute x0)) ++ rest ++ registers (execute x0)) q3 /\
  aborted_burst_n_ q3 = aborted_burst_n_ q /\ log q3 = log q ++ [c] /\ clock q3 = clock q.
Proof using Hwf.
  intros [Hq Hlater]. destruct (unlink_ok before c rest q Hq) as (x & q1 & q2 & Hx & Est & Eq2 & [(Ha & El & Ec) Hal] & Hx2 & Hq2).
  assert (Hcin : c ∈ before ++ c :: rest) by (rewrite elem_of_app; right; left).
  assert (Hcl : c ∉ log q) by (by apply (in_log_not_queued _ _ _ Hq)).
  assert (Hgx : cbs q !! c = Some x) by (unfold get in Hx; by apply deref_ok in Hx).
  assert (Hgx2 : cbs (log_execution c q2) !! c = Some x) by (unfold get in Hx2; by apply deref_ok in Hx2).
  destruct (c_cbs _ _ Hq c x Hgx) as (x0 & Hx0 & Eh & Eb & _).
  assert (Elog : log (log_execution c q2) = log q ++ [c]) by (cbn; by rewrite El).
  destruct (run_body_ok before rest c x0 x _ Hq2 Hx0 Hgx2) as (q3 & q4 & q5 & E3 & E4 & E5 & Hq5 & Hr5).
  - rewrite Elog, elem_of_app. right. left.
  - intros e He. specialize (Hlater c x0 e Hx0 Hcl He). rewrite Elog. rewrite !elem_of_app, elem_of_cons in *. set_solver.
  - intros d y0 Hy0 Es. rewrite Elog. destruct (decide (d ∈ log q)); [rewrite elem_of_app; by left|exfalso].
    apply (Hlater d y0 c Hy0); [done|unfold children; rewrite Es, elem_of_app; right; left|]. rewrite elem_of_app. by left.
  - intros d y0 Hy0 Hn Es. destruct (cbs q !! d) as [z|] eqn:Ez.
    + destruct (Hal d) as [z' Hz']; [by eexists|]. cbn in Hn. congruence.
    + destruct (c_deleted _ _ Hq d y0 Hy0 Ez) as [_ H]. by apply Hcl, H.
  - exists x, x0, q1, q2, q5. destruct Hr5 as (E6 & E7 & E8). rewrite Eb in E3, E4, E5, Hq5. split_and!; try done.
    + unfold execute_and_delete. rewrite Hx2. mcbn. rewrite Eb, E3. mcbn. rewrite E4. mcbn. done.
    + apply (later_grow (before ++ c :: rest) _ q q5 c x0); [by split|done|done|by rewrite E7| |].
      * intros e. rewrite E7, Elog. unfold children. rewrite !elem_of_app, elem_of_cons. set_solver.
      * intros d y0 Hy0 Hd Hc. apply (Hlater d y0 c Hy0 Hd Hc). rewrite elem_of_app. by left.
    + cbn in E6. congruence.
    + by rewrite E7.
    + cbn in E8. congruence.
Qed.

(** Callbacks that no other one hands out are for the user to register or to execute. *)
Definition root (c : Z) : Prop := is_Some (m !! c) /\ forall d y0, m !! d = Some y0 -> c ∉ children y0.

Lemma queue_callback_ok l q c : inv l q -> root c -> c ∉ l ++ log q ->
  exists q', enqueue self c q = Ok q' /\ inv (l ++ [c]) q' /\ same_rest q q'.
Proof using Hwf.
  intros [Hq Hlater] [Hm Hr] Hc. destruct (core_enqueue_ok l c q Hq Hm Hc) as (q' & E & Hq' & Hrest & _). exists q'. split_and!; [done| |done].
  split; [done|]. intros d y0 e Hy0 Hd He. pose proof Hrest as (_ & El & _). rewrite El in *.
  assert (e <> c) by (intros ->; by apply (Hr d y0)). specialize (Hlater d y0 e Hy0 Hd He).
  rewrite !elem_of_app, list_elem_of_singleton in *. naive_solver.
Qed.

Lemma outside_ok l q c x0 : inv l q -> root c -> c ∉ l ++ log q -> m !! c = Some x0 ->
  exists q', execute_outside self c q = Ok q' /\ inv (l ++ option_list (successor (execute x0)) ++ registers (execute x0)) q' /\
    log q' = log q ++ [c] /\ aborted_burst_n_ q' = aborted_burst_n_ q /\ clock q' = clock q.
Proof using Hwf.
  intros [Hq Hlater] [Hm Hr] Hc Hx0. destruct (core_alive l q c Hq Hm Hc) as (x & x0' & Hx & Hx0' & _).
  assert (x0' = x0) as -> by congruence. destruct (c_cbs _ _ Hq c x Hx) as (x0' & Hx1 & _ & Eb & _).
  assert (x0' = x0) as -> by congruence.
  assert (Hq0 : core (l ++ []) (log_execution c q)).
  { rewrite app_nil_r. split; cbn; try apply Hq.
    - apply (hseg_frame q); [apply Hq|done].
    - rewrite app_assoc. apply NoDup_app. split; [apply Hq|].
      split; [|apply NoDup_singleton]. intros e He ->%list_elem_of_singleton. done.
    - intros d y Hy. destruct (c_cbs _ _ Hq d y Hy) as (y0 & ? & ? & ? & H). exists y0. split_and!; [done..|]. intros Hd. apply H.
      intros Hin. apply Hd. rewrite app_assoc, elem_of_app. by left.
    - intros d y0 Hy0 Hd. destruct (c_deleted _ _ Hq d y0 Hy0 Hd) as [H1 H2]. split; [rewrite elem_of_app; by left|].
      intros s Hs. rewrite elem_of_app. left. by apply H2.
    - intros d. rewrite app_assoc, elem_of_app, list_elem_of_singleton. intros [Hd| ->]; [by apply (c_known _ _ Hq)|done]. }
  destruct (run_body_ok l [] c x0 x _ Hq0 Hx0 Hx) as (q3 & q4 & q5 & E3 & E4 & E5 & Hq5 & Hr5).
  - cbn. rewrite elem_of_app. right. left.
  - intros e He Hin. rewrite app_nil_r in Hin. cbn in Hin. rewrite app_assoc, elem_of_app, list_elem_of_singleton in Hin.
    destruct Hin as [Hin|Ee]; [|by subst e; apply (Hr c x0)]. apply (Hlater c x0 e Hx0); [|done|done].
    intros Hl. apply Hc. rewrite elem_of_app. by right.
  - intros d y0 Hy0 Es. exfalso. apply (Hr d y0 Hy0). unfold children. rewrite Es, elem_of_app. right. left.
  - intros d y0 Hy0 _ Es. apply (Hr d y0 Hy0). unfold children. rewrite Es, elem_of_app. right. left.
  - exists q5. destruct Hr5 as (E6 & E7 & E8). unfold execute_outside, execute_and_delete, get. rewrite Hx. mcbn. rewrite E3. mcbn.
    rewrite (c_tail _ _ Hq), E4. mcbn. rewrite Eb in E5, Hq5. cbn in Hq5. rewrite Eb. split_and!; [done| |done|done|done].
    apply (later_grow l _ q q5 c x0); [by split|done|done|by rewrite E7| |].
    + intros e. rewrite E7. cbn. unfold children. rewrite !elem_of_app, list_elem_of_singleton. tauto.
    + intros d y0 Hy0 _. by apply (Hr d).
Qed.

End queue.
End HandleSafety.
