(* ===== verification/HandleQueueBurst.v ===== *)
(** Bursts of the handle queue, and programs that use it.

    The queue on pointers refines a machine on lists: [scan] is the loop of [burst] as a
    reader would say it.  The theorems are about programs that register callbacks,
    execute some outside of the queue, and burst. *)
From S2P Require Import Prelude HandleQueue HandleQueueSafety.
#[local] Open Scope Z_scope.

Module HandleBurst.
Import HandleQueue HandleSafety.

Section machine.
Context (self : Z) (event_done : nat -> Z -> bool) (m : gmap Z handle_cb).

(** * The machine on lists *)

Record machine := mk_machine { items : list Z; ran : list Z; aborts : Z; time : nat }.

(** What remains to be seen after [c] ran: its successor takes its place, what it
    registers goes to the end. *)
Definition replaced (x : handle_cb) (rest : list Z) : list Z :=
  option_list (successor (execute x)) ++ rest ++ registers (execute x).

(** One pass: [before] was tested and is not done, [after] is still to be tested, the
    pass ends when as many tests in a row failed as [limit] says. *)
Fixpoint scan (fuel : nat) (spinning : bool) (limit : Z) (before after : list Z) (exec_n miss_n : Z) (s : machine)
    : option (Z * machine) :=
  match fuel with
  | O => None
  | S fuel =>
      match after with
      | [] => Some (exec_n, mk_machine before (ran s) (aborts s) (time s))
      | c :: rest =>
          x ← m !! c;
          if event_done (time s) (handle x) then
            scan fuel spinning limit before (replaced x rest) (exec_n + 1) 0 (mk_machine (items s) (ran s ++ [c]) 0 (S (time s)))
          else if miss_n + 1 =? limit then
            Some (exec_n, mk_machine (before ++ after) (ran s)
                   (if spinning && (exec_n =? 0) then Z.min (aborts s + 1) 1024 else aborts s) (S (time s)))
          else scan fuel spinning limit (before ++ [c]) rest exec_n (miss_n + 1) (mk_machine (items s) (ran s) (aborts s) (S (time s)))
      end
  end.

Definition scan_all (fuel : nat) (spinning : bool) (s : machine) : option (Z * machine) :=
  let n := if spinning then aborts s else 0 in
  scan fuel spinning (4 + n) [] (items s) 0 (-4 * n) s.

(** * Programs *)

Inductive op := Register (c : Z) | Outside (c : Z) | Burst (spinning : bool).

(** More than there are callbacks. *)
Definition enough : nat := S (size m).

Definition run_op (o : op) (q : queue) : res queue :=
  match o with
  | Register c => enqueue self c q
  | Outside c => execute_outside self c q
  | Burst spinning => '(_, q) ← burst self event_done enough spinning q; Ok q
  end.

Definition machine_op (o : op) (s : machine) : option machine :=
  match o with
  | Register c => Some (mk_machine (items s ++ [c]) (ran s) (aborts s) (time s))
  | Outside c =>
      x ← m !! c; Some (mk_machine (items s ++ replaced x []) (ran s ++ [c]) (aborts s) (time s))
  | Burst spinning => '(_, s) ← scan_all enough spinning s; Some s
  end.

Fixpoint run (os : list op) (q : queue) : res queue :=
  match os with [] => Ok q | o :: os => q ← run_op o q; run os q end.
Fixpoint machine_run (os : list op) (s : machine) : option machine :=
  match os with [] => Some s | o :: os => s ← machine_op o s; machine_run os s end.

(** The callbacks that a program puts in itself; it does so once for each, and leaves to
    callbacks what they hand out. *)
Definition given (os : list op) : list Z :=
  concat ((fun o => match o with Register c | Outside c => [c] | Burst _ => [] end) <$> os).
Definition wf_ops (os : list op) : Prop := NoDup (given os) /\ forall c, c ∈ given os -> root m c.

Definition start : machine := mk_machine [] [] 0 0.

(** The list that a queue holds, as the pointers have it. *)
Definition holds (q : queue) (l : list Z) : Prop :=
  seg self q self l /\ load self (end_cell self l) q = Ok 0 /\ get_tailp self q = end_cell self l.

Definition refines (q : queue) (s : machine) : Prop :=
  holds q (items s) /\ log q = ran s /\ aborted_burst_n_ q = aborts s /\ clock q = time s.

(** * Proofs *)

Context (Hwf : wf_program self m).

Definition related (q : queue) (s : machine) : Prop :=
  inv self m (items s) q /\ log q = ran s /\ aborted_burst_n_ q = aborts s /\ clock q = time s.

Lemma related_refines q s : related q s -> refines q s.
Proof. intros ([[H1 H2 H3] _] & H4 & H5 & H6). by split_and!. Qed.

Lemma inv_bound l q : inv self m l q -> (length l + length (log q) <= size m)%nat.
Proof.
  intros [Hq _]. rewrite <- length_app, <- (size_dom m), <- (size_list_to_set (C := gset Z)) by apply Hq.
  apply subseteq_size. intros c Hc%elem_of_list_to_set. by apply elem_of_dom, (c_known _ _ _ _ Hq).
Qed.

(** The test moves the clock only. *)
Lemma inv_test l x q : inv self m l q -> inv self m l (test event_done x q).2.
Proof. intros [Hq Hl]. split; [|exact Hl]. destruct Hq. split; cbn; try done. by apply (hseg_frame self q). Qed.

Lemma get_member l q c : inv self m l q -> c ∈ l -> exists x x0, get c q = Ok x /\ m !! c = Some x0 /\ handle x = handle x0.
Proof using Hwf.
  intros [Hq Hl] (b & r & ->)%list_elem_of_split. destruct (execute_ok self m Hwf b c r q) as (x & x0 & _ & _ & _ & H1 & H2 & H3 & _); [by split|].
  by exists x, x0.
Qed.

Definition set_aborted (n : Z) (q : queue) : queue :=
  mk_queue (head_ q) (tailp_xor_head_ q) n (cbs q) (log q) (clock q).

Lemma inv_aborted l n q : inv self m l q -> inv self m l (set_aborted n q).
Proof. intros [Hq Hl]. split; [|exact Hl]. destruct Hq. split; cbn; try done. by apply (hseg_frame self q). Qed.

Lemma handle_loop_ok fuel spinning limit : forall before after exec_n miss_n s q,
  inv self m (before ++ after) q -> log q = ran s -> clock q = time s ->
  (size m < fuel + length (ran s) + length before)%nat ->
  exists q' n s', scan fuel spinning limit before after exec_n miss_n s = Some (n, s') /\
    burst_loop self event_done fuel spinning limit (end_cell self before) exec_n miss_n (aborts s) q = Ok (n, aborts s', q') /\
    inv self m (items s') q' /\ log q' = ran s' /\ clock q' = time s'.
Proof using Hwf.
  induction fuel as [|fuel IH]; intros before after exec_n miss_n s q Hi El Et Hf.
  { pose proof (inv_bound _ _ Hi) as H. rewrite length_app, El in H. lia. }
  cbn [scan burst_loop]. rewrite (load_end self m before after q) by apply Hi. mcbn.
  destruct after as [|c rest]; cbn [head from_option id].
  { cbn [Z.eqb]. eexists q, exec_n, _. split; [done|]. rewrite app_nil_r in Hi. by split_and!. }
  assert (Hc : c ∈ before ++ c :: rest) by (rewrite elem_of_app; right; left).
  destruct (core_in self m Hwf _ _ c (i_core _ _ _ _ Hi) Hc) as (Hc0 & _). rewrite (proj2 (Z.eqb_neq c 0)) by done.
  destruct (get_member _ _ _ Hi Hc) as (x & x0 & Hx & Hx0 & Eh). rewrite Hx, Hx0. mcbn. cbn [mbind option_bind].
  pose proof (inv_test _ x q Hi) as Hi1. unfold test in *. cbn [snd] in Hi1. rewrite Eh, Et. rewrite Et in Hi1. destruct (event_done (time s) (handle x0)).
  - destruct (execute_ok self m Hwf before c rest _ Hi1) as (y & y0 & q1 & q2 & q3 & Hy & Hy0 & _ & Est & -> & Eex & Hi3 & _ & El3 & Et3).
    assert (y = x) as -> by (unfold get in *; cbn in Hy; congruence). assert (y0 = x0) as -> by congruence.
    rewrite Est. mcbn. rewrite Eex. mcbn.
    apply (IH before (replaced x0 rest) (exec_n + 1) 0 (mk_machine (items s) (ran s ++ [c]) 0 (S (time s))) q3); cbn [ran time].
    + exact Hi3.
    + rewrite El3. cbn. by rewrite El.
    + exact Et3.
    + rewrite length_app. cbn. lia.
  - destruct (miss_n + 1 =? limit).
    + eexists _, exec_n, _. split; [done|]. split; [done|]. by split_and!.
    + replace (next_at c) with (end_cell self (before ++ [c])) by (by rewrite end_cell_app).
      apply (IH (before ++ [c]) rest exec_n (miss_n + 1) (mk_machine (items s) (ran s) (aborts s) (S (time s)))); cbn [ran time].
      * rewrite <- app_assoc. exact Hi1.
      * done.
      * done.
      * rewrite length_app. cbn. lia.
Qed.

Lemma handle_burst_ok spinning q s : related q s -> exists n s' q', scan_all enough spinning s = Some (n, s') /\
  burst self event_done enough spinning q = Ok (n, q') /\ related q' s'.
Proof using Hwf.
  intros (Hi & El & Ea & Et). unfold scan_all, burst. rewrite Ea.
  destruct (handle_loop_ok enough spinning (4 + (if spinning then aborts s else 0)) [] (items s) 0 (-4 * (if spinning then aborts s else 0)) s q Hi El Et)
    as (q' & n & s' & E1 & E2 & Hi' & El' & Et'); [unfold enough; cbn; lia|].
  cbn [end_cell foldl] in E2. rewrite E1, E2. mcbn. exists n, s', (set_aborted (aborts s') q'). split_and!; [done|done|].
  split_and!; [by apply inv_aborted|done|done|done].
Qed.

(** ** Which callbacks have been handed out *)

Definition handed (os : list op) (rs : list Z) (c : Z) : Prop :=
  c ∈ given os \/ exists d x, d ∈ rs /\ m !! d = Some x /\ c ∈ children x.

Lemma handed_run os rs c x e : m !! c = Some x -> handed os (rs ++ [c]) e <-> handed os rs e \/ e ∈ children x.
Proof.
  intros Hx. unfold handed. setoid_rewrite elem_of_app. setoid_rewrite list_elem_of_singleton. split.
  - intros [H|(d & y & [Hd| ->] & Hy & He)]; [by left; left|left; right; eauto|]. right. congruence.
  - intros [[H|(d & y & Hd & Hy & He)]|He]; [by left|right; exists d, y; auto|right; exists c, x; auto].
Qed.

Definition exact (os : list op) (l rs : list Z) : Prop := forall c, c ∈ l ++ rs <-> handed os rs c.

Lemma exact_run os l l' rs c x : m !! c = Some x -> exact os l rs -> (forall e, e ∈ l' \/ e = c <-> e ∈ l \/ e ∈ children x) ->
  exact os l' (rs ++ [c]).
Proof.
  intros Hx H Hl e. rewrite (handed_run _ _ c x e Hx), <- (H e), !elem_of_app, list_elem_of_singleton. specialize (Hl e). tauto.
Qed.

Lemma scan_exact os spinning limit fuel : forall before after exec_n miss_n s n s', exact os (before ++ after) (ran s) ->
  scan fuel spinning limit before after exec_n miss_n s = Some (n, s') -> exact os (items s') (ran s').
Proof.
  induction fuel as [|fuel IH]; intros before after exec_n miss_n s n s' H; cbn [scan]; [done|]. destruct after as [|c rest].
  { intros [= <- <-]. by rewrite app_nil_r in H. }
  destruct (m !! c) as [x|] eqn:Ex; cbn [mbind option_bind]; [|done]. destruct (event_done _ _).
  - apply IH. cbn. apply (exact_run os (before ++ c :: rest) _ _ c x Ex H). intros e. unfold replaced, children.
    rewrite !elem_of_app, elem_of_cons. tauto.
  - destruct (miss_n + 1 =? limit); [by intros [= <- <-]|]. apply IH. cbn. by rewrite <- app_assoc.
Qed.

(** ** Programs *)

Lemma given_app os1 os2 : given (os1 ++ os2) = given os1 ++ given os2.
Proof. unfold given. by rewrite fmap_app, concat_app. Qed.

Lemma op_ok os o q s : related q s -> exact os (items s) (ran s) -> wf_ops (os ++ [o]) ->
  exists q' s', run_op o q = Ok q' /\ machine_op o s = Some s' /\ related q' s' /\ exact (os ++ [o]) (items s') (ran s').
Proof using Hwf.
  intros Hq Hex [Hnd Hroot]. rewrite given_app in Hnd, Hroot. pose proof Hq as (Hi & El & Ea & Et).
  assert (Hadd : forall c x, given [o] = [c] -> m !! c = Some x -> exact (os ++ [o]) (items s ++ [c]) (ran s)).
  { intros c x Ho _ e. specialize (Hex e). unfold handed in *. rewrite given_app, Ho. rewrite !elem_of_app, list_elem_of_singleton in *. tauto. }
  assert (Hnew : forall c, given [o] = [c] -> root m c /\ c ∉ items s ++ log q).
  { intros c Ho. rewrite Ho in *. assert (Hr : root m c) by (apply Hroot; rewrite elem_of_app; right; left). split; [done|].
    rewrite El. intros [H|(d & x & _ & Hx & Hc)]%Hex; [|by apply (proj2 Hr d x)].
    apply NoDup_app in Hnd as (_ & Hn & _). apply (Hn c H). left. }
  destruct o as [c|c|spinning]; cbn [run_op machine_op].
  - destruct (Hnew c eq_refl) as [Hr Hc]. destruct (proj1 Hr) as [x Hx].
    destruct (queue_callback_ok self m Hwf _ q c Hi Hr Hc) as (q' & -> & Hi' & Hr1 & Hr2 & Hr3).
    eexists q', _. split_and!; [done|done|split_and!; cbn; [done|congruence..]|]. by apply (Hadd c x).
  - destruct (Hnew c eq_refl) as [Hr Hc]. destruct (proj1 Hr) as [x Hx]. rewrite Hx. cbn [mbind option_bind].
    destruct (outside_ok self m Hwf _ q c x Hi Hr Hc Hx) as (q' & -> & Hi' & E1 & E2 & E3).
    eexists q', _. split_and!; [done|done|split_and!; cbn; [exact Hi'|congruence..]|]. cbn.
    apply (exact_run _ (items s ++ [c]) _ _ c x Hx); [by apply (Hadd c x)|]. intros e. unfold replaced, children.
    rewrite !elem_of_app, list_elem_of_singleton, elem_of_nil. tauto.
  - destruct (handle_burst_ok spinning q s Hq) as (n & s' & q' & Esc & -> & Hq'). rewrite Esc. mcbn. cbn [mbind option_bind]. eexists q', s'.
    split_and!; [done|done|done|]. unfold scan_all in *.
    assert (Ho : exact (os ++ [Burst spinning]) (items s) (ran s)).
    { intros e. specialize (Hex e). unfold handed in *. by rewrite given_app, app_nil_r. }
    exact (scan_exact _ _ _ _ [] (items s) _ _ s n s' Ho Esc).
Qed.

Lemma run_app os1 os2 q : run (os1 ++ os2) q = (q' ← run os1 q; run os2 q').
Proof. revert q. induction os1 as [|o os1 IH]; intros q; [done|]. cbn. destruct (run_op o q); mcbn; [apply IH|done..]. Qed.

Lemma machine_run_app os1 os2 s : machine_run (os1 ++ os2) s = (s' ← machine_run os1 s; machine_run os2 s').
Proof. revert s. induction os1 as [|o os1 IH]; intros s; [done|]. cbn. destruct (machine_op o s); cbn; [apply IH|done]. Qed.

Lemma empty_related : related (empty_queue m) start.
Proof using Hwf.
  split_and!; [|done..]. split.
  - split; cbn.
    + done.
    + unfold load. by rewrite Z.eqb_refl.
    + done.
    + constructor.
    + intros c x Hx. exists x. split_and!; try done. intros _. by apply (wp_fresh _ _ Hwf c).
    + intros c x0 H1 H2. congruence.
    + by intros c ?%elem_of_nil.
  - by intros c x e _ _ _ ?%elem_of_nil.
Qed.

Lemma programs_ok os : wf_ops os -> exists q s, run os (empty_queue m) = Ok q /\ machine_run os start = Some s /\
  related q s /\ exact os (items s) (ran s).
Proof using Hwf.
  induction os as [|o os IH] using rev_ind; intros Hos.
  - exists (empty_queue m), start. split_and!; [done|done|apply empty_related|]. intros c. unfold handed, given. cbn.
    rewrite !elem_of_nil. setoid_rewrite elem_of_nil. naive_solver.
  - destruct IH as (q & s & E1 & E2 & Hq & Hex).
    { destruct Hos as [H1 H2]. rewrite given_app in H1, H2. apply NoDup_app in H1 as (H1 & _). split; [done|].
      intros c Hc. apply H2. rewrite elem_of_app. by left. }
    destruct (op_ok os o q s Hq Hex Hos) as (q' & s' & E3 & E4 & Hq' & Hex'). exists q', s'.
    rewrite run_app, machine_run_app, E1, E2. mcbn. cbn [mbind option_bind run machine_run]. rewrite E3, E4. by split_and!.
Qed.

(** ** Tests *)

(** What runs in a pass was done when it was tested. *)
Lemma scan_done spinning limit fuel : forall before after exec_n miss_n s n s',
  scan fuel spinning limit before after exec_n miss_n s = Some (n, s') ->
  (time s <= time s')%nat /\ exists l, ran s' = ran s ++ l /\
    forall c x, c ∈ l -> m !! c = Some x -> exists t, (time s <= t < time s')%nat /\ event_done t (handle x) = true.
Proof.
  induction fuel as [|fuel IH]; intros before after exec_n miss_n s n s'; cbn [scan]; [done|]. destruct after as [|c rest].
  { intros [= <- <-]. split; [done|]. exists []. rewrite app_nil_r. split; [done|]. by intros c x ?%elem_of_nil. }
  destruct (m !! c) as [x|] eqn:Ex; cbn [mbind option_bind]; [|done]. destruct (event_done _ _) eqn:Ed.
  - intros (Ht & l & El & Hl)%IH. cbn [time ran] in *. split; [lia|]. exists (c :: l). split; [by rewrite El, <- app_assoc|].
    intros d y [->|Hd]%elem_of_cons Hy.
    + assert (y = x) as -> by congruence. exists (time s). split; [lia|done].
    + destruct (Hl d y Hd Hy) as (t & ? & ?). exists t. split; [lia|done].
  - destruct (miss_n + 1 =? limit).
    + intros [= <- <-]. split; [cbn; lia|]. exists []. rewrite app_nil_r. split; [done|]. by intros ? ? ?%elem_of_nil.
    + intros (Ht & l & El & Hl)%IH. cbn [time ran] in *. split; [lia|]. exists l. split; [done|]. intros d y Hd Hy.
      destruct (Hl d y Hd Hy) as (t & ? & ?). exists t. split; [lia|done].
Qed.

Definition tested (os : list op) (s : machine) : Prop := forall c x, c ∈ ran s -> m !! c = Some x ->
  Outside c ∈ os \/ exists t, (t < time s)%nat /\ event_done t (handle x) = true.

Lemma machine_tested os s : machine_run os start = Some s -> tested os s.
Proof.
  revert s. induction os as [|o os IH] using rev_ind; intros s; [intros [= <-]; by intros c x ?%elem_of_nil|].
  rewrite machine_run_app. destruct (machine_run os start) as [s1|]; cbn [mbind option_bind machine_run]; [|done].
  specialize (IH s1 eq_refl). intros H. assert (Hold : forall c x, c ∈ ran s1 -> m !! c = Some x -> (time s1 <= time s)%nat ->
    Outside c ∈ os ++ [o] \/ exists t, (t < time s)%nat /\ event_done t (handle x) = true).
  { intros c x Hc Hx Ht. destruct (IH c x Hc Hx) as [?|(t & ? & ?)]; [left; rewrite elem_of_app; by left|right; exists t; split; [lia|done]]. }
  destruct o as [c0|c0|spinning]; cbn [machine_op] in H.
  - injection H as <-. intros c x Hc Hx. by apply Hold.
  - destruct (m !! c0) as [x0|] eqn:Ex0; [|done]. cbn in H. injection H as <-. intros c x Hc Hx. cbn in Hc.
    rewrite elem_of_app, list_elem_of_singleton in Hc. destruct Hc as [Hc| ->]; [by apply Hold|]. left. rewrite elem_of_app. right. left.
  - unfold scan_all in H. destruct (scan _ _ _ _ _ _ _ _) as [[n s2]|] eqn:Es; [|done]. cbn in H. injection H as <-.
    destruct (scan_done _ _ _ _ _ _ _ _ _ _ Es) as (Ht & l & El & Hl). intros c x Hc Hx. rewrite El, elem_of_app in Hc.
    destruct Hc as [Hc|Hc]; [by apply Hold|]. right. destruct (Hl c x Hc Hx) as (t & ? & ?). exists t. split; [lia|done].
Qed.

(** ** Spinning *)

(** A pass finds what is done at [i], or something else, unless it gives up before. *)
Lemma scan_spin limit c x i fuel : forall before after miss_n s n s' , m !! c = Some x ->
  (forall t, (time s <= t)%nat -> event_done t (handle x) = true) -> after !! i = Some c -> miss_n < limit ->
  scan fuel true limit before after 0 miss_n s = Some (n, s') -> ran s' = ran s ->
  limit - miss_n <= Z.of_nat i /\ items s' = before ++ after /\ aborts s' = Z.min (aborts s + 1) 1024.
Proof.
  revert i. induction fuel as [|fuel IH]; intros i before after miss_n s n s' Hx Hdone Hi Hlim; cbn [scan]; [done|].
  destruct after as [|c0 rest]; [done|].
  destruct (m !! c0) as [x0|] eqn:Ex0; cbn [mbind option_bind]; [|done]. destruct (event_done _ _) eqn:Ed.
  - intros Hs Er. exfalso. apply scan_done in Hs as (_ & l & El & _). cbn [ran] in El. rewrite Er, <- app_assoc in El.
    apply (f_equal length) in El. rewrite !length_app in El. cbn in El. lia.
  - destruct i as [|i]; [cbn in Hi; injection Hi as ->; assert (x0 = x) as -> by congruence; by rewrite Hdone in Ed|].
    destruct (Z.eqb_spec (miss_n + 1) limit) as [E|Hne].
    + intros [= <- <-] _. cbn [items aborts]. split_and!; [lia|done|done].
    + intros Hs Er. apply (IH i) in Hs; cbn [time ran aborts] in *; try done; [|intros t Ht; apply Hdone; lia|lia].
      destruct Hs as (H1 & H2 & H3). split_and!; [lia|by rewrite H2, <- app_assoc|done].
Qed.

Lemma spins c x d : forall k s s', m !! c = Some x -> (forall t, (time s <= t)%nat -> event_done t (handle x) = true) ->
  items s !! d = Some c -> 0 <= aborts s <= 1024 -> machine_run (replicate k (Burst true)) s = Some s' ->
  (exists l, l <> [] /\ ran s' = ran s ++ l) \/
  ran s' = ran s /\ items s' = items s /\ aborts s' = Z.min (aborts s + Z.of_nat k) 1024 /\
    (k = 0%nat \/ 4 + 5 * Z.min (aborts s + Z.of_nat k - 1) 1024 <= Z.of_nat d).
Proof.
  induction k as [|k IH]; intros s s' Hx Hdone Hi Ha; cbn [replicate machine_run].
  - intros [= <-]. right. split_and!; [done|done|lia|by left].
  - cbn [machine_op]. unfold scan_all. destruct (scan _ _ _ _ _ _ _ _) as [[n s1]|] eqn:Es; cbn [mbind option_bind]; [|done].
    intros Hrun. destruct (scan_done _ _ _ _ _ _ _ _ _ _ Es) as (Ht & l & El & _).
    assert (Hmono : exists l', ran s' = ran s1 ++ l').
    { clear -Hrun. revert s1 Hrun. induction k as [|k IH]; intros s1; cbn [replicate machine_run]; [intros [= <-]; exists []; by rewrite app_nil_r|].
      cbn [machine_op]. unfold scan_all. destruct (scan _ _ _ _ _ _ _ _) as [[n s2]|] eqn:Es; cbn [mbind option_bind]; [|done].
      intros (l2 & E2)%IH. destruct (scan_done _ _ _ _ _ _ _ _ _ _ Es) as (_ & l & El & _). exists (l ++ l2). by rewrite E2, El, app_assoc. }
    destruct (decide (l = [])) as [->|Hl].
    2: { left. destruct Hmono as [l' E']. exists (l ++ l'). split; [by destruct l|]. by rewrite E', El, app_assoc. }
    rewrite app_nil_r in El. change (if true then aborts s else 0) with (aborts s) in Es.
    destruct (scan_spin (4 + aborts s) c x d _ [] (items s) (-4 * aborts s) s n s1 Hx Hdone Hi ltac:(lia) Es El) as (H1 & H2 & H3). cbn in H2.
    destruct (IH s1 s' Hx) as [(l' & Hl' & E')|(E1 & E2 & E3 & E4)]; [intros t Ht'; apply Hdone; lia|congruence|lia|done| |].
    + left. exists l'. split; [done|congruence].
    + right. split_and!; [congruence|congruence|lia|right]. destruct E4 as [->|E4]; lia.
Qed.

Lemma aborts_range os s : machine_run os start = Some s -> 0 <= aborts s <= 1024.
Proof.
  assert (Hs : forall spinning limit fuel before after exec_n miss_n s n s', 0 <= aborts s <= 1024 ->
    scan fuel spinning limit before after exec_n miss_n s = Some (n, s') -> 0 <= aborts s' <= 1024).
  { intros spinning limit fuel. induction fuel as [|fuel IH]; intros before after exec_n miss_n s0 n s' Ha; cbn [scan]; [done|].
    destruct after as [|c rest]; [by intros [= <- <-]|]. destruct (m !! c) as [x|]; cbn [mbind option_bind]; [|done].
    destruct (event_done _ _); [apply IH; cbn; lia|]. destruct (_ =? limit); [|by apply IH]. intros [= <- <-]. cbn.
    destruct (spinning && (exec_n =? 0)); lia. }
  revert s. induction os as [|o os IH] using rev_ind; intros s; [by intros [= <-]|].
  rewrite machine_run_app. destruct (machine_run os start) as [s1|]; cbn [mbind option_bind machine_run]; [|done].
  specialize (IH s1 eq_refl). destruct o as [c0|c0|spinning]; cbn [machine_op].
  - by intros [= <-].
  - destruct (m !! c0) as [x0|]; [|done]. cbn. by intros [= <-].
  - unfold scan_all. destruct (scan _ _ _ _ _ _ _ _) as [[n s2]|] eqn:Es; [|done]. cbn. intros [= <-]. by eapply Hs.
Qed.

End machine.

(** * The properties *)

(** C22: for every program that registers callbacks, executes some outside of the queue and
    bursts it, no call uses a deleted callback or fails an assertion, every burst ends, and
    the pointers hold the list that the machine computes.  Each callback that the program
    or an executed callback has handed out is executed once or still in the list; those
    that bursts executed were tested and done. *)
Theorem handle_queue_correct self event_done m os : wf_program self m -> wf_ops m os ->
  exists q s, run self event_done m os (empty_queue m) = Ok q /\ machine_run event_done m os start = Some s /\
    refines self q s /\ NoDup (items s ++ ran s) /\ (forall c, c ∈ items s ++ ran s <-> handed m os (ran s) c) /\
    forall c x, c ∈ ran s -> m !! c = Some x -> Outside c ∈ os \/ exists t, (t < time s)%nat /\ event_done t (handle x) = true.
Proof.
  intros Hwf Hos. destruct (programs_ok self event_done m Hwf os Hos) as (q & s & E1 & E2 & Hq & Hex). exists q, s.
  split_and!; [done|done|by apply (related_refines self m)| |done|by apply machine_tested].
  pose proof Hq as ([Hc _] & El & _). rewrite <- El. apply Hc.
Qed.

(** A thread that spins finds what is done.  After any program, if the callback at
    position [d] of the list, with [d] less than 5124, is done from now on, then one of the
    next [1 + (d + 1) / 5] spinning bursts executes a callback. *)
Theorem spinning_finds self event_done m os s d c x : wf_program self m -> wf_ops m os ->
  machine_run event_done m os start = Some s -> items s !! d = Some c -> m !! c = Some x -> Z.of_nat d < 5124 ->
  (forall t, (time s <= t)%nat -> event_done t (handle x) = true) ->
  exists q l, run self event_done m (os ++ replicate (S ((d + 1) / 5)) (Burst true)) (empty_queue m) = Ok q /\
    l <> [] /\ log q = ran s ++ l.
Proof.
  intros Hwf [Hnd Hroot] Hs Hi Hx Hd Hdone. set (k := S ((d + 1) / 5)).
  assert (Hos : wf_ops m (os ++ replicate k (Burst true))).
  { assert (E : given (os ++ replicate k (Burst true)) = given os).
    { rewrite given_app. clear. induction k as [|k IH]; [apply app_nil_r|exact IH]. }
    split; rewrite E; done. }
  destruct (programs_ok self event_done m Hwf _ Hos) as (q & s' & E1 & E2 & (_ & El & _) & _).
  rewrite machine_run_app, Hs in E2. cbn [mbind option_bind] in E2. pose proof (aborts_range event_done m os s Hs) as Ha.
  destruct (spins event_done m c x d k s s' Hx Hdone Hi Ha E2) as [(l & Hl & E)|(_ & _ & _ & H)].
  - exists q, l. split_and!; [done|done|congruence].
  - exfalso. destruct H as [H|H]; [done|]. unfold k in H. pose proof (Nat.div_mod (d + 1) 5 ltac:(lia)).
    pose proof (Nat.mod_upper_bound (d + 1) 5 ltac:(lia)). lia.
Qed.

(** * A program

    A put with a source and an operation callback (32 and 48), a callback that registers
    another one (64 and 80), and a third (16). *)
Definition op_cb (c : Z) (new ds : list Z) : handle_cb := mk_cb not_queued c (mk_body new None ds).
Definition objects : list (Z * handle_cb) :=
  [(16, op_cb 16 [] [16]); (32, mk_cb not_queued 32 (mk_body [] (Some 48) [])); (48, op_cb 48 [] [32; 48]);
   (64, op_cb 64 [80] [64]); (80, op_cb 80 [] [80])].
Definition memory : gmap Z handle_cb := list_to_map objects.
Definition program : list op := [Register 16; Register 32; Burst false; Outside 64; Burst true].
(** 16 is done late, the others at once. *)
Definition done_at (t : nat) (h : Z) : bool := negb (h =? 16) || (5 <=? t)%nat.

Lemma memory_cases c x : memory !! c = Some x -> (c, x) ∈ objects.
Proof. apply elem_of_list_to_map_2. Qed.

Ltac each_object H := apply memory_cases in H; repeat (apply elem_of_cons in H as [H|H]; [injection H as -> ->|]);
  [..|by apply elem_of_nil in H].

Lemma memory_wf : wf_program 1000 memory.
Proof.
  split.
  - intros c [x H]. each_object H; unfold next_at; lia.
  - intros c x H. by each_object H.
  - intros c x e H He. each_object H; cbn in He; repeat (apply elem_of_cons in He as [->|He]; [by eexists|]); by apply elem_of_nil in He.
  - intros c x H. each_object H; cbn; repeat constructor; by intros ?%elem_of_nil.
  - intros c c' x x' e H H' He He'. each_object H; cbn in He; (try by apply elem_of_nil in He); apply elem_of_cons in He as [->|He]; 
      (try by apply elem_of_nil in He); each_object H'; cbn in He'; (try by apply elem_of_nil in He'); try done;
      apply elem_of_cons in He' as [He'|He']; (done || by apply elem_of_nil in He').
  - intros c x d H Hd. each_object H; cbn in Hd; repeat (apply elem_of_cons in Hd as [->|Hd]; [by (left + (right; eexists; split; [reflexivity|]))|]);
      by apply elem_of_nil in Hd.
  - intros c x H. each_object H; cbn; repeat constructor; rewrite ?elem_of_cons, ?elem_of_nil; lia.
  - intros c x s H. by each_object H.
Qed.

Lemma memory_root c : c ∈ [16; 32; 64] -> root memory c.
Proof.
  intros Hc. split; [|intros d y Hd He].
  - repeat (apply elem_of_cons in Hc as [->|Hc]; [by eexists|]). by apply elem_of_nil in Hc.
  - each_object Hd; cbn in He; repeat (apply elem_of_cons in He as [->|He]; [set_solver|]); by apply elem_of_nil in He.
Qed.

Lemma program_wf : wf_ops memory program.
Proof. split; [|apply memory_root]. cbn. repeat constructor; rewrite ?elem_of_cons, ?elem_of_nil; lia. Qed.

Lemma handle_queue_correct_witness : exists q s, run 1000 done_at memory program (empty_queue memory) = Ok q /\
  machine_run done_at memory program start = Some s /\ NoDup (items s ++ ran s) /\ items s = [16] /\ ran s = [32; 48; 64; 80].
Proof.
  destruct (handle_queue_correct 1000 done_at memory program memory_wf program_wf) as (q & s & H1 & H2 & _ & H3 & _).
  exists q, s. split_and!; [done|done|done|..]; vm_compute in H2; by injection H2 as <-.
Defined.

Lemma spinning_finds_witness : exists q l, run 1000 done_at memory (program ++ [Burst true]) (empty_queue memory) = Ok q /\
  l <> [] /\ log q = [32; 48; 64; 80] ++ l.
Proof.
  destruct (spinning_finds 1000 done_at memory program (mk_machine [16] [32; 48; 64; 80] 0 5) 0 16 (op_cb 16 [] [16]) memory_wf program_wf)
    as (q & l & H1 & H2 & H3); [vm_compute; reflexivity|reflexivity|reflexivity|lia|..].
  - cbn [time handle op_cb]. intros t Ht. unfold done_at. apply orb_true_intro. right. by apply Nat.leb_le.
  - change (replicate (S ((0 + 1) / 5)) (Burst true)) with [Burst true] in H1. exists q, l. split; [exact H1|]. by split.
Defined.

End HandleBurst.
