(* ===== verification/Progress.v ===== *)
(** [upcxx::progress] and [gasnet::after_gasnet]: [src/backend/gasnet/runtime.cpp].

    Progress polls for messages and then runs, for every persona that is active with the
    thread, the callbacks whose communication is done ([HandleQueue.v]) and the callbacks
    in its inboxes ([Persona.v]), round after round until a round runs nothing or enough
    has run.  [progress_drains] shows that it returns, and that it leaves no callback
    behind unless it has run a thousand.

    This is a build without devices.  What a callback does to personas is a parameter, as
    is what polling does; callbacks of handles are applied to the personas after the burst
    that executed them. *)
From S2P Require Import Prelude Persona PersonaScopes PersonaSystem HandleQueue HandleQueueSafety HandleQueueBurst.
#[local] Open Scope Z_scope.

Module Progress.
Import Personas Scopes PersonaSystem.

Section Layout.
Context (dp ds : tid -> addr) (master : addr) (threadmode_seq : bool).
(** [execute] and [complete] are what callbacks of inboxes and of handles do, [am_poll] is
    [gasnet_AMPoll]; the queue of the persona at [a] is at [queue_addr a] and its callbacks
    are the objects [memory a]. *)
Context (execute : lpc -> tid -> state -> res state) (complete : Z -> tid -> state -> res state) (am_poll : tid -> state -> res state).
Context (queue_addr : addr -> Z) (memory : addr -> gmap Z HandleQueue.handle_cb) (event_done : nat -> Z -> bool).

(** * Definitions *)

(** The handle queues of the personas; with one thread, there is that of the master. *)
Abbreviation queues := (gmap addr HandleQueue.queue).

Fixpoint complete_all (t : tid) (l : list Z) (st : state) : res state :=
  match l with [] => Ok st | c :: l => st ← complete c t st; complete_all t l st end.

Definition burst_handles (spinning : bool) (t : tid) (p : addr) (hs : queues) (st : state) : res (Z * queues * state) :=
  if threadmode_seq && negb (p =? master) then Ok (0, hs, st)
  else
    h ← deref (hs !! p);
    '(n, h') ← HandleQueue.burst (queue_addr p) event_done (HandleBurst.enough (memory p)) spinning h;
    st ← complete_all t (drop (length (HandleQueue.log h)) (HandleQueue.log h')) st;
    Ok (n, <[p := h']> hs, st).

(** The body of the loops over the personas. *)
Definition turn (lev : option progress_level) (t : tid) (p : addr) (acc : Z * queues) (st : state) : res (Z * queues * state) :=
  '(n1, hs, st) ← burst_handles (match lev with Some _ => true | None => false end) t p acc.2 st;
  '(n2, st) ← burst_internal execute t p st;
  match lev with
  | Some user =>
      st ← with_tls t (flip_burstable user) st;
      '(n3, st) ← burst_user execute t p st;
      st ← with_tls t (flip_burstable user) st;
      Ok (acc.1 + n1 + n2 + n3, hs, st)
  | _ => Ok (acc.1 + n1 + n2, hs, st)
  end.

(** The rounds, until one runs nothing or [limit] callbacks have run. *)
Fixpoint rounds (fuel : nat) (limit : Z) (lev : option progress_level) (t : tid) (tmp : addr) (total : Z) (hs : queues) (st : state)
    : res (Z * queues * state) :=
  match fuel with
  | O => Undef
  | S fuel =>
      '(n, hs, st) ← foreach_active_as_top dp ds (PersonaSystem.enough st) t tmp (turn lev t) (0, hs) st;
      let total := total + n in
      if (total <? limit) && negb (n =? 0) then rounds fuel limit lev t tmp total hs st else Ok (total, hs, st)
  end.

(** [do_progress<level>] *)
Definition do_progress (fuel : nat) (lev : progress_level) (t : tid) (tmp : addr) (hs : queues) (st : state) : res (Z * queues * state) :=
  x ← get_tls t st;
  if 0 <=? get_progressing x then Ok (0, hs, st)
  else
    st ← with_tls t (set_progressing (level lev)) st;
    _ ← assert_that (negb (is_burstable user x));
    st ← (match lev with user => with_tls t (flip_burstable user) st | internal => Ok st end);
    st ← am_poll t st;
    '(total, hs, st) ← rounds fuel 1000 (Some lev) t tmp 0 hs st;
    st ← (match lev with user => with_tls t (flip_burstable user) st | internal => Ok st end);
    st ← with_tls t (set_progressing (-1)) st;
    Ok (total, hs, st).

(** [after_gasnet] *)
Definition after_gasnet (fuel : nat) (t : tid) (tmp : addr) (hs : queues) (st : state) : res (Z * queues * state) :=
  x ← get_tls t st;
  if (0 <=? get_progressing x) || negb (is_burstable internal x) then Ok (0, hs, st)
  else
    st ← with_tls t (set_progressing (level internal)) st;
    '(total, hs, st) ← rounds fuel 100 None t tmp 0 hs st;
    st ← with_tls t (set_progressing (-1)) st;
    Ok (total, hs, st).

(** * What a round does *)

Section proofs.
Context (dp_inj : Inj (=) (=) dp) (ds_inj : Inj (=) (=) ds).
Context (dp_pos : forall t, dp t <> 0) (ds_pos : forall t, ds t <> 0 /\ ds t <> invalid).
Context (D : gset addr) (t : tid).
Context (Hex : forall m, call_ok D t (execute m t)) (Hcomplete : forall c, call_ok D t (complete c t)).
Context (Hmem : forall a, HandleSafety.wf_program (queue_addr a) (memory a)).

(** Queues are as programs that register callbacks and burst leave them. *)
Definition queue_ok (a : addr) (h : HandleQueue.queue) : Prop := exists s, HandleBurst.related (queue_addr a) (memory a) h s.
Definition queues_ok (hs : queues) : Prop := forall a, a ∈ D -> exists h, hs !! a = Some h /\ queue_ok a h.

Lemma complete_all_ok l st : ready D t st -> exists st', complete_all t l st = Ok st' /\ quiet st st' /\
  queues_grow (fun _ _ => False) st st' /\ (l = [] -> st' = st).
Proof using Hcomplete.
  revert st. induction l as [|c l IH]; intros st Hr; cbn [complete_all].
  { exists st. split_and!; [done|done|apply queues_grow_refl|done]. }
  destruct (Hcomplete c st (proj1 Hr) (proj2 Hr)) as (st1 & -> & Hq & Hg). mcbn.
  destruct (IH st1) as (st2 & -> & Hq2 & Hg2 & _); [by eapply ready_quiet|].
  exists st2. split_and!; [done|by etrans|by eapply queues_grow_trans|done].
Qed.

Lemma scan_count m spinning limit fuel : forall before after exec_n miss_n s n s',
  HandleBurst.scan event_done m fuel spinning limit before after exec_n miss_n s = Some (n, s') ->
  Z.of_nat (length (HandleBurst.ran s')) = Z.of_nat (length (HandleBurst.ran s)) + n - exec_n.
Proof.
  induction fuel as [|fuel IH]; intros before after exec_n miss_n s n s'; cbn [HandleBurst.scan]; [done|].
  destruct after as [|c rest]; [intros [= <- <-]; cbn; lia|]. destruct (m !! c); cbn [mbind option_bind]; [|done].
  destruct (event_done _ _).
  - intros H%IH. cbn in H. rewrite length_app in H. cbn in H. lia.
  - destruct (_ =? limit); [intros [= <- <-]; cbn; lia|]. intros H%IH. cbn in H. lia.
Qed.

Lemma burst_handles_ok spinning p hs st : ready D t st -> p ∈ D -> queues_ok hs ->
  exists n hs' st', burst_handles spinning t p hs st = Ok (n, hs', st') /\ 0 <= n /\ queues_ok hs' /\ quiet st st' /\
    queues_grow (fun _ _ => False) st st' /\ (n = 0 -> st' = st).
Proof using Hcomplete Hmem.
  intros Hr Hp Hhs. unfold burst_handles. destruct (threadmode_seq && negb (p =? master)).
  { exists 0, hs, st. split_and!; [done|done|done|done|apply queues_grow_refl|done]. }
  destruct (Hhs p Hp) as (h & Hh & s & Hs). rewrite Hh. mcbn.
  destruct (HandleBurst.handle_burst_ok (queue_addr p) event_done (memory p) (Hmem p) spinning h s Hs) as (n & s' & h' & Esc & -> & Hs'). mcbn.
  destruct (complete_all_ok (drop (length (HandleQueue.log h)) (HandleQueue.log h')) st Hr) as (st' & -> & Hq & Hg & Hn). mcbn.
  pose proof Hs as (_ & El & _). pose proof Hs' as (_ & El' & _).
  assert (Hgrow : exists l, HandleBurst.ran s' = HandleBurst.ran s ++ l)
    by (destruct (HandleBurst.scan_done _ _ _ _ _ _ _ _ _ _ _ _ Esc) as (_ & l & E & _); by exists l).
  apply scan_count in Esc. rewrite <- El, <- El' in Esc.
  assert (Hpos : 0 <= n).
  { destruct Hgrow as [l El2]. rewrite El', El2, <- El, length_app in Esc. lia. }
  exists n, (<[p := h']> hs), st'. split_and!; [done|done| |done|done|].
  - intros a Ha. destruct (decide (a = p)) as [->|Hne]; [|rewrite lookup_insert_ne by done; by apply Hhs].
    exists h'. rewrite lookup_insert_eq. split; [done|by exists s'].
  - intros ->. apply Hn. apply length_zero_iff_nil. rewrite length_drop. lia.
Qed.

(** The queues that a level serves. *)
Definition served (lev : option progress_level) (q : queue) : Prop :=
  match lev with Some user => True | _ => q = Peer internal \/ q = Self internal end.

Lemma burst_idle a q st : is_Some (personas st !! a) -> queue_at st a q = [] -> burst execute t a q max_burst st = Ok (0, st).
Proof.
  intros [p Hp] Hq. unfold queue_at in Hq. rewrite Hp in Hq. unfold burst, get_persona_at. rewrite Hp. mcbn. rewrite Hq. cbn [length].
  assert (burst_size q max_burst 0 = 0%nat) as -> by (by destruct q). cbn [take execute_all]. mcbn.
  assert (E : set_queue q [] p = p) by (rewrite <- Hq; by destruct p as [? [] [] ? ?], q as [[]|[]|]). rewrite E.
  assert (Eput : put_persona a p st = st) by (unfold put_persona; rewrite insert_id by done; by destruct st).
  rewrite Eput, Hp. mcbn. rewrite Hq. cbn [drop app]. by rewrite E, Eput.
Qed.

Lemma put_flip x st : threads st !! t = Some x -> put_tls t x (put_tls t (flip_burstable user x) st) = st.
Proof. intros Hx. unfold put_tls. cbn. rewrite insert_insert_eq, insert_id by done. by destruct st. Qed.

Lemma empty_or (l : list lpc) : l = [] \/ l <> [].
Proof. destruct l; [by left|by right]. Qed.

Lemma burst_internal_idle a st n st' : ready D t st -> is_Some (personas st !! a) -> burst_internal execute t a st = Ok (n, st') -> n = 0 ->
  st' = st /\ forall q, served None q -> queue_at st a q = [].
Proof using Hex.
  intros Hr Ha E ->. destruct (burst_internal_ok execute D t Hex a st Hr Ha) as (n & st1 & E1 & _ & _ & _ & H).
  rewrite E in E1. injection E1 as <- <-.
  assert (H1 : queue_at st a (Peer internal) = []) by (destruct (empty_or (queue_at st a (Peer internal))); [done|]; specialize (H (or_introl H0)); lia).
  assert (H2 : queue_at st a (Self internal) = []) by (destruct (empty_or (queue_at st a (Self internal))); [done|]; specialize (H (or_intror H0)); lia).
  split; [|by intros q [-> | ->]]. unfold burst_internal in E. rewrite burst_idle in E by done. revert E. mcbn. rewrite burst_idle by done. mcbn.
  by intros [= <-].
Qed.

Lemma burst_user_idle a st n st' : ready D t st -> is_Some (personas st !! a) -> burst_user execute t a st = Ok (n, st') -> n = 0 ->
  st' = st /\ queue_at st a (Peer user) = [] /\ queue_at st a (Self user) = [] /\ queue_at st a Deferred = [].
Proof using Hex.
  intros Hr Ha E ->. destruct (burst_user_ok execute D t Hex a st Hr Ha) as (n & st1 & E1 & _ & _ & _ & H).
  rewrite E in E1. injection E1 as <- <-.
  assert (Hq : forall q, q = Peer user \/ q = Self user \/ q = Deferred -> queue_at st a q = []).
  { intros q Hq. destruct (empty_or (queue_at st a q)) as [|Hne]; [done|]. exfalso.
    enough (1 <= 0) by lia. apply H. by destruct Hq as [-> |[-> | ->]]; auto. }
  split_and!; [|by apply Hq; auto..]. unfold burst_user in E. rewrite burst_idle in E by auto. revert E. mcbn. rewrite burst_idle by auto. mcbn.
  rewrite burst_idle by auto. mcbn. by intros [= <-].
Qed.

(** A turn that runs nothing finds the queues empty and changes nothing. *)
Lemma turn_ok lev p n hs st : ready D t st -> is_Some (personas st !! p) -> p ∈ D -> queues_ok hs ->
  exists n' hs' st', turn lev t p (n, hs) st = Ok (n', hs', st') /\ quiet st st' /\ n <= n' /\ queues_ok hs' /\
    (n' = n -> personas st' = personas st /\ forall q, served lev q -> queue_at st p q = []).
Proof using Hex Hcomplete Hmem.
  intros Hr Hp HpD Hhs. unfold turn. cbn [fst snd].
  destruct (burst_handles_ok (match lev with Some _ => true | None => false end) p hs st Hr HpD Hhs)
    as (n1 & hs1 & st1 & -> & Hn1 & Hhs1 & Hq1 & _ & Hz1). mcbn.
  assert (Hr1 : ready D t st1) by (by eapply ready_quiet). assert (Hp1 : is_Some (personas st1 !! p)) by (by eapply quiet_alive).
  destruct (burst_internal_ok execute D t Hex p st1 Hr1 Hp1) as (n2 & st2 & E2 & Hn2 & Hq2 & _ & _). rewrite E2. mcbn.
  pose proof (burst_internal_idle p st1 n2 st2 Hr1 Hp1 E2) as Hz2.
  assert (Hr2 : ready D t st2) by (by eapply ready_quiet). assert (Hp2 : is_Some (personas st2 !! p)) by (by eapply quiet_alive).
  assert (Hbase : n1 = 0 -> n2 = 0 -> st2 = st /\ forall q, served None q -> queue_at st p q = []).
  { intros E1' E2'. destruct (Hz2 E2') as [-> H]. by rewrite (Hz1 E1') in *. }
  assert (Hsimple : served lev = served None -> exists n' hs' st', Ok (n + n1 + n2, hs1, st2) = Ok (n', hs', st') /\ quiet st st' /\ n <= n' /\
    queues_ok hs' /\ (n' = n -> personas st' = personas st /\ forall q, served lev q -> queue_at st p q = [])).
  { intros Elev. exists (n + n1 + n2), hs1, st2. split_and!; [done|by etrans|lia|done|]. intros En. rewrite Elev.
    destruct (Hbase ltac:(lia) ltac:(lia)) as [-> H]. done. }
  destruct lev as [[]|]; [by apply Hsimple| |by apply Hsimple].
  destruct (proj1 Hr2) as [x Hx]. rewrite (with_tls_ok t _ x st2 Hx). mcbn.
  assert (Hr3 : ready D t (put_tls t (flip_burstable user x) st2)) by (split; [cbn; rewrite lookup_insert_eq; by eexists|apply Hr2]).
  destruct (burst_user_ok execute D t Hex p _ Hr3 Hp2) as (n3 & st3 & E3 & Hn3 & Hq3 & _ & _). rewrite E3. mcbn.
  pose proof (burst_user_idle p _ n3 st3 Hr3 Hp2 E3) as Hz3.
  destruct (quiet_bracket t (flip_burstable user) (flip_burstable user) x st2 st3 Hx Hq3 (flip_twice user x)) as (st4 & E4 & Hq4 & Ep4).
  rewrite E4. mcbn. exists (n + n1 + n2 + n3), hs1, st4. split_and!; [done|etrans; [exact Hq1|by etrans]|lia|done|].
  intros En. destruct (Hbase ltac:(lia) ltac:(lia)) as [Est H]. destruct (Hz3 ltac:(lia)) as (Est3 & H1 & H2 & H3).
  rewrite Ep4, Est3. cbn [personas put_tls]. split; [by rewrite Est|]. intros q _. unfold queue_at in *. cbn in H1, H2, H3. rewrite Est in *.
  destruct q as [[]|[]|]; [apply H; by left|done|apply H; by right|done|done].
Qed.

(** ** Rounds *)

(** What the traversals need, for the stack [l] of the thread. *)
Record stack_ok (l : list entry) (tmp : addr) (st : state) : Prop := {
  so_linked : linked dp ds t l st;
  so_wf : well_formed dp ds t l;
  so_length : (length l < PersonaSystem.enough st)%nat;
  so_top : exists x, threads st !! t = Some x /\ get_top_unique_scope ds t x = unique_of ds t l;
  so_alive : forall a, owned dp t l a -> is_Some (personas st !! a);
  so_tmp : scopes st !! tmp = None;
  so_dom : forall a, is_Some (personas st !! a) <-> a ∈ D
}.

Lemma quiet_dom st st' a : quiet st st' -> is_Some (personas st' !! a) <-> is_Some (personas st !! a).
Proof. intros Hq. rewrite <- (fmap_is_Some owner_xor_this (personas st' !! a)), (q_owners _ _ Hq a). apply fmap_is_Some. Qed.

Lemma stack_quiet l tmp st st' : stack_ok l tmp st -> quiet st st' -> stack_ok l tmp st'.
Proof.
  intros [H1 H2 H3 H4 H5 H6 H7] Hq. split.
  - by eapply linked_scopes; [apply Hq|].
  - done.
  - unfold PersonaSystem.enough in *. by rewrite (q_scopes _ _ Hq).
  - by rewrite (q_threads _ _ Hq).
  - intros a Ha. eapply quiet_alive; [done|]. by apply H5.
  - by rewrite (q_scopes _ _ Hq).
  - intros a. rewrite (quiet_dom _ _ a Hq). apply H7.
Qed.

Lemma stack_ready l tmp st : stack_ok l tmp st -> ready D t st.
Proof. intros Hs. destruct (so_top _ _ _ Hs) as (x & Hx & _). split; [by eexists|]. intros a. apply (so_dom _ _ _ Hs). Qed.

Lemma round_ok lev l tmp hs st : stack_ok l tmp st -> queues_ok hs ->
  exists n hs' st', foreach_active_as_top dp ds (PersonaSystem.enough st) t tmp (turn lev t) (0, hs) st = Ok (n, hs', st') /\
    quiet st st' /\ 0 <= n /\ queues_ok hs' /\
    (n = 0 -> forall a q, a ∈ uniques dp t l -> served lev q -> queue_at st' a q = []).
Proof using Hex Hcomplete Hmem ds_pos.
  intros Hs Hhs. destruct (so_top _ _ _ Hs) as (x & Hx & Htop). unfold foreach_active_as_top, get_tls. rewrite Hx. mcbn. rewrite Htop.
  set (I := fun (v : list addr) (acc : Z * queues) (per : gmap addr persona) => 0 <= acc.1 /\ (forall b, is_Some (per !! b) <-> b ∈ D) /\
    queues_ok acc.2 /\ (acc.1 = 0 -> per = personas st /\ forall a q, a ∈ v -> served lev q -> queue_at st a q = [])).
  assert (Hfn : quiet_fn t I (turn lev t)).
  { intros v p [n hs1] st1 (Hn & Hd & Hhs1 & Hz) Ht Hp Hnv. cbn [fst snd] in *.
    destruct (turn_ok lev p n hs1 st1) as (n' & hs' & st' & E & Hq & Hle & Hhs' & Hz'); [split; [done|intros a; apply Hd]|done|by apply Hd|done|].
    exists (n', hs'), st'. split; [done|]. split; [done|]. split; [cbn; lia|]. split; [intros b; rewrite (quiet_dom _ _ b Hq); apply Hd|].
    split; [done|]. cbn. intros ->. destruct (Hz ltac:(lia)) as [Eper Hv]. destruct (Hz' ltac:(lia)) as [Eper' Hp']. split; [congruence|].
    intros a q [Ha| ->%list_elem_of_singleton]%elem_of_app Hsv; [by apply Hv|]. specialize (Hp' q Hsv). unfold queue_at in *.
    by rewrite <- Eper. }
  destruct (foreach_from_ok dp ds ds_pos (turn lev t) I t tmp l Hfn (PersonaSystem.enough st) [] (0, hs) st) as ([n hs'] & st' & E & Hq & HI).
  - apply Hs.
  - split; [cbn; lia|]. split; [apply Hs|]. split; [done|]. intros _. split; [done|]. by intros a q ?%elem_of_nil.
  - apply Hs.
  - by eexists.
  - apply Hs.
  - intros e He. eapply well_formed_scope; [apply (so_wf _ _ _ Hs)|done].
  - apply Hs.
  - cbn. apply (unique_nodup dp ds). apply Hs.
  - destruct HI as (Hn & _ & Hhs' & Hz). exists n, hs', st'. split_and!; [done|done|done|done|].
    intros E0 a q Ha Hsv. destruct (Hz E0) as [Eper H]. unfold queue_at. rewrite Eper. by apply H.
Qed.

Lemma rounds_ok limit lev l tmp fuel : forall total hs st, stack_ok l tmp st -> queues_ok hs -> limit - total < Z.of_nat fuel ->
  0 <= total -> (0 < fuel)%nat ->
  exists n hs' st', rounds fuel limit lev t tmp total hs st = Ok (n, hs', st') /\ quiet st st' /\ 0 <= n /\ queues_ok hs' /\
    (n < limit -> forall a q, a ∈ uniques dp t l -> served lev q -> queue_at st' a q = []).
Proof using Hex Hcomplete Hmem ds_pos.
  induction fuel as [|fuel IH]; intros total hs st Hs Hhs Hf Ht H0; [lia|]. cbn [rounds].
  destruct (round_ok lev l tmp hs st Hs Hhs) as (n & hs1 & st1 & -> & Hq1 & Hn & Hhs1 & Hz). mcbn.
  destruct (Z.ltb_spec (total + n) limit) as [Hlt|Hge]; cbn [andb].
  - destruct (Z.eqb_spec n 0) as [->|Hne]; cbn [negb].
    + exists (total + 0), hs1, st1. split_and!; [done|done|lia|done|]. intros _. by apply Hz.
    + destruct (IH (total + n) hs1 st1) as (n' & hs' & st' & -> & Hq' & Hn' & Hhs' & Hz'); [by eapply stack_quiet|done|lia|lia|lia|].
      exists n', hs', st'. split_and!; [done|by etrans|done|done|done].
  - exists (total + n), hs1, st1. split_and!; [done|done|lia|done|]. lia.
Qed.

End proofs.

(** * The properties *)

Section properties.
Context (dp_inj : Inj (=) (=) dp) (ds_inj : Inj (=) (=) ds).
Context (dp_pos : forall t, dp t <> 0) (ds_pos : forall t, ds t <> 0 /\ ds t <> invalid).

(** The queue of a persona after some program has used it. *)
Definition used_queue (a : addr) (h : HandleQueue.queue) : Prop :=
  exists os, HandleBurst.wf_ops (memory a) os /\
    HandleBurst.run (queue_addr a) event_done (memory a) os (HandleQueue.empty_queue (memory a)) = Ok h.

Lemma used_queue_ok a h : HandleSafety.wf_program (queue_addr a) (memory a) -> used_queue a h -> queue_ok a h.
Proof.
  intros Hwf (os & Hos & E). destruct (HandleBurst.programs_ok (queue_addr a) event_done (memory a) Hwf os Hos) as (h' & s & E' & _ & Hr & _).
  exists s. congruence.
Qed.

Lemma reachable_stack st t x tmp : reachable dp ds master threadmode_seq st -> threads st !! t = Some x -> fresh_scope ds tmp st ->
  exists l, stack_ok (dom (personas st)) t l tmp st /\
    forall a p, personas st !! a = Some p -> active_with_caller dp t a p = true <-> a ∈ uniques dp t l.
Proof using dp_inj ds_inj dp_pos ds_pos.
  intros Hre Hx (Htmp & _ & _).
  destruct (thread_facts dp ds master threadmode_seq dp_inj ds_inj dp_pos ds_pos st t x Hre Hx) as (l & H1 & H2 & H3 & H4 & _ & H5 & _ & H6).
  exists l. split; [|done]. split; try done; [by exists x|]. intros a. by rewrite elem_of_dom.
Qed.

(** A change of the thread's own fields. *)
Lemma stack_tls D t l tmp st x x' : stack_ok D t l tmp st -> threads st !! t = Some x ->
  get_top_unique_scope ds t x' = get_top_unique_scope ds t x -> stack_ok D t l tmp (put_tls t x' st).
Proof.
  intros [H1 H2 H3 H4 H5 H6 H7] Hx E. split; try done.
  - exact (linked_scopes dp ds t l st (put_tls t x' st) eq_refl H1).
  - exists x'. cbn. rewrite lookup_insert_eq. split; [done|]. destruct H4 as (y & Hy & <-). congruence.
Qed.

(** C23: progress returns, and leaves nothing behind.  Called outside of progress, it ends
    within a thousand rounds, gives the scopes and the thread back as they were, and if
    it has run fewer than a thousand callbacks then no queue that its level serves has a
    callback left, at any persona that is active with the thread.  Inside of progress it
    does nothing. *)
Theorem progress_drains lev st t x tmp hs : reachable dp ds master threadmode_seq st -> threads st !! t = Some x ->
  fresh_scope ds tmp st -> is_burstable user x = false ->
  (forall m, call_ok (dom (personas st)) t (execute m t)) -> (forall c, call_ok (dom (personas st)) t (complete c t)) ->
  call_ok (dom (personas st)) t (am_poll t) -> (forall a, HandleSafety.wf_program (queue_addr a) (memory a)) ->
  (forall a, a ∈ dom (personas st) -> exists h, hs !! a = Some h /\ used_queue a h) ->
  exists n hs' st', do_progress 1001 lev t tmp hs st = Ok (n, hs', st') /\
    (0 <= get_progressing x -> n = 0 /\ hs' = hs /\ st' = st) /\
    (get_progressing x = -1 -> quiet st st' /\ 0 <= n /\
      (n < 1000 -> forall a p q, personas st' !! a = Some p -> active_with_caller dp t a p = true -> served (Some lev) q -> get_queue q p = [])).
Proof using dp_inj ds_inj dp_pos ds_pos.
  intros Hre Hx Hf Hbu Hex Hco Ham Hwf Hhs. unfold do_progress, get_tls. rewrite Hx. mcbn.
  destruct (Z.leb_spec 0 (get_progressing x)) as [Hpr|Hpr].
  { exists 0, hs, st. split_and!; [done|done|lia]. }
  rewrite (with_tls_ok t _ x st Hx). mcbn. rewrite Hbu. cbn [negb]. mcbn.
  set (x1 := set_progressing (level lev) x). set (st1 := put_tls t x1 st). set (D := dom (personas st)).
  set (x2 := match lev with user => flip_burstable user x1 | internal => x1 end).
  assert (E1 : (match lev with user => with_tls t (flip_burstable user) st1 | internal => Ok st1 end) = Ok (put_tls t x2 st)).
  { destruct lev; [done|]. rewrite (with_tls_ok t _ x1 st1) by apply lookup_insert_eq. unfold st1, put_tls. cbn. by rewrite insert_insert_eq. }
  rewrite E1. mcbn. set (st2 := put_tls t x2 st).
  assert (Hx2 : threads st2 !! t = Some x2) by apply lookup_insert_eq.
  destruct (Ham st2) as (st3 & -> & Hq3 & _); [by eexists|intros a; by rewrite elem_of_dom|]. mcbn.
  destruct (reachable_stack st t x tmp Hre Hx Hf) as (l & Hs & Hact).
  assert (Hs3 : stack_ok D t l tmp st3).
  { eapply stack_quiet; [|exact Hq3]. apply (stack_tls D t l tmp st x x2); [done|done|]. unfold x2, x1. by destruct lev. }
  assert (Hhs' : queues_ok D hs).
  { intros a Ha. destruct (Hhs a Ha) as (h & Hh & Hu). exists h. split; [done|]. by apply used_queue_ok. }
  destruct (rounds_ok ds_pos D t Hex Hco Hwf 1000 (Some lev) l tmp 1001 0 hs st3 Hs3 Hhs' ltac:(lia) ltac:(lia) ltac:(lia))
    as (n & hs' & st4 & -> & Hq4 & Hn & _ & Hz). mcbn.
  assert (Hq24 : quiet st2 st4) by by etrans.
  assert (Hx4 : threads st4 !! t = Some x2) by (by rewrite (q_threads _ _ Hq24)).
  set (stf := put_tls t (set_progressing (-1) x1) st4).
  assert (E2 : (st ← (match lev with user => with_tls t (flip_burstable user) st4 | internal => Ok st4 end);
                st ← with_tls t (set_progressing (-1)) st; Ok (n, hs', st)) = Ok (n, hs', stf)).
  { unfold stf. destruct lev.
    - mcbn. rewrite (with_tls_ok t _ x2 st4 Hx4). done.
    - rewrite (with_tls_ok t _ x2 st4 Hx4). mcbn. rewrite (with_tls_ok t _ x1).
      + mcbn. unfold put_tls. cbn. by rewrite insert_insert_eq.
      + cbn. rewrite lookup_insert_eq. unfold x2. by rewrite flip_twice. }
  rewrite E2. exists n, hs', stf. split; [done|]. split; [lia|]. intros Epr.
  assert (Ex : set_progressing (-1) x1 = x).
  { unfold x1. unfold get_progressing in Epr. destruct x. cbn in *. unfold set_progressing. cbn. f_equal. lia. }
  unfold stf. rewrite Ex. split_and!; [|done|].
  - split.
    + cbn. by rewrite (q_scopes _ _ Hq24).
    + cbn. rewrite (q_threads _ _ Hq24). cbn. rewrite insert_insert_eq. by apply insert_id.
    + intros a. cbn. rewrite (q_owners _ _ Hq24). done.
  - intros Hn' a p q Hp Ha Hsv. cbn in Hp. destruct (quiet_lookup _ _ _ _ Hq24 Hp) as (p0 & Hp0 & Eow).
    assert (Hu : a ∈ uniques dp t l).
    { apply (Hact a p0 Hp0). unfold active_with_caller, get_owner in *. by rewrite <- Eow. }
    specialize (Hz Hn' a q Hu Hsv). unfold queue_at in Hz. by rewrite Hp in Hz.
Qed.


(** [after_gasnet] does the same for callbacks of the internal level, a hundred at most and
    one round more, wherever the library enters GASNet. *)
Theorem after_gasnet_drains st t x tmp hs : reachable dp ds master threadmode_seq st -> threads st !! t = Some x ->
  fresh_scope ds tmp st -> get_progressing x = -1 ->
  (forall m, call_ok (dom (personas st)) t (execute m t)) -> (forall c, call_ok (dom (personas st)) t (complete c t)) ->
  (forall a, HandleSafety.wf_program (queue_addr a) (memory a)) ->
  (forall a, a ∈ dom (personas st) -> exists h, hs !! a = Some h /\ used_queue a h) ->
  exists n hs' st', after_gasnet 101 t tmp hs st = Ok (n, hs', st') /\ quiet st st' /\ 0 <= n /\
    (n < 100 -> forall a p lev, personas st' !! a = Some p -> active_with_caller dp t a p = true ->
      lev = Peer internal \/ lev = Self internal -> get_queue lev p = []).
Proof using dp_inj ds_inj dp_pos ds_pos.
  intros Hre Hx Hf Epr Hex Hco Hwf Hhs. unfold after_gasnet, get_tls. rewrite Hx. mcbn. rewrite Epr, internal_burstable. cbn [negb orb Z.leb Z.compare].
  rewrite (with_tls_ok t _ x st Hx). mcbn. set (x1 := set_progressing (level internal) x). set (st1 := put_tls t x1 st).
  destruct (reachable_stack st t x tmp Hre Hx Hf) as (l & Hs & Hact). set (D := dom (personas st)) in *.
  assert (Hs1 : stack_ok D t l tmp st1) by (by apply (stack_tls D t l tmp st x x1)).
  assert (Hhs' : queues_ok D hs).
  { intros a Ha. destruct (Hhs a Ha) as (h & Hh & Hu). exists h. split; [done|]. by apply used_queue_ok. }
  destruct (rounds_ok ds_pos D t Hex Hco Hwf 100 None l tmp 101 0 hs st1 Hs1 Hhs' ltac:(lia) ltac:(lia) ltac:(lia))
    as (n & hs' & st4 & -> & Hq4 & Hn & _ & Hz). mcbn.
  assert (Hg : set_progressing (-1) x1 = x).
  { unfold x1. unfold get_progressing in Epr. destruct x. cbn in *. unfold set_progressing. cbn. f_equal. lia. }
  destruct (quiet_bracket t (set_progressing (level internal)) (set_progressing (-1)) x st st4 Hx Hq4 Hg) as (stf & -> & Hqf & Epe). mcbn.
  exists n, hs', stf. split_and!; [done|done|done|]. intros Hn' a p q Hp Ha Hsv. destruct (quiet_lookup _ _ _ _ Hqf Hp) as (p0 & Hp0 & Eow).
  assert (Hu : a ∈ uniques dp t l).
  { apply (Hact a p0 Hp0). unfold active_with_caller, get_owner in *. by rewrite <- Eow. }
  specialize (Hz Hn' a q Hu Hsv). unfold queue_at in Hz. rewrite Epe in Hp. by rewrite Hp in Hz.
Qed.

End properties.
End Layout.

(** * A run

    The persona of [PersonaSystem.run4] has a callback in its user queue. *)
Definition no_handles : gmap addr HandleQueue.queue := (fun _ => HandleQueue.empty_queue ∅) <$> personas run4.

Lemma nothing_wf a : HandleSafety.wf_program a ∅.
Proof. split; intros; by (rewrite lookup_empty in *; (done || by destruct H)). Qed.

Lemma progress_drains_witness : exists n hs' st',
  do_progress dp0 ds0 2048 false (fun _ _ st => Ok st) (fun _ _ st => Ok st) (fun _ st => Ok st) (fun _ => 1000) (fun _ => ∅) (fun _ _ => true)
    1001 user 0 32 no_handles run4 = Ok (n, hs', st') /\ n = 1 /\
  (n < 1000 -> forall a p q, personas st' !! a = Some p -> active_with_caller dp0 0 a p = true -> served (Some user) q -> get_queue q p = []).
Proof.
  destruct (progress_drains dp0 ds0 2048 false (fun _ _ st => Ok st) (fun _ _ st => Ok st) (fun _ st => Ok st) (fun _ => 1000) (fun _ => ∅)
    (fun _ _ => true) dp0_inj ds0_inj dp0_pos ds0_pos user run4 0 tls4 32 no_handles) as (n & hs' & st' & E & _ & H).
  - exact run4_reachable.
  - exact tls4_ok.
  - exact fresh4.
  - vm_compute. reflexivity.
  - intros. apply call_nothing.
  - intros. apply call_nothing.
  - apply call_nothing.
  - intros. apply nothing_wf.
  - intros a [p Hp]%elem_of_dom. exists (HandleQueue.empty_queue ∅). unfold no_handles. rewrite lookup_fmap, Hp. split; [done|].
    exists []. split; [|done]. split; [constructor|]. by intros c ?%elem_of_nil.
  - exists n, hs', st'. split; [exact E|]. split; [vm_compute in E; by injection E as <- _ _|]. by apply H.
Defined.

End Progress.
