(* ===== verification/FutureFrame.v ===== *)
(** What operations on futures leave alone.

    The invariant of [FutureInvariant.v] says what holds in each state; here is what
    persists from one to the next.  Apart from the operations on a promise itself,
    nothing changes the countdown of a promise or the results of a header; and the
    dependencies of a callback that has not run, as far as they are promises or
    results, stay what they are.  Registries that hand out futures of promises of
    their own ([DistObject.v]) rely on this. *)
From S2P Require Import Prelude FutureCore FutureInvariant FutureUpdates FutureSafety FutureLeave FutureSystem.

Module Frame.
Import Futures.

(** * The relation *)

Definition same (x x' : future_header) : Prop := kind x' = kind x /\ void x' = void x /\ results x' = results x.

Definition alike (x x' : future_header) : Prop := (kind x' = KDependent <-> kind x = KDependent) /\ void x' = void x.

(** A dependency that may be replaced: on a header that itself depends on others. *)
Definition replaceable (st : heap) (h : hid) : Prop :=
  (next_h st <= h)%nat \/ exists x, hs st !! h = Some x /\ kind x = KDependent.

Definition kept (st : heap) (lk lk' : dependency_link) : Prop := dep lk' = dep lk \/ replaceable st (dep lk).

(** [E] are headers that are operated on as promises, [F] bodies under construction. *)
Record keeps (E : hid -> Prop) (F : bid -> Prop) (st st' : heap) : Prop := {
  k_next_h : (next_h st <= next_h st')%nat;
  k_next_b : (next_b st <= next_b st')%nat;
  k_header : forall h x', (h < next_h st)%nat -> hs st' !! h = Some x' ->
    exists x, hs st !! h = Some x /\ alike x x' /\ (E h \/ same x x');
  k_body : forall b xb', (b < next_b st)%nat -> ~ F b -> bs st' !! b = Some xb' -> bkind xb' <> BProxy ->
    exists xb, bs st !! b = Some xb /\ bkind xb = bkind xb' /\ Forall2 (kept st) (links xb) (links xb')
}.

Lemma same_alike x x' : same x x' -> alike x x'.
Proof. intros (E & ? & _). split; [by rewrite E|done]. Qed.

Lemma same_refl x : same x x.
Proof. done. Qed.

Lemma same_trans x y z : same x y -> same y z -> same x z.
Proof. unfold same. intuition congruence. Qed.

Lemma alike_trans x y z : alike x y -> alike y z -> alike x z.
Proof. unfold alike. intuition congruence. Qed.

Lemma kept_refl st l : Forall2 (kept st) l l.
Proof. induction l; constructor; [by left|done]. Qed.

Lemma keeps_refl E F st : keeps E F st st.
Proof.
  split; [lia|lia| |].
  - intros h x _ Hx. exists x. split; [done|]. split; [by apply same_alike|by right].
  - intros b xb _ _ Hb _. exists xb. split_and!; [done|done|apply kept_refl].
Qed.

Lemma replaceable_back E F st st' h : keeps E F st st' -> replaceable st' h -> replaceable st h.
Proof.
  intros Hk Hr. destruct (decide (next_h st <= h)%nat) as [|Hlt]; [by left|]. right.
  destruct Hr as [Hge|(x' & Hx' & Hd)]; [pose proof (k_next_h _ _ _ _ Hk); lia|].
  destruct (k_header _ _ _ _ Hk h x') as (x & Hx & [Ha _] & _); [lia|done|]. exists x. tauto.
Qed.

Lemma keeps_trans E F st1 st2 st3 : keeps E F st1 st2 -> keeps E F st2 st3 -> keeps E F st1 st3.
Proof.
  intros H1 H2. pose proof (k_next_h _ _ _ _ H1). pose proof (k_next_h _ _ _ _ H2).
  pose proof (k_next_b _ _ _ _ H1). pose proof (k_next_b _ _ _ _ H2). split; [lia|lia| |].
  - intros h x3 Hh Hx3. destruct (k_header _ _ _ _ H2 h x3) as (x2 & Hx2 & Ha2 & Hs2); [lia|done|].
    destruct (k_header _ _ _ _ H1 h x2) as (x1 & Hx1 & Ha1 & Hs1); [lia|done|]. exists x1.
    split; [done|]. split; [by eapply alike_trans|]. destruct Hs1 as [|Hs1]; [by left|].
    destruct Hs2 as [|Hs2]; [by left|]. right. by eapply same_trans.
  - intros b xb3 Hb HF Hx3 Hk3. destruct (k_body _ _ _ _ H2 b xb3) as (xb2 & Hx2 & Ek2 & Hl2); [lia|done..|].
    destruct (k_body _ _ _ _ H1 b xb2) as (xb1 & Hx1 & Ek1 & Hl1); [lia|done|done|congruence|]. exists xb1.
    split_and!; [done|congruence|]. clear -H1 Hl1 Hl2. revert Hl2. generalize (links xb3).
    induction Hl1 as [|l1 l2 k1 k2 H12 _ IH]; intros k3 Hk; inversion Hk as [|? l3 ? k3' H23 Hk']; subst; constructor; [|by apply IH].
    destruct H12 as [E12|]; [|by right]. destruct H23 as [E23|Hr]; [left; congruence|right].
    rewrite <- E12. by apply (replaceable_back _ _ _ _ _ H1).
Qed.

Lemma keeps_weaken (E E' : hid -> Prop) (F F' : bid -> Prop) st st' :
  (forall h, E h -> E' h) -> (forall b, F b -> F' b \/ (next_b st <= b)%nat) -> keeps E F st st' -> keeps E' F' st st'.
Proof.
  intros HE HF [Hh Hb Hk Hl]. split; [done|done| |].
  - intros h x' Hlt Hx'. destruct (Hk h x' Hlt Hx') as (x & ? & ? & [?|?]); exists x; auto.
  - intros b xb' Hlt Hn Hx'. apply Hl; [done| |done]. intros [?|?]%HF; [done|lia].
Qed.

(** ** Elementary updates *)

Lemma keeps_put E F st h x x' : hs st !! h = Some x -> alike x x' -> E h \/ same x x' -> keeps E F st (put h x' st).
Proof.
  intros Hx Ha Hs. destruct (keeps_refl E F st) as [? ? Hk Hl]. split; [done|done| |exact Hl].
  intros q y Hq. cbn. destruct (decide (q = h)) as [->|]; map_lookups; [|by apply Hk].
  intros [= <-]. by exists x.
Qed.

Lemma keeps_active E F st q : keeps E F st (put_active q st).
Proof. destruct (keeps_refl E F st). by split. Qed.

Lemma keeps_free E F st h : keeps E F st (mk_heap (delete h (hs st)) (bs st) (active st) (next_h st) (next_b st)).
Proof.
  destruct (keeps_refl E F st) as [? ? Hk Hl]. split; [done|done| |exact Hl].
  intros q y Hq. cbn. intros [_ Hy]%lookup_delete_Some. by apply Hk.
Qed.

Lemma keeps_free_body E F st b : keeps E F st (mk_heap (hs st) (delete b (bs st)) (active st) (next_h st) (next_b st)).
Proof.
  destruct (keeps_refl E F st) as [? ? Hk Hl]. split; [done|done|exact Hk|].
  intros q y Hq Hn. cbn. intros [_ Hy]%lookup_delete_Some. by apply Hl.
Qed.

Lemma keeps_alloc E F st x : keeps E F st (alloc x st).2.
Proof.
  destruct (keeps_refl E F st) as [? ? Hk Hl]. split; cbn; [lia|done| |exact Hl].
  intros q y Hq. rewrite lookup_insert_ne by lia. by apply Hk.
Qed.

Lemma keeps_alloc_body E F st x : keeps E F st (alloc_body x st).2.
Proof.
  destruct (keeps_refl E F st) as [? ? Hk Hl]. split; cbn; [done|lia|exact Hk|].
  intros q y Hq Hn. rewrite lookup_insert_ne by lia. by apply Hl.
Qed.

Lemma keeps_put_body E F st b xb' : F b \/ bkind xb' = BProxy -> keeps E F st (put_body b xb' st).
Proof.
  intros Hb. destruct (keeps_refl E F st) as [? ? Hk Hl]. split; [done|done|exact Hk|].
  intros q y Hq Hn. cbn. destruct (decide (q = b)) as [->|]; map_lookups; [|by apply Hl].
  intros [= <-] Hp. naive_solver.
Qed.

Lemma keeps_put_base E F st0 st h x x' : keeps E F st0 st -> hs st0 !! h = Some x -> same x x' ->
  keeps E F st0 (put h x' st).
Proof.
  intros [Hn Hb Hk Hl] Hx Hs. split; [done|done| |exact Hl].
  intros q y Hq. cbn. destruct (decide (q = h)) as [->|]; map_lookups; [|by apply Hk].
  intros [= <-]. exists x. split; [done|]. split; [by apply same_alike|by right].
Qed.

Lemma keeps_put_link E F st0 st l lk st' : keeps E F st0 st -> put_link l lk st = Ok st' ->
  (forall old, Invariant.link_at st l = Some old -> kept st0 old lk) -> keeps E F st0 st'.
Proof.
  intros Hk Hp Hold. unfold put_link, get_body in Hp.
  apply bind_ok in Hp as (xb & Hxb%deref_ok & (old & Ho%deref_ok & [= <-])%bind_ok).
  destruct Hk as [? ? Hh Hl]. split; [done|done|exact Hh|].
  intros q y Hq Hn. cbn. destruct (decide (q = l.1)) as [->|]; map_lookups; [|by apply Hl].
  intros [= <-] Hp. cbn in Hp |- *. destruct (Hl l.1 xb) as (xb0 & Hx0 & Hk0 & Hl0); [done..|]. exists xb0. split_and!; [done|done|].
  rewrite <- (list_insert_id (links xb0) l.2 (default old (links xb0 !! l.2))).
  2:{ destruct (Forall2_lookup_r _ _ _ _ _ Hl0 Ho) as (old0 & -> & _). done. }
  apply Forall2_insert; [done|]. destruct (Forall2_lookup_r _ _ _ _ _ Hl0 Ho) as (old0 & -> & Hkept). cbn.
  assert (Hat : Invariant.link_at st l = Some old) by (unfold Invariant.link_at; by rewrite Hxb).
  specialize (Hold old Hat). unfold kept in *. destruct Hkept as [E1|]; [|by right].
  rewrite E1 in Hold. destruct Hold as [->|]; auto.
Qed.

(** * Operations that only let go

    Successor lists shrink, and no link gets another dependency. *)

Record drops (st st' : heap) : Prop := {
  d_next_h : (next_h st <= next_h st')%nat;
  d_next_b : (next_b st <= next_b st')%nat;
  d_header : forall h x', hs st' !! h = Some x' ->
    (exists x, hs st !! h = Some x /\ same x x' /\ sucs x' ⊆ sucs x) \/ ((next_h st <= h)%nat /\ sucs x' = []);
  d_body : forall b xb', bs st' !! b = Some xb' -> exists xb, bs st !! b = Some xb /\
    (forall i lk', links xb' !! i = Some lk' -> exists lk, links xb !! i = Some lk /\ dep lk' = dep lk) /\
    (bkind xb' <> BProxy -> bkind xb = bkind xb' /\ length (links xb) = length (links xb'))
}.

Lemma drops_keeps E F st st' : drops st st' -> keeps E F st st'.
Proof.
  intros [Hn Hb Hh Hl]. split; [done|done| |].
  - intros h x' Hlt Hx'. destruct (Hh h x' Hx') as [(x & Hx & Hs & _)|[? _]]; [|lia].
    exists x. split; [done|]. split; [by apply same_alike|by right].
  - intros b xb' _ _ Hx' Hp. destruct (Hl b xb' Hx') as (xb & Hx & Hd & Hk). destruct (Hk Hp) as [Ek Len]. exists xb.
    split_and!; [done|done|]. apply Forall2_same_length_lookup. split; [done|].
    intros i lk lk' H1 H2. destruct (Hd i lk' H2) as (lk0 & H0 & E2). left. congruence.
Qed.

Lemma drops_refl st : drops st st.
Proof.
  split; [lia|lia| |].
  - intros h x Hx. left. by exists x.
  - intros b xb Hx. exists xb. split_and!; [done| |done]. intros i lk Hi. by exists lk.
Qed.

Lemma drops_trans st1 st2 st3 : drops st1 st2 -> drops st2 st3 -> drops st1 st3.
Proof.
  intros [Hn1 Hb1 Hh1 Hl1] [Hn2 Hb2 Hh2 Hl2]. split; [lia|lia| |].
  - intros h x3 Hx3. destruct (Hh2 h x3 Hx3) as [(x2 & Hx2 & Hs2 & Hu2)|[? ?]]; [|right; split; [lia|done]].
    destruct (Hh1 h x2 Hx2) as [(x1 & Hx1 & Hs1 & Hu1)|[? E]].
    + left. exists x1. split_and!; [done|by eapply same_trans|set_solver].
    + right. split; [done|]. destruct (sucs x3) as [|l k] eqn:E3; [done|]. exfalso. rewrite E in Hu2.
      by apply (elem_of_nil l), Hu2; left.
  - intros b x3 Hx3. destruct (Hl2 b x3 Hx3) as (x2 & Hx2 & Hd2 & Hk2). destruct (Hl1 b x2 Hx2) as (x1 & Hx1 & Hd1 & Hk1).
    exists x1. split_and!; [done| |].
    + intros i l3 Hi3. destruct (Hd2 i l3 Hi3) as (l2 & Hi2 & ->). by apply Hd1.
    + intros Hp. destruct (Hk2 Hp) as [E2 Len2]. destruct Hk1 as [E1 Len1]; [congruence|]. split; congruence.
Qed.

Lemma drops_put st h x x' : hs st !! h = Some x -> same x x' -> sucs x' ⊆ sucs x -> drops st (put h x' st).
Proof.
  intros Hx Hs Hu. destruct (drops_refl st) as [? ? Hh Hl]. split; [done|done| |exact Hl].
  intros q y. cbn. destruct (decide (q = h)) as [->|]; map_lookups; [|by apply Hh]. intros [= <-]. left. by exists x.
Qed.

Lemma drops_put_base st0 st h x x' : drops st0 st -> hs st0 !! h = Some x -> same x x' -> sucs x' ⊆ sucs x ->
  drops st0 (put h x' st).
Proof.
  intros [Hn Hb Hh Hl] Hx Hs Hu. split; [done|done| |exact Hl].
  intros q y. cbn. destruct (decide (q = h)) as [->|]; map_lookups; [|by apply Hh]. intros [= <-]. left. by exists x.
Qed.

Lemma drops_free st h st' : free h st = Ok st' -> drops st st'.
Proof.
  unfold free. intros Hf. inv_res. destruct (drops_refl st) as [? ? Hh Hl]. split; [done|done| |exact Hl].
  intros q y. cbn. intros [_ Hy]%lookup_delete_Some. by apply Hh.
Qed.

Lemma drops_free_body st b st' : free_body b st = Ok st' -> drops st st'.
Proof.
  unfold free_body. intros Hf. inv_res. destruct (drops_refl st) as [? ? Hh Hl]. split; [done|done|exact Hh|].
  intros q y. cbn. intros [_ Hy]%lookup_delete_Some. by apply Hl.
Qed.

Lemma drops_alloc st x : sucs x = [] -> drops st (alloc x st).2.
Proof.
  intros Hs. destruct (drops_refl st) as [? ? Hh Hl]. split; cbn; [lia|done| |exact Hl].
  intros q y [[<- <-]|[_ Hy]]%lookup_insert_Some; [right; split; [lia|done]|by apply Hh].
Qed.

Lemma drops_empty_body st b xb : bs st !! b = Some xb -> drops st (put_body b (mk_body BProxy []) st).
Proof.
  intros Hb. destruct (drops_refl st) as [? ? Hh Hl]. split; [done|done|exact Hh|].
  intros q y. cbn. intros [[<- <-]|[_ Hy]]%lookup_insert_Some; [|by apply Hl]. exists xb. split_and!; [done|done|done].
Qed.

(** ** Links in successor lists depend on their header *)

Definition sucs_ok (st : heap) : Prop := forall h x l lk,
  hs st !! h = Some x -> l ∈ sucs x -> Invariant.link_at st l = Some lk -> dep lk = h.

Lemma inv_sucs_ok m own st : Invariant.inv m own st -> sucs_ok st.
Proof.
  intros [_ Hs] h x l lk Hx Hl Hlk. destruct (Invariant.s_sucs _ _ Hs h x l Hx Hl) as (lk' & Hlk' & <- & _). congruence.
Qed.

Lemma drops_sucs_ok st st' : drops st st' -> sucs_ok st -> sucs_ok st'.
Proof.
  intros [_ _ Hh Hl] Hok h x' l lk' Hx' Hin Hlk'. destruct (Hh h x' Hx') as [(x & Hx & _ & Hu)|[_ E]].
  - unfold Invariant.link_at in Hlk'. apply bind_Some in Hlk' as (xb' & Hb' & Hi'). destruct (Hl _ _ Hb') as (xb & Hb & Hd & _).
    destruct (Hd _ _ Hi') as (lk & Hi & ->). eapply Hok; [exact Hx|by apply Hu|]. unfold Invariant.link_at. by rewrite Hb.
  - rewrite E in Hin. by apply elem_of_nil in Hin.
Qed.

(** ** The operations *)

Lemma get_inv h st x : get h st = Ok x <-> hs st !! h = Some x.
Proof. apply deref_ok. Qed.

(** Take an operation that went well apart. *)
Ltac run H :=
  first
    [ match type of H with
      | _ ≫= _ = _ => apply bind_ok in H as (? & ?Hr & H); run H
      | (let '(_, _) := ?p in _) = _ => destruct p; run H
      | (if ?b then _ else _) = _ => destruct b eqn:?; run H
      | Ok (_, _) = Ok (_, _) => injection H as ? ?; subst
      | Ok _ = Ok _ => injection H as ?; subst
      end
    | discriminate H
    | idtac ].

Ltac by_cases := match goal with |- _ (if ?b then _ else _) => destruct b eqn:? end.

Ltac binds H :=
  repeat match type of H with
  | _ ≫= _ = _ => apply bind_ok in H as (? & ?Hr & H)
  | (let '(_, _) := ?p in _) = _ => destruct p
  end.

Lemma incref_drops h n st st' : incref h n st = Ok st' -> drops st st'.
Proof.
  unfold incref. intros H. run H. apply get_inv in Hr. destruct (0 <=? ref_n x); [|apply drops_refl].
  by eapply drops_put.
Qed.

Lemma decref_drops h n st k st' : decref h n st = Ok (k, st') -> drops st st'.
Proof.
  unfold decref. intros H. run H. apply get_inv in Hr. destruct (0 <=? ref_n x); injection H as <- <-; [|apply drops_refl].
  by eapply drops_put.
Qed.

Lemma dropref_result_drops r st st' : dropref_result r st = Ok st' -> drops st st'.
Proof.
  unfold dropref_result. intros H. run H; apply decref_drops in Hr; [|done].
  eapply drops_trans; [done|by eapply drops_free].
Qed.

Lemma delete1_drops h st st' : delete1 h st = Ok st' -> drops st st'.
Proof.
  unfold delete1. intros H. run H.
  - by eapply drops_free.
  - eapply drops_trans; [by eapply dropref_result_drops|by eapply drops_free].
  - destruct (load x); [|done]. run H. by eapply drops_free.
Qed.

Lemma dropref_drops h st st' : dropref h st = Ok st' -> drops st st'.
Proof.
  unfold dropref. intros H. run H; apply decref_drops in Hr; [|done].
  eapply drops_trans; [done|by eapply delete1_drops].
Qed.

Lemma drop_for_result_drops a st r st' : drop_for_result a st = Ok (r, st') -> drops st st'.
Proof.
  unfold drop_for_result. intros H. binds H. apply get_inv in Hr, Hr1. injection H as -> ->.
  set (s1 := if _ =? 1 then put a _ st else st) in *.
  assert (drops st s1) as D1 by (subst s1; by_cases; [by eapply drops_put|apply drops_refl]).
  set (s2 := if _ =? 1 then put r _ s1 else s1) in *.
  assert (drops st s2) as D2 by (subst s2; by_cases; [by eapply drops_put_base|done]).
  clearbody s1 s2. run Hr2; [|done]. eapply drops_trans; [exact D2|by eapply drops_free].
Qed.

Lemma unlink_drops l st st' : unlink l st = Ok st' -> drops st st'.
Proof.
  unfold unlink. intros H. run H; [|apply drops_refl]. apply get_inv in Hr0. eapply drops_put; [done|done|].
  intros k. cbn. intros [_ ?]%list_elem_of_filter. done.
Qed.

Lemma drop_for_proxied_drops a st r st' : drop_for_proxied a st = Ok (r, st') -> drops st st'.
Proof.
  unfold drop_for_proxied. intros H. run H. apply get_inv in Hr, Hr2.
  set (s1 := put a _ st) in *. assert (drops st s1) as D1 by by eapply drops_put.
  set (s2 := if _ =? 1 then put (dep x1) _ s1 else s1) in *.
  assert (drops st s2) as D2 by (subst s2; by_cases; [by eapply drops_put_base|done]).
  eapply drops_trans; [exact D2|]. clearbody s1 s2. run Hr3; [|apply drops_refl].
  eapply drops_trans; [|eapply drops_trans; [by eapply drops_free_body|by eapply drops_free]].
  run Hr4; [by eapply unlink_drops|apply drops_refl].
Qed.

Lemma drop_dependencies_drops l : forall st st', drop_dependencies l st = Ok st' -> drops st st'.
Proof.
  induction l as [|lk l IH]; intros st st'; cbn; [intros [= <-]; apply drops_refl|].
  intros H. run H. eapply drops_trans; [by eapply dropref_result_drops|by apply IH].
Qed.

Lemma drop_all_drops l : forall st st', drop_all l st = Ok st' -> drops st st'.
Proof.
  induction l as [|h l IH]; intros st st'; cbn; [intros [= <-]; apply drops_refl|].
  intros H. run H. eapply drops_trans; [by eapply dropref_drops|by apply IH].
Qed.

Lemma new_result_drops v st : drops st (new_result v st).2.
Proof. by apply drops_alloc. Qed.

Lemma make_future_drops v st : drops st (make_future v st).2.
Proof. destruct v; [apply drops_refl|apply new_result_drops]. Qed.

Lemma steal_index_drops i args st h st' : steal_index_ i args st = Ok (h, st') -> drops st st'.
Proof. unfold steal_index_. intros H. run H. by eapply drop_all_drops. Qed.

(** * Operations that make headers ready *)

Section Keeps.
Context (E : hid -> Prop) (F : bid -> Prop).

(** The links of [l] are on [r], or on headers that depend on others. *)
Definition movable (st0 st : heap) (l : list lid) (r : hid) : Prop :=
  forall k lk, k ∈ l -> Invariant.link_at st k = Some lk -> dep lk = r \/ replaceable st0 (dep lk).

Lemma movable_put_link st0 st l r k lk s st' : get_link k st = Ok lk -> put_link k (mk_link r s) st = Ok st' ->
  movable st0 st l r -> movable st0 st' l r.
Proof.
  intros _ Hp Hm q lk' Hq Hlk'. unfold put_link, get_body in Hp.
  apply bind_ok in Hp as (xb & Hxb%deref_ok & (old & Ho%deref_ok & [= <-])%bind_ok).
  unfold Invariant.link_at in Hlk'. cbn in Hlk'. destruct (decide (q.1 = k.1)) as [E1|N1].
  - rewrite E1, lookup_insert_eq in Hlk'. cbn in Hlk'. apply list_lookup_insert_Some in Hlk' as [(_ & <- & _)|[_ Hi]]; [by left|].
    apply (Hm q); [done|]. unfold Invariant.link_at. by rewrite E1, Hxb.
  - rewrite lookup_insert_ne in Hlk' by done. by apply (Hm q).
Qed.

Lemma movable_bs st0 st st' l r : bs st' = bs st -> movable st0 st l r -> movable st0 st' l r.
Proof. unfold movable, Invariant.link_at. by intros ->. Qed.

Lemma link_at_get st k lk : get_link k st = Ok lk <-> Invariant.link_at st k = Some lk.
Proof.
  unfold get_link, get_body, Invariant.link_at. rewrite bind_ok, bind_Some. setoid_rewrite deref_ok. done.
Qed.

Lemma put_link_kept st0 st l r k s st' : keeps E F st0 st -> movable st0 st l r -> k ∈ l ->
  put_link k (mk_link r s) st = Ok st' -> keeps E F st0 st'.
Proof.
  intros Hk Hm Hin Hp. eapply keeps_put_link; [done|done|]. intros old Hold.
  destruct (Hm k old Hin Hold) as [<-|]; [by left|by right].
Qed.

Lemma enqueue_active_bs h st : bs (enqueue_active h st) = bs st.
Proof. done. Qed.

Lemma notify_keeps st0 r l : forall st st', keeps E F st0 st -> movable st0 st l r ->
  notify r l st = Ok st' -> keeps E F st0 st'.
Proof.
  induction l as [|k l IH]; intros st st' Hk Hm; cbn; [by intros [= <-]|]. intros H. run H. apply get_inv in Hr2.
  assert (Hk1 : keeps E F st0 x1) by (eapply put_link_kept; [done..|left|done]).
  assert (Hm1 : movable st0 x1 l r).
  { eapply movable_put_link; [done|done|]. intros q lk Hq. apply Hm. by right. }
  assert (Hk2 : keeps E F st0 (put x0 (set_status (status x2 - 1) x2) x1)).
  { eapply keeps_trans; [done|]. eapply keeps_put; [done|by apply same_alike|by right]. }
  eapply IH; [| |exact H].
  - case_match; [|done]. eapply keeps_trans; [done|apply keeps_active].
  - case_match; (eapply movable_bs; [|exact Hm1]); done.
Qed.

Lemma entered_ready_keeps st0 st h r l st' : keeps E F st0 st -> movable st0 st l r ->
  entered_ready_with_sucs h r l st = Ok st' -> keeps E F st0 st'.
Proof.
  intros Hk Hm H. unfold entered_ready_with_sucs in H. binds H. apply get_inv in Hr.
  set (s1 := match active st with Some _ => st | None => put_active (Some []) st end) in *.
  assert (Hk1 : keeps E F st0 (put h (set_sucs [] x) s1)).
  { eapply keeps_trans; [exact Hk|]. eapply keeps_trans; [|eapply keeps_put].
    - subst s1. destruct (active st); [apply keeps_refl|apply keeps_active].
    - subst s1. by destruct (active st).
    - by apply same_alike.
    - by right. }
  assert (Hm1 : movable st0 (put h (set_sucs [] x) s1) l r) by (eapply movable_bs; [|exact Hm]; subst s1; by destruct (active st)).
  pose proof (notify_keeps _ _ _ _ _ Hk1 Hm1 Hr2) as Hk2. apply get_inv in Hr3.
  set (s2 := if _ =? 1 then put h _ x2 else x2) in *.
  assert (Hk3 : keeps E F st0 s2).
  { subst s2. by_cases; [|done]. eapply keeps_trans; [done|]. eapply keeps_put; [done|by apply same_alike|by right]. }
  clearbody s1 s2. run H; apply get_inv in Hr4.
  1: eapply keeps_trans; [|by apply drops_keeps; eapply drops_free].
  all: match goal with |- keeps _ _ _ (if ?b then _ else _) => destruct b end; [|done].
  all: eapply keeps_trans; [done|]; eapply keeps_put; [done|by apply same_alike|by right].
Qed.

Lemma enter_ready_keeps st0 st h r st' : keeps E F st0 st ->
  (forall x, hs st !! h = Some x -> movable st0 st (sucs x) r) ->
  enter_ready h r st = Ok st' -> keeps E F st0 st'.
Proof.
  intros Hk Hm H. unfold enter_ready in H. run H. apply get_inv in Hr. specialize (Hm _ Hr).
  assert (Hk1 : keeps E F st0 (put h (set_status status_ready (set_load (Result r) x)) st)).
  { eapply keeps_trans; [done|]. eapply keeps_put; [done|by apply same_alike|by right]. }
  destruct (sucs x) as [|k l]; [by injection H as <-|]. eapply entered_ready_keeps; [exact Hk1| |exact H].
  by eapply movable_bs; [|exact Hm].
Qed.

(** In a heap whose successor lists are in order, the links to [h] may move to [r] if
    [r] is [h] or [h] is a dependent. *)
Lemma sucs_movable st0 st h x r : sucs_ok st -> hs st !! h = Some x -> r = h \/ replaceable st0 h -> movable st0 st (sucs x) r.
Proof.
  intros Hok Hx Hr k lk Hk Hlk. rewrite (Hok h x k lk Hx Hk Hlk). destruct Hr as [->|]; auto.
Qed.

Lemma dependent_replaceable st0 st h x : keeps E F st0 st -> hs st !! h = Some x -> kind x = KDependent ->
  replaceable st0 h.
Proof. intros Hk Hx Hd. apply (replaceable_back _ _ _ _ _ Hk). right. by exists x. Qed.

Lemma drops_dependent st st' h x x' : drops st st' -> (h < next_h st)%nat -> hs st !! h = Some x -> kind x = KDependent ->
  hs st' !! h = Some x' -> kind x' = KDependent.
Proof.
  intros Hd Hlt Hx Hk Hx'. destruct (d_header _ _ Hd h x' Hx') as [(y & Hy & (Ek & _) & _)|[? _]]; [congruence|lia].
Qed.

Lemma keeps_then_put st0 st h x x' : keeps E F st0 st -> hs st !! h = Some x -> alike x x' -> E h \/ same x x' ->
  keeps E F st0 (put h x' st).
Proof. intros Hk Hx Ha Hs. eapply keeps_trans; [exact Hk|by eapply keeps_put]. Qed.

Lemma keeps_then_drops st0 st st' : keeps E F st0 st -> drops st st' -> keeps E F st0 st'.
Proof. intros Hk Hd. eapply keeps_trans; [exact Hk|by apply drops_keeps]. Qed.

(** ** Promises *)

Lemma sucs_ok_put st h x x' : sucs_ok st -> hs st !! h = Some x -> sucs x' ⊆ sucs x -> sucs_ok (put h x' st).
Proof.
  intros Hok Hx Hu q y l lk. cbn. destruct (decide (q = h)) as [->|]; map_lookups; [|by apply Hok].
  intros [= <-] Hl. eapply Hok; [done|by apply Hu].
Qed.

Lemma readify_keeps st0 st h st' : keeps E F st0 st -> sucs_ok st -> readify h st = Ok st' -> keeps E F st0 st'.
Proof.
  intros Hk Hok H. unfold readify in H. binds H. eapply enter_ready_keeps; [done| |done].
  intros y Hy. eapply sucs_movable; [done|done|by left].
Qed.

Lemma fulfill_keeps st0 st h n st' : E h -> keeps E F st0 st -> sucs_ok st -> fulfill h n st = Ok st' -> keeps E F st0 st'.
Proof.
  intros HE Hk Hok H. unfold fulfill in H. binds H. apply get_inv in Hr. unfold countdown_of in Hr0.
  destruct (kind x) eqn:Ek; try done.
  assert (Hk1 : keeps E F st0 (put h (set_kind (KPromise (x0 - n)) x) st)).
  { eapply keeps_then_put; [done|done| |by left]. split; [|done]. cbn. rewrite Ek. done. }
  run H; [|done]. eapply readify_keeps; [done| |done]. by eapply sucs_ok_put.
Qed.

Lemma require_keeps st h n st' : E h -> require_anonymous h n st = Ok st' -> keeps E F st st'.
Proof.
  intros HE H. unfold require_anonymous in H. binds H. apply get_inv in Hr. unfold countdown_of in Hr0.
  destruct (kind x) eqn:Ek; try done. injection H as <-. eapply keeps_put; [done| |by left]. split; [|done]. cbn. by rewrite Ek.
Qed.

Lemma fulfill_result_keeps st h v st' : E h -> sucs_ok st -> fulfill_result h v st = Ok st' -> keeps E F st st'.
Proof.
  intros HE Hok H. unfold fulfill_result in H. binds H. apply get_inv in Hr.
  destruct (void x); [eapply fulfill_keeps; [done|apply keeps_refl|done..]|].
  eapply fulfill_keeps; [done| | |exact H].
  - eapply keeps_put; [done|done|by left].
  - by eapply sucs_ok_put.
Qed.

(** ** Proxies *)

Lemma drops_put_link st l lk old st' : get_link l st = Ok old -> dep lk = dep old -> put_link l lk st = Ok st' -> drops st st'.
Proof.
  intros Hold%link_at_get Hd Hp. unfold put_link, get_body in Hp.
  apply bind_ok in Hp as (xb & Hxb%deref_ok & (o & Ho%deref_ok & [= <-])%bind_ok).
  destruct (drops_refl st) as [? ? Hh Hl]. split; [done|done|exact Hh|].
  intros q y. cbn. intros [[<- <-]|[_ Hy]]%lookup_insert_Some; [|by apply Hl]. exists xb. split_and!; [done| |].
  - intros i lk'. cbn. intros [(<- & <- & _)|[_ Hi]]%list_lookup_insert_Some; [|by exists lk'].
    exists o. split; [done|]. unfold Invariant.link_at in Hold. rewrite Hxb in Hold. cbn in Hold. congruence.
  - cbn. by rewrite length_insert.
Qed.

Lemma incref_bs h n st st' : incref h n st = Ok st' -> bs st' = bs st.
Proof. unfold incref. intros H. run H. by case_match. Qed.

Lemma decref_bs h n st k st' : decref h n st = Ok (k, st') -> bs st' = bs st.
Proof. unfold decref. intros H. run H. case_match; by injection H as <- <-. Qed.

Lemma get_link_bs l st st' : bs st' = bs st -> get_link l st' = get_link l st.
Proof. intros He. unfold get_link, get_body. by rewrite He. Qed.

Lemma split_proxies_incl l : forall st pr rest, split_proxies l st = Ok (pr, rest) -> pr ⊆ l /\ rest ⊆ l.
Proof.
  induction l as [|k l IH]; intros st pr rest; cbn; [by intros [= <- <-]|]. intros H. binds H.
  apply IH in Hr2 as [H1 H2]. case_match; injection H as <- <-; set_solver.
Qed.

Lemma redirect_keeps st0 p l : forall st st', keeps E F st0 st -> movable st0 st l p -> redirect p l st = Ok st' ->
  keeps E F st0 st' /\ hs st' = hs st.
Proof.
  induction l as [|k l IH]; intros st st' Hk Hm; cbn; [by intros [= <-]|]. intros H. binds H.
  assert (Hk1 : keeps E F st0 x0) by (eapply put_link_kept; [done..|left|done]).
  assert (Hm1 : movable st0 x0 l p).
  { eapply movable_put_link; [done|done|]. intros q lk Hq. apply Hm. by right. }
  destruct (IH x0 st' Hk1 Hm1 H) as [? ->]. split; [done|]. unfold put_link in Hr0. binds Hr0. by injection Hr0 as <-.
Qed.

Lemma enter_proxying_keeps st0 st h b p st' : keeps E F st0 st -> sucs_ok st -> replaceable st0 h ->
  enter_proxying h b p st = Ok st' -> keeps E F st0 st'.
Proof.
  intros Hk Hok Hrep H. unfold enter_proxying in H. binds H. clear Hr. rename n into p1, n0 into b1, h0 into s1.
  assert (Hd : drops st s1).
  { clear H Hr1. run Hr0; [| |apply drops_refl].
    - pose proof (incref_bs _ _ _ _ Hr2) as E1. pose proof (decref_bs _ _ _ _ _ Hr3) as E2.
      apply incref_drops in Hr2. apply decref_drops in Hr3. apply drops_free_body in Hr5. apply drops_free in Hr6.
      eapply drops_trans; [exact Hr2|]. eapply drops_trans; [exact Hr3|]. apply (drops_trans _ x4); [|by eapply drops_trans].
      eapply (drops_put_link _ _ (mk_link (dep x2) (Some h)) x2); [|reflexivity|exact Hr4]. rewrite (get_link_bs _ st) by congruence. exact Hr1.
    - eapply drops_trans; [by eapply incref_drops|by eapply decref_drops]. }
  assert (Hk1 : keeps E F st0 s1) by by eapply keeps_then_drops.
  assert (Hok1 : sucs_ok s1) by by eapply drops_sucs_ok. apply get_inv in Hr1. clear Hr0 Hd.
  destruct (status x0 =? status_ready); [|destruct (p1 =? h)%nat eqn:Heqb1; [done|]]; binds H.
  - apply decref_drops in Hr. pose proof (drop_for_result_drops _ _ _ _ Hr2) as Hd. apply drops_free_body in H.
    eapply keeps_then_drops; [|exact H]. assert (Hd2 : drops s1 h1) by by eapply drops_trans.
    eapply enter_ready_keeps; [by eapply keeps_then_drops| |exact Hr3].
    intros y Hy. eapply sucs_movable; [by eapply drops_sucs_ok|done|by right].
  - apply get_inv in Hr. destruct (split_proxies_incl _ _ _ _ Hr0) as [Hpr Hrest].
    assert (Hm : movable st0 s1 l p1).
    { intros k lk Hin. eapply (sucs_movable st0 s1 h x1 p1); [done|done|by right|by apply Hpr]. }
    destruct (redirect_keeps st0 p1 l s1 x2 Hk1 Hm Hr2) as [Hk2 Eh].
    apply Nat.eqb_neq in Heqb1.
    set (xp := if 0 <=? ref_n x0 then _ else _) in *. assert (same x0 xp) as Hxp by (subst xp; by destruct (0 <=? ref_n x0)). clearbody xp.
    set (y1 := set_sucs (rev l ++ sucs x0) xp) in *.
    set (y2 := set_status status_proxying (set_sucs l0 x1)) in *.
    assert (Hk3 : keeps E F st0 (put p1 y1 x2)).
    { eapply keeps_then_put; [done|by rewrite Eh|by apply same_alike|by right]. }
    assert (Hk4 : keeps E F st0 (put h y2 (put p1 y1 x2))).
    { eapply keeps_then_put; [done| |by apply (same_alike x1)|by right]. cbn. map_lookups. by rewrite Eh. }
    run H.
    + apply drops_free_body in Hr3. apply drops_free in H. eapply keeps_then_drops; [|done]. by eapply keeps_then_drops.
    + assert (Hk5 : keeps E F st0 (put_body b1 (mk_body BProxy [mk_link p1 (Some h)]) (put h y2 (put p1 y1 x2)))).
      { eapply keeps_trans; [exact Hk4|]. apply keeps_put_body. by right. }
      eapply keeps_then_put; [eapply keeps_then_put; [exact Hk5| |by apply (same_alike y1)|by right]| |by apply (same_alike y2)|by right].
      * cbn. by map_lookups.
      * cbn. by map_lookups.
Qed.

End Keeps.

(** ** Building dependents *)

Lemma add_dependency_keeps E F st h b a st' : F b -> add_dependency h b a st = Ok st' -> keeps E F st st'.
Proof.
  intros HF H. unfold add_dependency in H. binds H. rename n into a1, h0 into s1.
  assert (Hk1 : keeps E F st s1).
  { apply drops_keeps. clear H. run Hr0; [by eapply drop_for_proxied_drops|apply drops_refl]. }
  apply get_inv in Hr1. eapply keeps_trans; [exact Hk1|]. clear Hk1 Hr0 Hr. run H.
  - apply get_inv in Hr0.
    assert (Hk2 : keeps E F s1 (put_body b (mk_body (bkind x1) (links x1 ++ [mk_link a1 (Some h)])) s1))
      by (apply keeps_put_body; by left).
    eapply keeps_then_put; [|exact Hr0|done|by right].
    eapply keeps_then_put; [exact Hk2|exact Hr1|done|by right].
  - eapply keeps_trans; [apply drops_keeps; by eapply drop_for_result_drops|]. apply keeps_put_body. by left.
Qed.

Lemma add_dependencies_keeps E F h b args : F b -> forall st st', add_dependencies h b args st = Ok st' -> keeps E F st st'.
Proof.
  intros HF. induction args as [|a args IH]; intros st st'; cbn; [intros [= <-]; apply keeps_refl|].
  intros H. binds H. eapply keeps_trans; [by eapply add_dependency_keeps|by apply IH].
Qed.

Lemma make_header_keeps E F k v args st h st' : make_header k v args st = Ok (h, st') -> keeps E F st st'.
Proof.
  intros H. unfold make_header in H. destruct (alloc_body (mk_body k []) st) as [b s1] eqn:E1.
  destruct (alloc (mk_header 2 status_active [] (Body b) KDependent v None) s1) as [q s2] eqn:E2.
  set (F' := fun b' => F b' \/ b' = b).
  assert (b = next_b st) as Hb by by injection E1.
  apply (keeps_weaken E E F' F); [done| |].
  { intros b' [?| ->]; [by left|right; lia]. }
  assert (Hk : keeps E F' st s2).
  { pose proof (keeps_alloc_body E F' st (mk_body k [])) as K1. rewrite E1 in K1.
    pose proof (keeps_alloc E F' s1 (mk_header 2 status_active [] (Body b) KDependent v None)) as K2. rewrite E2 in K2.
    by eapply keeps_trans. }
  binds H. assert (Hk2 : keeps E F' st x).
  { eapply keeps_trans; [exact Hk|]. eapply add_dependencies_keeps; [|exact Hr]. by right. }
  injection H as <- <-. case_match; [|done]. eapply keeps_trans; [done|apply keeps_active].
Qed.

Lemma new_promise_keeps E F is_void deps st h st' : new_promise is_void deps st = Ok (h, st') -> keeps E F st st'.
Proof. intros H. unfold new_promise in H. binds H. injection H as <- <-. apply keeps_alloc. Qed.

Lemma when_all_keeps E F types args st h st' : when_all types args st = Ok (h, st') -> keeps E F st st'.
Proof.
  assert (Hx : forall types, (match future_when_all_representative 0 types (concat types) with
      | Some rep =>
          b ← ready_all_but_rep_ rep 0 args st;
          if (b : bool) then steal_index_ rep args st else make_header BIdentity (Nat.eqb (length (concat types)) 0) args st
      | None => make_header BIdentity (Nat.eqb (length (concat types)) 0) args st
      end) = Ok (h, st') -> keeps E F st st').
  { intros ty H. case_match; [|by eapply make_header_keeps]. binds H.
    case_match; [by eapply drops_keeps, steal_index_drops|by eapply make_header_keeps]. }
  unfold when_all. intros H. destruct (concat types) eqn:Ec; [destruct args as [|a args]|].
  1, 3: apply (Hx types); rewrite Ec; exact H.
  binds H. case_match; [by eapply drops_keeps, steal_index_drops|by eapply make_header_keeps].
Qed.

(** ** Leaving the active state *)

Lemma leave_identity_keeps E F st h b st' : sucs_ok st -> replaceable st h -> leave_identity h b st = Ok st' -> keeps E F st st'.
Proof.
  intros Hok Hr H. unfold leave_identity in H. binds H. rename h0 into s1. apply decref_drops in Hr1. case_match.
  - binds H. apply drops_keeps. eapply drops_trans; [exact Hr1|]. eapply drops_trans; [by eapply drop_dependencies_drops|].
    eapply drops_trans; [by eapply drops_free_body|by eapply drops_free].
  - destruct (dependency_results (links x) s1) as [w| | |]; [|done..].
    cbn [mbind res_bind] in H. destruct (new_result w s1) as [r s2] eqn:En. binds H.
    assert (Hd : drops st x1).
    { eapply drops_trans; [exact Hr1|]. pose proof (new_result_drops w s1) as Hn. rewrite En in Hn.
      eapply drops_trans; [exact Hn|]. eapply drops_trans; [by eapply drop_dependencies_drops|by eapply drops_free_body]. }
    eapply enter_ready_keeps; [by apply drops_keeps| |exact H].
    intros y Hy. eapply sucs_movable; [by eapply drops_sucs_ok|done|by right].
Qed.

Lemma leave_proxy_keeps E F st h b st' : sucs_ok st -> replaceable st h -> leave_proxy h b st = Ok st' -> keeps E F st st'.
Proof.
  intros Hok Hr H. unfold leave_proxy in H. binds H. rename h0 into s1. apply decref_drops in Hr0. case_match.
  - binds H. assert (Hd : drops st x0) by (eapply drops_trans; [exact Hr0|by eapply drops_free_body]).
    eapply enter_ready_keeps; [by apply drops_keeps| |exact H].
    intros y Hy. eapply sucs_movable; [by eapply drops_sucs_ok|done|by right].
  - binds H. apply drops_keeps. eapply drops_trans; [exact Hr0|]. eapply drops_trans; [by eapply dropref_drops|].
    eapply drops_trans; [by eapply drops_free_body|by eapply drops_free].
Qed.

Lemma drops_empty_body_base st0 st b xb : drops st0 st -> bs st0 !! b = Some xb -> drops st0 (put_body b (mk_body BProxy []) st).
Proof.
  intros [Hn Hnb Hh Hl] Hb. split; [done|done|exact Hh|].
  intros q y. cbn. intros [[<- <-]|[_ Hy]]%lookup_insert_Some; [|by apply Hl]. exists xb. split_and!; [done|done|done].
Qed.

Lemma leave_then_keeps E F st h b ret st' : sucs_ok st -> replaceable st h -> leave_then h b ret st = Ok st' -> keeps E F st st'.
Proof.
  intros Hok Hr H. unfold leave_then in H. binds H. unfold get_body in Hr0. apply deref_ok in Hr0.
  assert (Hd : drops st (put_body b (mk_body BProxy []) x0))
    by (eapply drops_empty_body_base; [by eapply drop_dependencies_drops|done]).
  set (s1 := put_body b _ x0) in *. clearbody s1. clear Hr1. case_match.
  - binds H. assert (Hd2 : drops st x3).
    { eapply drops_trans; [exact Hd|]. eapply drops_trans; [by eapply drops_free_body|by eapply drops_free]. }
    apply drops_keeps. destruct ret; [by injection H as <-|]. eapply drops_trans; [done|by eapply dropref_drops].
  - destruct ret as [v|p].
    + pose proof (make_future_drops v s1) as Hm. destruct (make_future v s1) as [r s2]. cbn in Hm. binds H.
      assert (Hd2 : drops st x2).
      { eapply drops_trans; [exact Hd|]. eapply drops_trans; [exact Hm|].
        eapply drops_trans; [by eapply decref_drops|by eapply drops_free_body]. }
      eapply enter_ready_keeps; [by apply drops_keeps| |exact H].
      intros y Hy. eapply sucs_movable; [by eapply drops_sucs_ok|done|by right].
    + eapply enter_proxying_keeps; [by apply drops_keeps|by eapply drops_sucs_ok|done|exact H].
Qed.

(** * Programs *)

Import System.

(** The promises that an action operates on. *)
Definition operated (a : action) (h : hid) : Prop :=
  match a with
  | Require q _ | FulfillAnonymous q _ | FulfillResult q _ | Finalize q => q = h
  | _ => False
  end.

Abbreviation no_body := (fun _ : bid => False).

Lemma fmap_res_ok {A B} (f : A -> B) r b : fmap_res f r = Ok b -> exists a, r = Ok a /\ b = f a.
Proof. unfold fmap_res. intros (a & -> & [= <-])%bind_ok. by exists a. Qed.

Lemma user_action_keeps V P s a s' : sys_inv V P s -> user_action a s = Some (Ok s') ->
  keeps (operated a) no_body (futures s) (futures s').
Proof.
  intros Hs H. pose proof (inv_sucs_ok _ _ _ (si_inv _ _ _ Hs)) as Hok. unfold user_action in H.
  destruct a; try done; try apply bind_Some in H as (? & _ & H).
  - injection H as <-. apply drops_keeps, make_future_drops.
  - injection H as H%fmap_res_ok. destruct H as ([h st] & H & ->). by eapply new_promise_keeps.
  - injection H as H%fmap_res_ok. destruct H as (st & H & ->). by eapply drops_keeps, incref_drops.
  - injection H as H%fmap_res_ok. destruct H as (st & H & ->). by eapply drops_keeps, dropref_drops.
  - injection H as H%fmap_res_ok. destruct H as ([h st] & H & ->). by eapply make_header_keeps.
  - case_match; [|done]. injection H as H%fmap_res_ok. destruct H as ([h st] & H & ->). by eapply when_all_keeps.
  - injection H as H%fmap_res_ok. destruct H as (st & H & ->). apply keeps_refl.
  - injection H as H%fmap_res_ok. destruct H as (st & H & ->). by eapply require_keeps.
  - injection H as H%fmap_res_ok. destruct H as (st & H & ->). unfold fulfill_anonymous in H.
    apply bind_ok in H as (? & _ & H). eapply fulfill_keeps; [done|apply keeps_refl|done..].
  - case_match; [|done]. injection H as H%fmap_res_ok. destruct H as (st & H & ->). by eapply fulfill_result_keeps.
  - injection H as H%fmap_res_ok. destruct H as (st & H & ->). unfold finalize in H.
    apply bind_ok in H as (s1 & Hf & H). eapply keeps_trans; [|by eapply drops_keeps, incref_drops].
    eapply fulfill_keeps; [done|apply keeps_refl|done..].
Qed.

Lemma serve_keeps V P E s s' : sys_inv V P s -> serve s = Some (Ok s') -> keeps E no_body (futures s) (futures s').
Proof.
  intros Hs H. pose proof (inv_sucs_ok _ _ _ (si_inv _ _ _ Hs)) as Hok. unfold serve in H.
  destruct (active (futures s)) as [[|h q]|] eqn:Hq; try done.
  assert (Hr : replaceable (put_active (Some q) (futures s)) h).
  { right. destruct (proj2 (Invariant.s_queue _ _ (proj2 (si_inv _ _ _ Hs))) h) as (_ & x & Hx & Hk & _).
    - unfold Invariant.queue. rewrite Hq. left.
    - by exists x. }
  eapply keeps_trans; [apply (keeps_active _ _ _ (Some q))|].
  injection H as H. binds H. destruct (bkind x1).
  - apply bind_ok in H as (v & _ & [= <-]). apply keeps_refl.
  - apply fmap_res_ok in H as (st & H & ->). by eapply leave_identity_keeps.
  - apply fmap_res_ok in H as (st & H & ->). by eapply leave_proxy_keeps.
Qed.

Lemma finish_keeps V P E s h ret s' : sys_inv V P s -> running s = Some h -> finish h ret s = Some (Ok s') ->
  keeps E no_body (futures s) (futures s').
Proof.
  intros Hs Hru H. pose proof (inv_sucs_ok _ _ _ (si_inv _ _ _ Hs)) as Hok.
  assert (Hr : replaceable (futures s) h).
  { right. destruct (Invariant.s_run _ _ (proj2 (si_inv _ _ _ Hs)) h) as (_ & _ & x & b & xb & ? & ? & _); [done|]. by exists x. }
  assert (Hl : forall l, (x ← get h (futures s); b ← body_of x; st ← leave_then h b ret (futures s);
      Ok (mk_system st l None (log s))) = Ok s' -> keeps E no_body (futures s) (futures s')).
  { intros l K. binds K. injection K as <-. by eapply leave_then_keeps. }
  unfold finish in H. destruct ret as [v|p]; [injection H as H; by eapply Hl|].
  apply bind_Some in H as (l & _ & H). case_decide; [done|]. injection H as H. by eapply Hl.
Qed.

Theorem exec_keeps V P s a s' : sys_inv V P s -> exec a s = Some (Ok s') ->
  keeps (operated a) no_body (futures s) (futures s').
Proof.
  intros Hs H. unfold exec in H.
  assert (Hcases : user_action a s = Some (Ok s') \/ serve s = Some (Ok s') \/
    (exists h ret, running s = Some h /\ finish h ret s = Some (Ok s')) \/ futures s' = put_active None (futures s)).
  { destruct a; auto; destruct (running s) eqn:Hr; eauto; destruct (active (futures s)) as [[|]|] eqn:Ha; try done; auto;
      try (right; right; left; by eauto). injection H as <-. auto. }
  destruct Hcases as [Hu|[Hv|[(h & ret & Hr & Hf)| ->]]].
  - by eapply user_action_keeps.
  - by eapply serve_keeps.
  - by eapply finish_keeps.
  - apply keeps_active.
Qed.

(** ** Handles held elsewhere

    What user code does with its own handles it may do if there are others. *)

Definition more (k : list hid) (s : system) : system := with_roots s (roots s ++ k).

Lemma take_root_more k h l l' : take_root h l = Some l' -> take_root h (l ++ k) = Some (l' ++ k).
Proof.
  revert l'. induction l as [|q l IH]; intros l'; cbn; [done|]. case_decide; [by intros [= <-]|].
  intros (l1 & Hl & [= <-])%bind_Some. by rewrite (IH _ Hl).
Qed.

Lemma take_roots_more k args : forall l l', take_roots args l = Some l' -> take_roots args (l ++ k) = Some (l' ++ k).
Proof.
  induction args as [|h args IH]; intros l l'; cbn; [by intros [= <-]|].
  intros (l1 & Hl & H)%bind_Some. rewrite (take_root_more k _ _ _ Hl). cbn. by apply IH.
Qed.

Lemma promise_at_more k h s x : promise_at h s = Some x -> promise_at h (more k s) = Some x.
Proof.
  unfold promise_at. intros (l & Hl & H)%bind_Some. cbn [roots more with_roots]. rewrite (take_root_more k _ _ _ Hl). exact H.
Qed.

Lemma fmap_res_more {A} k (f g : A -> system) (r : res A) : (forall a, g a = more k (f a)) ->
  fmap_res g r = fmap_res (more k) (fmap_res f r).
Proof. intros Hfg. destruct r; cbn; by rewrite ?Hfg. Qed.

Lemma user_action_more k a s r : user_action a s = Some r -> user_action a (more k s) = Some (fmap_res (more k) r).
Proof.
  unfold user_action. intros H.
  destruct a; try done; try apply bind_Some in H as (? & H1 & H); cbn [futures more with_roots roots];
    rewrite ?(take_root_more k _ _ _ H1), ?(take_roots_more k _ _ _ H1), ?(promise_at_more k _ _ _ H1); cbn [mbind option_bind].
  all: try (case_match; [|done]); injection H as <-; f_equal; by apply fmap_res_more || done.
Qed.

Lemma exec_more k a s r : exec a s = Some r -> exec a (more k s) = Some (fmap_res (more k) r).
Proof.
  unfold exec. cbn [running more with_roots futures]. intros H.
  assert (Hs : forall r, serve s = Some r -> serve (more k s) = Some (fmap_res (more k) r)).
  { intros r0. unfold serve. cbn [futures more with_roots roots log]. destruct (active (futures s)) as [[|h q]|]; try done.
    intros [= <-]. f_equal. destruct (get h _) as [x| | |]; try done. mcbn. destruct (body_of x) as [b| | |]; try done. mcbn.
    destruct (get_body b _) as [xb| | |]; try done. mcbn. destruct (bkind xb); [|by apply fmap_res_more..].
    by destruct (then_arguments b _). }
  assert (Hf : forall h ret r, finish h ret s = Some r -> finish h ret (more k s) = Some (fmap_res (more k) r)).
  { intros h ret r0. unfold finish. cbn [futures more with_roots roots log].
    assert (Hl : forall l, (x ← get h (futures s); b ← body_of x; st ← leave_then h b ret (futures s); Ok (mk_system st (l ++ k) None (log s)))
      = fmap_res (more k) (x ← get h (futures s); b ← body_of x; st ← leave_then h b ret (futures s); Ok (mk_system st l None (log s)))).
    { intros l. destruct (get h _) as [x| | |]; try done. mcbn. destruct (body_of x) as [b| | |]; try done. mcbn.
      by destruct (leave_then h b ret _). }
    destruct ret as [v|p]; [intros [= <-]; by rewrite Hl|]. intros (l & Hp & H')%bind_Some.
    rewrite (take_root_more k _ _ _ Hp). cbn [mbind option_bind]. case_decide; [done|]. injection H' as <-. by rewrite Hl. }
  destruct a, (running s), (active (futures s)) as [[|]|]; try done;
    try (by apply user_action_more); try (by apply Hs); try (by apply Hf).
  by injection H as <-.
Qed.

End Frame.
