(* ===== verification/Teams.v ===== *)
(** Teams and the registry of a process: [src/team.hpp], [team_fwd.hpp], [team.cpp].

    Teams, distributed objects and the state of collectives have names that are the
    same at all processes: digests.  [detail::registry] maps the names of a process to
    what they stand for there.  A [process] is that map with the teams, the distributed
    objects ([DistObject.v]) and the futures of one process; every operation is a
    computation on it that may fail an assertion.  Objects live at addresses that the
    caller chose; what GASNet says of a team is an argument. *)
From stdpp Require Import countable.
From S2P Require Import Prelude Digest FutureCore FutureSystem.

#[export] Instance digest_eq_dec : EqDecision Digest.digest.
Proof. solve_decision. Defined.
#[export] Instance digest_countable : Countable Digest.digest.
Proof.
  by apply (inj_countable' (fun d => (Digest.w0 d, Digest.w1 d)) (fun p => Digest.mk_digest p.1 p.2)); intros [].
Defined.

Module Teams.
Import Digest Futures System.

(** * Data *)

Abbreviation addr := Z.

(** What a pointer in the registry points to: a team, or the promise of a distributed object. *)
Inductive thing := TeamAt (a : addr) | PromiseAt (h : hid).

Record team := mk_team { handle : Z; id_ : digest; coll_counter_ : Z; n_ : Z; me_ : Z }.

(** [dist_object<T>], for a [T] whose values are numbers. *)
Record dist_object := mk_object { tm_ : addr; object_id : digest; value_ : option Z }.

(** Where a call is made: [backend::init_count], whether the thread has the master persona
    (active, or as the current one), and whether it is inside of user-level progress. *)
Record context := mk_context { init_count : Z; has_master : bool; master_current : bool; in_progress : bool }.

(** [pros_deferred_trivial] is the queue of that name of the master persona, and
    [deferred_decrements] the field of that name of promises. *)
Record process := mk_process {
  here_and_now : context; registry : gmap digest thing; teams : gmap addr team; objects : gmap addr dist_object;
  program : system; pros_deferred_trivial : list hid; deferred_decrements : gmap hid Z
}.

#[export] Instance thing_eq_dec : EqDecision thing.
Proof. solve_decision. Defined.

(** ** Access *)

Definition team_at (a : addr) (p : process) : res team := deref (teams p !! a).
Definition object_at (a : addr) (p : process) : res dist_object := deref (objects p !! a).

Definition put_registry (r : gmap digest thing) (p : process) : process :=
  mk_process (here_and_now p) r (teams p) (objects p) (program p) (pros_deferred_trivial p) (deferred_decrements p).
Definition put_teams (l : gmap addr team) (p : process) : process :=
  mk_process (here_and_now p) (registry p) l (objects p) (program p) (pros_deferred_trivial p) (deferred_decrements p).
Definition put_team (a : addr) (t : team) (p : process) : process := put_teams (<[a := t]> (teams p)) p.
Definition put_objects (l : gmap addr dist_object) (p : process) : process :=
  mk_process (here_and_now p) (registry p) (teams p) l (program p) (pros_deferred_trivial p) (deferred_decrements p).
Definition put_object (a : addr) (o : dist_object) (p : process) : process := put_objects (<[a := o]> (objects p)) p.
Definition put_program (s : system) (p : process) : process :=
  mk_process (here_and_now p) (registry p) (teams p) (objects p) s (pros_deferred_trivial p) (deferred_decrements p).
Definition put_futures (st : heap) (p : process) : process := put_program (with_heap (program p) st) p.
Definition put_deferred (q : list hid) (d : gmap hid Z) (p : process) : process :=
  mk_process (here_and_now p) (registry p) (teams p) (objects p) (program p) q d.
Definition put_context (c : context) (p : process) : process :=
  mk_process c (registry p) (teams p) (objects p) (program p) (pros_deferred_trivial p) (deferred_decrements p).

(** The heap of futures, and a handle that user code gets. *)
Definition heap_of (p : process) : heap := futures (program p).
Definition give (h : hid) (st : heap) (p : process) : process := put_program (gain (program p) (h, st)) p.

(** ** Assertions on the context *)

Definition initialized (p : process) : bool := negb (init_count (here_and_now p) =? 0).
Definition assert_init (p : process) : res unit := assert_that (initialized p).
Definition assert_master (p : process) : res unit := assert_that (has_master (here_and_now p)).
Definition assert_collective_safe (p : process) : res unit :=
  assert_that (negb (initialized p && in_progress (here_and_now p))).
Definition assert_not_tomb (d : digest) : res unit := assert_that (dne d tombstone).

Section Teams.
(** Whether the library is built for one thread, the invalid team handle of GASNet, where
    [world()] and [local_team()] are, and the translation of the ranks of a team to those
    of the job, and back. *)
Context (threadmode_seq : bool) (GEX_TM_INVALID : Z) (world local_team : addr).
Context (rank_to_jobrank : Z -> Z -> Z) (jobrank_to_rank : Z -> Z -> option Z).

Definition assert_master_current_ifseq (p : process) : res unit :=
  assert_that (negb threadmode_seq || master_current (here_and_now p)).

(** * Teams *)

Definition team_is_active (t : team) : bool := dne (id_ t) tombstone.

(** [team(internal_only, team_base&&, digest, intrank_t, intrank_t)] of a team at [a] *)
Definition team_ctor (a : addr) (base : Z) (id : digest) (n me : Z) (p : process) : res process :=
  let t := mk_team base id 0 n me in
  if deq id tombstone then
    _ ← assert_that ((n =? 0) && (me =? -1));
    _ ← assert_that (base =? GEX_TM_INVALID);
    Ok (put_team a t p)
  else Ok (put_registry (<[id := TeamAt a]> (registry p)) (put_team a t p)).

(** The teams that [upcxx::init] builds: [world()] and [local_team()]. *)
Definition world_id : digest := mk_digest 0x1111111111111111 0x1111111111111111.
Definition init_world (world_tm rank_n rank_me : Z) (p : process) : res process :=
  team_ctor world world_tm world_id rank_n rank_me p.

Definition local_id (pshm_peer_lb : Z) : digest := eat (mk_digest 0x2222222222222222 0x2222222222222222) (w64 pshm_peer_lb) 0.
Definition init_local_team (local_tm pshm_peer_lb peer_n peer_me : Z) (p : process) : res process :=
  team_ctor local_team local_tm (local_id pshm_peer_lb) peer_n peer_me p.

(** [team()] *)
Definition team_default_ctor (a : addr) (p : process) : res process := team_ctor a GEX_TM_INVALID tombstone 0 (-1) p.

Definition invalidate (t : team) : team := mk_team GEX_TM_INVALID tombstone (coll_counter_ t) 0 (-1).

(** [team::operator=(team&&)] *)
Definition team_move_assign (this that : addr) (p : process) : res process :=
  if that =? this then Ok p else
  _ ← assert_init p;
  _ ← assert_master p;
  _ ← assert_that (negb (that =? world));
  _ ← assert_that (negb (that =? local_team));
  t ← team_at this p;
  _ ← assert_that (negb (team_is_active t));
  u ← team_at that p;
  let t := mk_team (handle u) (id_ u) (coll_counter_ u) (n_ u) (me_ u) in
  let p := put_team that (invalidate u) (put_team this t p) in
  Ok (if dne (id_ t) tombstone then put_registry (<[id_ t := TeamAt this]> (registry p)) p else p).

(** [team(team&&)] *)
Definition team_move_ctor (this that : addr) (p : process) : res process :=
  p ← team_default_ctor this p; team_move_assign this that p.

(** [~team()] *)
Definition team_dtor (a : addr) (p : process) : res process :=
  t ← team_at a p;
  _ ← (if (0 <? init_count (here_and_now p)) && negb (handle t =? GEX_TM_INVALID) then
         assert_that (match registry p !! id_ t with None => true | Some _ => false end)
       else Ok tt);
  Ok (put_teams (delete a (teams p)) p).

Definition next_collective_id (a : addr) (p : process) : res (digest * process) :=
  t ← team_at a p;
  Ok (eat (id_ t) (coll_counter_ t) 0,
      put_team a (mk_team (handle t) (id_ t) (w64 (coll_counter_ t + 1)) (n_ t) (me_ t)) p).

Definition color_none : Z := -0xbad.

(** [team::split], whose result is constructed at [result]; [sub_tm], [ranks] and [me] are what
    GASNet gives for the new team. *)
Definition split (a : addr) (color : Z) (result : addr) (sub_tm ranks me : Z) (p : process) : res process :=
  _ ← assert_init p;
  _ ← assert_master p;
  _ ← assert_master_current_ifseq p;
  _ ← assert_collective_safe p;
  _ ← assert_that ((0 <=? color) || (color =? color_none));
  t ← team_at a p;
  _ ← assert_that (team_is_active t);
  '(id, p) ← next_collective_id a p;
  let id := eat id (w64 color) 0 in
  if color =? color_none then team_ctor result GEX_TM_INVALID tombstone 0 (-1) p
  else team_ctor result sub_tm id ranks me p.

(** The check of the ranks given to [team::create]: [err] is set, and the ranks seen. *)
Fixpoint check_ids (locs : list Z) (limit : Z) (err : bool) (seen : gset Z) : bool * gset Z :=
  match locs with
  | [] => (err, seen)
  | rank :: locs =>
      if (rank <? 0) || (limit <=? rank) then check_ids locs limit true seen
      else if decide (rank ∈ seen) then check_ids locs limit true seen
      else check_ids locs limit err ({[rank]} ∪ seen)
  end.

Definition rank_n (a : addr) (p : process) : res Z :=
  _ ← assert_init p; t ← team_at a p; _ ← assert_that (team_is_active t); Ok (n_ t).
Definition rank_me (a : addr) (p : process) : res Z :=
  _ ← assert_init p; t ← team_at a p; _ ← assert_that (team_is_active t); Ok (me_ t).

(** [operator[]] *)
Definition subscript (a : addr) (peer : Z) (p : process) : res Z :=
  _ ← assert_init p;
  t ← team_at a p;
  _ ← assert_that (team_is_active t);
  n ← rank_n a p;
  _ ← assert_that ((0 <=? peer) && (peer <? n));
  Ok (rank_to_jobrank (handle t) peer).

Definition from_world (a : addr) (rank : Z) (p : process) : res Z :=
  _ ← assert_init p;
  t ← team_at a p;
  _ ← assert_that (team_is_active t);
  n ← rank_n world p;
  _ ← assert_that ((0 <=? rank) && (rank <? n));
  match jobrank_to_rank (handle t) rank with Some r => Ok r | None => Aborted end.

Definition from_world_otherwise (a : addr) (rank otherwise : Z) (p : process) : res Z :=
  _ ← assert_init p;
  t ← team_at a p;
  _ ← assert_that (team_is_active t);
  n ← rank_n world p;
  _ ← assert_that ((0 <=? rank) && (rank <? n));
  Ok (default otherwise (jobrank_to_rank (handle t) rank)).

(** [team::id] *)
Definition team_id (a : addr) (p : process) : res digest :=
  t ← team_at a p; _ ← assert_that (team_is_active t); Ok (id_ t).

(** [team::create] of the ranks [locs] of the team at [a]. *)
Definition create (a : addr) (locs : list Z) (result : addr) (sub_tm me : Z) (p : process) : res process :=
  _ ← assert_init p;
  _ ← assert_master p;
  _ ← assert_master_current_ifseq p;
  _ ← assert_collective_safe p;
  t ← team_at a p;
  _ ← assert_that (team_is_active t);
  limit ← rank_n a p;
  let '(err, seen) := check_ids locs limit false ∅ in
  r ← rank_me a p;
  let err := err || match locs with [] => false | _ => negb (bool_decide (r ∈ seen)) end in
  _ ← assert_that (negb err);
  r0 ← match locs with [] => Ok 0 | rank :: _ => subscript a rank p end;
  '(id, p) ← next_collective_id a p;
  let id := eat id (w64 r0) 0 in
  match locs with
  | [] => team_ctor result GEX_TM_INVALID tombstone 0 (-1) p
  | _ => team_ctor result sub_tm id (Z.of_nat (length locs)) me p
  end.

(** [team::destroy(internal_only, entry_barrier)], once the processes are quiescent *)
Definition destroy_internal (a : addr) (p : process) : res process :=
  _ ← assert_master p;
  t ← team_at a p;
  _ ← assert_that (team_is_active t);
  Ok (put_team a (invalidate t) (put_registry (delete (id_ t) (registry p)) p)).

(** [team::destroy(entry_barrier)] *)
Definition destroy (a : addr) (p : process) : res process :=
  _ ← assert_init p;
  t ← team_at a p;
  if negb (team_is_active t) then Ok p else
  _ ← assert_master p;
  _ ← assert_master_current_ifseq p;
  _ ← assert_collective_safe p;
  _ ← assert_that (negb (a =? world));
  _ ← assert_that (negb (a =? local_team));
  destroy_internal a p.

(** [team_id::here]: a name without a team gets a null pointer in the registry, then the
    assertion fails. *)
Definition team_here (d : digest) (p : process) : res addr :=
  _ ← assert_init p;
  _ ← assert_not_tomb d;
  match registry p !! d with
  | Some (TeamAt a) => Ok a
  | Some (PromiseAt _) => Undef
  | None => Aborted
  end.

(** [team_id::when_here] *)
Definition team_when_here (d : digest) (p : process) : res (hid * process) :=
  a ← team_here d p;
  let '(h, st) := make_future [a] (heap_of p) in
  Ok (h, give h st p).

(** * The registry *)

(** [detail::registered_promise]: the promise registered with a name, which is made if there is none. *)
Definition registered_promise (id : digest) (initial_anon : Z) (p : process) : res (hid * process) :=
  _ ← assert_master p;
  match registry p !! id with
  | None =>
      '(h, st) ← new_promise false 1 (heap_of p);
      st ← require_anonymous h initial_anon st;
      Ok (h, put_registry (<[id := PromiseAt h]> (registry p)) (put_futures st p))
  | Some (PromiseAt h) => Ok (h, p)
  | Some (TeamAt _) => Undef
  end.
End Teams.

End Teams.
