(* ===== verification/DistObject.v ===== *)
(** Distributed objects: [src/dist_object.hpp], with the parts of [backend.hpp],
    [persona.hpp] and [future/core.hpp] through which their promises are fulfilled.

    A distributed object registers, under a name that its team gives, a promise whose
    result is its address.  Calls from other processes that mention the object wait
    for that promise, which may have been made before the object was.  The promise is
    fulfilled in user-level progress; moving an object overwrites the result. *)
From S2P Require Import Prelude Digest FutureCore FutureInvariant FutureSystem FutureFrame Teams.

Module DistObjects.
Import Digest Futures System Teams.

(** * Promises

    [future_header_result::construct_results] and [reconstruct_results] *)
Definition construct_results (h : hid) (v : val) (st : heap) : res heap :=
  x ← get h st;
  _ ← assert_that (status x =? status_results_no);
  Ok (put h (set_status status_results_yes (set_results (Some v) x)) st).

Definition reconstruct_results (h : hid) (v : val) (st : heap) : res heap :=
  x ← get h st;
  _ ← assert_that (negb (status x =? status_results_no));
  Ok (put h (set_status status_results_yes (set_results (Some v) x)) st).

(** [future_header_promise::incref] *)
Definition promise_incref (h : hid) (n : Z) (st : heap) : res heap :=
  x ← get h st; Ok (put h (set_ref (ref_n x + n) x) st).

(** [promise_vtable::fulfill_deferred_and_drop_trivial]; [n] is [deferred_decrements]. *)
Definition fulfill_deferred_and_drop (h : hid) (n : Z) (st : heap) : res heap :=
  x ← get h st;
  c ← countdown_of x;
  let st := put h (set_kind (KPromise (c - n)) x) st in
  st ← (if c - n =? 0 then
          y ← get h st; _ ← assert_that (status y =? status_active + 1); enter_ready h h st
        else Ok st);
  x ← get h st;
  let st := put h (set_ref (ref_n x - 1) x) st in
  if ref_n x - 1 =? 0 then free h st else Ok st.

(** [persona_tls::fulfill_during_user_of_active] of a promise whose results are trivial to
    destroy, by the master persona. *)
Definition fulfill_during_user_of_active (h : hid) (deps : Z) (p : process) : res process :=
  _ ← assert_master p;
  let n := default 0 (deferred_decrements p !! h) + deps in
  let d := <[h := n]> (deferred_decrements p) in
  if deps =? n then Ok (put_deferred (pros_deferred_trivial p ++ [h]) d p)
  else st ← dropref h (heap_of p); Ok (put_deferred (pros_deferred_trivial p) d (put_futures st p)).

(** [backend::fulfill_during<user>] with the values. *)
Definition fulfill_during_user (h : hid) (v : val) (p : process) : res process :=
  st ← construct_results h v (heap_of p); fulfill_during_user_of_active h 1 (put_futures st p).

(** One promise of the burst of [pros_deferred_trivial_] in [persona_tls::burst_user]. *)
Definition burst_deferred_one (p : process) : res process :=
  match pros_deferred_trivial p with
  | [] => Ok p
  | h :: q =>
      st ← fulfill_deferred_and_drop h (default 0 (deferred_decrements p !! h)) (heap_of p);
      Ok (put_deferred q (<[h := 0]> (deferred_decrements p)) (put_futures st p))
  end.

(** * Distributed objects *)

Definition is_active (o : dist_object) : bool := dne (object_id o) tombstone.
Definition has_value (o : dist_object) : bool := match value_ o with Some _ => true | None => false end.

(** [dist_object()] and [dist_object(inactive_t, ...)] *)
Definition object_default_ctor (a : addr) (p : process) : process := put_object a (mk_object 0 tombstone None) p.
Definition object_inactive_ctor (a : addr) (v : Z) (p : process) : process :=
  put_object a (mk_object 0 tombstone (Some v)) p.

Definition object_put_id (a : addr) (id : digest) (p : process) : res process :=
  o ← object_at a p; Ok (put_object a (mk_object (tm_ o) id (value_ o)) p).

(** [dist_object::create_] *)
Definition create_ (a : addr) (p : process) : res process :=
  _ ← assert_init p;
  _ ← assert_master p;
  _ ← assert_collective_safe p;
  o ← object_at a p;
  _ ← assert_that (negb (tm_ o =? 0));
  '(id, p) ← next_collective_id (tm_ o) p;
  p ← object_put_id a id p;
  _ ← assert_that (dne id tombstone);
  '(h, p) ← registered_promise id 0 p;
  st ← promise_incref h 1 (heap_of p);
  fulfill_during_user h [a] (put_futures st p).

(** [dist_object(const team&, U&&...)] *)
Definition object_ctor (a tm : addr) (v : Z) (p : process) : res process :=
  create_ a (put_object a (mk_object tm tombstone (Some v)) p).

(** [activate] *)
Definition activate (a tm : addr) (p : process) : res process :=
  o ← object_at a p;
  _ ← assert_that (negb (is_active o));
  _ ← assert_that (has_value o);
  create_ a (put_object a (mk_object tm (object_id o) (value_ o)) p).

Definition emplace (a : addr) (v : Z) (p : process) : res process :=
  o ← object_at a p; Ok (put_object a (mk_object (tm_ o) (object_id o) (Some v)) p).

(** The promise that the registry has for a name. *)
Definition promise_of (id : digest) (p : process) : res hid :=
  match registry p !! id with Some (PromiseAt h) => Ok h | _ => Undef end.

(** [dist_object::operator=(dist_object&&)]; [optional] leaves a moved value in [that]. *)
Definition object_move_assign (this that : addr) (p : process) : res process :=
  if that =? this then Ok p else
  _ ← assert_init p;
  _ ← assert_master p;
  o ← object_at this p;
  _ ← assert_that (negb (is_active o));
  u ← object_at that p;
  let o := mk_object (tm_ u) (object_id u) (value_ u) in
  let p := put_object that (mk_object 0 tombstone (value_ u)) (put_object this o p) in
  if is_active o then
    h ← promise_of (object_id o) p;
    st ← reconstruct_results h [this] (heap_of p);
    Ok (put_futures st p)
  else Ok p.

(** [dist_object(dist_object&&)] *)
Definition object_move_ctor (this that : addr) (p : process) : res process :=
  object_move_assign this that (object_default_ctor this p).

(** [~dist_object()] *)
Definition object_dtor (a : addr) (p : process) : res process :=
  o ← object_at a p;
  _ ← (if is_active o && (0 <? init_count (here_and_now p)) then assert_master p else Ok tt);
  p ← (if is_active o then
         h ← promise_of (object_id o) p;
         st ← dropref h (heap_of p);
         Ok (put_registry (delete (object_id o) (registry p)) (put_futures st p))
       else Ok p);
  Ok (put_objects (delete a (objects p)) p).

(** [dist_object::id] and [operator*] *)
Definition id (a : addr) (p : process) : res digest :=
  o ← object_at a p; _ ← assert_not_tomb (object_id o); Ok (object_id o).
Definition dereference (a : addr) (p : process) : res Z :=
  o ← object_at a p; _ ← assert_that (has_value o); deref (value_ o).

(** ** Names *)

(** [dist_id::here]; the results of a promise without any are uninitialized memory. *)
Definition here (d : digest) (p : process) : res addr :=
  _ ← assert_init p;
  _ ← assert_not_tomb d;
  match registry p !! d with
  | None => Aborted
  | Some _ =>
      '(h, p) ← registered_promise d 0 p;
      x ← get h (heap_of p);
      v ← deref (results x);
      deref (head v)
  end.

(** [dist_id::when_here], which is also how an argument of a call that arrives is unbound
    ([binding<dist_object<T>&>::off_wire]). *)
Definition when_here (d : digest) (p : process) : res (hid * process) :=
  _ ← assert_init p;
  _ ← assert_not_tomb d;
  '(h, p) ← registered_promise d 0 p;
  st ← promise_incref h 1 (heap_of p);
  Ok (h, give h st p).

(** [binding<dist_object<T>&>::on_wire] *)
Definition on_wire (a : addr) (p : process) : res digest :=
  o ← object_at a p; _ ← assert_that (is_active o); id a p.

(** A call with a reference to the object [d] arrives: its callback waits for the object. *)
Definition off_wire_then (is_void : bool) (d : digest) (p : process) : res (hid * process) :=
  '(h, p) ← when_here d p;
  l ← deref (take_root h (roots (program p)));
  '(t, st) ← make_header BThen is_void [h] (heap_of p);
  Ok (t, put_program (gain (with_roots (program p) l) (t, st)) p).

End DistObjects.
