(* ===== verification/DistObjectInvariant.v ===== *)
(** The invariant of a process with teams and distributed objects.

    User code, arriving calls and progress are calls of one type; [exec] runs one of
    them on a state, which is a process with what was observed of it: the names given
    so far, the promises that the registry ever held, and the calls that arrived.  The
    references of the registry and of the queue of deferred promises count as handles
    of the program of futures, so that its invariant applies. *)
From S2P Require Import Prelude Digest FutureCore FutureInvariant FutureUpdates FutureSafety FutureSystem FutureFrame Teams DistObject.

Module DistObjectState.
Import Digest Futures Invariant Updates Operations System Frame Teams DistObjects.

(** * Calls *)

(** Calls that only read; [answer] is the rank that GASNet finds, if any. *)
Inductive query :=
  | TeamHere (d : digest) | TeamId (a : addr) | RankN (a : addr) | RankMe (a : addr) | Subscript (a : addr) (peer : Z)
  | FromWorld (a : addr) (rank : Z) (answer : option Z) | FromWorldOtherwise (a : addr) (rank otherwise : Z) (answer : option Z)
  | ObjectHere (d : digest) | ObjectId (a : addr) | Dereference (a : addr) | OnWire (a : addr).

Inductive call :=
  | SetContext (c : context)
  | TeamDefault (a : addr) | TeamMove (this that : addr) | TeamMoveInto (this that : addr) | TeamDelete (a : addr)
  | Split (a : addr) (color : Z) (result : addr) (sub_tm ranks me : Z)
  | Create (a : addr) (locs : list Z) (result : addr) (sub_tm me : Z)
  | Destroy (a : addr) | TeamWhenHere (d : digest)
  | NewDefault (a : addr) | NewInactive (a : addr) (v : Z) | New (a tm : addr) (v : Z) | Activate (a tm : addr)
  | Emplace (a : addr) (v : Z) | Move (this that : addr) | MoveInto (this that : addr) | Delete (a : addr)
  | WhenHere (d : digest) | Arrive (is_void : bool) (d : digest) | Burst | User (act : action)
  | Query (q : query).

(** A body whose callback waits for the object [d], through the promise [h]. *)
Record arrival := mk_arrival { waiting_body : bid; waits_for : digest; through : hid }.

Record state := mk_state {
  proc : process; issued : gset digest; promises : gset hid; arrivals : list arrival
}.

Section Calls.
Context (threadmode_seq : bool) (GEX_TM_INVALID : Z) (world local_team : addr) (rank_to_jobrank : Z -> Z -> Z).

Definition run_query (q : query) (p : process) : res unit :=
  match q with
  | TeamHere d => _ ← team_here d p; Ok tt
  | TeamId a => _ ← team_id a p; Ok tt
  | RankN a => _ ← rank_n a p; Ok tt
  | RankMe a => _ ← rank_me a p; Ok tt
  | Subscript a peer => _ ← subscript rank_to_jobrank a peer p; Ok tt
  | FromWorld a rank answer => _ ← from_world world (fun _ _ => answer) a rank p; Ok tt
  | FromWorldOtherwise a rank otherwise answer => _ ← from_world_otherwise world (fun _ _ => answer) a rank otherwise p; Ok tt
  | ObjectHere d => _ ← here d p; Ok tt
  | ObjectId a => _ ← id a p; Ok tt
  | Dereference a => _ ← dereference a p; Ok tt
  | OnWire a => _ ← on_wire a p; Ok tt
  end.

Definition run_call (c : call) (p : process) : res process :=
  match c with
  | SetContext c => Ok (put_context c p)
  | TeamDefault a => team_default_ctor GEX_TM_INVALID a p
  | TeamMove this that => team_move_assign GEX_TM_INVALID world local_team this that p
  | TeamMoveInto this that => team_move_ctor GEX_TM_INVALID world local_team this that p
  | TeamDelete a => team_dtor GEX_TM_INVALID a p
  | Split a color result sub_tm ranks me => split threadmode_seq GEX_TM_INVALID a color result sub_tm ranks me p
  | Create a locs result sub_tm me => create threadmode_seq GEX_TM_INVALID rank_to_jobrank a locs result sub_tm me p
  | Destroy a => destroy threadmode_seq GEX_TM_INVALID world local_team a p
  | TeamWhenHere d => '(_, p) ← team_when_here d p; Ok p
  | NewDefault a => Ok (object_default_ctor a p)
  | NewInactive a v => Ok (object_inactive_ctor a v p)
  | New a tm v => object_ctor a tm v p
  | Activate a tm => activate a tm p
  | Emplace a v => emplace a v p
  | Move this that => object_move_assign this that p
  | MoveInto this that => object_move_ctor this that p
  | Delete a => object_dtor a p
  | WhenHere d => '(_, p) ← when_here d p; Ok p
  | Arrive is_void d => '(_, p) ← off_wire_then is_void d p; Ok p
  | Burst => burst_deferred_one p
  | User _ => Ok p
  | Query q => _ ← run_query q p; Ok p
  end.

(** What the language and its types guarantee: objects that are named exist, storage for new
    ones is unused, a [dist_id] never holds the name of a team nor a [team_id] that of an object,
    and the promises of distributed objects are not in the hands of users. *)
Definition unused (a : addr) (p : process) : bool :=
  negb (a =? 0) && bool_decide (teams p !! a = None) && bool_decide (objects p !! a = None).
Definition has_team (a : addr) (p : process) : bool := bool_decide (is_Some (teams p !! a)).
Definition has_object (a : addr) (p : process) : bool := bool_decide (is_Some (objects p !! a)).
Definition is_team_name (d : digest) (p : process) : bool :=
  match registry p !! d with Some (TeamAt _) => true | _ => false end.
Definition is_object_name (d : digest) (p : process) : bool :=
  match registry p !! d with Some (PromiseAt _) => true | _ => false end.
Definition promise_target (a : action) : option hid :=
  match a with Require h _ | FulfillAnonymous h _ | FulfillResult h _ | Finalize h => Some h | _ => None end.

Definition possible_query (q : query) (p : process) : bool :=
  match q with
  | TeamHere d => negb (is_object_name d p)
  | ObjectHere d => negb (is_team_name d p)
  | TeamId a | RankN a | RankMe a | Subscript a _ => has_team a p
  | FromWorld a _ _ | FromWorldOtherwise a _ _ _ => has_team a p && has_team world p
  | ObjectId a | Dereference a | OnWire a => has_object a p
  end.

Definition possible (c : call) (s : state) : bool :=
  let p := proc s in
  match c with
  | SetContext _ | Burst => true
  | TeamDefault a | NewDefault a | NewInactive a _ => unused a p
  | TeamMove this that => has_team this p && has_team that p
  | TeamMoveInto this that => unused this p && has_team that p
  | TeamDelete a | Destroy a => has_team a p
  | Split a _ result _ _ _ | Create a _ result _ _ => has_team a p && unused result p
  | TeamWhenHere d => negb (is_object_name d p)
  | New a tm _ => unused a p && has_team tm p
  | Activate a tm => has_object a p && has_team tm p
  | Emplace a _ | Delete a => has_object a p
  | Move this that => has_object this p && has_object that p
  | MoveInto this that => unused this p && has_object that p
  | WhenHere d | Arrive _ d => negb (is_team_name d p)
  | User a => match promise_target a with Some h => bool_decide (h ∉ promises s) | None => true end
  | Query q => possible_query q p
  end.

(** User code runs outside of the loops that deplete the queue of active futures, or in a callback. *)
Definition can_call (p : process) : bool :=
  match running (program p), active (heap_of p) with None, Some _ => false | _, _ => true end.

(** The name that a call would give. *)
Definition new_name (c : call) (p : process) : option digest :=
  let next tm := t ← teams p !! tm; Some (eat (id_ t) (coll_counter_ t) 0) in
  match c with
  | New _ tm _ | Activate _ tm => next tm
  | Split a color _ _ _ _ => if color =? color_none then None else d ← next a; Some (eat d (w64 color) 0)
  | Create a (rank :: _) _ _ _ =>
      t ← teams p !! a; d ← next a; Some (eat d (w64 (rank_to_jobrank (handle t) rank)) 0)
  | _ => None
  end.

Definition thing_promise (x : thing) : option hid := match x with PromiseAt h => Some h | TeamAt _ => None end.

(** The promises to which the registry refers. *)
Definition held (r : gmap digest thing) : list hid := omap thing_promise (map_to_list r).*2.

Definition observe (c : call) (s : state) (p : process) : state :=
  mk_state p
    (match new_name c (proc s) with Some d => {[d]} ∪ issued s | None => issued s end)
    (list_to_set (held (registry p)) ∪ promises s)
    (match c with
     | Arrive _ d =>
         match registry p !! d with
         | Some (PromiseAt h) => mk_arrival (next_b (heap_of (proc s))) d h :: arrivals s
         | _ => arrivals s
         end
     | _ => arrivals s
     end).

Definition exec_call (c : call) (s : state) : option (res state) :=
  if possible c s then
    match c with
    | User a => r ← exec a (program (proc s)); Some (fmap_res (fun x => observe c s (put_program x (proc s))) r)
    | _ => if can_call (proc s) then Some (fmap_res (observe c s) (run_call c (proc s))) else None
    end
  else None.

(** Digests of different names are different, as far as names are given. *)
Definition clash (c : call) (s : state) : bool :=
  match new_name c (proc s) with
  | Some d => deq d tombstone || bool_decide (d ∈ issued s) ||
      match c with Split _ _ _ _ _ _ | Create _ _ _ _ _ => bool_decide (registry (proc s) !! d <> None) | _ => false end
  | None => false
  end.

(** Moving an object whose promise has been fulfilled. *)
Definition late_move (c : call) (p : process) : bool :=
  match c with
  | Move this that | MoveInto this that =>
      negb (this =? that) &&
      match o ← objects p !! that; x ← registry p !! object_id o; h ← thing_promise x; hs (heap_of p) !! h with
      | Some x => status x =? status_ready
      | None => false
      end
  | _ => false
  end.

(** A team that is not destroyed before its destructor runs. *)
Definition left_over (c : call) (p : process) : bool :=
  match c with
  | TeamDelete a => match teams p !! a with Some t => team_is_active t | None => false end
  | _ => false
  end.

(** [dist_id::here] of a name whose promise has no results, because it was registered before the
    object was made: its assertion, that the name is registered, holds. *)
Definition early_here (c : call) (p : process) : bool :=
  match c with
  | Query (ObjectHere d) =>
      initialized p && dne d tombstone && has_master (here_and_now p) &&
      match x ← registry p !! d; h ← thing_promise x; hs (heap_of p) !! h with
      | Some x => bool_decide (results x = None)
      | None => false
      end
  | _ => false
  end.

Definition proper (c : call) (s : state) : bool :=
  negb (clash c s) && negb (late_move c (proc s)) && negb (left_over c (proc s)).

Definition step (s s' : state) : Prop := exists c, proper c s = true /\ exec_call c s = Some (Ok s').
End Calls.

(** * The invariant *)

(** The references that are not handles of user code. *)
Definition internals (p : process) : list hid := held (registry p) ++ pros_deferred_trivial p.
Definition full (p : process) : system := more (internals p) (program p).

Definition heap_ok (p : process) : Prop := exists P, sys_inv ∅ P (full p).

(** What lives at an address, by its name. *)
Definition team_named (p : process) (a : addr) (d : digest) : Prop := exists t, teams p !! a = Some t /\ id_ t = d.
Definition named_at (p : process) (a : addr) (d : digest) : Prop := exists o, objects p !! a = Some o /\ object_id o = d.

Record names_ok (names : gset digest) (p : process) : Prop := {
  n_tomb : registry p !! tombstone = None;
  n_team : forall d a, registry p !! d = Some (TeamAt a) <-> team_named p a d /\ d <> tombstone;
  n_team_issued : forall d a, registry p !! d = Some (TeamAt a) -> d ∈ names;
  n_object : forall a d, named_at p a d -> d <> tombstone -> d ∈ names /\ exists h, registry p !! d = Some (PromiseAt h);
  n_once : forall d d' h, registry p !! d = Some (PromiseAt h) -> registry p !! d' = Some (PromiseAt h) -> d = d'
}.

(** What the promise of an object looks like: without results, with results and waiting to be
    fulfilled, or fulfilled. *)
Definition promise_ok (q : list hid) (h : hid) (x : future_header) : Prop :=
  void x = false /\
  (kind x = KPromise 1 /\ (results x = None /\ h ∉ q \/ results x <> None /\ h ∈ q) \/
   kind x = KPromise 0 /\ results x <> None /\ h ∉ q) /\
  forall v, results x = Some v -> exists a, v = [a].

Record promises_ok (hp : gset hid) (p : process) : Prop := {
  p_held : forall d h, registry p !! d = Some (PromiseAt h) -> h ∈ hp;
  p_state : forall h, h ∈ hp -> (h < next_h (heap_of p))%nat /\
    forall x, hs (heap_of p) !! h = Some x -> promise_ok (pros_deferred_trivial p) h x;
  p_constructed : forall d h x v, registry p !! d = Some (PromiseAt h) -> hs (heap_of p) !! h = Some x ->
    results x = Some v -> exists a, v = [a] /\ named_at p a d;
  p_object : forall a d h, named_at p a d -> d <> tombstone -> registry p !! d = Some (PromiseAt h) ->
    exists x, hs (heap_of p) !! h = Some x /\ results x = Some [a];
  p_queue : NoDup (pros_deferred_trivial p) /\ forall h, h ∈ pros_deferred_trivial p ->
    h ∈ hp /\ deferred_decrements p !! h = Some 1;
  p_zero : forall h, h ∉ pros_deferred_trivial p -> default 0 (deferred_decrements p !! h) = 0
}.

(** A name that had an object, and will not have one again. *)
Definition retired (names : gset digest) (p : process) (d : digest) : Prop :=
  d ∈ names /\ d <> tombstone /\ forall a, ~ named_at p a d.

(** As long as a body is that of a callback, it depends on one promise. *)
Definition body_waits (st : heap) (w : arrival) : Prop :=
  (waiting_body w < next_b st)%nat /\
  forall xb, bs st !! waiting_body w = Some xb -> bkind xb <> BProxy ->
    bkind xb = BThen /\ exists lk, links xb = [lk] /\ dep lk = through w.

Definition arrival_ok (names : gset digest) (hp : gset hid) (p : process) (w : arrival) : Prop :=
  through w ∈ hp /\
  (registry p !! waits_for w = Some (PromiseAt (through w)) \/ retired names p (waits_for w)) /\
  body_waits (heap_of p) w.

Record ok (s : state) : Prop := {
  ok_heap : heap_ok (proc s);
  ok_names : names_ok (issued s) (proc s);
  ok_promises : promises_ok (promises s) (proc s);
  ok_arrivals : Forall (arrival_ok (issued s) (promises s) (proc s)) (arrivals s)
}.

(** ** Lists of references *)

Lemma held_insert r d x : r !! d = None -> held (<[d := x]> r) ≡ₚ option_list (thing_promise x) ++ held r.
Proof.
  intros Hd. unfold held. rewrite map_to_list_insert by done. cbn. by destruct (thing_promise x).
Qed.

Lemma held_delete r d x : r !! d = Some x -> held r ≡ₚ option_list (thing_promise x) ++ held (delete d r).
Proof.
  intros Hd. rewrite <- (insert_delete_id _ _ _ Hd) at 1. apply held_insert. by rewrite lookup_delete_eq.
Qed.

Lemma held_insert_team r d a : (forall h, r !! d <> Some (PromiseAt h)) -> held (<[d := TeamAt a]> r) ≡ₚ held r.
Proof.
  intros Hd. destruct (r !! d) as [[b|h]|] eqn:E; [|by destruct (Hd h)|by rewrite held_insert].
  rewrite (held_delete r d _ E). cbn. rewrite <- insert_delete_eq. rewrite held_insert; [done|]. by rewrite lookup_delete_eq.
Qed.

Lemma elem_of_held r h : h ∈ held r <-> exists d, r !! d = Some (PromiseAt h).
Proof.
  unfold held. rewrite list_elem_of_omap. split.
  - intros (x & Hx & Hp). apply list_elem_of_fmap in Hx as ([d y] & -> & Hd%elem_of_map_to_list). destruct y; [done|].
    injection Hp as ->. by exists d.
  - intros (d & Hd). exists (PromiseAt h). split; [|done]. apply list_elem_of_fmap. exists (d, PromiseAt h).
    split; [done|]. by apply elem_of_map_to_list.
Qed.

(** ** Heaps *)

Lemma heap_live p h : heap_ok p -> h ∈ internals p -> exists x, hs (heap_of p) !! h = Some x.
Proof.
  intros [P [Hi _]] Hin. apply (inv_live Hi). cbn [roots full more with_roots]. rewrite tokens_app.
  pose proof (tokens_in _ _ Hin). pose proof (tokens_nonneg (roots (program p)) h). lia.
Qed.

Lemma heap_live_held p d h : heap_ok p -> registry p !! d = Some (PromiseAt h) -> exists x, hs (heap_of p) !! h = Some x.
Proof. intros Hp Hd. apply heap_live; [done|]. apply elem_of_app. left. apply elem_of_held. by exists d. Qed.

Lemma heap_live_queue p h : heap_ok p -> h ∈ pros_deferred_trivial p -> exists x, hs (heap_of p) !! h = Some x.
Proof. intros Hp Hd. apply heap_live; [done|]. apply elem_of_app. by right. Qed.

(** A heap with the references that a process has. *)
Definition heap_inv (P : gset hid) (p : process) (own : hid -> Z) (st : heap) : Prop :=
  Invariant.inv (sys_mode ∅ P (program p)) own st.

Lemma heap_ok_inv p P : sys_inv ∅ P (full p) -> heap_inv P p (tokens (roots (program p) ++ internals p)) (heap_of p).
Proof. intros [Hi _]. exact Hi. Qed.

Lemma heap_ok_intro P p p' own : heap_ok p -> heap_inv P p own (heap_of p') ->
  running (program p') = running (program p) -> log (program p') = log (program p) ->
  (forall q, own q = tokens (roots (program p') ++ internals p') q) -> heap_ok p'.
Proof.
  intros [P0 [_ Hl]] Hi Er El Hown. exists P. split.
  - eapply inv_ext; [intros q _; apply Hown|]. unfold heap_inv, sys_mode, ran in *. cbn [running log full more with_roots].
    rewrite Er, El. exact Hi.
  - cbn [log full more with_roots]. by rewrite El.
Qed.

(** * What does not touch names and promises *)

(** The same names stand for the same teams, objects and promises. *)
Record alike_objects (p p' : process) : Prop := {
  a_promise : forall d h, registry p' !! d = Some (PromiseAt h) <-> registry p !! d = Some (PromiseAt h);
  a_named_at : forall a d, d <> tombstone -> named_at p' a d <-> named_at p a d
}.

Record alike_names (p p' : process) : Prop := {
  a_objects : alike_objects p p';
  a_team : forall d a, registry p' !! d = Some (TeamAt a) <-> registry p !! d = Some (TeamAt a);
  a_team_named : forall a d, d <> tombstone -> team_named p' a d <-> team_named p a d
}.

Lemma names_ok_alike names p p' : alike_names p p' -> names_ok names p -> names_ok names p'.
Proof.
  intros [[Hp Ho] Ht Hn] [N0 N1 N2 N3 N4]. split.
  - destruct (registry p' !! tombstone) as [[a|h]|] eqn:E; [|apply Hp in E; congruence|done]. apply Ht in E. congruence.
  - intros d a. rewrite Ht, N1. split; intros [? Hd]; (split; [|done]); by apply Hn.
  - intros d a. rewrite Ht. apply N2.
  - intros a d Hna Hd. destruct (N3 a d) as [? [h Hh]]; [by apply Ho|done|]. split; [done|]. exists h. by apply Hp.
  - intros d d' h. rewrite !Hp. apply N4.
Qed.

Lemma retired_alike names p p' d : alike_objects p p' -> retired names p d -> retired names p' d.
Proof. intros Ha (H1 & H2 & H3). split_and!; [done|done|]. intros a. rewrite (a_named_at _ _ Ha) by done. apply H3. Qed.

(** The dependency of a callback on a promise of the registry is not replaced. *)
Lemma promise_fixed hp p h : promises_ok hp p -> h ∈ hp -> ~ replaceable (heap_of p) h.
Proof.
  intros Hp Hin [Hge|(x & Hx & Hk)]; destruct (p_state _ _ Hp h Hin) as [Hlt Hst]; [lia|].
  destruct (Hst x Hx) as (_ & [[E _]|[E _]] & _); congruence.
Qed.

Lemma body_waits_keeps E hp p st w : keeps E no_body (heap_of p) st -> promises_ok hp p -> through w ∈ hp ->
  body_waits (heap_of p) w -> body_waits st w.
Proof.
  intros Hk Hp Hin [W1 W2]. split; [pose proof (k_next_b _ _ _ _ Hk); lia|].
  intros xb' Hxb' Hnp. destruct (k_body _ _ _ _ Hk _ _ W1 ltac:(tauto) Hxb' Hnp) as (xb & Hxb & Ekb & Hl).
  destruct (W2 xb Hxb) as (Hth & lk & Elk & Edep); [congruence|]. split; [congruence|].
  rewrite Elk in Hl. inversion Hl as [|? lk' ? ? Hkept Hnil E1 E2]; subst. inversion Hnil; subst. exists lk'. split; [done|].
  destruct Hkept as [->|Hrep]; [done|]. rewrite Edep in Hrep. by destruct (promise_fixed _ _ _ Hp Hin).
Qed.

Section Keeping.
Context (E : hid -> Prop) (p p' : process).
Context (Hk : keeps E no_body (heap_of p) (heap_of p')) (Ha : alike_objects p p').
Context (Hq : pros_deferred_trivial p' = pros_deferred_trivial p) (Hd : deferred_decrements p' = deferred_decrements p).

Lemma promises_ok_keeps names hp : names_ok names p -> (forall h, E h -> h ∉ hp) -> heap_ok p' -> promises_ok hp p -> promises_ok hp p'.
Proof using Hk Ha Hq Hd.
  intros Hnames HE Hh [P1 P2 P3 P4 P5 P6].
  assert (Hback : forall h x', h ∈ hp -> hs (heap_of p') !! h = Some x' -> exists x, hs (heap_of p) !! h = Some x /\ same x x').
  { intros h x' Hin Hx'. destruct (k_header _ _ _ _ Hk h x') as (x & Hx & _ & [HEh|Hs]); [by apply P2|done| |by exists x].
    by destruct (HE h HEh). }
  split.
  - intros d h. rewrite (a_promise _ _ Ha). apply P1.
  - intros h Hin. destruct (P2 h Hin) as [Hlt Hst]. split; [pose proof (k_next_h _ _ _ _ Hk); lia|].
    intros x' Hx'. destruct (Hback h x' Hin Hx') as (x & Hx & Ek & Ev & Er). rewrite Hq.
    destruct (Hst x Hx) as (S1 & S2 & S3). unfold promise_ok. rewrite Ek, Ev, Er. done.
  - intros d h x' v. rewrite (a_promise _ _ Ha). intros Hr Hx' Hv. destruct (Hback h x' (P1 _ _ Hr) Hx') as (x & Hx & _ & _ & Er).
    rewrite Er in Hv. destruct (P3 d h x v Hr Hx Hv) as (a & ? & Hna). exists a. split; [done|].
    apply (a_named_at _ _ Ha); [|done]. intros ->. rewrite (n_tomb _ _ Hnames) in Hr. done.
  - intros a d h Hna Hdt. rewrite (a_promise _ _ Ha). intros Hr. apply (a_named_at _ _ Ha) in Hna; [|done].
    destruct (P4 a d h Hna Hdt Hr) as (x & Hx & Hres). destruct (heap_live_held p' d h) as (x' & Hx'); [done|by apply (a_promise _ _ Ha)|].
    exists x'. split; [done|]. destruct (Hback h x' (P1 _ _ Hr) Hx') as (y & Hy & _ & _ & ->). congruence.
  - rewrite Hq, Hd. done.
  - rewrite Hq, Hd. done.
Qed.

Lemma arrival_ok_keeps names hp w : promises_ok hp p -> arrival_ok names hp p w -> arrival_ok names hp p' w.
Proof using Hk Ha.
  intros Hp (W1 & W2 & W3). split_and!; [done| |by eapply body_waits_keeps].
  destruct W2 as [?|?]; [left; by apply (a_promise _ _ Ha)|right; by eapply retired_alike].
Qed.

End Keeping.

Lemma alike_names_refl p : alike_names p p.
Proof. by split. Qed.

(** The same registry, and teams and objects with the same names. *)
Lemma alike_names_registry p p' : registry p' = registry p ->
  (forall a d, d <> tombstone -> team_named p' a d <-> team_named p a d) ->
  (forall a d, d <> tombstone -> named_at p' a d <-> named_at p a d) -> alike_names p p'.
Proof. intros Er Ht Hn. split; [split; [by rewrite Er|done]|by rewrite Er|done]. Qed.

Lemma heap_ok_same p p' : program p' = program p -> registry p' = registry p ->
  pros_deferred_trivial p' = pros_deferred_trivial p -> heap_ok p -> heap_ok p'.
Proof. intros E1 E2 E3. unfold heap_ok, full, internals. by rewrite E1, E2, E3. Qed.

(** A call by which no promise of the registry is touched. *)
Lemma ok_keeps_names E s p' names : keeps E no_body (heap_of (proc s)) (heap_of p') -> (forall h, E h -> h ∉ promises s) ->
  alike_objects (proc s) p' -> names_ok names p' -> issued s ⊆ names ->
  heap_ok p' -> pros_deferred_trivial p' = pros_deferred_trivial (proc s) ->
  deferred_decrements p' = deferred_decrements (proc s) -> ok s -> ok (mk_state p' names (promises s) (arrivals s)).
Proof.
  intros Hk HE Ha Hnames Hsub Hh Hq Hd [O1 O2 O3 O4]. split; cbn.
  - done.
  - done.
  - by eapply promises_ok_keeps.
  - eapply Forall_impl; [exact O4|]. intros w Hw. eapply arrival_ok_keeps in Hw; [|done..].
    destruct Hw as (? & W2 & ?). split_and!; [done| |done]. destruct W2 as [|(? & ? & ?)]; [by left|right; split_and!; auto].
Qed.

Lemma ok_keeps E s p' : keeps E no_body (heap_of (proc s)) (heap_of p') -> (forall h, E h -> h ∉ promises s) ->
  alike_names (proc s) p' -> heap_ok p' -> pros_deferred_trivial p' = pros_deferred_trivial (proc s) ->
  deferred_decrements p' = deferred_decrements (proc s) -> ok s -> ok (mk_state p' (issued s) (promises s) (arrivals s)).
Proof.
  intros Hk HE Ha Hh Hq Hd Hok. eapply ok_keeps_names; try done; [apply Ha|]. eapply names_ok_alike; [done|apply Hok].
Qed.

Lemma ok_same s p' : program p' = program (proc s) -> registry p' = registry (proc s) ->
  pros_deferred_trivial p' = pros_deferred_trivial (proc s) -> deferred_decrements p' = deferred_decrements (proc s) ->
  (forall a d, d <> tombstone -> team_named p' a d <-> team_named (proc s) a d) ->
  (forall a d, d <> tombstone -> named_at p' a d <-> named_at (proc s) a d) ->
  ok s -> ok (mk_state p' (issued s) (promises s) (arrivals s)).
Proof.
  intros Ep Er Eq Ed Ht Hn Hok. eapply (ok_keeps (fun _ => False)); try done.
  - unfold heap_of. rewrite Ep. apply keeps_refl.
  - by apply alike_names_registry.
  - eapply heap_ok_same; [done..|apply Hok].
Qed.

(** Promises and names that are observed are those that are there already, and new ones. *)
Lemma ok_weaken s names : issued s ⊆ names -> ok s -> ok (mk_state (proc s) names (promises s) (arrivals s)).
Proof.
  intros Hn [O1 [N0 N1 N2 N3 N4] O3 O4]. split; cbn; [done| |done|].
  - split; [done|done| |intros a d Hna Hd; destruct (N3 a d Hna Hd); split; [by apply Hn|done]|done].
    intros d a Hd. apply Hn. by eapply N2.
  - eapply Forall_impl; [exact O4|]. intros w (W1 & W2 & W3). split_and!; [done| |done].
    destruct W2 as [?|(? & ? & ?)]; [by left|right]. split_and!; [by apply Hn|done|done].
Qed.

Lemma held_promises s : ok s -> list_to_set (held (registry (proc s))) ∪ promises s = promises s.
Proof.
  intros Hok. apply set_eq. intros h. rewrite elem_of_union, elem_of_list_to_set, elem_of_held. split; [|by right].
  intros [(d & Hd)|]; [|done]. by eapply (p_held _ _ (ok_promises _ Hok)).
Qed.

End DistObjectState.
