(* ===== verification/DistObjectCalls.v ===== *)
(** The calls of a process with teams and distributed objects keep its invariant.

    One lemma for each part of the calls of [DistObject.v]: registering a promise,
    giving out its future, constructing, fulfilling and dropping it. *)
From S2P Require Import Prelude Digest FutureCore FutureInvariant FutureUpdates FutureSafety FutureSystem FutureFrame.
From S2P Require Import Teams DistObject DistObjectInvariant.

Module DistObjectCalls.
Import Digest Futures Invariant Updates Operations System Frame Teams DistObjects DistObjectState.

Lemma deq_true a b : deq a b = true <-> a = b.
Proof. unfold deq. rewrite andb_true_iff, !Z.eqb_eq. destruct a, b; cbn. split; [by intros [-> ->]|by intros [= -> ->]]. Qed.

Lemma dne_true a b : dne a b = true <-> a <> b.
Proof.
  unfold dne. rewrite orb_true_iff, !negb_true_iff, !Z.eqb_neq. split; [by intros [] ->|].
  intros Hn. destruct (decide (w0 a = w0 b)); [right|by left]. intros ?. apply Hn. destruct a, b; cbn in *; congruence.
Qed.

Lemma dne_false a b : dne a b = false <-> a = b.
Proof. rewrite <- not_true_iff_false, dne_true. split; [|intros ->; tauto]. destruct (decide (a = b)); tauto. Qed.

(** What registering a promise leaves as it is. *)
Record others (p p' : process) : Prop := {
  e_context : here_and_now p' = here_and_now p; e_teams : teams p' = teams p; e_objects : objects p' = objects p;
  e_deferred : pros_deferred_trivial p' = pros_deferred_trivial p;
  e_decrements : deferred_decrements p' = deferred_decrements p;
  e_roots : roots (program p') = roots (program p); e_running : running (program p') = running (program p);
  e_log : log (program p') = log (program p); e_active : active (heap_of p') = active (heap_of p);
  e_next_b : next_b (heap_of p') = next_b (heap_of p)
}.

(** * The registry *)


Definition fresh_promise (h : hid) : future_header := mk_header 1 status_results_no [] (Result h) (KPromise 1) false None.

Lemma registered_promise_new p d : has_master (here_and_now p) = true -> registry p !! d = None ->
  let h := next_h (heap_of p) in
  registered_promise d 0 p = Ok (h, put_registry (<[d := PromiseAt h]> (registry p))
    (put_futures (put h (fresh_promise h) (alloc (fresh_promise h) (heap_of p)).2) p)).
Proof.
  intros Hm Hd h. unfold registered_promise, assert_master. rewrite Hm. mcbn. rewrite Hd.
  unfold new_promise. cbn [Z.leb Z.compare Pos.compare Pos.compare_cont assert_that mbind res_bind alloc].
  unfold require_anonymous, get. cbn [hs]. fold h. rewrite lookup_insert_eq. mcbn. done.
Qed.

Lemma alloc_put h x st : h = next_h st -> put h x (alloc x st).2 = (alloc x st).2.
Proof. intros ->. unfold put, alloc. cbn. by rewrite insert_insert_eq. Qed.

(** A promise for a name that is not registered. *)
Section Register.
Context (s : state) (d : digest) (Hok : ok s) (Hdt : d <> tombstone) (Hd : registry (proc s) !! d = None).
Abbreviation h := (next_h (heap_of (proc s))).
Abbreviation p1 := (put_registry (<[d := PromiseAt h]> (registry (proc s)))
  (put_futures (alloc (fresh_promise h) (heap_of (proc s))).2 (proc s))).

Lemma register_heap : heap_ok p1.
Proof using Hok Hd.
  destruct (ok_heap _ Hok) as [P HP]. pose proof (heap_ok_inv _ _ HP) as Hi.
  destruct (new_promise_ok _ _ _ false 1 Hi) as (q & st & E & Hi' & ->); [lia|].
  injection E as <-. eapply (heap_ok_intro P (proc s)); [apply Hok|exact Hi'|done|done|].
  intros q. unfold internals. cbn [registry put_registry pros_deferred_trivial program put_futures put_program roots with_heap].
  rewrite held_insert by done. cbn [thing_promise]. change (option_list (Some h)) with [h].
  unfold bump. rewrite !tokens_app, tokens_one. unfold ind.
  repeat case_decide; subst; try done; lia.
Qed.

Lemma register_names : names_ok (issued s) p1.
Proof using Hok Hd Hdt.
  destruct (ok_names _ Hok) as [N0 N1 N2 N3 N4]. split; cbn.
  - by rewrite lookup_insert_ne.
  - intros d' a. destruct (decide (d' = d)) as [->|]; map_lookups; [|apply N1]. split; [done|]. intros [Ht Hn].
    assert (registry (proc s) !! d = Some (TeamAt a)) by by apply N1. congruence.
  - intros d' a. destruct (decide (d' = d)) as [->|]; map_lookups; [done|apply N2].
  - intros a d' Hn Hd'. destruct (N3 a d' Hn Hd') as [? [q Hq]]. split; [done|]. exists q. rewrite lookup_insert_ne; [done|congruence].
  - intros d1 d2 q. destruct (decide (d1 = d)) as [->|]; destruct (decide (d2 = d)) as [->|]; map_lookups; try done; [| |by apply N4].
    + intros [= <-] H2. pose proof (p_held _ _ (ok_promises _ Hok) _ _ H2) as Hp.
      destruct (p_state _ _ (ok_promises _ Hok) _ Hp). lia.
    + intros H1 [= <-]. pose proof (p_held _ _ (ok_promises _ Hok) _ _ H1) as Hp.
      destruct (p_state _ _ (ok_promises _ Hok) _ Hp). lia.
Qed.

Lemma old_promise q : q ∈ promises s -> q <> h.
Proof using Hok. intros Hq ->. destruct (p_state _ _ (ok_promises _ Hok) _ Hq). lia. Qed.

Lemma register_promises : promises_ok ({[h]} ∪ promises s) p1.
Proof using Hok Hd Hdt.
  destruct (ok_promises _ Hok) as [P1 P2 P3 P4 P5 P6]. split; cbn.
  - intros d' q. destruct (decide (d' = d)) as [->|]; map_lookups; [intros [= <-]; set_solver|]. intros ?%P1. set_solver.
  - intros q [->%elem_of_singleton|Hq]%elem_of_union.
    + split; [lia|]. map_lookups. intros x [= <-]. split_and!; [done| |done]. left. split; [done|]. left. split; [done|].
      intros Hin. destruct (proj2 P5 _ Hin) as [Hp _]. by apply (old_promise h).
    + destruct (P2 q Hq) as [Hlt Hst]. split; [lia|]. rewrite lookup_insert_ne by (by apply not_eq_sym, old_promise). done.
  - intros d' q x v. destruct (decide (d' = d)) as [->|]; map_lookups.
    + intros [= <-]. rewrite lookup_insert_eq. by intros [= <-].
    + intros Hr. rewrite lookup_insert_ne by (by eapply not_eq_sym, old_promise, P1). by apply P3.
  - intros a d' q Hn Hnd. destruct (decide (d' = d)) as [->|]; map_lookups.
    + destruct (n_object _ _ (ok_names _ Hok) a d Hn Hnd) as [_ [q' Hq']]. congruence.
    + intros Hr. rewrite lookup_insert_ne by (by eapply not_eq_sym, old_promise, P1). by eapply P4.
  - destruct P5 as [Hnd Hin]. split; [done|]. intros q Hq. destruct (Hin q Hq). split; [set_solver|done].
  - done.
Qed.

Lemma register_arrivals : Forall (arrival_ok (issued s) ({[h]} ∪ promises s) p1) (arrivals s).
Proof using Hok Hd Hdt.
  eapply Forall_impl; [apply Hok|]. intros w (W1 & W2 & W3). split_and!; cbn; [set_solver| |done].
  destruct W2 as [Hw|Hw]; [left|by right]. rewrite lookup_insert_ne; [done|congruence].
Qed.
End Register.

Lemma registered_promise_ok s d : ok s -> d <> tombstone -> (forall a, registry (proc s) !! d <> Some (TeamAt a)) ->
  has_master (here_and_now (proc s)) = true ->
  exists h p1, registered_promise d 0 (proc s) = Ok (h, p1) /\
    ok (mk_state p1 (issued s) ({[h]} ∪ promises s) (arrivals s)) /\ registry p1 !! d = Some (PromiseAt h) /\
    others (proc s) p1 /\
    (p1 = proc s \/ registry (proc s) !! d = None /\ registry p1 = <[d := PromiseAt h]> (registry (proc s))).
Proof.
  intros Hok Hdt Hnt Hm. destruct (registry (proc s) !! d) as [[a|h]|] eqn:Hd.
  { by destruct (Hnt a). }
  { exists h, (proc s). unfold registered_promise, assert_master. rewrite Hm. mcbn. rewrite Hd. split_and!; [done| |done|done|by left].
    replace ({[h]} ∪ promises s) with (promises s); [by destruct s|].
    pose proof (p_held _ _ (ok_promises _ Hok) _ _ Hd). set_solver. }
  do 2 eexists. split; [by apply registered_promise_new|]. rewrite alloc_put by done.
  split; [|split; [apply lookup_insert_eq|split; [done|right; done]]]. split.
  - exact (register_heap s d Hok Hd).
  - exact (register_names s d Hok Hdt Hd).
  - exact (register_promises s d Hok Hdt Hd).
  - exact (register_arrivals s d Hok Hdt Hd).
Qed.

(** * Promises of the registry *)

(** The header of a promise that is alive. *)
Record live_promise (s : state) (h : hid) (x : future_header) : Prop := {
  l_header : hs (heap_of (proc s)) !! h = Some x;
  l_ok : promise_ok (pros_deferred_trivial (proc s)) h x;
  l_named : h <> always;
  l_load : load x = Result h;
  l_ref : 0 < ref_n x;
  l_status : match kind x with
             | KPromise 0 => status x = status_ready
             | _ => status x = match results x with Some _ => status_results_yes | None => status_results_no end
             end
}.

Lemma promise_live s h x : ok s -> h ∈ promises s -> hs (heap_of (proc s)) !! h = Some x -> live_promise s h x.
Proof.
  intros Hok Hin Hx. destruct (p_state _ _ (ok_promises _ Hok) h Hin) as [_ Hst]. specialize (Hst x Hx).
  destruct (ok_heap _ Hok) as [P [Hi _]]. pose proof Hst as (Hv & Hk & _).
  assert (Ha : h <> always).
  { intros ->. destruct (s_always _ _ (proj2 Hi)) as (y & Hy & Ek & _). cbn in Hy. unfold heap_of in Hx.
    assert (x = y) as -> by congruence. destruct Hk as [[E _]|[E _]]; congruence. }
  pose proof (s_header _ _ (proj2 Hi) _ _ Hx) as Hh. unfold header_ok in Hh.
  assert (Hpos : 0 < ref_n x) by (by apply (c_pos _ _ _ (proj1 Hi) h)).
  destruct Hk as [[E Hr]|[E Hr]]; rewrite E in Hh; destruct Hh as [Hl Hh].
  - case_decide as Hd; [destruct Hh as (? & _); lia|]. split; try done. rewrite E.
    destruct Hh as [_ [[Es Hn]|(Es & _ & Hn)]]; rewrite Es; [by destruct (results x)|by rewrite Hn].
  - case_decide as Hd; [|destruct Hh as (? & _); lia]. split; try done. by rewrite E.
Qed.

Lemma live_not_proxy s h x : live_promise s h x -> status x <> status_proxying /\ status x <> status_proxying_active.
Proof.
  intros Hl. pose proof (l_status _ _ _ Hl) as Hs. destruct (kind x) as [|[| |]|], (results x); rewrite Hs; done.
Qed.

Lemma promise_alive s d h : ok s -> registry (proc s) !! d = Some (PromiseAt h) -> exists x, live_promise s h x.
Proof.
  intros Hok Hd. destruct (heap_live_held _ _ _ (ok_heap _ Hok) Hd) as [x Hx]. exists x.
  apply promise_live; [done| |done]. by eapply p_held; [apply Hok|].
Qed.

(** One more reference to a promise. *)
Lemma promise_incref_ok s P h x own : ok s -> live_promise s h x -> heap_inv P (proc s) own (heap_of (proc s)) ->
  let st := put h (set_ref (ref_n x + 1) x) (heap_of (proc s)) in
  promise_incref h 1 (heap_of (proc s)) = Ok st /\ heap_inv P (proc s) (bump own h 1) st /\ drops (heap_of (proc s)) st.
Proof.
  intros Hok Hl Hi st. pose proof (l_ref _ _ _ Hl) as Hpos. destruct (incref_ok own _ h x Hi (l_header _ _ _ Hl)) as (st' & E & Hi' & _); [left; lia|].
  assert (Es : incref h 1 (heap_of (proc s)) = Ok st).
  { unfold incref. rewrite (get_some _ _ _ (l_header _ _ _ Hl)). mcbn. by rewrite (proj2 (Z.leb_le 0 _)) by lia. }
  rewrite Es in E. injection E as <-. split_and!; [|done|].
  - unfold promise_incref. by rewrite (get_some _ _ _ (l_header _ _ _ Hl)).
  - eapply drops_put; [apply Hl|done|done].
Qed.

(** ** Giving out futures *)

Lemma alike_teams_objects p p' : registry p' = registry p -> teams p' = teams p -> objects p' = objects p -> alike_names p p'.
Proof. intros E1 E2 E3. apply alike_names_registry; [done|..]; unfold team_named, named_at; by rewrite ?E2, ?E3. Qed.

Lemma give_promise_ok s d h x : ok s -> registry (proc s) !! d = Some (PromiseAt h) -> live_promise s h x ->
  let p' := give h (put h (set_ref (ref_n x + 1) x) (heap_of (proc s))) (proc s) in
  ok (mk_state p' (issued s) (promises s) (arrivals s)).
Proof.
  intros Hok Hd Hl p'. destruct (ok_heap _ Hok) as [P HP]. pose proof (heap_ok_inv _ _ HP) as Hi.
  destruct (promise_incref_ok s P h x _ Hok Hl Hi) as (_ & Hi' & Hdr).
  eapply (ok_keeps (fun _ => False)); try done.
  - by apply drops_keeps.
  - eapply (heap_ok_intro P (proc s)); [apply Hok|exact Hi'|done|done|]. intros q.
    unfold internals. cbn [registry pros_deferred_trivial p' give put_program program roots gain fst].
    unfold bump. rewrite !tokens_app, tokens_cons. unfold ind. repeat case_decide; subst; try done; lia.
Qed.

Lemma when_here_ok s d : ok s -> initialized (proc s) = true -> has_master (here_and_now (proc s)) = true -> d <> tombstone ->
  (forall a, registry (proc s) !! d <> Some (TeamAt a)) ->
  exists h p', when_here d (proc s) = Ok (h, p') /\ ok (mk_state p' (issued s) ({[h]} ∪ promises s) (arrivals s)) /\
    registry p' !! d = Some (PromiseAt h) /\ roots (program p') = h :: roots (program (proc s)) /\
    running (program p') = running (program (proc s)) /\ active (heap_of p') = active (heap_of (proc s)) /\
    next_b (heap_of p') = next_b (heap_of (proc s)).
Proof.
  intros Hok Hin Hm Hdt Hnt. destruct (registered_promise_ok s d Hok Hdt Hnt Hm) as (h & p1 & E & Hok1 & Hr & Ho & _).
  destruct (promise_alive _ d h Hok1 Hr) as [x Hl]. exists h. eexists. unfold when_here, assert_init, assert_not_tomb.
  rewrite Hin. assert (dne d tombstone = true) as ->. { by apply dne_true. }
  mcbn. rewrite E. mcbn. destruct (ok_heap _ Hok1) as [P HP].
  destruct (promise_incref_ok _ P h x _ Hok1 Hl (heap_ok_inv _ _ HP)) as (Ei & _ & _). cbn [proc] in Ei. rewrite Ei. mcbn.
  split; [done|]. split; [by apply (give_promise_ok _ d h x Hok1 Hr)|]. cbn. destruct Ho. split_and!; try done. by f_equal.
Qed.

(** * Calls that arrive *)

Lemma drop_for_result_bs a st r st' : drop_for_result a st = Ok (r, st') -> bs st' = bs st.
Proof.
  intros H. unfold drop_for_result in H. binds H. injection H as -> ->.
  set (s1 := if _ =? 1 then put a _ st else st) in *. assert (bs s1 = bs st) as <-.
  { subst s1. match goal with |- bs (if ?b then _ else _) = _ => by destruct b end. }
  set (s2 := if _ =? 1 then put r _ s1 else s1) in *. assert (bs s2 = bs s1) as <-.
  { subst s2. match goal with |- bs (if ?b then _ else _) = _ => by destruct b end. }
  clearbody s1 s2. match type of Hr2 with (if ?b then _ else _) = _ => destruct b end; [|by injection Hr2 as <-]. unfold free in Hr2. binds Hr2. by injection Hr2 as <-.
Qed.

(** The body of a callback on the future of a promise. *)
Lemma make_header_single v h x st t st' : hs st !! h = Some x -> load x = Result h ->
  status x <> status_proxying -> status x <> status_proxying_active -> (h < next_h st)%nat ->
  make_header BThen v [h] st = Ok (t, st') ->
  exists xb, bs st' !! next_b st = Some xb /\ bkind xb = BThen /\ exists lk, links xb = [lk] /\ dep lk = h.
Proof.
  intros Hx Hl Hp1 Hp2 Hlt H. unfold make_header in H. cbn [alloc_body alloc] in H.
  set (s1 := mk_heap (<[_ := _]> _) _ _ _ _) in H. cbn [next_b next_h hs bs] in s1.
  assert (Hx1 : hs s1 !! h = Some x) by (cbn; by rewrite lookup_insert_ne by lia).
  apply bind_ok in H as (s2 & H & H2). cbn [add_dependencies] in H. apply bind_ok in H as (s2' & H & [= <-]).
  assert (Hb : bs s2' !! next_b st = bs st' !! next_b st).
  { binds H2. injection H2 as <- <-. by case_match. }
  rewrite <- Hb. clear H2 Hb st'. unfold add_dependency in H. rewrite (get_some _ _ _ Hx1) in H. cbn [mbind res_bind] in H.
  rewrite (proj2 (Z.eqb_neq _ _) Hp1), (proj2 (Z.eqb_neq _ _) Hp2) in H. cbn [orb mbind res_bind] in H.
  rewrite (get_some _ _ _ Hx1) in H. cbn [mbind res_bind] in H.
  assert (Hbs : bs s1 !! next_b st = Some (mk_body BThen [])) by apply lookup_insert_eq. clearbody s1.
  destruct (negb (status x =? status_ready)).
  - binds H. injection H as <-. unfold get_body in Hr. rewrite Hbs in Hr. injection Hr as <-. cbn. rewrite lookup_insert_eq.
    eexists. split; [done|]. split; [done|]. by eexists.
  - destruct (drop_for_result h s1) as [[r s3]| | |] eqn:Ed; try done. cbn [mbind res_bind] in H.
    assert (r = h) as ->.
    { unfold drop_for_result in Ed. rewrite (get_some _ _ _ Hx1) in Ed. cbn [mbind res_bind] in Ed. unfold result_of in Ed.
      rewrite Hl in Ed. cbn [mbind res_bind] in Ed. binds Ed. by injection Ed as <- _. }
    apply drop_for_result_bs in Ed. binds H. injection H as <-. unfold get_body in Hr. rewrite Ed, Hbs in Hr.
    injection Hr as <-. cbn. rewrite lookup_insert_eq. eexists. split; [done|]. split; [done|]. by eexists.
Qed.

Lemma off_wire_then_eq is_void d p : off_wire_then is_void d p =
  '(h, p) ← when_here d p;
  l ← deref (take_root h (roots (program p)));
  '(t, st) ← make_header BThen is_void [h] (heap_of p);
  Ok (t, put_program (gain (with_roots (program p) l) (t, st)) p).
Proof. done. Qed.

(** A system step of the futures of a process is one of all its references. *)
Lemma exec_full p a r : exec a (program p) = Some r -> exec a (full p) = Some (fmap_res (more (internals p)) r).
Proof. apply exec_more. Qed.

Lemma exec_process_ok s a r : ok s -> exec a (program (proc s)) = Some r -> (forall h, operated a h -> h ∉ promises s) ->
  r = Aborted /\ misuse a (full (proc s)) \/ exists x, r = Ok x /\ ok (mk_state (put_program x (proc s)) (issued s) (promises s) (arrivals s)).
Proof.
  intros Hok Hr HE. destruct (ok_heap _ Hok) as [P HP]. pose proof (exec_full _ _ _ Hr) as Hf.
  set (P' := {[next_h (futures (full (proc s)))]} ∪ P).
  assert (HP' : sys_inv ∅ P' (full (proc s))) by (eapply sys_pend_mono; [exact HP|unfold P'; set_solver]).
  destruct (exec_outcome _ _ _ _ _ HP' ltac:(unfold P'; set_solver) Hf) as [(y & Ey & Hy & _)|[Ea Hmis]].
  - right. apply fmap_res_ok in Ey as (x & -> & ->). exists x. split; [done|]. cbn [fmap_res mbind res_bind] in Hf.
    pose proof (exec_keeps _ _ _ _ _ HP' Hf) as Hk. eapply (ok_keeps (operated a)); try done. exists P'. exact Hy.
  - left. split; [by destruct r|done].
Qed.

Lemma arrive_ok s is_void d : ok s -> can_call (proc s) = true -> initialized (proc s) = true ->
  has_master (here_and_now (proc s)) = true -> d <> tombstone -> (forall a, registry (proc s) !! d <> Some (TeamAt a)) ->
  exists t h p', off_wire_then is_void d (proc s) = Ok (t, p') /\ registry p' !! d = Some (PromiseAt h) /\
    ok (mk_state p' (issued s) ({[h]} ∪ promises s) (mk_arrival (next_b (heap_of (proc s))) d h :: arrivals s)).
Proof.
  intros Hok Hc Hin Hm Hdt Hnt.
  destruct (when_here_ok s d Hok Hin Hm Hdt Hnt) as (h & p1 & E & Hok1 & Hr & Er & Erun & Eact & Enb).
  unfold off_wire_then. rewrite E. mcbn. rewrite Er. cbn [take_root]. rewrite decide_True by done. mcbn.
  set (s1 := mk_state p1 _ _ _) in Hok1. destruct (promise_alive s1 d h Hok1 Hr) as [x Hl].
  assert (Hx : exec (Then is_void [h]) (program p1) = Some (fmap_res (gain (with_roots (program p1) (roots (program (proc s)))))
    (make_header BThen is_void [h] (heap_of p1)))).
  { unfold can_call in Hc. unfold exec. cbn [user_action take_roots]. rewrite Er. cbn [take_root]. rewrite decide_True by done.
    cbn [mbind option_bind]. rewrite Erun. unfold heap_of in *. rewrite Eact.
    by destruct (running (program (proc s))), (active (futures (program (proc s)))). }
  destruct (exec_process_ok s1 _ _ Hok1 Hx) as [[_ []]|(y & Ey & Hoky)]; [done|].
  apply fmap_res_ok in Ey as ([t st] & Emk & ->). cbn [proc s1] in Emk. rewrite Emk. mcbn. do 3 eexists. split; [done|].
  assert (Hreg : registry (put_program (gain (with_roots (program p1) (roots (program (proc s)))) (t, st)) p1) !! d = Some (PromiseAt h))
    by exact Hr.
  split; [exact Hreg|]. destruct Hoky as [O1 O2 O3 O4]. split; [done|done|done|]. cbn. constructor; [|done].
  assert (Hin' : h ∈ promises s1) by (cbn; set_solver).
  destruct (live_not_proxy _ _ _ Hl) as [Hp1 Hp2].
  destruct (make_header_single is_void h x (heap_of p1) t st (l_header _ _ _ Hl) (l_load _ _ _ Hl) Hp1 Hp2
    (proj1 (p_state _ _ (ok_promises _ Hok1) _ Hin')) Emk) as (xb & Hxb & Hk & Hlk).
  rewrite Enb in Hxb. split; [exact Hin'|]. split; [by left|]. split; cbn.
  - destruct O1 as [P [Hi _]]. destruct (decide (next_b (heap_of (proc s)) < next_b st)%nat) as [|Hge]; [done|].
    pose proof (proj2 (s_fresh _ _ (proj2 Hi)) (next_b (heap_of (proc s)))) as Hf. cbn in Hf. rewrite Hf in Hxb; [done|lia].
  - intros xb' Hxb' _. assert (xb' = xb) as -> by (unfold heap_of in *; cbn in Hxb'; congruence). done.
Qed.

(** * Operations on one promise of the registry *)

(** The promise [h] changes, of the name [d] if it has one; the others do not. *)
Section Touched.
Context (s : state) (p' : process) (names : gset digest) (d : digest) (h : hid).
Context (Hok : ok s) (Hp : h ∈ promises s) (Hd : forall e, registry (proc s) !! e = Some (PromiseAt h) -> e = d).
Context (Hdq : forall q, registry (proc s) !! d = Some (PromiseAt q) -> q = h).
Context (Hk : keeps (fun q => q = h) no_body (heap_of (proc s)) (heap_of p')) (Hheap : heap_ok p') (Hnames : names_ok names p').
Context (Hreg : forall e q, registry p' !! e = Some (PromiseAt q) -> registry (proc s) !! e = Some (PromiseAt q)).
Context (Hn : forall b e, e <> tombstone -> e <> d -> named_at p' b e <-> named_at (proc s) b e).
Context (Hq : forall q, q <> h -> q ∈ pros_deferred_trivial p' <-> q ∈ pros_deferred_trivial (proc s)).
Context (Hnd : NoDup (pros_deferred_trivial p')).
Context (Hdec : forall q, q <> h -> deferred_decrements p' !! q = deferred_decrements (proc s) !! q).
Context (Hdh : if decide (h ∈ pros_deferred_trivial p') then deferred_decrements p' !! h = Some 1
               else default 0 (deferred_decrements p' !! h) = 0).
Context (Hh : forall x', hs (heap_of p') !! h = Some x' -> promise_ok (pros_deferred_trivial p') h x').
Context (Hcon : forall x' v, registry p' !! d = Some (PromiseAt h) -> hs (heap_of p') !! h = Some x' -> results x' = Some v ->
                 exists a, v = [a] /\ named_at p' a d).
Context (Hobj : forall a, named_at p' a d -> d <> tombstone -> registry p' !! d = Some (PromiseAt h) ->
                 exists x', hs (heap_of p') !! h = Some x' /\ results x' = Some [a]).
Context (Hw : forall e q, registry (proc s) !! e = Some (PromiseAt q) -> registry p' !! e = Some (PromiseAt q) \/ retired names p' e).
Context (Hr : forall e, retired (issued s) (proc s) e -> retired names p' e).

Lemma other_header q y' : q ∈ promises s -> q <> h -> hs (heap_of p') !! q = Some y' ->
  exists y, hs (heap_of (proc s)) !! q = Some y /\ same y y'.
Proof using Hok Hk.
  intros Hin Hne Hy'. destruct (k_header _ _ _ _ Hk q y') as (y & Hy & _ & [?|Hs]); [|done|done|by exists y].
  by apply (p_state _ _ (ok_promises _ Hok)).
Qed.

Lemma touched_promises : promises_ok (promises s) p'.
Proof using All.
  destruct (ok_promises _ Hok) as [P1 P2 P3 P4 [P5 P5'] P6].
  assert (Hname : forall e, registry p' !! e = Some (PromiseAt h) -> e = d).
  { intros e He%Hreg. by apply Hd. }
  assert (Htomb : forall e q, registry p' !! e = Some (PromiseAt q) -> e <> tombstone).
  { intros e q He ->. rewrite (n_tomb _ _ Hnames) in He. done. }
  assert (Hne : forall e q, registry p' !! e = Some (PromiseAt q) -> e <> d -> q <> h).
  { intros e q He Hed ->. by apply Hed, Hname. }
  split.
  - intros e q He%Hreg. by eapply P1.
  - intros q Hin. destruct (P2 q Hin) as [Hlt Hst]. split; [pose proof (k_next_h _ _ _ _ Hk); lia|].
    intros y' Hy'. destruct (decide (q = h)) as [->|Hqh]; [by apply Hh|].
    destruct (other_header q y' Hin Hqh Hy') as (y & Hy & Ek & Ev & Eres). unfold promise_ok. rewrite Ek, Ev, Eres, Hq by done.
    by apply Hst.
  - intros e q y' v He Hy' Hv. destruct (decide (e = d)) as [->|Hed].
    { assert (q = h) as -> by (by apply Hdq, Hreg). by eapply Hcon. }
    destruct (other_header q y' (P1 _ _ (Hreg _ _ He)) (Hne _ _ He Hed) Hy') as (y & Hy & _ & _ & Eres). rewrite Eres in Hv.
    destruct (P3 e q y v (Hreg _ _ He) Hy Hv) as (b & -> & Hb). exists b. split; [done|]. apply Hn; [by eapply Htomb|done|done].
  - intros b e q Hb Het He. destruct (decide (e = d)) as [->|Hed].
    { assert (q = h) as -> by (by apply Hdq, Hreg). by apply Hobj. }
    apply Hn in Hb; [|done|done]. destruct (P4 b e q Hb Het (Hreg _ _ He)) as (y & Hy & Hy2).
    destruct (heap_live_held p' e q Hheap He) as [y' Hy']. exists y'. split; [done|].
    destruct (other_header q y' (P1 _ _ (Hreg _ _ He)) (Hne _ _ He Hed) Hy') as (y0 & Hy0 & _ & _ & ->). congruence.
  - split; [done|]. intros q Hin. destruct (decide (q = h)) as [->|Hqh].
    + split; [done|]. by rewrite decide_True in Hdh by done.
    + rewrite Hdec by done. apply P5'. by apply Hq.
  - intros q Hin. destruct (decide (q = h)) as [->|Hqh]; [by rewrite decide_False in Hdh by done|].
    rewrite Hdec by done. apply P6. by rewrite <- Hq.
Qed.

Lemma touched_ok : ok (mk_state p' names (promises s) (arrivals s)).
Proof using All.
  split; [done|done|apply touched_promises|]. cbn.
  eapply Forall_impl; [apply Hok|]. intros w (W1 & W2 & W3). split_and!; [done| |].
  - destruct W2 as [?|?]; [by apply Hw|right; by apply Hr].
  - eapply body_waits_keeps; [exact Hk|apply Hok|done|done].
Qed.
End Touched.

(** * An object becomes active *)

Lemma registered_promise_beside d n l m p : registered_promise d n (put_teams l (put_objects m p)) =
  '(h, p) ← registered_promise d n p; Ok (h, put_teams l (put_objects m p)).
Proof.
  unfold registered_promise, assert_master. cbn [here_and_now put_teams put_objects registry heap_of program].
  destruct (has_master (here_and_now p)); [|done]. mcbn. destruct (registry p !! d) as [[a|h]|]; try done.
  unfold heap_of. cbn [program]. destruct (new_promise false 1 _) as [[h st]| | |]; try done. mcbn.
  by destruct (require_anonymous h n st).
Qed.

(** A promise whose name is new has no results. *)
Lemma new_name_empty s d h x : ok s -> registry (proc s) !! d = Some (PromiseAt h) -> live_promise s h x ->
  d ∉ issued s -> d <> tombstone ->
  results x = None /\ kind x = KPromise 1 /\ status x = status_results_no /\ h ∉ pros_deferred_trivial (proc s).
Proof.
  intros Hok Hd Hl Hnew Hdt. assert (Hnone : results x = None).
  { destruct (results x) as [v|] eqn:Ev; [exfalso|done].
    destruct (p_constructed _ _ (ok_promises _ Hok) d h x v Hd (l_header _ _ _ Hl) Ev) as (b & _ & Hb).
    by destruct (n_object _ _ (ok_names _ Hok) b d Hb Hdt). }
  pose proof (l_status _ _ _ Hl) as Hs. rewrite Hnone in Hs.
  destruct (l_ok _ _ _ Hl) as (_ & [[Hk [[_ Hnq]|[? _]]]|(_ & ? & _)] & _); [|congruence..]. rewrite Hk in Hs. done.
Qed.

Definition named_object (a : addr) (d : digest) (o : dist_object) (p : process) : process :=
  put_object a (mk_object (tm_ o) d (value_ o)) p.

Lemma put_object_named_at p a o b e : named_at (put_object a o p) b e <->
  if decide (b = a) then object_id o = e else named_at p b e.
Proof.
  unfold named_at, put_object. cbn. case_decide as Hb; [subst; rewrite lookup_insert_eq|by rewrite lookup_insert_ne].
  split; [by intros (? & [= <-] & ?)|]. intros. by exists o.
Qed.

Lemma put_team_named p a t b e : team_named (put_team a t p) b e <->
  if decide (b = a) then id_ t = e else team_named p b e.
Proof.
  unfold team_named, put_team. cbn. case_decide as Hb; [subst; rewrite lookup_insert_eq|by rewrite lookup_insert_ne].
  split; [by intros (? & [= <-] & ?)|]. intros. by exists t.
Qed.

(** Names when one more object is named, and teams are the same. *)
Lemma named_names s p' a d h : ok s -> registry p' = registry (proc s) -> registry (proc s) !! d = Some (PromiseAt h) ->
  (forall b e, e <> tombstone -> team_named p' b e <-> team_named (proc s) b e) ->
  (forall b e, e <> tombstone -> named_at p' b e <-> named_at (proc s) b e \/ b = a /\ e = d) ->
  names_ok ({[d]} ∪ issued s) p'.
Proof.
  intros Hok Er Hd Ht Hn. destruct (ok_names _ Hok) as [N0 N1 N2 N3 N4]. split; rewrite Er.
  - done.
  - intros e b. rewrite N1. split; intros [? He]; (split; [|done]); by apply Ht.
  - intros e b ?%N2. set_solver.
  - intros b e He Het. apply Hn in He as [He|[-> ->]]; [|split; [set_solver|by exists h]|done].
    destruct (N3 b e He Het). split; [set_solver|done].
  - done.
Qed.

(** The promise of a new name gets the address of its object, and is deferred. *)
Lemma fulfill_new_ok s p a d h x : ok s -> registry (proc s) !! d = Some (PromiseAt h) -> live_promise s h x ->
  d ∉ issued s -> d <> tombstone -> has_master (here_and_now (proc s)) = true ->
  program p = program (proc s) -> registry p = registry (proc s) -> here_and_now p = here_and_now (proc s) ->
  pros_deferred_trivial p = pros_deferred_trivial (proc s) -> deferred_decrements p = deferred_decrements (proc s) ->
  (forall b e, e <> tombstone -> team_named p b e <-> team_named (proc s) b e) ->
  (forall b e, e <> tombstone -> named_at p b e <-> named_at (proc s) b e \/ b = a /\ e = d) ->
  exists p', (st ← promise_incref h 1 (heap_of p); fulfill_during_user h [a] (put_futures st p)) = Ok p' /\
    ok (mk_state p' ({[d]} ∪ issued s) (promises s) (arrivals s)) /\ registry p' = registry p.
Proof.
  intros Hok Hd Hl Hnew Hdt Hm Ep Er Ec Eq Ed Ht Hn. destruct (new_name_empty s d h x Hok Hd Hl Hnew Hdt) as (Hnone & Hkind & Hst & Hnq).
  destruct (ok_heap _ Hok) as [P HP]. destruct (promise_incref_ok s P h x _ Hok Hl (heap_ok_inv _ _ HP)) as (Ei & Hi & Hdr).
  unfold heap_of at 1. rewrite Ep. fold (heap_of (proc s)). rewrite Ei. mcbn.
  set (st := put h (set_ref (ref_n x + 1) x) (heap_of (proc s))) in *.
  set (x1 := set_ref (ref_n x + 1) x). set (x2 := set_status status_results_yes (set_results (Some [a]) x1)).
  assert (Hx1 : hs st !! h = Some x1) by apply lookup_insert_eq.
  unfold fulfill_during_user, construct_results. change (heap_of (put_futures st p)) with st.
  rewrite (get_some _ _ _ Hx1). mcbn. change (status x1) with (status x). rewrite Hst. mcbn.
  unfold fulfill_during_user_of_active, assert_master. cbn [here_and_now put_futures put_program deferred_decrements pros_deferred_trivial].
  rewrite Ec, Hm. mcbn. rewrite Ed, (p_zero _ _ (ok_promises _ Hok)) by done. cbn [Z.add Z.eqb Pos.eqb].
  eexists. split; [done|]. split; [|done].
  assert (Hi2 : heap_inv P (proc s) (bump (tokens (roots (program (proc s)) ++ internals (proc s))) h 1) (put h x2 st)).
  { eapply (promise_put _ _ _ _ x1 x2 1 1); try done. by left. }
  set (p' := put_deferred _ _ _). 
  assert (Hx2 : hs (heap_of p') !! h = Some x2) by apply lookup_insert_eq.
  assert (Hreg : registry p' = registry (proc s)) by exact Er.
  assert (Hq' : pros_deferred_trivial p' = pros_deferred_trivial (proc s) ++ [h]) by (cbn; by rewrite Eq).
  assert (Hna : forall b e, e <> tombstone -> named_at p' b e <-> named_at (proc s) b e \/ b = a /\ e = d) by exact Hn.
  apply (touched_ok s p' _ d h); rewrite ?Hreg, ?Hq'; try done.
  - by eapply p_held; [apply Hok|].
  - intros e He. by eapply (n_once _ _ (ok_names _ Hok)).
  - intros q Hq. congruence.
  - eapply keeps_then_put; [by apply drops_keeps|exact Hx1|done|by left].
  - eapply (heap_ok_intro P (proc s)); [apply Hok|exact Hi2|cbn; by rewrite Ep..|]. intros q. unfold internals.
    rewrite Hreg, Hq'. cbn [program p' put_deferred put_futures put_program with_heap roots]. rewrite Ep.
    unfold bump. rewrite !tokens_app, tokens_one. unfold ind. repeat case_decide; subst; try done; lia.
  - eapply named_names; [apply Hok|exact Hreg|exact Hd|exact Ht|exact Hna].
  - intros b e Het Hed. rewrite Hna by done. naive_solver.
  - intros q Hqh. rewrite elem_of_app, list_elem_of_singleton. naive_solver.
  - apply NoDup_app. split_and!; [apply (p_queue _ _ (ok_promises _ Hok))| |apply NoDup_singleton].
    by intros q Hin ->%list_elem_of_singleton.
  - intros q Hqh. cbn. by rewrite lookup_insert_ne by done.
  - rewrite decide_True by (apply elem_of_app; right; by left). apply lookup_insert_eq.
  - intros y Hy. assert (y = x2) as -> by congruence. split_and!; [apply (l_ok _ _ _ Hl)| |].
    + left. split; [done|]. right. split; [done|]. apply elem_of_app. right. by left.
    + intros v [= <-]. by exists a.
  - intros y v _ Hy. assert (y = x2) as -> by congruence. intros [= <-]. exists a. split; [done|]. apply Hna; auto.
  - intros b Hb _ _. apply Hna in Hb as [Hb|[-> _]]; [|by exists x2|done]. by destruct (n_object _ _ (ok_names _ Hok) b d Hb Hdt).
  - intros e q He. left. done.
  - intros e (R1 & R2 & R3). split_and!; [set_solver|done|]. intros b [Hb|[-> ->]]%Hna; [by eapply R3|done|done].
Qed.

Lemma create_ok s a o t d : ok s -> objects (proc s) !! a = Some o -> object_id o = tombstone -> tm_ o <> 0 ->
  teams (proc s) !! tm_ o = Some t -> eat (id_ t) (coll_counter_ t) 0 = d -> d ∉ issued s -> d <> tombstone ->
  initialized (proc s) = true -> has_master (here_and_now (proc s)) = true -> in_progress (here_and_now (proc s)) = false ->
  exists h p', create_ a (proc s) = Ok p' /\ registry p' !! d = Some (PromiseAt h) /\
    ok (mk_state p' ({[d]} ∪ issued s) ({[h]} ∪ promises s) (arrivals s)) /\
    (forall e q, registry p' !! e = Some (PromiseAt q) -> q ∈ {[h]} ∪ promises s).
Proof.
  intros Hok Ho Hid Htm Ht Ed Hnew Hdt Hin Hm Hpr.
  assert (Hnt : forall b, registry (proc s) !! d <> Some (TeamAt b)).
  { intros b Hb. by apply Hnew, (n_team_issued _ _ (ok_names _ Hok) d b). }
  destruct (registered_promise_ok s d Hok Hdt Hnt Hm) as (h & p1 & E & Hok1 & Hr & Hoth & _). set (s1 := mk_state p1 _ _ _) in Hok1.
  destruct (promise_alive s1 d h Hok1 Hr) as [x Hl]. destruct Hoth.
  unfold create_, assert_init, assert_master, assert_collective_safe, object_at. rewrite Hin, Hm, Hpr, Ho. mcbn.
  rewrite (proj2 (Z.eqb_neq _ _) Htm). mcbn. unfold next_collective_id, team_at. rewrite Ht. mcbn. rewrite Ed.
  set (t' := mk_team _ _ _ _ _). unfold object_put_id, object_at. cbn [objects put_team put_teams]. rewrite Ho. mcbn.
  rewrite (proj2 (dne_true d tombstone) Hdt). mcbn. set (o' := mk_object (tm_ o) d (value_ o)).
  change (put_object a o' (put_team (tm_ o) t' (proc s)))
    with (put_teams (<[tm_ o := t']> (teams (proc s))) (put_objects (<[a := o']> (objects (proc s))) (proc s))).
  rewrite registered_promise_beside, E. mcbn. set (p2 := put_teams _ (put_objects _ p1)).
  destruct (fulfill_new_ok s1 p2 a d h x Hok1 Hr Hl Hnew Hdt) as (p' & -> & Hok' & Er'); try done.
  - cbn. by rewrite e_context0.
  - intros b e He. unfold team_named, p2. cbn. rewrite e_teams0.
    destruct (decide (b = tm_ o)) as [->|]; [rewrite lookup_insert_eq, Ht|by rewrite lookup_insert_ne].
    split; intros (u & [= <-] & Hu); by eexists.
  - intros b e He. unfold named_at, p2. cbn. rewrite e_objects0.
    destruct (decide (b = a)) as [->|]; [rewrite lookup_insert_eq, Ho|rewrite lookup_insert_ne by done; naive_solver].
    split; [intros (u & [= <-] & <-); auto|]. intros [(u & [= <-] & Hu)|[_ ->]]; [congruence|by eexists].
  - exists h, p'. split; [done|]. split; [rewrite Er'; exact Hr|]. split; [exact Hok'|].
    intros e q He. rewrite Er' in He. by eapply (p_held _ _ (ok_promises _ Hok1)).
Qed.

(** * Fulfilling, moving, deleting *)

Lemma fulfill_deferred_ok s P h x own : ok s -> live_promise s h x -> kind x = KPromise 1 -> status x = status_results_yes ->
  heap_inv P (proc s) own (heap_of (proc s)) -> (forall q, 0 <= own q) -> 1 <= own h ->
  exists st, fulfill_deferred_and_drop h 1 (heap_of (proc s)) = Ok st /\ heap_inv P (proc s) (bump own h (-1)) st /\
    keeps (fun q => q = h) no_body (heap_of (proc s)) st /\
    forall x', hs st !! h = Some x' -> void x' = void x /\ kind x' = KPromise 0 /\ results x' = results x.
Proof.
  intros Hok Hl Hk Hs Hi Hown Ho. pose proof (l_header _ _ _ Hl) as Hx.
  destruct (fulfill_ok _ own _ h x 1 1 Hi eq_refl eq_refl eq_refl Hx Hk ltac:(lia) ltac:(lia) (fun _ => Hs)) as (s1 & Ef & Hi1 & Hh1).
  change (1 - 1) with 0 in Hh1. cbn [Z.eqb] in Hh1.
  assert (Hk1 : keeps (fun q => q = h) no_body (heap_of (proc s)) s1).
  { eapply fulfill_keeps; [done|apply keeps_refl| |exact Ef]. by eapply inv_sucs_ok. }
  destruct (dropref_ok own s1 h Hi1 Hown Ho) as (st & Ed & Hi2 & _).
  pose proof (dropref_drops _ _ _ Ed) as Hdr.
  destruct (inv_live Hi1 h) as [y Hy]; [lia|]. destruct (Hh1 y Hy) as (U1 & U2 & U3 & U4 & U5 & U6).
  assert (Hpos : 0 < ref_n y) by (apply (c_pos _ _ _ (proj1 Hi1) h); [done|apply Hl|done]).
  exists st. split_and!.
  - unfold fulfill_deferred_and_drop, countdown_of. unfold fulfill, countdown_of in Ef.
    rewrite (get_some _ _ _ Hx) in Ef |- *. cbn [mbind res_bind] in Ef |- *. rewrite Hk in Ef |- *. cbn [mbind res_bind] in Ef |- *.
    change (1 - 1) with 0 in Ef |- *. cbn [Z.ltb Z.leb Z.eqb Z.compare assert_that mbind res_bind] in Ef |- *.
    unfold readify in Ef. change (status_active + 1) with status_results_yes. rewrite Ef. mcbn.
    rewrite (get_some _ _ _ Hy). mcbn. rewrite <- Ed. unfold dropref, decref. rewrite (get_some _ _ _ Hy). mcbn.
    rewrite (proj2 (Z.leb_le 0 _)) by lia. destruct (ref_n y - 1 =? 0); [|done]. unfold delete1. rewrite get_put. mcbn.
    cbn [status set_ref load result_of]. rewrite <- U1. cbn. unfold result_of. cbn [load set_ref]. rewrite <- U3. cbn.
    by rewrite Nat.eqb_refl.
  - done.
  - by eapply keeps_then_drops.
  - intros x' Hx'. destruct (d_header _ _ Hdr h x' Hx') as [(y' & Hy' & (D1 & D2 & D3) & _)|[Hge _]].
    + assert (y' = y) as -> by congruence. rewrite D1, D2, D3, <- U4, <- U5, <- U6. done.
    + exfalso. pose proof (proj1 (s_fresh _ _ (proj2 Hi1)) h Hge). congruence.
Qed.

(** A promise that is deferred, and the name that it has, if it still has one. *)
Lemma queued_promise s h : ok s -> h ∈ pros_deferred_trivial (proc s) ->
  exists x, live_promise s h x /\ kind x = KPromise 1 /\ results x <> None /\ status x = status_results_yes.
Proof.
  intros Hok Hin. destruct (heap_live_queue _ _ (ok_heap _ Hok) Hin) as [x Hx].
  destruct (proj2 (p_queue _ _ (ok_promises _ Hok)) h Hin) as [Hp _].
  pose proof (promise_live s h x Hok Hp Hx) as Hl. exists x. split; [done|].
  pose proof (l_status _ _ _ Hl) as Hs. destruct (l_ok _ _ _ Hl) as (_ & [[Hk [[_ ?]|[Hr _]]]|(_ & _ & ?)] & _); [done| |done].
  rewrite Hk in Hs. split_and!; [done|done|]. by destruct (results x).
Qed.

Lemma burst_deferred_ok s : ok s -> exists p', burst_deferred_one (proc s) = Ok p' /\
  ok (mk_state p' (issued s) (promises s) (arrivals s)) /\ registry p' = registry (proc s) /\ objects p' = objects (proc s) /\
  pros_deferred_trivial p' = tail (pros_deferred_trivial (proc s)).
Proof.
  intros Hok. unfold burst_deferred_one. destruct (pros_deferred_trivial (proc s)) as [|h q] eqn:Eq.
  { exists (proc s). split_and!; try done. by destruct s. }
  assert (Hin : h ∈ pros_deferred_trivial (proc s)) by (rewrite Eq; left).
  destruct (queued_promise s h Hok Hin) as (x & Hl & Hk & Hr & Hs).
  destruct (p_queue _ _ (ok_promises _ Hok)) as [Hnd Hdec]. destruct (Hdec h Hin) as [Hp Edec]. rewrite Edec. cbn [default].
  destruct (ok_heap _ Hok) as [P HP].
  destruct (fulfill_deferred_ok s P h x _ Hok Hl Hk Hs (heap_ok_inv _ _ HP)) as (st & E & Hi & Hkeep & Hh).
  { intros. apply tokens_nonneg. } { apply tokens_in. unfold internals. rewrite !elem_of_app. auto. }
  change (Datatypes.id 1) with 1. rewrite E. mcbn. eexists. split; [done|]. split; [|done].
  rewrite Eq in Hnd. apply NoDup_cons in Hnd as [Hhq Hnd]. set (p' := put_deferred _ _ _).
  assert (Hheap : heap_ok p').
  { eapply (heap_ok_intro P (proc s)); [apply Hok|exact Hi|done|done|]. intros r. unfold internals. rewrite Eq.
    cbn [p' registry pros_deferred_trivial put_deferred put_futures put_program program with_heap roots].
    unfold bump. rewrite !tokens_app, tokens_cons. unfold ind. repeat case_decide; subst; try done; lia. }
  assert (Hal : alike_names (proc s) p') by by apply alike_teams_objects.
  assert (Hc : forall y d, hs (heap_of p') !! h = Some y -> registry (proc s) !! d = Some (PromiseAt h) ->
    exists a, results y = Some [a] /\ named_at p' a d).
  { intros y d Hy Hd. destruct (Hh y Hy) as (_ & _ & E3). rewrite E3. destruct (results x) as [v|] eqn:Ev; [|done].
    destruct (p_constructed _ _ (ok_promises _ Hok) d h x v Hd (l_header _ _ _ Hl) Ev) as (a & -> & Ha). by exists a. }
  assert (Hname : exists d, (forall e, registry (proc s) !! e = Some (PromiseAt h) -> e = d) /\
    (forall r, registry (proc s) !! d = Some (PromiseAt r) -> r = h)).
  { destruct (decide (h ∈ held (registry (proc s)))) as [[d Hd]%elem_of_held|Hno].
    - exists d. split; [|congruence]. intros e He. by eapply (n_once _ _ (ok_names _ Hok)).
    - exists tombstone. rewrite (n_tomb _ _ (ok_names _ Hok)). split; [|done]. intros e He. destruct Hno. apply elem_of_held. by exists e. }
  destruct Hname as (d & Hd & Hdq).
  apply (touched_ok s p' _ d h); try done.
  - eapply names_ok_alike; [exact Hal|apply Hok].
  - intros r Hrh. cbn. rewrite Eq, elem_of_cons. naive_solver.
  - intros r Hrh. cbn. by rewrite lookup_insert_ne.
  - rewrite decide_False by done. cbn. by rewrite lookup_insert_eq.
  - intros y Hy. destruct (Hh y Hy) as (E1 & E2 & E3). destruct (l_ok _ _ _ Hl) as (V1 & _ & V3).
    split_and!; [congruence| |by rewrite E3]. right. split_and!; [done|congruence|done].
  - intros y v Hdr Hy Hv. destruct (Hc y d Hy Hdr) as (a & Ea & Ha). exists a. split; [congruence|done].
  - intros a Ha Hdt Hdr. destruct (heap_live_held p' d h) as [y Hy]; [done|done|].
    exists y. split; [done|]. destruct (Hh y Hy) as (_ & _ & ->).
    destruct (p_object _ _ (ok_promises _ Hok) a d h Ha Hdt Hdr) as (x0 & Hx0 & <-). rewrite (l_header _ _ _ Hl) in Hx0. congruence.
  - intros e r He. by left.
Qed.

Lemma named_unique s a b d : ok s -> named_at (proc s) a d -> named_at (proc s) b d -> d <> tombstone -> a = b.
Proof.
  intros Hok Ha Hb Hd. destruct (n_object _ _ (ok_names _ Hok) a d Ha Hd) as [_ [h Hh]].
  destruct (p_object _ _ (ok_promises _ Hok) a d h Ha Hd Hh) as (x & Hx & E1).
  destruct (p_object _ _ (ok_promises _ Hok) b d h Hb Hd Hh) as (y & Hy & E2). congruence.
Qed.

(** An active object, its promise, and the header of that. *)
Lemma active_object s a o : ok s -> objects (proc s) !! a = Some o -> is_active o = true ->
  object_id o <> tombstone /\ object_id o ∈ issued s /\ named_at (proc s) a (object_id o) /\
  exists h x, registry (proc s) !! object_id o = Some (PromiseAt h) /\ live_promise s h x /\ results x = Some [a] /\ h ∈ promises s.
Proof.
  intros Hok Ho Hact%dne_true. assert (Ha : named_at (proc s) a (object_id o)) by (by exists o).
  destruct (n_object _ _ (ok_names _ Hok) a _ Ha Hact) as [Hi [h Hh]]. split_and!; [done..|].
  destruct (promise_alive s _ h Hok Hh) as [x Hl]. exists h, x. split_and!; [done|done| |by eapply p_held; [apply Hok|]].
  destruct (p_object _ _ (ok_promises _ Hok) a _ h Ha Hact Hh) as (y & Hy & E). pose proof (l_header _ _ _ Hl). congruence.
Qed.

Lemma delete_object_named p p' a b e : objects p' = delete a (objects p) -> named_at p' b e <-> b <> a /\ named_at p b e.
Proof.
  intros E. unfold named_at. rewrite E. destruct (decide (b = a)) as [->|Hb].
  - rewrite lookup_delete_eq. naive_solver.
  - rewrite lookup_delete_ne by done. naive_solver.
Qed.

(** Names without [d], which was that of the object at [a]. *)
Lemma unregistered_names s p' a d : ok s -> named_at (proc s) a d -> d <> tombstone ->
  (forall b, registry (proc s) !! d <> Some (TeamAt b)) -> teams p' = teams (proc s) ->
  (forall b e, named_at p' b e <-> b <> a /\ named_at (proc s) b e) ->
  (forall e, registry p' !! e = if decide (e = d) then None else registry (proc s) !! e) -> names_ok (issued s) p'.
Proof.
  intros Hok Ha Hdt Hnt Et Hn Hr. destruct (ok_names _ Hok) as [N0 N1 N2 N3 N4].
  assert (Ht : forall b e, team_named p' b e <-> team_named (proc s) b e) by (intros; unfold team_named; by rewrite Et). split.
  - rewrite Hr. by case_decide.
  - intros e b. rewrite Hr, Ht, <- N1.
    case_decide; [|done]. subst. split; [done|]. intros He. by destruct (Hnt b).
  - intros e b. rewrite Hr. case_decide; [done|]. apply N2.
  - intros b e [Hb He]%Hn Het. destruct (N3 b e He Het) as [? [h Hh]]. split; [done|]. exists h. rewrite Hr.
    case_decide; [|done]. subst. destruct Hb. by eapply named_unique.
  - intros e e' h. rewrite !Hr. repeat case_decide; try done. apply N4.
Qed.

Lemma delete_ok s a o : ok s -> objects (proc s) !! a = Some o ->
  (is_active o && (0 <? init_count (here_and_now (proc s))) = true -> has_master (here_and_now (proc s)) = true) ->
  exists p', object_dtor a (proc s) = Ok p' /\ ok (mk_state p' (issued s) (promises s) (arrivals s)) /\
    forall e q, registry p' !! e = Some (PromiseAt q) -> registry (proc s) !! e = Some (PromiseAt q).
Proof.
  intros Hok Ho Hm. unfold object_dtor, object_at. rewrite Ho. mcbn.
  assert (Hmm : (if is_active o && (0 <? init_count (here_and_now (proc s))) then assert_master (proc s) else Ok tt) = Ok tt).
  { destruct (is_active o && _); [|done]. unfold assert_master. by rewrite Hm. }
  rewrite Hmm. mcbn. destruct (is_active o) eqn:Hact.
  2:{ mcbn. eexists. split; [done|]. split; [|done]. apply dne_false in Hact. eapply ok_same; try done. intros b e He.
      rewrite delete_object_named by done. split; [tauto|]. intros Hb. split; [|done]. intros ->. destruct Hb as (o' & Ho' & <-). congruence. }
  destruct (active_object s a o Hok Ho Hact) as (Hdt & Hiss & Ha & h & x & Hr & Hl & Hres & Hin).
  unfold promise_of. rewrite Hr. mcbn. destruct (ok_heap _ Hok) as [P HP]. pose proof (heap_ok_inv _ _ HP) as Hi.
  destruct (dropref_ok _ _ h Hi) as (st & E & Hi2 & _).
  { intros. apply tokens_nonneg. }
  { apply tokens_in. unfold internals. rewrite !elem_of_app. right. left. apply elem_of_held. by eexists. }
  rewrite E. mcbn. eexists. split; [done|]. pose proof (dropref_drops _ _ _ E) as Hdr. set (d := object_id o) in *.
  set (p' := put_objects _ _). assert (Hobj : forall b e, named_at p' b e <-> b <> a /\ named_at (proc s) b e)
    by (intros; by apply delete_object_named).
  assert (Hreg : forall e, registry p' !! e = if decide (e = d) then None else registry (proc s) !! e).
  { intros e. cbn. case_decide; [subst; by rewrite lookup_delete_eq|by rewrite lookup_delete_ne]. }
  assert (Hret : retired (issued s) p' d).
  { split_and!; [done|done|]. intros b [Hb Hbd]%Hobj. apply Hb. by eapply named_unique. }
  assert (Hback : forall e q, registry p' !! e = Some (PromiseAt q) -> registry (proc s) !! e = Some (PromiseAt q)).
  { intros e q. rewrite Hreg. by case_decide. }
  split; [|exact Hback]. apply (touched_ok s p' _ d h); try done.
  - intros e He. by eapply (n_once _ _ (ok_names _ Hok)).
  - intros q Hq. congruence.
  - by apply drops_keeps.
  - eapply (heap_ok_intro P (proc s)); [apply Hok|exact Hi2|done|done|]. intros q. unfold internals.
    cbn [p' registry pros_deferred_trivial put_objects put_registry put_futures put_program program with_heap roots].
    unfold bump. rewrite !tokens_app, (tokens_perm _ _ q (held_delete (registry (proc s)) d (PromiseAt h) Hr)).
    change (option_list (thing_promise (PromiseAt h))) with [h]. rewrite tokens_app, tokens_one. unfold ind. repeat case_decide; subst; try done; lia.
  - eapply (unregistered_names s p' a d); try done. intros b Hb. congruence.
  - intros b e He Hed. rewrite Hobj. split; [tauto|]. intros Hb. split; [|done]. intros ->. destruct Hb as (o' & Ho' & E'). apply Hed.
    unfold d. congruence.
  - apply (p_queue _ _ (ok_promises _ Hok)).
  - cbn. case_decide; [by apply (p_queue _ _ (ok_promises _ Hok))|by apply (p_zero _ _ (ok_promises _ Hok))].
  - intros y Hy. destruct (d_header _ _ Hdr h y Hy) as [(y0 & Hy0 & (E1 & E2 & E3) & _)|[Hge _]].
    + rewrite (l_header _ _ _ Hl) in Hy0. injection Hy0 as <-. unfold promise_ok. rewrite E1, E2, E3. apply Hl.
    + destruct (p_state _ _ (ok_promises _ Hok) h Hin). lia.
  - intros y v. rewrite Hreg, decide_True by done. done.
  - intros b _ _. rewrite Hreg, decide_True by done. done.
  - intros e q He. destruct (decide (e = d)) as [->|Hed]; [by right|]. left. by rewrite Hreg, decide_False.
  - intros e (R1 & R2 & R3). split_and!; [done|done|]. intros b [_ Hb]%Hobj. by eapply R3.
Qed.

Lemma moved_named p p' this that o u b e : this <> that ->
  objects p' = <[that := mk_object 0 tombstone (value_ u)]> (<[this := o]> (objects p)) -> e <> tombstone ->
  named_at p' b e <-> b = this /\ object_id o = e \/ b <> this /\ b <> that /\ named_at p b e.
Proof.
  intros Hne E He. unfold named_at. rewrite E. destruct (decide (b = that)) as [->|Hb].
  - rewrite lookup_insert_eq. split; [intros (? & [= <-] & E'); by destruct He|naive_solver].
  - rewrite lookup_insert_ne by done. destruct (decide (b = this)) as [->|Hb'].
    + rewrite lookup_insert_eq. split; [intros (? & [= <-] & ?); auto|]. intros [[_ ?]|[? _]]; [by eexists|done].
    + rewrite lookup_insert_ne by done. naive_solver.
Qed.

(** Names when the object [d] has moved. *)
Lemma renamed_names s p' this that d : ok s -> registry p' = registry (proc s) -> teams p' = teams (proc s) ->
  named_at (proc s) that d -> d <> tombstone ->
  (forall b e, e <> tombstone -> named_at p' b e <-> b = this /\ d = e \/ b <> this /\ b <> that /\ named_at (proc s) b e) ->
  names_ok (issued s) p'.
Proof.
  intros Hok Er Et Ha Hd Hn. destruct (ok_names _ Hok) as [N0 N1 N2 N3 N4]. split; rewrite Er; try done.
  - intros e b. rewrite N1. unfold team_named. by rewrite Et.
  - intros b e He Het. apply Hn in He as [[-> <-]|(_ & _ & He)]; [by apply (N3 that)|by eapply N3|done].
Qed.

Lemma move_ok s this that t u : ok s -> this <> that -> objects (proc s) !! this = Some t -> is_active t = false ->
  objects (proc s) !! that = Some u -> initialized (proc s) = true -> has_master (here_and_now (proc s)) = true ->
  (forall h x, registry (proc s) !! object_id u = Some (PromiseAt h) -> hs (heap_of (proc s)) !! h = Some x -> status x <> status_ready) ->
  exists p', object_move_assign this that (proc s) = Ok p' /\ ok (mk_state p' (issued s) (promises s) (arrivals s)) /\
    registry p' = registry (proc s).
Proof.
  intros Hok Hne Ht Hinact Hu Hin Hm Hearly. unfold object_move_assign, assert_init, assert_master, object_at.
  rewrite (proj2 (Z.eqb_neq that this)), Hin, Hm, Ht by congruence. mcbn. rewrite Hinact. mcbn. rewrite Hu. mcbn.
  set (o := mk_object (tm_ u) (object_id u) (value_ u)). change (is_active o) with (is_active u). apply dne_false in Hinact.
  set (p1 := put_object that _ _). assert (Hn : forall p', objects p' = objects p1 -> forall b e, e <> tombstone ->
    named_at p' b e <-> b = this /\ object_id u = e \/ b <> this /\ b <> that /\ named_at (proc s) b e)
    by (intros; by eapply (moved_named (proc s) _ this that o u)).
  assert (Hthis : forall e, e <> tombstone -> ~ named_at (proc s) this e) by (intros e He (t' & Ht' & <-); congruence).
  destruct (is_active u) eqn:Hact.
  2:{ eexists. split; [done|]. split; [|done]. apply dne_false in Hact. eapply ok_same; try done. intros b e He. rewrite Hn by done.
      split; [intros [[_ <-]|(_ & _ & ?)]; done|]. intros Hb. right. split_and!; [|intros ->|done].
      - intros ->. by eapply Hthis.
      - destruct Hb as (u' & Hu' & <-). congruence. }
  destruct (active_object s that u Hok Hu Hact) as (Hdt & Hiss & Ha & h & x & Hr & Hl & Hres & Hp). set (d := object_id u) in *.
  assert (Hunique : forall b, named_at (proc s) b d -> b = that) by (intros; by eapply named_unique).
  unfold promise_of. cbn [registry p1 put_object put_objects]. change (object_id o) with d. rewrite Hr. mcbn.
  change (heap_of p1) with (heap_of (proc s)). unfold reconstruct_results. rewrite (get_some _ _ _ (l_header _ _ _ Hl)). mcbn.
  specialize (Hearly h x Hr (l_header _ _ _ Hl)). pose proof (l_status _ _ _ Hl) as Hst. rewrite Hres in Hst.
  assert (Hk : kind x = KPromise 1 /\ h ∈ pros_deferred_trivial (proc s) /\ status x = status_results_yes).
  { destruct (l_ok _ _ _ Hl) as (_ & [[Hk [[? _]|[_ Hq]]]|(Hk & _ & _)] & _); [congruence| |by rewrite Hk in Hst].
    by rewrite Hk in Hst. }
  destruct Hk as (Hk & Hq & Hyes). rewrite Hyes. mcbn. eexists. split; [done|]. split; [|done].
  set (x' := set_status status_results_yes (set_results (Some [this]) x)). set (p' := put_futures _ p1).
  assert (Hx' : hs (heap_of p') !! h = Some x') by apply lookup_insert_eq.
  destruct (ok_heap _ Hok) as [P HP]. pose proof (heap_ok_inv _ _ HP) as Hi.
  assert (Hi2 : heap_inv P (proc s) (tokens (roots (program (proc s)) ++ internals (proc s))) (put h x' (heap_of (proc s)))).
  { eapply (promise_put _ _ _ _ x x' 1 1); try done; [apply Hl|by left]. }
  assert (Hal : forall b, team_named p' b = team_named (proc s) b) by done.
  apply (touched_ok s p' _ d h); try done.
  - intros e He. by eapply (n_once _ _ (ok_names _ Hok)).
  - intros q Hq'. change (registry (proc s) !! d = Some (PromiseAt q)) in Hq'. congruence.
  - eapply keeps_put; [apply Hl|done|by left].
  - eapply (heap_ok_intro P (proc s)); [apply Hok|exact Hi2|done..].
  - exact (renamed_names s p' this that d Hok eq_refl eq_refl Ha Hdt (Hn p' eq_refl)).
  - intros b e He Hed. rewrite Hn by done. split; [intros [[_ ?]|(_ & _ & ?)]; [by destruct Hed|done]|].
    intros Hb. right. split_and!; [intros ->; by eapply Hthis| |done]. intros ->. destruct Hb as (u' & Hu' & E'). apply Hed.
    unfold d. congruence.
  - apply (p_queue _ _ (ok_promises _ Hok)).
  - rewrite decide_True by done. by apply (p_queue _ _ (ok_promises _ Hok)).
  - intros y Hy. assert (y = x') as -> by congruence. split_and!; [apply (l_ok _ _ _ Hl)| |].
    + left. split; [done|]. by right.
    + intros v [= <-]. by exists this.
  - intros y v _ Hy. assert (y = x') as -> by congruence. intros [= <-]. exists this. split; [done|]. apply Hn; auto.
  - intros b Hb _ _. apply Hn in Hb as [[-> _]|(_ & Hb & Hbd)]; [by exists x'|by destruct Hb; apply Hunique|done|done].
  - intros e q He. by left.
  - intros e (R1 & R2 & R3). split_and!; [done|done|]. intros b [[_ <-]|(_ & _ & ?)]%Hn; [by eapply R3|by eapply R3|done|done].
Qed.

End DistObjectCalls.
