(* ===== verification/DistObjectSystem.v ===== *)
(** Processes with teams and distributed objects: every call is safe.

    The lemmas of [DistObjectCalls.v] are about calls that go well; here are the
    assertions before them, the calls on teams, and what holds in every state that a
    process reaches. *)
From S2P Require Import Prelude Digest FutureCore FutureInvariant FutureUpdates FutureSafety FutureSystem FutureFrame.
From S2P Require Import Teams DistObject DistObjectInvariant DistObjectCalls.

Module DistObjectSystem.
Import Digest Futures Invariant Updates Operations System Frame Teams DistObjects DistObjectState DistObjectCalls.

(** * Outcomes *)

(** A call fails an assertion, or goes well and keeps the invariant. *)
Definition fine (names : gset digest) (ws : list arrival) (s : state) (r : res process) : Prop :=
  r = Aborted \/ exists p', r = Ok p' /\ ok (mk_state p' names (list_to_set (held (registry p')) ∪ promises s) ws).

Lemma fine_assert names ws s b k : (b = true -> fine names ws s (k tt)) -> fine names ws s (assert_that b ≫= k).
Proof. intros Hk. destruct b; cbn; [by apply Hk|by left]. Qed.

Lemma fine_quiet names ws s p' : ok (mk_state p' names (promises s) ws) -> fine names ws s (Ok p').
Proof.
  intros Hok. right. exists p'. split; [done|]. pose proof (held_promises _ Hok) as E. cbn in E. by rewrite E.
Qed.

Lemma fine_new names ws s p' d h : ok (mk_state p' names ({[h]} ∪ promises s) ws) -> registry p' !! d = Some (PromiseAt h) ->
  fine names ws s (Ok p').
Proof.
  intros Hok Hd. right. exists p'. split; [done|].
  replace (list_to_set (held (registry p')) ∪ promises s) with ({[h]} ∪ promises s); [done|].
  apply set_eq. intros q. rewrite !elem_of_union, elem_of_list_to_set, elem_of_singleton, elem_of_held. split.
  - intros [->|?]; [left; by exists d|by right].
  - intros [(e & He)|?]; [|by right]. pose proof (p_held _ _ (ok_promises _ Hok) e q He) as Hq. cbn in Hq. set_solver.
Qed.

Ltac guards := repeat (apply fine_assert; intros ?).

(** * Teams *)

(** A call that changes teams and the registry, but no promise in it. *)
Lemma team_call_ok s p' names : program p' = program (proc s) -> objects p' = objects (proc s) ->
  pros_deferred_trivial p' = pros_deferred_trivial (proc s) -> deferred_decrements p' = deferred_decrements (proc s) ->
  held (registry p') ≡ₚ held (registry (proc s)) ->
  (forall d h, registry p' !! d = Some (PromiseAt h) <-> registry (proc s) !! d = Some (PromiseAt h)) ->
  names_ok names p' -> issued s ⊆ names -> ok s -> ok (mk_state p' names (promises s) (arrivals s)).
Proof.
  intros Ep Eo Eq Ed Hh Hp Hn Hsub Hok. eapply (ok_keeps_names (fun _ => False)); try done.
  - unfold heap_of. rewrite Ep. apply keeps_refl.
  - split; [done|]. intros. unfold named_at. by rewrite Eo.
  - destruct (ok_heap _ Hok) as [P HP]. eapply (heap_ok_intro P (proc s)); [apply Hok| |by rewrite Ep..|].
    + unfold heap_of. rewrite Ep. apply (heap_ok_inv _ _ HP).
    + intros q. unfold internals. rewrite Ep, Eq, !tokens_app. by rewrite (tokens_perm _ _ q Hh).
Qed.

(** Promises stay when the name of a team is added or removed. *)
Lemma insert_team_promises (r : gmap digest thing) d a : (forall h, r !! d <> Some (PromiseAt h)) ->
  forall e h, <[d := TeamAt a]> r !! e = Some (PromiseAt h) <-> r !! e = Some (PromiseAt h).
Proof. intros Hd e h. destruct (decide (e = d)) as [->|]; map_lookups; [|done]. split; [done|]. by intros ?%Hd. Qed.

Lemma delete_team_promises (r : gmap digest thing) d a : r !! d = Some (TeamAt a) ->
  forall e h, delete d r !! e = Some (PromiseAt h) <-> r !! e = Some (PromiseAt h).
Proof. intros Hd e h. destruct (decide (e = d)) as [->|]; map_lookups; [|done]. rewrite Hd. done. Qed.

Lemma team_unique s a b d : ok s -> d <> tombstone -> team_named (proc s) a d -> team_named (proc s) b d -> a = b.
Proof.
  intros Hok Hd Ha Hb. assert (registry (proc s) !! d = Some (TeamAt a)) by by apply (n_team _ _ (ok_names _ Hok)).
  assert (registry (proc s) !! d = Some (TeamAt b)) by by apply (n_team _ _ (ok_names _ Hok)). congruence.
Qed.

(** Names when the team [d] is the one at [a], and no other. *)
Lemma names_put_team s p' names a d : ok s -> d <> tombstone -> d ∈ names -> issued s ⊆ names ->
  objects p' = objects (proc s) -> registry p' = <[d := TeamAt a]> (registry (proc s)) ->
  (forall h, registry (proc s) !! d <> Some (PromiseAt h)) ->
  (forall b e, e <> tombstone -> team_named p' b e <-> b = a /\ e = d \/ e <> d /\ team_named (proc s) b e) ->
  names_ok names p'.
Proof.
  intros Hok Hd Hdn Hsub Eo Er Hnp Ht. destruct (ok_names _ Hok) as [N0 N1 N2 N3 N4].
  pose proof (insert_team_promises _ d a Hnp) as Hp. split; rewrite ?Er.
  - by rewrite lookup_insert_ne.
  - intros e b. destruct (decide (e = d)) as [->|Hed]; map_lookups.
    + split; [intros [= <-]; split; [apply Ht; auto|done]|]. intros [Hb%Ht _]; [|done]. destruct Hb as [[-> _]|[? _]]; done.
    + rewrite N1. split; intros [Hb He]; (split; [|done]); [apply Ht; auto|]. apply Ht in Hb as [[_ ?]|[_ ?]]; done.
  - intros e b. destruct (decide (e = d)) as [->|Hed]; map_lookups; [done|]. intros ?%N2. by apply Hsub.
  - intros b e Hb He. assert (named_at (proc s) b e) as Hb' by (unfold named_at in *; by rewrite <- Eo).
    destruct (N3 b e Hb' He) as [? [h Hh]]. split; [by apply Hsub|]. exists h. by apply Hp.
  - intros e e' h. rewrite !Hp. apply N4.
Qed.

(** Names without [d], which was that of the team at [a]. *)
Lemma names_without_team s p' a d : ok s -> d <> tombstone -> team_named (proc s) a d ->
  objects p' = objects (proc s) -> registry p' = delete d (registry (proc s)) ->
  (forall b e, e <> tombstone -> team_named p' b e <-> b <> a /\ team_named (proc s) b e) -> names_ok (issued s) p'.
Proof.
  intros Hok Hd Ha Eo Er Ht. destruct (ok_names _ Hok) as [N0 N1 N2 N3 N4].
  assert (Hr : registry (proc s) !! d = Some (TeamAt a)) by by apply N1.
  pose proof (delete_team_promises _ d a Hr) as Hp. split; rewrite ?Er.
  - by rewrite lookup_delete_ne.
  - intros e b. destruct (decide (e = d)) as [->|Hed]; map_lookups.
    + split; [done|]. intros [Hb%Ht _]; [|done]. destruct Hb as [Hba Hb]. destruct Hba. by eapply team_unique.
    + rewrite N1. split; intros [Hb He]; (split; [|done]); [apply Ht; [done|]|by apply Ht in Hb as [_ ?]]. split; [|done].
      intros ->. destruct Hb as (t & Hta & Et), Ha as (t' & Hta' & Et'). congruence.
  - intros e b. destruct (decide (e = d)) as [->|Hed]; map_lookups; [done|]. apply N2.
  - intros b e Hb He. assert (named_at (proc s) b e) as Hb' by (unfold named_at in *; by rewrite <- Eo).
    destruct (N3 b e Hb' He) as [? [h Hh]]. split; [done|]. exists h. by apply Hp.
  - intros e e' h. rewrite !Hp. apply N4.
Qed.

Section Calls.
Context (threadmode_seq : bool) (GEX_TM_INVALID : Z) (world local_team : addr).

Lemma team_ctor_ok s a base id n me : ok s -> teams (proc s) !! a = None ->
  (id <> tombstone -> registry (proc s) !! id = None) ->
  fine (if decide (id = tombstone) then issued s else {[id]} ∪ issued s) (arrivals s) s
    (team_ctor GEX_TM_INVALID a base id n me (proc s)).
Proof using Type.
  intros Hok Ha Hid. unfold team_ctor. set (t := mk_team _ _ _ _ _).
  assert (Ht : forall b e, e <> tombstone -> team_named (put_team a t (proc s)) b e <-> b = a /\ e = id \/ b <> a /\ team_named (proc s) b e).
  { intros b e He. rewrite put_team_named. change (id_ t) with id. case_decide; naive_solver. }
  assert (Hna : forall e, ~ team_named (proc s) a e) by (intros e (u & Hu & _); congruence).
  case_decide as Hd.
  - rewrite (proj2 (deq_true id tombstone) Hd). guards. apply fine_quiet. eapply ok_same; try done.
    intros b e He. rewrite Ht by done. subst id. split; [intros [[_ ?]|[_ ?]]; done|]. intros Hb. right. split; [|done].
    intros ->. by destruct (Hna e).
  - destruct (deq id tombstone) eqn:E; [by apply deq_true in E|]. specialize (Hid Hd). apply fine_quiet.
    assert (Hnp : forall h, registry (proc s) !! id <> Some (PromiseAt h)) by (intros h; by rewrite Hid).
    apply team_call_ok; try done.
    + by apply held_insert_team.
    + by apply insert_team_promises.
    + eapply (names_put_team s _ _ a id); try done; [set_solver|set_solver|]. intros b e He.
      change (team_named (put_registry (<[id:=TeamAt a]> (registry (proc s))) (put_team a t (proc s))) b e)
        with (team_named (put_team a t (proc s)) b e). rewrite Ht by done.
      split; intros [?|[H1 H2]]; auto; right; (split; [|done]).
      * intros ->. assert (registry (proc s) !! id = Some (TeamAt b)) by (by apply (n_team _ _ (ok_names _ Hok))). congruence.
      * intros ->. by destruct (Hna e).
    + set_solver.
Qed.

Lemma team_default_ok s a : ok s -> teams (proc s) !! a = None ->
  fine (issued s) (arrivals s) s (team_default_ctor GEX_TM_INVALID a (proc s)).
Proof using Type. intros Hok Ha. exact (team_ctor_ok s a _ tombstone 0 (-1) Hok Ha ltac:(done)). Qed.

Lemma team_dtor_ok s a t : ok s -> teams (proc s) !! a = Some t -> team_is_active t = false ->
  fine (issued s) (arrivals s) s (team_dtor GEX_TM_INVALID a (proc s)).
Proof using Type.
  intros Hok Ha Hact%dne_false. unfold team_dtor, team_at. rewrite Ha. mcbn. rewrite Hact, (n_tomb _ _ (ok_names _ Hok)).
  assert (E : (if (0 <? init_count (here_and_now (proc s))) && negb (handle t =? GEX_TM_INVALID) then assert_that true else Ok tt) = Ok tt)
    by (by match goal with |- (if ?b then _ else _) = _ => destruct b end).
  rewrite E. mcbn. apply fine_quiet. eapply ok_same; try done. intros b e He. unfold team_named. cbn.
  destruct (decide (b = a)) as [->|]; [rewrite lookup_delete_eq, Ha|by rewrite lookup_delete_ne].
  split; [by intros (? & ? & _)|]. intros (? & [= <-] & ?). congruence.
Qed.

Lemma team_move_ok s this that t u : ok s -> teams (proc s) !! this = Some t -> teams (proc s) !! that = Some u ->
  fine (issued s) (arrivals s) s (team_move_assign GEX_TM_INVALID world local_team this that (proc s)).
Proof using Type.
  intros Hok Ht Hu. unfold team_move_assign. destruct (that =? this) eqn:E.
  { apply fine_quiet. by destruct s. }
  apply Z.eqb_neq in E. unfold assert_init, assert_master, team_at. guards. rewrite Ht. mcbn. guards.
  rename H3 into Hina. apply negb_true_iff, dne_false in Hina. rewrite Hu. mcbn.
  set (t' := mk_team (handle u) (id_ u) (coll_counter_ u) (n_ u) (me_ u)). set (p1 := put_team that _ _).
  change (dne (id_ t') tombstone) with (dne (id_ u) tombstone). change (id_ t') with (id_ u).
  assert (Hp1 : forall b e, e <> tombstone -> team_named p1 b e <->
    b = this /\ e = id_ u \/ b <> this /\ b <> that /\ team_named (proc s) b e).
  { intros b e He. unfold p1. rewrite put_team_named. change (id_ (invalidate _ u)) with tombstone. case_decide as Hb.
    - subst b. split; [congruence|]. intros [[? _]|(_ & ? & _)]; congruence.
    - rewrite put_team_named. change (id_ t') with (id_ u). case_decide; [|tauto]. split; [auto|]. intros [[_ ?]|(? & _)]; congruence. }
  assert (Hnt : forall e, e <> tombstone -> ~ team_named (proc s) this e) by (intros e He (t0 & Ht0 & E0); congruence).
  assert (Hnu : team_named (proc s) that (id_ u)) by by exists u.
  destruct (dne (id_ u) tombstone) eqn:Hact.
  - apply dne_true in Hact. assert (Hreg : registry (proc s) !! id_ u = Some (TeamAt that)) by by apply (n_team _ _ (ok_names _ Hok)).
    assert (Hnp : forall h, registry (proc s) !! id_ u <> Some (PromiseAt h)) by (intros h; by rewrite Hreg).
    apply fine_quiet. apply team_call_ok; try done.
    + by apply held_insert_team.
    + by apply insert_team_promises.
    + eapply (names_put_team s _ _ this (id_ u)); try done; [by eapply (n_team_issued _ _ (ok_names _ Hok))|].
      intros b e He. change (team_named (put_registry _ p1) b e) with (team_named p1 b e). rewrite Hp1 by done.
      split; intros [?|Hb]; auto; right.
      * destruct Hb as (_ & Hb & Hbe). split; [|done]. intros ->. apply Hb. by eapply team_unique.
      * destruct Hb as [Hb Hbe]. split_and!; [intros ->; by eapply Hnt| |done]. intros ->. destruct Hbe as (u' & ? & ?). congruence.
  - apply dne_false in Hact. apply fine_quiet. eapply ok_same; try done. intros b e He. rewrite Hp1 by done. rewrite Hact.
    split; [intros [[_ ?]|(_ & _ & ?)]; done|]. intros Hb. right. split_and!; [intros ->; by eapply Hnt| |done].
    intros ->. destruct Hb as (u' & ? & ?). congruence.
Qed.

Lemma team_default_ctor_eq a p : team_default_ctor GEX_TM_INVALID a p = Ok (put_team a (mk_team GEX_TM_INVALID tombstone 0 0 (-1)) p).
Proof using Type.
  unfold team_default_ctor, team_ctor. rewrite (proj2 (deq_true tombstone tombstone) eq_refl), Z.eqb_refl. done.
Qed.

(** A team that is put where there was none, or where there was one of the same name. *)
Lemma put_team_ok s a t : ok s -> (forall d, d <> tombstone -> (id_ t = d <-> team_named (proc s) a d)) ->
  ok (mk_state (put_team a t (proc s)) (issued s) (promises s) (arrivals s)).
Proof using Type.
  intros Hok Ht. eapply ok_same; try done. intros b e He. rewrite put_team_named. case_decide; [|done]. subst. by apply Ht.
Qed.

Lemma no_team_named s a d : teams (proc s) !! a = None -> ~ team_named (proc s) a d.
Proof using Type. intros Ha (t & Ht & _). congruence. Qed.

Lemma team_move_ctor_ok s this that u : ok s -> teams (proc s) !! this = None -> teams (proc s) !! that = Some u ->
  fine (issued s) (arrivals s) s (team_move_ctor GEX_TM_INVALID world local_team this that (proc s)).
Proof using Type.
  intros Hok Ht Hu. unfold team_move_ctor. rewrite team_default_ctor_eq. mcbn. set (t := mk_team _ _ _ _ _).
  set (s1 := mk_state (put_team this t (proc s)) (issued s) (promises s) (arrivals s)).
  assert (Hok1 : ok s1).
  { apply put_team_ok; [done|]. intros d Hd. split; [by intros <-|]. by intros ?%no_team_named. }
  apply (team_move_ok s1 this that t u Hok1); cbn; [by rewrite lookup_insert_eq|rewrite lookup_insert_ne; congruence].
Qed.

(** The counter of a team *)
Lemma next_collective_id_ok s a t : ok s -> teams (proc s) !! a = Some t ->
  exists p1, next_collective_id a (proc s) = Ok (eat (id_ t) (coll_counter_ t) 0, p1) /\
    ok (mk_state p1 (issued s) (promises s) (arrivals s)) /\ registry p1 = registry (proc s) /\
    here_and_now p1 = here_and_now (proc s) /\ forall b, teams p1 !! b = None <-> teams (proc s) !! b = None.
Proof using Type.
  intros Hok Ht. unfold next_collective_id, team_at. rewrite Ht. mcbn. eexists. split; [done|].
  split; [|split; [done|split; [done|]]].
  - apply put_team_ok; [done|]. intros d Hd. unfold team_named. rewrite Ht. naive_solver.
  - intros b. cbn. destruct (decide (b = a)) as [->|]; [rewrite lookup_insert_eq, Ht|rewrite lookup_insert_ne]; done.
Qed.

Lemma destroy_ok s a t : ok s -> teams (proc s) !! a = Some t ->
  fine (issued s) (arrivals s) s (destroy threadmode_seq GEX_TM_INVALID world local_team a (proc s)).
Proof using Type.
  intros Hok Ht. unfold destroy, destroy_internal, assert_init, assert_master, assert_master_current_ifseq, assert_collective_safe.
  guards. unfold team_at. rewrite Ht. mcbn. destruct (team_is_active t) eqn:Hact; cbn [negb].
  2:{ apply fine_quiet. by destruct s. }
  guards. apply fine_quiet. apply dne_true in Hact.
  assert (Hreg : registry (proc s) !! id_ t = Some (TeamAt a)) by (apply (n_team _ _ (ok_names _ Hok)); split; [by exists t|done]).
  apply team_call_ok; try done; cbn [registry put_team put_teams put_registry].
  - by rewrite (held_delete _ _ _ Hreg).
  - by eapply delete_team_promises.
  - eapply (names_without_team s _ a (id_ t)); try done; [by exists t|]. intros b e He. rewrite put_team_named.
    change (id_ (invalidate _ t)) with tombstone. case_decide; [|tauto]. split; [congruence|tauto].
Qed.

(** * Distributed objects *)

(** An action of the program of futures *)
Lemma action_fine s a r : ok s -> exec a (program (proc s)) = Some r -> (forall h, operated a h -> h ∉ promises s) ->
  fine (issued s) (arrivals s) s (fmap_res (fun x => put_program x (proc s)) r).
Proof using Type.
  intros Hok Hr HE. destruct (exec_process_ok s a r Hok Hr HE) as [[-> _]|(x & -> & Hx)]; [by left|]. by apply fine_quiet.
Qed.

Lemma team_when_here_ok s d : ok s -> can_call (proc s) = true -> is_object_name d (proc s) = false ->
  fine (issued s) (arrivals s) s ('(_, p) ← team_when_here d (proc s); Ok p).
Proof using Type.
  intros Hok Hc Hn. unfold team_when_here, team_here, assert_init, assert_not_tomb, is_object_name in *.
  destruct (initialized (proc s)); [|by left]. destruct (dne d tombstone); [|by left]. mcbn.
  destruct (registry (proc s) !! d) as [[a|h]|]; [|done|by left]. mcbn.
  assert (Hx : exec (MakeFuture [a]) (program (proc s)) = Some (Ok (gain (program (proc s)) (make_future [a] (heap_of (proc s)))))).
  { unfold can_call, exec, heap_of in *. by destruct (running (program (proc s))), (active (futures (program (proc s)))). }
  pose proof (action_fine s _ _ Hok Hx ltac:(done)) as Hf. unfold give. by destruct (make_future [a] (heap_of (proc s))).
Qed.

Lemma object_put_ok s a o : ok s -> (forall d, d <> tombstone -> (object_id o = d <-> named_at (proc s) a d)) ->
  ok (mk_state (put_object a o (proc s)) (issued s) (promises s) (arrivals s)).
Proof using Type.
  intros Hok Ho. eapply ok_same; try done. intros b e He. rewrite put_object_named_at. case_decide; [|done]. subst. by apply Ho.
Qed.

Lemma no_named_at s a d : objects (proc s) !! a = None -> ~ named_at (proc s) a d.
Proof using Type. intros Ha (o & Ho & _). congruence. Qed.

Lemma object_new_ok s a tm v : ok s -> objects (proc s) !! a = None ->
  ok (mk_state (put_object a (mk_object tm tombstone v) (proc s)) (issued s) (promises s) (arrivals s)).
Proof using Type. intros Hok Ha. apply object_put_ok; [done|]. intros d Hd. split; [by intros <-|]. by intros ?%no_named_at. Qed.

Lemma emplace_ok s a v : ok s -> is_Some (objects (proc s) !! a) -> fine (issued s) (arrivals s) s (emplace a v (proc s)).
Proof using Type.
  intros Hok [o Ho]. unfold emplace, object_at. rewrite Ho. mcbn. apply fine_quiet, object_put_ok; [done|]. intros d Hd.
  unfold named_at. rewrite Ho. naive_solver.
Qed.

Lemma create_fine s a o t d : ok s -> objects (proc s) !! a = Some o -> object_id o = tombstone ->
  teams (proc s) !! tm_ o = Some t -> eat (id_ t) (coll_counter_ t) 0 = d -> d ∉ issued s -> d <> tombstone ->
  fine ({[d]} ∪ issued s) (arrivals s) s (create_ a (proc s)).
Proof using Type.
  intros Hok Ho Hid Ht Ed Hnew Hdt.
  destruct (initialized (proc s)) eqn:Hin; [|left; unfold create_, assert_init; by rewrite Hin].
  destruct (has_master (here_and_now (proc s))) eqn:Hm; [|left; unfold create_, assert_init, assert_master; by rewrite Hin, Hm].
  destruct (in_progress (here_and_now (proc s))) eqn:Hp.
  { left. unfold create_, assert_init, assert_master, assert_collective_safe. by rewrite Hin, Hm, Hp. }
  destruct (decide (tm_ o = 0)) as [H0|H0].
  { left. unfold create_, assert_init, assert_master, assert_collective_safe, object_at. rewrite Hin, Hm, Hp, Ho. mcbn. by rewrite H0. }
  destruct (create_ok s a o t d Hok Ho Hid H0 Ht Ed Hnew Hdt Hin Hm Hp) as (h & p' & -> & Hr & Hok' & _).
  by eapply fine_new.
Qed.

Lemma new_fine s a tm v t d : ok s -> objects (proc s) !! a = None -> teams (proc s) !! tm = Some t ->
  eat (id_ t) (coll_counter_ t) 0 = d -> d ∉ issued s -> d <> tombstone ->
  fine ({[d]} ∪ issued s) (arrivals s) s (object_ctor a tm v (proc s)).
Proof using Type.
  intros Hok Ha Ht Ed Hnew Hdt. unfold object_ctor. set (o := mk_object _ _ _).
  exact (create_fine _ a o t d (object_new_ok s a tm (Some v) Hok Ha) (lookup_insert_eq _ _ _) eq_refl Ht Ed Hnew Hdt).
Qed.

Lemma activate_fine s a tm t d : ok s -> is_Some (objects (proc s) !! a) -> teams (proc s) !! tm = Some t ->
  eat (id_ t) (coll_counter_ t) 0 = d -> d ∉ issued s -> d <> tombstone ->
  fine ({[d]} ∪ issued s) (arrivals s) s (activate a tm (proc s)).
Proof using Type.
  intros Hok [o Ho] Ht Ed Hnew Hdt. unfold activate, object_at. rewrite Ho. mcbn. apply fine_assert. intros Hi.
  apply fine_assert. intros _. apply negb_true_iff, dne_false in Hi. set (o' := mk_object _ _ _).
  assert (Hok' : ok (mk_state (put_object a o' (proc s)) (issued s) (promises s) (arrivals s))).
  { apply object_put_ok; [done|]. intros e He. unfold named_at. rewrite Ho. cbn. naive_solver. }
  exact (create_fine _ a o' t d Hok' (lookup_insert_eq _ _ _) Hi Ht Ed Hnew Hdt).
Qed.

Lemma not_team_name s d : is_team_name d (proc s) = false -> forall a, registry (proc s) !! d <> Some (TeamAt a).
Proof using Type. unfold is_team_name. intros H a E. by rewrite E in H. Qed.

Lemma when_here_fine s d : ok s -> is_team_name d (proc s) = false ->
  fine (issued s) (arrivals s) s ('(_, p) ← when_here d (proc s); Ok p).
Proof using Type.
  intros Hok Hn. pose proof (not_team_name s d Hn) as Hnt. destruct (initialized (proc s)) eqn:Hin; [|left; unfold when_here, assert_init; by rewrite Hin].
  destruct (dne d tombstone) eqn:Hd; [|left; unfold when_here, assert_init, assert_not_tomb; by rewrite Hin, Hd].
  destruct (has_master (here_and_now (proc s))) eqn:Hm.
  - apply dne_true in Hd. destruct (when_here_ok s d Hok Hin Hm Hd Hnt) as (h & p' & -> & Hok' & Hr & _). mcbn. by eapply fine_new.
  - left. unfold when_here, assert_init, assert_not_tomb, registered_promise, assert_master. rewrite Hin, Hd. mcbn. by rewrite Hm.
Qed.

Lemma arrive_fine s is_void d : ok s -> can_call (proc s) = true -> is_team_name d (proc s) = false ->
  off_wire_then is_void d (proc s) = Aborted \/ exists t h p', off_wire_then is_void d (proc s) = Ok (t, p') /\
    registry p' !! d = Some (PromiseAt h) /\
    ok (mk_state p' (issued s) ({[h]} ∪ promises s) (mk_arrival (next_b (heap_of (proc s))) d h :: arrivals s)).
Proof using Type.
  intros Hok Hc Hn. pose proof (not_team_name s d Hn) as Hnt. unfold off_wire_then at 1.
  destruct (initialized (proc s)) eqn:Hin; [|left; unfold when_here, assert_init; by rewrite Hin].
  destruct (dne d tombstone) eqn:Hd; [|left; unfold when_here, assert_init, assert_not_tomb; by rewrite Hin, Hd].
  destruct (has_master (here_and_now (proc s))) eqn:Hm.
  - right. apply dne_true in Hd. by apply arrive_ok.
  - left. unfold when_here, assert_init, assert_not_tomb, registered_promise, assert_master. rewrite Hin, Hd. mcbn. by rewrite Hm.
Qed.

Lemma dtor_fine s a : ok s -> is_Some (objects (proc s) !! a) -> fine (issued s) (arrivals s) s (object_dtor a (proc s)).
Proof using Type.
  intros Hok [o Ho].
  destruct (decide (is_active o && (0 <? init_count (here_and_now (proc s))) = true -> has_master (here_and_now (proc s)) = true)) as [Hm|Hm].
  - destruct (delete_ok s a o Hok Ho Hm) as (p' & -> & Hok' & _). by apply fine_quiet.
  - left. unfold object_dtor, object_at. rewrite Ho. mcbn. unfold assert_master.
    destruct (is_active o && _), (has_master (here_and_now (proc s))); solve [done | by destruct Hm].
Qed.

Lemma move_fine s this that : ok s -> is_Some (objects (proc s) !! this) -> is_Some (objects (proc s) !! that) ->
  late_move (Move this that) (proc s) = false ->
  fine (issued s) (arrivals s) s (object_move_assign this that (proc s)).
Proof using Type.
  intros Hok [t Ht] [u Hu] Hearly. destruct (decide (this = that)) as [->|Hne].
  { unfold object_move_assign. rewrite Z.eqb_refl. apply fine_quiet. by destruct s. }
  destruct (initialized (proc s) && has_master (here_and_now (proc s)) && negb (is_active t)) eqn:Hg.
  - apply andb_true_iff in Hg as [[Hin Hm]%andb_true_iff Ha%negb_true_iff].
    destruct (move_ok s this that t u Hok Hne Ht Ha Hu Hin Hm) as (p' & -> & Hok' & _); [|by apply fine_quiet].
    intros h x Hr Hx Hs. unfold late_move in Hearly. rewrite (proj2 (Z.eqb_neq _ _) Hne), Hu in Hearly.
    cbn [mbind option_bind negb andb] in Hearly. rewrite Hr in Hearly. cbn [mbind option_bind thing_promise] in Hearly.
    rewrite Hx in Hearly. by apply Z.eqb_neq in Hearly.
  - left. unfold object_move_assign, assert_init, assert_master, object_at. rewrite (proj2 (Z.eqb_neq that this)) by done.
    destruct (initialized (proc s)); [|done]. destruct (has_master (here_and_now (proc s))); [|done]. rewrite Ht. mcbn.
    by destruct (is_active t).
Qed.

Lemma move_into_fine s this that : ok s -> objects (proc s) !! this = None -> is_Some (objects (proc s) !! that) ->
  late_move (MoveInto this that) (proc s) = false ->
  fine (issued s) (arrivals s) s (object_move_ctor this that (proc s)).
Proof using Type.
  intros Hok Ht Hu Hearly. unfold object_move_ctor, object_default_ctor.
  assert (Hne : this <> that) by (intros ->; destruct Hu; congruence).
  apply (move_fine (mk_state (put_object this (mk_object 0 tombstone None) (proc s)) (issued s) (promises s) (arrivals s))).
  - by apply object_new_ok.
  - cbn. rewrite lookup_insert_eq. by eexists.
  - cbn. by rewrite lookup_insert_ne.
  - unfold late_move in *. cbn. by rewrite lookup_insert_ne.
Qed.

(** * Teams made from others *)

Context (rank_to_jobrank : Z -> Z -> Z).

Definition names_with (new : option digest) (s : state) : gset digest :=
  match new with Some d => {[d]} ∪ issued s | None => issued s end.

Lemma split_ok s a color result sub_tm ranks me : ok s -> is_Some (teams (proc s) !! a) -> teams (proc s) !! result = None ->
  (forall d, new_name rank_to_jobrank (Split a color result sub_tm ranks me) (proc s) = Some d ->
    d <> tombstone /\ registry (proc s) !! d = None) ->
  fine (names_with (new_name rank_to_jobrank (Split a color result sub_tm ranks me) (proc s)) s) (arrivals s) s
    (split threadmode_seq GEX_TM_INVALID a color result sub_tm ranks me (proc s)).
Proof using Type.
  intros Hok [t Ht] Hres Hnew. unfold split, assert_init, assert_master, assert_master_current_ifseq, assert_collective_safe.
  guards. unfold team_at. rewrite Ht. mcbn. guards. destruct (next_collective_id_ok s a t Hok Ht) as (p1 & E & Hok1 & Er & _ & Hteams).
  rewrite E. mcbn. cbn [new_name] in *. rewrite Ht in *. cbn [mbind option_bind] in *.
  set (s1 := mk_state p1 _ _ _) in Hok1. apply Hteams in Hres. destruct (color =? color_none).
  - by apply (team_ctor_ok s1 result _ tombstone).
  - destruct (Hnew _ eq_refl) as [Hd Hr].
    pose proof (team_ctor_ok s1 result sub_tm _ ranks me Hok1 Hres (fun _ => eq_trans (f_equal (lookup _) Er) Hr)) as Hf.
    rewrite decide_False in Hf by done. exact Hf.
Qed.

(** What an active team tells *)
Lemma active_team_eq a t p : initialized p = true -> teams p !! a = Some t -> team_is_active t = true ->
  team_at a p = Ok t /\ rank_n a p = Ok (n_ t) /\ rank_me a p = Ok (me_ t) /\
  forall r, subscript rank_to_jobrank a r p =
    (_ ← assert_that ((0 <=? r) && (r <? n_ t)); Ok (rank_to_jobrank (handle t) r)).
Proof using Type.
  intros Hin Ht Ha. assert (Et : team_at a p = Ok t) by (unfold team_at; by rewrite Ht).
  assert (En : rank_n a p = Ok (n_ t)) by (unfold rank_n, assert_init; by rewrite Hin, Et; mcbn; rewrite Ha).
  split_and!; [done|done| |]; [unfold rank_me|intros r; unfold subscript]; unfold assert_init; rewrite Hin; mcbn;
    rewrite Et; mcbn; rewrite Ha; [done|]. mcbn. by rewrite En.
Qed.

Lemma create_team_ok s a locs result sub_tm me : ok s -> is_Some (teams (proc s) !! a) -> teams (proc s) !! result = None ->
  (forall d, new_name rank_to_jobrank (Create a locs result sub_tm me) (proc s) = Some d ->
    d <> tombstone /\ registry (proc s) !! d = None) ->
  fine (names_with (new_name rank_to_jobrank (Create a locs result sub_tm me) (proc s)) s) (arrivals s) s
    (create threadmode_seq GEX_TM_INVALID rank_to_jobrank a locs result sub_tm me (proc s)).
Proof using Type.
  intros Hok Ht Hres Hnew. unfold create, assert_init, assert_master, assert_master_current_ifseq, assert_collective_safe.
  apply fine_assert. intros Hin. guards. destruct Ht as [t Ht]. destruct (team_is_active t) eqn:Ha.
  2:{ unfold team_at. rewrite Ht. mcbn. rewrite Ha. by left. }
  destruct (active_team_eq a t _ Hin Ht Ha) as (Et & En & Em & Es). rewrite Et. mcbn. rewrite Ha. mcbn. rewrite En. mcbn.
  destruct (check_ids locs (n_ t) false ∅) as [err seen]. rewrite Em. mcbn. guards.
  destruct (next_collective_id_ok s a t Hok Ht) as (p1 & E & Hok1 & Er & _ & Hteams).
  set (s1 := mk_state p1 _ _ _) in Hok1. apply Hteams in Hres. cbn [new_name] in *. destruct locs as [|rank locs].
  - mcbn. rewrite E. mcbn. by apply (team_ctor_ok s1 result _ tombstone).
  - rewrite Es. rewrite Ht in *. cbn [mbind option_bind] in *.
    match goal with |- context [assert_that ?b] => destruct b; [|by left] end. mcbn. rewrite E. mcbn.
    destruct (Hnew _ eq_refl) as [Hd Hr].
    pose proof (team_ctor_ok s1 result sub_tm _ (Z.of_nat (length (rank :: locs))) me Hok1 Hres
      (fun _ => eq_trans (f_equal (lookup _) Er) Hr)) as Hf.
    rewrite decide_False in Hf by done. exact Hf.
Qed.

(** * Every call *)

Abbreviation run := (run_call threadmode_seq GEX_TM_INVALID world local_team rank_to_jobrank).
Abbreviation exec := (exec_call threadmode_seq GEX_TM_INVALID world local_team rank_to_jobrank).
Abbreviation new := (new_name rank_to_jobrank).

(** The new name of a call that is proper. *)
Lemma proper_name c s d : proper rank_to_jobrank c s = true -> new c (proc s) = Some d ->
  d <> tombstone /\ d ∉ issued s /\
  match c with Split _ _ _ _ _ _ | Create _ _ _ _ _ => registry (proc s) !! d = None | _ => True end.
Proof.
  unfold proper, clash. intros [[Hp _]%andb_true_iff _]%andb_true_iff Hd. rewrite Hd in Hp.
  apply negb_true_iff in Hp. apply orb_false_iff in Hp as [[H1 H2]%orb_false_iff H3]. split_and!.
  - intros ->. by rewrite (proj2 (deq_true _ _) eq_refl) in H1.
  - by apply bool_decide_eq_false in H2.
  - destruct c; try done; apply bool_decide_eq_false in H3; by destruct (registry (proc s) !! d) as [x|]; [destruct H3|].
Qed.

Lemma unused_none a p : unused a p = true -> teams p !! a = None /\ objects p !! a = None.
Proof. unfold unused. rewrite !andb_true_iff, !bool_decide_eq_true. tauto. Qed.

Lemma has_team_some a p : has_team a p = true -> is_Some (teams p !! a).
Proof. apply bool_decide_eq_true. Qed.

Lemma has_object_some a p : has_object a p = true -> is_Some (objects p !! a).
Proof. apply bool_decide_eq_true. Qed.

(** Calls other than actions and calls that arrive. *)
Definition is_plain (c : call) : bool := match c with Arrive _ _ | User _ => false | _ => true end.

(** ** Calls that only read *)

Lemma assert_ok (b : bool) : assert_that b = Ok tt \/ assert_that b = Aborted.
Proof using Type. destruct b; [by left|by right]. Qed.

Ltac read_guards := repeat match goal with
  | |- context [assert_that ?b] => destruct (assert_ok b) as [->| ->]; mcbn; [|by left]
  end.

Lemma rank_n_fine a p : has_team a p = true -> rank_n a p = Aborted \/ exists n, rank_n a p = Ok n.
Proof using Type.
  intros [t Ht]%has_team_some. unfold rank_n, assert_init, team_at. rewrite Ht. cbn [deref]. read_guards. right. by eexists.
Qed.

(** [dist_id::here] gives the address of the object with the name, if the promise has results. *)
Lemma here_fine s d : ok s -> is_team_name d (proc s) = false ->
  if early_here (Query (ObjectHere d)) (proc s) then here d (proc s) = Undef
  else here d (proc s) = Aborted \/ exists a, here d (proc s) = Ok a /\ named_at (proc s) a d.
Proof using Type.
  intros Hok Hn. unfold is_team_name in Hn. unfold early_here, here, assert_init, assert_not_tomb, registered_promise, assert_master.
  destruct (initialized (proc s)); [|by left]. destruct (dne d tombstone); [|by left]. mcbn.
  destruct (registry (proc s) !! d) as [[a|h]|] eqn:E; [done| |cbn; rewrite andb_false_r; by left].
  destruct (has_master (here_and_now (proc s))); [|by left]. mcbn.
  destruct (heap_live_held (proc s) d h (ok_heap _ Hok) E) as [x Hx]. cbn [mbind option_bind thing_promise andb]. rewrite Hx. mcbn. rewrite (get_some _ _ _ Hx). mcbn.
  destruct (results x) as [v|] eqn:Ev; [|by rewrite bool_decide_eq_true_2].
  rewrite bool_decide_eq_false_2 by done. right. destruct (p_constructed _ _ (ok_promises _ Hok) d h x v E Hx Ev) as (a & -> & Ha).
  by exists a.
Qed.

Lemma query_fine q s : ok s -> possible_query world q (proc s) = true -> early_here (Query q) (proc s) = false ->
  run_query world rank_to_jobrank q (proc s) = Aborted \/ run_query world rank_to_jobrank q (proc s) = Ok tt.
Proof using Type.
  intros Hok Hp He. destruct q; cbn [run_query possible_query] in *.
  - apply negb_true_iff in Hp. unfold is_object_name in Hp. unfold team_here, assert_init, assert_not_tomb. read_guards.
    destruct (registry (proc s) !! d) as [[]|]; [by right|done|by left].
  - apply has_team_some in Hp as [t Ht]. unfold team_id, team_at. rewrite Ht. cbn [deref]. mcbn. read_guards. by right.
  - destruct (rank_n_fine a (proc s) Hp) as [->|[n ->]]; [by left|by right].
  - apply has_team_some in Hp as [t Ht]. unfold rank_me, assert_init, team_at. rewrite Ht. cbn [deref]. read_guards. by right.
  - pose proof Hp as [t Ht]%has_team_some. unfold subscript, assert_init, team_at. rewrite Ht. cbn [deref]. read_guards.
    destruct (rank_n_fine a (proc s) Hp) as [->|[n ->]]; mcbn; [by left|]. read_guards. by right.
  - apply andb_true_iff in Hp as [[t Ht]%has_team_some Hw]. unfold from_world, assert_init, team_at. rewrite Ht. cbn [deref]. read_guards.
    destruct (rank_n_fine world (proc s) Hw) as [->|[n ->]]; mcbn; [by left|]. read_guards. destruct answer; [by right|by left].
  - apply andb_true_iff in Hp as [[t Ht]%has_team_some Hw]. unfold from_world_otherwise, assert_init, team_at. rewrite Ht. cbn [deref]. read_guards.
    destruct (rank_n_fine world (proc s) Hw) as [->|[n ->]]; mcbn; [by left|]. read_guards. by right.
  - apply negb_true_iff in Hp. pose proof (here_fine s d Hok Hp) as H. rewrite He in H. destruct H as [->|(a & -> & _)]; [by left|by right].
  - apply has_object_some in Hp as [o Ho]. unfold id, object_at, assert_not_tomb. rewrite Ho. cbn [deref]. mcbn. read_guards. by right.
  - apply has_object_some in Hp as [o Ho]. unfold dereference, object_at, has_value. rewrite Ho. cbn [deref]. mcbn.
    destruct (value_ o); [by right|by left].
  - apply has_object_some in Hp as [o Ho]. unfold on_wire, id, object_at, assert_not_tomb. rewrite Ho. cbn [deref]. mcbn. read_guards. mcbn. read_guards. by right.
Qed.

Lemma query_call_fine q s : ok s -> possible_query world q (proc s) = true -> early_here (Query q) (proc s) = false ->
  fine (issued s) (arrivals s) s (run (Query q) (proc s)).
Proof.
  intros Hok Hp He. cbn [run_call]. destruct (query_fine q s Hok Hp He) as [->| ->]; [by left|]. mcbn. by apply fine_quiet, ok_same.
Qed.

Lemma plain_fine c s : ok s -> proper rank_to_jobrank c s = true -> early_here c (proc s) = false -> possible world c s = true -> can_call (proc s) = true ->
  is_plain c = true -> fine (names_with (new c (proc s)) s) (arrivals s) s (run c (proc s)).
Proof.
  intros Hok Hpr He Hpos Hc Hplain. pose proof (fun d => proper_name c s d Hpr) as Hnew.
  assert (Hl : late_move c (proc s) = false /\ left_over c (proc s) = false).
  { unfold proper in Hpr. apply andb_true_iff in Hpr as [[_ H1]%andb_true_iff H2]. split; by apply negb_true_iff. }
  destruct Hl as [Hlate Hleft]. destruct c; try done; cbn [run_call possible] in *; rewrite ?andb_true_iff in Hpos;
    repeat match goal with
      | H : _ /\ _ |- _ => destruct H
      | H : unused _ _ = true |- _ => apply unused_none in H
      | H : has_team _ _ = true |- _ => apply has_team_some in H
      | H : has_object _ _ = true |- _ => apply has_object_some in H
      | H : negb _ = true |- _ => apply negb_true_iff in H
    end; cbn [new_name names_with].
  - by apply fine_quiet, ok_same.
  - by apply team_default_ok.
  - destruct H, H0. by eapply team_move_ok.
  - destruct H0. by eapply team_move_ctor_ok.
  - destruct Hpos as [t Ht]. cbn [left_over] in Hleft. rewrite Ht in Hleft. by eapply team_dtor_ok.
  - apply split_ok; [done..|]. intros d Hd. by destruct (Hnew d Hd) as (? & _ & ?).
  - apply create_team_ok; [done..|]. intros d Hd. by destruct (Hnew d Hd) as (? & _ & ?).
  - destruct Hpos. by eapply destroy_ok.
  - by apply team_when_here_ok.
  - by apply fine_quiet, object_new_ok.
  - by apply fine_quiet, object_new_ok.
  - destruct H0 as [t Ht]. cbn [new_name] in Hnew. rewrite Ht in *. cbn [mbind option_bind names_with] in *.
    destruct (Hnew _ eq_refl) as (? & ? & _). by eapply new_fine.
  - destruct H0 as [t Ht]. cbn [new_name] in Hnew. rewrite Ht in *. cbn [mbind option_bind names_with] in *.
    destruct (Hnew _ eq_refl) as (? & ? & _). by eapply activate_fine.
  - by apply emplace_ok.
  - by apply move_fine.
  - by apply move_into_fine.
  - by apply dtor_fine.
  - by apply when_here_fine.
  - destruct (burst_deferred_ok s Hok) as (p' & -> & Hok' & _). by apply fine_quiet.
  - by apply query_call_fine.
Qed.

Lemma observe_plain c s p' : is_plain c = true ->
  observe rank_to_jobrank c s p' =
  mk_state p' (names_with (new c (proc s)) s) (list_to_set (held (registry p')) ∪ promises s) (arrivals s).
Proof. by destruct c. Qed.

(** [here] of a name without an object reads results that were never constructed. *)
Lemma early_undef c s r : ok s -> early_here c (proc s) = true -> exec c s = Some r -> r = Undef.
Proof.
  intros Hok He Hr. destruct c; try done. destruct q; try done. unfold exec_call in Hr. cbn [possible possible_query] in Hr.
  destruct (is_team_name d (proc s)) eqn:Hn; [done|]. cbn [negb] in Hr. destruct (can_call (proc s)); [|done].
  pose proof (here_fine s d Hok Hn) as H. rewrite He in H. cbn [run_call run_query] in Hr. rewrite H in Hr. by injection Hr.
Qed.

Lemma exec_call_ok c s r : ok s -> proper rank_to_jobrank c s = true -> early_here c (proc s) = false -> exec c s = Some r ->
  r = Aborted \/ exists s', r = Ok s' /\ ok s'.
Proof.
  intros Hok Hpr He Hr. unfold exec_call in Hr. destruct (possible world c s) eqn:Hpos; [|done]. destruct (is_plain c) eqn:Hplain.
  - assert (Hc : can_call (proc s) = true) by (destruct c; try done; by destruct (can_call (proc s))).
    assert (r = fmap_res (observe rank_to_jobrank c s) (run c (proc s))) as ->
      by (destruct c; try done; rewrite Hc in Hr; by injection Hr).
    destruct (plain_fine c s Hok Hpr He Hpos Hc Hplain) as [->|(p' & -> & Hok')]; [by left|right].
    eexists. split; [done|]. by rewrite observe_plain.
  - destruct c; try done; cbn [possible] in Hpos.
    + apply negb_true_iff in Hpos. destruct (can_call (proc s)) eqn:Hc; [|done]. injection Hr as <-. cbn [run_call].
      destruct (arrive_fine s is_void d Hok Hc Hpos) as [->|(t & h & p' & -> & Hd & Hok')]; [by left|right].
      eexists. split; [done|]. unfold observe. cbn [new_name]. rewrite Hd.
      destruct (fine_new _ _ s p' d h Hok' Hd) as [?|(? & [= <-] & Hok2)]; [done|exact Hok2].
    + apply bind_Some in Hr as (r0 & Hr0 & [= <-]).
      destruct (action_fine s act r0 Hok Hr0) as [Ha|(p' & E & Hok')].
      * intros h Hop Hin. destruct act; try done; cbn in Hop; subst; by apply bool_decide_eq_true in Hpos.
      * left. by destruct r0.
      * right. apply fmap_res_ok in E as (x & -> & ->). eexists. split; [done|]. exact Hok'.
Qed.
End Calls.

End DistObjectSystem.
