(* ===== verification/DistObjectReachable.v ===== *)
(** The states that a process with teams and distributed objects reaches.

    It starts with [world()] and [local_team()], and calls, arriving calls and progress
    follow in any order.  The registry always has the names of the active teams and
    objects, a call that arrives finds the object that it names, and user-level
    progress makes every object available. *)
From S2P Require Import Prelude Digest FutureCore FutureInvariant FutureUpdates FutureSafety FutureLeave FutureSystem FutureFrame.
From S2P Require Import Teams DistObject DistObjectInvariant DistObjectCalls DistObjectSystem.

Module DistObjectReachable.
Import Digest Futures Invariant Updates Operations System Frame Teams DistObjects DistObjectState DistObjectCalls DistObjectSystem.

Section Reachable.
Context (threadmode_seq : bool) (GEX_TM_INVALID : Z) (world local_team : addr) (rank_to_jobrank : Z -> Z -> Z).

Abbreviation call_on := (exec_call threadmode_seq GEX_TM_INVALID world local_team rank_to_jobrank).
Abbreviation step := (DistObjectState.step threadmode_seq GEX_TM_INVALID world local_team rank_to_jobrank).

(** Before [upcxx::init] builds the teams. *)
Definition blank : process := mk_process (mk_context 1 true true false) ∅ ∅ ∅ System.init [] ∅.

Definition begin (world_tm n me local_tm lb peer_n peer_me : Z) : res process :=
  p ← init_world GEX_TM_INVALID world world_tm n me blank;
  init_local_team GEX_TM_INVALID local_team local_tm lb peer_n peer_me p.

Definition started (s : state) : Prop := exists world_tm n me local_tm lb peer_n peer_me p,
  world <> local_team /\ local_id lb <> tombstone /\ local_id lb <> world_id /\
  begin world_tm n me local_tm lb peer_n peer_me = Ok p /\ s = mk_state p ({[local_id lb]} ∪ ({[world_id]} ∪ ∅)) ∅ [].

Definition reachable (s : state) : Prop := exists s0, started s0 /\ rtc step s0 s.

(** * The invariant in reachable states *)

Lemma blank_ok : ok (mk_state blank ∅ ∅ []).
Proof.
  split; cbn; [|split|split|constructor].
  - exists ∅. exact init_sys_inv.
  - done.
  - intros d a. split; [done|]. by intros [(t & Ht & _) _].
  - done.
  - by intros a d (o & Ho & _).
  - done.
  - done.
  - set_solver.
  - done.
  - by intros a d h (o & Ho & _).
  - split; [constructor|]. intros h Hh. by apply elem_of_nil in Hh.
  - done.
Qed.

Lemma team_ctor_registry a base id n me p p' : id <> tombstone -> team_ctor GEX_TM_INVALID a base id n me p = Ok p' ->
  registry p' = <[id := TeamAt a]> (registry p) /\ teams p' = <[a := mk_team base id 0 n me]> (teams p).
Proof.
  intros Hid H. unfold team_ctor in H. destruct (deq id tombstone) eqn:Ed; [by apply deq_true in Ed|]. by injection H as <-.
Qed.

Lemma new_team_ok p names hp ws a base id n me p' : ok (mk_state p names hp ws) -> teams p !! a = None -> registry p !! id = None ->
  id <> tombstone -> team_ctor GEX_TM_INVALID a base id n me p = Ok p' -> ok (mk_state p' ({[id]} ∪ names) hp ws).
Proof.
  intros Hok Ha Hid Hd H. destruct (team_ctor_registry _ _ _ _ _ _ _ Hd H) as [Er _].
  destruct (team_ctor_ok GEX_TM_INVALID _ a base id n me Hok Ha (fun _ => Hid)) as [E|(q & E & Hq)]; cbn [proc] in E; [congruence|].
  assert (q = p') as -> by congruence. rewrite decide_False in Hq by done. cbn [issued promises arrivals] in Hq.
  pose proof (held_promises _ Hok) as Hp. cbn [proc promises] in Hp.
  replace (list_to_set (held (registry p')) ∪ hp) with hp in Hq; [exact Hq|].
  rewrite <- Hp at 1. f_equal. apply list_to_set_perm_L. rewrite Er. symmetry.
  apply held_insert_team. intros h. by rewrite Hid.
Qed.

Lemma blank_team a : teams blank !! a = None.
Proof. apply lookup_empty. Qed.

Lemma blank_name d : registry blank !! d = None.
Proof. apply lookup_empty. Qed.

Lemma two_teams_ok w l world_tm n me local_tm peer_n peer_me p1 p : world <> local_team ->
  w <> tombstone -> l <> tombstone -> l <> w ->
  team_ctor GEX_TM_INVALID world world_tm w n me blank = Ok p1 ->
  team_ctor GEX_TM_INVALID local_team local_tm l peer_n peer_me p1 = Ok p -> ok (mk_state p ({[l]} ∪ ({[w]} ∪ ∅)) ∅ []).
Proof.
  intros Hwl Hw Hl Hlw H1 H2. destruct (team_ctor_registry _ _ _ _ _ _ _ Hw H1) as [Er Et].
  pose proof (new_team_ok _ _ _ _ _ _ _ _ _ _ blank_ok (blank_team world) (blank_name w) Hw H1) as Hok1.
  refine (new_team_ok _ _ _ _ _ _ _ _ _ _ Hok1 _ _ Hl H2).
  - rewrite Et. rewrite lookup_insert_ne by done. apply blank_team.
  - rewrite Er. rewrite lookup_insert_ne by done. apply blank_name.
Qed.

#[local] Opaque eat local_id team_ctor.

Lemma world_id_valid : world_id <> tombstone.
Proof. by apply dne_true. Qed.

Lemma started_ok s : started s -> ok s.
Proof.
  intros (world_tm & n & me & local_tm & lb & peer_n & peer_me & p & Hwl & Hl & Hlw & Hb & ->).
  unfold begin, init_world, init_local_team in Hb. revert Hl Hlw Hb. generalize (local_id lb) as l, world_id_valid. generalize world_id as w.
  intros w Hw l Hl Hlw (p1 & H1 & H2)%bind_ok. by eapply two_teams_ok.
Qed.

Lemma call_step_ok s s' : ok s -> step s s' -> ok s'.
Proof.
  intros Hok (c & Hp & Hc). destruct (early_here c (proc s)) eqn:He; [by pose proof (early_undef _ _ _ _ _ c s _ Hok He Hc)|].
  destruct (exec_call_ok _ _ _ _ _ c s _ Hok Hp He Hc) as [?|(s1 & [= <-] & Hok1)]; done.
Qed.

Lemma calls_reachable_ok s : reachable s -> ok s.
Proof.
  intros (s0 & H0 & Hs). apply started_ok in H0. induction Hs as [|s1 s2 s3 H12 _ IH]; [done|]. by eapply IH, call_step_ok.
Qed.

(** C24: In every state that a process reaches, a call on teams or distributed objects,
    an arriving call or a part of progress either fails one of the assertions or goes
    through: it never reads a pointer or a promise that is gone, nor takes one thing
    for another.  There is one exception, [dist_id::here] of a name whose object was not made yet
    ([early_here]), which reads what is not there.  What callers owe ([proper]): names do not
    clash, no object moves after its promise was fulfilled, no team is deleted before it is
    destroyed. *)
Theorem registry_safe s c r : reachable s -> proper rank_to_jobrank c s = true -> call_on c s = Some r ->
  (r = Undef <-> early_here c (proc s) = true) /\
  (early_here c (proc s) = false -> r = Aborted \/ exists s', r = Ok s' /\ reachable s').
Proof.
  intros Hs Hp Hc. pose proof (calls_reachable_ok _ Hs) as Hok. destruct (early_here c (proc s)) eqn:He.
  { split; [|done]. split; [done|]. intros _. by eapply early_undef. }
  destruct (exec_call_ok _ _ _ _ _ c s r Hok Hp He Hc) as [->|(s' & -> & _)]; (split; [by split|intros _]); [by left|right].
  exists s'. split; [done|]. destruct Hs as (s0 & H0 & Hs). exists s0. split; [done|]. eapply rtc_r; [exact Hs|]. by exists c.
Qed.

(** C25: The registry has the names of the active teams, and of no other; of every active
    object it has a promise, whose result is the address of the object, and objects
    and teams that are active have names of their own. *)
Theorem registry_exact s : reachable s ->
  (forall d a, registry (proc s) !! d = Some (TeamAt a) <->
    d <> tombstone /\ exists t, teams (proc s) !! a = Some t /\ id_ t = d) /\
  (forall a o, objects (proc s) !! a = Some o -> is_active o = true ->
    exists h x, registry (proc s) !! object_id o = Some (PromiseAt h) /\ hs (heap_of (proc s)) !! h = Some x /\
      results x = Some [a]) /\
  (forall a b o u, objects (proc s) !! a = Some o -> objects (proc s) !! b = Some u -> is_active o = true ->
    object_id o = object_id u -> a = b).
Proof.
  intros Hs%calls_reachable_ok. split_and!.
  - intros d a. rewrite (n_team _ _ (ok_names _ Hs)). unfold team_named. tauto.
  - intros a o Ho Ha. destruct (active_object s a o Hs Ho Ha) as (_ & _ & _ & h & x & Hr & Hl & Hx & _).
    exists h, x. split_and!; [done|apply Hl|done].
  - intros a b o u Ho Hu Ha%dne_true E. exact (named_unique s a b (object_id o) Hs (ex_intro _ o (conj Ho eq_refl)) (ex_intro _ u (conj Hu (eq_sym E))) Ha).
Qed.

(** What the loops that deplete the active queue do next goes on in the process as in
    the program with all its references. *)
Lemma next_exec f (s : system) k y : idle s = false -> exec (next f (more k s)) (more k s) = Some (Ok y) ->
  exists x, exec (next f s) s = Some (Ok x) /\ y = more k x.
Proof.
  intros Hid Hy. change (next f (more k s)) with (next f s) in Hy.
  assert (Hr : exists r, exec (next f s) s = Some r).
  { unfold idle, next in *. destruct (running s) as [h|] eqn:Hru; [|destruct (active (futures s)) as [[|h q]|] eqn:Hq; [| |done]];
      unfold exec; rewrite Hru; [by eexists|rewrite Hq; by eexists|]. unfold serve. rewrite Hq. by eexists. }
  destruct Hr as [r Hr]. rewrite (exec_more k _ _ _ Hr) in Hy. injection Hy as Hy. apply fmap_res_ok in Hy as (x & -> & ->).
  by exists x.
Qed.

Lemma observe_user a s p' : observe rank_to_jobrank (User a) s p' =
  mk_state p' (issued s) (list_to_set (held (registry p')) ∪ promises s) (arrivals s).
Proof. done. Qed.

Lemma call_user s a x : promise_target a = None -> exec a (program (proc s)) = Some (Ok x) ->
  call_on (User a) s = Some (Ok (observe rank_to_jobrank (User a) s (put_program x (proc s)))).
Proof. intros Ha Hx. unfold exec_call. cbn [possible]. rewrite Ha, Hx. done. Qed.

(** C26: When the callback of a call that arrived starts, its argument is the address of
    an object, which is that of the object with the name that the call has, if
    there still is one. *)
Theorem rpc_finds_object s w h q x : reachable s -> w ∈ arrivals s ->
  running (program (proc s)) = None -> active (heap_of (proc s)) = Some (h :: q) ->
  hs (heap_of (proc s)) !! h = Some x -> load x = Body (waiting_body w) ->
  (forall xb, bs (heap_of (proc s)) !! waiting_body w = Some xb -> bkind xb = BThen) ->
  exists s' a, call_on (User Serve) s = Some (Ok s') /\ running (program (proc s')) = Some h /\
    log (program (proc s')) = log (program (proc s)) ++ [(h, [a])] /\
    forall b o, objects (proc s) !! b = Some o -> is_active o = true -> object_id o = waits_for w -> b = a.
Proof.
  intros Hs%calls_reachable_ok Hw Hrun Hact Hx Hload Hthen. destruct (ok_heap _ Hs) as [P HP].
  destruct (serve_step_ok _ _ (full (proc s)) h q HP Hrun Hact) as (y & xb & v & Hy & HPy & _ & (x' & b & Hx' & Hl & Hxb) & Hv & Hm).
  change (hs (heap_of (proc s)) !! h = Some x') in Hx'. assert (x' = x) as -> by congruence.
  assert (b = waiting_body w) as -> by congruence.
  change (bs (heap_of (proc s)) !! waiting_body w = Some xb) in Hxb. change (futures (full (proc s))) with (heap_of (proc s)) in Hv.
  assert (Hid : idle (program (proc s)) = false) by (unfold idle, heap_of in *; by rewrite Hrun, Hact).
  assert (Hnx : next (fun _ => []) (program (proc s)) = Serve) by (unfold next, heap_of in *; by rewrite Hrun, Hact).
  destruct (next_exec (fun _ => []) (program (proc s)) (internals (proc s)) y Hid) as (z & Hz & ->).
  { change (next _ (more _ _)) with (next (fun _ => []) (program (proc s))). rewrite Hnx. unfold exec. cbn [running more with_roots].
    by rewrite Hrun. }
  rewrite Hnx in Hz. rewrite (Hthen xb Hxb) in Hm. destruct Hm as (Hr1 & Hl1 & Hh1).
  pose proof (proj1 (Forall_forall _ _) (ok_arrivals _ Hs) w Hw) as (Hin & Hname & _ & Hwait).
  destruct (Hwait xb Hxb) as (_ & lk & Elk & Edep); [by rewrite (Hthen xb Hxb)|].
  rewrite Elk in Hv. cbn [dependency_results] in Hv. rewrite Edep in Hv.
  apply bind_ok in Hv as (x0 & Hx0%deref_ok & Hv). apply bind_ok in Hv as (v0 & Hv0%deref_ok & [= <-]).
  destruct (p_state _ _ (ok_promises _ Hs) _ Hin) as [_ Hst]. destruct (Hst _ Hx0) as (_ & _ & Hone).
  destruct (Hone _ Hv0) as [a ->]. eexists _, a. split; [by apply call_user|]. split; [exact Hr1|].
  split; [rewrite app_nil_r in Hl1; exact Hl1|]. intros b o Ho Hac Hid'. apply dne_true in Hac.
  assert (Hb : named_at (proc s) b (waits_for w)) by by exists o. rewrite Hid' in Hac.
  destruct Hname as [Hreg|(_ & _ & Hno)]; [|by destruct (Hno b)].
  destruct (p_object _ _ (ok_promises _ Hs) b _ _ Hb Hac Hreg) as (x1 & Hx1 & E). congruence.
Qed.
(** * Progress *)

(** User-level progress of the master persona: one deferred promise after the other is
    fulfilled, and the callbacks that it readies are run, each of which returns the
    values [f]. *)
Definition next_call (f : hid -> val) (s : state) : call :=
  if idle (program (proc s)) then Burst else User (next f (program (proc s))).
Definition quiet (s : state) : bool :=
  idle (program (proc s)) && match pros_deferred_trivial (proc s) with [] => true | _ => false end.
Fixpoint progress (f : hid -> val) (fuel : nat) (s : state) : option (res state) :=
  if quiet s then Some (Ok s)
  else match fuel with
       | O => None
       | S fuel => match call_on (next_call f s) s with Some (Ok s) => progress f fuel s | r => r end
       end.

(** What progress does not change. *)
Definition still (s s' : state) : Prop :=
  registry (proc s') = registry (proc s) /\ objects (proc s') = objects (proc s) /\ arrivals s' = arrivals s.

Lemma still_trans s1 s2 s3 : still s1 s2 -> still s2 s3 -> still s1 s3.
Proof. unfold still. intuition congruence. Qed.

Lemma user_tick f s : ok s -> idle (program (proc s)) = false ->
  exists s', call_on (User (next f (program (proc s)))) s = Some (Ok s') /\ ok s' /\ still s s' /\
    pros_deferred_trivial (proc s') = pros_deferred_trivial (proc s) /\
    (idle (program (proc s')) = true \/ (left (program (proc s')) < left (program (proc s)))%nat).
Proof.
  intros Hok Hid. destruct (ok_heap _ Hok) as [P HP].
  destruct (drain_progress f _ _ _ HP Hid) as (y & P' & Hy & _ & Hm).
  destruct (next_exec f (program (proc s)) (internals (proc s)) y Hid Hy) as (x & Hx & ->).
  assert (Ht : promise_target (next f (program (proc s))) = None).
  { unfold next. destruct (running _); [done|]. by destruct (active _) as [[|]|]. }
  pose proof (call_user s _ x Ht Hx) as Hc. eexists. split; [exact Hc|].
  destruct (exec_call_ok _ _ _ _ _ (User _) s _ Hok eq_refl eq_refl Hc) as [?|(s' & [= <-] & Hok')]; [done|].
  split; [exact Hok'|]. split; [done|]. split; [done|exact Hm].
Qed.

Lemma burst_tick s : ok s -> idle (program (proc s)) = true ->
  exists s', call_on Burst s = Some (Ok s') /\ ok s' /\ still s s' /\
    pros_deferred_trivial (proc s') = tail (pros_deferred_trivial (proc s)).
Proof.
  intros Hok Hid. destruct (burst_deferred_ok s Hok) as (p' & E & Hok' & Er & Eo & Eq).
  assert (Hc : call_on Burst s = Some (Ok (observe rank_to_jobrank Burst s p'))).
  { unfold exec_call. cbn [possible run_call]. unfold can_call, idle, heap_of in *. rewrite E.
    by destruct (running (program (proc s))), (active (futures (program (proc s)))). }
  eexists. split; [exact Hc|]. destruct (exec_call_ok _ _ _ _ _ Burst s _ Hok eq_refl eq_refl Hc) as [?|(s' & [= <-] & Hok2)]; [done|].
  split; [exact Hok2|]. split; [done|exact Eq].
Qed.

Definition work (s : state) : nat := if idle (program (proc s)) then O else S (left (program (proc s))).

Lemma progress_terminates f k : forall m s, ok s -> length (pros_deferred_trivial (proc s)) = k -> (work s <= m)%nat ->
  exists n s', progress f n s = Some (Ok s') /\ quiet s' = true /\ ok s' /\ still s s'.
Proof.
  induction k as [|k IHk]; induction m as [|m IHm]; intros s Hok Hk Hm; unfold work in Hm;
    destruct (idle (program (proc s))) eqn:Hid; try lia.
  1,2: exists O, s; assert (Hq : quiet s = true) by (unfold quiet; rewrite Hid; by destruct (pros_deferred_trivial (proc s)));
    cbn [progress]; by rewrite Hq.
  2,3: destruct (burst_tick s Hok Hid) as (s1 & Hc & Hok1 & Hst & Hq);
    destruct (IHk (work s1) s1) as (n & s' & Hn & Hqu & Hok' & Hst'); [done|rewrite Hq; by destruct (pros_deferred_trivial (proc s)); [|injection Hk]|done|];
    exists (S n), s'; split; [|split; [done|split; [done|by eapply still_trans]]];
    cbn [progress]; unfold quiet, next_call; rewrite Hid; destruct (pros_deferred_trivial (proc s)); [done|]; by rewrite Hc.
  all: destruct (user_tick f s Hok Hid) as (s1 & Hc & Hok1 & Hst & Hq & Hl);
    destruct (IHm s1) as (n & s' & Hn & Hqu & Hok' & Hst');
    [done|by rewrite Hq|unfold work; destruct (idle (program (proc s1))); [lia|destruct Hl; [done|lia]]|];
    exists (S n), s'; (split; [|split; [done|split; [done|by eapply still_trans]]]);
    cbn [progress]; unfold quiet, next_call; by rewrite Hid, Hc.
Qed.

(** Once progress is done, the promises of active objects are ready. *)
Lemma quiet_ready s a o : ok s -> quiet s = true -> objects (proc s) !! a = Some o -> is_active o = true ->
  exists h x, registry (proc s) !! object_id o = Some (PromiseAt h) /\ live_promise s h x /\
    status x = status_ready /\ result h (heap_of (proc s)) = Ok [a].
Proof.
  intros Hok [_ Hq]%andb_true_iff Ho Ha. destruct (active_object s a o Hok Ho Ha) as (_ & _ & _ & h & x & Hr & Hl & Hres & _).
  destruct (pros_deferred_trivial (proc s)) eqn:Eq; [|done]. exists h, x. split; [done|]. split; [done|].
  assert (Hs : status x = status_ready).
  { pose proof (l_status _ _ _ Hl) as Hs. destruct (l_ok _ _ _ Hl) as (_ & [[_ [[? _]|[_ Hin]]]|(Hk & _)] & _); [congruence| |by rewrite Hk in Hs].
    rewrite Eq in Hin. by apply elem_of_nil in Hin. }
  split; [done|]. unfold result, is_ready, result_of. rewrite (get_some _ _ _ (l_header _ _ _ Hl)). mcbn. rewrite Hs, (l_load _ _ _ Hl). mcbn.
  rewrite (get_some _ _ _ (l_header _ _ _ Hl)). mcbn. by rewrite Hres.
Qed.

(** A callback whose only dependency is ready does not wait when nothing runs. *)
Lemma nothing_waits V P s b xb lk x : sys_inv V P s -> idle s = true -> bs (futures s) !! b = Some xb -> bkind xb = BThen ->
  links xb = [lk] -> hs (futures s) !! dep lk = Some x -> kind x = KPromise 0 -> status x = status_ready -> False.
Proof.
  intros [[_ Hi] _] Hid Hxb Hk Elk Hx Hkx Hs. unfold idle in Hid.
  destruct (running s) eqn:Hru; [done|]. destruct (active (futures s)) eqn:Hac; [done|].
  destruct (s_body _ _ Hi _ _ Hxb) as [[? _]|(h & y & Hy & Hky & Hny & Hly & _)]; [done|].
  pose proof (s_header _ _ Hi _ _ Hy) as Hh. unfold header_ok in Hh. rewrite Hky, decide_False in Hh by done.
  destruct Hh as [?|(b' & xb' & Hl' & Hxb' & Hbo & _)]; [done|]. assert (b' = b) as -> by congruence.
  assert (xb' = xb) as -> by congruence. unfold body_ok in Hbo. rewrite Hk, Elk in Hbo. destruct Hbo as [_ Hnum].
  pose proof (s_link _ _ Hi (b, O) lk) as Hlk. unfold link_at in Hlk. cbn in Hlk. rewrite Hxb in Hlk. cbn in Hlk. rewrite Elk in Hlk.
  specialize (Hlk eq_refl). destruct (suc lk) as [q|] eqn:Hsuc.
  - destruct Hlk as [(x' & Hx' & Hin)|[Hin _]]; [|by apply elem_of_nil in Hin].
    pose proof (s_header _ _ Hi _ _ Hx) as Hh. unfold header_ok in Hh. rewrite Hkx, decide_True in Hh by done.
    destruct Hh as (_ & _ & Hsu & _). assert (x' = x) as -> by congruence. rewrite Hsu in Hin. by apply elem_of_nil in Hin.
  - assert (Hact : active_status y) by (left; rewrite Hnum; unfold number_linked; cbn; by rewrite Hsuc, ind_no by naive_solver).
    destruct (s_active _ _ Hi h y Hy Hky Hact) as [Hin|[?|[?|?]]]; [|cbn in *; congruence..].
    unfold queue in Hin. rewrite Hac in Hin. by apply elem_of_nil in Hin.
Qed.

(** C27: When callbacks return, user-level progress comes to an end; then the future of every
    active object is ready with the address of the object, and no callback of a call
    that arrived waits for an object that is active. *)
Theorem progress_resolves f s : reachable s ->
  exists n s', progress f n s = Some (Ok s') /\ still s s' /\
    (forall a o, objects (proc s') !! a = Some o -> is_active o = true ->
      exists h, registry (proc s') !! object_id o = Some (PromiseAt h) /\ result h (heap_of (proc s')) = Ok [a]) /\
    (forall w a o xb, w ∈ arrivals s' -> objects (proc s') !! a = Some o -> is_active o = true -> object_id o = waits_for w ->
      bs (heap_of (proc s')) !! waiting_body w = Some xb -> bkind xb <> BThen).
Proof.
  intros Hs%calls_reachable_ok. destruct (progress_terminates f _ _ s Hs eq_refl (le_n _)) as (n & s' & Hn & Hq & Hok & Hst).
  exists n, s'. split; [done|]. split; [done|]. split.
  - intros a o Ho Ha. destruct (quiet_ready s' a o Hok Hq Ho Ha) as (h & x & Hr & _ & _ & Hres). by exists h.
  - intros w a o xb Hw Ho Ha Hid Hxb Hk. destruct (quiet_ready s' a o Hok Hq Ho Ha) as (h & x & Hr & Hl & Hsx & _).
    pose proof (proj1 (Forall_forall _ _) (ok_arrivals _ Hok) w Hw) as (_ & Hname & _ & Hwait).
    destruct (Hwait xb Hxb) as (_ & lk & Elk & Edep); [congruence|].
    assert (through w = h) as Eh.
    { rewrite <- Hid in Hname. destruct Hname as [?|(_ & _ & Hno)]; [congruence|]. destruct (Hno a). by exists o. }
    destruct (ok_heap _ Hok) as [P HP]. eapply (nothing_waits _ _ (full (proc s')) _ xb lk x HP); try done.
    + by apply andb_true_iff in Hq as [? _].
    + rewrite Edep, Eh. apply Hl.
    + pose proof (l_status _ _ _ Hl) as Hst'. apply andb_true_iff in Hq as [_ Hq].
      destruct (l_ok _ _ _ Hl) as (_ & [[_ [[Hno _]|[_ Hin]]]|(? & _)] & _); [| |done].
      * destruct (active_object s' a o Hok Ho Ha) as (_ & _ & _ & h' & x' & Hr' & Hl' & Hres & _).
        assert (h' = h) as -> by congruence. pose proof (l_header _ _ _ Hl). pose proof (l_header _ _ _ Hl'). congruence.
      * destruct (pros_deferred_trivial (proc s')); [|done]. by apply elem_of_nil in Hin.
Qed.
End Reachable.
(** * Runs *)

Section Runs.
Context (threadmode_seq : bool) (GEX_TM_INVALID : Z) (world local_team : addr) (rank_to_jobrank : Z -> Z -> Z).
Abbreviation call_on := (exec_call threadmode_seq GEX_TM_INVALID world local_team rank_to_jobrank).

Fixpoint play (l : list call) (s : state) : option state :=
  match l with
  | [] => Some s
  | c :: l => match call_on c s with Some (Ok s) => play l s | _ => None end
  end.

Fixpoint all_proper (l : list call) (s : state) : bool :=
  match l with
  | [] => true
  | c :: l => proper rank_to_jobrank c s && match call_on c s with Some (Ok s) => all_proper l s | _ => false end
  end.

Lemma play_calls_steps l s s' : all_proper l s = true -> play l s = Some s' ->
  rtc (DistObjectState.step threadmode_seq GEX_TM_INVALID world local_team rank_to_jobrank) s s'.
Proof.
  revert s. induction l as [|c l IH]; intros s; cbn [all_proper play]; [intros _ [= ->]; apply rtc_refl|].
  intros [Hp H]%andb_true_iff. destruct (call_on c s) as [[s1| | |]|] eqn:E; try done. intros H'. eapply rtc_l; [by exists c|by apply IH].
Qed.
End Runs.

(** A job of two processes on one node: [world()] at 1, [local_team()] at 2. *)
Abbreviation ranks := (fun _ r : Z => r).
Definition zero_state : state :=
  mk_state (match begin 0 1 2 7 2 0 8 0 2 0 with Ok p => p | _ => blank end) ({[local_id 0]} ∪ ({[world_id]} ∪ ∅)) ∅ [].
Definition after (l : list call) : state := default zero_state (play false 0 1 2 ranks l zero_state).
Definition playable (l : list call) : bool :=
  all_proper false 0 1 2 ranks l zero_state && match play false 0 1 2 ranks l zero_state with Some _ => true | None => false end.

Lemma zero_started : started 0 1 2 zero_state.
Proof.
  exists 7, 2, 0, 8, 0, 2, 0, (proc zero_state). split; [done|]. split; [apply dne_true; vm_compute; reflexivity|].
  split; [apply dne_true; vm_compute; reflexivity|]. split; [vm_compute; reflexivity|reflexivity].
Qed.

Lemma after_calls_reachable l : playable l = true -> reachable false 0 1 2 ranks (after l).
Proof.
  intros [Hp H]%andb_true_iff. exists zero_state. split; [apply zero_started|]. unfold after.
  destruct (play _ _ _ _ _ l zero_state) as [s|] eqn:E; [|done]. by eapply play_calls_steps.
Qed.

(** The name of the first object over [world()].  A call that names it arrives, then the
    object is made, then user-level progress happens. *)
Definition first_name : digest := eat world_id 0 0.
Definition early : list call := [Arrive true first_name].
Definition made : list call := early ++ [New 10 1 77].
Definition readied : list call := made ++ [Burst].
Definition ran_once : list call := readied ++ [User Serve; User (Return (RValues [])); User Done].

Lemma early_reachable : reachable false 0 1 2 ranks (after made).
Proof. apply after_calls_reachable. vm_compute. reflexivity. Qed.

Lemma readied_reachable : reachable false 0 1 2 ranks (after readied).
Proof. apply after_calls_reachable. vm_compute. reflexivity. Qed.

Lemma registry_safe_witness : exec_call false 0 1 2 ranks (Query (ObjectHere first_name)) (after made) = Some (Ok (after made)) /\
  ((Ok (after made) : res state) = Undef <-> early_here (Query (ObjectHere first_name)) (proc (after made)) = true) /\
  (early_here (Query (ObjectHere first_name)) (proc (after made)) = false ->
   (Ok (after made) : res state) = Aborted \/ exists s', Ok (after made) = Ok s' /\ reachable false 0 1 2 ranks s').
Proof.
  split; [vm_compute; reflexivity|].
  apply (registry_safe false 0 1 2 ranks (after made) (Query (ObjectHere first_name)));
    [exact early_reachable|vm_compute; reflexivity|vm_compute; reflexivity].
Defined.

Lemma registry_exact_witness : exists h x, registry (proc (after made)) !! first_name = Some (PromiseAt h) /\
  hs (heap_of (proc (after made))) !! h = Some x /\ results x = Some [10].
Proof.
  apply (proj1 (proj2 (registry_exact false 0 1 2 ranks (after made) early_reachable)) 10 (mk_object 1 first_name (Some 77)));
    vm_compute; reflexivity.
Defined.

Definition the_call : arrival := mk_arrival 0%nat first_name 1%nat.

Lemma rpc_finds_object_witness : exists s' a, exec_call false 0 1 2 ranks (User Serve) (after readied) = Some (Ok s') /\
  running (program (proc s')) = Some 2%nat /\ log (program (proc s')) = log (program (proc (after readied))) ++ [(2%nat, [a])] /\
  forall b o, objects (proc (after readied)) !! b = Some o -> is_active o = true -> object_id o = first_name -> b = a.
Proof.
  apply (rpc_finds_object false 0 1 2 ranks (after readied) the_call 2%nat []
    (default (mk_header 0 0 [] (Body O) KDependent false None) (hs (heap_of (proc (after readied))) !! 2%nat)));
    [exact readied_reachable|vm_compute; left|vm_compute; reflexivity..|].
  intros xb. vm_compute. by intros [= <-].
Defined.

Lemma progress_resolves_witness : exists n s', progress false 0 1 2 ranks (fun _ => []) n (after made) = Some (Ok s') /\
  exists h, registry (proc s') !! first_name = Some (PromiseAt h) /\ result h (heap_of (proc s')) = Ok [10].
Proof.
  destruct (progress_resolves false 0 1 2 ranks (fun _ => []) (after made) early_reachable) as (n & s' & Hn & (Hr & Ho & _) & Ha & _).
  exists n, s'. split; [exact Hn|]. apply (Ha 10 (mk_object 1 first_name (Some 77))); [|vm_compute; reflexivity].
  rewrite Ho. vm_compute. reflexivity.
Defined.

(** * What [late_move] and [possible] leave out *)

(** An object moves after its promise was fulfilled: its future is not ready any more, and
    never is again, so that a call that arrives waits although progress is done. *)
Definition moved_late : list call := [New 10 1 77; Burst; MoveInto 11 10; Arrive true first_name].

Theorem late_move_starves : exists s w xb,
  play false 0 1 2 ranks moved_late zero_state = Some s /\ quiet s = true /\ w ∈ arrivals s /\
  objects (proc s) !! 11 = Some (mk_object 1 (waits_for w) (Some 77)) /\
  bs (heap_of (proc s)) !! waiting_body w = Some xb /\ bkind xb = BThen /\ result (through w) (heap_of (proc s)) = Aborted.
Proof.
  exists (after moved_late), (mk_arrival 0%nat first_name 1%nat), (mk_body BThen [mk_link 1%nat (Some 2%nat)]).
  split_and!; try (vm_compute; reflexivity). vm_compute. left.
Qed.

(** [dist_id::here] passes its assertion for a promise that [when_here] registered, and
    reads results that were never constructed. *)
Theorem here_before_object : exists s, play false 0 1 2 ranks [WhenHere first_name] zero_state = Some s /\
  exec_call false 0 1 2 ranks (Query (ObjectHere first_name)) s = Some Undef.
Proof. exists (after [WhenHere first_name]). split; vm_compute; reflexivity. Qed.
End DistObjectReachable.
