(* ===== verification/Neighborhood.v ===== *)
(** Shared memory of a neighborhood: the tables of [backend/gasnet/runtime.cpp] and
    [backend.hpp] that translate addresses.

    The processes of [local_team()] map each other's shared segments.  An address in
    such a segment is known to its owner under another value than here; [globalize_memory]
    gives the owner of a local address and the address there, [localize_memory] goes
    back.  Ranks and addresses are integers, addresses with the wrap-around of
    [uintptr_t]; what GASNet tells of neighborhood and segments is an argument. *)
From stdpp Require Import sorting.
From S2P Require Import Prelude.

Module Neighborhood.

(** * The processes of the neighborhood *)

(** The loop over [nbhd] in [upcxx::init]. *)
Fixpoint contiguous_after (prev : Z) (nbhd : list Z) : bool :=
  match nbhd with [] => true | r :: nbhd => (r =? 1 + prev) && contiguous_after r nbhd end.
Definition contiguous_nbhd (nbhd : list Z) : bool :=
  match nbhd with [] => true | r :: nbhd => contiguous_after r nbhd end.

Record peers := mk_peers { pshm_peer_lb : Z; pshm_peer_ub : Z; pshm_peer_n : Z; peer_me : Z }.

(** [local_team] of a process whose neighborhood has the ranks [nbhd]; [discontig] is
    [UPCXXI_DISCONTIG]. *)
Definition local_peers (discontig : bool) (nbhd : list Z) (rank_n rank_me peer_me : Z) : res peers :=
  let peer_n := Z.of_nat (length nbhd) in
  _ ← assert_that (0 <? peer_n);
  _ ← assert_that (peer_me <? peer_n);
  if peer_n =? rank_n then
    _ ← assert_that (peer_me =? rank_me);
    _ ← assert_that (contiguous_nbhd nbhd);
    Ok (mk_peers 0 rank_n peer_n peer_me)
  else if negb (contiguous_nbhd nbhd) then
    _ ← assert_that (discontig || negb (peer_me =? 0));
    Ok (mk_peers rank_me (rank_me + 1) 1 0)
  else
    r ← deref (head nbhd);
    Ok (mk_peers r (r + peer_n) peer_n peer_me).

(** * The tables *)

Record tables := mk_tables {
  the_peers : peers; pshm_local_minus_remote : list Z; pshm_vbase : list Z; pshm_size : list Z;
  pshm_owner_vbase : list Z; pshm_owner_peer : list Z
}.

(** A segment: its address at the owner, its address here, and its size. *)
Record segment := mk_segment { owner_vbase : Z; local_vbase : Z; seg_size : Z }.

(** What a peer sends of its shared heap when the UPC runtime has the rest of the segment:
    its offset and size. *)
Definition shared_heap_of (info : option (Z * Z)) (s : segment) : res segment :=
  _ ← assert_that (negb (owner_vbase s =? 0) && negb (local_vbase s =? 0) && negb (seg_size s =? 0));
  match info with
  | None => Ok s
  | Some (offset, size) =>
      _ ← assert_that (offset <? seg_size s);
      _ ← assert_that (size <=? seg_size s);
      Ok (mk_segment (w64 (owner_vbase s + offset)) (w64 (local_vbase s + offset)) size)
  end.

(** The comparison given to [std::qsort], and a sort by it. *)
Definition compare_peers (vbase : list Z) (a b : Z) : Z :=
  let va := nth (Z.to_nat a) vbase 0 in
  let vb := nth (Z.to_nat b) vbase 0 in
  if va <? vb then -1 else if va =? vb then 0 else 1.

Fixpoint insert_peer (cmp : Z -> Z -> Z) (p : Z) (l : list Z) : list Z :=
  match l with
  | [] => [p]
  | q :: l => if cmp p q <=? 0 then p :: q :: l else q :: insert_peer cmp p l
  end.
Definition qsort (cmp : Z -> Z -> Z) (l : list Z) : list Z := foldr (insert_peer cmp) [] l.

(** [init_localheap_tables]: the loop over the peers, with a segment and an [info] for each,
    and the sort. *)
Definition shared_heaps (segments : list segment) (infos : list (option (Z * Z))) : res (list segment) :=
  mapM (fun '(info, s) => shared_heap_of info s) (zip infos segments).

Definition sorted_tables (ps : peers) (l : list segment) : tables :=
  let vbase := local_vbase <$> l in
  let owner_peer := qsort (compare_peers vbase) (Z.of_nat <$> seq 0 (length l)) in
  mk_tables ps ((fun s => w64 (local_vbase s - owner_vbase s)) <$> l) vbase (seg_size <$> l)
    ((fun p => nth (Z.to_nat p) vbase 0) <$> owner_peer) owner_peer.

Definition init_localheap_tables (ps : peers) (segments : list segment) (infos : list (option (Z * Z))) : res tables :=
  l ← shared_heaps segments infos; Ok (sorted_tables ps l).

(** * Translation *)

(** [std::upper_bound] of a sorted array: the index of the first element above [x]. *)
Fixpoint upper_bound (l : list Z) (x : Z) : nat :=
  match l with [] => O | y :: l => if x <? y then O else S (upper_bound l x) end.

Definition at_ (l : list Z) (i : Z) : res Z := deref (if 0 <=? i then l !! Z.to_nat i else None).

(** What both forms of [globalize_memory] compute after the search: the peer, and whether
    the address is in its segment. *)
Definition owner_of (t : tables) (uaddr key_ix : Z) : res (Z * bool) :=
  _ ← assert_that (key_ix <=? pshm_peer_n (the_peers t));
  peer ← at_ (pshm_owner_peer t) (key_ix - 1);
  _ ← assert_that ((0 <=? peer) && (peer <? pshm_peer_n (the_peers t)));
  vbase ← at_ (pshm_vbase t) peer;
  size ← at_ (pshm_size t) peer;
  Ok (peer, w64 (uaddr - vbase) <=? size).

Definition globalized (t : tables) (uaddr peer : Z) : res (Z * Z) :=
  d ← at_ (pshm_local_minus_remote t) peer;
  Ok (pshm_peer_lb (the_peers t) + peer, w64 (uaddr - d)).

Definition globalize_memory (t : tables) (uaddr : Z) : res (Z * Z) :=
  let ps := the_peers t in
  _ ← assert_that (pshm_peer_n ps =? pshm_peer_ub ps - pshm_peer_lb ps);
  let key_ix := Z.of_nat (upper_bound (pshm_owner_vbase t) uaddr) in
  _ ← assert_that (0 <? key_ix);
  '((peer, good) : Z * bool) ← owner_of t uaddr key_ix;
  _ ← assert_that good;
  globalized t uaddr peer.

Definition globalize_memory_otherwise (t : tables) (uaddr : Z) (otherwise : Z * Z) : res (Z * Z) :=
  let ps := the_peers t in
  _ ← assert_that (pshm_peer_n ps =? pshm_peer_ub ps - pshm_peer_lb ps);
  let key_ix := Z.of_nat (upper_bound (pshm_owner_vbase t) uaddr) in
  if key_ix <=? 0 then Ok otherwise else
  '((peer, good) : Z * bool) ← owner_of t uaddr key_ix;
  if good then globalized t uaddr peer else Ok otherwise.

Section Local.
(** [all_ranks_definitely_local], a constant of the build. *)
Context (definitely_local : bool) (rank_n : Z).

Definition assert_valid_definitely_local (ps : peers) : res unit :=
  assert_that (negb definitely_local || (pshm_peer_lb ps =? 0) && (pshm_peer_n ps =? rank_n)).

Definition rank_is_local (ps : peers) (r : Z) : res bool :=
  _ ← assert_that ((0 <=? r) && (r <? rank_n));
  _ ← assert_valid_definitely_local ps;
  Ok (definitely_local || (w64 (w64 r - w64 (pshm_peer_lb ps)) <? w64 (pshm_peer_n ps))).

Definition localize_memory_nonnull (t : tables) (rank raw : Z) : res Z :=
  let ps := the_peers t in
  _ ← assert_that ((pshm_peer_lb ps <=? rank) && (rank <? pshm_peer_ub ps));
  _ ← assert_valid_definitely_local ps;
  let peer := rank - pshm_peer_lb ps in
  d ← at_ (pshm_local_minus_remote t) peer;
  let u := w64 (raw + d) in
  vbase ← at_ (pshm_vbase t) peer;
  size ← at_ (pshm_size t) peer;
  _ ← assert_that (w64 (u - vbase) <? size);
  Ok u.

Definition localize_memory (t : tables) (rank raw : Z) : res Z :=
  if raw =? 0 then Ok 0 else localize_memory_nonnull t rank raw.

Definition globalize_memory_nonnull (t : tables) (rank u : Z) : res Z :=
  let ps := the_peers t in
  _ ← assert_that ((pshm_peer_lb ps <=? rank) && (rank <? pshm_peer_ub ps));
  _ ← assert_valid_definitely_local ps;
  let peer := rank - pshm_peer_lb ps in
  d ← at_ (pshm_local_minus_remote t) peer;
  vbase ← at_ (pshm_vbase t) peer;
  size ← at_ (pshm_size t) peer;
  _ ← assert_that (w64 (u - vbase) <? size);
  Ok (w64 (u - d)).
End Local.

(** * Sorting and searching *)

Section Sort.
Context (key : Z -> Z) (cmp : Z -> Z -> Z) (Hcmp : forall a b, cmp a b <=? 0 = (key a <=? key b)).

Lemma insert_peer_perm p l : insert_peer cmp p l ≡ₚ p :: l.
Proof using Type. induction l as [|q l IH]; cbn; [done|]. case_match; [done|]. rewrite IH. apply Permutation_swap. Qed.

Lemma qsort_perm l : qsort cmp l ≡ₚ l.
Proof using Type. induction l as [|p l IH]; cbn; [done|]. by rewrite insert_peer_perm, IH. Qed.

Lemma insert_peer_sorted p l : StronglySorted (fun a b => key a <= key b) l ->
  StronglySorted (fun a b => key a <= key b) (insert_peer cmp p l).
Proof using Hcmp.
  induction 1 as [|q l Hl IH Hq]; cbn; [repeat constructor|]. rewrite Hcmp. destruct (key p <=? key q) eqn:E.
  - constructor; [by constructor|]. constructor; [lia|]. eapply Forall_impl; [exact Hq|]. cbn. lia.
  - constructor; [done|]. rewrite insert_peer_perm. constructor; [lia|done].
Qed.

Lemma qsort_sorted l : StronglySorted (fun a b => key a <= key b) (qsort cmp l).
Proof using Hcmp. induction l as [|p l IH]; cbn; [constructor|by apply insert_peer_sorted]. Qed.
End Sort.

Lemma upper_bound_le l x : (upper_bound l x <= length l)%nat.
Proof. induction l as [|y l IH]; cbn; [lia|]. case_match; lia. Qed.

Lemma bases_upper_bound l x i y : StronglySorted Z.le l -> l !! i = Some y -> (i < upper_bound l x)%nat <-> y <= x.
Proof.
  intros Hs. revert i. induction Hs as [|z l Hl IH Hz]; intros i Hi; [done|]. cbn.
  destruct (x <? z) eqn:E.
  - destruct i as [|i]; [injection Hi as <-; lia|]. rewrite Forall_forall in Hz.
    assert (z <= y) by (apply Hz, list_elem_of_lookup; by exists i). lia.
  - destruct i as [|i]; [injection Hi as <-; lia|]. cbn in Hi. rewrite <- (IH i Hi). lia.
Qed.

Lemma bases_sorted_lookup (l : list Z) i j x y : StronglySorted Z.le l -> (i < j)%nat -> l !! i = Some x -> l !! j = Some y -> x <= y.
Proof.
  intros Hs. revert i j. induction Hs as [|z l Hl IH Hz]; intros i j Hij Hi Hj; [done|]. destruct j as [|j]; [lia|]. cbn in Hj.
  destruct i as [|i]; [|by eapply (IH i j); [lia|..]]. injection Hi as <-. rewrite Forall_forall in Hz.
  apply Hz, list_elem_of_lookup. by exists j.
Qed.

Lemma at_nat l i : at_ l (Z.of_nat i) = deref (l !! i).
Proof. unfold at_. by rewrite (proj2 (Z.leb_le _ _)), Nat2Z.id by lia. Qed.

Lemma at_some l i x : 0 <= i -> l !! Z.to_nat i = Some x -> at_ l i = Ok x.
Proof. intros Hi Hl. unfold at_. by rewrite (proj2 (Z.leb_le _ _) Hi), Hl. Qed.

(** * What GASNet promises of the segments *)

Record good_segment (s : segment) : Prop := {
  g_owner : 0 < owner_vbase s /\ owner_vbase s + seg_size s <= w64_mod;
  g_local : 0 < local_vbase s /\ local_vbase s + seg_size s <= w64_mod;
  g_size : 0 < seg_size s
}.

Definition disjoint (s s' : segment) : Prop :=
  local_vbase s + seg_size s <= local_vbase s' \/ local_vbase s' + seg_size s' <= local_vbase s.

Record layout (ps : peers) (l : list segment) : Prop := {
  y_peers : pshm_peer_n ps = Z.of_nat (length l) /\ pshm_peer_ub ps = pshm_peer_lb ps + pshm_peer_n ps;
  y_good : Forall good_segment l;
  y_disjoint : forall p q s s', p <> q -> l !! p = Some s -> l !! q = Some s' -> disjoint s s'
}.

Section Layout.
Context (ps : peers) (l : list segment) (Hy : layout ps l).
Abbreviation t := (sorted_tables ps l).

Lemma segment_good p s : l !! p = Some s -> good_segment s.
Proof using Hy. intros Hp. eapply (proj1 (Forall_lookup _ _)); [apply Hy|done]. Qed.

Lemma key_of p s : l !! p = Some s -> nth p (local_vbase <$> l) 0 = local_vbase s.
Proof using Type. intros Hp. apply nth_lookup_Some. by rewrite list_lookup_fmap, Hp. Qed.

Lemma same_base p q s s' : l !! p = Some s -> l !! q = Some s' -> local_vbase s = local_vbase s' -> p = q.
Proof using Hy.
  intros Hp Hq E. destruct (decide (p = q)) as [|Hne]; [done|]. pose proof (g_size _ (segment_good _ _ Hp)).
  pose proof (g_size _ (segment_good _ _ Hq)). destruct (y_disjoint _ _ Hy p q s s' Hne Hp Hq); lia.
Qed.

Lemma owner_peer_elem p : Z.of_nat p ∈ pshm_owner_peer t <-> (p < length l)%nat.
Proof using Type.
  cbn. rewrite qsort_perm, list_elem_of_fmap. split.
  - intros (q & E & Hq%elem_of_seq). assert (p = q) by lia. lia.
  - intros Hp. exists p. split; [done|]. apply elem_of_seq. lia.
Qed.

(** The entries of the sorted tables *)
Lemma owner_peer_lookup i x : pshm_owner_peer t !! i = Some x ->
  exists p s, x = Z.of_nat p /\ l !! p = Some s /\ pshm_owner_vbase t !! i = Some (local_vbase s).
Proof using Type.
  intros Hi. assert (Hin : x ∈ pshm_owner_peer t) by (apply list_elem_of_lookup; by exists i).
  pose proof Hin as Hin'. cbn in Hin'. rewrite qsort_perm in Hin'. apply list_elem_of_fmap in Hin' as (p & -> & Hp%elem_of_seq).
  destruct (l !! p) as [s|] eqn:Es; [|apply lookup_ge_None in Es; lia]. exists p, s. split_and!; [done|done|].
  cbn in Hi |- *. rewrite list_lookup_fmap, Hi. cbn. by rewrite Nat2Z.id, (key_of _ _ Es).
Qed.

Lemma owner_vbase_sorted : StronglySorted Z.le (pshm_owner_vbase t).
Proof using Type.
  cbn. set (key := fun p => nth (Z.to_nat p) (local_vbase <$> l) 0).
  assert (Hs : StronglySorted (fun a b => key a <= key b) (pshm_owner_peer t)).
  { cbn. apply qsort_sorted. intros a b. unfold compare_peers, key. repeat case_match; lia. }
  cbn in Hs. induction Hs as [|a k Hk IH Ha]; cbn; [constructor|]. constructor; [done|]. by apply Forall_fmap.
Qed.

Lemma owner_peer_length : length (pshm_owner_peer t) = length l /\ length (pshm_owner_vbase t) = length l.
Proof using Type. cbn. by rewrite length_fmap, qsort_perm, length_fmap, length_seq. Qed.

(** The search finds the last segment that starts at or below an address. *)
Lemma owner_search a : let k := upper_bound (pshm_owner_vbase t) a in
  k = O /\ (forall p s, l !! p = Some s -> a < local_vbase s) \/
  exists p s, (0 < k <= length l)%nat /\ pshm_owner_peer t !! (k - 1)%nat = Some (Z.of_nat p) /\ l !! p = Some s /\
    local_vbase s <= a /\ forall q s', l !! q = Some s' -> local_vbase s' <= a -> local_vbase s' <= local_vbase s.
Proof using Hy.
  intros k. destruct owner_peer_length as [Hl1 Hl2]. pose proof (upper_bound_le (pshm_owner_vbase t) a) as Hle.
  assert (Hall : forall q s', l !! q = Some s' -> exists j, pshm_owner_peer t !! j = Some (Z.of_nat q) /\
    pshm_owner_vbase t !! j = Some (local_vbase s') /\ ((j < k)%nat <-> local_vbase s' <= a)).
  { intros q s' Hq. assert (Hin : Z.of_nat q ∈ pshm_owner_peer t) by (apply owner_peer_elem; by apply lookup_lt_Some in Hq).
    apply list_elem_of_lookup in Hin as [j Hj]. exists j. destruct (owner_peer_lookup _ _ Hj) as (p & s & E & Hp & Hv).
    assert (p = q) as -> by lia. assert (s = s') as -> by congruence. split_and!; [done..|].
    by apply bases_upper_bound; [apply owner_vbase_sorted|]. }
  destruct (decide (k = O)) as [H0|H0].
  - left. split; [done|]. intros p s Hp. destruct (Hall p s Hp) as (j & _ & _ & Hj). lia.
  - right. destruct (lookup_lt_is_Some_2 (pshm_owner_peer t) (k - 1)) as [x Hx]; [fold k in Hle; lia|].
    destruct (owner_peer_lookup _ _ Hx) as (p & s & -> & Hp & Hv). exists p, s. split_and!; [lia|fold k in Hle; lia|done|done| |].
    + apply (bases_upper_bound _ a (k - 1) _ owner_vbase_sorted Hv). fold k. lia.
    + intros q s' Hq Ha. destruct (Hall q s' Hq) as (j & _ & Hj & Hjk). apply Hjk in Ha.
      destruct (decide (j = k - 1)%nat) as [->|]; [assert (local_vbase s' = local_vbase s) by congruence; lia|].
      apply (bases_sorted_lookup _ j (k - 1) _ _ owner_vbase_sorted); [lia|done..].
Qed.

Lemma owner_of_at a p s k : pshm_owner_peer t !! (k - 1)%nat = Some (Z.of_nat p) -> l !! p = Some s -> (0 < k <= length l)%nat ->
  owner_of t a (Z.of_nat k) = Ok (Z.of_nat p, w64 (a - local_vbase s) <=? seg_size s).
Proof using Hy.
  intros Hk Hp Hr. unfold owner_of. destruct (proj1 (y_peers _ _ Hy)).
  assert (Hn : pshm_peer_n (the_peers t) = Z.of_nat (length l)) by apply (y_peers _ _ Hy). rewrite Hn.
  rewrite (proj2 (Z.leb_le _ _)) by lia. mcbn. rewrite (at_some _ _ (Z.of_nat p)); [|lia|by replace (Z.to_nat _) with (k - 1)%nat by lia].
  mcbn. pose proof (lookup_lt_Some _ _ _ Hp). rewrite (proj2 (Z.leb_le _ _)), (proj2 (Z.ltb_lt _ _)) by lia. mcbn.
  rewrite !at_nat. cbn. by rewrite !list_lookup_fmap, Hp.
Qed.

Lemma globalized_at a p s : l !! p = Some s ->
  globalized t a (Z.of_nat p) = Ok (pshm_peer_lb ps + Z.of_nat p, w64 (a - (local_vbase s - owner_vbase s))).
Proof using Type.
  intros Hp. unfold globalized. rewrite at_nat. cbn. rewrite list_lookup_fmap, Hp. cbn.
  by rewrite w64_sub_r.
Qed.

Lemma peers_assert : (pshm_peer_n ps =? pshm_peer_ub ps - pshm_peer_lb ps) = true.
Proof using Hy. destruct (y_peers _ _ Hy) as [_ ->]. lia. Qed.

(** Addresses in no segment, nor at the end of one. *)
Lemma globalize_outside a o : 0 <= a < w64_mod ->
  (forall p s, l !! p = Some s -> ~ local_vbase s <= a <= local_vbase s + seg_size s) ->
  globalize_memory t a = Aborted /\ globalize_memory_otherwise t a o = Ok o.
Proof using Hy.
  intros Ha Hout. unfold globalize_memory, globalize_memory_otherwise. cbn [the_peers sorted_tables]. rewrite peers_assert. mcbn.
  destruct (owner_search a) as [[Hk _]|(p & s & Hk & Hi & Hp & Hle & _)].
  { rewrite Hk. done. }
  rewrite (proj2 (Z.ltb_lt _ _)), (proj2 (Z.leb_gt _ _)) by lia. mcbn. rewrite (owner_of_at a p s _ Hi Hp Hk). mcbn.
  pose proof (Hout p s Hp). destruct (segment_good _ _ Hp). rewrite w64_small by (unfold is_u64; lia).
  by rewrite (proj2 (Z.leb_gt _ _)) by lia.
Qed.

(** Addresses in a segment, or at its end unless another starts there. *)
Lemma globalize_inside a o p s : l !! p = Some s -> local_vbase s <= a <= local_vbase s + seg_size s -> a < w64_mod ->
  (a = local_vbase s + seg_size s -> forall q s', l !! q = Some s' -> local_vbase s' <> a) ->
  let g := (pshm_peer_lb ps + Z.of_nat p, w64 (owner_vbase s + (a - local_vbase s))) in
  globalize_memory t a = Ok g /\ globalize_memory_otherwise t a o = Ok g.
Proof using Hy.
  intros Hp Ha Hmod Hend. unfold globalize_memory, globalize_memory_otherwise. cbn [the_peers sorted_tables]. rewrite peers_assert. mcbn.
  destruct (segment_good _ _ Hp) as [G1 G2 G3].
  destruct (owner_search a) as [[_ Hno]|(q & s' & Hk & Hi & Hq & Hle & Hmax)]; [specialize (Hno p s Hp); lia|].
  assert (q = p) as ->.
  { specialize (Hmax p s Hp ltac:(lia)). destruct (decide (q = p)) as [|Hne]; [done|exfalso].
    destruct (segment_good _ _ Hq) as [_ _ G3']. destruct (y_disjoint _ _ Hy q p s' s Hne Hq Hp) as [?|?]; [lia|].
    apply (Hend ltac:(lia) q s' Hq). lia. }
  assert (s' = s) as -> by congruence.
  rewrite (proj2 (Z.ltb_lt _ _)), (proj2 (Z.leb_gt _ _)) by lia. mcbn. rewrite (owner_of_at a p s _ Hi Hp Hk). mcbn.
  rewrite w64_small by (unfold is_u64; lia). rewrite (proj2 (Z.leb_le _ _)) by lia. mcbn. rewrite (globalized_at a p s Hp).
  by replace (owner_vbase s + (a - local_vbase s)) with (a - (local_vbase s - owner_vbase s)) by lia.
Qed.

Lemma localize_inside definitely_local rank_n p s raw : l !! p = Some s ->
  owner_vbase s <= raw < owner_vbase s + seg_size s ->
  (definitely_local = true -> pshm_peer_lb ps = 0 /\ pshm_peer_n ps = rank_n) ->
  localize_memory definitely_local rank_n t (pshm_peer_lb ps + Z.of_nat p) raw = Ok (local_vbase s + (raw - owner_vbase s)).
Proof using Hy.
  intros Hp Hraw Hdef. destruct (segment_good _ _ Hp) as [G1 G2 G3]. unfold localize_memory, localize_memory_nonnull.
  rewrite (proj2 (Z.eqb_neq _ _)) by lia. cbn [the_peers sorted_tables]. pose proof (lookup_lt_Some _ _ _ Hp) as Hlt.
  destruct (y_peers _ _ Hy) as [Y1 Y2]. rewrite (proj2 (Z.leb_le _ _)), (proj2 (Z.ltb_lt _ _)) by lia. mcbn.
  unfold assert_valid_definitely_local.
  assert (negb definitely_local || (pshm_peer_lb ps =? 0) && (pshm_peer_n ps =? rank_n) = true) as ->.
  { destruct definitely_local; [|done]. destruct (Hdef eq_refl) as [-> ->]. cbn. lia. }
  mcbn. replace (pshm_peer_lb ps + Z.of_nat p - pshm_peer_lb ps) with (Z.of_nat p) by lia. rewrite !at_nat. cbn.
  rewrite !list_lookup_fmap, Hp. cbn. rewrite w64_add_r.
  replace (raw + (local_vbase s - owner_vbase s)) with (local_vbase s + (raw - owner_vbase s)) by lia.
  rewrite !w64_small by (unfold is_u64; rewrite ?w64_small by (unfold is_u64; lia); lia).
  by rewrite (proj2 (Z.ltb_lt _ _)) by lia.
Qed.
End Layout.

(** * Theorems *)

Lemma init_tables ps segments infos l : shared_heaps segments infos = Ok l ->
  init_localheap_tables ps segments infos = Ok (sorted_tables ps l).
Proof. intros H. unfold init_localheap_tables. by rewrite H. Qed.

(** [all_ranks_definitely_local] is set for jobs of one neighborhood only. *)
Definition constant_ok (definitely_local : bool) (rank_n : Z) (ps : peers) : Prop :=
  definitely_local = true -> pshm_peer_lb ps = 0 /\ pshm_peer_n ps = rank_n.

(** [globalize_memory] gives the owner of an address in a shared segment and the
    address there, from which [localize_memory] gives it back; an address in no segment
    nor at the end of one is refused. *)
Theorem globalize_exact definitely_local rank_n ps segments infos l t a o : shared_heaps segments infos = Ok l ->
  init_localheap_tables ps segments infos = Ok t -> layout ps l -> constant_ok definitely_local rank_n ps -> 0 <= a < w64_mod ->
  (forall p s, l !! p = Some s -> local_vbase s <= a < local_vbase s + seg_size s ->
    let g := (pshm_peer_lb ps + Z.of_nat p, owner_vbase s + (a - local_vbase s)) in
    globalize_memory t a = Ok g /\ globalize_memory_otherwise t a o = Ok g /\
    localize_memory definitely_local rank_n t g.1 g.2 = Ok a) /\
  ((forall p s, l !! p = Some s -> ~ local_vbase s <= a <= local_vbase s + seg_size s) ->
    globalize_memory t a = Aborted /\ globalize_memory_otherwise t a o = Ok o).
Proof.
  intros Hl Ht Hy Hc Ha. rewrite (init_tables _ _ _ _ Hl) in Ht. injection Ht as <-. split; [|by apply globalize_outside].
  intros p s Hp Hin g. destruct (segment_good ps l Hy p s Hp) as [G1 G2 G3].
  destruct (globalize_inside ps l Hy a o p s Hp) as [E1 E2]; [lia|lia|lia|].
  rewrite w64_small in E1, E2 by (unfold is_u64; lia). split_and!; [done|done|]. cbn [fst snd g].
  rewrite (localize_inside ps l Hy definitely_local rank_n p s) by (done || lia). f_equal. lia.
Qed.

(** An address in the segment of a local rank, as its owner knows it, has a local
    address, which [globalize_memory] takes back to the rank and its address. *)
Theorem localize_round_trip definitely_local rank_n ps segments infos l t p s raw : shared_heaps segments infos = Ok l ->
  init_localheap_tables ps segments infos = Ok t -> layout ps l -> constant_ok definitely_local rank_n ps ->
  l !! p = Some s -> owner_vbase s <= raw < owner_vbase s + seg_size s ->
  exists u, localize_memory definitely_local rank_n t (pshm_peer_lb ps + Z.of_nat p) raw = Ok u /\
    local_vbase s <= u < local_vbase s + seg_size s /\ globalize_memory t u = Ok (pshm_peer_lb ps + Z.of_nat p, raw).
Proof.
  intros Hl Ht Hy Hc Hp Hraw. rewrite (init_tables _ _ _ _ Hl) in Ht. injection Ht as <-.
  destruct (segment_good ps l Hy p s Hp) as [G1 G2 G3]. exists (local_vbase s + (raw - owner_vbase s)).
  split; [by apply (localize_inside ps l Hy)|]. split; [lia|].
  destruct (globalize_inside ps l Hy (local_vbase s + (raw - owner_vbase s)) (0, 0) p s Hp) as [E _]; [lia|lia|lia|].
  rewrite E. f_equal. f_equal. rewrite w64_small by (unfold is_u64; lia). lia.
Qed.

(** The end of a segment is taken for a part of it. *)
Lemma globalize_end ps l p s o : layout ps l -> l !! p = Some s -> local_vbase s + seg_size s < w64_mod ->
  (forall q s', l !! q = Some s' -> local_vbase s' <> local_vbase s + seg_size s) ->
  globalize_memory_otherwise (sorted_tables ps l) (local_vbase s + seg_size s) o =
    Ok (pshm_peer_lb ps + Z.of_nat p, w64 (owner_vbase s + seg_size s)).
Proof.
  intros Hy Hp Hm Hno. destruct (segment_good ps l Hy p s Hp) as [G1 G2 G3].
  destruct (globalize_inside ps l Hy (local_vbase s + seg_size s) o p s Hp) as [_ ->]; [lia|lia|intros _; apply Hno|].
  do 3 f_equal. lia.
Qed.

(** [rank_is_local] with one comparison of unsigned numbers. *)
Lemma rank_is_local_exact definitely_local rank_n ps r : 0 <= pshm_peer_lb ps -> 0 <= pshm_peer_n ps ->
  pshm_peer_ub ps = pshm_peer_lb ps + pshm_peer_n ps -> pshm_peer_ub ps <= rank_n -> rank_n < 2 ^ 31 ->
  constant_ok definitely_local rank_n ps -> 0 <= r < rank_n ->
  rank_is_local definitely_local rank_n ps r = Ok ((pshm_peer_lb ps <=? r) && (r <? pshm_peer_ub ps)).
Proof.
  intros Hlb Hn Hub Hle Hmax Hc Hr. assert (2 ^ 31 < w64_mod) by reflexivity. unfold rank_is_local, assert_valid_definitely_local.
  rewrite (proj2 (Z.leb_le _ _)), (proj2 (Z.ltb_lt r _)) by lia. cbn [andb]. mcbn.
  assert (negb definitely_local || (pshm_peer_lb ps =? 0) && (pshm_peer_n ps =? rank_n) = true) as ->.
  { destruct definitely_local; [|done]. destruct (Hc eq_refl) as [-> ->]. cbn. lia. }
  mcbn. f_equal. rewrite (w64_small r), (w64_small (pshm_peer_lb ps)), (w64_small (pshm_peer_n ps)) by (unfold is_u64; lia).
  destruct definitely_local; [destruct (Hc eq_refl); symmetry; apply andb_true_iff; lia|]. cbn [orb].
  destruct (pshm_peer_lb ps <=? r) eqn:E; cbn [andb].
  - rewrite w64_small by (unfold is_u64; lia). lia.
  - replace (w64 (r - pshm_peer_lb ps)) with (r - pshm_peer_lb ps + w64_mod); [lia|].
    symmetry. rewrite <- (w64_wrap_plus _ 1), Z.mul_1_l. apply w64_small. unfold is_u64. lia.
Qed.

Lemma contiguous_lookup r l i x : contiguous_after r l = true -> l !! i = Some x -> x = r + 1 + Z.of_nat i.
Proof.
  revert r i. induction l as [|y l IH]; intros r i; [done|]. cbn. intros [Hy Hl]%andb_true_iff Hi.
  destruct i as [|i]; [injection Hi as <-; lia|]. cbn in Hi. rewrite (IH _ _ Hl Hi). lia.
Qed.

(** The processes of [local_team()] are an interval of ranks in the neighborhood around
    the process itself. *)
Lemma local_peers_ok discontig nbhd rank_n rank_me me ps : 0 <= me -> nbhd !! Z.to_nat me = Some rank_me ->
  local_peers discontig nbhd rank_n rank_me me = Ok ps ->
  pshm_peer_ub ps = pshm_peer_lb ps + pshm_peer_n ps /\ 0 <= peer_me ps < pshm_peer_n ps /\
  pshm_peer_lb ps + peer_me ps = rank_me /\
  forall r, pshm_peer_lb ps <= r < pshm_peer_ub ps -> r ∈ nbhd.
Proof.
  intros H0 Hme H. unfold local_peers in H. destruct (0 <? Z.of_nat (length nbhd)) eqn:E0; [|done].
  destruct (me <? Z.of_nat (length nbhd)) eqn:E1; [|done]. cbn [assert_that mbind res_bind] in H.
  destruct nbhd as [|r l]; [done|]. assert (Hc : contiguous_nbhd (r :: l) = true -> forall i x, (r :: l) !! i = Some x -> x = r + Z.of_nat i).
  { intros Hc [|i] x Hi; [injection Hi as <-; lia|]. rewrite (contiguous_lookup _ _ _ _ Hc Hi). lia. }
  assert (Hin : contiguous_nbhd (r :: l) = true -> forall x, r <= x < r + Z.of_nat (length (r :: l)) -> x ∈ r :: l).
  { intros Hco x Hx. destruct (lookup_lt_is_Some_2 (r :: l) (Z.to_nat (x - r))) as [y Hy]; [lia|].
    pose proof (Hc Hco _ _ Hy). apply list_elem_of_lookup. exists (Z.to_nat (x - r)). rewrite Hy. f_equal. lia. }
  apply Z.ltb_lt in E0, E1. destruct (_ =? rank_n) eqn:E2.
  - apply Z.eqb_eq in E2. destruct (me =? rank_me) eqn:E3; [|done]. apply Z.eqb_eq in E3. destruct (contiguous_nbhd _) eqn:E4; [|done]. injection H as <-. cbn [pshm_peer_lb pshm_peer_ub pshm_peer_n peer_me].
    pose proof (Hc eq_refl _ _ Hme). clear Hc. specialize (Hin eq_refl). cbn [length] in *. split_and!; try lia.
    intros x Hx. apply Hin. lia.
  - destruct (contiguous_nbhd _) eqn:E4; cbn [negb] in H.
    + injection H as <-. cbn [pshm_peer_lb pshm_peer_ub pshm_peer_n peer_me]. pose proof (Hc eq_refl _ _ Hme). clear Hc. specialize (Hin eq_refl). cbn [length] in *. split_and!; try lia.
      intros x Hx. apply Hin. lia.
    + destruct (discontig || _); [|done]. injection H as <-. cbn [pshm_peer_lb pshm_peer_ub pshm_peer_n peer_me]. split_and!; try lia.
      intros x Hx. assert (x = rank_me) as -> by lia. apply list_elem_of_lookup. by eexists.
Qed.

(** Two processes with segments of 4 KiB, the second mapped below the first. *)
Definition two_peers : peers := mk_peers 4 6 2 0.
Definition two_segments : list segment := [mk_segment 0x10000 0x10000 0x1000; mk_segment 0x10000 0x8000 0x1000].

Lemma two_layout : layout two_peers two_segments.
Proof.
  split; [done|repeat (constructor; [split; cbn; unfold w64_mod; lia|]); constructor|].
  intros [|[|p]] [|[|q]] s s' Hne Hp Hq; try done; injection Hp as <-; injection Hq as <-; unfold disjoint; cbn; lia.
Qed.

Lemma globalize_exact_witness : globalize_memory (sorted_tables two_peers two_segments) 0x8010 = Ok (5, 0x10010) /\
  localize_memory false 8 (sorted_tables two_peers two_segments) 5 0x10010 = Ok 0x8010.
Proof.
  destruct (globalize_exact false 8 two_peers two_segments [None; None] two_segments (sorted_tables two_peers two_segments) 0x8010 (0, 0)
    eq_refl eq_refl two_layout ltac:(done) ltac:(unfold w64_mod; lia)) as [H _].
  destruct (H 1%nat (mk_segment 0x10000 0x8000 0x1000) eq_refl ltac:(cbn; lia)) as (H1 & _ & H3). split; [exact H1|exact H3].
Defined.

Lemma localize_round_trip_witness : exists u, localize_memory false 8 (sorted_tables two_peers two_segments) 5 0x10010 = Ok u /\
  0x8000 <= u < 0x9000 /\ globalize_memory (sorted_tables two_peers two_segments) u = Ok (5, 0x10010).
Proof.
  exact (localize_round_trip false 8 two_peers two_segments [None; None] two_segments _ 1%nat (mk_segment 0x10000 0x8000 0x1000) 0x10010
    eq_refl eq_refl two_layout ltac:(done) eq_refl ltac:(cbn; lia)).
Defined.

End Neighborhood.
