(* ===== verification/DeviceHeaps.v ===== *)
(** Heaps of devices: [device_fwd.hpp], [device_internal.hpp], [device_allocator.hpp], and
    the constructors and [destroy] of devices, as in [cuda.cpp].

    A process has a table of heaps.  A device object that is active has an index in it, and
    so has the allocator made for it; the entry points back to both, wherever they move.
    Objects have addresses, so that the pointers of the table are those of the code.  What
    the vendor's runtime does is an argument: which devices it can open, and the address
    it gives to an allocation, with 0 for none. *)
From S2P Require Import Prelude.
From S2P Require SegmentAllocator.

Module DeviceHeaps.
Module SA := SegmentAllocator.SegmentAllocator.

(** * Kinds of memory *)

(** The field [dynamic_kind_] has 8 bits and may hold other values. *)
Definition host : Z := 0.
Definition cuda_device : Z := 1.
Definition hip_device : Z := 2.
Definition ze_device : Z := 3.
Definition any : Z := 4.
Definition is_valid_memory_kind (mk : Z) : bool := mk <=? any.

(** * State *)

Record heap_state := mk_heap {
  device_base : option positive; alloc_base : option positive; my_kind : Z;
  segment_to_free : Z; device_id : Z
}.
Record device := mk_device { heap_idx_ : Z; kind_ : Z; device_id_ : Z }.
Record allocator := mk_allocator {
  alloc_kind : Z; alloc_idx : Z; seg_ : SA.state; implicit_device : option positive
}.

(** [device_memory] is what the vendor's runtime has allocated for us. *)
Record state := mk_state {
  heaps : list (option heap_state); heap_count : Z * Z;
  devices : gmap positive device; allocators : gmap positive allocator; device_memory : gset Z
}.

Definition set_heaps (h : list (option heap_state)) (st : state) : state :=
  mk_state h (heap_count st) (devices st) (allocators st) (device_memory st).
Definition set_count (c : Z * Z) (st : state) : state :=
  mk_state (heaps st) c (devices st) (allocators st) (device_memory st).
Definition set_devices (d : gmap positive device) (st : state) : state :=
  mk_state (heaps st) (heap_count st) d (allocators st) (device_memory st).
Definition set_allocators (a : gmap positive allocator) (st : state) : state :=
  mk_state (heaps st) (heap_count st) (devices st) a (device_memory st).
Definition set_memory (m : gset Z) (st : state) : state :=
  mk_state (heaps st) (heap_count st) (devices st) (allocators st) m.

Definition invalid_device_id : Z := -1.
Definition null_segment : SA.state := SA.segment_allocator 0 0 1.

Section Ops.
(** The build: [max_heaps_cat], and for each kind whether it is enabled and uses GASNet;
    the process: its rank. *)
Context (max_heaps_cat : Z * Z) (kind_enabled use_gex_mk : Z -> bool) (rank_me : Z).
(** The vendor's runtime. *)
Context (device_opens : Z -> Z -> bool) (dev_alloc : gset Z -> Z -> Z).

Definition max_heaps : Z := max_heaps_cat.1 + max_heaps_cat.2.
Definition cat_of {A} (p : A * A) (gex : bool) : A := if gex then p.1 else p.2.
Definition add_count (c : Z * Z) (gex : bool) (d : Z) : Z * Z :=
  if gex then (c.1 + d, c.2) else (c.1, c.2 + d).

Definition init_state : state := mk_state (replicate (Z.to_nat max_heaps) None) (1, 0) ∅ ∅ ∅.

(** * The table *)

(** [heaps[idx]] *)
Definition slot (st : state) (idx : Z) : res (option heap_state) :=
  deref (if 0 <=? idx then heaps st !! Z.to_nat idx else None).

Definition is_null {A} (o : option A) : bool := match o with None => true | Some _ => false end.

(** The loop of [alloc_index]: the first index without a heap. *)
Fixpoint find_null (l : list (option heap_state)) (idx : Z) : Z :=
  match l with
  | [] => idx
  | None :: _ => idx
  | Some _ :: l => find_null l (idx + 1)
  end.

Definition alloc_index (uses_gex_mk : bool) (st : state) : res (Z * state) :=
  let count := cat_of (heap_count st) uses_gex_mk in
  let max := cat_of max_heaps_cat uses_gex_mk in
  _ ← assert_that (count <? max);
  idx ←
    (if uses_gex_mk then Ok count
     else
       let base := max_heaps_cat.1 in
       let lim := base + max in
       let idx := find_null (take (Z.to_nat max) (drop (Z.to_nat base) (heaps st))) base in
       _ ← assert_that ((0 <? idx) && (idx <? lim)); Ok idx);
  _ ← assert_that (idx <? max_heaps);
  hs ← slot st idx;
  _ ← assert_that (is_null hs);
  Ok (idx, set_count (add_count (heap_count st) uses_gex_mk 1) st).

Definition free_index (heap_idx : Z) (st : state) : res state :=
  _ ← assert_that ((0 <? heap_idx) && (heap_idx <? max_heaps));
  let uses_gex_mk := heap_idx <? max_heaps_cat.1 in
  hs ← slot st heap_idx;
  _ ← assert_that (is_null hs && (0 <? cat_of (heap_count st) uses_gex_mk));
  Ok (if uses_gex_mk then st else set_count (add_count (heap_count st) uses_gex_mk (-1)) st).

Definition get (heap_idx : Z) (allow_null : bool) (st : state) : res (option heap_state) :=
  _ ← assert_that (((heap_count st).1 <=? max_heaps_cat.1) && ((heap_count st).2 <=? max_heaps_cat.2));
  _ ← assert_that ((0 <? heap_idx) && (heap_idx <? max_heaps));
  hs ← slot st heap_idx;
  _ ← assert_that (negb (is_null hs) || allow_null);
  _ ← assert_that (match hs with None => true | Some hs => negb (my_kind hs =? host) && (my_kind hs <? any) end);
  Ok hs.

(** The reference that [get] returns, dereferenced, and assigned to. *)
Definition get_heap (heap_idx : Z) (st : state) : res heap_state :=
  hs ← get heap_idx false st; deref hs.
Definition put (heap_idx : Z) (hs : option heap_state) (st : state) : state :=
  set_heaps (<[Z.to_nat heap_idx := hs]> (heaps st)) st.

(** [device_heap_state_base<Device>::get] *)
Definition get_kind (kind heap_idx : Z) (st : state) : res heap_state :=
  hs ← get_heap heap_idx st;
  _ ← assert_that (my_kind hs =? kind);
  Ok hs.

Definition the_device (d : positive) (st : state) : res device := deref (devices st !! d).
Definition the_allocator (a : positive) (st : state) : res allocator := deref (allocators st !! a).
Definition put_device (d : positive) (dev : device) (st : state) : state := set_devices (<[d := dev]> (devices st)) st.
Definition put_allocator (a : positive) (al : allocator) (st : state) : state :=
  set_allocators (<[a := al]> (allocators st)) st.

(** * Devices *)

(** The constructor with a device id; the one without is that of [invalid_device_id]. *)
Definition device_ctor (this : positive) (kind id : Z) (st : state) : res state :=
  if negb (kind_enabled kind) then
    _ ← assert_that (id =? invalid_device_id); Ok (put_device this (mk_device (-1) kind id) st)
  else if id =? invalid_device_id then Ok (put_device this (mk_device (-1) kind id) st)
  else
    '((idx, st) : Z * state) ← alloc_index (use_gex_mk kind) st;
    _ ← assert_that (device_opens kind id);
    _ ← get idx true st;
    Ok (put idx (Some (mk_heap (Some this) None kind 0 id)) (put_device this (mk_device idx kind id) st)).

Definition device_active (d : device) : bool := 0 <=? heap_idx_ d.

Definition is_ptr (o : option positive) (p : positive) : bool := bool_decide (o = Some p).

(** Move assignment, with that of [gpu_device]. *)
Definition device_move_assign (this other : positive) (st : state) : res state :=
  if bool_decide (other = this) then Ok st else
  dev ← the_device this st;
  oth ← the_device other st;
  _ ← assert_that (heap_idx_ dev =? -1);
  _ ← assert_that (kind_ dev =? kind_ oth);
  let st := put_device this (mk_device (heap_idx_ oth) (kind_ dev) (device_id_ oth)) st in
  if 0 <=? heap_idx_ oth then
    hs ← get_heap (heap_idx_ oth) st;
    _ ← assert_that (is_ptr (device_base hs) other);
    let st := put (heap_idx_ oth) (Some (mk_heap (Some this) (alloc_base hs) (my_kind hs) (segment_to_free hs) (device_id hs))) st in
    Ok (put_device other (mk_device (-1) (kind_ oth) invalid_device_id) st)
  else Ok (put_device other (mk_device (heap_idx_ oth) (kind_ oth) invalid_device_id) st).

Definition device_move_ctor (this other : positive) (st : state) : res state :=
  oth ← the_device other st;
  device_move_assign this other (put_device this (mk_device (-1) (kind_ oth) (device_id_ oth)) st).

Definition device_dtor (this : positive) (st : state) : res state :=
  dev ← the_device this st;
  _ ← assert_that (negb (device_active dev));
  Ok (set_devices (delete this (devices st)) st).

(** [dev_free]; what is not allocated cannot be freed. *)
Definition dev_free (base : Z) (st : state) : res state :=
  if bool_decide (base ∈ device_memory st) then Ok (set_memory (device_memory st ∖ {[base]}) st) else Undef.

(** [device_allocator_core<Device>::release] *)
Definition release (this : positive) (st : state) : res state :=
  al ← the_allocator this st;
  if negb (0 <=? alloc_idx al) then Ok st else
  hs ← get_kind (alloc_kind al) (alloc_idx al) st;
  st ← (if segment_to_free hs =? 0 then Ok st else dev_free (segment_to_free hs) st);
  let st := put (alloc_idx al) (Some (mk_heap (device_base hs) None (my_kind hs) 0 (device_id hs))) st in
  Ok (put_allocator this (mk_allocator (alloc_kind al) (-1) (seg_ al) (implicit_device al)) st).

(** [destroy] of a device; all processes wait for each other first. *)
Definition device_destroy (this : positive) (st : state) : res state :=
  dev ← the_device this st;
  if negb (device_active dev) then Ok st else
  hs ← get_kind (kind_ dev) (heap_idx_ dev) st;
  _ ← assert_that (is_ptr (device_base hs) this);
  _ ← assert_that (device_id hs =? device_id_ dev);
  st ← (match alloc_base hs with
        | None => Ok st
        | Some a =>
            st ← release a st;
            hs ← get_heap (heap_idx_ dev) st;
            _ ← assert_that (is_null (alloc_base hs));
            Ok st
        end);
  _ ← get (heap_idx_ dev) false st;
  st ← free_index (heap_idx_ dev) (put (heap_idx_ dev) None st);
  Ok (put_device this (mk_device (-1) (kind_ dev) invalid_device_id) st).

(** * Segments *)

(** Memory obtained from the vendor's runtime is live until it is freed. *)
Definition dev_alloc_in (size : Z) (st : state) : Z * state :=
  let base := dev_alloc (device_memory st) size in
  (base, if base =? 0 then st else set_memory ({[base]} ∪ device_memory st) st).

(** The search for the largest segment that can be allocated. *)
Fixpoint search (fuel : nat) (lo hi size base : Z) (st : state) : res (Z * Z * state) :=
  if negb (65536 <? hi - lo) then Ok (size, base, st) else
  match fuel with
  | O => Undef
  | S fuel =>
      st ← (if base =? 0 then Ok st else dev_free base st);
      let size := (lo + hi) / 2 in
      let '(base, st) := dev_alloc_in size st in
      if base =? 0 then search fuel lo size size base st else search fuel size hi size base st
  end.

Definition search_lo : Z := 2 ^ 20.
Definition search_hi : Z := 2 ^ 34.
(** Each turn halves the interval of [2^34] down to [2^16]. *)
Definition search_fuel : nat := 18.
Definition largest (size base : Z) (st : state) : res (Z * Z * state) := search search_fuel search_lo search_hi size base st.

Definition set_segment (idx base : Z) (hs : heap_state) (st : state) : state :=
  put idx (Some (mk_heap (device_base hs) (alloc_base hs) (my_kind hs) base (device_id hs))) st.

(** The first part of [make_gpu_segment]: what a process with an active device allocates;
    gives the size and base of the segment and the size that failed, or 0. *)
Definition obtain (kind idx base size : Z) (st : state) : res (Z * Z * Z * state) :=
  hs ← get_kind kind idx st;
  _ ← assert_that (negb (size =? 0));
  _ ← assert_that (segment_to_free hs =? 0);
  if w64 (- size) =? 1 then
    _ ← assert_that (base =? 0);
    '((size, base, st) : Z * Z * state) ← largest size base st;
    Ok (size, base, if base =? 0 then size else 0, set_segment idx base hs st)
  else if base =? 0 then
    let '(base, st) := dev_alloc_in size st in
    Ok (size, base, if base =? 0 then size else 0, set_segment idx base hs st)
  else Ok (size, base, 0, set_segment idx 0 hs st).

Definition alloc_report_max : Z := 2 ^ 44 - 1.
Definition rank_report_max : Z := 2 ^ 20 - 1.

(** What a process contributes to the reduction. *)
Definition reduceval (failed_alloc : Z) : Z :=
  Z.lor (Z.shiftl (Z.min failed_alloc alloc_report_max) 20) (Z.min rank_me rank_report_max).

(** What an exception reports. *)
Definition report (failed_alloc reduced : Z) : res (Z * Z) :=
  let largest_failure := Z.shiftr reduced 20 in
  if negb (failed_alloc =? 0) then Ok (failed_alloc, rank_me) else
  _ ← assert_that (largest_failure <=? alloc_report_max);
  let size := if largest_failure =? alloc_report_max then 0 else largest_failure in
  let r := Z.land reduced rank_report_max in
  Ok (size, if r =? rank_report_max then -1 else r).

Inductive made := Segment (s : SA.state) | Throws (report_size report_rank : Z).

(** [make_gpu_segment]; [others] are the contributions of the other processes. *)
Definition make_gpu_segment (kind idx base size : Z) (others : list Z) (st : state) : res (made * state) :=
  '((size, base, failed_alloc, st) : Z * Z * Z * state) ←
    (if idx <=? 0 then Ok (size, base, 0, st) else obtain kind idx base size st);
  let reduced := foldl Z.max (reduceval failed_alloc) others in
  if 0 <? Z.shiftr reduced 20 then
    st ← (if idx <=? 0 then Ok st else
          hs ← get_heap idx st;
          if segment_to_free hs =? 0 then Ok st else
          st ← dev_free (segment_to_free hs) st; Ok (set_segment idx 0 hs st));
    '((s, r) : Z * Z) ← report failed_alloc reduced;
    Ok (Throws s r, st)
  else Ok (Segment (SA.segment_allocator base size 1), st).

(** * Allocators *)

(** [device_allocator_base] *)
Definition allocator_base_ctor (this : positive) (kind idx : Z) (seg : SA.state) (implicit : option positive) (st : state) : res state :=
  let st := put_allocator this (mk_allocator kind idx seg implicit) st in
  if 0 <=? idx then
    hs ← get_heap idx st;
    _ ← assert_that (is_null (alloc_base hs));
    Ok (put idx (Some (mk_heap (device_base hs) (Some this) (my_kind hs) (segment_to_free hs) (device_id hs))) st)
  else Ok st.

Inductive outcome := Done | Thrown (report_size report_rank : Z).

(** The constructor with a device, and the one with a device of its own, which is
    allocated at [d]. *)
Definition allocator_with (this d : positive) (implicit : option positive) (size base : Z) (others : list Z) (st : state)
    : res (outcome * state) :=
  dev ← the_device d st;
  if negb (kind_enabled (kind_ dev)) then
    st ← allocator_base_ctor this (kind_ dev) (-1) null_segment implicit st;
    _ ← assert_that (negb (device_active dev));
    Ok (Done, st)
  else
    '((m, st) : made * state) ← make_gpu_segment (kind_ dev) (heap_idx_ dev) base size others st;
    match m with
    | Throws s r => Ok (Thrown s r, st)
    | Segment seg => st ← allocator_base_ctor this (kind_ dev) (heap_idx_ dev) seg implicit st; Ok (Done, st)
    end.

Definition device_allocator (this d : positive) (size base : Z) (others : list Z) (st : state) : res (outcome * state) :=
  allocator_with this d None size base others st.

Definition device_allocator_implicit (this d : positive) (kind id size base : Z) (others : list Z) (st : state)
    : res (outcome * state) :=
  st ← device_ctor d kind id st;
  allocator_with this d (Some d) size base others st.

Definition allocator_default (this : positive) (kind : Z) (st : state) : res state :=
  allocator_base_ctor this kind (-1) null_segment None st.

(** Move assignment, with that of [device_allocator_base]. *)
Definition allocator_move_assign (this that : positive) (st : state) : res state :=
  if bool_decide (that = this) then Ok st else
  al ← the_allocator this st;
  oth ← the_allocator that st;
  _ ← assert_that (negb (0 <=? alloc_idx al));
  '((seg, seg') : SA.state * SA.state) ← SA.move_assign (seg_ al) (seg_ oth);
  let st := put_allocator this (mk_allocator (alloc_kind oth) (alloc_idx oth) seg (implicit_device oth)) st in
  if 0 <=? alloc_idx oth then
    hs ← get_heap (alloc_idx oth) st;
    _ ← assert_that (is_ptr (alloc_base hs) that);
    let st := put (alloc_idx oth) (Some (mk_heap (device_base hs) (Some this) (my_kind hs) (segment_to_free hs) (device_id hs))) st in
    Ok (put_allocator that (mk_allocator (alloc_kind oth) (-1) seg' None) st)
  else Ok (put_allocator that (mk_allocator (alloc_kind oth) (alloc_idx oth) seg' None) st).

Definition allocator_move_ctor (this that : positive) (kind : Z) (st : state) : res state :=
  st ← allocator_default this kind st; allocator_move_assign this that st.

Definition allocator_destroy (this : positive) (st : state) : res state :=
  al ← the_allocator this st;
  if negb (0 <=? alloc_idx al) then Ok st else
  hs ← get_heap (alloc_idx al) st;
  _ ← assert_that (is_ptr (alloc_base hs) this);
  d ← (match device_base hs with None => Aborted | Some d => Ok d end);
  dev ← the_device d st;
  _ ← assert_that (device_active dev);
  device_destroy d st.

(** The destructor, with those of its bases: [release] and that of the segment. *)
Definition allocator_dtor (this : positive) (st : state) : res state :=
  al ← the_allocator this st;
  _ ← assert_that (negb (0 <=? alloc_idx al));
  st ← (match implicit_device al with None => Ok st | Some d => device_dtor d st end);
  st ← release this st;
  _ ← SA.destroy (seg_ al);
  Ok (set_allocators (delete this (allocators st)) st).
End Ops.

End DeviceHeaps.
