(* ===== verification/DeviceHeapsInvariant.v ===== *)
(** The invariant of the table of heaps of [DeviceHeaps.v]: what the counts say of the
    table, and what its entries, the device objects, the allocators and the memory of the
    vendor's runtime say of each other.  Then that opening and closing a heap keep it. *)
From S2P Require Import Prelude.
From S2P Require Import DeviceHeaps.

Module DeviceHeapsInvariant.
Export DeviceHeaps.DeviceHeaps.

(** * The counts *)

Definition occupied (l : list bool) : Z := Z.of_nat (length (filter (fun b => b = false) l)).

Lemma occupied_nonneg l : 0 <= occupied l.
Proof. unfold occupied. lia. Qed.

Lemma occupied_cons b l : occupied (b :: l) = (if b then 0 else 1) + occupied l.
Proof. unfold occupied. rewrite filter_cons. destruct b; [rewrite decide_False by done|rewrite decide_True by done]; cbn [length]; lia. Qed.

Lemma occupied_insert (l : list bool) (i : nat) (b b' : bool) : l !! i = Some b ->
  occupied (<[i := b']> l) = occupied l - (if b then 0 else 1) + (if b' then 0 else 1).
Proof.
  revert i. induction l as [|c l IH]; intros [|i] Hi; [done|done| |].
  - injection Hi as ->. change (<[0%nat := b']> (b :: l)) with (b' :: l). rewrite !occupied_cons. lia.
  - change (<[S i := b']> (c :: l)) with (c :: <[i := b']> l). rewrite !occupied_cons, (IH _ Hi). lia.
Qed.

Lemma occupied_full l : occupied l < Z.of_nat (length l) -> exists i : nat, l !! i = Some true.
Proof.
  induction l as [|b l IH]; [unfold occupied; cbn; lia|]. rewrite occupied_cons. cbn [length]. destruct b; [by exists O|].
  intros H. destruct IH as [i Hi]; [lia|]. by exists (S i).
Qed.

Definition shape (st : state) : list bool := is_null <$> heaps st.

Lemma shape_lookup st (i : nat) o : heaps st !! i = Some o -> shape st !! i = Some (is_null o).
Proof. intros H. unfold shape. by rewrite list_lookup_fmap, H. Qed.

Lemma put_shape (i : nat) o st : shape (put (Z.of_nat i) o st) = <[i := is_null o]> (shape st).
Proof. unfold shape, put. cbn. by rewrite Nat2Z.id, list_fmap_insert. Qed.

Lemma slot_nat st (i : nat) o : heaps st !! i = Some o -> slot st (Z.of_nat i) = Ok o.
Proof. intros H. unfold slot. by rewrite (proj2 (Z.leb_le _ _)), Nat2Z.id, H by lia. Qed.

Definition seg_at (st : state) (i : nat) : Z :=
  match heaps st !! i with Some (Some hs) => segment_to_free hs | _ => 0 end.

(** What was allocated at the vendor's runtime is the segment of one heap. *)
Record memory_ok (st : state) : Prop := {
  m_live : forall b, b ∈ device_memory st <-> b <> 0 /\ exists i, seg_at st i = b;
  m_own : forall i j, seg_at st i = seg_at st j -> seg_at st i <> 0 -> i = j
}.

Lemma put_heap_lookup st (i j : nat) o x : (i < length (heaps st))%nat -> heaps (put (Z.of_nat i) o st) !! j = Some x <->
  j = i /\ x = o \/ j <> i /\ heaps st !! j = Some x.
Proof.
  intros Hi. cbn. rewrite Nat2Z.id. destruct (decide (j = i)) as [->|Hne].
  - rewrite list_lookup_insert_eq by done. naive_solver.
  - rewrite list_lookup_insert_ne by done. naive_solver.
Qed.

Lemma seg_at_put st (i j : nat) o : (i < length (heaps st))%nat -> seg_at (put (Z.of_nat i) o st) j =
  if decide (j = i) then match o with Some hs => segment_to_free hs | None => 0 end else seg_at st j.
Proof.
  intros Hi. unfold seg_at. cbn. rewrite Nat2Z.id. case_decide as Hj; subst.
  - by rewrite list_lookup_insert_eq.
  - by rewrite list_lookup_insert_ne.
Qed.

Lemma memory_same st st' : memory_ok st -> device_memory st' = device_memory st -> (forall i, seg_at st' i = seg_at st i) -> memory_ok st'.
Proof.
  intros [M1 M2] E H. split.
  - intros b. rewrite E, M1. by setoid_rewrite H.
  - intros i j. rewrite !H. apply M2.
Qed.

Section Invariant.
Context (max_heaps_cat : Z * Z) (kind_enabled use_gex_mk : Z -> bool).
Context (device_opens : Z -> Z -> bool) (dev_alloc : gset Z -> Z -> Z).
Abbreviation max_heaps := (max_heaps max_heaps_cat).
Abbreviation alloc_index := (alloc_index max_heaps_cat).
Abbreviation free_index := (free_index max_heaps_cat).
Abbreviation get_heap := (get_heap max_heaps_cat).
Abbreviation get := (get max_heaps_cat).
Abbreviation get_kind := (get_kind max_heaps_cat).

Context (Hmax : 1 <= max_heaps_cat.1 /\ 0 <= max_heaps_cat.2).

(** Heaps whose kind uses GASNet have indices that are not used again; those of the
    others are counted. *)
Record counts (h : list bool) (c : Z * Z) : Prop := {
  c_length : Z.of_nat (length h) = max_heaps;
  c_host : h !! O = Some true;
  c_native : 1 <= c.1 <= max_heaps_cat.1;
  c_unused : forall i : nat, c.1 <= Z.of_nat i < max_heaps_cat.1 -> h !! i = Some true;
  c_reference : c.2 = occupied (drop (Z.to_nat max_heaps_cat.1) h)
}.

Lemma counts_bounds h c : counts h c -> c.1 <= max_heaps_cat.1 /\ 0 <= c.2 <= max_heaps_cat.2.
Proof using Hmax.
  intros [Hl _ Hn _ Hr]. pose proof (occupied_nonneg (drop (Z.to_nat max_heaps_cat.1) h)). split; [lia|]. split; [lia|]. rewrite Hr.
  unfold occupied. etransitivity; [apply inj_le, length_filter|]. rewrite length_drop.
  unfold DeviceHeaps.max_heaps in Hl. lia.
Qed.

Lemma occupied_put (h : list bool) (i : nat) (b b' : bool) : h !! i = Some b ->
  occupied (drop (Z.to_nat max_heaps_cat.1) (<[i := b']> h)) = occupied (drop (Z.to_nat max_heaps_cat.1) h) +
    (if Z.of_nat i <? max_heaps_cat.1 then 0 else (if b' then 0 else 1) - (if b then 0 else 1)).
Proof using Hmax.
  intros Hi. destruct (Z.of_nat i <? max_heaps_cat.1) eqn:E.
  - rewrite drop_insert_lt by lia. lia.
  - rewrite drop_insert_ge by lia. rewrite (occupied_insert _ _ b); [lia|]. rewrite lookup_drop, <- Hi. f_equal. lia.
Qed.

(** What [alloc_index] finds. *)
Record new_index (gex : bool) (h : list bool) (c : Z * Z) (i : nat) : Prop := {
  n_pos : (0 < i)%nat;
  n_free : h !! i = Some true;
  n_cat : gex = (Z.of_nat i <? max_heaps_cat.1);
  n_counts : counts (<[i := false]> h) (add_count c gex 1)
}.

Lemma counts_open gex h c (i : nat) : counts h c -> h !! i = Some true -> (0 < i)%nat -> gex = (Z.of_nat i <? max_heaps_cat.1) ->
  (gex = true -> Z.of_nat i = c.1) -> new_index gex h c i.
Proof using Hmax.
  intros [Hl Hh Hn Hu Hr] Hi Hpos Hgex Hc1. split; [done..|]. split.
  - by rewrite length_insert.
  - by rewrite list_lookup_insert_ne by lia.
  - unfold add_count. destruct gex; cbn; [|lia]. rewrite <- Hc1 by done. lia.
  - intros j Hj. rewrite list_lookup_insert_ne; [apply Hu|]; unfold add_count in Hj; destruct gex; cbn in Hj; lia.
  - rewrite (occupied_put _ _ _ _ Hi), <- Hgex, <- Hr. unfold add_count. destruct gex; cbn; lia.
Qed.

Lemma find_null_spec (l : list (option heap_state)) idx : let k := find_null l idx in
  idx <= k <= idx + Z.of_nat (length l) /\ (forall j : nat, (is_null <$> l) !! j = Some true -> k <= idx + Z.of_nat j) /\
  (k < idx + Z.of_nat (length l) -> (is_null <$> l) !! Z.to_nat (k - idx) = Some true).
Proof using Type.
  revert idx. induction l as [|[hs|] l IH]; intros idx k; subst k; cbn [find_null length].
  - split; [lia|]. split; [intros [|j] Hj; cbn in Hj; done|lia].
  - destruct (IH (idx + 1)) as (H1 & H2 & H3). split; [lia|]. split.
    + intros [|j] Hj; [done|]. specialize (H2 j Hj). lia.
    + intros Hlt. replace (Z.to_nat _) with (S (Z.to_nat (find_null l (idx + 1) - (idx + 1)))) by lia. apply H3. lia.
  - split; [lia|]. split; [lia|]. intros _. by rewrite Z.sub_diag.
Qed.

(** ** [alloc_index] fails when all indices of its category are taken, and only then *)
Lemma alloc_index_ok gex st : counts (shape st) (heap_count st) -> cat_of (heap_count st) gex < cat_of max_heaps_cat gex ->
  exists i : nat, alloc_index gex st = Ok (Z.of_nat i, set_count (add_count (heap_count st) gex 1) st) /\
    heaps st !! i = Some None /\ new_index gex (shape st) (heap_count st) i.
Proof using Hmax.
  intros Hc Hlt. pose proof Hc as [Hl Hh Hn Hu Hr]. unfold shape in Hl. rewrite length_fmap in Hl. unfold DeviceHeaps.alloc_index. rewrite (proj2 (Z.ltb_lt _ _) Hlt). mcbn.
  assert (Hfin : forall i : nat, shape st !! i = Some true -> (0 < i)%nat -> gex = (Z.of_nat i <? max_heaps_cat.1) ->
    (gex = true -> Z.of_nat i = (heap_count st).1) ->
    exists i0 : nat, (_ ← assert_that (Z.of_nat i <? max_heaps); hs ← slot st (Z.of_nat i); _ ← assert_that (is_null hs);
      Ok (Z.of_nat i, set_count (add_count (heap_count st) gex 1) st)) = Ok (Z.of_nat i0, set_count (add_count (heap_count st) gex 1) st) /\
      heaps st !! i0 = Some None /\ new_index gex (shape st) (heap_count st) i0).
  { intros i Hi Hpos Hg Hcn. assert (Hs : heaps st !! i = Some None).
    { unfold shape in Hi. rewrite list_lookup_fmap in Hi. destruct (heaps st !! i) as [[]|]; done. }
    exists i. pose proof (lookup_lt_Some _ _ _ Hs). rewrite (proj2 (Z.ltb_lt _ _)) by lia. mcbn. unfold slot.
    rewrite (proj2 (Z.leb_le _ _)), Nat2Z.id, Hs by lia. split_and!; [done|done|by apply counts_open]. }
  destruct gex; cbn [cat_of] in *.
  - mcbn. specialize (Hfin (Z.to_nat (heap_count st).1)). rewrite Z2Nat.id in Hfin by lia. apply Hfin; [apply Hu; lia|lia|lia|done].
  - set (l := take _ _).
    assert (Hll : Z.of_nat (length l) = max_heaps_cat.2).
    { unfold l. rewrite length_take, length_drop. unfold DeviceHeaps.max_heaps in Hl. lia. }
    destruct (find_null_spec l max_heaps_cat.1) as (F1 & F2 & F3).
    assert (Hfull : exists i : nat, (is_null <$> l) !! i = Some true).
    { apply occupied_full. rewrite length_fmap, Hll. unfold shape in Hr. rewrite <- fmap_drop in Hr.
      unfold l. rewrite firstn_all2; [lia|]. rewrite length_drop. unfold DeviceHeaps.max_heaps in Hl. lia. }
    destruct Hfull as [j Hj]. pose proof (F2 j Hj). pose proof (lookup_lt_Some _ _ _ Hj) as Hjl. rewrite length_fmap in Hjl.
    set (k := find_null l _) in *. rewrite (proj2 (Z.ltb_lt 0 k)), (proj2 (Z.ltb_lt k _)) by lia. cbn [andb]. mcbn.
    specialize (F3 ltac:(lia)). specialize (Hfin (Z.to_nat k)). rewrite Z2Nat.id in Hfin by lia.
    apply Hfin; [|lia|lia|done]. unfold l in F3. rewrite list_lookup_fmap in F3. unfold shape. rewrite list_lookup_fmap.
    destruct (take _ _ !! _) as [o|] eqn:E; [|done]. apply lookup_take_Some in E as [E _]. rewrite lookup_drop in E.
    replace (Z.to_nat k) with (Z.to_nat max_heaps_cat.1 + Z.to_nat (k - max_heaps_cat.1))%nat by lia. by rewrite E.
Qed.

Lemma alloc_index_full gex st : ~ cat_of (heap_count st) gex < cat_of max_heaps_cat gex -> alloc_index gex st = Aborted.
Proof using Type.
  intros H. unfold DeviceHeaps.alloc_index. cbv zeta.
  by rewrite (proj2 (Z.ltb_ge (cat_of (heap_count st) gex) _)) by lia.
Qed.

(** Freeing the index of a heap that is gone. *)
Lemma free_index_ok st (i : nat) gex : counts (shape st) (heap_count st) -> shape st !! i = Some false -> gex = (Z.of_nat i <? max_heaps_cat.1) ->
  exists c, free_index (Z.of_nat i) (put (Z.of_nat i) None st) = Ok (set_count c (put (Z.of_nat i) None st)) /\
    counts (<[i := true]> (shape st)) c.
Proof using Hmax.
  intros Hc Hi Hg. pose proof Hc as [Hl Hh Hn Hu Hr]. pose proof (lookup_lt_Some _ _ _ Hi) as Hlt.
  assert (Hpos : (0 < i)%nat) by (destruct i; [congruence|lia]).
  unfold DeviceHeaps.free_index.
  assert ((0 <? Z.of_nat i) && (Z.of_nat i <? max_heaps) = true) as -> by (apply andb_true_iff; split; lia). mcbn.
  unfold slot. rewrite (proj2 (Z.leb_le _ _)) by lia. cbn [heaps put set_heaps heap_count]. rewrite Nat2Z.id, list_lookup_insert_eq.
  2:{ unfold shape in Hlt. by rewrite length_fmap in Hlt. }
  mcbn. cbn [is_null andb]. rewrite <- Hg.
  assert (Hocc := occupied_put _ _ _ true Hi). rewrite <- Hg in Hocc.
  assert (0 < cat_of (heap_count st) gex) as Hpos2.
  { destruct gex; cbn [cat_of]; [lia|]. pose proof (occupied_nonneg (drop (Z.to_nat max_heaps_cat.1) (<[i := true]> (shape st)))). lia. }
  rewrite (proj2 (Z.ltb_lt _ _) Hpos2). mcbn.
  exists (if gex then heap_count st else add_count (heap_count st) gex (-1)). split; [destruct gex; [|done]; unfold put, set_heaps, set_count; by destruct st as [? []]|].
  split.
  - by rewrite length_insert.
  - by rewrite list_lookup_insert_ne by lia.
  - destruct gex; cbn; lia.
  - intros j Hj. assert ((heap_count st).1 <= Z.of_nat j < max_heaps_cat.1) by (destruct gex; cbn in Hj; lia).
    destruct (decide (i = j)) as [->|]; [by rewrite list_lookup_insert_eq by done|]. rewrite list_lookup_insert_ne by done. by apply Hu.
  - rewrite Hocc, <- Hr. destruct gex; cbn; lia.
Qed.

(** * What the tables say of each other *)

Definition device_kind (k : Z) : Prop := 1 <= k <= 3.

(** [pend] is a heap whose allocator is being made: it may have a segment already. *)
Record heap_ok (pend : option nat) (st : state) (i : nat) (hs : heap_state) : Prop := {
  h_kind : device_kind (my_kind hs);
  h_cat : use_gex_mk (my_kind hs) = (Z.of_nat i <? max_heaps_cat.1);
  h_device : exists d, device_base hs = Some d /\
    devices st !! d = Some (mk_device (Z.of_nat i) (my_kind hs) (device_id hs));
  h_alloc : match alloc_base hs with
            | None => segment_to_free hs = 0 \/ pend = Some i
            | Some a => exists al, allocators st !! a = Some al /\ alloc_idx al = Z.of_nat i /\ alloc_kind al = my_kind hs
            end;
  h_id : device_id hs <> invalid_device_id
}.

Definition device_ok (st : state) (d : positive) (dev : device) : Prop :=
  heap_idx_ dev = -1 \/ exists (i : nat) hs, heap_idx_ dev = Z.of_nat i /\ heaps st !! i = Some (Some hs) /\ device_base hs = Some d.

Definition seg_ok (s : SA.state) : Prop := SA.endpost s = 1%positive /\ exists l sz, SA.inv s l sz.

Definition implicit_ok (st : state) (al : allocator) : Prop :=
  match implicit_device al with
  | None => True
  | Some d => exists dev, devices st !! d = Some dev /\ heap_idx_ dev = alloc_idx al
  end.

Record alloc_ok (st : state) (a : positive) (al : allocator) : Prop := {
  a_heap : alloc_idx al = -1 \/ exists (i : nat) hs, alloc_idx al = Z.of_nat i /\ heaps st !! i = Some (Some hs) /\ alloc_base hs = Some a;
  a_seg : seg_ok (seg_ al);
  a_implicit : implicit_ok st al
}.

Record inv_at (pend : option nat) (st : state) : Prop := {
  v_counts : counts (shape st) (heap_count st);
  v_heap : forall i hs, heaps st !! i = Some (Some hs) -> heap_ok pend st i hs;
  v_device : forall d dev, devices st !! d = Some dev -> device_ok st d dev;
  v_alloc : forall a al, allocators st !! a = Some al -> alloc_ok st a al;
  v_implicit : forall a a' al al' d, allocators st !! a = Some al -> allocators st !! a' = Some al' ->
    implicit_device al = Some d -> implicit_device al' = Some d -> a = a';
  v_memory : memory_ok st
}.
Definition inv : state -> Prop := inv_at None.

(** Devices that no allocator has made for itself. *)
Definition user_device (st : state) (d : positive) : Prop :=
  forall a al, allocators st !! a = Some al -> implicit_device al <> Some d.

(** * Reading and writing *)

Lemma heap_index_pos st (i : nat) hs : counts (shape st) (heap_count st) -> heaps st !! i = Some (Some hs) ->
  (0 < i)%nat /\ Z.of_nat i < max_heaps /\ (i < length (heaps st))%nat.
Proof using Hmax.
  intros [Hl Hh _ _ _] Hi. pose proof (lookup_lt_Some _ _ _ Hi). unfold shape in *. rewrite length_fmap in Hl.
  destruct i as [|i]; [|lia]. by rewrite list_lookup_fmap, Hi in Hh.
Qed.

Lemma get_ok st (i : nat) (allow_null : bool) o : counts (shape st) (heap_count st) -> heaps st !! i = Some o -> (0 < i)%nat ->
  negb (is_null o) || allow_null = true -> (forall hs, o = Some hs -> device_kind (my_kind hs)) ->
  get (Z.of_nat i) allow_null st = Ok o.
Proof using Hmax.
  intros Hc Hi Hpos Ho Hk. destruct (counts_bounds _ _ Hc) as [B1 B2]. unfold DeviceHeaps.get.
  assert (((heap_count st).1 <=? max_heaps_cat.1) && ((heap_count st).2 <=? max_heaps_cat.2) = true) as -> by (apply andb_true_iff; split; lia).
  pose proof (c_length _ _ Hc) as Hl. pose proof (lookup_lt_Some _ _ _ Hi). unfold shape in Hl. rewrite length_fmap in Hl.
  assert ((0 <? Z.of_nat i) && (Z.of_nat i <? max_heaps) = true) as -> by (apply andb_true_iff; split; lia).
  mcbn. rewrite (slot_nat _ _ _ Hi). mcbn. rewrite Ho. mcbn.
  destruct o as [hs|]; [|done]. specialize (Hk hs eq_refl). unfold device_kind in Hk.
  assert (negb (my_kind hs =? host) && (my_kind hs <? any) = true) as -> by (unfold host, any; apply andb_true_iff; split; lia). done.
Qed.

Lemma get_heap_ok pend st (i : nat) hs : inv_at pend st -> heaps st !! i = Some (Some hs) -> get_heap (Z.of_nat i) st = Ok hs.
Proof using Hmax.
  intros Hv Hi. unfold DeviceHeaps.get_heap. rewrite (get_ok st i false (Some hs)); [done|apply Hv|done| |done|].
  - by apply (heap_index_pos _ _ _ (v_counts _ _ Hv) Hi).
  - intros ? [= <-]. apply (v_heap _ _ Hv _ _ Hi).
Qed.

Lemma get_kind_ok pend st (i : nat) hs : inv_at pend st -> heaps st !! i = Some (Some hs) -> get_kind (my_kind hs) (Z.of_nat i) st = Ok hs.
Proof using Hmax.
  intros Hv Hi. unfold DeviceHeaps.get_kind. rewrite (get_heap_ok _ _ _ _ Hv Hi). mcbn. by rewrite Z.eqb_refl.
Qed.

End Invariant.
End DeviceHeapsInvariant.
