(* ===== verification/DeviceHeapsCalls.v ===== *)
(** The operations of [DeviceHeaps.v] on devices keep the invariant of
    [DeviceHeapsInvariant.v]: construction, moves, destruction. *)
From S2P Require Import Prelude.
From S2P Require Import DeviceHeaps.
From S2P Require Import DeviceHeapsInvariant.

Module DeviceHeapsCalls.
Export DeviceHeapsInvariant.DeviceHeapsInvariant.

(** * What updates elsewhere leave as it is *)

Section Frame.
Context (max_heaps_cat : Z * Z) (use_gex_mk : Z -> bool).
Abbreviation heap_ok := (heap_ok max_heaps_cat use_gex_mk).

Lemma heap_ok_frame p p' st st' i hs : heap_ok p st i hs ->
  (forall d dev, device_base hs = Some d -> devices st !! d = Some dev -> devices st' !! d = Some dev) ->
  (forall a al, alloc_base hs = Some a -> allocators st !! a = Some al ->
    exists al', allocators st' !! a = Some al' /\ alloc_idx al' = alloc_idx al /\ alloc_kind al' = alloc_kind al) ->
  (p = Some i -> alloc_base hs = None -> segment_to_free hs = 0 \/ p' = Some i) ->
  heap_ok p' st' i hs.
Proof using Type.
  intros [K C (d & Hd & Hdev) A N] HD HA HP. split; [done|done| | |done].
  - exists d. split; [done|]. by apply HD.
  - destruct (alloc_base hs) as [a|].
    + destruct A as (al & Ha & Hi & Hk). destruct (HA a al eq_refl Ha) as (al' & ? & E1 & E2). exists al'. by rewrite E1, E2.
    + destruct A as [A|A]; [by left|]. by apply HP.
Qed.

Lemma device_ok_frame st st' d dev : device_ok st d dev ->
  (forall i hs, heaps st !! i = Some (Some hs) -> device_base hs = Some d ->
    exists hs', heaps st' !! i = Some (Some hs') /\ device_base hs' = Some d) -> device_ok st' d dev.
Proof using Type.
  intros [H|(i & hs & Hi & Hh & Hd)] HH; [by left|]. right. destruct (HH i hs Hh Hd) as (hs' & ? & ?). by exists i, hs'.
Qed.

Lemma alloc_ok_frame st st' a al : alloc_ok st a al ->
  (forall i hs, heaps st !! i = Some (Some hs) -> alloc_base hs = Some a ->
    exists hs', heaps st' !! i = Some (Some hs') /\ alloc_base hs' = Some a) ->
  (forall d dev, implicit_device al = Some d -> devices st !! d = Some dev ->
    exists dev', devices st' !! d = Some dev' /\ heap_idx_ dev' = heap_idx_ dev) -> alloc_ok st' a al.
Proof using Type.
  intros [H S I] HH HD. split; [|done|].
  - destruct H as [H|(i & hs & Hi & Hh & Hd)]; [by left|]. right. destruct (HH i hs Hh Hd) as (hs' & ? & ?). by exists i, hs'.
  - unfold implicit_ok in *. destruct (implicit_device al) as [d|]; [|done]. destruct I as (dev & Hd & E).
    destruct (HD d dev eq_refl Hd) as (dev' & ? & E'). exists dev'. split; [done|congruence].
Qed.
End Frame.

Section Devices.
Context (max_heaps_cat : Z * Z) (kind_enabled use_gex_mk : Z -> bool).
Context (device_opens : Z -> Z -> bool).
Abbreviation counts := (counts max_heaps_cat).
Abbreviation inv_at := (inv_at max_heaps_cat use_gex_mk).
Abbreviation inv := (inv max_heaps_cat use_gex_mk).
Abbreviation heap_ok := (heap_ok max_heaps_cat use_gex_mk).
Abbreviation device_ctor := (device_ctor max_heaps_cat kind_enabled use_gex_mk device_opens).
Abbreviation device_move_assign := (device_move_assign max_heaps_cat).
Abbreviation device_move_ctor := (device_move_ctor max_heaps_cat).

Context (Hmax : 1 <= max_heaps_cat.1 /\ 0 <= max_heaps_cat.2).

Lemma init_heaps_ok : inv (init_state max_heaps_cat).
Proof using Hmax.
  assert (Hnone : forall i o, heaps (init_state max_heaps_cat) !! i = Some o -> o = None).
  { intros i o. cbn. by intros [-> _]%lookup_replicate. }
  assert (Hshape : shape (init_state max_heaps_cat) = replicate (Z.to_nat (max_heaps max_heaps_cat)) true).
  { unfold shape. cbn. by rewrite fmap_replicate. }
  split; cbn [allocators devices init_state]; try (by intros ? ? ?); try (by intros ? ? ? ? ? ?).
  - rewrite Hshape. unfold max_heaps in *. split; cbn.
    + rewrite length_replicate. unfold max_heaps. lia.
    + apply lookup_replicate_2. lia.
    + lia.
    + intros i Hi. apply lookup_replicate_2. lia.
    + rewrite drop_replicate. clear. induction (_ - _)%nat as [|n IH]; [done|]. cbn [replicate]. by rewrite occupied_cons, <- IH.
  - intros i hs Hi. by apply Hnone in Hi.
  - assert (Hseg : forall i, seg_at (init_state max_heaps_cat) i = 0).
    { intros i. unfold seg_at. destruct (heaps _ !! i) as [o|] eqn:E; [|done]. by rewrite (Hnone _ _ E). }
    split.
    + intros b. cbn. split; [set_solver|]. intros (Hb & i & Hi). by rewrite Hseg in Hi.
    + intros i j _ H. by rewrite Hseg in H.
Qed.

(** A fresh device is nobody's. *)
Lemma fresh_user p st d : inv_at p st -> devices st !! d = None -> user_device st d.
Proof using Type.
  intros Hv Hd a al Ha Himp. pose proof (a_implicit _ _ _ (v_alloc _ _ _ _ Hv _ _ Ha)) as H. unfold implicit_ok in H.
  rewrite Himp in H. destruct H as (dev & H & _). congruence.
Qed.

(** Writing an inactive device that is new or was inactive, and was not made by an allocator. *)
Lemma put_inactive p st this dev : inv_at p st -> user_device st this -> heap_idx_ dev = -1 ->
  (forall dev0, devices st !! this = Some dev0 -> heap_idx_ dev0 = -1) -> inv_at p (put_device this dev st).
Proof using Type.
  intros [C H D A I M] Hu Hdev Hold. split; [done| | | |done|by apply (memory_same st)].
  - intros i hs Hi. eapply heap_ok_frame; [by apply H| |by eauto|by eauto]. intros d dev0 Hd Hdev0. cbn.
    rewrite lookup_insert_ne; [done|]. intros <-. destruct (h_device _ _ _ _ _ _ (H _ _ Hi)) as (d' & Hd' & Hdev').
    assert (d' = this) as -> by congruence. apply Hold in Hdev'. cbn in Hdev'. lia.
  - intros d dev0. cbn. intros [[<- <-]|[Hne Hd]]%lookup_insert_Some; [by left|]. apply (device_ok_frame st); [by apply D|by eauto].
  - intros a al Ha. apply (alloc_ok_frame st); [by apply A|by eauto|]. intros d dev0 Hd Hdev0. exists dev0. cbn.
    rewrite lookup_insert_ne; [done|]. intros <-. by apply (Hu a al).
Qed.

(** ** Opening a heap *)
Lemma open_ok st i c this kind id : inv st -> heaps st !! i = Some None -> devices st !! this = None -> device_kind kind -> id <> invalid_device_id ->
  new_index max_heaps_cat (use_gex_mk kind) (shape st) (heap_count st) i -> c = add_count (heap_count st) (use_gex_mk kind) 1 ->
  inv (put (Z.of_nat i) (Some (mk_heap (Some this) None kind 0 id)) (put_device this (mk_device (Z.of_nat i) kind id) (set_count c st))).
Proof using Type.
  intros Hv Hi Hfresh Hk Hid Hn ->. pose proof (fresh_user _ _ _ Hv Hfresh) as Hu. destruct Hv as [C H D A I M].
  assert (Hlt : (i < length (heaps (put_device this (mk_device (Z.of_nat i) kind id) (set_count (add_count (heap_count st) (use_gex_mk kind) 1) st))))%nat)
    by (by apply lookup_lt_Some in Hi).
  assert (Hother : forall j hs (P : heap_state -> Prop), heaps st !! j = Some (Some hs) -> P hs -> exists hs',
    heaps (put (Z.of_nat i) (Some (mk_heap (Some this) None kind 0 id))
      (put_device this (mk_device (Z.of_nat i) kind id) (set_count (add_count (heap_count st) (use_gex_mk kind) 1) st))) !! j = Some (Some hs') /\ P hs').
  { intros j hs P Hj HP. exists hs. split; [|done]. apply put_heap_lookup; [done|]. right. split; [|done]. intros ->. congruence. }
  split.
  - rewrite put_shape. apply (n_counts _ _ _ _ _ Hn).
  - intros j hs [[-> [= ->]]|[Hne Hj]]%put_heap_lookup; [| |done].
    + split; [exact Hk|apply (n_cat _ _ _ _ _ Hn)|exists this; cbn; by rewrite lookup_insert_eq|by left|exact Hid].
    + eapply heap_ok_frame; [by apply H| |by eauto|by eauto]. intros d dev0 Hd Hdev0. cbn.
      rewrite lookup_insert_ne; [done|]. intros <-. congruence.
  - intros d dev. cbn [devices put put_device set_heaps set_devices set_count].
    intros [[<- <-]|[Hne Hd]]%lookup_insert_Some.
    + right. eexists i, _. split; [done|]. split; [apply put_heap_lookup; [done|by left]|done].
    + apply (device_ok_frame st); [by apply D|]. intros j hs Hj Hd'. by apply (Hother j hs (fun hs => device_base hs = Some d)).
  - intros a al Ha. apply (alloc_ok_frame st); [by apply A| |].
    + intros j hs Hj Ha'. by apply (Hother j hs (fun hs => alloc_base hs = Some a)).
    + intros d dev Hd Hdev. exists dev. cbn. rewrite lookup_insert_ne; [done|]. intros <-. congruence.
  - done.
  - apply (memory_same st); [done|done|]. intros j. rewrite seg_at_put by done. case_decide as Hj; [|done]. subst j. unfold seg_at. by rewrite Hi.
Qed.

(** The constructor of a device succeeds unless all indices are taken, the vendor's
    runtime has no such device, or the kind is not part of the build. *)
Lemma device_ctor_exact st this kind id : inv st -> devices st !! this = None -> device_kind kind ->
  let opens := cat_of (heap_count st) (use_gex_mk kind) <? cat_of max_heaps_cat (use_gex_mk kind) in
  (if id =? invalid_device_id then exists st', device_ctor this kind id st = Ok st' /\ inv st' /\
      st' = put_device this (mk_device (-1) kind id) st
   else if kind_enabled kind && opens && device_opens kind id then
      exists (i : nat) st', device_ctor this kind id st = Ok st' /\ inv st' /\ heaps st !! i = Some None /\
        allocators st' = allocators st /\ devices st' = <[this := mk_device (Z.of_nat i) kind id]> (devices st) /\
        heaps st' = <[i := Some (mk_heap (Some this) None kind 0 id)]> (heaps st)
   else device_ctor this kind id st = Aborted).
Proof using Hmax.
  intros Hv Hfresh Hk opens. unfold DeviceHeaps.device_ctor.
  assert (Hin : inv (put_device this (mk_device (-1) kind id) st)).
  { apply put_inactive; [done|by eapply fresh_user|done|]. intros dev0. by rewrite Hfresh. }
  destruct (kind_enabled kind); cbn [negb andb].
  2:{ destruct (id =? invalid_device_id); [by eexists|done]. }
  destruct (id =? invalid_device_id) eqn:Eid; [by eexists|]. apply Z.eqb_neq in Eid. subst opens. destruct (_ <? _) eqn:Hlt; cbn [andb].
  2:{ apply Z.ltb_ge in Hlt. rewrite alloc_index_full by lia. done. }
  apply Z.ltb_lt in Hlt. destruct (alloc_index_ok _ Hmax _ _ (v_counts _ _ _ _ Hv) Hlt) as (i & -> & Hi & Hn). mcbn.
  destruct (device_opens kind id); [|done]. mcbn.
  assert (Hc : counts (<[i := true]> (shape st)) (heap_count st)).
  { rewrite list_insert_id; [apply Hv|]. by apply shape_lookup in Hi. }
  destruct (counts_bounds _ Hmax _ _ (n_counts _ _ _ _ _ Hn)) as [B1 B2]. unfold get.
  cbn [heap_count set_count].
  assert (((add_count (heap_count st) (use_gex_mk kind) 1).1 <=? max_heaps_cat.1) &&
    ((add_count (heap_count st) (use_gex_mk kind) 1).2 <=? max_heaps_cat.2) = true) as -> by (apply andb_true_iff; split; lia).
  pose proof (c_length _ _ _ (v_counts _ _ _ _ Hv)) as Hl. unfold shape in Hl. rewrite length_fmap in Hl.
  pose proof (lookup_lt_Some _ _ _ Hi). pose proof (n_pos _ _ _ _ _ Hn).
  assert ((0 <? Z.of_nat i) && (Z.of_nat i <? max_heaps max_heaps_cat) = true) as -> by (apply andb_true_iff; split; lia).
  mcbn. rewrite (slot_nat _ i None) by done. mcbn. cbn. mcbn.
  eexists i, _. split; [done|]. split; [by eapply open_ok|]. split_and!; [done|done|done|]. cbn. by rewrite Nat2Z.id.
Qed.

(** ** Destruction *)
Lemma delete_device p st d : inv_at p st -> user_device st d -> (forall dev, devices st !! d = Some dev -> heap_idx_ dev = -1) ->
  inv_at p (set_devices (delete d (devices st)) st).
Proof using Type.
  intros [C H D A I M] Hu Hold. split; [done| | | |done|by apply (memory_same st)].
  - intros i hs Hi. eapply heap_ok_frame; [by apply H| |by eauto|by eauto]. intros d' dev0 Hd Hdev0. cbn.
    rewrite lookup_delete_ne; [done|]. intros <-. destruct (h_device _ _ _ _ _ _ (H _ _ Hi)) as (d' & Hd' & Hdev').
    assert (d' = d) as -> by congruence. apply Hold in Hdev'. cbn in Hdev'. lia.
  - intros d' dev0. cbn. intros [Hne Hd]%lookup_delete_Some. apply (device_ok_frame st); [by apply D|by eauto].
  - intros a al Ha. apply (alloc_ok_frame st); [by apply A|by eauto|]. intros d' dev0 Hd Hdev0. exists dev0. cbn.
    rewrite lookup_delete_ne; [done|]. intros <-. by apply (Hu a al).
Qed.

Lemma device_inactive p st d dev : inv_at p st -> devices st !! d = Some dev -> device_active dev = false -> heap_idx_ dev = -1.
Proof using Type.
  intros Hv Hd Ha. destruct (v_device _ _ _ _ Hv _ _ Hd) as [|(i & hs & Hi & _)]; [done|]. unfold device_active in Ha. lia.
Qed.

Lemma device_dtor_ok st d dev : inv st -> devices st !! d = Some dev -> user_device st d ->
  device_dtor d st = (if device_active dev then Aborted else Ok (set_devices (delete d (devices st)) st)) /\
  (device_active dev = false -> inv (set_devices (delete d (devices st)) st)).
Proof using Type.
  intros Hv Hd Hu. unfold device_dtor, the_device. rewrite Hd. mcbn. destruct (device_active dev) eqn:E; cbn [negb]; mcbn; [done|].
  split; [done|]. intros _. apply delete_device; [done|done|]. intros dev' ?. assert (dev' = dev) as -> by congruence.
  by eapply device_inactive.
Qed.

(** ** Moves *)

(** Two heaps have different devices, and different allocators. *)
Lemma same_device p st (i j : nat) hs hs' d : inv_at p st -> heaps st !! i = Some (Some hs) -> heaps st !! j = Some (Some hs') ->
  device_base hs = Some d -> device_base hs' = Some d -> i = j.
Proof using Type.
  intros Hv Hi Hj Hd Hd'. destruct (h_device _ _ _ _ _ _ (v_heap _ _ _ _ Hv _ _ Hi)) as (d1 & E1 & L1).
  destruct (h_device _ _ _ _ _ _ (v_heap _ _ _ _ Hv _ _ Hj)) as (d2 & E2 & L2). simplify_eq. lia.
Qed.

Lemma same_alloc p st (i j : nat) hs hs' a : inv_at p st -> heaps st !! i = Some (Some hs) -> heaps st !! j = Some (Some hs') ->
  alloc_base hs = Some a -> alloc_base hs' = Some a -> i = j.
Proof using Type.
  intros Hv Hi Hj Ha Ha'. pose proof (h_alloc _ _ _ _ _ _ (v_heap _ _ _ _ Hv _ _ Hi)) as H1.
  pose proof (h_alloc _ _ _ _ _ _ (v_heap _ _ _ _ Hv _ _ Hj)) as H2. rewrite Ha in H1. rewrite Ha' in H2.
  destruct H1 as (al & L1 & E1 & _). destruct H2 as (al' & L2 & E2 & _). simplify_eq. lia.
Qed.

Definition moved (i : nat) (hs : heap_state) (this other : positive) (oth : device) (st : state) : state :=
  put_device other (mk_device (-1) (kind_ oth) invalid_device_id)
    (put (Z.of_nat i) (Some (mk_heap (Some this) (alloc_base hs) (my_kind hs) (segment_to_free hs) (device_id hs)))
      (put_device this (mk_device (Z.of_nat i) (my_kind hs) (device_id hs)) st)).

Lemma moved_ok p st (i : nat) hs this other dev oth : inv_at p st -> user_device st this -> user_device st other -> this <> other ->
  devices st !! this = Some dev -> heap_idx_ dev = -1 -> heaps st !! i = Some (Some hs) -> device_base hs = Some other ->
  inv_at p (moved i hs this other oth st).
Proof using Hmax.
  intros Hv Hu Hu' Hne Hthis Hdev Hi Hbase. pose proof (same_device p st) as Hsame. pose proof Hv as [C H D A I M].
  destruct (heap_index_pos _ Hmax _ _ _ C Hi) as (_ & _ & Hlt).
  assert (Hnot : forall j hs', heaps st !! j = Some (Some hs') -> device_base hs' <> Some this).
  { intros j hs' Hj Hd. destruct (h_device _ _ _ _ _ _ (H _ _ Hj)) as (d & E & L). simplify_eq. cbn in Hdev. lia. }
  assert (HL : forall j o, heaps (moved i hs this other oth st) !! j = Some o <->
    j = i /\ o = Some (mk_heap (Some this) (alloc_base hs) (my_kind hs) (segment_to_free hs) (device_id hs)) \/
    j <> i /\ heaps st !! j = Some o) 
    by (intros j o; by apply (put_heap_lookup (put_device this (mk_device (Z.of_nat i) (my_kind hs) (device_id hs)) st))).
  split.
  - change (shape (moved i hs this other oth st)) with
      (shape (put (Z.of_nat i) (Some (mk_heap (Some this) (alloc_base hs) (my_kind hs) (segment_to_free hs) (device_id hs))) st)).
    rewrite put_shape, list_insert_id; [done|]. by apply shape_lookup in Hi.
  - intros j hs' [[-> [= ->]]|[Hji Hj]]%HL.
    + destruct (H _ _ Hi) as [K G _ B N]. split; [done|done| |done|done]. exists this. split; [done|]. cbn.
      by rewrite lookup_insert_ne, lookup_insert_eq by congruence.
    + apply (heap_ok_frame _ _ p p st); [by apply H| |by eauto|by auto]. intros d dev0 Hd Hdev0. cbn.
      rewrite !lookup_insert_ne; [done| |]; intros <-; [by eapply Hnot|]. by pose proof (Hsame _ _ _ _ _ Hv Hj Hi Hd Hbase).
  - intros d dev0. unfold moved. cbn [devices put_device set_devices put set_heaps].
    intros [[<- <-]|[Hd1 [[<- <-]|[Hd2 Hd]]%lookup_insert_Some]]%lookup_insert_Some; [by left| |].
    + right. eexists i, _. split; [done|]. split; [apply HL; by left|done].
    + apply (device_ok_frame st); [by apply D|]. intros j hs' Hj Hd'. exists hs'. split; [|done]. apply HL. right. split; [|done].
      intros ->. congruence.
  - intros a al Ha. apply (alloc_ok_frame st); [by apply A| |].
    + intros j hs' Hj Ha'. destruct (decide (j = i)) as [->|Hji]; [|by (exists hs'; split; [apply HL; by right|done])].
      eexists. split; [apply HL; by left|]. cbn. congruence.
    + intros d dev0 Hd Hdev0. exists dev0. cbn. rewrite !lookup_insert_ne; [done| |]; intros <-; [by apply (Hu _ _ Ha)|by apply (Hu' _ _ Ha)].
  - done.
  - apply (memory_same st); [done|done|]. intros j.
    change (seg_at (moved i hs this other oth st) j) with (seg_at (put (Z.of_nat i)
      (Some (mk_heap (Some this) (alloc_base hs) (my_kind hs) (segment_to_free hs) (device_id hs))) st) j).
    rewrite seg_at_put by done. case_decide as Hj; [|done]. subst j. unfold seg_at. by rewrite Hi.
Qed.

Lemma device_move_assign_ok st this other dev oth : inv st -> user_device st this -> user_device st other ->
  devices st !! this = Some dev -> devices st !! other = Some oth -> kind_ dev = kind_ oth -> this <> other ->
  if device_active dev then device_move_assign this other st = Aborted
  else exists st', device_move_assign this other st = Ok st' /\ inv st' /\
    match devices st' !! this with Some dev' => heap_idx_ dev' = heap_idx_ oth /\ device_id_ dev' = device_id_ oth | None => False end.
Proof using Hmax.
  intros Hv Hu Hu' Hthis Hother Hk Hne. unfold DeviceHeaps.device_move_assign. rewrite bool_decide_eq_false_2 by congruence.
  unfold the_device. rewrite Hthis, Hother. mcbn. destruct (device_active dev) eqn:Ea.
  { unfold device_active in Ea. rewrite (proj2 (Z.eqb_neq (heap_idx_ dev) (-1))) by lia. done. }
  pose proof (device_inactive _ _ _ _ Hv Hthis Ea) as Hi. rewrite Hi, Z.eqb_refl. mcbn. rewrite Hk, Z.eqb_refl. mcbn.
  destruct (v_device _ _ _ _ Hv _ _ Hother) as [Ho|(i & hs & Ho & Hhs & Hb)].
  - rewrite Ho. cbn [Z.leb]. mcbn. eexists. split; [done|]. split.
    + apply put_inactive; [|done|done|].
      * apply put_inactive; [done|done|done|]. intros ? E. rewrite Hthis in E. by injection E as <-.
      * intros dev0. cbn. rewrite lookup_insert_ne, Hother by done. by intros [= <-].
    + cbn. rewrite lookup_insert_ne, lookup_insert_eq by congruence. done.
  - rewrite Ho, (proj2 (Z.leb_le _ _)) by lia.
    destruct (h_device _ _ _ _ _ _ (v_heap _ _ _ _ Hv _ _ Hhs)) as (d & Hd & Hdev). assert (d = other) as -> by congruence.
    assert (oth = mk_device (Z.of_nat i) (my_kind hs) (device_id hs)) as -> by congruence. cbn [kind_ device_id_ heap_idx_] in *.
    assert (Hget : get_heap max_heaps_cat (Z.of_nat i) (put_device this (mk_device (Z.of_nat i) (my_kind hs) (device_id hs)) st) = Ok hs).
    { exact (get_heap_ok _ _ Hmax _ _ _ _ Hv Hhs). }
    rewrite Hget. mcbn. unfold is_ptr. rewrite bool_decide_eq_true_2 by done. mcbn. eexists. split; [done|]. split.
    + by apply (moved_ok None st i hs this other dev (mk_device (Z.of_nat i) (my_kind hs) (device_id hs))).
    + cbn. by rewrite lookup_insert_ne, lookup_insert_eq by congruence.
Qed.

(** A move is what construction of an inactive device and assignment are. *)
Lemma device_move_ctor_ok st this other oth : inv st -> devices st !! this = None -> user_device st other -> devices st !! other = Some oth ->
  exists st', device_move_ctor this other st = Ok st' /\ inv st'.
Proof using Hmax.
  intros Hv Hfresh Hu Hother. unfold DeviceHeaps.device_move_ctor, the_device. rewrite Hother. mcbn.
  set (dev := mk_device (-1) (kind_ oth) (device_id_ oth)). assert (this <> other) by congruence.
  assert (Hv' : inv (put_device this dev st)).
  { apply put_inactive; [done|by eapply fresh_user|done|]. intros dev0. by rewrite Hfresh. }
  pose proof (device_move_assign_ok (put_device this dev st) this other dev oth Hv') as H'. cbn in H'.
  destruct H' as (st' & E & ? & _); [by apply (fresh_user _ _ _ Hv)|done|by rewrite lookup_insert_eq|by rewrite lookup_insert_ne|done|done|].
  exists st'. split; [exact E|done].
Qed.

End Devices.
End DeviceHeapsCalls.
