(* ===== verification/DeviceHeapsAllocators.v ===== *)
(** The operations of [DeviceHeaps.v] on segments and allocators keep the invariant:
    closing a heap, obtaining its memory, construction and moves of allocators. *)
From S2P Require Import Prelude.
From S2P Require Import DeviceHeaps.
From S2P Require Import DeviceHeapsInvariant.
From S2P Require Import DeviceHeapsCalls.

Module DeviceHeapsAllocators.
Export DeviceHeapsCalls.DeviceHeapsCalls.

(** * Memory of the vendor's runtime *)

Lemma dev_free_ok st b : b ∈ device_memory st -> dev_free b st = Ok (set_memory (device_memory st ∖ {[b]}) st).
Proof. intros H. unfold dev_free. by rewrite bool_decide_eq_true_2. Qed.

Lemma bind_assert {A} (f : unit -> res A) : (assert_that true ≫= f) = f tt.
Proof. done. Qed.

(** * Moves of segments *)

Lemma seg_endpost s l sz : SA.endpost s = 1%positive -> SA.inv s l sz ->
  SA.heap s !! 1%positive = Some (SA.mk_block false sz (SA.last_loc None l) None).
Proof.
  intros He Hi. pose proof (SA.linked_lookup (SA.heap s) l (SA.endblk s sz) [] (SA.inv_linked _ _ _ Hi)) as H. cbn in H. by rewrite He in H.
Qed.

(** Moving a segment into an empty one moves its blocks; moving it elsewhere fails. *)
Lemma seg_move s t : seg_ok s -> seg_ok t ->
  SA.move_assign s t = Aborted \/ exists t', SA.move_assign s t = Ok (t, t') /\ seg_ok t'.
Proof.
  intros (Es & l & sz & Hs) (Et & l' & sz' & Ht). unfold SA.move_assign, SA.load. rewrite Es, Et.
  rewrite (seg_endpost _ _ _ Es Hs). mcbn. cbn [SA.begin].
  destruct ((SA.seg_base s =? 0) && (sz =? 0)) eqn:E; [|by left]. mcbn. rewrite (seg_endpost _ _ _ Et Ht). mcbn. cbn [SA.prev SA.is_hole SA.next].
  right. rewrite insert_delete_eq. rewrite (insert_id (SA.heap t)) by apply (seg_endpost _ _ _ Et Ht).
  assert (Hempty : seg_ok (SA.mk_state 0 1 {[1%positive := SA.mk_block false 0 None None]} ∅ ∅)).
  { split; [done|]. destruct (SA.init_inv 0 0 1%positive) as (l0 & H0 & _); [lia..|]. exists l0, 0. exact H0. }
  destruct t as [base ep h hs hb]. cbn in *. subst ep. destruct l' as [|b l' _] using rev_ind; [by eexists|].
  rewrite SA.last_loc_snoc. pose proof (SA.inv_linked _ _ _ Ht) as HL. cbn in HL. rewrite <- app_assoc in HL. cbn in HL.
  pose proof (SA.linked_lookup _ _ _ _ HL) as Hb. cbn in Hb. unfold SA.set_next, SA.store_with, SA.load. rewrite Hb. mcbn.
  rewrite insert_id by done. by eexists.
Qed.

Section Search.
Context (dev_alloc : gset Z -> Z -> Z).

(** What the vendor's runtime returns: null, or new memory at an address of users. *)
Definition vendor_ok : Prop := forall mem s, let b := dev_alloc mem s in b = 0 \/ (b ∉ mem) /\ 0 < b /\ b + s < 2 ^ 63.
Context (Hvendor : vendor_ok).

(** ** The search for a segment *)

Definition with_memory (b : Z) (mem : gset Z) : gset Z := if b =? 0 then mem else {[b]} ∪ mem.

Lemma dev_alloc_in_spec size st mem : device_memory st = mem ->
  dev_alloc_in dev_alloc size st = (dev_alloc mem size, set_memory (with_memory (dev_alloc mem size) mem) st).
Proof using Type. intros <-. unfold dev_alloc_in, with_memory. destruct (_ =? 0); [|done]. by destruct st. Qed.

Lemma search_bounds : 0 < search_lo <= search_hi /\ search_hi <= 2 ^ 62 /\ search_hi - search_lo <= 65536 * 2 ^ Z.of_nat search_fuel.
Proof. unfold search_lo, search_hi, search_fuel. cbn. lia. Qed.

Lemma search_ok fuel st mem lo hi size base : device_memory st = with_memory base mem -> base = 0 \/ base ∉ mem ->
  0 < lo <= hi -> hi <= 2 ^ 62 -> hi - lo <= 65536 * 2 ^ Z.of_nat fuel ->
  0 < size -> base = 0 \/ 0 < base /\ base + size < 2 ^ 63 ->
  exists size' base', search dev_alloc fuel lo hi size base st = Ok (size', base', set_memory (with_memory base' mem) st) /\
    0 < size' /\ (base' = 0 \/ (base' ∉ mem) /\ 0 < base' /\ base' + size' < 2 ^ 63).
Proof using Hvendor.
  revert st lo hi size base. induction fuel as [|fuel IH]; intros st lo hi size base Hmem Hb Hlo Hhi Hf Hs Hr; cbn [search].
  - rewrite (proj2 (Z.ltb_ge _ _)) by lia. cbn [negb]. exists size, base. split; [rewrite <- Hmem; by destruct st|]. split; [done|].
    destruct Hb; [by left|]. destruct Hr; [by left|]. by right.
  - destruct (65536 <? hi - lo) eqn:E; cbn [negb].
    2:{ exists size, base. split; [rewrite <- Hmem; by destruct st|]. split; [done|]. destruct Hb; [by left|]. destruct Hr; [by left|]. by right. }
    apply Z.ltb_lt in E.
    assert (exists st1, (if base =? 0 then Ok st else dev_free base st) = Ok st1 /\ st1 = set_memory mem st) as (st1 & -> & ->).
    { unfold with_memory in Hmem. destruct (base =? 0) eqn:Eb; [exists st; split; [done|]; rewrite <- Hmem; by destruct st|].
      eexists. split; [apply dev_free_ok; rewrite Hmem; set_solver|]. rewrite Hmem. f_equal. destruct Hb as [->|Hb]; [done|]. set_solver. }
    mcbn. rewrite (dev_alloc_in_spec _ _ mem) by done. set (m := (lo + hi) / 2). set (b := dev_alloc mem m).
    assert (2 * m <= lo + hi < 2 * m + 2) by (pose proof (Z.div_mod (lo + hi) 2); pose proof (Z.mod_pos_bound (lo + hi) 2); lia).
    assert (2 ^ Z.of_nat (S fuel) = 2 * 2 ^ Z.of_nat fuel) by (rewrite Nat2Z.inj_succ, Z.pow_succ_r; lia).
    pose proof (Hvendor mem m) as Hvm. fold b in Hvm. cbn in Hvm.
    destruct (b =? 0) eqn:Eb.
    + apply (IH (set_memory (with_memory b mem) (set_memory mem st)) lo m m b); [done|left; lia|lia|lia|lia|lia|left; lia].
    + apply Z.eqb_neq in Eb. destruct Hvm as [|(V1 & V2 & V3)]; [lia|].
      apply (IH (set_memory (with_memory b mem) (set_memory mem st)) m hi m b); [done|by right|lia|lia|lia|lia|right; lia].
Qed.

Lemma largest_ok st size : 0 < size -> exists size' base', largest dev_alloc size 0 st =
    Ok (size', base', set_memory (with_memory base' (device_memory st)) st) /\
  0 < size' /\ (base' = 0 \/ (base' ∉ device_memory st) /\ 0 < base' /\ base' + size' < 2 ^ 63).
Proof using Hvendor.
  intros Hs. destruct search_bounds as (B1 & B2 & B3). apply search_ok; [done|by left|done|done|done|done|by left].
Qed.
End Search.
#[local] Opaque largest.


(** * Agreement on failures *)

Lemma lor_shiftl_add a b n : 0 <= n -> 0 <= b < 2 ^ n -> Z.lor (Z.shiftl a n) b = a * 2 ^ n + b.
Proof.
  intros Hn Hb. rewrite <- Z.shiftl_mul_pow2 by done. rewrite <- Z.add_lor_land. enough (Z.land (Z.shiftl a n) b = 0) by lia.
  apply Z.bits_inj'. intros i Hi. rewrite Z.land_spec, Z.bits_0. destruct (decide (i < n)).
  - by rewrite Z.shiftl_spec_low.
  - by rewrite (testbit_above n b), andb_false_r by lia.
Qed.

Lemma reduceval_eq r f : 0 <= f -> 0 <= r -> reduceval r f = Z.min f alloc_report_max * 2 ^ 20 + Z.min r rank_report_max.
Proof. intros Hf Hr. apply lor_shiftl_add; [lia|]. unfold rank_report_max. lia. Qed.

Lemma foldl_max x l : (x = foldl Z.max x l \/ foldl Z.max x l ∈ l) /\ x <= foldl Z.max x l /\ forall y, y ∈ l -> y <= foldl Z.max x l.
Proof.
  revert x. induction l as [|z l IH]; intros x; cbn; [split_and!; [by left|lia|set_solver]|].
  destruct (IH (Z.max x z)) as (H1 & H2 & H3). split_and!; [| lia |].
  - destruct H1 as [H1|H1]; [|right; set_solver]. destruct (Z.max_spec x z) as [[_ E]|[_ E]]; rewrite E in *; [right|by left].
    rewrite <- H1. set_solver.
  - intros y [->|Hy]%elem_of_cons; [lia|by apply H3].
Qed.

Lemma shiftr_20 v : Z.shiftr v 20 = v / 2 ^ 20.
Proof. by rewrite Z.shiftr_div_pow2. Qed.

(** A failure is seen by all. *)
Lemma failure_seen r f others : 0 <= r -> 0 < f -> 0 < Z.shiftr (foldl Z.max (reduceval r f) others) 20.
Proof.
  intros Hr Hf. destruct (foldl_max (reduceval r f) others) as (_ & H & _). rewrite reduceval_eq in * by lia. rewrite shiftr_20.
  unfold alloc_report_max, rank_report_max in *. apply Z.lt_le_trans with 1; [lia|]. apply Z.div_le_lower_bound; lia.
Qed.

Lemma report_ok r f others : 0 <= r -> 0 <= f -> Forall is_u64 others ->
  exists sz who, report r f (foldl Z.max (reduceval r f) others) = Ok (sz, who).
Proof.
  intros Hr Hf Ho. unfold report. destruct (f =? 0); cbn [negb]; [|by eexists _, _].
  assert (Hm : foldl Z.max (reduceval r f) others < 2 ^ 64).
  { destruct (foldl_max (reduceval r f) others) as ([<-|H] & _ & _).
    - rewrite reduceval_eq by lia. unfold alloc_report_max, rank_report_max. lia.
    - rewrite Forall_forall in Ho. apply Ho in H as [_ H]. exact H. }
  rewrite shiftr_20, (proj2 (Z.leb_le _ _)); [mcbn; by eexists _, _|]. unfold alloc_report_max.
  enough (foldl Z.max (reduceval r f) others / 2 ^ 20 < 2 ^ 44) by lia. apply Z.div_lt_upper_bound; lia.
Qed.

Section Allocators.
Context (max_heaps_cat : Z * Z) (use_gex_mk : Z -> bool).
Abbreviation counts := (counts max_heaps_cat).
Abbreviation inv_at := (inv_at max_heaps_cat use_gex_mk).
Abbreviation inv := (inv max_heaps_cat use_gex_mk).
Abbreviation heap_ok := (heap_ok max_heaps_cat use_gex_mk).
Abbreviation get_heap := (get_heap max_heaps_cat).
Abbreviation get_kind := (get_kind max_heaps_cat).
Abbreviation release := (release max_heaps_cat).
Abbreviation device_destroy := (device_destroy max_heaps_cat).
Abbreviation allocator_base_ctor := (allocator_base_ctor max_heaps_cat).
Abbreviation allocator_move_assign := (allocator_move_assign max_heaps_cat).
Abbreviation allocator_destroy := (allocator_destroy max_heaps_cat).
Abbreviation allocator_dtor := (allocator_dtor max_heaps_cat).

Context (Hmax : 1 <= max_heaps_cat.1 /\ 0 <= max_heaps_cat.2).

(** * Closing a heap *)

Definition deactivated (al : allocator) : allocator := mk_allocator (alloc_kind al) (-1) (seg_ al) (implicit_device al).

(** The state after the heap [i] of the device [d] was closed, with its allocator. *)
Record closed (st : state) (i : nat) (hs : heap_state) (d : positive) (st' : state) : Prop := {
  k_heaps : heaps st' = <[i := None]> (heaps st);
  k_counts : counts (<[i := true]> (shape st)) (heap_count st');
  k_devices : devices st' = <[d := mk_device (-1) (my_kind hs) invalid_device_id]> (devices st);
  k_allocators : forall a al', allocators st' !! a = Some al' <->
    exists al, allocators st !! a = Some al /\ al' = if decide (alloc_base hs = Some a) then deactivated al else al;
  k_memory : forall b, b ∈ device_memory st' <-> b ∈ device_memory st /\ b <> segment_to_free hs
}.

Lemma closed_ok st i hs d st' : inv st -> heaps st !! i = Some (Some hs) -> device_base hs = Some d -> closed st i hs d st' -> inv st'.
Proof using Hmax.
  intros Hv Hi Hd [KH KC KD KA KM]. pose proof (same_device max_heaps_cat use_gex_mk None st) as Hsame. pose proof (same_alloc max_heaps_cat use_gex_mk None st) as Hsamea.
  pose proof Hv as [C H D A I [M1 M2]].
  destruct (heap_index_pos _ Hmax _ _ _ C Hi) as (_ & _ & Hlt). destruct (h_device _ _ _ _ _ _ (H _ _ Hi)) as (d' & E & Ldev).
  assert (d' = d) as -> by congruence. clear E.
  assert (HL : forall j hs', heaps st' !! j = Some (Some hs') <-> j <> i /\ heaps st !! j = Some (Some hs')).
  { intros j hs'. rewrite KH. destruct (decide (j = i)) as [->|]; [rewrite list_lookup_insert_eq by done; naive_solver|].
    rewrite list_lookup_insert_ne by done. naive_solver. }
  assert (Hseg : forall j, seg_at st' j = if decide (j = i) then 0 else seg_at st j).
  { intros j. unfold seg_at. rewrite KH. case_decide as Hj; [subst; by rewrite list_lookup_insert_eq by done|by rewrite list_lookup_insert_ne]. }
  assert (Hsegi : seg_at st i = segment_to_free hs) by (unfold seg_at; by rewrite Hi).
  split.
  - unfold shape. rewrite KH, list_fmap_insert. exact KC.
  - intros j hs' [Hne Hj]%HL. apply (heap_ok_frame _ _ None None st); [by apply H| | |done].
    + intros d' dev Hd' Hdev. rewrite KD, lookup_insert_ne; [done|]. intros <-. by pose proof (Hsame _ _ _ _ _ Hv Hj Hi Hd' Hd).
    + intros a al Ha Hal. exists al. split; [|done]. apply KA. exists al. split; [done|]. rewrite decide_False; [done|].
      intros Ha'. by pose proof (Hsamea _ _ _ _ _ Hv Hj Hi Ha Ha').
  - intros d' dev. rewrite KD. intros [[<- <-]|[Hne Hd']]%lookup_insert_Some; [by left|]. apply (device_ok_frame st); [by apply D|].
    intros j hs' Hj Hb. exists hs'. split; [|done]. apply HL. split; [|done]. intros ->. congruence.
  - intros a al' (al & Ha & ->)%KA. specialize (A a al Ha). pose proof A as [A1 A2 A3]. unfold implicit_ok in A3.
    case_decide as Hb.
    + split; [by left|done|]. unfold implicit_ok. cbn. destruct (implicit_device al) as [dx|]; [|done]. destruct A3 as (dev & Hdx & E).
      assert (Hai : alloc_idx al = Z.of_nat i).
      { pose proof (h_alloc _ _ _ _ _ _ (H _ _ Hi)) as B. rewrite Hb in B. destruct B as (al2 & ? & ? & _). congruence. }
      destruct (D _ _ Hdx) as [|(j & hs' & Ej & Hj & Hbj)]; [lia|]. assert (j = i) as -> by lia. assert (hs' = hs) as -> by congruence.
      assert (dx = d) as -> by congruence. eexists. rewrite KD, lookup_insert_eq. done.
    + apply (alloc_ok_frame st); [done| |].
      * intros j hs' Hj Ha'. exists hs'. split; [|done]. apply HL. split; [|done]. intros ->. congruence.
      * intros dx dev Hdx Hdev. destruct (decide (dx = d)) as [->|]; [|exists dev; by rewrite KD, lookup_insert_ne].
        exfalso. rewrite Hdx in A3. destruct A3 as (dev' & Hdev' & E). assert (heap_idx_ dev' = Z.of_nat i) by (rewrite Ldev in Hdev'; by injection Hdev' as <-).
        destruct A1 as [|(j & hs' & Ej & Hj & Hbj)]; [lia|]. assert (j = i) as -> by lia. congruence.
  - intros a a' al al' dx (al1 & Ha1 & ->)%KA (al2 & Ha2 & ->)%KA H1 H2.
    apply (I a a' al1 al2 dx Ha1 Ha2); [by destruct (decide _)|]. by destruct (decide (alloc_base hs = Some a')).
  - split.
    + intros b. rewrite KM, M1. setoid_rewrite Hseg. split.
      * intros [[Hb (j & Hj)] Hne]. split; [done|]. exists j. rewrite decide_False; [done|]. intros ->. congruence.
      * intros [Hb (j & Hj)]. case_decide as Ej; [congruence|]. split; [split; [done|by exists j]|].
        intros ->. apply Ej. apply M2; [congruence|]. congruence.
    + intros j k. rewrite !Hseg. repeat case_decide; subst; try done. apply M2.
Qed.

(** Freeing the segment of a heap, if there is one. *)
Definition without (b : Z) (st : state) : state := if b =? 0 then st else set_memory (device_memory st ∖ {[b]}) st.

Lemma free_segment p st (i : nat) hs : inv_at p st -> heaps st !! i = Some (Some hs) ->
  (if segment_to_free hs =? 0 then Ok st else dev_free (segment_to_free hs) st) = Ok (without (segment_to_free hs) st) /\
  forall b, b ∈ device_memory (without (segment_to_free hs) st) <-> b ∈ device_memory st /\ b <> segment_to_free hs.
Proof using Hmax.
  intros Hv Hi. destruct (v_memory _ _ _ _ Hv) as [M1 _]. unfold without. destruct (segment_to_free hs =? 0) eqn:E.
  - apply Z.eqb_eq in E. rewrite E. split; [done|]. intros b. split; [|naive_solver]. intros Hb. split; [done|]. by apply M1 in Hb as [? _].
  - apply Z.eqb_neq in E. split; [|intros b; cbn; set_solver]. apply dev_free_ok, M1. split; [done|]. exists i. unfold seg_at. by rewrite Hi.
Qed.

(** [destroy] of an active device always succeeds. *)
Lemma device_destroy_ok st d dev : inv st -> devices st !! d = Some dev -> exists st', device_destroy d st = Ok st' /\ inv st' /\
  if device_active dev then exists (i : nat) hs, heap_idx_ dev = Z.of_nat i /\ heaps st !! i = Some (Some hs) /\ closed st i hs d st' else st' = st.
Proof using Hmax.
  intros Hv Hd. unfold DeviceHeaps.device_destroy, the_device. rewrite Hd. mcbn.
  destruct (device_active dev) eqn:Ea; cbn [negb]; [|by exists st].
  destruct (v_device _ _ _ _ Hv _ _ Hd) as [E|(i & hs & Ei & Hi & Hb)]; [unfold device_active in Ea; lia|].
  destruct (h_device _ _ _ _ _ _ (v_heap _ _ _ _ Hv _ _ Hi)) as (d' & Hd' & Hdev). assert (d' = d) as -> by congruence.
  assert (dev = mk_device (Z.of_nat i) (my_kind hs) (device_id hs)) as -> by congruence. cbn [heap_idx_ kind_ device_id_].
  rewrite (get_kind_ok _ _ Hmax _ _ _ _ Hv Hi). mcbn. unfold is_ptr. rewrite bool_decide_eq_true_2 by done. mcbn. rewrite Z.eqb_refl. mcbn.
  destruct (heap_index_pos _ Hmax _ _ _ (v_counts _ _ _ _ Hv) Hi) as (Hpos & _ & Hlt).
  pose proof (h_alloc _ _ _ _ _ _ (v_heap _ _ _ _ Hv _ _ Hi)) as Hal.
  pose proof (h_kind _ _ _ _ _ _ (v_heap _ _ _ _ Hv _ _ Hi)) as Hkind.
  pose proof (h_cat _ _ _ _ _ _ (v_heap _ _ _ _ Hv _ _ Hi)) as Hcat.
  assert (Hshape : shape st !! i = Some false) by (by apply shape_lookup in Hi).
  destruct (alloc_base hs) as [a|] eqn:Ha.
  - destruct Hal as (al & La & Eal & Ek). unfold DeviceHeaps.release, the_allocator. rewrite La. mcbn.
    rewrite Eal, (proj2 (Z.leb_le _ _)) by lia. cbn [negb]. rewrite Ek, (get_kind_ok _ _ Hmax _ _ _ _ Hv Hi). mcbn.
    destruct (free_segment _ _ _ _ Hv Hi) as [-> Hmem]. mcbn. set (st1 := without _ st) in *.
    assert (E1 : heaps st1 = heaps st /\ heap_count st1 = heap_count st /\ devices st1 = devices st /\ allocators st1 = allocators st)
      by (unfold st1, without; by destruct (_ =? 0)). destruct E1 as (E1 & E2 & E3 & E4).
    set (hs1 := mk_heap (device_base hs) None (my_kind hs) 0 (device_id hs)).
    set (st2 := put_allocator a _ (put _ (Some hs1) st1)).
    assert (Hi2 : heaps st2 !! i = Some (Some hs1)) by (cbn; rewrite Nat2Z.id, list_lookup_insert_eq; [done|by rewrite E1]).
    assert (Hs2 : shape st2 = shape st).
    { unfold st2. change (shape (put_allocator _ _ ?s)) with (shape s). rewrite put_shape. unfold shape at 1. rewrite E1. cbn.
      rewrite list_insert_id; [done|]. by apply shape_lookup in Hi. }
    assert (Hc2 : counts (shape st2) (heap_count st2)) by (rewrite Hs2; cbn; rewrite E2; apply Hv).
    unfold DeviceHeaps.get_heap. rewrite (get_ok _ Hmax st2 i false (Some hs1)) by (done || naive_solver). mcbn. cbn [is_null hs1 alloc_base]. mcbn.
    rewrite (get_ok _ Hmax st2 i false (Some hs1)) by (done || naive_solver). mcbn.
    destruct (free_index_ok _ Hmax st2 i _ Hc2 ltac:(by rewrite Hs2) Hcat) as (c & -> & Hc). mcbn.
    eexists. split; [done|]. assert (K : closed st i hs d (put_device d (mk_device (-1) (my_kind hs) invalid_device_id) (set_count c (put (Z.of_nat i) None st2)))).
    { split.
      - cbn. rewrite Nat2Z.id, E1. by rewrite list_insert_insert_eq.
      - rewrite <- Hs2. exact Hc.
      - cbn. by rewrite E3.
      - intros a' al'. cbn. rewrite E4. destruct (decide (a' = a)) as [->|Hne].
        + rewrite lookup_insert_eq. unfold deactivated. rewrite <- Ek. split.
          * intros [= <-]. exists al. by rewrite decide_True by done.
          * intros (al0 & Hx & ->). rewrite decide_True by done. by simplify_eq.
        + rewrite lookup_insert_ne by done. split; [intros Hx; exists al'|intros (al0 & Hx & ->)]; by rewrite decide_False by congruence.
      - exact Hmem. }
    split; [by apply (closed_ok st i hs d)|by exists i, hs].
  - mcbn. rewrite (get_ok _ Hmax st i false (Some hs)) by (done || (apply Hv) || naive_solver). mcbn.
    destruct (free_index_ok _ Hmax st i _ (v_counts _ _ _ _ Hv) Hshape Hcat) as (c & -> & Hc). mcbn.
    destruct Hal as [Hseg|]; [|done].
    eexists. split; [done|]. assert (K : closed st i hs d (put_device d (mk_device (-1) (my_kind hs) invalid_device_id) (set_count c (put (Z.of_nat i) None st)))).
    { split.
      - cbn. by rewrite Nat2Z.id.
      - exact Hc.
      - done.
      - intros a' al'. cbn. rewrite Ha. split; [intros Hx; exists al'|intros (al0 & Hx & ->)]; by rewrite decide_False by congruence.
      - intros b. cbn. rewrite Hseg. split; [|naive_solver]. intros Hb'. split; [done|]. by apply (m_live _ (v_memory _ _ _ _ Hv)) in Hb' as [? _]. }
    split; [by apply (closed_ok st i hs d)|by exists i, hs].
Qed.

(** * Segments *)

Context (rank_me : Z) (dev_alloc : gset Z -> Z -> Z).
Abbreviation obtain := (obtain max_heaps_cat dev_alloc).
Abbreviation make_gpu_segment := (make_gpu_segment max_heaps_cat rank_me dev_alloc).

Context (Hvendor : vendor_ok dev_alloc).

Definition with_segment (hs : heap_state) (b : Z) : heap_state :=
  mk_heap (device_base hs) (alloc_base hs) (my_kind hs) b (device_id hs).

Lemma set_segment_ok p p' st (i : nat) hs b mem : inv_at p st -> heaps st !! i = Some (Some hs) -> p = None \/ p = Some i ->
  p' = Some i \/ b = 0 /\ p' = None -> b = segment_to_free hs \/ b ∉ device_memory st ->
  (forall x, x ∈ mem <-> x = b /\ b <> 0 \/ x ∈ device_memory st /\ x <> segment_to_free hs) ->
  inv_at p' (set_segment (Z.of_nat i) b hs (set_memory mem st)).
Proof using Hmax.
  intros Hv Hi Hp Hp' Hb Hmem. pose proof Hv as [C H D A I [M1 M2]]. destruct (heap_index_pos _ Hmax _ _ _ C Hi) as (_ & _ & Hlt).
  set (st' := set_segment _ _ _ _).
  assert (HL : forall j o, heaps st' !! j = Some o <-> j = i /\ o = Some (with_segment hs b) \/ j <> i /\ heaps st !! j = Some o)
    by (intros j o; by apply (put_heap_lookup (set_memory mem st))).
  assert (Hseg : forall j, seg_at st' j = if decide (j = i) then b else seg_at st j) by (intros j; by apply (seg_at_put (set_memory mem st))).
  assert (Hsegi : seg_at st i = segment_to_free hs) by (unfold seg_at; by rewrite Hi).
  split; [| | | |exact I|].
  - change (shape st') with (shape (put (Z.of_nat i) (Some (with_segment hs b)) st)). rewrite put_shape, list_insert_id; [done|].
    by apply shape_lookup in Hi.
  - intros j hs' [[-> [= ->]]|[Hne Hj]]%HL.
    + destruct (H _ _ Hi) as [K G X B N]. split; [done|done|done| |done]. cbn. destruct (alloc_base hs); [done|]. destruct Hp' as [->|[-> _]]; [by right|by left].
    + apply (heap_ok_frame _ _ p p' st); [by apply H|by eauto|by eauto|]. destruct Hp as [-> | ->]; [done|]. intros [= ->]. done.
  - intros d dev Hd. apply (device_ok_frame st); [by apply D|]. intros j hs' Hj Hd'. destruct (decide (j = i)) as [->|Hne].
    + eexists. split; [apply HL; by left|]. cbn. congruence.
    + exists hs'. split; [apply HL; by right|done].
  - intros a al Ha. apply (alloc_ok_frame st); [by apply A| |by eauto]. intros j hs' Hj Ha'. destruct (decide (j = i)) as [->|Hne].
    + eexists. split; [apply HL; by left|]. cbn. congruence.
    + exists hs'. split; [apply HL; by right|done].
  - split.
    + intros x. cbn [device_memory st' set_segment put set_heaps set_memory]. rewrite Hmem, M1. setoid_rewrite Hseg. split.
      * intros [[-> Hx]|[[Hx [j Hj]] Hne]]; [split; [done|]; exists i; by rewrite decide_True|]. split; [done|]. exists j.
        rewrite decide_False; [done|]. intros ->. congruence.
      * intros [Hx [j Hj]]. case_decide as Ej; [left; by subst|right]. split; [split; [done|by exists j]|]. intros ->. apply Ej, M2; congruence.
    + assert (Hfresh : forall j, seg_at st j = b -> b <> 0 -> j <> i -> False).
      { intros j Hj Hb0 Hji. destruct Hb as [->|Hb]; [apply Hji, M2; congruence|]. apply Hb, M1. split; [done|by exists j]. }
      intros j k. rewrite !Hseg. destruct (decide (j = i)) as [->|Hji], (decide (k = i)) as [->|Hki]; intros E E0; [done| | |by apply M2].
      * exfalso. by apply (Hfresh k).
      * exfalso. apply (Hfresh j); [done|congruence|done].
Qed.

(** What clients may ask for. *)
Definition request_ok (active : bool) (base size : Z) : Prop :=
  0 <= base /\ is_u64 size /\ (base + size < 2 ^ 63 \/ active = true /\ base = 0 \/ active = true /\ size = 2 ^ 64 - 1).

Context (Hrank : 0 <= rank_me).

Lemma set_memory_same st : set_memory (device_memory st) st = st.
Proof using Type. by destruct st. Qed.

Lemma obtain_ok p st (i : nat) hs base size : inv_at p st -> heaps st !! i = Some (Some hs) -> request_ok true base size ->
  obtain (my_kind hs) (Z.of_nat i) base size st = Aborted \/
  exists size' base' failed b, obtain (my_kind hs) (Z.of_nat i) base size st =
      Ok (size', base', failed, set_segment (Z.of_nat i) b hs (set_memory (with_memory b (device_memory st)) st)) /\
    segment_to_free hs = 0 /\ (b = 0 \/ b ∉ device_memory st) /\ 0 <= failed /\
    (failed = 0 -> 0 <= base' /\ 0 <= size' /\ base' + size' < 2 ^ 63).
Proof using Hmax Hvendor.
  intros Hv Hi (Hb & [Hs0 Hs1] & Hr). unfold DeviceHeaps.obtain. rewrite (get_kind_ok _ _ Hmax _ _ _ _ Hv Hi). mcbn.
  destruct (size =? 0) eqn:Esz; cbn [negb]; [by left|]. apply Z.eqb_neq in Esz.
  destruct (segment_to_free hs =? 0) eqn:Eseg; [|by left]. apply Z.eqb_eq in Eseg. mcbn.
  destruct (base =? 0) eqn:Eb; [apply Z.eqb_eq in Eb; subst base|apply Z.eqb_neq in Eb].
  - right. destruct (w64 (- size) =? 1).
    + rewrite bind_assert. destruct (largest_ok dev_alloc Hvendor st size) as (size' & base' & -> & Hs' & Hb'); [lia|].
      mcbn. exists size', base', (if base' =? 0 then size' else 0), base'. split; [done|]. split; [done|]. split; [naive_solver|].
      destruct (base' =? 0) eqn:E; [lia|]. apply Z.eqb_neq in E. split; [lia|]. intros _. destruct Hb' as [|(? & ? & ?)]; lia.
    + rewrite (dev_alloc_in_spec _ _ _ _ eq_refl). pose proof (Hvendor (device_memory st) size) as Hd. cbn in Hd.
      set (b := dev_alloc (device_memory st) size) in *. exists size, b, (if b =? 0 then size else 0), b.
      split; [done|]. split; [done|]. split; [naive_solver|].
      destruct (b =? 0) eqn:E; [lia|]. apply Z.eqb_neq in E. split; [lia|]. intros _. destruct Hd as [|(? & ? & ?)]; lia.
  - destruct (w64 (- size) =? 1) eqn:E1; [by left|right]. exists size, base, 0, 0. cbn [with_memory Z.eqb]. rewrite set_memory_same.
    split; [done|]. split; [done|]. split; [by left|]. split; [done|]. intros _. split; [lia|]. split; [lia|].
    destruct Hr as [Hr|[[_ Hr]|[_ ->]]]; [done|lia|]. by rewrite (eq_refl : w64 (- (2 ^ 64 - 1)) = 1) in E1.
Qed.

(** The process once it has obtained the segment *)
Lemma obtained_ok st (i : nat) hs b : inv st -> heaps st !! i = Some (Some hs) -> segment_to_free hs = 0 -> b = 0 \/ b ∉ device_memory st ->
  let st1 := set_segment (Z.of_nat i) b hs (set_memory (with_memory b (device_memory st)) st) in
  inv_at (Some i) st1 /\ DeviceHeaps.get_heap max_heaps_cat (Z.of_nat i) st1 = Ok (with_segment hs b).
Proof using Hmax.
  clear Hvendor Hrank dev_alloc rank_me.
  intros Hv Hi Hseg Hb st1. set (mem := with_memory b (device_memory st)) in st1.
  destruct (heap_index_pos _ Hmax _ _ _ (v_counts _ _ _ _ Hv) Hi) as (_ & _ & Hlt).
  assert (Hmem0 : 0 ∉ device_memory st) by (intros H0; by apply (m_live _ (v_memory _ _ _ _ Hv)) in H0 as [? _]).
  assert (Hv1 : inv_at (Some i) st1).
  { apply (set_segment_ok None); [done|done|by left|by left|rewrite Hseg; naive_solver|]. intros x. unfold mem, with_memory. rewrite Hseg.
    destruct (b =? 0) eqn:E; [apply Z.eqb_eq in E|apply Z.eqb_neq in E]; [|set_solver]. subst b. split; [|naive_solver].
    intros Hx. right. split; [done|]. by intros ->. }
  split; [done|]. assert (Hi1 : heaps st1 !! i = Some (Some (with_segment hs b))) by (apply (put_heap_lookup (set_memory mem st)); [done|by left]).
  by rewrite (get_heap_ok _ _ Hmax _ _ _ _ Hv1 Hi1).
Qed.

(** Freeing what was obtained gives back the process as it was. *)
Lemma segment_undone st (i : nat) hs b : inv st -> heaps st !! i = Some (Some hs) -> segment_to_free hs = 0 -> b = 0 \/ b ∉ device_memory st ->
  let st1 := set_segment (Z.of_nat i) b hs (set_memory (with_memory b (device_memory st)) st) in
  (hs ← DeviceHeaps.get_heap max_heaps_cat (Z.of_nat i) st1;
   if segment_to_free hs =? 0 then Ok st1 else
   st ← dev_free (segment_to_free hs) st1; Ok (set_segment (Z.of_nat i) 0 hs st)) = Ok st.
Proof using Hmax.
  clear Hvendor Hrank dev_alloc rank_me.
  intros Hv Hi Hseg Hb st1. destruct (obtained_ok st i hs b Hv Hi Hseg Hb) as [_ Hg]. fold st1 in Hg. rewrite Hg. mcbn.
  cbn [segment_to_free with_segment].
  assert (Eback : <[i := Some (mk_heap (device_base hs) (alloc_base hs) (my_kind hs) 0 (device_id hs))]> (heaps st) = heaps st).
  { apply list_insert_id. rewrite Hi. destruct hs. cbn in Hseg |- *. congruence. }
  destruct (b =? 0) eqn:Eb; [apply Z.eqb_eq in Eb|apply Z.eqb_neq in Eb].
  - subst b. f_equal. unfold st1, set_segment, put. cbn. rewrite Nat2Z.id. unfold set_heaps. cbn. rewrite Eback. by destruct st.
  - destruct Hb as [|Hb]; [done|]. unfold st1, with_memory. rewrite (proj2 (Z.eqb_neq b 0)) by done.
    unfold dev_free. rewrite bool_decide_eq_true_2 by (cbn; set_solver). mcbn. f_equal. unfold set_segment, put, set_memory, set_heaps. cbn.
    rewrite Nat2Z.id, list_insert_insert_eq, Eback. replace (({[b]} ∪ device_memory st) ∖ {[b]}) with (device_memory st) by set_solver. by destruct st.
Qed.

(** [make_gpu_segment] at a process with an active device *)
Lemma make_gpu_segment_ok st (i : nat) hs base size others : inv st -> heaps st !! i = Some (Some hs) -> request_ok true base size ->
  Forall is_u64 others ->
  make_gpu_segment (my_kind hs) (Z.of_nat i) base size others st = Aborted \/
  exists m st', make_gpu_segment (my_kind hs) (Z.of_nat i) base size others st = Ok (m, st') /\
    match m with
    | Throws _ _ => inv st'
    | Segment s => seg_ok s /\ exists b mem, st' = set_segment (Z.of_nat i) b hs (set_memory mem st) /\ inv_at (Some i) st'
    end.
Proof using Hmax Hvendor Hrank.
  intros Hv Hi Hr Ho. unfold DeviceHeaps.make_gpu_segment. destruct (heap_index_pos _ Hmax _ _ _ (v_counts _ _ _ _ Hv) Hi) as (Hpos & _ & Hlt).
  rewrite (proj2 (Z.leb_gt _ _)) by lia.
  destruct (obtain_ok _ _ _ _ base size Hv Hi Hr) as [->|(size' & base' & failed & b & -> & Hseg & Hb & Hf & Hfit)]; [by left|]. mcbn. right.
  destruct (obtained_ok st i hs b Hv Hi Hseg Hb) as [Hv1 _]. pose proof (segment_undone st i hs b Hv Hi Hseg Hb) as Hundo. cbn zeta in Hundo.
  destruct (0 <? Z.shiftr _ 20) eqn:Efail.
  - rewrite Hundo. mcbn. destruct (report_ok rank_me failed others Hrank Hf Ho) as (sz & who & ->). mcbn. by eexists _, _.
  - mcbn. eexists _, _. split; [done|]. split; [|by eexists _, _].
    assert (failed = 0) as ->.
    { destruct (decide (failed = 0)) as [|Hne]; [done|]. pose proof (failure_seen rank_me failed others Hrank). lia. }
    destruct (Hfit eq_refl) as (? & ? & ?). destruct (SA.init_inv base' size' 1%positive) as (l & ? & _); [lia..|].
    split; [unfold SA.segment_allocator; by destruct (size' =? 0)|by eexists _, _].
Qed.

Lemma make_gpu_segment_inactive kind st base size others : request_ok false base size -> Forall is_u64 others ->
  exists m, make_gpu_segment kind (-1) base size others st = Ok (m, st) /\ match m with Throws _ _ => True | Segment s => seg_ok s end.
Proof using Hrank.
  intros (Hb & [Hs0 Hs1] & [Hr|[[? _]|[? _]]]) Ho; [|done..]. unfold DeviceHeaps.make_gpu_segment. rewrite (eq_refl : (-1 <=? 0) = true). mcbn.
  destruct (0 <? Z.shiftr (foldl Z.max (reduceval rank_me 0) others) 20).
  - mcbn. destruct (report_ok rank_me 0 others Hrank ltac:(done) Ho) as (sz & who & ->). mcbn. by eexists.
  - eexists. split; [done|]. destruct (SA.init_inv base size 1%positive) as (l & ? & _); [lia..|].
    split; [unfold SA.segment_allocator; by destruct (size =? 0)|by eexists _, _].
Qed.

(** * Construction of allocators *)

Context (kind_enabled : Z -> bool).
Abbreviation allocator_with := (allocator_with max_heaps_cat kind_enabled rank_me dev_alloc).

Definition implicit_fits (st : state) (implicit : option positive) (idx : Z) : Prop :=
  match implicit with
  | None => True
  | Some d => user_device st d /\ exists dev, devices st !! d = Some dev /\ heap_idx_ dev = idx
  end.

Lemma implicit_put st al : implicit_fits st (implicit_device al) (alloc_idx al) -> implicit_ok st al.
Proof using Type. unfold implicit_fits, implicit_ok. destruct (implicit_device al); [|done]. by intros [_ H]. Qed.

(** No two allocators have the same device. *)
Lemma implicit_distinct p st this al : inv_at p st -> implicit_fits st (implicit_device al) (alloc_idx al) ->
  forall a a' al1 al2 d, <[this := al]> (allocators st) !! a = Some al1 -> <[this := al]> (allocators st) !! a' = Some al2 ->
    implicit_device al1 = Some d -> implicit_device al2 = Some d -> a = a'.
Proof using Type.
  intros Hv Hf a a' al1 al2 d [[<- <-]|[N1 L1]]%lookup_insert_Some [[<- <-]|[N2 L2]]%lookup_insert_Some E1 E2; [done| | |].
  - rewrite E1 in Hf. destruct Hf as [Hu _]. by apply Hu in L2.
  - rewrite E2 in Hf. destruct Hf as [Hu _]. by apply Hu in L1.
  - by eapply (v_implicit _ _ _ _ Hv).
Qed.

Lemma ctor_inactive st this kind seg implicit : inv st -> allocators st !! this = None -> seg_ok seg -> implicit_fits st implicit (-1) ->
  exists st', allocator_base_ctor this kind (-1) seg implicit st = Ok st' /\ inv st' /\
    st' = put_allocator this (mk_allocator kind (-1) seg implicit) st.
Proof using Type.
  intros Hv Hfresh Hseg Himp. unfold DeviceHeaps.allocator_base_ctor. rewrite (eq_refl : (0 <=? -1) = false).
  eexists. split; [done|]. split; [|done]. pose proof Hv as [C H D A I M]. split; [done| | | |by eapply implicit_distinct|by apply (memory_same st)].
  - intros i hs Hi. eapply heap_ok_frame; [by apply H|by eauto| |by eauto]. intros a al Ha Hal. exists al. cbn.
    rewrite lookup_insert_ne; [done|]. intros <-. congruence.
  - intros d dev Hd. apply (device_ok_frame st); [by apply D|by eauto].
  - intros a al. cbn. intros [[<- <-]|[Hne Ha]]%lookup_insert_Some.
    + split; [by left|done|]. by apply (implicit_put st).
    + apply (alloc_ok_frame st); [by apply A|by eauto|by eauto].
Qed.

Definition registered (st : state) (i : nat) (hs : heap_state) (this : positive) (seg : SA.state) (implicit : option positive) : state :=
  put (Z.of_nat i) (Some (mk_heap (device_base hs) (Some this) (my_kind hs) (segment_to_free hs) (device_id hs)))
    (put_allocator this (mk_allocator (my_kind hs) (Z.of_nat i) seg implicit) st).

Lemma registered_ok st (i : nat) hs this seg implicit : inv_at (Some i) st -> heaps st !! i = Some (Some hs) -> alloc_base hs = None ->
  allocators st !! this = None -> seg_ok seg -> implicit_fits st implicit (Z.of_nat i) -> inv (registered st i hs this seg implicit).
Proof using Hmax.
  intros Hv Hi Hnone Hfresh Hseg Himp. pose proof Hv as [C H D A I M]. destruct (heap_index_pos _ Hmax _ _ _ C Hi) as (_ & _ & Hlt).
  set (st' := registered _ _ _ _ _ _). set (hs1 := mk_heap (device_base hs) (Some this) (my_kind hs) (segment_to_free hs) (device_id hs)).
  assert (HL : forall j o, heaps st' !! j = Some o <-> j = i /\ o = Some hs1 \/ j <> i /\ heaps st !! j = Some o)
    by (intros j o; by apply (put_heap_lookup (put_allocator this (mk_allocator (my_kind hs) (Z.of_nat i) seg implicit) st))).
  split; [| | | |by eapply implicit_distinct|].
  - change (shape st') with (shape (put (Z.of_nat i) (Some hs1) st)). rewrite put_shape, list_insert_id; [done|]. by apply shape_lookup in Hi.
  - intros j hs' [[-> [= ->]]|[Hne Hj]]%HL.
    + destruct (H _ _ Hi) as [K G X B N]. split; [done|done|done| |done]. cbn. eexists. rewrite lookup_insert_eq. done.
    + apply (heap_ok_frame _ _ (Some i) None st); [by apply H|by eauto| |].
      * intros a al Ha Hal. exists al. cbn. rewrite lookup_insert_ne; [done|]. intros <-. congruence.
      * intros [= ->]. done.
  - intros d dev Hd. apply (device_ok_frame st); [by apply D|]. intros j hs' Hj Hd'. destruct (decide (j = i)) as [->|Hne].
    + eexists. split; [apply HL; by left|]. cbn. congruence.
    + exists hs'. split; [apply HL; by right|done].
  - intros a al. cbn. intros [[<- <-]|[Hne Ha]]%lookup_insert_Some.
    + split; [|done|by apply (implicit_put st)]. right. exists i, hs1. split_and!; [done|apply HL; by left|done].
    + apply (alloc_ok_frame st); [by apply A| |by eauto]. intros j hs' Hj Ha'. destruct (decide (j = i)) as [->|Hji]; [congruence|].
      exists hs'. split; [apply HL; by right|done].
  - apply (memory_same st); [done|done|]. intros j.
    change (seg_at st' j) with (seg_at (put (Z.of_nat i) (Some hs1) st) j). rewrite seg_at_put by done. case_decide as Hj; [|done].
    subst j. unfold seg_at. by rewrite Hi.
Qed.

(** The constructors with a device *)
Lemma allocator_with_ok st this d dev implicit size base others : inv st -> allocators st !! this = None -> devices st !! d = Some dev ->
  request_ok (device_active dev) base size -> Forall is_u64 others -> implicit = None \/ implicit = Some d /\ user_device st d ->
  allocator_with this d implicit size base others st = Aborted \/
  exists o st', allocator_with this d implicit size base others st = Ok (o, st') /\ inv st'.
Proof using Hmax Hvendor Hrank.
  intros Hv Hfresh Hd Hr Ho Himp. unfold DeviceHeaps.allocator_with, the_device. rewrite Hd. mcbn.
  assert (Hnull : seg_ok null_segment) by (split; [done|]; destruct (SA.init_inv 0 0 1%positive) as (l & ? & _); [lia..|]; by eexists _, _).
  destruct (device_active dev) eqn:Ea.
  - destruct (kind_enabled (kind_ dev)); cbn [negb].
    2:{ left. unfold DeviceHeaps.allocator_base_ctor. by rewrite (eq_refl : (0 <=? -1) = false). }
    destruct (v_device _ _ _ _ Hv _ _ Hd) as [E|(i & hs & Ei & Hi & Hb)]; [unfold device_active in Ea; lia|].
    destruct (h_device _ _ _ _ _ _ (v_heap _ _ _ _ Hv _ _ Hi)) as (d' & Hd' & Hdev). assert (d' = d) as -> by congruence.
    assert (dev = mk_device (Z.of_nat i) (my_kind hs) (device_id hs)) as -> by congruence. cbn [heap_idx_ kind_] in *.
    destruct (make_gpu_segment_ok st i hs base size others Hv Hi Hr Ho) as [->|(m & st' & -> & Hm)]; [by left|]. mcbn.
    destruct m as [seg|s r]; [|right; by eexists _, _]. destruct Hm as (Hseg & b & mem & -> & Hv').
    unfold DeviceHeaps.allocator_base_ctor. rewrite (proj2 (Z.leb_le _ _)) by lia.
    destruct (heap_index_pos _ Hmax _ _ _ (v_counts _ _ _ _ Hv) Hi) as (_ & _ & Hlt).
    assert (Hi' : heaps (set_segment (Z.of_nat i) b hs (set_memory mem st)) !! i = Some (Some (with_segment hs b)))
      by (apply (put_heap_lookup (set_memory mem st)); [done|by left]).
    match goal with |- context [DeviceHeaps.get_heap _ _ ?s] => assert (Hget : get_heap (Z.of_nat i) s = Ok (with_segment hs b)) end.
    { exact (get_heap_ok _ _ Hmax _ _ _ _ Hv' Hi'). }
    rewrite Hget. mcbn. cbn [alloc_base with_segment]. destruct (alloc_base hs) eqn:Hal; [by left|right]. mcbn.
    eexists _, _. split; [done|]. apply (registered_ok _ i (with_segment hs b) this seg implicit Hv' Hi' Hal Hfresh Hseg).
    destruct Himp as [->|[-> Hu]]; [done|]. split; [done|]. by eexists.
  - right. pose proof (device_inactive _ _ _ _ _ _ Hv Hd Ea) as E.
    assert (Hf : implicit_fits st implicit (-1)) by (destruct Himp as [->|[-> Hu]]; [done|]; split; [done|]; by eexists).
    destruct (kind_enabled (kind_ dev)); cbn [negb].
    + rewrite E. destruct (make_gpu_segment_inactive (kind_ dev) st base size others Hr Ho) as (m & -> & Hm). mcbn.
      destruct m as [seg|s r]; [|by eexists _, _]. destruct (ctor_inactive st this (kind_ dev) seg implicit Hv Hfresh Hm Hf) as (st' & -> & ? & _).
      mcbn. by eexists _, _.
    + destruct (ctor_inactive st this (kind_ dev) null_segment implicit Hv Hfresh Hnull Hf) as (st' & -> & ? & _). mcbn. by eexists _, _.
Qed.

(** * Moves and destruction of allocators *)

Definition alloc_moved (al oth : allocator) (this that : positive) (seg seg' : SA.state) (st : state) : state :=
  put_allocator that (mk_allocator (alloc_kind oth) (-1) seg' None)
    (put_allocator this (mk_allocator (alloc_kind oth) (alloc_idx oth) seg (implicit_device oth)) st).

Lemma alloc_moved_common p st this that al oth seg seg' st' : inv_at p st -> this <> that -> allocators st !! this = Some al ->
  allocators st !! that = Some oth -> alloc_idx al = -1 -> seg_ok seg -> seg_ok seg' ->
  devices st' = devices st -> allocators st' = allocators (alloc_moved al oth this that seg seg' st) ->
  (forall j hs a, heaps st !! j = Some (Some hs) -> alloc_base hs = Some a -> a <> that ->
    exists hs', heaps st' !! j = Some (Some hs') /\ alloc_base hs' = Some a) ->
  (alloc_idx oth = -1 \/ exists (i : nat) hs, alloc_idx oth = Z.of_nat i /\ heaps st' !! i = Some (Some hs) /\ alloc_base hs = Some this) ->
  (forall a al', allocators st' !! a = Some al' -> alloc_ok st' a al') /\
  (forall a a' al1 al2 d, allocators st' !! a = Some al1 -> allocators st' !! a' = Some al2 ->
    implicit_device al1 = Some d -> implicit_device al2 = Some d -> a = a').
Proof using Type.
  intros Hv Hne Hthis Hthat Hal Hseg Hseg' Ed Ea HH Hnew. destruct Hv as [C H D A I M]. split.
  - intros a al'. rewrite Ea. cbn. intros [[<- <-]|[N1 [[<- <-]|[N2 Ha]]%lookup_insert_Some]]%lookup_insert_Some.
    + split; [by left|done|done].
    + split; [done|done|]. pose proof (a_implicit _ _ _ (A _ _ Hthat)) as Hi. unfold implicit_ok in *. cbn. by rewrite Ed.
    + apply (alloc_ok_frame st); [by apply A| |rewrite Ed; by eauto]. intros j hs Hj Hb. by apply (HH j hs a).
  - intros a a' al1 al2 d. rewrite Ea. cbn.
    intros [[<- <-]|[N1 [[<- <-]|[N2 L1]]%lookup_insert_Some]]%lookup_insert_Some
      [[<- <-]|[N3 [[<- <-]|[N4 L2]]%lookup_insert_Some]]%lookup_insert_Some; cbn; try done; intros E1 E2.
    + exfalso. apply N3. by eapply I.
    + exfalso. apply N1. by eapply I.
    + by eapply I.
Qed.

Lemma allocator_move_assign_ok st this that al oth : inv st -> this <> that -> allocators st !! this = Some al ->
  allocators st !! that = Some oth -> alloc_kind al = alloc_kind oth ->
  allocator_move_assign this that st = Aborted \/ exists st', allocator_move_assign this that st = Ok st' /\ inv st'.
Proof using Hmax.
  intros Hv Hne Hthis Hthat Hkind. unfold DeviceHeaps.allocator_move_assign. rewrite bool_decide_eq_false_2 by congruence.
  unfold the_allocator. rewrite Hthis, Hthat. mcbn. destruct (0 <=? alloc_idx al) eqn:Eal; cbn [negb]; [by left|]. mcbn.
  pose proof Hv as [C H D A I M]. pose proof (a_heap _ _ _ (A _ _ Hthis)) as HA. pose proof (a_heap _ _ _ (A _ _ Hthat)) as HB.
  assert (Ei : alloc_idx al = -1) by (destruct HA as [|(i & hs & E & _)]; lia).
  destruct (seg_move (seg_ al) (seg_ oth)) as [->|(seg' & -> & Hseg')]; [apply (A _ _ Hthis)|apply (A _ _ Hthat)|by left|]. mcbn.
  assert (Hseg : seg_ok (seg_ oth)) by apply (A _ _ Hthat).
  assert (Hnothis : forall j hs, heaps st !! j = Some (Some hs) -> alloc_base hs <> Some this).
  { intros j hs Hj Ha. pose proof (h_alloc _ _ _ _ _ _ (H _ _ Hj)) as B. rewrite Ha in B. destruct B as (al2 & L & E & _).
    assert (al2 = al) as -> by congruence. lia. }
  right. destruct HB as [EB|(i & hs & EB & Hi & Hb)].
  - rewrite EB, (eq_refl : (0 <=? -1) = false). eexists. split; [done|]. set (st' := put_allocator _ _ _).
    assert (Est : st' = alloc_moved al oth this that (seg_ oth) seg' st) by (unfold st', alloc_moved; by rewrite EB).
    destruct (alloc_moved_common None st this that al oth (seg_ oth) seg' st' Hv Hne Hthis Hthat Ei Hseg Hseg') as [A' I'];
      [done|by rewrite Est|by eauto|by left|].
    split; [done| | |done|done|by apply (memory_same st)].
    + intros j hs Hj. apply (heap_ok_frame _ _ None None st); [by apply H|done| |done]. intros a al2 Ha L. exists al2. split; [|done]. cbn.
      assert (a <> that); [|rewrite !lookup_insert_ne; [done|..]; [|done]].
      * intros ->. pose proof (h_alloc _ _ _ _ _ _ (H _ _ Hj)) as B. rewrite Ha in B. destruct B as (al3 & L3 & E3 & _).
        assert (al3 = oth) as -> by congruence. lia.
      * intros <-. by eapply Hnothis.
    + intros d dev Hd. apply (device_ok_frame st); [by apply D|by eauto].
  - rewrite EB, (proj2 (Z.leb_le _ _)) by lia. destruct (heap_index_pos _ Hmax _ _ _ C Hi) as (_ & _ & Hlt).
    match goal with |- context [DeviceHeaps.get_heap _ _ ?s] => assert (Hget : get_heap (Z.of_nat i) s = Ok hs) end.
    { exact (get_heap_ok _ _ Hmax _ _ _ _ Hv Hi). }
    rewrite Hget. mcbn. unfold is_ptr. rewrite bool_decide_eq_true_2 by done. mcbn. eexists. split; [done|]. set (st' := put_allocator _ _ _).
    set (hs1 := mk_heap (device_base hs) (Some this) (my_kind hs) (segment_to_free hs) (device_id hs)).
    assert (HL : forall j o, heaps st' !! j = Some o <-> j = i /\ o = Some hs1 \/ j <> i /\ heaps st !! j = Some o).
    { intros j o. match goal with |- context [st'] => unfold st' end. cbn [heaps put_allocator set_allocators put set_heaps].
      exact (put_heap_lookup st i j (Some hs1) o Hlt). }
    destruct (alloc_moved_common None st this that al oth (seg_ oth) seg' st' Hv Hne Hthis Hthat Ei Hseg Hseg') as [A' I'].
    { done. }
    { unfold st', alloc_moved. cbn. by rewrite EB. }
    { intros j hs' a Hj Ha Hna. destruct (decide (j = i)) as [->|Hji]; [congruence|]. exists hs'. split; [apply HL; by right|done]. }
    { right. exists i, hs1. split_and!; [done|apply HL; by left|done]. }
    split; [| | |done|done|].
    + change (shape st') with (shape (put (Z.of_nat i) (Some hs1) st)). rewrite put_shape, list_insert_id; [done|]. by apply shape_lookup in Hi.
    + intros j hs' [[-> [= ->]]|[Hji Hj]]%HL.
      * destruct (H _ _ Hi) as [K G X B N]. split; [done|done|done| |done]. cbn. rewrite Hb in B. destruct B as (al2 & L2 & E2 & K2).
        assert (al2 = oth) as -> by congruence. eexists. rewrite lookup_insert_ne, lookup_insert_eq by done. done.
      * apply (heap_ok_frame _ _ None None st); [by apply H|done| |done]. intros a al2 Ha L. exists al2. split; [|done]. cbn.
        rewrite !lookup_insert_ne; [done| |]; intros <-; [by eapply Hnothis|].
        by pose proof (same_alloc _ _ _ _ _ _ _ _ _ Hv Hj Hi Ha Hb).
    + intros d dev Hd. apply (device_ok_frame st); [by apply D|]. intros j hs' Hj Hd'. destruct (decide (j = i)) as [->|Hji].
      * eexists. split; [apply HL; by left|]. cbn. congruence.
      * exists hs'. split; [apply HL; by right|done].
    + apply (memory_same st); [done|done|]. intros j. change (seg_at st' j) with (seg_at (put (Z.of_nat i) (Some hs1) st) j).
      rewrite seg_at_put by done. case_decide as Hj; [|done]. subst j. unfold seg_at. by rewrite Hi.
Qed.

(** An allocator is destroyed with its device. *)
Lemma allocator_destroy_ok st this al : inv st -> allocators st !! this = Some al ->
  exists st', allocator_destroy this st = Ok st' /\ inv st' /\
    exists al', allocators st' !! this = Some al' /\ alloc_idx al' = -1 /\ seg_ al' = seg_ al.
Proof using Hmax.
  intros Hv Ha. unfold DeviceHeaps.allocator_destroy, the_allocator. rewrite Ha. mcbn.
  destruct (a_heap _ _ _ (v_alloc _ _ _ _ Hv _ _ Ha)) as [E|(i & hs & E & Hi & Hb)].
  - rewrite E, (eq_refl : (0 <=? -1) = false). cbn [negb]. exists st. split; [done|]. split; [done|]. by exists al.
  - rewrite E, (proj2 (Z.leb_le _ _)) by lia. cbn [negb]. rewrite (get_heap_ok _ _ Hmax _ _ _ _ Hv Hi). mcbn.
    unfold is_ptr. rewrite bool_decide_eq_true_2 by done. mcbn.
    destruct (h_device _ _ _ _ _ _ (v_heap _ _ _ _ Hv _ _ Hi)) as (d & Hd & Hdev). rewrite Hd. mcbn. unfold the_device. rewrite Hdev. mcbn.
    assert (Hact : device_active (mk_device (Z.of_nat i) (my_kind hs) (device_id hs)) = true) by (unfold device_active; cbn; lia).
    rewrite Hact. mcbn. destruct (device_destroy_ok st d _ Hv Hdev) as (st' & -> & Hv' & Hc). exists st'. split; [done|]. split; [done|].
    rewrite Hact in Hc. destruct Hc as (i' & hs' & Ei & Hi' & [_ _ _ KA _]). cbn in Ei. assert (i' = i) as -> by lia.
    assert (hs' = hs) as -> by congruence. exists (deactivated al). split; [|done]. apply KA. exists al. by rewrite decide_True by done.
Qed.

Lemma allocator_dtor_ok st this al : inv st -> allocators st !! this = Some al ->
  allocator_dtor this st = Aborted \/ exists st', allocator_dtor this st = Ok st' /\ inv st' /\ allocators st' = delete this (allocators st).
Proof using Hmax.
  intros Hv Ha. unfold DeviceHeaps.allocator_dtor, the_allocator. rewrite Ha. mcbn.
  destruct (a_heap _ _ _ (v_alloc _ _ _ _ Hv _ _ Ha)) as [E|(i & hs & E & Hi & Hb)].
  2:{ left. rewrite E, (proj2 (Z.leb_le _ _)) by lia. done. }
  rewrite E, (eq_refl : (0 <=? -1) = false). cbn [negb]. mcbn. right.
  assert (Hdel : inv (set_allocators (delete this (allocators st)) st)).
  { pose proof Hv as [C H D A I M]. split; [done| | | | |by apply (memory_same st)].
    - intros i hs Hi. apply (heap_ok_frame _ _ None None st); [by apply H|done| |done]. intros a al2 Hb L. exists al2. cbn.
      rewrite lookup_delete_ne; [done|]. intros <-. pose proof (h_alloc _ _ _ _ _ _ (H _ _ Hi)) as B. rewrite Hb in B.
      destruct B as (al3 & L3 & E3 & _). assert (al3 = al) as -> by congruence. lia.
    - intros d dev Hd. apply (device_ok_frame st); [by apply D|by eauto].
    - intros a al2. cbn. intros [_ L]%lookup_delete_Some. apply (alloc_ok_frame st); [by apply A|by eauto|by eauto].
    - intros a a' al1 al2 d. cbn. intros [_ L1]%lookup_delete_Some [_ L2]%lookup_delete_Some. by apply I. }
  destruct (a_seg _ _ _ (v_alloc _ _ _ _ Hv _ _ Ha)) as (_ & l & sz & Hseg). destruct (SA.destroy_frees _ _ _ Hseg) as (h & Hh & _).
  pose proof (a_implicit _ _ _ (v_alloc _ _ _ _ Hv _ _ Ha)) as Himp. unfold implicit_ok in Himp.
  destruct (implicit_device al) as [d|] eqn:Eimp.
  - destruct Himp as (dev & Hd & Edev). unfold device_dtor, the_device. rewrite Hd. mcbn.
    assert (device_active dev = false) as -> by (unfold device_active; rewrite Edev, E; done). cbn [negb]. mcbn.
    unfold DeviceHeaps.release, the_allocator. cbn [allocators set_devices]. rewrite Ha. mcbn. rewrite E, (eq_refl : (0 <=? -1) = false). cbn [negb]. mcbn.
    rewrite Hh. mcbn. eexists. split; [done|]. split; [|done].
    apply (delete_device _ _ None (set_allocators (delete this (allocators st)) st) d Hdel).
    + intros a al2. cbn. intros [Hne L]%lookup_delete_Some E2. apply Hne. by eapply (v_implicit _ _ _ _ Hv).
    + cbn. intros dev'. rewrite Hd. intros [= <-]. congruence.
  - mcbn. unfold DeviceHeaps.release, the_allocator. rewrite Ha. mcbn. rewrite E, (eq_refl : (0 <=? -1) = false). cbn [negb]. mcbn.
    rewrite Hh. mcbn. by eexists.
Qed.

End Allocators.
End DeviceHeapsAllocators.
