(* ===== verification/DeviceHeapsSystem.v ===== *)
(** What a process reaches by creating, moving and destroying devices and their
    allocators ([DeviceHeaps.v]), and the theorems. *)
From S2P Require Import Prelude.
From S2P Require Import DeviceHeaps.
From S2P Require Import DeviceHeapsInvariant.
From S2P Require Import DeviceHeapsCalls.
From S2P Require Import DeviceHeapsAllocators.

Module DeviceHeapsSystem.
Export DeviceHeapsAllocators.DeviceHeapsAllocators.

(** * Calls *)

(** [others] is what the other processes contribute to the reduction of a call. *)
Inductive op :=
| NewDevice (this : positive) (kind id : Z)
| MoveDevice (this other : positive)
| MoveNewDevice (this other : positive)
| DestroyDevice (this : positive)
| DeleteDevice (this : positive)
| NewAllocator (this d : positive) (size base : Z) (others : list Z)
| MakeAllocator (this d : positive) (kind id size base : Z) (others : list Z)
| DefaultAllocator (this : positive) (kind : Z)
| MoveAllocator (this that : positive)
| MoveNewAllocator (this that : positive) (kind : Z)
| DestroyAllocator (this : positive)
| DeleteAllocator (this : positive).

Section System.
Context (max_heaps_cat : Z * Z) (kind_enabled use_gex_mk : Z -> bool) (rank_me : Z).
Context (device_opens : Z -> Z -> bool) (dev_alloc : gset Z -> Z -> Z).
Abbreviation inv := (inv max_heaps_cat use_gex_mk).

Definition done (r : res state) : res (outcome * state) := st ← r; Ok (Done, st).

Definition exec (o : op) (st : state) : res (outcome * state) :=
  match o with
  | NewDevice this kind id => done (device_ctor max_heaps_cat kind_enabled use_gex_mk device_opens this kind id st)
  | MoveDevice this other => done (device_move_assign max_heaps_cat this other st)
  | MoveNewDevice this other => done (device_move_ctor max_heaps_cat this other st)
  | DestroyDevice this => done (device_destroy max_heaps_cat this st)
  | DeleteDevice this => done (device_dtor this st)
  | NewAllocator this d size base others => device_allocator max_heaps_cat kind_enabled rank_me dev_alloc this d size base others st
  | MakeAllocator this d kind id size base others =>
      device_allocator_implicit max_heaps_cat kind_enabled use_gex_mk rank_me device_opens dev_alloc this d kind id size base others st
  | DefaultAllocator this kind => done (allocator_default max_heaps_cat this kind st)
  | MoveAllocator this that => done (allocator_move_assign max_heaps_cat this that st)
  | MoveNewAllocator this that kind => done (allocator_move_ctor max_heaps_cat this that kind st)
  | DestroyAllocator this => done (allocator_destroy max_heaps_cat this st)
  | DeleteAllocator this => done (allocator_dtor max_heaps_cat this st)
  end.

(** What a C++ program can call: objects that exist, new ones at new addresses, types that
    agree; devices that an allocator made for itself are out of reach. *)
Definition allowed (o : op) (st : state) : Prop :=
  match o with
  | NewDevice this kind _ => devices st !! this = None /\ device_kind kind
  | MoveDevice this other => user_device st this /\ user_device st other /\
      exists dev oth, devices st !! this = Some dev /\ devices st !! other = Some oth /\ kind_ dev = kind_ oth
  | MoveNewDevice this other => devices st !! this = None /\ user_device st other /\ is_Some (devices st !! other)
  | DestroyDevice this | DeleteDevice this => user_device st this /\ is_Some (devices st !! this)
  | NewAllocator this d size base others => allocators st !! this = None /\ user_device st d /\ Forall is_u64 others /\
      exists dev, devices st !! d = Some dev /\ request_ok (device_active dev) base size
  | MakeAllocator this d kind id size base others => allocators st !! this = None /\ devices st !! d = None /\ Forall is_u64 others /\
      device_kind kind /\ request_ok (negb (id =? invalid_device_id)) base size
  | DefaultAllocator this _ => allocators st !! this = None
  | MoveAllocator this that => exists al oth, allocators st !! this = Some al /\ allocators st !! that = Some oth /\ alloc_kind al = alloc_kind oth
  | MoveNewAllocator this that kind => allocators st !! this = None /\ exists oth, allocators st !! that = Some oth /\ kind = alloc_kind oth
  | DestroyAllocator this | DeleteAllocator this => is_Some (allocators st !! this)
  end.

Inductive reachable : state -> Prop :=
| reach_init : reachable (init_state max_heaps_cat)
| reach_step o st r st' : reachable st -> allowed o st -> exec o st = Ok (r, st') -> reachable st'.

Context (Hmax : 1 <= max_heaps_cat.1 /\ 0 <= max_heaps_cat.2) (Hvendor : vendor_ok dev_alloc) (Hrank : 0 <= rank_me).

Definition good (r : res (outcome * state)) : Prop := r = Aborted \/ exists o st', r = Ok (o, st') /\ inv st'.

Lemma good_done r : r = Aborted \/ (exists st', r = Ok st' /\ inv st') -> good (done r).
Proof using Type. intros [->|(st' & -> & ?)]; [by left|]. right. by eexists _, _. Qed.

Lemma null_seg_ok : seg_ok null_segment.
Proof using Type. split; [done|]. destruct (SA.init_inv 0 0 1%positive) as (l & ? & _); [lia..|]. by eexists _, _. Qed.

Lemma exec_device_ok o st : inv st -> allowed o st ->
  match o with NewDevice _ _ _ | MoveDevice _ _ | MoveNewDevice _ _ | DestroyDevice _ | DeleteDevice _ => good (exec o st) | _ => True end.
Proof using Hmax.
  intros Hv Ha. destruct o as [this kind id|this other|this other|this|this| | | | | | |]; cbn in Ha; try done; apply good_done.
  - destruct Ha as [Hf Hk]. pose proof (device_ctor_exact _ kind_enabled _ device_opens Hmax st this kind id Hv Hf Hk) as H. cbn in H.
    destruct (id =? _); [destruct H as (st' & ? & ? & _); right; by exists st'|].
    destruct (_ && _ && _); [|by left]. destruct H as (i & st' & ? & ? & _). right. by exists st'.
  - destruct Ha as (Hu & Hu' & dev & oth & Hthis & Hother & Hk). destruct (decide (this = other)) as [->|Hne].
    { right. exists st. split; [|done]. unfold device_move_assign. by rewrite bool_decide_eq_true_2. }
    pose proof (device_move_assign_ok _ _ Hmax st this other dev oth Hv Hu Hu' Hthis Hother Hk Hne) as H.
    destruct (device_active dev); [by left|]. destruct H as (st' & ? & ? & _). right. by exists st'.
  - destruct Ha as (Hf & Hu & oth & Ho). right. by eapply device_move_ctor_ok.
  - destruct Ha as (Hu & dev & Hd). destruct (device_destroy_ok _ _ Hmax st this dev Hv Hd) as (st' & ? & ? & _). right. by exists st'.
  - destruct Ha as (Hu & dev & Hd). destruct (device_dtor_ok _ _ st this dev Hv Hd Hu) as [-> H].
    destruct (device_active dev); [by left|]. right. eexists. split; [done|by apply H].
Qed.

Lemma allocator_move_ctor_ok st this that oth : inv st -> allocators st !! this = None -> allocators st !! that = Some oth ->
  good (exec (MoveNewAllocator this that (alloc_kind oth)) st).
Proof using Hmax.
  intros Hv Hf Ho. apply good_done. unfold allocator_move_ctor, allocator_default.
  destruct (ctor_inactive max_heaps_cat use_gex_mk st this (alloc_kind oth) null_segment None Hv Hf null_seg_ok I) as (st' & -> & Hv' & ->). mcbn.
  assert (this <> that) by congruence. eapply allocator_move_assign_ok; [done|done|done|cbn; by rewrite lookup_insert_eq|cbn; by rewrite lookup_insert_ne|done].
Qed.

Lemma make_allocator_ok st this d kind id size base others : inv st -> allowed (MakeAllocator this d kind id size base others) st ->
  good (exec (MakeAllocator this d kind id size base others) st).
Proof using Hmax Hvendor Hrank.
  intros Hv (Hf & Hd & Ho & Hk & Hr). cbn [exec]. unfold device_allocator_implicit.
  pose proof (device_ctor_exact _ kind_enabled _ device_opens Hmax st d kind id Hv Hd Hk) as H. cbn in H.
  destruct (id =? invalid_device_id); cbn [negb] in Hr.
  - destruct H as (st' & -> & Hv' & ->). mcbn.
    apply (allocator_with_ok _ _ Hmax rank_me dev_alloc Hvendor Hrank kind_enabled _ this d (mk_device (-1) kind id)); try done.
    + cbn. by rewrite lookup_insert_eq.
    + right. split; [done|]. exact (fresh_user _ _ _ _ _ Hv Hd).
  - destruct (_ && _ && _); [|rewrite H; by left]. destruct H as (i & st' & -> & Hv' & Hi & Ea & Ed & Eh). mcbn.
    apply (allocator_with_ok _ _ Hmax rank_me dev_alloc Hvendor Hrank kind_enabled _ this d (mk_device (Z.of_nat i) kind id)); try done.
    + by rewrite Ea.
    + by rewrite Ed, lookup_insert_eq.
    + unfold device_active. cbn [heap_idx_]. by rewrite (proj2 (Z.leb_le _ _)) by lia.
    + right. split; [done|]. intros a al. rewrite Ea. exact (fresh_user _ _ _ _ _ Hv Hd a al).
Qed.

Lemma exec_good o st : inv st -> allowed o st -> good (exec o st).
Proof using Hmax Hvendor Hrank.
  intros Hv Ha. destruct o as [this kind id|this other|this other|this|this|this d size base others|this d kind id size base others
    |this kind|this that|this that kind|this|this]; try exact (exec_device_ok _ _ Hv Ha); cbn in Ha.
  - destruct Ha as (Hf & Hu & Ho & dev & Hd & Hr). by apply (allocator_with_ok _ _ Hmax _ _ Hvendor Hrank _ _ _ _ dev); [..|left].
  - by apply make_allocator_ok.
  - apply good_done. right. destruct (ctor_inactive max_heaps_cat use_gex_mk st this kind null_segment None Hv Ha null_seg_ok I) as (st' & ? & ? & _).
    by exists st'.
  - destruct Ha as (al & oth & Hthis & Hthat & Hk). apply good_done. destruct (decide (this = that)) as [->|Hne].
    + right. exists st. split; [|done]. unfold allocator_move_assign. by rewrite bool_decide_eq_true_2.
    + by eapply allocator_move_assign_ok.
  - destruct Ha as (Hf & oth & Ho & ->). by apply allocator_move_ctor_ok.
  - destruct Ha as [al Hal]. apply good_done. right. destruct (allocator_destroy_ok _ _ Hmax st this al Hv Hal) as (st' & ? & ? & _). by exists st'.
  - destruct Ha as [al Hal]. apply good_done. destruct (allocator_dtor_ok _ _ Hmax st this al Hv Hal) as [?|(st' & ? & ? & _)]; [by left|].
    right. by exists st'.
Qed.

Lemma heaps_reachable_inv st : reachable st -> inv st.
Proof using Hmax Hvendor Hrank.
  induction 1 as [|o st r st' _ IH Ha He]; [by apply init_heaps_ok|]. destruct (exec_good o st IH Ha) as [E|(o' & st2 & E & ?)]; congruence.
Qed.

(** * Free indices *)

Lemma occupied_all l : occupied l <= Z.of_nat (length l) /\ (occupied l <? Z.of_nat (length l)) = existsb (fun b => b) l.
Proof using Type.
  induction l as [|b l [IH1 IH2]]; [done|]. rewrite occupied_cons. cbn [existsb length]. rewrite <- IH2. destruct b; cbn [orb]; (split; [lia|]).
  - apply Z.ltb_lt. lia.
  - destruct (occupied l <? _) eqn:E; [apply Z.ltb_lt in E; apply Z.ltb_lt|apply Z.ltb_ge in E; apply Z.ltb_ge]; lia.
Qed.

Lemma existsb_null (l : list (option heap_state)) : existsb (fun b => b) (is_null <$> l) = existsb is_null l.
Proof using Type. induction l as [|o l IH]; [done|]. cbn. by rewrite <- IH. Qed.

Lemma free_reference st : counts max_heaps_cat (shape st) (heap_count st) ->
  existsb is_null (drop (Z.to_nat max_heaps_cat.1) (heaps st)) = ((heap_count st).2 <? max_heaps_cat.2).
Proof using Hmax.
  intros [Hl _ _ _ Hr]. rewrite <- existsb_null, fmap_drop. fold (shape st). destruct (occupied_all (drop (Z.to_nat max_heaps_cat.1) (shape st))) as [_ <-].
  rewrite length_drop, <- Hr. unfold max_heaps in Hl. f_equal. lia.
Qed.

(** * Theorems *)

(** C28: No sequence of calls on devices and allocators, in whatever order objects move, are
    destroyed and deleted, frees device memory that it does not own, or follows a pointer
    of the table of heaps to an object that is not there. *)
Theorem heaps_safe o st : reachable st -> allowed o st -> exec o st = Aborted \/ exists r st', exec o st = Ok (r, st').
Proof using Hmax Hvendor Hrank.
  intros Hr Ha. destruct (exec_good o st (heaps_reachable_inv _ Hr) Ha) as [?|(r & st' & ? & _)]; [by left|right; by exists r, st'].
Qed.

(** C29: The table of heaps is exact: each entry points to the active device and allocator
    with its index, each active device or allocator is registered there, and the device
    memory that is allocated is that of the active allocators, each its own. *)
Theorem heaps_exact st : reachable st ->
  (forall (i : nat) hs, heaps st !! i = Some (Some hs) -> (0 < i)%nat /\ exists d, device_base hs = Some d /\
    devices st !! d = Some (mk_device (Z.of_nat i) (my_kind hs) (device_id hs))) /\
  (forall d dev, devices st !! d = Some dev -> device_active dev = true -> exists hs,
    heaps st !! Z.to_nat (heap_idx_ dev) = Some (Some hs) /\ device_base hs = Some d) /\
  (forall (i : nat) hs a, heaps st !! i = Some (Some hs) -> alloc_base hs = Some a -> exists al,
    allocators st !! a = Some al /\ alloc_idx al = Z.of_nat i /\ alloc_kind al = my_kind hs) /\
  (forall a al, allocators st !! a = Some al -> 0 <= alloc_idx al -> exists hs,
    heaps st !! Z.to_nat (alloc_idx al) = Some (Some hs) /\ alloc_base hs = Some a) /\
  (forall b, b ∈ device_memory st <-> b <> 0 /\ exists (i : nat) hs a, heaps st !! i = Some (Some hs) /\
    alloc_base hs = Some a /\ segment_to_free hs = b) /\
  (forall (i j : nat) hs hs', heaps st !! i = Some (Some hs) -> heaps st !! j = Some (Some hs') ->
    segment_to_free hs = segment_to_free hs' -> segment_to_free hs <> 0 -> i = j).
Proof using Hmax Hvendor Hrank.
  intros Hr%heaps_reachable_inv. pose proof Hr as [C H D A I [M1 M2]]. split_and!.
  - intros i hs Hi. split; [by apply (heap_index_pos _ Hmax _ _ _ C Hi)|]. apply (H _ _ Hi).
  - intros d dev Hd Ha. destruct (D _ _ Hd) as [E|(i & hs & E & Hi & Hb)]; [unfold device_active in Ha; lia|]. exists hs. by rewrite E, Nat2Z.id.
  - intros i hs a Hi Ha. pose proof (h_alloc _ _ _ _ _ _ (H _ _ Hi)) as B. by rewrite Ha in B.
  - intros a al Hal Hpos. destruct (a_heap _ _ _ (A _ _ Hal)) as [E|(i & hs & E & Hi & Hb)]; [lia|]. exists hs. by rewrite E, Nat2Z.id.
  - intros b. rewrite M1. split; intros [Hb Hx]; (split; [done|]).
    + destruct Hx as [i Hi]. exists i. unfold seg_at in Hi. destruct (heaps st !! i) as [[hs|]|] eqn:E; [|congruence..]. exists hs.
      pose proof (h_alloc _ _ _ _ _ _ (H _ _ E)) as B. destruct (alloc_base hs) as [a|]; [by exists a|]. destruct B as [B|B]; [congruence|done].
    + destruct Hx as (i & hs & a & Hi & _ & E). exists i. unfold seg_at. by rewrite Hi.
  - intros i j hs hs' Hi Hj E E0. apply M2; unfold seg_at; rewrite Hi; [by rewrite Hj|done].
Qed.

(** A device whose kind does not use GASNet can be opened as long as one of the indices
    for such kinds has no heap: indices are used again. *)
Theorem device_open_exact st this kind id : reachable st -> devices st !! this = None -> device_kind kind -> kind_enabled kind = true ->
  use_gex_mk kind = false -> id <> invalid_device_id ->
  let r := device_ctor max_heaps_cat kind_enabled use_gex_mk device_opens this kind id st in
  if device_opens kind id && existsb is_null (drop (Z.to_nat max_heaps_cat.1) (heaps st)) then exists st', r = Ok st' else r = Aborted.
Proof using Hmax Hvendor Hrank.
  intros Hv%heaps_reachable_inv Hf Hk Hen Hg Hid r. pose proof (device_ctor_exact _ kind_enabled _ device_opens Hmax st this kind id Hv Hf Hk) as H.
  rewrite Hg, Hen, (proj2 (Z.eqb_neq _ _) Hid) in H. cbn [cat_of andb] in H. rewrite (free_reference st) by apply Hv.
  rewrite andb_comm in H. destruct (device_opens kind id && _); [|done]. destruct H as (i & st' & ? & _). by exists st'.
Qed.

End System.

(** ** Agreement on failures *)

(** What the processes contribute, in the order of their ranks. *)
Definition contributions (fails : list Z) : list Z := imap (fun r f => reduceval (Z.of_nat r) f) fails.

Lemma reduced_max fails (p : nat) f others : fails !! p = Some f -> reduceval (Z.of_nat p) f :: others ≡ₚ contributions fails ->
  Forall (fun f => 0 <= f < alloc_report_max) fails -> Z.of_nat (length fails) < rank_report_max ->
  exists (w : nat) F, fails !! w = Some F /\ foldl Z.max (reduceval (Z.of_nat p) f) others = F * 2 ^ 20 + Z.of_nat w /\
    forall (q : nat) f', fails !! q = Some f' -> f' * 2 ^ 20 + Z.of_nat q <= F * 2 ^ 20 + Z.of_nat w.
Proof.
  intros Hp Hperm Hf Hn. rewrite Forall_forall in Hf. set (red := foldl _ _ _).
  assert (Hval : forall (q : nat) f', fails !! q = Some f' -> reduceval (Z.of_nat q) f' = f' * 2 ^ 20 + Z.of_nat q).
  { intros q f' Hq. assert (0 <= f' < alloc_report_max) by (apply Hf, list_elem_of_lookup; by exists q).
    pose proof (lookup_lt_Some _ _ _ Hq). rewrite reduceval_eq by lia. lia. }
  destruct (foldl_max (reduceval (Z.of_nat p) f) others) as (H1 & H2 & H3). fold red in H1, H2, H3.
  assert (Hin : red ∈ contributions fails) by (rewrite <- Hperm; apply elem_of_cons; destruct H1; [by left|by right]).
  apply elem_of_lookup_imap in Hin as (w & F & Ered & Hw). exists w, F. rewrite <- (Hval w F Hw). split; [done|]. split; [done|].
  intros q f' Hq. rewrite <- (Hval q f' Hq), <- Ered.
  assert (Hin : reduceval (Z.of_nat q) f' ∈ reduceval (Z.of_nat p) f :: others).
  { rewrite Hperm. apply elem_of_lookup_imap. by exists q, f'. }
  apply elem_of_cons in Hin as [->|Hin]; [done|by apply H3].
Qed.

(** A process that frees what it obtained is as it was. *)
Lemma undone max_heaps_cat kind_enabled use_gex_mk rank_me device_opens dev_alloc kind idx base size st sz b f st1 st2 :
  1 <= max_heaps_cat.1 /\ 0 <= max_heaps_cat.2 -> vendor_ok dev_alloc -> 0 <= rank_me ->
  reachable max_heaps_cat kind_enabled use_gex_mk rank_me device_opens dev_alloc st ->
  (0 < idx -> request_ok true base size /\ exists hs, heaps st !! Z.to_nat idx = Some (Some hs) /\ my_kind hs = kind) ->
  (if idx <=? 0 then Ok (size, base, 0, st) else obtain max_heaps_cat dev_alloc kind idx base size st) = Ok (sz, b, f, st1) ->
  (if idx <=? 0 then Ok st1 else
   hs ← DeviceHeaps.get_heap max_heaps_cat idx st1;
   if segment_to_free hs =? 0 then Ok st1 else
   st ← dev_free (segment_to_free hs) st1; Ok (set_segment idx 0 hs st)) = Ok st2 -> st2 = st.
Proof.
  intros Hmax Hvendor Hrank Hr Hdev Hob Hst2. destruct (idx <=? 0) eqn:Ei; [congruence|]. apply Z.leb_gt in Ei.
  destruct (Hdev Ei) as (Hreq & hs & Hi & <-). apply (heaps_reachable_inv _ _ _ _ _ _ Hmax Hvendor Hrank) in Hr.
  rewrite <- (Z2Nat.id idx) in Hob, Hst2 by lia.
  destruct (obtain_ok _ _ Hmax _ Hvendor _ _ _ _ base size Hr Hi Hreq) as [E|(sz' & b' & f' & b0 & E & Hseg & Hb0 & _)]; [congruence|].
  assert (st1 = set_segment (Z.of_nat (Z.to_nat idx)) b0 hs (set_memory (with_memory b0 (device_memory st)) st)) as -> by congruence.
  pose proof (segment_undone _ _ Hmax st _ hs b0 Hr Hi Hseg Hb0) as Hu. cbn zeta in Hu. congruence.
Qed.

(** C30: All processes agree whether an allocation failed somewhere.  If none did each has its
    segment.  Otherwise each throws, and is as it was before the call: what it had
    obtained is freed, and the table of heaps does not have it.  One that did not fail
    itself reports the largest failure, and of those the one with the highest rank. *)
Theorem failure_agreement max_heaps_cat kind_enabled use_gex_mk device_opens dev_alloc kind idx base size st others fails (p : nat) sz b f st1 m st' :
  1 <= max_heaps_cat.1 /\ 0 <= max_heaps_cat.2 -> vendor_ok dev_alloc ->
  reachable max_heaps_cat kind_enabled use_gex_mk (Z.of_nat p) device_opens dev_alloc st ->
  (0 < idx -> request_ok true base size /\ exists hs, heaps st !! Z.to_nat idx = Some (Some hs) /\ my_kind hs = kind) ->
  (if idx <=? 0 then Ok (size, base, 0, st) else obtain max_heaps_cat dev_alloc kind idx base size st) = Ok (sz, b, f, st1) ->
  fails !! p = Some f -> reduceval (Z.of_nat p) f :: others ≡ₚ contributions fails ->
  Forall (fun f => 0 <= f < alloc_report_max) fails -> Z.of_nat (length fails) < rank_report_max ->
  make_gpu_segment max_heaps_cat (Z.of_nat p) dev_alloc kind idx base size others st = Ok (m, st') ->
  match m with
  | Segment seg => (forall (q : nat) f', fails !! q = Some f' -> f' = 0) /\ seg = SA.segment_allocator b sz 1 /\ st' = st1
  | Throws s r => st' = st /\ exists (w : nat) F, fails !! w = Some F /\ 0 < F /\
      (forall (q : nat) f', fails !! q = Some f' -> f' < F \/ f' = F /\ (q <= w)%nat) /\
      (s, r) = if f =? 0 then (F, Z.of_nat w) else (f, Z.of_nat p)
  end.
Proof.
  intros Hmax Hvendor Hr Hdev Hob Hp Hperm Hf Hn Hm. destruct (reduced_max _ _ _ _ Hp Hperm Hf Hn) as (w & F & Hw & Hred & Hmaxf).
  rewrite Forall_forall in Hf. pose proof (lookup_lt_Some _ _ _ Hw) as Hwn.
  assert (Hpos : forall (q : nat) f', fails !! q = Some f' -> 0 <= f' < alloc_report_max /\ Z.of_nat q < rank_report_max).
  { intros q f' Hq. pose proof (lookup_lt_Some _ _ _ Hq). split; [apply Hf, list_elem_of_lookup; by exists q|lia]. }
  destruct (Hpos _ _ Hw) as [HF HW]. unfold alloc_report_max, rank_report_max in *.
  assert (Hsh : Z.shiftr (F * 2 ^ 20 + Z.of_nat w) 20 = F) by (rewrite shiftr_20, Z.div_add_l by lia; rewrite Z.div_small; lia).
  unfold make_gpu_segment in Hm. rewrite Hob in Hm. cbn [mbind res_bind] in Hm. rewrite Hred, Hsh in Hm.
  destruct (0 <? F) eqn:EF; [apply Z.ltb_lt in EF|apply Z.ltb_ge in EF].
  2:{ injection Hm as <- <-. split; [|done]. intros q f' Hq. destruct (Hpos _ _ Hq). specialize (Hmaxf _ _ Hq). lia. }
  apply bind_ok in Hm as (st2 & Hst2 & Hm). apply bind_ok in Hm as ((s & r) & Hrep & Hm). injection Hm as <- <-.
  split; [exact (undone _ _ _ _ _ _ _ _ _ _ _ _ _ _ _ _ Hmax Hvendor (Nat2Z.is_nonneg p) Hr Hdev Hob Hst2)|].
  exists w, F. split; [done|]. split; [done|]. split.
  { intros q f' Hq. destruct (Hpos _ _ Hq). specialize (Hmaxf _ _ Hq). lia. }
  unfold report in Hrep. destruct (f =? 0); cbn [negb] in Hrep; [|congruence]. rewrite Hsh in Hrep. unfold alloc_report_max, rank_report_max in Hrep.
  rewrite (proj2 (Z.leb_le F _)), (proj2 (Z.eqb_neq F _)) in Hrep by lia. cbn [assert_that mbind res_bind] in Hrep.
  assert (Hland : Z.land (F * 2 ^ 20 + Z.of_nat w) (2 ^ 20 - 1) = Z.of_nat w).
  { change (2 ^ 20 - 1) with (Z.ones 20). rewrite Z.land_ones by lia. rewrite Z.add_comm, Z.mod_add by lia. apply Z.mod_small. lia. }
  rewrite Hland, (proj2 (Z.eqb_neq (Z.of_nat w) _)) in Hrep by lia. by injection Hrep as <- <-.
Qed.

(** ** The search for the largest segment *)

Section Capacity.
Context (dev_alloc : gset Z -> Z -> Z) (mem : gset Z) (cap : Z).
(** With [mem] in use, memory of [cap] bytes can be allocated in one piece. *)
Context (Hvendor : vendor_ok dev_alloc) (Hcap : forall s, dev_alloc mem s = 0 <-> cap < s).

Definition largest_of (size b : Z) : Prop :=
  if b =? 0 then cap < size /\ exists lo, size - 65536 <= lo < size /\ (lo = search_lo \/ lo <= cap)
  else size <= cap /\ (cap < size + 65536 \/ search_hi <= size + 65536).

Lemma search_exact fuel st lo hi size base : device_memory st = with_memory base mem -> base = 0 \/ base ∉ mem ->
  0 < lo < hi -> hi <= 2 ^ 62 -> hi - lo <= 65536 * 2 ^ Z.of_nat fuel ->
  lo = search_lo \/ lo <= cap -> hi = search_hi \/ cap < hi ->
  65536 < hi - lo \/ base = 0 /\ size = hi /\ cap < hi \/ base <> 0 /\ size = lo /\ lo <= cap ->
  exists size' b, search dev_alloc fuel lo hi size base st = Ok (size', b, set_memory (with_memory b mem) st) /\ largest_of size' b.
Proof using Hvendor Hcap.
  revert st lo hi size base. induction fuel as [|fuel IH]; intros st lo hi size base Hmem Hb Hlo Hhi Hf Hl Hh Hs; cbn [search];
    destruct (65536 <? hi - lo) eqn:E; cbn [negb]; (apply Z.ltb_lt in E || apply Z.ltb_ge in E); try (cbn in Hf; lia).
  1, 3: exists size, base; split; [rewrite <- Hmem; by destruct st|]; unfold largest_of;
    destruct Hs as [|[(-> & -> & ?)|(Hb0 & -> & ?)]]; [lia|split; [done|]; exists lo; split; [lia|done]|];
    rewrite (proj2 (Z.eqb_neq _ _)) by done; split; [done|]; destruct Hh; [right|left]; lia.
  assert (exists st1, (if base =? 0 then Ok st else dev_free base st) = Ok st1 /\ st1 = set_memory mem st) as (st1 & -> & ->).
  { unfold with_memory in Hmem. destruct (base =? 0) eqn:Eb; [exists st; split; [done|]; rewrite <- Hmem; by destruct st|].
    eexists. split; [apply dev_free_ok; rewrite Hmem; set_solver|]. rewrite Hmem. f_equal. destruct Hb as [->|Hb]; [done|]. set_solver. }
  mcbn. rewrite (dev_alloc_in_spec _ _ _ mem) by done. set (m := (lo + hi) / 2). set (b := dev_alloc mem m).
  assert (2 * m <= lo + hi < 2 * m + 2) by (pose proof (Z.div_mod (lo + hi) 2); pose proof (Z.mod_pos_bound (lo + hi) 2); lia).
  assert (2 ^ Z.of_nat (S fuel) = 2 * 2 ^ Z.of_nat fuel) by (rewrite Nat2Z.inj_succ, Z.pow_succ_r; lia).
  pose proof (Hvendor mem m) as Hvm. fold b in Hvm. cbn in Hvm. pose proof (Hcap m) as Hc. fold b in Hc.
  destruct (b =? 0) eqn:Eb; [apply Z.eqb_eq in Eb|apply Z.eqb_neq in Eb].
  - apply (IH (set_memory (with_memory b mem) (set_memory mem st)) lo m m b); done || lia.
  - destruct Hvm as [|(V1 & V2 & V3)]; [done|]. assert (m <= cap) by (destruct (decide (cap < m)); [|lia]; exfalso; by apply Eb, Hc).
    apply (IH (set_memory (with_memory b mem) (set_memory mem st)) m hi m b); done || lia || by right.
Qed.

End Capacity.

(** C31: The search for the largest segment ends, and frees what it does not keep.  What it
    keeps is the largest segment, but for 64 KiB.  Yet when the last attempt of the search
    fails it keeps nothing, though a size that is smaller by at most 64 KiB may have
    succeeded before. *)
Theorem largest_exact dev_alloc cap size st : vendor_ok dev_alloc ->
  (forall s, dev_alloc (device_memory st) s = 0 <-> cap < s) ->
  exists size' b, largest dev_alloc size 0 st = Ok (size', b, set_memory (with_memory b (device_memory st)) st) /\ largest_of cap size' b.
Proof.
  intros Hv Hc. apply (search_exact dev_alloc (device_memory st) cap Hv Hc search_fuel st search_lo search_hi size 0);
    [done|by left|done|done|done|by left|by left|by left].
Qed.

(** * A machine with two GPUs *)

Module Example_.
Definition cats : Z * Z := (1, 32).
Definition enabled (kind : Z) : bool := kind =? cuda_device.
Definition no_gex (kind : Z) : bool := false.
Definition opens (kind id : Z) : bool := (0 <=? id) && (id <? 2).
(** A vendor's runtime with 3 GiB for one allocation at a time. *)
Definition cap : Z := 3 * 2 ^ 30.
Definition vendor (mem : gset Z) (s : Z) : Z := if (size mem =? 0)%nat && (s <=? cap) then 0x10000 else 0.

Abbreviation exec := (exec cats enabled no_gex 0 opens vendor).
Abbreviation init := (init_state cats).

Fixpoint run (l : list op) (st : state) : res (list outcome * state) :=
  match l with
  | [] => Ok ([], st)
  | o :: l => '((r, st) : outcome * state) ← exec o st; '((rs, st) : list outcome * state) ← run l st; Ok (r :: rs, st)
  end.

Lemma vendor_good : vendor_ok vendor.
Proof.
  intros mem s b. subst b. unfold vendor, cap. destruct (decide (mem = ∅)) as [->|Hne].
  - rewrite size_empty. cbn [Nat.eqb andb]. destruct (s <=? 3 * 2 ^ 30) eqn:E; [|by left]. apply Z.leb_le in E. right. split; [set_solver|]. lia.
  - left. destruct (size mem =? 0)%nat eqn:E; [|done]. apply Nat.eqb_eq, size_empty_inv in E. by apply leibniz_equiv in E.
Qed.

(** An allocator that was destroyed is inactive; but to assign another allocator to it
    trips the assertion of the segment, which [release] leaves as it was. *)
Example reassign_destroyed :
  run [MakeAllocator 1 1 cuda_device 0 0x10000 0 []; DestroyAllocator 1] init <> Aborted /\
  run [MakeAllocator 1 1 cuda_device 0 0x10000 0 []; DestroyAllocator 1; MakeAllocator 2 2 cuda_device 1 0x10000 0 []; MoveAllocator 1 2] init = Aborted.
Proof. split; vm_compute; done. Qed.

(** With a capacity of 3 GiB, the search for the largest segment ends with a failure and
    the constructor throws; 2 GiB can be allocated. *)
Example largest_throws :
  (exists st, run [MakeAllocator 1 1 cuda_device 0 (2 ^ 64 - 1) 0 []] init = Ok ([Thrown 3221225524 0], st)) /\
  (exists st, run [MakeAllocator 1 1 cuda_device 0 (2 ^ 31) 0 []] init = Ok ([Done], st)).
Proof. split; vm_compute; by eexists. Qed.

(** When the constructor throws, the device that it made stays open and nothing refers
    to it but the table: its index is lost. *)
Example thrown_device_leaks :
  match run [MakeAllocator 1 1 cuda_device 0 (2 ^ 40) 0 []] init with
  | Ok (rs, st) => rs = [Thrown (2 ^ 40) 0] /\ heap_count st = (1, 1) /\ allocators st = ∅ /\
      heaps st !! 1%nat = Some (Some (mk_heap (Some 1%positive) None cuda_device 0 0))
  | _ => False
  end.
Proof. vm_compute. done. Qed.

Lemma init_reachable : reachable cats enabled no_gex 0 opens vendor init.
Proof. apply reach_init. Qed.
End Example_.

Lemma heaps_safe_witness : exists r st', Example_.exec (NewDevice 1 cuda_device 0) Example_.init = Ok (r, st').
Proof.
  destruct (heaps_safe Example_.cats Example_.enabled Example_.no_gex 0 Example_.opens Example_.vendor ltac:(cbn; lia) Example_.vendor_good ltac:(lia)
    (NewDevice 1 cuda_device 0) Example_.init Example_.init_reachable) as [H|H]; [|discriminate H|exact H].
  split; [reflexivity|]. unfold device_kind, cuda_device. lia.
Defined.

(** A device and its allocator *)
Definition one_allocator : res (outcome * state) :=
  Example_.exec (MakeAllocator 1 1 cuda_device 0 0x10000 0 []) Example_.init.

Lemma one_allocator_reachable r st : one_allocator = Ok (r, st) ->
  reachable Example_.cats Example_.enabled Example_.no_gex 0 Example_.opens Example_.vendor st.
Proof.
  intros H. eapply reach_step; [apply reach_init| |exact H]. cbn. split_and!; [done|done|done|unfold device_kind, cuda_device; lia|].
  unfold request_ok. split; [done|]. split; [done|]. left. done.
Qed.

Lemma heaps_exact_witness : match one_allocator with
  | Ok (_, st) => forall b, b ∈ device_memory st <-> b <> 0 /\ exists (i : nat) hs a, heaps st !! i = Some (Some hs) /\
      alloc_base hs = Some a /\ segment_to_free hs = b
  | _ => False
  end.
Proof.
  destruct one_allocator as [[r st]| | |] eqn:E; [|vm_compute in E; discriminate E..].
  destruct (heaps_exact Example_.cats Example_.enabled Example_.no_gex 0 Example_.opens Example_.vendor ltac:(cbn; lia) Example_.vendor_good ltac:(lia)
    st (one_allocator_reachable r st E)) as (_ & _ & _ & _ & H & _). exact H.
Defined.

Lemma device_open_exact_witness : exists st',
  device_ctor Example_.cats Example_.enabled Example_.no_gex Example_.opens 1 cuda_device 1 Example_.init = Ok st'.
Proof.
  exact (device_open_exact Example_.cats Example_.enabled Example_.no_gex 0 Example_.opens Example_.vendor ltac:(cbn; lia) Example_.vendor_good ltac:(lia)
    Example_.init 1 cuda_device 1 Example_.init_reachable eq_refl ltac:(unfold device_kind, cuda_device; lia) eq_refl eq_refl ltac:(done)).
Defined.

(** Three processes; the first has a device and obtains 64 KiB, which it gives back since the
    others fail. *)
Definition one_device : state :=
  match Example_.exec (NewDevice 1 cuda_device 0) Example_.init with Ok (_, st) => st | _ => Example_.init end.

Lemma one_device_reachable : reachable Example_.cats Example_.enabled Example_.no_gex 0 Example_.opens Example_.vendor one_device.
Proof.
  unfold one_device. destruct (Example_.exec (NewDevice 1 cuda_device 0) Example_.init) as [[r st]| | |] eqn:E; [|vm_compute in E; discriminate E..].
  eapply reach_step; [apply reach_init| |exact E]. cbn. split; [done|]. unfold device_kind, cuda_device. lia.
Qed.

Definition obtained : state :=
  match obtain Example_.cats Example_.vendor cuda_device 1 0 0x10000 one_device with Ok (_, st) => st | _ => one_device end.

Lemma failure_agreement_witness : device_memory obtained = {[0x10000]} /\ exists s r st',
  make_gpu_segment Example_.cats 0 Example_.vendor cuda_device 1 0 0x10000 [reduceval 1 5; reduceval 2 5] one_device = Ok (Throws s r, st') /\
  st' = one_device /\ (s, r) = (5, 2).
Proof.
  split; [vm_compute; reflexivity|].
  destruct (make_gpu_segment Example_.cats (Z.of_nat 0) Example_.vendor cuda_device 1 0 0x10000 [reduceval 1 5; reduceval 2 5] one_device)
    as [[m st']| | |] eqn:E; [|vm_compute in E; discriminate E..].
  assert (Hf : Forall (fun f => 0 <= f < alloc_report_max) [0; 5; 5]).
  { repeat (apply Forall_cons; split; [unfold alloc_report_max; lia|]). apply Forall_nil. done. }
  assert (Hd : 0 < 1 -> request_ok true 0 0x10000 /\ exists hs, heaps one_device !! Z.to_nat 1 = Some (Some hs) /\ my_kind hs = cuda_device).
  { intros _. split; [unfold request_ok, is_u64, w64_mod; lia|]. eexists. split; vm_compute; reflexivity. }
  pose proof (failure_agreement Example_.cats Example_.enabled Example_.no_gex Example_.opens Example_.vendor cuda_device 1 0 0x10000 one_device
    [reduceval 1 5; reduceval 2 5] [0; 5; 5] 0 0x10000 0x10000 0 obtained m st' ltac:(cbn; lia) Example_.vendor_good one_device_reachable Hd
    ltac:(vm_compute; reflexivity) eq_refl (reflexivity _) Hf eq_refl E) as H.
  destruct m as [seg|s r]; [exfalso; by specialize (proj1 H 1%nat 5 eq_refl)|]. exists s, r, st'. split; [exact E|].
  destruct H as (-> & w & F & Hw & _ & Hmax & ->). split; [reflexivity|]. destruct (Hmax 2%nat 5 eq_refl) as [HF|[<- HF]];
    destruct w as [|[|[|w]]]; cbn in Hw; try injection Hw as <-; try done; lia.
Defined.

Lemma largest_exact_witness : exists size' b, largest Example_.vendor (2 ^ 64 - 1) 0 Example_.init =
  Ok (size', b, set_memory (with_memory b ∅) Example_.init) /\ largest_of Example_.cap size' b.
Proof.
  apply (largest_exact Example_.vendor Example_.cap (2 ^ 64 - 1) Example_.init Example_.vendor_good).
  intros s. unfold Example_.vendor. cbn [Example_.init device_memory]. rewrite size_empty. cbn [Nat.eqb andb].
  destruct (s <=? Example_.cap) eqn:E; [apply Z.leb_le in E|apply Z.leb_gt in E]; lia.
Defined.

End DeviceHeapsSystem.
