(* ===== verification/GlobalPtr.v ===== *)
(** Global pointers: [global_ptr.hpp], [global_ptr_impl.hpp], [memberof.hpp], and their
    validation, [backend::validate_global_ptr] in [backend/gasnet/runtime.cpp].

    A pointer is a rank, an address at that rank, and, in builds with device memory, the
    index of a heap and a kind of memory.  Its static type, the element type and the kind,
    are arguments of the operations.  Checks are as with [UPCXXI_GPTR_CHECK_ENABLED]: each
    operation validates its operands and its result against what the process knows of the
    segments of all ranks. *)
From S2P Require Import Prelude.
From S2P Require Import Neighborhood.
From S2P Require Import DeviceHeaps.
From S2P Require SegmentAllocator.

Module GlobalPtr.
Module N := Neighborhood.Neighborhood.
Module D := DeviceHeaps.DeviceHeaps.
Module SA := SegmentAllocator.SegmentAllocator.

Definition host : Z := D.host.
Definition any : Z := D.any.

(** * Data *)

(** An element type: [sizeof], and [alignof] or 0 if alignment is not checked. *)
Record ctype := mk_ctype { sizeof : Z; align_of : Z }.

Record global_ptr := mk_gptr { rank_ : Z; raw_ptr_ : Z; heap_idx_ : Z; dynamic_kind_ : Z }.

#[export] Instance global_ptr_eq_dec : EqDecision global_ptr.
Proof. solve_decision. Defined.

(** What a process knows.  [query] is [gex_EP_QueryBoundSegmentNB] of an endpoint and a rank:
    nothing if the answer is not available locally, else base and size. *)
Record env := mk_env {
  initialized : bool; rank_n : Z; rank_me : Z; upc_is_linked : bool;
  shared_heap_base : Z; shared_heap_sz : Z;
  the_tables : N.tables; the_heaps : D.state; query : Z -> Z -> option (Z * Z)
}.

(** [ptrdiff_t] of a word *)
Definition s64 (z : Z) : Z := let z := w64 z in if z <? 2 ^ 63 then z else z - w64_mod.

Section Build.
(** The build: [UPCXXI_MANY_KINDS], [all_ranks_definitely_local], [UPCXXI_GPTR_CHECK_SCALE], the
    number of heaps of both categories, and which kinds are enabled and use GASNet. *)
Context (many_kinds definitely_local : bool) (check_scale : Z).
Context (max_heaps_cat : Z * Z) (kind_enabled use_gex_mk : Z -> bool).

(** A kind that the build does not have is a fatal error. *)
Definition native_gex_mk (k : Z) : res bool :=
  if k =? host then Ok true
  else if ((k =? D.cuda_device) || (k =? D.hip_device) || (k =? D.ze_device)) && kind_enabled k then Ok (use_gex_mk k)
  else Aborted.

Section Process.
Context (e : env).

Definition assert_init : res unit := assert_that (initialized e).
Definition rank_is_local (r : Z) : res bool := N.rank_is_local definitely_local (rank_n e) (N.the_peers (the_tables e)) r.

(** * Validation *)

(** A fatal error *)
Definition fail_if (b : bool) : res unit := assert_that (negb b).

Definition query_bounds (endpoint rank : Z) : res (option (Z * Z)) :=
  match query e endpoint rank with
  | None => Ok None
  | Some (base, size) => _ ← fail_if ((base =? 0) || (size =? 0)); Ok (Some (base, size))
  end.

(** The bounds of the segment of a pointer, if they are known. *)
Definition segment_bounds (rank heap_idx dynamic_kind : Z) : res (option (Z * Z)) :=
  if heap_idx =? 0 then
    if (rank =? rank_me e) && negb (upc_is_linked e) then Ok (Some (shared_heap_base e, shared_heap_sz e))
    else query_bounds 0 rank
  else if rank =? rank_me e then
    hs ← D.get max_heaps_cat heap_idx true (the_heaps e);
    match hs with
    | None => Aborted
    | Some hs =>
        a ← (match D.alloc_base hs with None => Aborted | Some a => Ok a end);
        _ ← fail_if (negb (dynamic_kind =? D.my_kind hs));
        al ← D.the_allocator a (the_heaps e);
        '((base, size) : Z * Z) ← SA.segment_range (D.seg_ al);
        _ ← assert_that (negb (base =? 0) && negb (size =? 0));
        Ok (Some (base, size))
    end
  else
    native ← native_gex_mk dynamic_kind;
    if (native : bool) then query_bounds heap_idx rank else Ok None.

Definition check_bounds (raw : Z) (bounds : option (Z * Z)) : res unit :=
  match bounds with
  | None => Ok tt
  | Some (base, size) =>
      if base =? 0 then Ok tt else
      _ ← assert_that (negb (size =? 0));
      fail_if ((raw <? base) || (w64 (base + size - 1) <? raw))
  end.

Definition bad_heap_idx (Kind heap_idx : Z) : bool :=
  (Kind =? host) && negb (heap_idx =? 0) || negb (Kind =? host) && negb (Kind =? any) && (heap_idx =? 0)
  || (D.max_heaps max_heaps_cat <=? heap_idx).

Definition bad_dynamic_kind (Kind heap_idx dynamic_kind : Z) : bool :=
  negb (D.is_valid_memory_kind dynamic_kind) || (dynamic_kind =? any)
  || negb (Kind =? any) && negb (dynamic_kind =? Kind)
  || negb (eqb (dynamic_kind =? host) (heap_idx =? 0)).

Definition validate_global_ptr (allow_null : bool) (rank raw heap_idx dynamic_kind Kind T_align : Z) : res unit :=
  if negb (initialized e) then Ok tt else
  _ ← assert_that (0 <? rank_n e);
  _ ← assert_that (rank_me e <? rank_n e);
  if raw =? 0 then
    _ ← fail_if (negb (heap_idx =? 0) || negb (rank =? 0));
    fail_if (negb allow_null)
  else
    _ ← fail_if (w64 (rank_n e) <=? w64 rank);
    _ ← fail_if (bad_heap_idx Kind heap_idx);
    _ ← fail_if (bad_dynamic_kind Kind heap_idx dynamic_kind);
    in_scale ← (if rank_n e <=? check_scale then Ok true else rank_is_local rank);
    _ ← (if (in_scale : bool) then bounds ← segment_bounds rank heap_idx dynamic_kind; check_bounds raw bounds else Ok tt);
    fail_if ((1 <? T_align) && negb (raw mod T_align =? 0)).

(** The fields, which are constants in builds without device memory. *)
Definition heap_idx_of (p : global_ptr) : Z := if many_kinds then heap_idx_ p else 0.
Definition dynamic_kind_of (p : global_ptr) : Z := if many_kinds then dynamic_kind_ p else host.

Definition check (allow_null : bool) (T : ctype) (Kind : Z) (p : global_ptr) : res unit :=
  validate_global_ptr allow_null (rank_ p) (raw_ptr_ p) (heap_idx_of p) (dynamic_kind_of p) Kind (align_of T).

(** [UPCXXI_GPTR_CHK], [UPCXXI_GPTR_CHK_NONNULL] *)
Definition CHK := check true.
Definition CHK_NONNULL := check false.

(** * Construction *)

(** The representation; [heap_idx_] is a field of 24 bits and [dynamic_kind_] one of 8. *)
Definition make (rank raw heap_idx dynamic_kind : Z) : global_ptr :=
  mk_gptr rank raw (if many_kinds then heap_idx mod 2 ^ 24 else 0) (if many_kinds then dynamic_kind mod 2 ^ 8 else host).

Definition ctor (T : ctype) (Kind rank raw heap_idx dynamic_kind : Z) : res global_ptr :=
  let p := make rank raw heap_idx dynamic_kind in _ ← CHK T Kind p; Ok p.

Definition null (T : ctype) (Kind : Z) : res global_ptr :=
  p ← ctor T Kind 0 0 0 Kind; _ ← CHK T Kind p; Ok p.

Definition is_null (T : ctype) (Kind : Z) (p : global_ptr) : res bool :=
  _ ← CHK T Kind p; Ok ((heap_idx_of p =? 0) && (raw_ptr_ p =? 0)).

(** The offset constructor: from a pointer to [U], with an offset in bytes. *)
Definition offset_ctor (T U : ctype) (Kind : Z) (other : global_ptr) (offset : Z) : res global_ptr :=
  let p := make (rank_ other) (w64 (raw_ptr_ other + offset)) (heap_idx_of other) (dynamic_kind_of other) in
  _ ← CHK U Kind other;
  null ← is_null U Kind other;
  _ ← assert_that (negb null);
  _ ← CHK_NONNULL T Kind p;
  Ok p.

(** The conversion to a pointer of any kind. *)
Definition to_any (T : ctype) (that : global_ptr) : res global_ptr :=
  p ← ctor T any (rank_ that) (raw_ptr_ that) (heap_idx_of that) (dynamic_kind_of that); _ ← CHK T any p; Ok p.

(** * Queries *)

Definition is_local (T : ctype) (Kind : Z) (p : global_ptr) : res bool :=
  _ ← assert_init;
  _ ← CHK T Kind p;
  _ ← N.assert_valid_definitely_local definitely_local (rank_n e) (N.the_peers (the_tables e));
  if negb ((Kind =? host) || (heap_idx_of p =? 0)) then Ok false
  else if definitely_local || (raw_ptr_ p =? 0) then Ok true
  else rank_is_local (rank_ p).

Definition local (T : ctype) (Kind : Z) (p : global_ptr) : res Z :=
  _ ← assert_init;
  _ ← CHK T Kind p;
  _ ← assert_that ((Kind =? host) || (heap_idx_of p =? 0));
  N.localize_memory definitely_local (rank_n e) (the_tables e) (rank_ p) (raw_ptr_ p).

Definition where_ (T : ctype) (Kind : Z) (p : global_ptr) : res Z := _ ← CHK T Kind p; Ok (rank_ p).

Definition dynamic_kind (T : ctype) (Kind : Z) (p : global_ptr) : res Z :=
  _ ← CHK T Kind p; Ok (if Kind =? any then dynamic_kind_of p else Kind).

(** * Arithmetic *)

Definition with_raw (p : global_ptr) (raw : Z) : global_ptr := mk_gptr (rank_ p) raw (heap_idx_ p) (dynamic_kind_ p).

Definition add_assign (T : ctype) (Kind : Z) (p : global_ptr) (diff : Z) : res global_ptr :=
  _ ← (if negb (diff =? 0) then CHK_NONNULL T Kind p else CHK T Kind p);
  let p := with_raw p (w64 (raw_ptr_ p + diff * sizeof T)) in
  _ ← CHK T Kind p; Ok p.

Definition sub_assign (T : ctype) (Kind : Z) (p : global_ptr) (diff : Z) : res global_ptr :=
  _ ← (if negb (diff =? 0) then CHK_NONNULL T Kind p else CHK T Kind p);
  let p := with_raw p (w64 (raw_ptr_ p - diff * sizeof T)) in
  _ ← CHK T Kind p; Ok p.

(** [operator+], [operator-] with an integer that is converted to [ptrdiff_t]. *)
Definition plus (T : ctype) (Kind : Z) (a : global_ptr) (b : Z) : res global_ptr := add_assign T Kind a (s64 b).
Definition minus (T : ctype) (Kind : Z) (a : global_ptr) (b : Z) : res global_ptr := sub_assign T Kind a (s64 b).

(** [++] and [--], before and after: the result and the new value. *)
Definition pre_incr (T : ctype) (Kind : Z) (p : global_ptr) : res (global_ptr * global_ptr) := p ← plus T Kind p 1; Ok (p, p).
Definition post_incr (T : ctype) (Kind : Z) (old : global_ptr) : res (global_ptr * global_ptr) := p ← plus T Kind old 1; Ok (old, p).
Definition pre_decr (T : ctype) (Kind : Z) (p : global_ptr) : res (global_ptr * global_ptr) := p ← minus T Kind p 1; Ok (p, p).
Definition post_decr (T : ctype) (Kind : Z) (old : global_ptr) : res (global_ptr * global_ptr) := p ← minus T Kind old 1; Ok (old, p).

Definition difference (T : ctype) (Kind : Z) (a b : global_ptr) : res Z :=
  _ ← (if raw_ptr_ a =? raw_ptr_ b then _ ← CHK T Kind a; CHK T Kind b else _ ← CHK_NONNULL T Kind a; CHK_NONNULL T Kind b);
  _ ← assert_that (heap_idx_of a =? heap_idx_of b);
  _ ← assert_that (rank_ a =? rank_ b);
  Ok (Z.quot (s64 (raw_ptr_ a - raw_ptr_ b)) (sizeof T)).

(** * Comparison *)

Definition both {A} (T : ctype) (Kind : Z) (a b : global_ptr) (r : A) : res A := _ ← CHK T Kind a; _ ← CHK T Kind b; Ok r.

Definition eq (T : ctype) (Kind : Z) (a b : global_ptr) : res bool :=
  both T Kind a b ((heap_idx_of a =? heap_idx_of b) && (rank_ a =? rank_ b) && (raw_ptr_ a =? raw_ptr_ b)).
Definition ne (T : ctype) (Kind : Z) (a b : global_ptr) : res bool :=
  both T Kind a b (negb (heap_idx_of a =? heap_idx_of b) || negb (rank_ a =? rank_ b) || negb (raw_ptr_ a =? raw_ptr_ b)).
Definition eq_null (T : ctype) (Kind : Z) (a : global_ptr) : res bool := n ← null T Kind; eq T Kind a n.
Definition ne_null (T : ctype) (Kind : Z) (a : global_ptr) : res bool := n ← null T Kind; ne T Kind a n.

(** The relational operators compare addresses only; [op] is one of those of addresses. *)
Definition compare_op (op : Z -> Z -> bool) (T : ctype) (Kind : Z) (a b : global_ptr) : res bool :=
  both T Kind a b (op (raw_ptr_ a) (raw_ptr_ b)).
Definition compare_op_null (op : Z -> Z -> bool) (T : ctype) (Kind : Z) (a : global_ptr) : res bool :=
  _ ← CHK T Kind a; Ok (op (raw_ptr_ a) 0).
Definition compare_null_op (op : Z -> Z -> bool) (T : ctype) (Kind : Z) (b : global_ptr) : res bool :=
  _ ← CHK T Kind b; Ok (op 0 (raw_ptr_ b)).

(** [std::less] and the like: addresses by [op], then ranks and heaps by [lt]. *)
Definition std_order (op lt : Z -> Z -> bool) (T : ctype) (Kind : Z) (lhs rhs : global_ptr) : res bool :=
  let ans := op (raw_ptr_ lhs) (raw_ptr_ rhs) in
  let ans := ans && (rank_ lhs =? rank_ rhs) in
  let ans := ans || lt (rank_ lhs) (rank_ rhs) in
  let ans := ans && (heap_idx_of lhs =? heap_idx_of rhs) in
  let ans := ans || lt (heap_idx_of lhs) (heap_idx_of rhs) in
  both T Kind lhs rhs ans.
Definition less := std_order Z.ltb Z.ltb.
Definition less_equal := std_order Z.leb Z.ltb.
Definition greater := std_order Z.gtb Z.gtb.
Definition greater_equal := std_order Z.geb Z.gtb.

(** [std::hash] *)
Definition hash (T : ctype) (Kind : Z) (p : global_ptr) : res Z :=
  _ ← CHK T Kind p;
  let b := Z.lor (w64 (Z.shiftl (heap_idx_of p) 32)) (w32 (rank_ p)) in
  let a := raw_ptr_ p in
  Ok (Z.lxor a (w64 (b + 0x9e3779b9 + w64 (Z.shiftl a 6) + Z.shiftr a 2))).

(** * Casts *)

(** [static_pointer_cast], [reinterpret_pointer_cast] and [const_pointer_cast] from [U] to [T];
    [cast] is that of addresses. *)
Definition pointer_cast (cast : Z -> Z) (T U : ctype) (K : Z) (ptr : global_ptr) : res global_ptr :=
  _ ← CHK U K ptr;
  ctor T K (rank_ ptr) (cast (raw_ptr_ ptr)) (heap_idx_of ptr) (dynamic_kind_of ptr).
Definition reinterpret_pointer_cast := pointer_cast (fun raw => raw).

Definition kinds_compatible (ToK FromK : Z) : bool := (ToK =? FromK) || (ToK =? any) || (FromK =? any).

Definition static_kind_cast (T : ctype) (ToK FromK : Z) (p : global_ptr) : res global_ptr :=
  _ ← CHK T FromK p;
  ctor T ToK (rank_ p) (raw_ptr_ p) (heap_idx_of p) (dynamic_kind_of p).

Definition dynamic_kind_cast (T : ctype) (ToK FromK : Z) (p : global_ptr) : res global_ptr :=
  _ ← CHK T FromK p;
  same ← (if ToK =? any then Ok true else k ← dynamic_kind T FromK p; Ok (ToK =? k));
  if (same : bool) then ctor T ToK (rank_ p) (raw_ptr_ p) (heap_idx_of p) (dynamic_kind_of p) else null T ToK.

(** * Conversion of local pointers *)

Definition to_global_ptr (T : ctype) (p : Z) : res global_ptr :=
  _ ← assert_init;
  if p =? 0 then null T host
  else
    '((rank, raw) : Z * Z) ← N.globalize_memory (the_tables e) p;
    ctor T host rank raw 0 host.

Definition try_global_ptr (T : ctype) (p : Z) : res global_ptr :=
  _ ← assert_init;
  '((rank, raw) : Z * Z) ← (if p =? 0 then Ok (0, 0) else N.globalize_memory_otherwise (the_tables e) p (0, 0));
  ctor T host rank raw 0 host.

(** * Members *)

(** [UPCXXI_DECAYED_GP]: a pointer to a member of type [M] becomes one to its elements [E]. *)
Definition decay_array_gp (E M : ctype) (Kind : Z) (gp : global_ptr) : res global_ptr := reinterpret_pointer_cast E M Kind gp.

(** [upcxx_memberof], and the variant for other layouts *)
Definition upcxx_memberof (E M U : ctype) (Kind : Z) (gp : global_ptr) (offset : Z) : res global_ptr :=
  _ ← assert_init;
  p ← offset_ctor M U Kind gp offset;
  decay_array_gp E M Kind p.

(** The pointer that [memberof_general] computes where the object is; [getter] takes the
    address of an object to that of its member. *)
Definition member_at_owner (getter : Z -> Z) (E M : ctype) (Kind : Z) (gptr : global_ptr) : res global_ptr :=
  p ← ctor M Kind (rank_ gptr) (getter (raw_ptr_ gptr)) (heap_idx_of gptr) Kind;
  decay_array_gp E M Kind p.

(** A ready future, or an RPC to the owner, which computes [member_at_owner]. *)
Inductive member := Ready (p : global_ptr) | AskOwner (rank : Z).

Definition member_standard (getter : Z -> Z) (E M : ctype) (Kind : Z) (gptr : global_ptr) : res member :=
  p ← member_at_owner getter E M Kind gptr; Ok (Ready p).

Definition member_general (uniform_local_vtables : bool) (getter : Z -> Z) (E M U : ctype) (Kind : Z) (gptr : global_ptr) : res member :=
  if rank_ gptr =? rank_me e then member_standard getter E M Kind gptr else
  direct ← (if uniform_local_vtables then
              k ← dynamic_kind U Kind gptr;
              if k =? host then is_local U Kind gptr else Ok false
            else Ok false);
  if (direct : bool) then
    lp ← local U Kind gptr;
    let mbr := getter lp in
    p ← offset_ctor M U Kind gptr (s64 (mbr - lp));
    p ← decay_array_gp E M Kind p;
    Ok (Ready p)
  else Ok (AskOwner (rank_ gptr)).

Definition memberof_general (standard_layout uniform_local_vtables : bool) (getter : Z -> Z) (E M U : ctype) (Kind : Z) (gptr : global_ptr)
    : res member :=
  _ ← assert_init;
  _ ← CHK U Kind gptr;
  null ← is_null U Kind gptr;
  _ ← assert_that (negb null);
  if standard_layout then member_standard getter E M Kind gptr
  else member_general uniform_local_vtables getter E M U Kind gptr.

End Process.
End Build.
End GlobalPtr.
