(* ===== verification/GlobalPtrLaws.v ===== *)
(** What global pointers promise ([GlobalPtr.v]): the order of the comparators, arithmetic,
    when a pointer is valid, conversion to local pointers and back, and members. *)
From S2P Require Import Prelude.
From S2P Require Import Neighborhood.
From S2P Require Import DeviceHeaps.
From S2P Require Import GlobalPtr.

Module GlobalPtrLaws.
Export GlobalPtr.GlobalPtr.

Section Laws.
Context (many_kinds definitely_local : bool) (check_scale : Z).
Context (max_heaps_cat : Z * Z) (kind_enabled use_gex_mk : Z -> bool).
Context (e : env).

Abbreviation heap_idx_of := (heap_idx_of many_kinds).
Abbreviation dynamic_kind_of := (dynamic_kind_of many_kinds).
Abbreviation validate := (validate_global_ptr definitely_local check_scale max_heaps_cat kind_enabled use_gex_mk e).
Abbreviation check := (check many_kinds definitely_local check_scale max_heaps_cat kind_enabled use_gex_mk e).
Abbreviation CHK := (CHK many_kinds definitely_local check_scale max_heaps_cat kind_enabled use_gex_mk e).
Abbreviation CHK_NONNULL := (CHK_NONNULL many_kinds definitely_local check_scale max_heaps_cat kind_enabled use_gex_mk e).
Abbreviation less := (less many_kinds definitely_local check_scale max_heaps_cat kind_enabled use_gex_mk e).
Abbreviation less_equal := (less_equal many_kinds definitely_local check_scale max_heaps_cat kind_enabled use_gex_mk e).
Abbreviation greater := (greater many_kinds definitely_local check_scale max_heaps_cat kind_enabled use_gex_mk e).
Abbreviation greater_equal := (greater_equal many_kinds definitely_local check_scale max_heaps_cat kind_enabled use_gex_mk e).
Abbreviation eq := (eq many_kinds definitely_local check_scale max_heaps_cat kind_enabled use_gex_mk e).
Abbreviation ne := (ne many_kinds definitely_local check_scale max_heaps_cat kind_enabled use_gex_mk e).
Abbreviation compare_op := (compare_op many_kinds definitely_local check_scale max_heaps_cat kind_enabled use_gex_mk e).
Abbreviation hash := (hash many_kinds definitely_local check_scale max_heaps_cat kind_enabled use_gex_mk e).
Abbreviation plus := (plus many_kinds definitely_local check_scale max_heaps_cat kind_enabled use_gex_mk e).
Abbreviation minus := (minus many_kinds definitely_local check_scale max_heaps_cat kind_enabled use_gex_mk e).
Abbreviation difference := (difference many_kinds definitely_local check_scale max_heaps_cat kind_enabled use_gex_mk e).

(** * Order *)

(** The order of heaps, then of ranks, then of addresses. *)
Definition key_lt (a b : global_ptr) : bool :=
  (heap_idx_of a <? heap_idx_of b) || (heap_idx_of a =? heap_idx_of b) &&
    ((rank_ a <? rank_ b) || (rank_ a =? rank_ b) && (raw_ptr_ a <? raw_ptr_ b)).

Definition key (a : global_ptr) : Z * Z * Z := (heap_idx_of a, rank_ a, raw_ptr_ a).

Definition valid (T : ctype) (Kind : Z) (p : global_ptr) : Prop := CHK T Kind p = Ok tt.

Lemma both_valid {A} T K a b (r : A) : valid T K a -> valid T K b ->
  both many_kinds definitely_local check_scale max_heaps_cat kind_enabled use_gex_mk e T K a b r = Ok r.
Proof using Type. unfold valid, both. by intros -> ->. Qed.

Lemma key_lt_spec a b : key_lt a b = true <-> heap_idx_of a < heap_idx_of b \/ heap_idx_of a = heap_idx_of b /\
  (rank_ a < rank_ b \/ rank_ a = rank_ b /\ raw_ptr_ a < raw_ptr_ b).
Proof using Type. unfold key_lt. rewrite !orb_true_iff, !andb_true_iff, !orb_true_iff, !andb_true_iff. lia. Qed.

Ltac orders := apply Bool.eq_iff_eq_true;
  rewrite ?negb_true_iff, <- ?not_true_iff_false, ?andb_true_iff, ?negb_true_iff, <- ?not_true_iff_false, ?key_lt_spec,
    ?orb_true_iff, ?andb_true_iff, ?orb_true_iff, ?andb_true_iff; lia.

Lemma orders_of_key T K a b : valid T K a -> valid T K b ->
  less T K a b = Ok (key_lt a b) /\ less_equal T K a b = Ok (negb (key_lt b a)) /\
  greater T K a b = Ok (key_lt b a) /\ greater_equal T K a b = Ok (negb (key_lt a b)) /\
  eq T K a b = Ok (negb (key_lt a b) && negb (key_lt b a)) /\ ne T K a b = Ok (key_lt a b || key_lt b a).
Proof using Type.
  intros Ha Hb. unfold GlobalPtr.less, GlobalPtr.less_equal, GlobalPtr.greater, GlobalPtr.greater_equal, std_order, GlobalPtr.eq, GlobalPtr.ne.
  rewrite !both_valid by done. split_and!; f_equal.
  all: apply Bool.eq_iff_eq_true;
    repeat first [rewrite orb_true_iff|rewrite andb_true_iff|rewrite negb_true_iff|rewrite <- not_true_iff_false|rewrite key_lt_spec]; lia.
Qed.

(** C32: The comparators of the standard library are one total order of valid pointers, by
    heap, rank and address, and agree with [==] and [!=]; pointers that are equal have the
    same hash.  The operators are the same order on pointers to one heap of one rank. *)
Theorem comparators_total T K a b c : valid T K a -> valid T K b -> valid T K c ->
  (exists lt eq_ : bool, less T K a b = Ok lt /\ eq T K a b = Ok eq_ /\ ne T K a b = Ok (negb eq_) /\
    less_equal T K a b = Ok (lt || eq_) /\ greater T K b a = Ok lt /\ greater_equal T K b a = Ok (lt || eq_) /\
    less T K b a = Ok (negb lt && negb eq_) /\ (eq_ = true <-> key a = key b) /\
    (eq_ = true -> hash T K a = hash T K b) /\
    (heap_idx_of a = heap_idx_of b -> rank_ a = rank_ b ->
      compare_op Z.ltb T K a b = Ok lt /\ compare_op Z.leb T K a b = Ok (lt || eq_))) /\
  (less T K a b = Ok true -> less T K b c = Ok true -> less T K a c = Ok true) /\
  less T K a a = Ok false.
Proof using Type.
  intros Ha Hb Hc. destruct (orders_of_key T K a b Ha Hb) as (L & LE & G & GE & E & NE).
  destruct (orders_of_key T K b a Hb Ha) as (L' & LE' & G' & GE' & _). split; [|split].
  - exists (key_lt a b), (negb (key_lt a b) && negb (key_lt b a)). rewrite L, E, NE, LE, G', GE', L'.
    assert (Hasym : key_lt a b = true -> key_lt b a = true -> False) by (rewrite !key_lt_spec; lia).
    assert (Heq : negb (key_lt a b) && negb (key_lt b a) = true <-> key a = key b).
    { rewrite andb_true_iff, !negb_true_iff, <- !not_true_iff_false, !key_lt_spec. unfold key. split; [|by intros [= -> -> ->]; lia].
      intros [H1 H2]. assert (heap_idx_of a = heap_idx_of b /\ rank_ a = rank_ b /\ raw_ptr_ a = raw_ptr_ b) as (-> & -> & ->) by lia. done. }
    split_and!; try done; try (by destruct (key_lt a b), (key_lt b a); auto; exfalso; auto).
    + intros [= E1 E2 E3]%Heq. unfold GlobalPtr.hash. unfold valid in Ha, Hb. rewrite Ha, Hb. mcbn. by rewrite E1, E2, E3.
    + intros E1 E2. unfold GlobalPtr.compare_op. rewrite !both_valid by done. split; f_equal; apply Bool.eq_iff_eq_true;
        repeat first [rewrite orb_true_iff|rewrite andb_true_iff|rewrite negb_true_iff|rewrite <- not_true_iff_false|rewrite key_lt_spec]; lia.
  - destruct (orders_of_key T K b c Hb Hc) as (Lbc & _). destruct (orders_of_key T K a c Ha Hc) as (Lac & _).
    rewrite L, Lbc, Lac. intros [= H1] [= H2]. f_equal. rewrite key_lt_spec in *. lia.
  - destruct (orders_of_key T K a a Ha Ha) as (-> & _). f_equal. apply not_true_iff_false. rewrite key_lt_spec. lia.
Qed.

(** * Arithmetic *)

Lemma check_nonnull T K p : raw_ptr_ p <> 0 -> CHK_NONNULL T K p = CHK T K p.
Proof using Type.
  intros H. unfold GlobalPtr.CHK_NONNULL, GlobalPtr.CHK, GlobalPtr.check, validate_global_ptr. by rewrite (proj2 (Z.eqb_neq _ _) H).
Qed.

Lemma s64_small d : - 2 ^ 63 <= d < 2 ^ 63 -> s64 d = d.
Proof using Type.
  intros H. unfold s64. destruct (decide (0 <= d)).
  - rewrite w64_small by (unfold is_u64, w64_mod; lia). by rewrite (proj2 (Z.ltb_lt _ _)) by lia.
  - replace (w64 d) with (d + w64_mod); [rewrite (proj2 (Z.ltb_ge _ _)) by (unfold w64_mod; lia); lia|].
    symmetry. rewrite <- (w64_wrap_plus _ 1), Z.mul_1_l. apply w64_small. unfold is_u64, w64_mod. lia.
Qed.

Lemma s64_w64 d : s64 (w64 d) = s64 d.
Proof using Type. unfold s64. by rewrite w64_idem. Qed.

Lemma nonnull_valid T K p : CHK_NONNULL T K p = Ok tt -> valid T K p.
Proof using Type.
  unfold valid, GlobalPtr.CHK_NONNULL, GlobalPtr.CHK, GlobalPtr.check, validate_global_ptr. destruct (negb (initialized e)); [done|].
  intros H. apply bind_ok in H as ([] & -> & H). mcbn. apply bind_ok in H as ([] & -> & H). mcbn.
  destruct (raw_ptr_ p =? 0); [|done]. apply bind_ok in H as ([] & -> & H). done.
Qed.

Lemma with_raw_raw p x : with_raw (with_raw p x) (raw_ptr_ p) = p.
Proof using Type. by destruct p. Qed.

Lemma plus_ok T K p d q : - 2 ^ 63 <= d < 2 ^ 63 -> plus T K p d = Ok q ->
  valid T K p /\ valid T K q /\ (d <> 0 -> CHK_NONNULL T K p = Ok tt) /\ q = with_raw p (w64 (raw_ptr_ p + d * sizeof T)).
Proof using Type.
  intros Hd H. unfold GlobalPtr.plus, add_assign in H. rewrite (s64_small d Hd) in H.
  apply bind_ok in H as ([] & Hp & H). apply bind_ok in H as ([] & Hq & H). injection H as <-.
  destruct (d =? 0) eqn:E; cbn [negb] in Hp.
  - apply Z.eqb_eq in E. done.
  - split_and!; [by apply nonnull_valid|done|done|done].
Qed.

Lemma offset_small T d : 0 < sizeof T -> - 2 ^ 63 < d * sizeof T < 2 ^ 63 -> - 2 ^ 63 <= d < 2 ^ 63 /\ - 2 ^ 63 <= - d < 2 ^ 63.
Proof using Type. intros HT Hd. nia. Qed.

(** A pointer that moved to another place is at another address. *)
Lemma offset_same raw k : is_u64 raw -> - 2 ^ 63 < k < 2 ^ 63 -> w64 (raw + k) = raw -> k = 0.
Proof using Type.
  intros Hr Hk H. assert (H' : w64 (raw + k) = w64 raw) by (rewrite H; symmetry; by apply w64_small).
  apply mod_eq_diff in H' as [q Hq]; [|done]. unfold w64_mod in Hq. lia.
Qed.

(** Arithmetic is exact: what a pointer moves by is its difference to where it was, and
    moving it back gives it back. *)
Theorem arithmetic_exact T K p d q : 0 < sizeof T -> is_u64 (raw_ptr_ p) -> - 2 ^ 63 < d * sizeof T < 2 ^ 63 ->
  plus T K p d = Ok q -> raw_ptr_ q <> 0 \/ d = 0 ->
  difference T K q p = Ok d /\ difference T K p q = Ok (- d) /\ minus T K q d = Ok p /\ minus T K p (- d) = Ok q /\
  heap_idx_of q = heap_idx_of p /\ rank_ q = rank_ p.
Proof using Type.
  intros HT Hr Hd Hplus Hq. destruct (offset_small T d HT Hd) as [Hd1 Hd2].
  destruct (plus_ok T K p d q Hd1 Hplus) as (Vp & Vq & Np & E). assert (Er : raw_ptr_ q = w64 (raw_ptr_ p + d * sizeof T)) by (by subst q).
  assert (Nq : d <> 0 -> CHK_NONNULL T K q = Ok tt) by (intros ?; destruct Hq; [by rewrite check_nonnull|done]).
  assert (Hsame : raw_ptr_ q = raw_ptr_ p -> d = 0) by (rewrite Er; intros [H|H]%offset_same%Z.mul_eq_0; done || lia).
  assert (Hf : heap_idx_of q = heap_idx_of p /\ rank_ q = rank_ p) by (by subst q). destruct Hf as [Hf1 Hf2].
  assert (Hdiff : s64 (raw_ptr_ q - raw_ptr_ p) = d * sizeof T).
  { rewrite Er, <- s64_w64, w64_sub_l, s64_w64. replace (_ - _) with (d * sizeof T) by lia. apply s64_small. lia. }
  assert (Hdiff' : s64 (raw_ptr_ p - raw_ptr_ q) = (- d) * sizeof T).
  { rewrite Er, <- s64_w64, w64_sub_r, s64_w64. replace (_ - _) with ((- d) * sizeof T) by lia. apply s64_small. lia. }
  assert (Hback : with_raw q (w64 (raw_ptr_ q - d * sizeof T)) = p).
  { rewrite Er, w64_sub_l. replace (_ - _) with (raw_ptr_ p) by lia. rewrite w64_small by done. subst q. apply with_raw_raw. }
  unfold valid in Vp, Vq. split_and!; try done.
  - unfold GlobalPtr.difference. destruct (raw_ptr_ q =? raw_ptr_ p) eqn:E0.
    + rewrite Vq. mcbn. rewrite Vp. mcbn. rewrite Hf1, Hf2, !Z.eqb_refl. mcbn. rewrite Hdiff, Z.quot_mul by lia. done.
    + assert (d <> 0) by (intros ->; rewrite Z.mul_0_l, Z.add_0_r, w64_small in Er by done; lia).
      rewrite Nq, Np by done. mcbn. rewrite Hf1, Hf2, !Z.eqb_refl. mcbn. rewrite Hdiff, Z.quot_mul by lia. done.
  - unfold GlobalPtr.difference. destruct (raw_ptr_ p =? raw_ptr_ q) eqn:E0.
    + rewrite Vq, Vp. mcbn. rewrite Hf1, Hf2, !Z.eqb_refl. mcbn. rewrite Hdiff', Z.quot_mul by lia. done.
    + assert (d <> 0) by (intros ->; rewrite Z.mul_0_l, Z.add_0_r, w64_small in Er by done; lia).
      rewrite Np, Nq by done. mcbn. rewrite Hf1, Hf2, !Z.eqb_refl. mcbn. rewrite Hdiff', Z.quot_mul by lia. done.
  - unfold GlobalPtr.minus, sub_assign. rewrite (s64_small d Hd1), Hback.
    destruct (d =? 0) eqn:E0; cbn [negb]; [rewrite Vq|rewrite Nq by lia]; mcbn; by rewrite Vp.
  - unfold GlobalPtr.minus, sub_assign. rewrite (s64_small (- d)) by lia.
    replace (raw_ptr_ p - - d * sizeof T) with (raw_ptr_ p + d * sizeof T) by lia. rewrite <- E.
    destruct (- d =? 0) eqn:E0; cbn [negb]; [rewrite Vp|rewrite Np by lia]; mcbn; by rewrite Vq.
Qed.

(** * Validity *)

Abbreviation segment_bounds := (segment_bounds max_heaps_cat kind_enabled use_gex_mk e).
Abbreviation null := (null many_kinds definitely_local check_scale max_heaps_cat kind_enabled use_gex_mk e).
Abbreviation to_global_ptr := (to_global_ptr many_kinds definitely_local check_scale max_heaps_cat kind_enabled use_gex_mk e).
Abbreviation try_global_ptr := (try_global_ptr many_kinds definitely_local check_scale max_heaps_cat kind_enabled use_gex_mk e).
Abbreviation local := (local many_kinds definitely_local check_scale max_heaps_cat kind_enabled use_gex_mk e).
Abbreviation is_local := (is_local many_kinds definitely_local check_scale max_heaps_cat kind_enabled use_gex_mk e).
Abbreviation where_ := (where_ many_kinds definitely_local check_scale max_heaps_cat kind_enabled use_gex_mk e).
Abbreviation host_ptr := (fun rank raw => mk_gptr rank raw 0 host).

(** What a process knows of itself. *)
Record process_ok : Prop := {
  p_init : initialized e = true;
  p_ranks : 0 <= rank_me e < rank_n e /\ rank_n e < 2 ^ 31;
  p_heaps : 1 <= max_heaps_cat.1 /\ 0 <= max_heaps_cat.2
}.

Lemma host_fields rank raw : heap_idx_of (host_ptr rank raw) = 0 /\ dynamic_kind_of (host_ptr rank raw) = host.
Proof using Type. unfold GlobalPtr.heap_idx_of, GlobalPtr.dynamic_kind_of. by destruct many_kinds. Qed.

Lemma make_host rank raw : make many_kinds rank raw 0 host = host_ptr rank raw.
Proof using Type. unfold make. by destruct many_kinds. Qed.

Definition aligned (T : ctype) (raw : Z) : bool := (align_of T <=? 1) || (raw mod align_of T =? 0).

Lemma fail_aligned T raw : fail_if ((1 <? align_of T) && negb (raw mod align_of T =? 0)) = if aligned T raw then Ok tt else Aborted.
Proof using Type.
  unfold fail_if, aligned. destruct (1 <? align_of T) eqn:E1, (align_of T <=? 1) eqn:E2; try (exfalso; lia); cbn [andb orb negb]; [|done].
  by destruct (_ =? 0).
Qed.

Lemma host_heap_ok : process_ok -> bad_heap_idx max_heaps_cat host 0 = false /\ bad_dynamic_kind host 0 host = false.
Proof using Type.
  intros [_ _ Hm]. split; [|done]. unfold bad_heap_idx, D.max_heaps. rewrite (proj2 (Z.leb_gt _ _)) by lia. done.
Qed.

Lemma check_null allow_null T rank : process_ok -> check allow_null T host (host_ptr rank 0) = if (rank =? 0) && allow_null then Ok tt else Aborted.
Proof using Type.
  intros [Hi Hr Hm]. unfold GlobalPtr.check, validate_global_ptr. destruct (host_fields rank 0) as [-> ->]. rewrite Hi. cbn [negb raw_ptr_ rank_].
  rewrite (proj2 (Z.ltb_lt 0 _)), (proj2 (Z.ltb_lt (rank_me e) _)) by lia. mcbn. rewrite Z.eqb_refl. cbn [orb negb].
  destruct (rank =? 0); [|done]. by destruct allow_null.
Qed.

Lemma rank_range rank : process_ok -> - 2 ^ 31 <= rank < 2 ^ 31 -> (w64 (rank_n e) <=? w64 rank) = negb ((0 <=? rank) && (rank <? rank_n e)).
Proof using Type.
  intros [_ Hr _] Hk. rewrite (w64_small (rank_n e)) by (unfold is_u64, w64_mod; lia). destruct (0 <=? rank) eqn:E; cbn [andb negb].
  - rewrite w64_small by (unfold is_u64, w64_mod; lia). apply Z.leb_le in E. destruct (rank <? rank_n e) eqn:E2; cbn [negb]; lia.
  - assert (w64 rank = rank + w64_mod) as ->; [|unfold w64_mod; lia].
    rewrite <- (w64_wrap_plus _ 1), Z.mul_1_l. apply w64_small. unfold is_u64, w64_mod. lia.
Qed.

(** A pointer to host memory passes the check if it is null, or if its rank exists and
    its address is in the shared segment there and aligned; and only then. *)
Theorem validity_exact allow_null T rank raw base size : process_ok -> - 2 ^ 31 <= rank < 2 ^ 31 -> is_u64 raw -> rank_n e <= check_scale ->
  (0 <= rank < rank_n e -> segment_bounds rank 0 host = Ok (Some (base, size))) -> 0 < base -> 0 < size -> base + size <= w64_mod ->
  check allow_null T host (host_ptr rank raw) =
    if raw =? 0 then if (rank =? 0) && allow_null then Ok tt else Aborted
    else if (0 <=? rank) && (rank <? rank_n e) && ((base <=? raw) && (raw <? base + size)) && aligned T raw then Ok tt else Aborted.
Proof using Type.
  intros Hp Hrank Hraw Hscale Hb Hb0 Hs0 Hsum. destruct (raw =? 0) eqn:E0.
  { apply Z.eqb_eq in E0. subst raw. by apply check_null. }
  unfold GlobalPtr.check, validate_global_ptr. destruct (host_fields rank raw) as [-> ->]. cbn [raw_ptr_ rank_]. rewrite E0, (p_init Hp). cbn [negb].
  destruct (p_ranks Hp) as [Hr1 Hr2]. rewrite (proj2 (Z.ltb_lt 0 _)), (proj2 (Z.ltb_lt (rank_me e) _)) by lia. mcbn.
  rewrite (rank_range rank Hp Hrank).
  destruct ((0 <=? rank) && (rank <? rank_n e)) eqn:Er; [|done]. apply andb_true_iff in Er. cbn [negb andb].
  change (fail_if false) with (Ok tt). mcbn.
  destruct (host_heap_ok Hp) as [-> ->]. change (fail_if false) with (Ok tt). mcbn. rewrite (proj2 (Z.leb_le _ _) Hscale). mcbn.
  rewrite Hb by lia. mcbn. unfold check_bounds. rewrite (proj2 (Z.eqb_neq base 0)), (proj2 (Z.eqb_neq size 0)) by lia. mcbn.
  rewrite fail_aligned. unfold fail_if. rewrite w64_small by (unfold is_u64; lia).
  assert (negb ((raw <? base) || (base + size - 1 <? raw)) = (base <=? raw) && (raw <? base + size)) as ->.
  { apply Bool.eq_iff_eq_true. rewrite negb_true_iff, orb_false_iff, andb_true_iff. lia. }
  destruct (_ && (raw <? base + size)); [|done]. mcbn. by destruct (aligned T raw).
Qed.

(** * Local pointers *)

(** The segments of the neighborhood, and what GASNet says of their bounds. *)
Record memory_ok (l : list N.segment) : Prop := {
  mo_process : process_ok;
  mo_tables : the_tables e = N.sorted_tables (N.the_peers (the_tables e)) l;
  mo_layout : N.layout (N.the_peers (the_tables e)) l;
  mo_peers : 0 <= N.pshm_peer_lb (N.the_peers (the_tables e)) /\ N.pshm_peer_ub (N.the_peers (the_tables e)) <= rank_n e;
  mo_constant : N.constant_ok definitely_local (rank_n e) (N.the_peers (the_tables e));
  mo_bounds : forall (p : nat) s, l !! p = Some s -> segment_bounds (N.pshm_peer_lb (N.the_peers (the_tables e)) + Z.of_nat p) 0 host =
    Ok (Some (N.owner_vbase s, N.seg_size s))
}.

Abbreviation lb := (N.pshm_peer_lb (N.the_peers (the_tables e))).

Lemma peer_rank l (p : nat) s : memory_ok l -> l !! p = Some s -> 0 <= lb + Z.of_nat p < rank_n e /\ lb + Z.of_nat p < N.pshm_peer_ub (N.the_peers (the_tables e)).
Proof using Type.
  intros M Hp. pose proof (lookup_lt_Some _ _ _ Hp). destruct (mo_peers l M). destruct (N.y_peers _ _ (mo_layout l M)). lia.
Qed.

Lemma local_valid l (p : nat) s T raw : memory_ok l -> rank_n e <= check_scale -> l !! p = Some s ->
  N.owner_vbase s <= raw < N.owner_vbase s + N.seg_size s -> aligned T raw = true -> valid T host (host_ptr (lb + Z.of_nat p) raw).
Proof using Type.
  intros M Hscale Hp Hraw Hal. destruct (peer_rank l p s M Hp) as [Hr _]. destruct (N.segment_good _ _ (mo_layout l M) p s Hp) as [G1 G2 G3].
  destruct (p_ranks (mo_process l M)) as [P1 P2]. unfold valid, GlobalPtr.CHK.
  rewrite (validity_exact true T (lb + Z.of_nat p) raw (N.owner_vbase s) (N.seg_size s)); try done; try lia.
  - rewrite (proj2 (Z.eqb_neq _ _)), Hal, (proj2 (Z.leb_le 0 _)), (proj2 (Z.ltb_lt _ (rank_n e))), (proj2 (Z.leb_le _ raw)), (proj2 (Z.ltb_lt raw _)) by lia. done.
  - exact (mo_process l M).
  - unfold is_u64. lia.
  - intros _. exact (mo_bounds l M p s Hp).
Qed.

Lemma null_ok l T : memory_ok l -> null T host = Ok (host_ptr 0 0).
Proof using Type.
  intros M. unfold GlobalPtr.null, ctor. rewrite make_host. unfold GlobalPtr.CHK. rewrite !check_null by apply M.
  cbn [Z.eqb andb]. mcbn. rewrite check_null by apply M. done.
Qed.

(** A valid pointer into the neighborhood is local. *)
Lemma local_of l (p : nat) s T raw : memory_ok l -> l !! p = Some s -> N.owner_vbase s <= raw < N.owner_vbase s + N.seg_size s ->
  valid T host (host_ptr (lb + Z.of_nat p) raw) ->
  local T host (host_ptr (lb + Z.of_nat p) raw) = Ok (N.local_vbase s + (raw - N.owner_vbase s)) /\
  is_local T host (host_ptr (lb + Z.of_nat p) raw) = Ok true.
Proof using Type.
  intros M Hp Hraw V. unfold valid in V. pose proof (p_init (mo_process l M)) as Hinit. destruct (peer_rank l p s M Hp) as [Hr Hub]. split.
  - unfold GlobalPtr.local, assert_init. rewrite Hinit. mcbn. rewrite V. mcbn. rewrite (mo_tables l M). cbn [rank_ raw_ptr_ N.the_peers N.sorted_tables].
    rewrite (N.localize_inside _ l (mo_layout l M) definitely_local (rank_n e) p s raw Hp Hraw) by apply (mo_constant l M).
    cbn [host D.host Z.eqb orb]. mcbn. done.
  - unfold GlobalPtr.is_local, assert_init. rewrite Hinit. mcbn. rewrite V. mcbn.
    assert (N.assert_valid_definitely_local definitely_local (rank_n e) (N.the_peers (the_tables e)) = Ok tt) as ->.
    { pose proof (mo_constant l M) as Hc. unfold N.assert_valid_definitely_local. destruct definitely_local eqn:Edef; [|done].
      destruct (Hc eq_refl) as [-> ->]. cbn [negb orb]. by rewrite !Z.eqb_refl. }
    mcbn. cbn [orb negb]. destruct (definitely_local || _); [done|]. unfold rank_is_local.
    destruct (mo_peers l M). destruct (N.y_peers _ _ (mo_layout l M)). destruct (p_ranks (mo_process l M)).
    rewrite N.rank_is_local_exact; try done; try lia; [|apply (mo_constant l M)]. f_equal. apply andb_true_iff. cbn [rank_]. split; lia.
Qed.

(** C33: An address in a shared segment of the neighborhood becomes a pointer to its owner that
    is local and that [local] takes back to the address; an address elsewhere gives null
    from [try_global_ptr] and trips an assertion of [to_global_ptr]. *)
Theorem local_round_trip l T a : memory_ok l -> rank_n e <= check_scale -> 0 < a < w64_mod ->
  (forall (p : nat) s, l !! p = Some s -> N.local_vbase s <= a < N.local_vbase s + N.seg_size s ->
    aligned T (N.owner_vbase s + (a - N.local_vbase s)) = true ->
    exists g, to_global_ptr T a = Ok g /\ try_global_ptr T a = Ok g /\ valid T host g /\ rank_ g = lb + Z.of_nat p /\
      local T host g = Ok a /\ is_local T host g = Ok true /\ where_ T host g = Ok (lb + Z.of_nat p)) /\
  ((forall (p : nat) s, l !! p = Some s -> ~ N.local_vbase s <= a <= N.local_vbase s + N.seg_size s) ->
    to_global_ptr T a = Aborted /\ exists n, try_global_ptr T a = Ok n /\ null T host = Ok n).
Proof using Type.
  intros M Hscale Ha. pose proof (p_init (mo_process l M)) as Hinit. unfold GlobalPtr.to_global_ptr, GlobalPtr.try_global_ptr, assert_init.
  rewrite Hinit, (proj2 (Z.eqb_neq a 0)) by lia. mcbn. split.
  - intros p s Hp Hin Hal. destruct (peer_rank l p s M Hp) as [Hr Hub]. destruct (N.segment_good _ _ (mo_layout l M) p s Hp) as [G1 G2 G3].
    destruct (N.globalize_inside _ l (mo_layout l M) a (0, 0) p s Hp) as [E1 E2]; [lia|lia|lia|].
    rewrite <- (mo_tables l M), w64_small in E1, E2 by (unfold is_u64; lia). rewrite E1, E2. mcbn. unfold ctor. rewrite make_host.
    set (raw := N.owner_vbase s + (a - N.local_vbase s)) in *. assert (Hraw : N.owner_vbase s <= raw < N.owner_vbase s + N.seg_size s) by lia.
    pose proof (local_valid l p s T raw M Hscale Hp Hraw Hal) as V. destruct (local_of l p s T raw M Hp Hraw V) as [L1 L2]. unfold valid in V. rewrite V. mcbn.
    exists (host_ptr (lb + Z.of_nat p) raw). split_and!; [done|done|done|done| | |].
    + rewrite L1. f_equal. unfold raw. lia.
    + exact L2.
    + unfold GlobalPtr.where_. rewrite V. done.
  - intros Hout. destruct (N.globalize_outside _ l (mo_layout l M) a (0, 0)) as [E1 E2]; [lia|done|]. rewrite <- (mo_tables l M) in E1, E2.
    rewrite E1, E2. mcbn. split; [done|]. exists (host_ptr 0 0). rewrite (null_ok l T M). split; [|done]. unfold ctor. rewrite make_host.
    unfold GlobalPtr.CHK. rewrite check_null by apply M. done.
Qed.

(** The end of a segment, where no other starts, is taken for an address in it; the
    pointer fails the check. *)
Lemma try_end_aborts l T (p : nat) s : memory_ok l -> rank_n e <= check_scale -> l !! p = Some s -> N.owner_vbase s + N.seg_size s < w64_mod ->
  N.local_vbase s + N.seg_size s < w64_mod -> (forall (q : nat) s', l !! q = Some s' -> N.local_vbase s' <> N.local_vbase s + N.seg_size s) ->
  try_global_ptr T (N.local_vbase s + N.seg_size s) = Aborted.
Proof using Type.
  intros M Hscale Hp Hm Hm' Hno. destruct (N.segment_good _ _ (mo_layout l M) p s Hp) as [G1 G2 G3]. destruct (peer_rank l p s M Hp) as [Hr _].
  unfold GlobalPtr.try_global_ptr, assert_init. rewrite (p_init (mo_process l M)), (proj2 (Z.eqb_neq _ 0)) by lia. mcbn.
  pose proof (N.globalize_end _ l p s (0, 0) (mo_layout l M) Hp Hm' Hno) as E. rewrite <- (mo_tables l M) in E. rewrite E. mcbn.
  unfold ctor. rewrite make_host, w64_small by (unfold is_u64; lia). unfold GlobalPtr.CHK. destruct (p_ranks (mo_process l M)) as [P1 P2].
  rewrite (validity_exact true T (lb + Z.of_nat p) _ (N.owner_vbase s) (N.seg_size s)); try done; try lia.
  - rewrite (proj2 (Z.eqb_neq _ 0)), (proj2 (Z.ltb_ge (N.owner_vbase s + N.seg_size s) (N.owner_vbase s + N.seg_size s))), andb_false_r, andb_false_r by lia. done.
  - exact (mo_process l M).
  - unfold is_u64. lia.
  - intros _. exact (mo_bounds l M p s Hp).
Qed.

(** * Members *)

Abbreviation upcxx_memberof := (upcxx_memberof many_kinds definitely_local check_scale max_heaps_cat kind_enabled use_gex_mk e).
Abbreviation member_at_owner := (member_at_owner many_kinds definitely_local check_scale max_heaps_cat kind_enabled use_gex_mk e).
Abbreviation member_general := (member_general many_kinds definitely_local check_scale max_heaps_cat kind_enabled use_gex_mk e).
Abbreviation offset_ctor := (offset_ctor many_kinds definitely_local check_scale max_heaps_cat kind_enabled use_gex_mk e).
Abbreviation decay_array_gp := (decay_array_gp many_kinds definitely_local check_scale max_heaps_cat kind_enabled use_gex_mk e).

Lemma decay_host E M rank raw : valid E host (host_ptr rank raw) -> valid M host (host_ptr rank raw) ->
  decay_array_gp E M host (host_ptr rank raw) = Ok (host_ptr rank raw).
Proof using Type.
  unfold valid, GlobalPtr.decay_array_gp, reinterpret_pointer_cast, pointer_cast, ctor. intros HE HM. rewrite HM. mcbn.
  destruct (host_fields rank raw) as [-> ->]. cbn [rank_ raw_ptr_]. rewrite make_host, HE. done.
Qed.

Lemma offset_host M U rank raw off : valid U host (host_ptr rank raw) -> raw <> 0 -> w64 (raw + off) <> 0 ->
  valid M host (host_ptr rank (w64 (raw + off))) ->
  offset_ctor M U host (host_ptr rank raw) off = Ok (host_ptr rank (w64 (raw + off))).
Proof using Type.
  intros HU H0 H1 HM. unfold GlobalPtr.offset_ctor. destruct (host_fields rank raw) as [-> ->]. cbn [rank_ raw_ptr_]. rewrite make_host.
  unfold valid in HU. rewrite HU. mcbn. unfold is_null. rewrite HU. mcbn. cbn [raw_ptr_]. rewrite (proj2 (Z.eqb_neq raw 0)), andb_false_r by done.
  mcbn. rewrite check_nonnull by done. unfold valid in HM. by rewrite HM.
Qed.

(** C34: For an object of another process of the neighborhood, [upcxx_memberof_general] computes
    the pointer itself, through the address of the object here; that is the pointer which
    the owner would compute in an RPC. *)
Theorem member_bypass l getter E M U (p : nat) s raw off : memory_ok l -> rank_n e <= check_scale -> l !! p = Some s ->
  lb + Z.of_nat p <> rank_me e -> N.owner_vbase s <= raw -> 0 <= off < 2 ^ 63 -> raw + off < N.owner_vbase s + N.seg_size s ->
  aligned U raw = true -> aligned M (raw + off) = true -> aligned E (raw + off) = true ->
  (forall a, a = raw \/ a = N.local_vbase s + (raw - N.owner_vbase s) -> getter a = a + off) ->
  let q := host_ptr (lb + Z.of_nat p) (raw + off) in
  member_general true getter E M U host (host_ptr (lb + Z.of_nat p) raw) = Ok (Ready q) /\
  forall e', let valid_there T := GlobalPtr.CHK many_kinds definitely_local check_scale max_heaps_cat kind_enabled use_gex_mk e' T host q = Ok tt in
    valid_there M -> valid_there E ->
    GlobalPtr.member_at_owner many_kinds definitely_local check_scale max_heaps_cat kind_enabled use_gex_mk e' getter E M host
      (host_ptr (lb + Z.of_nat p) raw) = Ok q.
Proof using Type.
  intros Mo Hscale Hp Hother Hraw Hoff Hend HU HM HE Hget q. destruct (N.segment_good _ _ (mo_layout l Mo) p s Hp) as [G1 G2 G3].
  assert (Hin : N.owner_vbase s <= raw < N.owner_vbase s + N.seg_size s) by lia.
  assert (Hin' : N.owner_vbase s <= raw + off < N.owner_vbase s + N.seg_size s) by lia.
  pose proof (local_valid l p s U raw Mo Hscale Hp Hin HU) as VU. destruct (local_of l p s U raw Mo Hp Hin VU) as [L1 L2].
  pose proof (local_valid l p s M (raw + off) Mo Hscale Hp Hin' HM) as VM. pose proof (local_valid l p s E (raw + off) Mo Hscale Hp Hin' HE) as VE.
  assert (Hw : w64 (raw + off) = raw + off) by (apply w64_small; unfold is_u64; lia). split.
  - unfold GlobalPtr.member_general. cbn [rank_]. rewrite (proj2 (Z.eqb_neq (lb + Z.of_nat p) _)) by done. unfold dynamic_kind.
    pose proof VU as VU'. unfold valid in VU'. rewrite VU'. mcbn.
    rewrite (eq_refl : (host =? any) = false), (eq_refl : (host =? host) = true), L2. mcbn. rewrite L1. mcbn.
    rewrite Hget by (by right). replace (_ + off - _) with off by lia. rewrite s64_small by lia.
    rewrite (offset_host M U); [|done|lia|lia|by rewrite Hw]. mcbn. rewrite Hw, decay_host by done. done.
  - intros e' valid_there V1 V2. unfold valid_there in *. unfold GlobalPtr.member_at_owner, ctor. cbn [rank_ raw_ptr_]. rewrite Hget by (by left).
    destruct (host_fields (lb + Z.of_nat p) raw) as [-> _]. rewrite make_host. fold q. rewrite V1. mcbn.
    unfold GlobalPtr.decay_array_gp, reinterpret_pointer_cast, pointer_cast, ctor. rewrite V1. mcbn.
    destruct (host_fields (lb + Z.of_nat p) (raw + off)) as [E1 E2]. fold q in E1, E2. rewrite E1, E2.
    replace (make many_kinds (rank_ q) (raw_ptr_ q) 0 host) with q by (by rewrite make_host). by rewrite V2.
Qed.

(** In a build with device memory, [upcxx_memberof_general] of a pointer of any kind builds one
    whose kind is [memory_kind::any], which fails the check. *)
Lemma member_any_aborts getter E M gptr : initialized e = true -> many_kinds = true -> getter (raw_ptr_ gptr) <> 0 ->
  member_at_owner getter E M any gptr = Aborted.
Proof using Type.
  intros Hi Hm Hraw. unfold GlobalPtr.member_at_owner, ctor. set (q := make _ _ _ _ _).
  assert (Ek : dynamic_kind_of q = any) by (unfold GlobalPtr.dynamic_kind_of, q, make; by rewrite Hm).
  assert (Er : (raw_ptr_ q =? 0) = false) by (by apply Z.eqb_neq).
  assert (Hbad : forall h, bad_dynamic_kind any h any = true) by done.
  enough (CHK M any q = Aborted) as -> by done.
  unfold GlobalPtr.CHK, GlobalPtr.check, validate_global_ptr. rewrite Hi, Er, Ek, Hbad. cbn [negb].
  unfold fail_if, assert_that. repeat case_match; done.
Qed.

End Laws.

(** * A process with a neighbor *)

(** Rank 4 of 8; rank 5 is its neighbor, whose segment is mapped at [0x8000]. *)
Definition int_max : Z := 2 ^ 31 - 1.
Definition two_env : env := mk_env true 8 4 false 0x10000 0x1000 (N.sorted_tables N.two_peers N.two_segments) (D.init_state (1, 32))
  (fun _ rank => if (0 <=? rank) && (rank <? 8) then Some (0x10000, 0x1000) else None).
Abbreviation at_two f := (f true false int_max (1, 32) (fun _ => true) (fun _ => false) two_env).
Definition int_ : ctype := mk_ctype 4 4.
Definition ptr (rank raw : Z) : global_ptr := mk_gptr rank raw 0 host.

Lemma two_process : process_ok (1, 32) two_env.
Proof. split; [done|cbn; lia|cbn; lia]. Qed.

Lemma two_memory : memory_ok false (1, 32) (fun _ => true) (fun _ => false) two_env N.two_segments.
Proof.
  split; [exact two_process|done|exact N.two_layout|cbn; lia|done|].
  intros [|[|p]] s Hp; [injection Hp as <-; done|injection Hp as <-; done|done].
Qed.

Lemma comparators_total_witness : exists lt eq_ : bool, at_two less int_ host (ptr 4 0x10010) (ptr 5 0x10000) = Ok lt /\
  at_two eq int_ host (ptr 4 0x10010) (ptr 5 0x10000) = Ok eq_ /\ at_two greater int_ host (ptr 5 0x10000) (ptr 4 0x10010) = Ok lt.
Proof.
  destruct (comparators_total true false int_max (1, 32) (fun _ => true) (fun _ => false) two_env int_ host (ptr 4 0x10010) (ptr 5 0x10000) (ptr 0 0)
    eq_refl eq_refl eq_refl) as ((lt & eq_ & H1 & H2 & _ & _ & H3 & _) & _ & _). exists lt, eq_. exact (conj H1 (conj H2 H3)).
Defined.

Lemma arithmetic_exact_witness : at_two difference int_ host (ptr 5 0x10ffc) (ptr 5 0x10000) = Ok 1023 /\
  at_two minus int_ host (ptr 5 0x10ffc) 1023 = Ok (ptr 5 0x10000).
Proof.
  destruct (arithmetic_exact true false int_max (1, 32) (fun _ => true) (fun _ => false) two_env int_ host (ptr 5 0x10000) 1023 (ptr 5 0x10ffc)
    eq_refl ltac:(unfold is_u64, w64_mod; cbn; lia) ltac:(cbn; lia) eq_refl ltac:(left; done)) as (H1 & _ & H2 & _). exact (conj H1 H2).
Defined.

Lemma validity_exact_witness : at_two check true int_ host (ptr 3 0x11000) = Aborted /\ at_two check true int_ host (ptr 3 0x10ffc) = Ok tt.
Proof.
  assert (H : forall raw, is_u64 raw -> at_two check true int_ host (ptr 3 raw) =
    if raw =? 0 then if (3 =? 0) && true then Ok tt else Aborted
    else if (0 <=? 3) && (3 <? rank_n two_env) && ((0x10000 <=? raw) && (raw <? 0x10000 + 0x1000)) && aligned int_ raw then Ok tt else Aborted).
  { intros raw Hraw. exact (validity_exact true false int_max (1, 32) (fun _ => true) (fun _ => false) two_env true int_ 3 raw 0x10000 0x1000 two_process
      ltac:(lia) Hraw ltac:(unfold int_max; cbn; lia) (fun _ => eq_refl) ltac:(lia) ltac:(lia) ltac:(unfold w64_mod; lia)). }
  split; [exact (H 0x11000 ltac:(unfold is_u64, w64_mod; lia))|exact (H 0x10ffc ltac:(unfold is_u64, w64_mod; lia))].
Defined.

Lemma local_round_trip_witness : exists g, at_two to_global_ptr int_ 0x8010 = Ok g /\ rank_ g = 5 /\ at_two local int_ host g = Ok 0x8010.
Proof.
  destruct (local_round_trip true false int_max (1, 32) (fun _ => true) (fun _ => false) two_env N.two_segments int_ 0x8010 two_memory
    ltac:(unfold int_max; cbn; lia) ltac:(unfold w64_mod; lia)) as [H _].
  destruct (H 1%nat (N.mk_segment 0x10000 0x8000 0x1000) eq_refl ltac:(cbn; lia) eq_refl) as (g & H1 & _ & _ & H2 & H3 & _).
  exists g. exact (conj H1 (conj H2 H3)).
Defined.

Lemma member_bypass_witness : at_two member_general true (fun a => a + 8) int_ int_ int_ host (ptr 5 0x10010) = Ok (Ready (ptr 5 0x10018)).
Proof.
  apply (member_bypass true false int_max (1, 32) (fun _ => true) (fun _ => false) two_env N.two_segments (fun a => a + 8) int_ int_ int_ 1%nat
    (N.mk_segment 0x10000 0x8000 0x1000) 0x10010 8 two_memory); cbn; try reflexivity; try lia; try (unfold int_max; lia).
Defined.

(** The end of the own segment is not null for [try_global_ptr]. *)
Example try_end : at_two try_global_ptr int_ 0x11000 = Aborted /\ at_two try_global_ptr int_ 0x11004 = at_two null int_ host.
Proof. split; vm_compute; reflexivity. Qed.

(** [upcxx_memberof_general] of a host pointer, and of the same pointer with any kind. *)
Example member_any : at_two memberof_general true false (fun a => a + 8) int_ int_ int_ host (ptr 4 0x10010) = Ok (Ready (ptr 4 0x10018)) /\
  at_two to_any int_ (ptr 4 0x10010) = Ok (ptr 4 0x10010) /\
  at_two memberof_general true false (fun a => a + 8) int_ int_ int_ any (ptr 4 0x10010) = Aborted.
Proof. split_and!; vm_compute; reflexivity. Qed.

End GlobalPtrLaws.
