(* ===== verification/DeviceAllocator.v ===== *)
(** Allocation of device memory: [device_allocator.hpp].  Allocators ([DeviceHeaps.v]) carve
    their segments with the allocator of segments ([SegmentAllocator.v]) and hand out
    global pointers ([GlobalPtr.v]).  The theorems are about these parts together. *)
From S2P Require Import Prelude.
From S2P Require Import Neighborhood.
From S2P Require Import DeviceHeaps.
From S2P Require Import DeviceHeapsInvariant.
From S2P Require Import DeviceHeapsCalls.
From S2P Require Import DeviceHeapsAllocators.
From S2P Require Import DeviceHeapsSystem.
From S2P Require Import GlobalPtr.
From S2P Require Import GlobalPtrLaws.

Module DeviceAllocator.
Module SA := SegmentAllocator.SegmentAllocator.
Export GlobalPtrLaws.GlobalPtrLaws.
Import DeviceHeapsSystem.DeviceHeapsSystem.

(** The alignments of all kinds of devices *)
Definition min_alignment : Z := 16.
Definition normal_alignment : Z := 256.
Definition default_alignment_erased (sizeof_T alignof_T normal_align : Z) : Z :=
  if alignof_T <? normal_align then normal_align else alignof_T.
Definition default_alignment (T : ctype) : Z := default_alignment_erased (sizeof T) (align_of T) normal_alignment.

Definition set_env_heaps (h : D.state) (e : env) : env :=
  mk_env (initialized e) (rank_n e) (rank_me e) (upc_is_linked e) (shared_heap_base e) (shared_heap_sz e) (the_tables e) h (query e).

Definition char : ctype := mk_ctype 1 1.

(** A new hunk is apart from those there were. *)
Lemma hunk_fresh st l l1 m r sz b : SA.inv st (l1 ++ m :: r) sz -> SA.grows l (l1 ++ r) -> b ∈ l -> SA.ahole b = false ->
  SA.afin b <= SA.abeg m \/ SA.afin m <= SA.abeg b.
Proof.
  intros Hi Hg Hb Hh. destruct (Hg b Hb Hh) as (b' & Hb' & _ & _ & Eb & Ef).
  assert (b' <> m).
  { intros ->. pose proof (SA.linked_nodup _ _ (SA.inv_linked _ _ _ Hi)) as Hn. rewrite <- app_assoc in Hn.
    apply SA.nodup_mid in Hn as (H1 & H2 & _). change (SA.aloc m ∉ SA.aloc <$> r ++ [SA.endblk st sz]) in H2. rewrite fmap_app in H2.
    apply elem_of_app in Hb' as [Hb'|Hb']; [apply H1|apply H2, elem_of_app; left]; by apply list_elem_of_fmap_2. }
  destruct (SA.tiles_disjoint 0 (l1 ++ m :: r) sz b' m (SA.inv_tiles _ _ _ Hi)); [set_solver..|done|left; lia|right; lia].
Qed.

Section Allocator.
Context (many_kinds definitely_local : bool) (check_scale : Z).
Context (max_heaps_cat : Z * Z) (kind_enabled use_gex_mk : Z -> bool).
Abbreviation CHK := (CHK many_kinds definitely_local check_scale max_heaps_cat kind_enabled use_gex_mk).
Abbreviation is_null := (GlobalPtr.is_null many_kinds definitely_local check_scale max_heaps_cat kind_enabled use_gex_mk).
Abbreviation null := (GlobalPtr.null many_kinds definitely_local check_scale max_heaps_cat kind_enabled use_gex_mk).
Abbreviation ctor := (ctor many_kinds definitely_local check_scale max_heaps_cat kind_enabled use_gex_mk).
Abbreviation where_ := (GlobalPtr.where_ many_kinds definitely_local check_scale max_heaps_cat kind_enabled use_gex_mk).
Abbreviation dynamic_kind := (dynamic_kind many_kinds definitely_local check_scale max_heaps_cat kind_enabled use_gex_mk).
Abbreviation static_kind_cast := (static_kind_cast many_kinds definitely_local check_scale max_heaps_cat kind_enabled use_gex_mk).
Abbreviation to_any := (to_any many_kinds definitely_local check_scale max_heaps_cat kind_enabled use_gex_mk).
Abbreviation reinterpret := (reinterpret_pointer_cast many_kinds definitely_local check_scale max_heaps_cat kind_enabled use_gex_mk).
Abbreviation heap_idx_of := (heap_idx_of many_kinds).

Definition the_allocator (this : positive) (e : env) : res D.allocator := D.the_allocator this (the_heaps e).
Definition is_active (al : D.allocator) : bool := 0 <=? D.alloc_idx al.

(** The allocator after a call on its segment. *)
Definition with_seg (this : positive) (al : D.allocator) (seg : SA.state) (e : env) : env :=
  set_env_heaps (D.put_allocator this (D.mk_allocator (D.alloc_kind al) (D.alloc_idx al) seg (D.implicit_device al)) (the_heaps e)) e.

Definition segment_size (this : positive) (e : env) : res Z :=
  al ← the_allocator this e;
  if negb (is_active al) then Ok 0 else SA.segment_size (D.seg_ al).

Definition segment_used (this : positive) (e : env) : res Z :=
  al ← the_allocator this e;
  if negb (is_active al) then Ok 0 else sz ← SA.segment_size (D.seg_ al); Ok (sz - SA.segment_free (D.seg_ al)).

Definition allocate (this : positive) (T : ctype) (n align : Z) (e : env) : res (global_ptr * env) :=
  _ ← assert_init e;
  al ← the_allocator this e;
  _ ← assert_that (is_active al);
  '((ptr, seg) : option Z * SA.state) ← SA.allocate (D.seg_ al) (w64 (n * sizeof T)) (Z.max align min_alignment);
  let e := with_seg this al seg e in
  p ← (match ptr with
       | None => null e T (D.alloc_kind al)
       | Some raw => ctor e T (D.alloc_kind al) (rank_me e) raw (D.alloc_idx al) (D.alloc_kind al)
       end);
  Ok (p, e).

Definition deallocate (this : positive) (T : ctype) (p : global_ptr) (e : env) : res env :=
  _ ← assert_init e;
  al ← the_allocator this e;
  _ ← CHK e T (D.alloc_kind al) p;
  null ← is_null e T (D.alloc_kind al) p;
  if (null : bool) then Ok e else
  _ ← assert_that (is_active al);
  _ ← assert_that ((heap_idx_of p =? D.alloc_idx al) && (rank_ p =? rank_me e));
  seg ← SA.deallocate (D.seg_ al) (Some (raw_ptr_ p));
  Ok (with_seg this al seg e).

(** The overload for pointers of any kind *)
Definition deallocate_any (this : positive) (T : ctype) (p : global_ptr) (e : env) : res env :=
  _ ← assert_init e;
  al ← the_allocator this e;
  _ ← CHK e T any p;
  null ← is_null e T any p;
  if (null : bool) then Ok e else
  k ← dynamic_kind e T any p;
  _ ← assert_that (k =? D.alloc_kind al);
  p ← static_kind_cast e T (D.alloc_kind al) any p;
  deallocate this T p e.

Definition to_global_ptr (this : positive) (T : ctype) (p : Z) (e : env) : res global_ptr :=
  _ ← assert_init e;
  al ← the_allocator this e;
  if p =? 0 then null e T (D.alloc_kind al) else
  _ ← assert_that (is_active al);
  ctor e T (D.alloc_kind al) (rank_me e) p (D.alloc_idx al) (D.alloc_kind al).

(** The allocator of the heap of a pointer, which must be active. *)
Definition heap_is_active (p : global_ptr) (e : env) : res D.heap_state :=
  hs ← D.get_heap max_heaps_cat (heap_idx_of p) (the_heaps e);
  active ← (match D.alloc_base hs with None => Ok false | Some a => al ← the_allocator a e; Ok (is_active al) end);
  _ ← assert_that active;
  Ok hs.

(** [Device::heap_idx_to_device_id] *)
Definition heap_idx_to_device_id (kind idx : Z) (e : env) : res Z :=
  hs ← D.get_kind max_heaps_cat kind idx (the_heaps e);
  _ ← assert_that (negb (D.device_id hs =? D.invalid_device_id));
  Ok (D.device_id hs).

Definition device_id_of (T : ctype) (Kind : Z) (gp : global_ptr) (e : env) : res Z :=
  _ ← assert_init e;
  _ ← CHK e T Kind gp;
  null ← is_null e T Kind gp;
  r ← (if (null : bool) then Ok (rank_me e) else where_ e T Kind gp);
  _ ← assert_that (r =? rank_me e);
  if (null : bool) then Ok D.invalid_device_id else
  _ ← heap_is_active gp e;
  heap_idx_to_device_id Kind (heap_idx_of gp) e.

Definition device_id (this : positive) (e : env) : res Z :=
  _ ← assert_init e;
  al ← the_allocator this e;
  if negb (is_active al) then Ok D.invalid_device_id else heap_idx_to_device_id (D.alloc_kind al) (D.alloc_idx al) e.

Definition local (T : ctype) (Kind : Z) (gp : global_ptr) (e : env) : res Z :=
  _ ← assert_init e;
  _ ← CHK e T Kind gp;
  null ← is_null e T Kind gp;
  if (null : bool) then Ok 0 else
  r ← where_ e T Kind gp;
  _ ← assert_that (r =? rank_me e);
  _ ← heap_is_active gp e;
  Ok (raw_ptr_ gp).

(** The base class [heap_allocator], whose calls are virtual: pointers of any kind. *)
Definition allocate_raw (this : positive) (n align sizeof_T alignof_T : Z) (e : env) : res (global_ptr * env) :=
  let align := if align =? 0 then default_alignment_erased sizeof_T alignof_T normal_alignment else align in
  '((p, e) : global_ptr * env) ← allocate this char (w64 (n * sizeof_T)) align e;
  p ← to_any e char p;
  Ok (p, e).

Definition heap_allocate (this : positive) (T : ctype) (n align : Z) (e : env) : res (global_ptr * env) :=
  _ ← assert_init e;
  '((p, e) : global_ptr * env) ← allocate_raw this n align (sizeof T) (align_of T) e;
  p ← reinterpret e T char any p;
  Ok (p, e).

Definition heap_deallocate (this : positive) (T : ctype) (K : Z) (p : global_ptr) (e : env) : res env :=
  _ ← assert_init e;
  _ ← CHK e T K p;
  p ← reinterpret e char T K p;
  p ← (if K =? any then Ok p else to_any e char p);
  deallocate_any this char p e.

(** * Calls on segments keep the tables *)

Abbreviation inv := (inv max_heaps_cat use_gex_mk).

Lemma with_seg_inv st this al seg : inv st -> D.allocators st !! this = Some al -> seg_ok seg ->
  inv (D.put_allocator this (D.mk_allocator (D.alloc_kind al) (D.alloc_idx al) seg (D.implicit_device al)) st).
Proof using Type.
  intros [C H V A I M] Hal Hseg. split; [done| | | | |by apply (DeviceHeapsInvariant.DeviceHeapsInvariant.memory_same st)].
  - intros i hs Hi. apply (heap_ok_frame _ _ None None st); [by apply H|by eauto| |done]. intros a al2 Ha L. cbn.
    destruct (decide (a = this)) as [->|Hne]; [|exists al2; by rewrite lookup_insert_ne].
    eexists. rewrite lookup_insert_eq. assert (al2 = al) as -> by congruence. done.
  - intros d dev Hd. apply (device_ok_frame st); [by apply V|by eauto].
  - intros a al2. cbn. intros [[<- <-]|[Hne L]]%lookup_insert_Some; [|by apply (alloc_ok_frame st); [apply A|eauto|eauto]].
    destruct (A _ _ Hal) as [A1 A2 A3]. split; [exact A1|exact Hseg|exact A3].
  - intros a a' al1 al2 d. cbn. intros [[<- <-]|[N1 L1]]%lookup_insert_Some [[<- <-]|[N2 L2]]%lookup_insert_Some E1 E2;
      [done|by eapply (I this)|by eapply (I a this)|by eapply (I a a')].
Qed.

Lemma allocate_endpost s m a o s' : SA.allocate s m a = Ok (o, s') -> SA.endpost s' = SA.endpost s.
Proof using Type.
  assert (Hatt : forall m a k p s', SA.attempt s m a k = Ok (SA.Fit p s') -> SA.endpost s' = SA.endpost s).
  { clear. intros m a k p s' H. unfold SA.attempt in H. destruct (SA.lower_bound _ _) as [[[sz b] hl]|]; [|done].
    do 3 (apply bind_ok in H as (? & _ & H)).
    destruct (_ <=? _); [|done]. apply bind_ok in H as ([[h holes] m0] & _ & H). apply bind_ok in H as ([h' holes'] & _ & H). by injection H as <- <-. }
  unfold SA.allocate. destruct (m =? 0); [by intros [= <- <-]|]. destruct (SA.adjust m a) as [m' a'].
  intros H. apply bind_ok in H as (r & Hr & H). destruct r as [| |p s2]; [by injection H as <- <-| |injection H as <- <-; by eapply Hatt].
  destruct (_ =? m'); [by injection H as <- <-|]. apply bind_ok in H as (r & Hr' & H).
  destruct r as [| |p s2]; [by injection H as <- <-..|injection H as <- <-; by eapply Hatt].
Qed.

Lemma deallocate_endpost s p s' : SA.deallocate s (Some p) = Ok s' -> SA.endpost s' = SA.endpost s.
Proof using Type.
  unfold SA.deallocate. destruct (_ !! _); [|done]. intros H. do 3 (apply bind_ok in H as (? & _ & H)).
  apply bind_ok in H as ([[[h holes] m] mb] & _ & H). apply bind_ok in H as ([h' holes'] & _ & H). by injection H as <-.
Qed.

(** * Pointers to device memory *)

Context (Hmany : many_kinds = true) (Hbits : D.max_heaps max_heaps_cat <= 2 ^ 24).

(** The pointer to an address in the segment of an active allocator. *)
Definition device_ptr (al : D.allocator) (e : env) (raw : Z) : global_ptr := mk_gptr (rank_me e) raw (D.alloc_idx al) (D.alloc_kind al).

Record device_ok (this : positive) (al : D.allocator) (l : list SA.ablk) (sz : Z) (e : env) : Prop := {
  do_process : process_ok max_heaps_cat e;
  do_inv : inv (the_heaps e);
  do_alloc : D.allocators (the_heaps e) !! this = Some al;
  do_active : 0 <= D.alloc_idx al;
  do_seg : SA.inv (D.seg_ al) l sz;
  do_base : 0 < SA.seg_base (D.seg_ al);
  do_scale : rank_n e <= check_scale
}.

Lemma device_heap this al l sz e : device_ok this al l sz e -> exists (i : nat) hs, D.alloc_idx al = Z.of_nat i /\
  D.heaps (the_heaps e) !! i = Some (Some hs) /\ D.alloc_base hs = Some this /\ D.my_kind hs = D.alloc_kind al /\
  (0 < i)%nat /\ Z.of_nat i < D.max_heaps max_heaps_cat /\ device_kind (D.alloc_kind al).
Proof using Type.
  intros [P V A Hact _ _ _]. destruct (a_heap _ _ _ (v_alloc _ _ _ _ V _ _ A)) as [E|(i & hs & E & Hi & Hb)]; [lia|]. exists i, hs.
  pose proof (v_heap _ _ _ _ V _ _ Hi) as [K _ _ B _]. rewrite Hb in B. destruct B as (al2 & L & _ & E2). assert (al2 = al) as -> by congruence.
  destruct (heap_index_pos _ (p_heaps _ _ P) _ _ _ (v_counts _ _ _ _ V) Hi) as (? & ? & _). by rewrite E2.
Qed.

Lemma make_device this al l sz e raw : device_ok this al l sz e ->
  make many_kinds (rank_me e) raw (D.alloc_idx al) (D.alloc_kind al) = device_ptr al e raw.
Proof using Hmany Hbits.
  intros H. destruct (device_heap _ _ _ _ _ H) as (i & hs & E & _ & _ & _ & Hpos & Hlt & Hk). unfold make, device_ptr, device_kind in *. rewrite Hmany.
  rewrite !Z.mod_small by lia. done.
Qed.

Lemma device_fields al e raw : heap_idx_of (device_ptr al e raw) = D.alloc_idx al /\ dynamic_kind_of many_kinds (device_ptr al e raw) = D.alloc_kind al.
Proof using Hmany. unfold GlobalPtr.heap_idx_of, dynamic_kind_of. by rewrite Hmany. Qed.

Lemma segment_range_ok this al l sz e : device_ok this al l sz e -> SA.segment_range (D.seg_ al) = Ok (SA.seg_base (D.seg_ al), sz).
Proof using Type.
  intros [P V A _ S _ _]. destruct (a_seg _ _ _ (v_alloc _ _ _ _ V _ _ A)) as [Ep _]. unfold SA.segment_range, SA.segment_size, SA.load.
  rewrite Ep, (seg_endpost _ _ _ Ep S). done.
Qed.

(** Such a pointer is valid. *)
Lemma device_valid this al l sz e T raw : device_ok this al l sz e -> SA.seg_base (D.seg_ al) <= raw < SA.seg_base (D.seg_ al) + sz ->
  aligned T raw = true -> CHK e T (D.alloc_kind al) (device_ptr al e raw) = Ok tt.
Proof using Hmany.
  intros H Hraw Hal. destruct (device_heap _ _ _ _ _ H) as (i & hs & Ei & Hi & Hb & Ek & Hpos & Hlt & Hk).
  pose proof (segment_range_ok _ _ _ _ _ H) as Hrange. destruct H as [[Pi Pr Ph] V A Hact S Hb0 Hscale]. destruct Pr as [Pr1 Pr2].
  pose proof (SA.inv_top _ _ _ S) as Htop. unfold device_kind in Hk.
  unfold GlobalPtr.CHK, check, validate_global_ptr. destruct (device_fields al e raw) as [-> ->]. cbn [rank_ raw_ptr_ device_ptr].
  rewrite Pi. cbn [negb]. rewrite (proj2 (Z.ltb_lt 0 _)), (proj2 (Z.ltb_lt (rank_me e) _)) by lia. mcbn. rewrite (proj2 (Z.eqb_neq raw 0)) by lia.
  rewrite (w64_small (rank_n e)), (w64_small (rank_me e)), (proj2 (Z.leb_gt (rank_n e) (rank_me e))) by (unfold is_u64, w64_mod; lia). change (fail_if false) with (Ok tt). mcbn.
  assert (bad_heap_idx max_heaps_cat (D.alloc_kind al) (D.alloc_idx al) = false) as ->.
  { unfold bad_heap_idx, GlobalPtr.host, GlobalPtr.any, D.host, D.any. rewrite (proj2 (Z.eqb_neq (D.alloc_kind al) 0)), (proj2 (Z.eqb_neq (D.alloc_idx al) 0)),
      (proj2 (Z.leb_gt _ _)) by lia. by rewrite andb_false_r. }
  assert (bad_dynamic_kind (D.alloc_kind al) (D.alloc_idx al) (D.alloc_kind al) = false) as ->.
  { unfold bad_dynamic_kind, D.is_valid_memory_kind, GlobalPtr.host, GlobalPtr.any, D.host, D.any. rewrite (proj2 (Z.leb_le _ 4)), (proj2 (Z.eqb_neq (D.alloc_kind al) 4)),
      (proj2 (Z.eqb_neq (D.alloc_kind al) 0)), (proj2 (Z.eqb_neq (D.alloc_idx al) 0)), Z.eqb_refl by lia. done. }
  change (fail_if false) with (Ok tt). mcbn. rewrite (proj2 (Z.leb_le _ _) Hscale). mcbn.
  unfold segment_bounds. rewrite (proj2 (Z.eqb_neq (D.alloc_idx al) 0)), Z.eqb_refl by lia. rewrite Ei.
  rewrite (get_ok _ Ph (the_heaps e) i true (Some hs) (v_counts _ _ _ _ V) Hi Hpos eq_refl) by (intros ? [= <-]; apply (v_heap _ _ _ _ V _ _ Hi)).
  mcbn. rewrite Hb. mcbn. rewrite Ek, Z.eqb_refl. cbn [negb]. change (fail_if false) with (Ok tt). mcbn.
  unfold D.the_allocator. rewrite A. mcbn. rewrite Hrange. mcbn.
  rewrite (proj2 (Z.eqb_neq (SA.seg_base _) 0)), (proj2 (Z.eqb_neq sz 0)) by lia. cbn [negb andb]. mcbn. unfold check_bounds.
  rewrite (proj2 (Z.eqb_neq (SA.seg_base _) 0)), (proj2 (Z.eqb_neq sz 0)) by lia. cbn [negb]. mcbn.
  rewrite w64_small by (unfold is_u64, w64_mod; lia).
  rewrite (proj2 (Z.ltb_ge raw _)), (proj2 (Z.ltb_ge _ raw)) by lia. change (fail_if (false || false)) with (Ok tt). mcbn.
  by rewrite fail_aligned, Hal.
Qed.

Lemma null_device this al l sz e T : device_ok this al l sz e -> null e T (D.alloc_kind al) = Ok (mk_gptr 0 0 0 (D.alloc_kind al)).
Proof using Hmany.
  intros H. destruct (device_heap _ _ _ _ _ H) as (i & hs & _ & _ & _ & _ & _ & _ & Hk). unfold device_kind in Hk.
  destruct H as [[Pi [Pr1 Pr2] Ph] _ _ _ _ _ _].
  assert (Hc : CHK e T (D.alloc_kind al) (mk_gptr 0 0 0 (D.alloc_kind al)) = Ok tt).
  { unfold GlobalPtr.CHK, check, validate_global_ptr, GlobalPtr.heap_idx_of. rewrite Hmany, Pi. cbn [negb raw_ptr_ rank_ heap_idx_].
    rewrite (proj2 (Z.ltb_lt 0 _)), (proj2 (Z.ltb_lt (rank_me e) _)) by lia. done. }
  unfold GlobalPtr.null, GlobalPtr.ctor.
  assert (make many_kinds 0 0 0 (D.alloc_kind al) = mk_gptr 0 0 0 (D.alloc_kind al)) as ->
    by (unfold make; rewrite Hmany, (Z.mod_small (D.alloc_kind al)) by lia; done).
  by rewrite Hc; mcbn; rewrite Hc.
Qed.

Lemma device_not_null al e T raw : CHK e T (D.alloc_kind al) (device_ptr al e raw) = Ok tt -> raw <> 0 ->
  is_null e T (D.alloc_kind al) (device_ptr al e raw) = Ok false.
Proof using Type.
  intros H H0. unfold GlobalPtr.is_null. rewrite H. mcbn. cbn [raw_ptr_ device_ptr]. by rewrite (proj2 (Z.eqb_neq raw 0)), andb_false_r.
Qed.

Lemma local_device this al l sz e T raw : device_ok this al l sz e -> SA.seg_base (D.seg_ al) <= raw < SA.seg_base (D.seg_ al) + sz ->
  aligned T raw = true -> local T (D.alloc_kind al) (device_ptr al e raw) e = Ok raw.
Proof using Hmany.
  intros H Hraw Hal. pose proof (device_valid _ _ _ _ _ _ _ H Hraw Hal) as V.
  destruct (device_heap _ _ _ _ _ H) as (i & hs & Ei & Hi & Hb & _). pose proof H as [[Pi _ Ph] Vi A Hact _ Hb0 _].
  unfold local, assert_init. rewrite Pi. mcbn. rewrite V. mcbn. rewrite (device_not_null _ _ _ _ V) by lia. mcbn.
  unfold GlobalPtr.where_. rewrite V. mcbn. cbn [rank_ device_ptr]. rewrite Z.eqb_refl. mcbn. unfold heap_is_active.
  destruct (device_fields al e raw) as [Ef _]. rewrite Ef, Ei.
  rewrite (get_heap_ok _ _ Ph _ _ _ _ Vi Hi). mcbn. rewrite Hb. mcbn. unfold the_allocator, D.the_allocator. rewrite A. mcbn.
  unfold is_active. by rewrite (proj2 (Z.leb_le _ _)).
Qed.

Definition with_seg_al (al : D.allocator) (seg : SA.state) : D.allocator :=
  D.mk_allocator (D.alloc_kind al) (D.alloc_idx al) seg (D.implicit_device al).

Lemma device_ok_with this al l sz e seg l' : device_ok this al l sz e -> SA.inv seg l' sz -> SA.seg_base seg = SA.seg_base (D.seg_ al) ->
  SA.endpost seg = SA.endpost (D.seg_ al) -> device_ok this (with_seg_al al seg) l' sz (with_seg this al seg e).
Proof using Type.
  intros [P V A Hact S Hb Hs] Hi Eb Ee. split; [|apply with_seg_inv; [done|done|]|by cbn; rewrite lookup_insert_eq|done|done|by cbn; rewrite Eb|done].
  - destruct P as [P1 P2 P3]. by split.
  - split; [|by eexists _, _]. rewrite Ee. apply (v_alloc _ _ _ _ V _ _ A).
Qed.

(** [deallocate] of a pointer in the segment *)
Lemma deallocate_device this al l sz e T raw : device_ok this al l sz e -> SA.seg_base (D.seg_ al) <= raw < SA.seg_base (D.seg_ al) + sz ->
  aligned T raw = true ->
  deallocate this T (device_ptr al e raw) e = (seg ← SA.deallocate (D.seg_ al) (Some raw); Ok (with_seg this al seg e)).
Proof using Hmany.
  intros H Hraw Hal. pose proof (device_valid _ _ _ _ _ _ _ H Hraw Hal) as V. pose proof H as [[Pi _ _] _ A Hact _ Hb0 _].
  unfold deallocate, assert_init, the_allocator, D.the_allocator. rewrite Pi. mcbn. rewrite A. mcbn. rewrite V. mcbn.
  rewrite (device_not_null _ _ _ _ V) by lia. mcbn. unfold is_active. rewrite (proj2 (Z.leb_le _ _)) by done. mcbn.
  destruct (device_fields al e raw) as [-> _]. cbn [rank_ raw_ptr_ device_ptr]. rewrite !Z.eqb_refl. done.
Qed.

Lemma pow2_max_16 a : pow2 a -> pow2 (Z.max a min_alignment).
Proof using Type. intros H. destruct (Z.max_spec a min_alignment) as [[_ ->]|[_ ->]]; [by exists 4|done]. Qed.

(** [device_id] of a pointer to the segment is that of the device that the allocator has. *)
Lemma device_id_device this al l sz e T raw : device_ok this al l sz e -> SA.seg_base (D.seg_ al) <= raw < SA.seg_base (D.seg_ al) + sz ->
  aligned T raw = true -> exists dv dev, D.devices (the_heaps e) !! dv = Some dev /\ D.heap_idx_ dev = D.alloc_idx al /\
    D.kind_ dev = D.alloc_kind al /\ device_id this e = Ok (D.device_id_ dev) /\
    device_id_of T (D.alloc_kind al) (device_ptr al e raw) e = Ok (D.device_id_ dev).
Proof using Hmany.
  intros H Hraw Hal. pose proof (device_valid _ _ _ _ _ _ _ H Hraw Hal) as V.
  destruct (device_heap _ _ _ _ _ H) as (i & hs & Ei & Hi & Hb & Ek & _). pose proof H as [[Pi _ Ph] Vi A Hact _ Hb0 _].
  pose proof (v_heap _ _ _ _ Vi _ _ Hi) as [_ _ (dv & _ & Hdv) _ Hid].
  assert (Hidx : heap_idx_to_device_id (D.alloc_kind al) (D.alloc_idx al) e = Ok (D.device_id hs)).
  { unfold heap_idx_to_device_id. rewrite Ei, <- Ek, (get_kind_ok _ _ Ph _ _ _ _ Vi Hi). mcbn. by rewrite (proj2 (Z.eqb_neq _ _) Hid). }
  exists dv, (mk_device (Z.of_nat i) (my_kind hs) (D.device_id hs)). split; [done|]. split; [done|]. split; [done|]. split.
  - unfold device_id, assert_init, the_allocator, D.the_allocator. rewrite Pi. mcbn. rewrite A. mcbn. unfold is_active. by rewrite (proj2 (Z.leb_le _ _)).
  - unfold device_id_of, assert_init. rewrite Pi. mcbn. rewrite V. mcbn. rewrite (device_not_null _ _ _ _ V) by lia. mcbn.
    unfold GlobalPtr.where_. rewrite V. mcbn. cbn [rank_ device_ptr]. rewrite Z.eqb_refl. mcbn. unfold heap_is_active.
    destruct (device_fields al e raw) as [Ef _]. rewrite Ef. rewrite Ei at 1.
    rewrite (get_heap_ok _ _ Ph _ _ _ _ Vi Hi). mcbn. rewrite Hb. mcbn. unfold the_allocator, D.the_allocator. rewrite A. mcbn.
    unfold is_active. rewrite (proj2 (Z.leb_le _ _)) by done. mcbn. exact Hidx.
Qed.

(** C35: [allocate] gives null only if nothing was asked for or no hole is big enough.  Else it
    gives a valid pointer to as much memory as asked for in the segment of the allocator,
    aligned as asked for and apart from every hunk handed out before.  [local] takes it to
    its address, [device_id] to the device of the allocator, and [deallocate] frees it, once. *)
Theorem device_allocate_ok this al l sz e T n align : device_ok this al l sz e -> 0 <= n * sizeof T <= 2 ^ 64 - 4096 ->
  pow2 align -> align <= 2 ^ 63 -> align_of T <= 1 \/ (align_of T | Z.max align min_alignment) ->
  exists q e', allocate this T n align e = Ok (q, e') /\ inv (the_heaps e') /\
    (null e' T (D.alloc_kind al) = Ok q /\
     (n * sizeof T = 0 \/ forall b, b ∈ l -> SA.ahole b = true -> SA.afin b - SA.abeg b <
        (SA.adjust (n * sizeof T) (Z.max align min_alignment)).1 + (SA.adjust (n * sizeof T) (Z.max align min_alignment)).2 - 1) \/
     raw_ptr_ q <> 0 /\ CHK e' T (D.alloc_kind al) q = Ok tt /\ rank_ q = rank_me e /\ heap_idx_of q = D.alloc_idx al /\
     (Z.max align min_alignment | raw_ptr_ q) /\
     SA.seg_base (D.seg_ al) <= raw_ptr_ q /\ raw_ptr_ q + n * sizeof T <= SA.seg_base (D.seg_ al) + sz /\
     (forall b, b ∈ l -> SA.ahole b = false -> SA.seg_base (D.seg_ al) + SA.afin b <= raw_ptr_ q \/
        raw_ptr_ q + n * sizeof T <= SA.seg_base (D.seg_ al) + SA.abeg b) /\
     local T (D.alloc_kind al) q e' = Ok (raw_ptr_ q) /\
     (exists dv dev, D.devices (the_heaps e) !! dv = Some dev /\ D.heap_idx_ dev = D.alloc_idx al /\ D.kind_ dev = D.alloc_kind al /\
        device_id this e' = Ok (D.device_id_ dev) /\ device_id_of T (D.alloc_kind al) q e' = Ok (D.device_id_ dev)) /\
     exists e'', deallocate this T q e' = Ok e'' /\ inv (the_heaps e'') /\ deallocate this T q e'' = Aborted).
Proof using Hmany Hbits.
  intros H Hn Ha Ha63 Hal. pose proof H as [[Pi _ _] V A Hact S Hb Hs]. set (a := Z.max align min_alignment) in *.
  destruct (SA.allocate_spec (D.seg_ al) l sz (n * sizeof T) a S Hn (pow2_max_16 _ Ha)) as (o & seg & Eo & Ho); [unfold a, min_alignment; lia|].
  unfold allocate, assert_init, the_allocator, D.the_allocator. rewrite Pi. mcbn. rewrite A. mcbn.
  unfold is_active. rewrite (proj2 (Z.leb_le _ _) Hact). mcbn. rewrite w64_small by (unfold is_u64, w64_mod; lia). fold a. rewrite Eo. mcbn.
  pose proof (allocate_endpost _ _ _ _ _ Eo) as Ee. destruct o as [raw|].
  - destruct Ho as (Hsz & Hdiv & [Eb (l1 & m & r & Hi & Hm & Eraw & Efin & Hnone & Hhunks & Hgrows) _]).
    pose proof (device_ok_with _ _ _ _ _ _ _ H Hi Eb Ee) as H'. set (e' := with_seg this al seg e) in *. set (al' := with_seg_al al seg) in *.
    assert (Hr : 0 <= SA.abeg m /\ SA.abeg m < SA.afin m <= sz).
    { pose proof (SA.tiles_range 0 (l1 ++ m :: r) sz m (SA.inv_tiles _ _ _ Hi) ltac:(set_solver)). lia. }
    assert (Hraw : SA.seg_base (D.seg_ al') <= raw < SA.seg_base (D.seg_ al') + sz) by (cbn; rewrite Eb; lia).
    assert (Halign : aligned T raw = true).
    { unfold aligned. destruct Hal as [Hal|Hal]; [by rewrite (proj2 (Z.leb_le _ _) Hal)|]. apply orb_true_iff. destruct (decide (align_of T <= 1)); [left; lia|right].
      apply Z.eqb_eq, Z.mod_divide; [lia|]. by transitivity a. }
    pose proof (make_device _ _ _ _ _ raw H') as Emk. change (make many_kinds (rank_me e') raw (D.alloc_idx al) (D.alloc_kind al) = device_ptr al' e' raw) in Emk.
    pose proof (device_valid _ _ _ _ _ _ _ H' Hraw Halign) as Vq. change (D.alloc_kind al') with (D.alloc_kind al) in Vq.
    unfold GlobalPtr.ctor. rewrite Emk, Vq. mcbn. exists (device_ptr al' e' raw), e'. split; [done|]. split; [apply H'|]. right.
    split; [cbn in Hraw |- *; rewrite Eb in Hraw; cbn; lia|]. split; [done|]. split; [done|]. split; [by destruct (device_fields al' e' raw) as [-> _]|].
    split; [done|]. split; [cbn; lia|]. split; [cbn; lia|].
    split; [intros b Hb' Hh; cbn; destruct (hunk_fresh _ _ _ _ _ _ b Hi Hgrows Hb' Hh); [left|right]; lia|].
    split; [by apply (local_device this al' (l1 ++ m :: r) sz e')|].
    split; [exact (device_id_device this al' (l1 ++ m :: r) sz e' T raw H' Hraw Halign)|].
    rewrite (deallocate_device this al' (l1 ++ m :: r) sz e') by done.
    pose proof (SA.deallocate_spec seg (l1 ++ m :: r) sz raw Hi) as Hd.
    assert (Eoff : w64 (raw - SA.seg_base seg) = SA.abeg m).
    { rewrite Eb, Eraw. replace (_ - _) with (SA.abeg m) by lia. apply w64_small. pose proof (SA.inv_top _ _ _ Hi). unfold is_u64, w64_mod. lia. }
    rewrite Eoff, Hhunks, lookup_insert_eq in Hd. destruct Hd as (seg2 & l2 & Ed & Hi2 & Eb2 & Hh2 & _).
    cbn [D.seg_ al' with_seg_al]. rewrite Ed. mcbn. pose proof (deallocate_endpost _ _ _ Ed) as Ee2.
    pose proof (device_ok_with this al' (l1 ++ m :: r) sz e' seg2 l2 H' Hi2 Eb2 Ee2) as H2.
    eexists. split; [done|]. split; [apply H2|].
    change (device_ptr al' e' raw) with (device_ptr (with_seg_al al' seg2) (with_seg this al' seg2 e') raw).
    rewrite (deallocate_device this _ l2 sz _ T raw H2); [|cbn in Hraw |- *; by rewrite Eb2|done].
    pose proof (SA.deallocate_spec seg2 l2 sz raw Hi2) as Hd2. rewrite Eb2, Eoff, Hh2, lookup_delete_eq in Hd2. cbn [D.seg_ with_seg_al]. by rewrite Hd2.
  - destruct Ho as [-> Hno]. pose proof (device_ok_with _ _ _ _ _ _ _ H S eq_refl eq_refl) as H'.
    pose proof (null_device _ _ _ _ _ T H') as En. change (D.alloc_kind (with_seg_al al (D.seg_ al))) with (D.alloc_kind al) in En.
    rewrite En. mcbn. eexists _, _. split; [done|]. split; [apply H'|]. left. split; [exact En|exact Hno].
Qed.

End Allocator.

(** * One device with an allocator of 64 KiB *)

Definition heaps_of (r : res (outcome * D.state)) : D.state := match r with Ok (_, st) => st | _ => D.init_state Example_.cats end.
Definition gpu_env : env := set_env_heaps (heaps_of one_allocator) two_env.
Definition gpu_alloc : D.allocator := D.mk_allocator D.cuda_device 1 (SA.segment_allocator 0x10000 0x10000 1) (Some 1%positive).
Definition double_ : ctype := mk_ctype 8 8.
Abbreviation at_gpu f := (f true false int_max Example_.cats Example_.enabled Example_.no_gex).

Lemma one_allocator_inv : DeviceHeapsInvariant.DeviceHeapsInvariant.inv Example_.cats Example_.no_gex (the_heaps gpu_env).
Proof.
  apply (heaps_reachable_inv Example_.cats Example_.enabled Example_.no_gex 0 Example_.opens Example_.vendor); [cbn; lia|exact Example_.vendor_good|lia|].
  unfold gpu_env, heaps_of. cbn [the_heaps set_env_heaps]. destruct one_allocator as [[r st]| | |] eqn:E; [|vm_compute in E; discriminate E..].
  exact (one_allocator_reachable r st E).
Qed.

Lemma gpu_ok : exists l, device_ok int_max Example_.cats Example_.no_gex 1 gpu_alloc l 0x10000 gpu_env.
Proof.
  destruct (SA.init_inv 0x10000 0x10000 1%positive) as (l & Hi & _); [lia..|]. exists l. split.
  - split; [reflexivity|cbn; lia|cbn; lia].
  - exact one_allocator_inv.
  - vm_compute. reflexivity.
  - cbn. lia.
  - exact Hi.
  - cbn. lia.
  - unfold int_max. cbn. lia.
Qed.

Definition first_allocation : global_ptr * env :=
  match at_gpu allocate 1%positive double_ 10 256 gpu_env with Ok r => r | _ => (mk_gptr 0 0 0 0, gpu_env) end.

Lemma first_allocation_eq : at_gpu allocate 1%positive double_ 10 256 gpu_env = Ok first_allocation.
Proof. vm_compute. reflexivity. Qed.

Lemma device_allocate_ok_witness : at_gpu allocate 1%positive double_ 10 256 gpu_env = Ok first_allocation /\
  at_gpu local double_ D.cuda_device first_allocation.1 first_allocation.2 = Ok (raw_ptr_ first_allocation.1) /\
  exists d, at_gpu device_id_of double_ D.cuda_device first_allocation.1 first_allocation.2 = Ok d.
Proof.
  split; [exact first_allocation_eq|]. destruct gpu_ok as [l H].
  destruct (device_allocate_ok true false int_max Example_.cats Example_.enabled Example_.no_gex eq_refl ltac:(by vm_compute) 1 gpu_alloc l 0x10000 gpu_env
    double_ 10 256 H ltac:(cbn; lia) ltac:(by exists 8) ltac:(lia) ltac:(right; by exists 32))
    as (q & e' & E & _ & [[Hn _]|(_ & _ & _ & _ & _ & _ & _ & _ & Hl & (dv & dev & _ & _ & _ & _ & Hq) & _)]);
    rewrite first_allocation_eq in E; assert (Eq : first_allocation = (q, e')) by congruence.
  - exfalso. assert (Hn' : at_gpu null first_allocation.2 double_ D.cuda_device = Ok first_allocation.1) by (rewrite Eq; exact Hn).
    revert Hn'. vm_compute. discriminate.
  - rewrite Eq. split; [exact Hl|]. exists (D.device_id_ dev). exact Hq.
Defined.

(** The first allocation is at the base of the segment. *)
Example allocate_run : match at_gpu allocate 1%positive double_ 10 256 gpu_env with
  | Ok (q, e') => q = mk_gptr 4 0x10000 1 D.cuda_device /\ segment_used 1 e' = Ok 80
  | _ => False
  end.
Proof. vm_compute. done. Qed.

End DeviceAllocator.
