(* ===== verification/Completions.v ===== *)
(** Completions and round-trip RPCs: [completion.hpp], [lpc_dormant.hpp], [rpc.hpp], with the
    fulfilment of promises in [backend.hpp] and [persona.hpp].

    A call such as [rpc] takes a list of completions: what is to happen upon its events.  They
    become states, which hold references to promises and requirements on them; the states
    of the operation event become a list of dormant callbacks, whose address goes to the
    recipient and comes back with the results.  The callbacks are then enqueued with their
    personas.  If the message cannot be sent all of it is taken back. *)
From S2P Require Import Prelude FutureCore FutureSystem DistObject.

Module Completions.
Import Futures System.

(** * Events and actions *)

Inductive event := Source | Remote | Operation.

#[export] Instance event_eq_dec : EqDecision event.
Proof. solve_decision. Defined.

Definition event_is_here (e : event) : bool := match e with Remote => false | _ => true end.

(** [cx_event_flag], [cx_event_done] *)
Definition event_flag (e : event) : Z := match e with Source => 1 | Remote => 2 | Operation => 4 end.
Definition done_none : Z := 0.
Definition done_source : Z := event_flag Source.
Definition done_remote : Z := Z.lor (event_flag Source) (event_flag Remote).
Definition done_operation : Z := Z.lor (Z.lor (event_flag Source) (event_flag Remote)) (event_flag Operation).
Definition cx_event_is_done (e : event) (value : Z) : bool := negb (Z.land value (event_flag e) =? 0).

(** The actions of a list [completions<...>]; [pro] is held by the action. *)
Inductive cx :=
  | BufferedCx (e : event) | BlockingCx (e : event)
  | FutureCx (e : event) (eager : bool)
  | PromiseCx (e : event) (eager : bool) (pro : hid)
  | LpcCx (e : event) (target : positive) (fn : Z)
  | RpcCx (e : event) (fn : Z).

Definition event_t (c : cx) : event :=
  match c with BufferedCx e | BlockingCx e | FutureCx e _ | PromiseCx e _ _ | LpcCx e _ _ | RpcCx e _ => e end.

Definition completions_has_event (cxs : list cx) (e : event) : bool := existsb (fun c => bool_decide (e = event_t c)) cxs.

(** * State *)

(** Callbacks that wait: those that completions make, and functions of users. *)
Inductive closure := FulfillValues (pro : hid) | FulfillUnit (pro : hid) | UserFn (fn : Z).

(** [lpc_dormant_qpromise] and [lpc_dormant_fn] with its [results], linked by [intruder.p];
    their level is the user's. *)
Inductive payload := QPromise (pro : hid) | Fn (fn : closure) (results : option val).
Record lpc_dormant := mk_dormant { next_ : option positive; target_ : positive; what : payload }.

(** What is in the user-level queues of personas: [peer_inbox_], [self_inbox_] and
    [pros_deferred_trivial_]. *)
Inductive slot := PeerInbox | SelfInbox | ProsDeferredTrivial.
Inductive task := Dormant (a : positive) | UserLpc (fn : Z) (vals : val) | DeferredPromise (h : hid).

#[export] Instance slot_eq_dec : EqDecision slot.
Proof. solve_decision. Defined.

(** A process: its futures; the dormant callbacks in its memory; the queues of its personas, all in
    one list in the order of arrival; [executed], the functions of users that ran; and
    the dormant callbacks of calls that recipients have not answered. *)
Record process := mk_process {
  program : system; cells : gmap positive lpc_dormant; next_cell : positive;
  queues : list (positive * slot * task); deferred_decrements : gmap hid Z; undischarged_n_ : gmap positive Z;
  executed : list (positive * Z * val); in_flight : list positive
}.

Definition heap_of (p : process) : heap := futures (program p).
Definition put_program (x : system) (p : process) : process :=
  mk_process x (cells p) (next_cell p) (queues p) (deferred_decrements p) (undischarged_n_ p) (executed p) (in_flight p).
Definition put_heap (st : heap) (p : process) : process := put_program (with_heap (program p) st) p.
Definition put_cells (m : gmap positive lpc_dormant) (p : process) : process :=
  mk_process (program p) m (next_cell p) (queues p) (deferred_decrements p) (undischarged_n_ p) (executed p) (in_flight p).
Definition put_queues (q : list (positive * slot * task)) (p : process) : process :=
  mk_process (program p) (cells p) (next_cell p) q (deferred_decrements p) (undischarged_n_ p) (executed p) (in_flight p).
Definition put_decrements (h : hid) (n : Z) (p : process) : process :=
  mk_process (program p) (cells p) (next_cell p) (queues p) (<[h := n]> (deferred_decrements p)) (undischarged_n_ p) (executed p)
    (in_flight p).
Definition put_executed (l : list (positive * Z * val)) (p : process) : process :=
  mk_process (program p) (cells p) (next_cell p) (queues p) (deferred_decrements p) (undischarged_n_ p) l (in_flight p).
Definition put_flight (l : list positive) (p : process) : process :=
  mk_process (program p) (cells p) (next_cell p) (queues p) (deferred_decrements p) (undischarged_n_ p) (executed p) l.
Definition discharge (per : positive) (n : Z) (p : process) : process :=
  mk_process (program p) (cells p) (next_cell p) (queues p) (deferred_decrements p)
    (<[per := default 0 (undischarged_n_ p !! per) + n]> (undischarged_n_ p)) (executed p) (in_flight p).

Definition enqueue (per : positive) (s : slot) (t : task) (p : process) : process := put_queues (queues p ++ [(per, s, t)]) p.
Definition decrements (h : hid) (p : process) : Z := default 0 (deferred_decrements p !! h).

(** [new] and [delete] of a dormant callback *)
Definition new_cell (c : lpc_dormant) (p : process) : positive * process :=
  (next_cell p, mk_process (program p) (<[next_cell p := c]> (cells p)) (Pos.succ (next_cell p)) (queues p)
    (deferred_decrements p) (undischarged_n_ p) (executed p) (in_flight p)).
Definition cell_at (a : positive) (p : process) : res lpc_dormant := deref (cells p !! a).
Definition delete_cell (a : positive) (p : process) : res process := _ ← cell_at a p; Ok (put_cells (delete a (cells p)) p).

(** An operation on the heap of futures *)
Definition lift (f : heap -> res heap) (p : process) : res process := st ← f (heap_of p); Ok (put_heap st p).

Section Thread.
(** The thread that runs: the personas active with it, and [UPCXXI_BACKEND_GASNET_SEQ], by which
    messages are only handled by the owner of a persona. *)
Context (active : gset positive) (seq_build : bool).
(** [future_header_promise<T...>::is_trivially_deletable] of each promise *)
Context (trivially_deletable : hid -> bool).

Definition active_with_caller (per : positive) : bool := bool_decide (per ∈ active).

(** * Fulfilment *)

(** [construct_results]; that of [future_header_result<>] does nothing. *)
Definition construct_results (h : hid) (v : val) (st : heap) : res heap :=
  x ← get h st; if void x then Ok st else DistObjects.construct_results h v st.

(** [backend::fulfill_now] *)
Definition fulfill_now (h : hid) (anon : Z) (p : process) : res process :=
  p ← lift (fulfill_anonymous h anon) p; lift (dropref h) p.
Definition fulfill_now_values (h : hid) (v : val) (p : process) : res process :=
  p ← lift (construct_results h v) p; fulfill_now h 1 p.

(** [persona_tls::fulfill_during_user_of_active]; the pointer [deferred_queue] that it tests
    is never set. *)
Definition promise_slot (h : hid) : slot := if trivially_deletable h then ProsDeferredTrivial else SelfInbox.
Definition fulfill_during_user_of_active (per : positive) (h : hid) (deps : Z) (p : process) : res process :=
  _ ← assert_that (active_with_caller per);
  let n := decrements h p + deps in
  let p := put_decrements h n p in
  if deps =? n then Ok (enqueue per (promise_slot h) (DeferredPromise h) p) else lift (dropref h) p.

(** [backend::fulfill_during<progress_level::user>] *)
Definition fulfill_during_values (per : positive) (h : hid) (v : val) (p : process) : res process :=
  p ← lift (construct_results h v) p; fulfill_during_user_of_active per h 1 p.

(** [persona_tls::enqueue_quiesced_promise] and [persona_tls::enqueue] *)
Definition known_active (per : positive) : bool := seq_build || active_with_caller per.
Definition enqueue_quiesced_promise (per : positive) (h : hid) (result_plus_anon : Z) (p : process) : res process :=
  _ ← assert_that (decrements h p =? 0);
  let p := put_decrements h result_plus_anon p in
  Ok (enqueue per (if known_active per then promise_slot h else PeerInbox) (DeferredPromise h) p).
Definition enqueue_lpc (per : positive) (a : positive) (p : process) : process :=
  enqueue per (if known_active per then SelfInbox else PeerInbox) (Dormant a) p.

(** [persona::lpc_ff] *)
Definition lpc_ff (per : positive) (fn : Z) (vals : val) (p : process) : process :=
  enqueue per (if active_with_caller per then SelfInbox else PeerInbox) (UserLpc fn vals) p.

(** * Dormant callbacks *)

Definition make_lpc_dormant (target : positive) (fn : closure) (tail : option positive) (p : process) : positive * process :=
  new_cell (mk_dormant tail target (Fn fn None)) p.
Definition make_lpc_dormant_quiesced_promise (target : positive) (pro : hid) (tail : option positive) (p : process) : positive * process :=
  new_cell (mk_dormant tail target (QPromise pro)) p.

(** [deserialized_raw_tuple::read_into_future_header_result] *)
Definition read_into_future_header_result (h : hid) (v : val) (st : heap) : res heap :=
  x ← get h st; if void x then Ok st else Ok (put h (set_status status_results_yes (set_results (Some v) x)) st).

(** One turn of [lpc_dormant::awaken], for the callback at [a]; [deserialized] is whether the
    values were read into a tuple of their own. *)
Definition awaken_one (a : positive) (c : lpc_dormant) (deserialized : bool) (vals : val) (p : process) : res process :=
  match what c with
  | QPromise pro =>
      p ← lift (if deserialized then construct_results pro vals else read_into_future_header_result pro vals) p;
      p ← enqueue_quiesced_promise (target_ c) pro 1 p;
      delete_cell a p
  | Fn fn _ =>
      let p := put_cells (<[a := mk_dormant (next_ c) (target_ c) (Fn fn (Some vals))]> (cells p)) p in
      Ok (enqueue_lpc (target_ c) a p)
  end.

(** [lpc_dormant::awaken]; [copyable] is whether the results can be copied. *)
Fixpoint awaken (fuel : nat) (copyable deserialized : bool) (a : positive) (vals : val) (p : process) : res process :=
  match fuel with
  | O => Undef
  | S fuel =>
      c ← cell_at a p;
      let deserialized := deserialized || match next_ c with Some _ => true | None => false end in
      p ← awaken_one a c deserialized vals p;
      match next_ c with
      | None => Ok p
      | Some a => if copyable then awaken fuel copyable deserialized a vals p else Aborted
      end
  end.

(** What the cancellation of a callback does, for the callbacks of completions. *)
Definition cancel_closure (fn : closure) (p : process) : res process :=
  match fn with FulfillValues pro | FulfillUnit pro => fulfill_now pro 1 p | UserFn _ => Ok p end.

Definition cancel_one (a : positive) (c : lpc_dormant) (p : process) : res process :=
  p ← (match what c with
       | QPromise pro =>
           x ← get pro (heap_of p);
           depcount ← countdown_of x;
           if 1 <? depcount then fulfill_now pro 1 p
           else _ ← assert_that (depcount =? 1); lift (dropref pro) p
       | Fn fn _ => cancel_closure fn p
       end);
  delete_cell a p.

(** [lpc_dormant::cancel_and_delete] *)
Fixpoint cancel_and_delete (fuel : nat) (a : positive) (p : process) : res process :=
  match fuel with
  | O => Undef
  | S fuel =>
      c ← cell_at a p;
      p ← cancel_one a c p;
      match next_ c with None => Ok p | Some a => cancel_and_delete fuel a p end
  end.

(** * The states of completions *)

(** [cx_state]; [matching] tells the specialization of [promise_cx] for events with values. *)
Inductive cx_state :=
  | SNone
  | SFuture (eager : bool) (pro_ : option hid) (get_future_invoked : bool)
  | SPromise (matching eager : bool) (pro_ : option hid)
  | SLpc (target : positive) (fn : Z)
  | SRpc (fn : Z).

(** [completions_state_head]: the event, and the state if it is selected. *)
Definition head_state : Type := event * option cx_state.

(** [current] is [current_persona()]; [op_void] whether the operation event has no values,
    as the source event never has. *)
Context (current : positive) (op_void : bool).
Definition no_values (e : event) : bool := match e with Operation => op_void | _ => true end.

Definition cx_state_ctor (c : cx) (p : process) : res (cx_state * process) :=
  match c with
  | BufferedCx _ | BlockingCx _ => Ok (SNone, p)
  | FutureCx _ eager => Ok (SFuture eager None false, p)
  | PromiseCx e eager pro =>
      if no_values e then Ok (SPromise false eager (Some pro), p)
      else p ← lift (require_anonymous pro 1) p; Ok (SPromise true eager (Some pro), p)
  | LpcCx _ target fn => Ok (SLpc target fn, discharge current 1 p)
  | RpcCx _ fn => Ok (SRpc fn, p)
  end.

(** [completions_state]; an action that is not selected is destroyed with its list. *)
Fixpoint completions_state (cxs : list cx) (p : process) : res (list head_state * process) :=
  match cxs with
  | [] => Ok ([], p)
  | c :: cxs =>
      '((s, p) : option cx_state * process) ←
        (if event_is_here (event_t c) then '((s, p) : cx_state * process) ← cx_state_ctor c p; Ok (Some s, p)
         else p ← (match c with PromiseCx _ _ pro => lift (dropref pro) p | _ => Ok p end); Ok (None, p));
      '((l, p) : list head_state * process) ← completions_state cxs p;
      Ok ((event_t c, s) :: l, p)
  end.

(** [cx_state<future_cx>::get_future] *)
Definition get_future (e : event) (eager : bool) (value : Z) (p : process) : res (hid * cx_state * process) :=
  if eager && no_values e && cx_event_is_done e value then
    let '(h, st) := make_future [] (heap_of p) in Ok (h, SFuture eager None true, put_heap st p)
  else
    '((h, st) : hid * heap) ← new_promise (no_values e) 1 (heap_of p);
    st ← Futures.get_future h st;
    Ok (h, SFuture eager (Some h) true, put_heap st p).

(** [set_done] *)
Definition set_done (e : event) (s : cx_state) (value : Z) (p : process) : res (cx_state * process) :=
  match s with
  | SPromise false eager (Some pro) =>
      if eager && cx_event_is_done e value then p ← lift (dropref pro) p; Ok (SPromise false eager None, p)
      else p ← lift (require_anonymous pro 1) p; Ok (s, p)
  | SPromise false _ None => Undef
  | _ => Ok (s, p)
  end.

(** [completions_returner]: the tail comes first. *)
Fixpoint completions_returner (l : list head_state) (value : Z) (p : process) : res (list head_state * list hid * process) :=
  match l with
  | [] => Ok ([], [], p)
  | (e, s) :: l =>
      '((l, futs, p) : list head_state * list hid * process) ← completions_returner l value p;
      match s with
      | Some (SFuture eager _ _) => '((h, s, p) : hid * cx_state * process) ← get_future e eager value p; Ok ((e, Some s) :: l, h :: futs, p)
      | Some s => '((s, p) : cx_state * process) ← set_done e s value p; Ok ((e, Some s) :: l, futs, p)
      | None => Ok ((e, None) :: l, futs, p)
      end
  end.

(** [cx_state::to_lpc_dormant]; the other states have no such function. *)
Definition cx_to_lpc_dormant (s : cx_state) (tail : option positive) (p : process) : res (positive * process) :=
  match s with
  | SFuture _ pro _ => pro ← (match pro with Some pro => Ok pro | None => Aborted end); Ok (make_lpc_dormant_quiesced_promise current pro tail p)
  | SPromise true _ pro => pro ← deref pro; Ok (make_lpc_dormant current (FulfillValues pro) tail p)
  | SPromise false _ pro => pro ← (match pro with Some pro => Ok pro | None => Aborted end); Ok (make_lpc_dormant current (FulfillUnit pro) tail p)
  | SLpc target fn => Ok (make_lpc_dormant target (UserFn fn) tail (discharge current (-1) p))
  | SNone | SRpc _ => Undef
  end.

Fixpoint to_lpc_dormant (e : event) (l : list head_state) (p : process) : res (option positive * process) :=
  match l with
  | [] => Ok (None, p)
  | (e', s) :: l =>
      '((tail, p) : option positive * process) ← to_lpc_dormant e l p;
      match s with
      | Some s => if decide (e = e') then '((a, p) : positive * process) ← cx_to_lpc_dormant s tail p; Ok (Some a, p) else Ok (tail, p)
      | None => Ok (tail, p)
      end
  end.

(** [cx_state::operator()] *)
Definition cx_fire (e : event) (s : cx_state) (vals : val) (p : process) : res process :=
  match s with
  | SNone => Ok p
  | SFuture eager pro invoked =>
      _ ← assert_that invoked;
      match pro with
      | None => if eager && no_values e then Ok p else Undef
      | Some pro => if eager then fulfill_now_values pro vals p else fulfill_during_values current pro vals p
      end
  | SPromise true eager pro => pro ← deref pro; if eager then fulfill_now_values pro vals p else fulfill_during_values current pro vals p
  | SPromise false _ (Some pro) => fulfill_during_user_of_active current pro 1 p
  | SPromise false _ None => Ok p
  | SLpc target fn => Ok (discharge current (-1) (lpc_ff target fn vals p))
  | SRpc _ => Undef
  end.

(** [cx_state::cancel] *)
Definition cx_cancel (s : cx_state) (p : process) : res process :=
  match s with
  | SNone => Ok p
  | SFuture _ pro _ | SPromise false _ pro => match pro with Some pro => fulfill_now pro 1 p | None => Ok p end
  | SPromise true _ pro => pro ← deref pro; fulfill_now pro 1 p
  | SLpc _ _ => Ok (discharge current (-1) p)
  | SRpc _ => Undef
  end.

(** [completions_state::operator()] and [cancel]: from the head to the tail. *)
Fixpoint visit (f : cx_state -> process -> res process) (e : event) (l : list head_state) (p : process) : res process :=
  match l with
  | [] => Ok p
  | (e', s) :: l =>
      p ← (match s with Some s => if decide (e = e') then f s p else Ok p | None => Ok p end);
      visit f e l p
  end.
Definition fire (e : event) (vals : val) : list head_state -> process -> res process := visit (fun s => cx_fire e s vals) e.
Definition cancel (e : event) : list head_state -> process -> res process := visit cx_cancel e.

(** * Calls *)

(** Futures that go out of scope *)
Definition drop_futures (l : list hid) (p : process) : res process := lift (drop_all l) p.

Inductive outcome := Returned (futs : list hid) | Thrown.

(** [detail::rpc_internal]; [throws] tells whether the injection of the message throws.  If not,
    the recipient gets the address of the dormant callbacks. *)
Definition rpc_internal (cxs : list cx) (throws : bool) (p : process) : res (outcome * process) :=
  _ ← assert_that (negb (completions_has_event cxs Remote));
  _ ← assert_that (completions_has_event cxs Operation);
  '((state, p) : list head_state * process) ← completions_state cxs p;
  '((state, futs, p) : list head_state * list hid * process) ← completions_returner state done_none p;
  '((op_lpc, p) : option positive * process) ← to_lpc_dormant Operation state p;
  op_lpc ← deref op_lpc;
  if throws then
    p ← cancel_and_delete (size (cells p)) op_lpc p;
    p ← cancel Source state p;
    p ← drop_futures futs p;
    Ok (Thrown, p)
  else
    p ← fire Source [] state (put_flight (in_flight p ++ [op_lpc]) p);
    Ok (Returned futs, p).

End Thread.

(** * Progress *)

Section Progress.
Context (active : gset positive) (seq_build : bool) (trivially_deletable : hid -> bool).

Definition run_closure (per : positive) (fn : closure) (vals : val) (p : process) : res process :=
  match fn with
  | FulfillValues pro => fulfill_during_values active trivially_deletable per pro vals p
  | FulfillUnit pro => fulfill_during_user_of_active active trivially_deletable per pro 1 p
  | UserFn fn => Ok (put_executed (executed p ++ [(per, fn, vals)]) p)
  end.

(** [promise_vtable::fulfill_deferred_and_drop_nontrivial] *)
Definition fulfill_deferred_and_drop_nontrivial (h : hid) (n : Z) (st : heap) : res heap :=
  x ← get h st;
  c ← countdown_of x;
  let st := put h (set_kind (KPromise (c - n)) x) st in
  st ← (if c - n =? 0 then readify h st else Ok st);
  dropref h st.

Definition fulfill_deferred_and_drop (h : hid) : Z -> heap -> res heap :=
  if trivially_deletable h then DistObjects.fulfill_deferred_and_drop h else fulfill_deferred_and_drop_nontrivial h.

(** One callback of a burst of the persona [per]; a dormant one is executed by
    [lpc_dormant_fn::the_execute_and_delete]. *)
Definition exec_task (per : positive) (t : task) (p : process) : res process :=
  match t with
  | Dormant a =>
      c ← cell_at a p;
      match what c with
      | Fn fn results => vals ← deref results; p ← run_closure per fn vals p; delete_cell a p
      | QPromise _ => Undef
      end
  | UserLpc fn vals => Ok (put_executed (executed p ++ [(per, fn, vals)]) p)
  | DeferredPromise h =>
      let n := decrements h p in
      lift (fulfill_deferred_and_drop h n) (put_decrements h 0 p)
  end.

(** The first of a queue leaves it. *)
Fixpoint take_task (per : positive) (s : slot) (l : list (positive * slot * task)) : option (task * list (positive * slot * task)) :=
  match l with
  | [] => None
  | (per', s', t) :: l =>
      if decide (per' = per /\ s' = s) then Some (t, l) else '(t', l') ← take_task per s l; Some (t', (per', s', t) :: l')
  end.

(** The results of a call come back: the recipient's [rpc_recipient_after] made the message. *)
Definition reply (copyable : bool) (a : positive) (vals : val) (p : process) : res process :=
  awaken active seq_build trivially_deletable (size (cells p)) copyable false a vals p.

End Progress.

End Completions.
