(* ===== verification/CompletionsHeap.v ===== *)
(** Promises and what is required of them.

    The futures of a process, with references that are not handles of user code, and promises
    whose countdowns are known.  Each operation by which completions change a promise keeps
    the invariant of the futures, and changes what is known as it should. *)
From S2P Require Import Prelude FutureCore FutureInvariant FutureUpdates FutureSafety FutureSystem FutureFrame DistObject Completions.

Module CompletionsHeap.
Import Futures Invariant Updates Operations System Frame Completions.

(** * Outcomes with no undefined behaviour *)

Definition or_abort {A} (r : res A) (Q : A -> Prop) : Prop := r = Aborted \/ exists a, r = Ok a /\ Q a.

Lemma or_abort_bind {A B} (r : res A) (f : A -> res B) (Q : A -> Prop) (R : B -> Prop) :
  or_abort r Q -> (forall a, Q a -> or_abort (f a) R) -> or_abort (r ≫= f) R.
Proof. intros [->|(a & -> & Ha)] Hf; [by left|]. exact (Hf a Ha). Qed.

Lemma or_abort_ok {A} (a : A) (Q : A -> Prop) : Q a -> or_abort (Ok a) Q.
Proof. right. by exists a. Qed.

Lemma or_abort_assert {B} b (f : unit -> res B) (R : B -> Prop) : (b = true -> or_abort (f tt) R) -> or_abort (assert_that b ≫= f) R.
Proof. destruct b; [|by left]. intros H. exact (H eq_refl). Qed.

Lemma or_abort_mono {A} (r : res A) (Q R : A -> Prop) : (forall a, Q a -> R a) -> or_abort r Q -> or_abort r R.
Proof. intros H [->|(a & -> & Ha)]; [by left|right; eauto]. Qed.

(** * Promises whose countdowns are known

    [req] is what is required of each of the promises [known]; [R] are references besides the handles of user code. *)
Record heap_good (known : gset hid) (req : hid -> Z) (R : list hid) (x : system) : Prop := {
  hg_inv : exists P, sys_inv ∅ P (more R x);
  hg_count : forall h, h ∈ known -> (h < next_h (futures x))%nat /\
    forall y, hs (futures x) !! h = Some y -> kind y = KPromise (req h)
}.

Lemma heap_good_ext known known' req req' R R' x : heap_good known req R x -> known' ⊆ known ->
  (forall q, tokens R' q = tokens R q) -> (forall h, h ∈ known' -> req' h = req h) -> heap_good known' req' R' x.
Proof.
  intros [[P [Hi Hl]] Hc] Hk HR Hr. split.
  - exists P. split; [|exact Hl]. eapply inv_ext; [|exact Hi]. intros q _. cbn [roots more with_roots with_heap]. by rewrite !tokens_app, HR.
  - intros h Hh. rewrite Hr by done. by apply Hc, Hk.
Qed.

Section Operations.
Context {known : gset hid} {req : hid -> Z} {R : list hid} {x : system}.
Context (Hg : heap_good known req R x).

Lemma good_live h : h ∈ roots x ++ R -> exists y, hs (futures x) !! h = Some y.
Proof using Hg.
  intros Hh. destruct (hg_inv _ _ _ _ Hg) as [P [Hi _]]. apply (inv_live Hi). cbn [roots more with_roots with_heap].
  pose proof (tokens_in _ _ Hh). lia.
Qed.

(** Another heap, with other references, in which only what is required of [h] differs. *)
Lemma good_change h n R' x' P own : sys_inv ∅ P (more R x) -> inv (sys_mode ∅ P (more R x)) own (futures x') ->
  running x' = running x /\ log x' = log x -> (forall q, own q = tokens (roots x' ++ R') q) ->
  keeps (fun q => q = h) no_body (futures x) (futures x') ->
  (forall y, h ∈ known -> hs (futures x') !! h = Some y -> kind y = KPromise (req h + n)) ->
  heap_good known (bump req h n) R' x'.
Proof using Hg.
  intros [_ Hl] Hi [Er El] Hown Hk Hh. split.
  - exists P. split; [|cbn in *; by rewrite El]. eapply inv_ext; [intros q _; apply Hown|]. unfold sys_mode, ran in *. cbn in *.
    by rewrite Er, El.
  - intros q Hq. destruct (hg_count _ _ _ _ Hg q Hq) as [Hlt Hc]. split; [pose proof (k_next_h _ _ _ _ Hk); lia|].
    intros y Hy. destruct (decide (q = h)) as [->|Hne]; [rewrite bump_eq; by apply Hh|]. rewrite bump_ne by done.
    destruct (k_header _ _ _ _ Hk q y Hlt Hy) as (y0 & Hy0 & _ & [?|[-> _]]); [done|]. by apply Hc.
Qed.

(** The same without a change of what is required. *)
Lemma good_same E R' x' P own : sys_inv ∅ P (more R x) -> inv (sys_mode ∅ P (more R x)) own (futures x') ->
  running x' = running x /\ log x' = log x -> (forall q, own q = tokens (roots x' ++ R') q) ->
  keeps E no_body (futures x) (futures x') -> (forall q, E q -> q ∉ known) -> heap_good known req R' x'.
Proof using Hg.
  intros [_ Hl] Hi [Er El] Hown Hk HE. split.
  - exists P. split; [|cbn in *; by rewrite El]. eapply inv_ext; [intros q _; apply Hown|]. unfold sys_mode, ran in *. cbn in *.
    by rewrite Er, El.
  - intros q Hq. destruct (hg_count _ _ _ _ Hg q Hq) as [Hlt Hc]. split; [pose proof (k_next_h _ _ _ _ Hk); lia|].
    intros y Hy. destruct (k_header _ _ _ _ Hk q y Hlt Hy) as (y0 & Hy0 & _ & [HEq|[-> _]]); [|by apply Hc].
    by destruct (HE q HEq).
Qed.

Lemma fulfill_good h n : h ∈ known -> h ∈ roots x ++ R -> or_abort (fulfill h n (futures x)) (fun st =>
  heap_good known (bump req h (- n)) R (with_heap x st)).
Proof using Hg.
  intros Hh Hr. destruct (good_live h Hr) as [y Hy]. pose proof (proj2 (hg_count _ _ _ _ Hg h Hh) y Hy) as Hk.
  destruct (hg_inv _ _ _ _ Hg) as [P HP]. pose proof (si_inv _ _ _ HP) as Hi.
  destruct (fulfill_cases (s := more R x) HP Hy Hk n) as [(st & E & _ & Hc & Hn & Hyes)|[E _]]; [|by left].
  right. exists st. split; [exact E|].
  destruct (fulfill_ok _ _ _ h y _ n Hi eq_refl eq_refl eq_refl Hy Hk Hc Hn Hyes) as (st' & E' & Hi' & Hh').
  assert (st' = st) as -> by (cbn in E, E'; congruence).
  eapply good_change; [exact HP|exact Hi'|done|done| |].
  - eapply fulfill_keeps; [done|apply keeps_refl| |exact E]. by eapply inv_sucs_ok.
  - intros z _ Hz. destruct (Hh' z Hz) as (_ & _ & _ & Ek & _). rewrite <- Ek. destruct (req h - n =? 0) eqn:E0; cbn; f_equal; lia.
Qed.

Lemma require_good h n : h ∈ known -> h ∈ roots x ++ R -> or_abort (require_anonymous h n (futures x)) (fun st =>
  heap_good known (bump req h n) R (with_heap x st)).
Proof using Hg.
  intros Hh Hr. destruct (good_live h Hr) as [y Hy]. pose proof (proj2 (hg_count _ _ _ _ Hg h Hh) y Hy) as Hk.
  destruct (hg_inv _ _ _ _ Hg) as [P HP]. pose proof (si_inv _ _ _ HP) as Hi.
  destruct (decide (0 < req h /\ 0 <= n)) as [[Hc Hn]|Hno].
  - destruct (require_anonymous_ok _ _ _ _ _ _ n Hi eq_refl Hy Hk Hc Hn) as [E Hi']. right. eexists. split; [exact E|].
    eapply good_change; [exact HP|exact Hi'|done|done|by eapply require_keeps|].
    intros z _. cbn. rewrite lookup_insert_eq. by intros [= <-].
  - left. unfold require_anonymous, countdown_of. rewrite (get_some _ _ _ Hy). mcbn. rewrite Hk. mcbn.
    destruct (0 <? req h) eqn:E1; [|done]. mcbn. destruct (0 <=? n) eqn:E2; [|done]. lia.
Qed.

Lemma put_results_good h v y : h ∈ known -> hs (futures x) !! h = Some y -> kind y = KPromise (req h) -> 0 < req h ->
  heap_good known req R (with_heap x (put h (set_status status_results_yes (set_results (Some v) y)) (futures x))).
Proof using Hg.
  intros Hh Hy Hk Hc. destruct (hg_inv _ _ _ _ Hg) as [P HP]. pose proof (si_inv _ _ _ HP) as Hi.
  set (y' := set_status _ _). apply (heap_good_ext known known (bump req h 0) _ R); [|done|done|].
  - eapply (good_change h 0); [exact HP| |done|done|eapply keeps_put; [exact Hy|done|by left]|].
    + eapply (promise_put _ _ _ h y y' (req h) (req h)); try done. by left.
    + intros z _. cbn. rewrite lookup_insert_eq. intros [= <-]. cbn. rewrite Hk. f_equal. lia.
  - intros q _. unfold bump. case_decide; lia.
Qed.

Lemma construct_results_good h v : h ∈ known -> h ∈ roots x ++ R -> or_abort (construct_results h v (futures x)) (fun st =>
  heap_good known req R (with_heap x st)).
Proof using Hg.
  intros Hh Hr. destruct (good_live h Hr) as [y Hy]. pose proof (proj2 (hg_count _ _ _ _ Hg h Hh) y Hy) as Hk.
  destruct (hg_inv _ _ _ _ Hg) as [P HP].
  unfold construct_results, DistObjects.construct_results. rewrite (get_some _ _ _ Hy). mcbn. destruct (void y).
  { apply or_abort_ok. destruct x. exact Hg. }
  destruct (status y =? status_results_no) eqn:Es; [|by left]. apply Z.eqb_eq in Es. mcbn. apply or_abort_ok.
  apply (put_results_good h v y); [done..|]. by eapply (promise_status HP Hy Hk).
Qed.

(** The values of an answer that are read into a promise. *)
Lemma read_into_good h v : h ∈ known -> h ∈ roots x ++ R -> 0 < req h -> or_abort (read_into_future_header_result h v (futures x)) (fun st =>
  heap_good known req R (with_heap x st)).
Proof using Hg.
  intros Hh Hr Hc. destruct (good_live h Hr) as [y Hy]. pose proof (proj2 (hg_count _ _ _ _ Hg h Hh) y Hy) as Hk.
  unfold read_into_future_header_result. rewrite (get_some _ _ _ Hy). mcbn. destruct (void y).
  - apply or_abort_ok. destruct x. exact Hg.
  - apply or_abort_ok. by apply (put_results_good h v y).
Qed.

Lemma dropref_good h R' : R ≡ₚ h :: R' -> exists st, dropref h (futures x) = Ok st /\ heap_good known req R' (with_heap x st).
Proof using Hg.
  intros HR. destruct (hg_inv _ _ _ _ Hg) as [P HP]. pose proof (si_inv _ _ _ HP) as Hi.
  destruct (dropref_ok _ _ h Hi) as (st & E & Hi' & _); [intros; apply tokens_nonneg| |].
  { cbn [roots more with_roots with_heap]. apply tokens_in. rewrite HR. set_solver. }
  exists st. split; [exact E|]. eapply (good_same (fun _ => False)); [exact HP|exact Hi'|done| |by apply drops_keeps; eapply dropref_drops|done].
  intros q. cbn [roots more with_roots with_heap]. unfold bump. rewrite !tokens_app, HR, tokens_cons. unfold ind. repeat case_decide; subst; try done; lia.
Qed.

Lemma drop_all_good l R' : R ≡ₚ l ++ R' -> exists st, drop_all l (futures x) = Ok st /\ heap_good known req R' (with_heap x st).
Proof using Hg.
  intros HR. destruct (hg_inv _ _ _ _ Hg) as [P HP]. pose proof (si_inv _ _ _ HP) as Hi.
  destruct (drop_all_ok _ _ _ l Hi) as (st & E & Hi').
  { intros q. cbn [roots more with_roots with_heap]. rewrite HR, !tokens_app. pose proof (tokens_nonneg (roots x) q). pose proof (tokens_nonneg R' q). lia. }
  exists st. split; [exact E|]. eapply (good_same (fun _ => False)); [exact HP|exact Hi'|done| |by apply drops_keeps; eapply drop_all_drops|done].
  intros q. cbn [roots more with_roots with_heap]. rewrite !tokens_app, HR, tokens_app. lia.
Qed.

(** A promise that nobody knows, and its future. *)
Lemma new_promise_good v : exists st st', let h := next_h (futures x) in
  new_promise v 1 (futures x) = Ok (h, st) /\ Futures.get_future h st = Ok st' /\ h ∉ known /\
  heap_good ({[h]} ∪ known) (fun q => if decide (q = h) then 1 else req q) (h :: h :: R) (with_heap x st') /\
  next_h st' = S h.
Proof using Hg.
  destruct (hg_inv _ _ _ _ Hg) as [P HP]. pose proof (si_inv _ _ _ HP) as Hi.
  destruct (new_promise_ok _ _ _ v 1 Hi) as (h & st & E & Hi1 & Eh); [lia|]. change (futures (more R x)) with (futures x) in E, Eh. subst h.
  set (h := next_h (futures x)) in *. assert (Hno : h ∉ known).
  { intros Hh. destruct (hg_count _ _ _ _ Hg h Hh). unfold h in *. lia. }
  assert (Hy : exists y, hs st !! h = Some y /\ kind y = KPromise 1 /\ 0 <= ref_n y /\ next_h st = S h).
  { unfold new_promise in E. cbn in E. injection E as <-. cbn. rewrite lookup_insert_eq. eexists. split; [done|]. cbn. split_and!; done || lia. }
  destruct Hy as (y & Hy & Hk & Hn & Hnext).
  destruct (incref_ok _ _ h y Hi1 Hy (or_introl Hn)) as (st' & E' & Hi2 & _).
  exists st, st'. split_and!; [exact E|exact E'|done| |].
  - split.
    + exists P. split; [|apply HP]. eapply inv_ext; [|exact Hi2]. intros q _. cbn [roots more with_roots with_heap].
      unfold bump. rewrite !tokens_app, !tokens_cons. unfold ind. repeat case_decide; subst; try done; lia.
    + assert (Hkeep : keeps no_body no_body (futures x) st').
      { eapply keeps_trans; [eapply new_promise_keeps; exact E|apply drops_keeps; eapply incref_drops; exact E']. }
      intros q Hq. cbn [futures with_heap]. case_decide as Hqh.
      * subst q. split.
        { unfold incref in E'. rewrite (get_some _ _ _ Hy) in E'. cbn in E'. rewrite (proj2 (Z.leb_le _ _) Hn) in E'.
          injection E' as <-. cbn. lia. }
        intros z Hz. unfold Futures.get_future, incref in E'. rewrite (get_some _ _ _ Hy) in E'. cbn in E'.
        rewrite (proj2 (Z.leb_le _ _) Hn) in E'. injection E' as <-. cbn in Hz. rewrite lookup_insert_eq in Hz. by injection Hz as <-.
      * assert (Hq' : q ∈ known) by set_solver. destruct (hg_count _ _ _ _ Hg q Hq') as [Hlt Hc].
        split; [pose proof (k_next_h _ _ _ _ Hkeep); lia|]. intros z Hz.
        destruct (k_header _ _ _ _ Hkeep q z Hlt Hz) as (z0 & Hz0 & _ & [[]|[-> _]]). by apply Hc.
  - unfold Futures.get_future, incref in E'. rewrite (get_some _ _ _ Hy) in E'. cbn in E'.
    rewrite (proj2 (Z.leb_le _ _) Hn) in E'. injection E' as <-. done.
Qed.

Lemma make_future_good v : exists h st, make_future v (futures x) = (h, st) /\ heap_good known req (h :: R) (with_heap x st).
Proof using Hg.
  destruct (hg_inv _ _ _ _ Hg) as [P HP]. destruct (make_future_ok _ _ _ v (si_inv _ _ _ HP)) as (h & st & E & Hi & _).
  exists h, st. split; [exact E|]. pose proof (make_future_drops v (futures x)) as Hd. cbn in E. rewrite E in Hd.
  eapply (good_same (fun _ => False)); [exact HP|exact Hi|done| |by apply drops_keeps|done].
  intros q. cbn [roots more with_roots with_heap]. unfold bump. rewrite !tokens_app, tokens_cons. unfold ind. repeat case_decide; subst; try done; lia.
Qed.

End Operations.

(** [fulfill_deferred_and_drop] drops the promise as [dropref] does, without looking whether it is ready. *)
Lemma dropref_own h st y : hs st !! h = Some y -> load y = Result h -> 0 <= ref_n y ->
  dropref h st = (x ← get h st; let st := put h (set_ref (ref_n x - 1) x) st in if ref_n x - 1 =? 0 then free h st else Ok st).
Proof.
  intros Hy Hl Hn. unfold dropref, decref. rewrite (get_some _ _ _ Hy). mcbn. rewrite (proj2 (Z.leb_le 0 _)) by done.
  destruct (ref_n y - 1 =? 0); [|done]. unfold delete1. rewrite get_put. mcbn. cbn [status set_ref load].
  unfold result_of. cbn [load set_ref]. rewrite Hl. mcbn. rewrite Nat.eqb_refl. by destruct (status y =? status_ready).
Qed.

Definition settle (h : hid) (n : Z) (st : heap) : res heap :=
  x ← get h st;
  c ← countdown_of x;
  let st := put h (set_kind (KPromise (c - n)) x) st in
  if c - n =? 0 then readify h st else Ok st.

Lemma settle_good {known req R x} (Hg : heap_good known req R x) h n : h ∈ known -> h ∈ R -> 0 < n <= req h ->
  or_abort (settle h n (futures x)) (fun st => heap_good known (bump req h (- n)) R (with_heap x st) /\
    exists z, hs st !! h = Some z /\ load z = Result h /\ 0 <= ref_n z).
Proof.
  intros Hh HR [Hn Hle]. assert (Hin : h ∈ roots x ++ R) by set_solver. destruct (good_live Hg h Hin) as [y Hy].
  pose proof (proj2 (hg_count _ _ _ _ Hg h Hh) y Hy) as Hk. destruct (hg_inv _ _ _ _ Hg) as [P HP]. pose proof (si_inv _ _ _ HP) as Hi.
  destruct (promise_header _ _ _ _ _ _ Hi Hy Hk ltac:(lia)) as (Ha & _ & Hload & Hst).
  assert (Hcases : status y = status_results_yes \/ status y = status_results_no) by (destruct Hst as [[? _]|[? _]]; auto).
  unfold settle, countdown_of. rewrite (get_some _ _ _ Hy). mcbn. rewrite Hk. mcbn.
  destruct (decide (req h = n /\ status y = status_results_no)) as [[E0 Es]|Hok].
  { left. rewrite (proj2 (Z.eqb_eq _ 0)) by lia. unfold readify. rewrite get_put. mcbn. cbn [status set_kind]. by rewrite Es. }
  assert (Hyes : req h = n -> status y = status_results_yes) by (intros ?; destruct Hcases; [done|tauto]).
  destruct (fulfill_ok _ _ _ h y _ n Hi eq_refl eq_refl eq_refl Hy Hk ltac:(lia) Hle Hyes) as (s1 & E1 & Hi1 & Hh1).
  destruct (fulfill_good Hg h n Hh Hin) as [E2|(s2 & E2 & Hg2)]; [cbn in E1, E2; congruence|].
  assert (s2 = s1) as -> by (cbn in E1, E2; congruence).
  assert (Hlive : exists z, hs s1 !! h = Some z).
  { apply (inv_live Hi1). cbn [roots more with_roots]. rewrite tokens_app. pose proof (tokens_in _ _ HR). pose proof (tokens_nonneg (roots x) h). lia. }
  destruct Hlive as [z Hz]. change (futures (more R x)) with (futures x) in E1. unfold fulfill, countdown_of in E1.
  rewrite (get_some _ _ _ Hy) in E1. cbn [mbind res_bind] in E1. rewrite Hk in E1. cbn [mbind res_bind] in E1.
  rewrite (proj2 (Z.ltb_lt 0 _)), (proj2 (Z.leb_le 0 _)) in E1 by lia. cbn [assert_that mbind res_bind] in E1.
  right. exists s1. split; [exact E1|]. split; [exact Hg2|]. exists z. split; [done|]. split.
  - destruct (Hh1 z Hz) as (_ & _ & El & _). rewrite <- El. by destruct (req h - n =? 0).
  - apply Z.lt_le_incl. by apply (c_pos _ _ _ (proj1 Hi1) h).
Qed.

Lemma fulfill_deferred_eq triv h n st : fulfill_deferred_and_drop triv h n st =
  (st ← settle h n st; if triv h then (x ← get h st; let st := put h (set_ref (ref_n x - 1) x) st in if ref_n x - 1 =? 0 then free h st else Ok st)
                       else dropref h st).
Proof.
  unfold fulfill_deferred_and_drop, DistObjects.fulfill_deferred_and_drop, fulfill_deferred_and_drop_nontrivial, settle, readify.
  change (status_active + 1) with status_results_yes. destruct (triv h).
  all: destruct (get h st) as [x| | |]; [|done..]; mcbn; destruct (countdown_of x); done.
Qed.

Lemma fulfill_deferred_good {known req R x} (Hg : heap_good known req R x) triv h n R' : h ∈ known -> R ≡ₚ h :: R' -> 0 < n <= req h ->
  or_abort (fulfill_deferred_and_drop triv h n (futures x)) (fun st => heap_good known (bump req h (- n)) R' (with_heap x st)).
Proof.
  intros Hh HR Hn. rewrite fulfill_deferred_eq. eapply or_abort_bind; [apply (settle_good Hg h n Hh); [rewrite HR; left|done]|].
  intros s1 (Hg1 & z & Hz & Hl & Hp). destruct (dropref_good Hg1 h R' HR) as (st & Ed & Hg2). right. exists st. split; [|exact Hg2].
  cbn [futures with_heap] in Ed. destruct (triv h); [|exact Ed]. by rewrite <- (dropref_own h s1 z).
Qed.

(** * User code *)

(** The promise that an action operates on, and by how much it changes what is required. *)
Definition effect (a : action) : option (hid * Z) :=
  match a with
  | Require h n => Some (h, n)
  | FulfillAnonymous h n => Some (h, - n)
  | FulfillResult h _ | Finalize h => Some (h, -1)
  | _ => None
  end.

Definition known_after (a : action) (x : system) (known : gset hid) : gset hid :=
  match a with NewPromise _ _ => {[next_h (futures x)]} ∪ known | _ => known end.
Definition req_after (a : action) (x : system) (req : hid -> Z) : hid -> Z :=
  match a with
  | NewPromise _ deps => fun q => if decide (q = next_h (futures x)) then deps else req q
  | _ => match effect a with Some (h, n) => bump req h n | None => req end
  end.

Lemma fulfill_result_split h v st : fulfill_result h v st = (st ← construct_results h v st; fulfill h 1 st).
Proof.
  unfold fulfill_result, construct_results, DistObjects.construct_results. destruct (get h st); [|done..]. mcbn.
  destruct (void a); [done|]. cbn [orb]. by destruct (status a =? status_results_no).
Qed.

Lemma incref_good {known req R x} h : heap_good known req R x -> h ∈ roots x ++ R ->
  exists st, incref h 1 (futures x) = Ok st /\ heap_good known req R (gain x (h, st)).
Proof.
  intros Hg Hin. destruct (good_live Hg h Hin) as [y Hy]. destruct (hg_inv _ _ _ _ Hg) as [P HP].
  destruct (incref_ok _ _ h y (si_inv _ _ _ HP) Hy) as (st & E & Hi & _).
  { apply (ref_nonneg _ _ _ _ (si_inv _ _ _ HP)); [apply tokens_nonneg|done]. }
  exists st. split; [exact E|]. eapply (good_same Hg (fun _ => False)); [exact HP|exact Hi|done| |by apply drops_keeps; eapply incref_drops|done].
  intros q. cbn [roots more with_roots gain fst snd app]. unfold bump. rewrite tokens_cons. unfold ind. repeat case_decide; subst; try done; lia.
Qed.

Lemma tokens_out l h : h ∉ l -> tokens l h = 0.
Proof. induction l as [|q l IH]; [done|]. intros Hn. rewrite tokens_cons, ind_no, IH; [done|set_solver..]. Qed.

Lemma promise_at_root h x y : promise_at h x = Some y -> h ∈ roots x.
Proof.
  unfold promise_at. intros (l & Hl & _)%bind_Some. apply take_root_held in Hl. destruct (decide (h ∈ roots x)) as [|Hn%tokens_out]; [done|lia].
Qed.

Lemma fmap_or_abort {A B} (f : A -> B) r (Q : A -> Prop) (R : B -> Prop) : or_abort r Q -> (forall a, Q a -> R (f a)) ->
  or_abort (fmap_res f r) R.
Proof. intros Hr HR. unfold fmap_res. eapply or_abort_bind; [exact Hr|]. intros a Ha. by apply or_abort_ok, HR. Qed.

(** User code that operates on promises that are known. *)
Lemma effect_good {known req R x} a h n r : heap_good known req R x -> effect a = Some (h, n) -> h ∈ known ->
  user_action a x = Some r -> or_abort r (heap_good known (bump req h n) R).
Proof.
  intros Hg He Hh Hr.
  assert (Hin : forall y, promise_at h x = Some y -> h ∈ roots x ++ R) by (intros y ?%promise_at_root; set_solver).
  destruct a; try done; injection He as -> <-; cbn [user_action] in Hr; apply bind_Some in Hr as (y & Hy & Hr);
    try (destruct (Bool.eqb _ _); [|done]); injection Hr as <-; specialize (Hin y Hy).
  - eapply fmap_or_abort; [by apply (require_good Hg)|done].
  - unfold fulfill_anonymous. apply (fmap_or_abort _ _ (fun st => heap_good known (bump req h (- n0)) R (with_heap x st))); [|done].
    apply or_abort_assert. intros _. by apply (fulfill_good Hg).
  - rewrite fulfill_result_split. eapply fmap_or_abort; [|intros st Hst; exact Hst]. cbn beta.
    eapply or_abort_bind; [by apply (construct_results_good Hg)|]. intros st Hst. exact (fulfill_good Hst h 1 Hh Hin).
  - unfold finalize. eapply fmap_or_abort; [|intros st; exact id]. cbn beta.
    eapply or_abort_bind; [by apply (fulfill_good Hg h 1)|]. intros st Hst. destruct (incref_good h Hst Hin) as (st' & E & Hg').
    right. exists st'. split; [exact E|exact Hg'].
Qed.

Lemma user_exec_good {known req R x} a r : heap_good known req R x -> (forall h n, effect a = Some (h, n) -> h ∈ known) ->
  System.exec a x = Some r -> or_abort r (heap_good (known_after a x known) (req_after a x req) R).
Proof.
  intros Hg Hknown Hr. destruct (effect a) as [[h n]|] eqn:He.
  { assert (Hu : user_action a x = Some r).
    { unfold System.exec in Hr. destruct a; try done; by destruct (running x), (active (futures x)) as [[]|]. }
    pose proof (effect_good a h n r Hg He (Hknown h n eq_refl) Hu) as Hgood. unfold known_after, req_after. rewrite He. by destruct a. }
  destruct (hg_inv _ _ _ _ Hg) as [P HP]. pose proof (exec_more R _ _ _ Hr) as Hf.
  set (P' := {[next_h (futures x)]} ∪ P). assert (HP' : sys_inv ∅ P' (more R x)) by (eapply sys_pend_mono; [exact HP|unfold P'; set_solver]).
  destruct (exec_outcome _ _ _ _ _ HP' ltac:(unfold P'; set_solver) Hf) as [(y & Ey & Hy & _)|[Ea _]]; [|left; by destruct r].
  apply fmap_res_ok in Ey as (x' & -> & ->). apply or_abort_ok. pose proof (exec_keeps _ _ _ _ _ HP' Hf) as Hk.
  assert (Hold : heap_good known req R x').
  { split; [by exists P'|]. intros q Hq. destruct (hg_count _ _ _ _ Hg q Hq) as [Hlt Hc].
    split; [pose proof (k_next_h _ _ _ _ Hk); cbn in *; lia|]. intros z Hz.
    destruct (k_header _ _ _ _ Hk q z Hlt Hz) as (z0 & Hz0 & _ & [Ho|[-> _]]); [|by apply Hc]. exfalso. by destruct a. }
  unfold known_after, req_after. rewrite He. destruct a; try exact Hold.
  assert (Hn : new_promise is_void deps (futures x) = Ok (next_h (futures x), futures x') /\ next_h (futures x') = S (next_h (futures x)) /\
    exists y, hs (futures x') !! next_h (futures x) = Some y /\ kind y = KPromise deps).
  { unfold System.exec in Hr. assert (Hu : user_action (NewPromise is_void deps) x = Some (Ok x')) by (by destruct (running x), (active (futures x)) as [[]|]).
    cbn [user_action] in Hu. injection Hu as Hu. apply fmap_res_ok in Hu as ([h st] & E & ->). unfold new_promise in E |- *.
    destruct (1 <=? deps); [|done]. cbn [assert_that mbind res_bind] in E |- *. injection E as <- <-. cbn. split_and!; [done|done|].
    rewrite lookup_insert_eq. by eexists. }
  destruct Hn as (_ & En & y & Hy' & Hky). split; [apply Hold|]. intros q Hq. case_decide as Hqe.
  - subst q. split; [lia|]. intros z Hz. congruence.
  - apply (hg_count _ _ _ _ Hold). set_solver.
Qed.

End CompletionsHeap.
