(* ===== verification/CompletionsInvariant.v ===== *)
(** The invariant of a process with completions.

    Every reference that a process holds and every requirement that it will discharge is accounted
    for: by a dormant callback, by a queue, or, in the middle of a call, by a token.  The
    lemmas say how tokens change hands. *)
From S2P Require Import Prelude FutureCore FutureInvariant FutureUpdates FutureSafety FutureSystem FutureFrame DistObject Completions CompletionsHeap.

Module CompletionsInvariant.
Import Futures Invariant Updates Operations System Frame Completions CompletionsHeap.

(** * What a process holds *)

Definition closure_refs (fn : closure) : list hid := match fn with FulfillValues h | FulfillUnit h => [h] | UserFn _ => [] end.
Definition cell_refs (c : lpc_dormant) : list hid := match what c with QPromise h => [h] | Fn fn _ => closure_refs fn end.
Definition cell_lpc (c : lpc_dormant) : list (positive * Z) := match what c with Fn (UserFn fn) _ => [(target_ c, fn)] | _ => [] end.
Definition is_qpromise (h : hid) (c : lpc_dormant) : Prop := what c = QPromise h.

Definition cells_list (m : gmap positive lpc_dormant) : list lpc_dormant := (map_to_list m).*2.
Definition task_promise (x : positive * slot * task) : option hid := match x.2 with DeferredPromise h => Some h | _ => None end.
Definition task_cell (x : positive * slot * task) : option positive := match x.2 with Dormant a => Some a | _ => None end.
Definition task_lpc (x : positive * slot * task) : option (positive * Z) := match x.2 with UserLpc fn _ => Some (x.1.1, fn) | _ => None end.

Definition cell_held (p : process) : list hid := cells_list (cells p) ≫= cell_refs.
Definition queued (p : process) : list hid := omap task_promise (queues p).
Definition dormants (p : process) : list positive := omap task_cell (queues p).
Definition waiting_lpcs (p : process) : list (positive * Z) := (cells_list (cells p) ≫= cell_lpc) ++ omap task_lpc (queues p).

(** What a call has in its hands: references, requirements that it will discharge, lists of
    dormant callbacks, personas with a callback that it has not enqueued, functions
    that it will have taken from users ([lpcs]), and functions that are neither waiting nor run ([fns]). *)
Record hands := mk_hands {
  refs : list hid; owed : list hid; chains : list (list positive); undischarged : list positive;
  lpcs : list (positive * Z); fns : list (positive * Z)
}.

(** The lists of dormant callbacks in memory. *)
Fixpoint linked (m : gmap positive lpc_dormant) (l : list positive) : Prop :=
  match l with [] => True | a :: l => (exists c, m !! a = Some c /\ next_ c = head l) /\ linked m l end.

(** * The invariant

    [known] are the promises of users and those that calls made, [implicit] the latter; [share] is
    what users still require of a promise; [flights] are the lists of callbacks that went to
    recipients; [given] the promises whose futures calls returned; [registered] the functions of
    users that they took. *)
Record ghost := mk_ghost {
  known : gset hid; implicit : gset hid; share : gmap hid Z; flights : list (list positive);
  given : gset hid; registered : list (positive * Z)
}.

Definition share_of (h : hid) (g : ghost) : Z := default 0 (share g !! h).

(** The requirements on a promise that the process will discharge, and all of them. *)
Definition owing (t : hands) (p : process) (h : hid) : Z := tokens (cell_held p) h + tokens (owed t) h + decrements h p.
Definition required (t : hands) (g : ghost) (p : process) (h : hid) : Z := share_of h g + owing t p h.
Definition held (t : hands) (p : process) : list hid := cell_held p ++ queued p ++ refs t.

Record cells_good (t : hands) (g : ghost) (p : process) : Prop := {
  ce_linked : Forall (linked (cells p)) (flights g ++ chains t);
  ce_flights : Some <$> in_flight p = head <$> flights g;
  ce_all : concat (flights g) ++ concat (chains t) ++ dormants p ≡ₚ (map_to_list (cells p)).*1;
  ce_ready : forall per s a, (per, s, Dormant a) ∈ queues p -> exists c fn v,
    cells p !! a = Some c /\ what c = Fn fn (Some v) /\ target_ c = per;
  ce_next : forall a, is_Some (cells p !! a) -> (a < next_cell p)%positive
}.

Record promises_good (t : hands) (g : ghost) (p : process) : Prop := {
  pr_share : forall h, 0 <= share_of h g;
  pr_known : forall h, h ∈ cell_held p ++ owed t -> h ∈ known g;
  pr_implicit : forall h, h ∈ implicit g -> h ∈ known g /\ share_of h g = 0;
  pr_given : given g ⊆ implicit g;
  pr_qpromise : forall a c h, cells p !! a = Some c -> is_qpromise h c -> h ∈ implicit g;
  pr_queue : NoDup (queued p) /\ forall h, 0 <= decrements h p /\ (0 < decrements h p <-> h ∈ queued p) /\ (h ∈ queued p -> h ∈ known g)
}.

Record good (t : hands) (g : ghost) (p : process) : Prop := {
  g_heap : heap_good (known g) (required t g p) (held t p) (program p);
  g_promises : promises_good t g p;
  g_cells : cells_good t g p;
  g_undischarged : forall per, default 0 (undischarged_n_ p !! per) = lsum (fun q => ind (q = per)) (undischarged t);
  g_lpcs : registered g ++ lpcs t ≡ₚ (executed p).*1 ++ waiting_lpcs p ++ fns t
}.

(** ** Cells in memory *)

Lemma cells_list_insert m a c : m !! a = None -> cells_list (<[a := c]> m) ≡ₚ c :: cells_list m.
Proof. intros Ha. unfold cells_list. by rewrite map_to_list_insert. Qed.

Lemma cells_list_delete m a c : m !! a = Some c -> cells_list m ≡ₚ c :: cells_list (delete a m).
Proof. intros Ha. rewrite <- (insert_delete_id _ _ _ Ha) at 1. apply cells_list_insert. by rewrite lookup_delete_eq. Qed.

Lemma linked_insert m a c l : m !! a = None -> linked m l -> linked (<[a := c]> m) l.
Proof.
  intros Ha. induction l as [|b l IH]; cbn; [done|]. intros [(d & Hd & E) Hl]. split; [|by apply IH].
  exists d. split; [|done]. rewrite lookup_insert_ne; [done|congruence].
Qed.

Lemma linked_delete m a l : a ∉ l -> linked m l -> linked (delete a m) l.
Proof.
  induction l as [|b l IH]; cbn; [done|]. intros Ha [(d & Hd & E) Hl]. split; [|apply IH; [set_solver|done]].
  exists d. split; [|done]. rewrite lookup_delete_ne; [done|set_solver].
Qed.

(** Another payload does not change lists. *)
Lemma linked_payload m a c w l : m !! a = Some c -> linked m l -> linked (<[a := mk_dormant (next_ c) (target_ c) w]> m) l.
Proof.
  intros Ha. induction l as [|b l IH]; cbn; [done|]. intros [(d & Hd & E) Hl]. split; [|by apply IH].
  destruct (decide (b = a)) as [->|]; map_lookups; [|by exists d]. eexists. split; [done|]. cbn. congruence.
Qed.

(** * Hands *)

Definition ref (h : hid) (t : hands) : hands := mk_hands (h :: refs t) (owed t) (chains t) (undischarged t) (lpcs t) (fns t).
Definition owe (h : hid) (t : hands) : hands := mk_hands (refs t) (h :: owed t) (chains t) (undischarged t) (lpcs t) (fns t).
Definition grant (h : hid) (t : hands) : hands := ref h (owe h t).
Definition chain (l : list positive) (t : hands) : hands := mk_hands (refs t) (owed t) (l :: chains t) (undischarged t) (lpcs t) (fns t).
Definition undischarge (per : positive) (t : hands) : hands :=
  mk_hands (refs t) (owed t) (chains t) (per :: undischarged t) (lpcs t) (fns t).
Definition owe_lpc (l : positive * Z) (t : hands) : hands := mk_hands (refs t) (owed t) (chains t) (undischarged t) (l :: lpcs t) (fns t).
Definition take_fns (l : list (positive * Z)) (t : hands) : hands :=
  mk_hands (refs t) (owed t) (chains t) (undischarged t) (lpcs t) (l ++ fns t).
Definition cell_hands (c : lpc_dormant) (t : hands) : hands :=
  mk_hands (cell_refs c ++ refs t) (cell_refs c ++ owed t) (chains t) (undischarged t) (lpcs t) (cell_lpc c ++ fns t).
Definition empty_hands : hands := mk_hands [] [] [] [] [] [].

Record same_hands (t t' : hands) : Prop := {
  sh_refs : refs t' ≡ₚ refs t; sh_owed : owed t' ≡ₚ owed t; sh_chains : chains t' ≡ₚ chains t;
  sh_undischarged : undischarged t' ≡ₚ undischarged t; sh_lpcs : lpcs t' ≡ₚ lpcs t;
  sh_fns : fns t' ≡ₚ fns t
}.

Lemma good_perm t t' g p : same_hands t t' -> good t g p -> good t' g p.
Proof.
  intros [Hr Ho Hc Hu Hl Hf] [G1 [P1 P2 P3 P4 P5 P6] [C1 C2 C3 C4 C5] G4 G5]. split.
  - eapply heap_good_ext; [exact G1|done| |].
    + intros q. unfold held. by rewrite Hr.
    + intros h _. unfold required, owing. by rewrite Ho.
  - split; try done. intros h Hh. apply P2. by rewrite <- Ho.
  - split; try done; by rewrite Hc.
  - intros per. rewrite G4. clear -Hu. induction Hu; cbn; lia.
  - by rewrite Hl, Hf.
Qed.

(** ** Operations on futures *)

Lemma good_lift t {t' g p f} : good t g p -> chains t' = chains t -> undischarged t' = undischarged t -> lpcs t' = lpcs t -> fns t' = fns t ->
  (forall h, h ∈ owed t' -> h ∈ known g) ->
  or_abort (f (heap_of p)) (fun st => heap_good (known g) (required t' g p) (held t' p) (with_heap (program p) st)) ->
  or_abort (lift f p) (good t' g).
Proof.
  intros [G1 [P1 P2 P3 P4 P5 P6] [C1 C2 C3 C4 C5] G4 G5] Ec Eu El En Ho Hf.
  eapply or_abort_bind; [exact Hf|]. intros st Hst. apply or_abort_ok. split; rewrite ?Eu, ?El, ?En; try done.
  - split; try done. intros h [?|?]%elem_of_app; [apply P2; set_solver|by apply Ho].
  - by split; rewrite ?Ec.
Qed.

Lemma held_ref h t p : held (ref h t) p ≡ₚ h :: held t p.
Proof. unfold held. cbn. solve_Permutation. Qed.

Lemma required_owe h t g p q : required (owe h t) g p q = bump (required t g p) h 1 q.
Proof. unfold required, owing, bump. cbn [owe owed]. rewrite tokens_cons. unfold ind. repeat case_decide; subst; try done; lia. Qed.

Lemma good_owed h t g p : good t g p -> h ∈ owed t -> h ∈ known g.
Proof. intros Hg Hh. apply (pr_known _ _ _ (g_promises _ _ _ Hg)). set_solver. Qed.

Lemma owing_nonneg t g p h : good t g p -> 0 <= share_of h g /\ 0 <= owing t p h.
Proof.
  intros Hg. split; [apply (pr_share _ _ _ (g_promises _ _ _ Hg))|]. destruct (proj2 (pr_queue _ _ _ (g_promises _ _ _ Hg)) h) as [? _].
  unfold owing. pose proof (tokens_nonneg (cell_held p) h). pose proof (tokens_nonneg (owed t) h). lia.
Qed.

Lemma require_ok t g p h : good t g p -> h ∈ known g -> h ∈ roots (program p) ++ held t p ->
  or_abort (lift (require_anonymous h 1) p) (good (owe h t) g).
Proof.
  intros Hg Hk Hin. eapply (good_lift t); [done..| |].
  - intros q. cbn. intros [->|Hq]%elem_of_cons; [done|]. by eapply good_owed.
  - eapply or_abort_mono; [|by apply (require_good (g_heap _ _ _ Hg))]. intros st Hst.
    eapply heap_good_ext; [exact Hst|done|done|]. intros q _. apply required_owe.
Qed.

Lemma drop_ok t g p h : good (ref h t) g p -> or_abort (lift (dropref h) p) (good t g).
Proof.
  intros Hg. destruct (dropref_good (g_heap _ _ _ Hg) h (held t p)) as (st & E & Hst); [by rewrite held_ref|].
  eapply (good_lift (ref h t)); [done..|intros q Hq; exact (good_owed q _ _ _ Hg Hq)|]. right. exists st. by split.
Qed.

Lemma drop_refs_ok l t g p : good (mk_hands (l ++ refs t) (owed t) (chains t) (undischarged t) (lpcs t) (fns t)) g p ->
  or_abort (lift (drop_all l) p) (good t g).
Proof.
  intros Hg. destruct (drop_all_good (g_heap _ _ _ Hg) l (held t p)) as (st & E & Hst).
  { unfold held. cbn. solve_Permutation. }
  eapply good_lift; [exact Hg|done..|intros q Hq; exact (good_owed q _ _ _ Hg Hq)|]. right. exists st. by split.
Qed.

Lemma construct_ok t g p h v : good t g p -> h ∈ known g -> h ∈ roots (program p) ++ held t p ->
  or_abort (lift (construct_results h v) p) (good t g).
Proof.
  intros Hg Hk Hin. eapply (good_lift t); [done..|intros q Hq; exact (good_owed q _ _ _ Hg Hq)|].
  by apply (construct_results_good (g_heap _ _ _ Hg)).
Qed.

Lemma read_into_ok t g p h v : good t g p -> h ∈ owed t -> h ∈ refs t ->
  or_abort (lift (read_into_future_header_result h v) p) (good t g).
Proof.
  intros Hg Ho Hr. pose proof (good_owed h _ _ _ Hg Ho) as Hk. eapply (good_lift t); [done..|intros q Hq; exact (good_owed q _ _ _ Hg Hq)|].
  apply (read_into_good (g_heap _ _ _ Hg)); [done|unfold held; set_solver|]. unfold required, owing.
  pose proof (pr_share _ _ _ (g_promises _ _ _ Hg) h). destruct (proj2 (pr_queue _ _ _ (g_promises _ _ _ Hg)) h) as [? _].
  pose proof (tokens_nonneg (cell_held p) h). pose proof (tokens_in _ _ Ho). lia.
Qed.

Lemma grant_known h t g p : good (grant h t) g p -> h ∈ known g /\ h ∈ roots (program p) ++ held (grant h t) p.
Proof. intros Hg. split; [eapply good_owed; [exact Hg|left]|]. unfold held. cbn. set_solver. Qed.

Lemma fulfill_now_ok t g p h : good (grant h t) g p -> or_abort (fulfill_now h 1 p) (good t g).
Proof.
  intros Hg. destruct (grant_known _ _ _ _ Hg) as [Hk Hin]. unfold fulfill_now.
  eapply (or_abort_bind _ _ (good (ref h t) g)); [|intros p' Hp'; by apply drop_ok].
  eapply (good_lift (grant h t)); [done..| |].
  - intros q Hq. eapply good_owed; [exact Hg|]. cbn. by right.
  - apply or_abort_assert. intros _. eapply or_abort_mono; [|by apply (fulfill_good (g_heap _ _ _ Hg) h 1)]. intros st Hst.
    eapply heap_good_ext; [exact Hst|done|done|]. intros q _. change (grant h t) with (owe h (ref h t)).
    unfold bump. rewrite required_owe. unfold bump. case_decide; lia.
Qed.

Lemma fulfill_now_values_ok t g p h v : good (grant h t) g p -> or_abort (fulfill_now_values h v p) (good t g).
Proof.
  intros Hg. destruct (grant_known _ _ _ _ Hg) as [Hk Hin]. unfold fulfill_now_values.
  eapply or_abort_bind; [by apply construct_ok|]. intros p' Hp'. by apply fulfill_now_ok.
Qed.

(** ** The queue of deferred promises *)

Lemma queued_enqueue per s x p : queued (enqueue per s x p) = queued p ++ option_list (task_promise (per, s, x)).
Proof. unfold queued, enqueue. cbn. rewrite omap_app. cbn. by destruct (task_promise _). Qed.

Lemma dormants_enqueue per s x p : dormants (enqueue per s x p) = dormants p ++ option_list (task_cell (per, s, x)).
Proof. unfold dormants, enqueue. cbn. rewrite omap_app. cbn. by destruct (task_cell _). Qed.

Lemma waiting_enqueue per s x p : waiting_lpcs (enqueue per s x p) = waiting_lpcs p ++ option_list (task_lpc (per, s, x)).
Proof. unfold waiting_lpcs, enqueue. cbn. rewrite omap_app, <- app_assoc. cbn. by destruct (task_lpc _). Qed.

(** Cells and queues with the same dormant callbacks *)
Lemma cells_good_queue t t' g p p' : cells_good t g p -> chains t' = chains t -> cells p' = cells p -> next_cell p' = next_cell p -> in_flight p' = in_flight p ->
  (forall per s a, (per, s, Dormant a) ∈ queues p' -> (per, s, Dormant a) ∈ queues p) -> dormants p' ≡ₚ dormants p -> cells_good t' g p'.
Proof.
  intros [C1 C2 C3 C4 C5] Et Ec En Ef Hq Hd. split; rewrite ?Et, ?Ec, ?Ef, ?En, ?Hd; try done. intros per s a Ha. by eapply C4, Hq.
Qed.

Lemma enqueue_promise_ok t g p per s h : good (grant h t) g p -> decrements h p = 0 ->
  good t g (enqueue per s (DeferredPromise h) (put_decrements h 1 p)).
Proof.
  intros Hg Hd. destruct (grant_known _ _ _ _ Hg) as [Hk _]. destruct Hg as [G1 [P1 P2 P3 P4 P5 [P6 P7]] G3 G4 G5].
  set (p' := enqueue _ _ _ _). assert (Hdec : forall q, decrements q p' = decrements q p + (if decide (q = h) then 1 else 0)).
  { intros q. unfold decrements. cbn. case_decide; [subst; rewrite lookup_insert_eq; cbn; unfold decrements in Hd; lia|].
    rewrite lookup_insert_ne by done. lia. }
  assert (Hq : queued p' = queued p ++ [h]) by exact (queued_enqueue per s (DeferredPromise h) (put_decrements h 1 p)).
  assert (Hh : h ∉ queued p) by (intros Hh; apply (proj1 (proj2 (P7 h))) in Hh; lia). split; try done.
  - eapply heap_good_ext; [exact G1|done| |].
    + intros q. unfold held. rewrite Hq. cbn. apply tokens_perm. solve_Permutation.
    + intros q _. unfold required, owing. rewrite Hdec. change (cell_held p') with (cell_held p). cbn [grant owe ref owed]. rewrite tokens_cons.
      unfold ind. repeat case_decide; subst; try done; lia.
  - split; try done; [intros q Hq'; apply P2; cbn in *; set_solver|]. rewrite Hq. split.
    + apply NoDup_app. split_and!; [done|set_solver|apply NoDup_singleton].
    + intros q. rewrite Hdec, elem_of_app, list_elem_of_singleton. destruct (P7 q) as (D1 & D2 & D3). case_decide as Hqh.
      * subst q. split_and!; [lia|split; [by right|lia]|done].
      * rewrite Z.add_0_r, D2. split_and!; [done|naive_solver|naive_solver].
  - eapply cells_good_queue; [exact G3|done..| |].
    + intros per' s' a. cbn. rewrite elem_of_app, list_elem_of_singleton. by intros [|].
    + unfold p'. rewrite dormants_enqueue. cbn. by rewrite app_nil_r.
  - rewrite G5. unfold p'. rewrite waiting_enqueue. cbn. by rewrite app_nil_r.
Qed.

Lemma defer_again_ok t g p h : good (grant h t) g p -> 0 < decrements h p ->
  good (ref h t) g (put_decrements h (decrements h p + 1) p).
Proof.
  intros Hg Hd. destruct Hg as [G1 [P1 P2 P3 P4 P5 [P6 P7]] G3 G4 G5]. set (p' := put_decrements _ _ _).
  assert (Hdec : forall q, decrements q p' = decrements q p + (if decide (q = h) then 1 else 0)).
  { intros q. unfold p', decrements. cbn. case_decide; [subst; rewrite lookup_insert_eq; done|]. rewrite lookup_insert_ne by done. lia. }
  split; try done.
  - eapply heap_good_ext; [exact G1|done|done|].
    intros q _. unfold required, owing. rewrite Hdec. change (cell_held p') with (cell_held p). cbn [grant owe ref owed]. rewrite tokens_cons.
    unfold ind. repeat case_decide; subst; try done; lia.
  - split; try done; [intros q Hq'; apply P2; cbn in *; set_solver|]. split; [done|].
    intros q. rewrite Hdec. destruct (P7 q) as (D1 & D2 & D3). change (queued p') with (queued p). split_and!; [case_decide; lia| |done].
    rewrite <- D2. case_decide; [subst q; lia|by rewrite Z.add_0_r].
  - by eapply cells_good_queue.
Qed.

Lemma fulfill_during_ok active triv t g p per h : good (grant h t) g p ->
  or_abort (fulfill_during_user_of_active active triv per h 1 p) (good t g).
Proof.
  intros Hg. unfold fulfill_during_user_of_active. apply or_abort_assert. intros _.
  destruct (proj2 (pr_queue _ _ _ (g_promises _ _ _ Hg)) h) as (D & _ & _). destruct (1 =? decrements h p + 1) eqn:E.
  - apply Z.eqb_eq in E. assert (E0 : decrements h p = 0) by lia. rewrite E0. apply or_abort_ok. by apply enqueue_promise_ok.
  - apply Z.eqb_neq in E. apply drop_ok, defer_again_ok; [done|lia].
Qed.

Lemma fulfill_during_values_ok active triv t g p per h v : good (grant h t) g p ->
  or_abort (fulfill_during_values active triv per h v p) (good t g).
Proof.
  intros Hg. destruct (grant_known _ _ _ _ Hg) as [Hk Hin]. unfold fulfill_during_values.
  eapply or_abort_bind; [by apply construct_ok|]. intros p' Hp'. by apply fulfill_during_ok.
Qed.

Lemma enqueue_quiesced_ok active seq triv t g p per h : good (grant h t) g p ->
  or_abort (enqueue_quiesced_promise active seq triv per h 1 p) (good t g).
Proof.
  intros Hg. unfold enqueue_quiesced_promise. apply or_abort_assert. intros E%Z.eqb_eq. apply or_abort_ok. by apply enqueue_promise_ok.
Qed.

(** The first promise of a queue is fulfilled. *)
Lemma pop_promise_ok triv t g p per s h l : good t g p -> queues p ≡ₚ (per, s, DeferredPromise h) :: l ->
  or_abort (lift (fulfill_deferred_and_drop triv h (decrements h p)) (put_decrements h 0 (put_queues l p))) (good t g).
Proof.
  intros Hg Hl. pose proof Hg as [G1 [P1 P2 P3 P4 P5 [P6 P7]] [C1 C2 C3 C4 C5] G4 G5].
  set (p' := put_decrements h 0 (put_queues l p)).
  assert (Hq : queued p ≡ₚ h :: queued p') by (unfold queued; by rewrite Hl).
  assert (Hh : h ∈ queued p) by (rewrite Hq; left). destruct (P7 h) as (_ & Hpos & Hk). apply Hpos in Hh as Hn. specialize (Hk Hh).
  assert (Hdec : forall q, decrements q p' = if decide (q = h) then 0 else decrements q p).
  { intros q. unfold p', decrements. cbn. case_decide; [subst; by rewrite lookup_insert_eq|]. by rewrite lookup_insert_ne. }
  assert (Hne : forall q, q ∈ queued p' <-> q ∈ queued p /\ q <> h).
  { intros q. rewrite Hq, NoDup_cons in P6. rewrite Hq, elem_of_cons. destruct P6. naive_solver. }
  destruct (owing_nonneg _ _ _ h Hg) as [Hs Ho].
  assert (Hreq : decrements h p <= required t g p h).
  { unfold required, owing. pose proof (tokens_nonneg (cell_held p) h). pose proof (tokens_nonneg (owed t) h). lia. }
  unfold lift. eapply or_abort_bind.
  { change (heap_of p') with (futures (program p)).
    apply (fulfill_deferred_good G1 triv h (decrements h p) (held t p')); [done| |lia]. unfold held. rewrite Hq. change (cell_held p') with (cell_held p). solve_Permutation. }
  intros st Hst. cbn beta. apply or_abort_ok. split; try done.
  - eapply heap_good_ext; [exact Hst|done|done|]. intros q _. unfold required, owing, bump.
    change (decrements q (put_heap st p')) with (decrements q p'). rewrite Hdec.
    change (cell_held (put_heap st p')) with (cell_held p). case_decide; subst; lia.
  - split; try done. change (queued (put_heap st p')) with (queued p'). split.
    + rewrite Hq in P6. by apply NoDup_cons in P6 as [_ ?].
    + intros q. change (decrements q (put_heap st p')) with (decrements q p'). rewrite Hdec, Hne. destruct (P7 q) as (D1 & D2 & D3).
      case_decide; [subst q; split_and!; [lia|split; [lia|naive_solver]|naive_solver]|]. rewrite <- D2. naive_solver.
  - assert (Hd : dormants p ≡ₚ dormants p') by (unfold dormants; by rewrite Hl).
    eapply cells_good_queue; [apply Hg|done..| |].
    + intros per' s' a Ha. rewrite Hl. by right.
    + change (dormants (put_heap st p')) with (dormants p'). by rewrite Hd.
  - rewrite G5. unfold waiting_lpcs. cbn. by rewrite Hl.
Qed.

(** ** Lists of dormant callbacks *)

Lemma callbacks_nodup t g p : cells_good t g p -> NoDup (concat (flights g) ++ concat (chains t) ++ dormants p).
Proof. intros [_ _ C _ _]. rewrite C. apply NoDup_fst_map_to_list. Qed.

Lemma keys_insert (m : gmap positive lpc_dormant) a c : m !! a = None -> (map_to_list (<[a := c]> m)).*1 ≡ₚ a :: (map_to_list m).*1.
Proof. intros Ha. by rewrite map_to_list_insert. Qed.

Lemma keys_update (m : gmap positive lpc_dormant) a c d : m !! a = Some d -> (map_to_list (<[a := c]> m)).*1 ≡ₚ (map_to_list m).*1.
Proof.
  intros Ha. pose proof (keys_insert (delete a m) a d (lookup_delete_eq m a)) as Hd.
  pose proof (keys_insert (delete a m) a c (lookup_delete_eq m a)) as Hc. rewrite insert_delete_eq in Hc.
  rewrite insert_delete_id in Hd by done. by rewrite Hc, Hd.
Qed.

Lemma in_chain t g p l a : cells_good t g p -> l ∈ flights g ++ chains t -> a ∈ l -> exists c, cells p !! a = Some c.
Proof.
  intros Hc Hl Ha. assert (Hin : a ∈ (map_to_list (cells p)).*1).
  { rewrite <- (ce_all _ _ _ Hc), app_assoc, <- concat_app. apply elem_of_app. left. apply list_elem_of_In, in_concat.
    exists l. by rewrite <- !list_elem_of_In. }
  apply list_elem_of_fmap in Hin as ([b c] & -> & Hb%elem_of_map_to_list). by exists c.
Qed.

(** A new callback at the head of a list. *)
Lemma new_cell_ok t g p c l : good (chain l (cell_hands c t)) g p -> next_ c = head l -> (forall h, is_qpromise h c -> h ∈ implicit g) ->
  good (chain (next_cell p :: l) t) g (new_cell c p).2.
Proof.
  intros [G1 [P1 P2 P3 P4 P5 P6] [C1 C2 C3 C4 C5] G4 G5] Hn Hq. unfold new_cell. cbn [snd]. set (a := next_cell p). set (p' := mk_process _ _ _ _ _ _ _ _).
  assert (Ha : cells p !! a = None).
  { destruct (cells p !! a) eqn:E; [|done]. assert (a < next_cell p)%positive by (apply C5; by eexists). unfold a in *. lia. }
  assert (Hh : cell_held p' ≡ₚ cell_refs c ++ cell_held p).
  { unfold cell_held. cbn [cells p']. by rewrite cells_list_insert. }
  split; try done.
  - eapply heap_good_ext; [exact G1|done| |].
    + intros q. unfold held. rewrite Hh. change (queued p') with (queued p). cbn. apply tokens_perm. solve_Permutation.
    + intros q _. unfold required, owing. rewrite Hh. change (decrements q p') with (decrements q p). cbn [owed cell_hands chain]. rewrite !tokens_app. lia.
  - split; try done.
    + intros q. rewrite Hh. intros Hq'. apply P2. cbn in *. set_solver.
    + intros b d h. cbn. intros [[<- <-]|[_ Hd]]%lookup_insert_Some; [apply Hq|by eapply P5].
  - split; try done.
    + cbn in C1 |- *. rewrite Forall_app, Forall_cons in C1. destruct C1 as (L1 & L2 & L3).
      assert (Hlift : forall k, linked (cells p) k -> linked (<[a := c]> (cells p)) k) by (intros; by apply linked_insert).
      apply Forall_app. split; [by eapply Forall_impl|]. apply Forall_cons. split; [|by eapply Forall_impl].
      cbn. split; [exists c; by rewrite lookup_insert_eq|by apply Hlift].
    + cbn. change (dormants p') with (dormants p). rewrite keys_insert by done. rewrite <- C3. cbn. solve_Permutation.
    + intros per s b Hb. destruct (C4 per s b Hb) as (d & fn & v & Hd & E). exists d, fn, v. split; [|done]. cbn.
      rewrite lookup_insert_ne; [done|congruence].
    + intros b. cbn. intros [d Hd]. destruct (decide (b = a)) as [->|]; [unfold a; lia|]. rewrite lookup_insert_ne in Hd by done.
      assert (b < next_cell p)%positive by (apply C5; by eexists). lia.
  - cbn in G5 |- *. rewrite G5. unfold waiting_lpcs. cbn [cells p' queues]. rewrite cells_list_insert by done. cbn. solve_Permutation.
Qed.

(** A callback leaves memory. *)
Lemma delete_held p a c : cells p !! a = Some c -> cell_held p ≡ₚ cell_refs c ++ cell_held (put_cells (delete a (cells p)) p).
Proof. intros Ha. unfold cell_held. cbn. by rewrite (cells_list_delete _ _ _ Ha). Qed.

Lemma delete_waiting p a c : cells p !! a = Some c -> waiting_lpcs p ≡ₚ cell_lpc c ++ waiting_lpcs (put_cells (delete a (cells p)) p).
Proof. intros Ha. unfold waiting_lpcs. rewrite (cells_list_delete _ _ _ Ha). cbn. solve_Permutation. Qed.

Lemma delete_good t t' g p q a c : good t g p -> cells p !! a = Some c -> same_hands (cell_hands c t) (mk_hands (refs t') (owed t') (chains t) (undischarged t') (lpcs t') (fns t')) ->
  program q = program p -> cells q = delete a (cells p) -> undischarged_n_ q = undischarged_n_ p -> executed q = executed p ->
  (forall h, decrements h q = decrements h p) -> queued q ≡ₚ queued p -> omap task_lpc (queues q) ≡ₚ omap task_lpc (queues p) ->
  cells_good t' g q -> good t' g q.
Proof.
  intros [G1 [P1 P2 P3 P4 P5 P6] G3 G4 G5] Ha [Hr Ho _ Hu Hl Hf] Ep Ec Eu Ee Ed Hq Hw Hcells. cbn in Hr, Ho, Hu, Hl, Hf.
  pose proof (delete_held p a c Ha) as Hh. assert (Hh' : cell_held q = cell_held (put_cells (delete a (cells p)) p)) by (unfold cell_held; by rewrite Ec).
  split; [| |done| |].
  - rewrite Ep. eapply heap_good_ext; [exact G1|done| |].
    + intros h. unfold held. rewrite Hh, Hh', Hr, Hq. apply tokens_perm. solve_Permutation.
    + intros h _. unfold required, owing. rewrite Hh, Hh', Ho, Ed, !tokens_app. lia.
  - split; try done.
    + intros h. rewrite Hh', Ho. intros Hin. apply P2. rewrite Hh. set_solver.
    + intros b d h. rewrite Ec. intros [_ Hd]%lookup_delete_Some. by eapply P5.
    + setoid_rewrite Ed. rewrite Hq. split; [apply P6|]. intros h. rewrite Hq. apply P6.
  - intros per. rewrite Eu, G4. clear -Hu. induction Hu; cbn; lia.
  - rewrite Hl, Hf, G5, Ee, (delete_waiting p a c Ha). unfold waiting_lpcs. rewrite Ec, Hw. cbn. solve_Permutation.
Qed.

Lemma take_cell_ok t g p a l : good (chain (a :: l) t) g p -> exists c, cells p !! a = Some c /\ next_ c = head l /\
  good (chain l (cell_hands c t)) g (put_cells (delete a (cells p)) p).
Proof.
  intros Hg. pose proof (g_cells _ _ _ Hg) as Hc. pose proof (callbacks_nodup _ _ _ Hc) as Hnd. destruct Hc as [C1 C2 C3 C4 C5].
  cbn in C1, C3, Hnd. rewrite Forall_app, Forall_cons in C1. destruct C1 as (L1 & [(c & Ha & Hn) L2] & L3).
  exists c. split; [done|]. split; [done|]. eapply delete_good; [exact Hg|exact Ha| |done..|]; [by split|].
  apply NoDup_app in Hnd as (N1 & N2 & N3). apply NoDup_cons in N3 as [N3 N4].
  assert (Hout : forall k, k ∈ flights g ++ l :: chains t -> a ∉ k).
  { intros k Hk Hin. apply elem_of_app in Hk as [Hk|[->|Hk]%elem_of_cons].
    - apply (N2 a); [|left]. apply list_elem_of_In, in_concat. exists k. by rewrite <- !list_elem_of_In.
    - apply N3. set_solver.
    - apply N3. rewrite !elem_of_app. left. right. apply list_elem_of_In, in_concat. exists k. by rewrite <- !list_elem_of_In. }
  split; try done.
  - cbn [cells put_cells]. apply Forall_forall. intros k Hk. apply linked_delete; [by apply Hout|].
    cbn in Hk. apply elem_of_app in Hk as [Hk|[->|Hk]%elem_of_cons]; [|done|].
    + rewrite Forall_forall in L1. by apply L1.
    + rewrite Forall_forall in L3. by apply L3.
  - cbn. apply (Permutation_cons_inv (a := a)). change (dormants _) with (dormants p).
    rewrite <- (keys_insert (delete a (cells p)) a c) by apply lookup_delete_eq. rewrite insert_delete_id by done. rewrite <- C3. solve_Permutation.
  - intros per s b Hb. cbn in Hb |- *. destruct (C4 per s b Hb) as (d & fn & v & Hd & E). exists d, fn, v. split; [|done].
    rewrite lookup_delete_ne; [done|]. intros <-. apply N3. rewrite !elem_of_app. right. apply list_elem_of_omap. by exists (per, s, Dormant a).
  - cbn. intros b [d [_ Hd]%lookup_delete_Some]. apply C5. by exists d.
Qed.

(** A callback gets its results, and is enqueued. *)
Lemma ready_cell_ok t g p a l c fn r v s : good (chain (a :: l) t) g p -> cells p !! a = Some c -> what c = Fn fn r ->
  good (chain l t) g (enqueue (target_ c) s (Dormant a)
    (put_cells (<[a := mk_dormant (next_ c) (target_ c) (Fn fn (Some v))]> (cells p)) p)).
Proof.
  intros Hg Ha Hw. set (c' := mk_dormant _ _ _). pose proof Hg as [G1 [P1 P2 P3 P4 P5 P6] [C1 C2 C3 C4 C5] G4 G5]. set (p' := enqueue _ _ _ _).
  assert (Hr : cell_refs c' = cell_refs c) by (unfold cell_refs; by rewrite Hw).
  assert (Hl : cell_lpc c' = cell_lpc c) by (unfold cell_lpc; by rewrite Hw).
  assert (Hcells : cells_list (cells p') ≡ₚ c' :: cells_list (delete a (cells p))).
  { cbn [p' enqueue put_queues put_cells cells]. rewrite <- insert_delete_eq. apply cells_list_insert, lookup_delete_eq. }
  assert (Hheld : cell_held p' ≡ₚ cell_held p).
  { unfold cell_held. rewrite Hcells, (cells_list_delete _ _ _ Ha). cbn [mbind list_bind]. by rewrite Hr. }
  assert (Hq : queued p' = queued p) by (etransitivity; [apply queued_enqueue|apply app_nil_r]).
  split; try done.
  - eapply heap_good_ext; [exact G1|done| |].
    + intros q. unfold held. by rewrite Hheld, Hq.
    + intros q _. unfold required, owing. by rewrite Hheld.
  - split; try done.
    + intros h. rewrite Hheld. apply P2.
    + intros b d h. cbn. intros [[<- <-]|[_ Hd]]%lookup_insert_Some; [done|by eapply P5].
    + rewrite Hq. exact P6.
  - split; try done.
    + cbn in C1 |- *. rewrite Forall_app, Forall_cons in C1 |- *. destruct C1 as (L1 & [_ L2] & L3).
      assert (Hlift : forall k, linked (cells p) k -> linked (<[a := c']> (cells p)) k) by (intros; by apply linked_payload).
      split_and!; [by eapply Forall_impl|by apply Hlift|by eapply Forall_impl].
    + cbn [cells p' enqueue put_queues put_cells]. rewrite (keys_update _ _ _ _ Ha), <- C3.
      assert (Hd : dormants p' = dormants p ++ [a]) by exact (dormants_enqueue (target_ c) s (Dormant a) (put_cells (<[a := c']> (cells p)) p)). rewrite Hd. cbn. solve_Permutation.
    + intros per s' b. cbn. rewrite elem_of_app, list_elem_of_singleton. intros [Hb|[= -> -> ->]].
      * destruct (C4 per s' b Hb) as (d & fn' & v' & Hd & Hwd & Et). destruct (decide (b = a)) as [->|Hne].
        -- assert (d = c) as -> by congruence. rewrite lookup_insert_eq. exists c', fn, v. by split_and!.
        -- exists d, fn', v'. by rewrite lookup_insert_ne.
      * rewrite lookup_insert_eq. exists c', fn, v. by split_and!.
    + intros b. cbn. intros [d Hd]. apply C5. apply lookup_insert_Some in Hd as [[<- _]|[_ Hd]]; by eexists.
  - cbn in G5 |- *. rewrite G5. assert (Hwait : waiting_lpcs p' ≡ₚ waiting_lpcs p); [|by rewrite Hwait].
    unfold waiting_lpcs. rewrite Hcells, (cells_list_delete _ _ _ Ha). cbn [mbind list_bind]. rewrite Hl.
    cbn [p' enqueue put_queues queues put_cells]. rewrite omap_app. cbn. by rewrite app_nil_r.
Qed.

(** A callback leaves its queue, and memory. *)
Lemma pop_cell_ok t g p per s a l : good t g p -> queues p ≡ₚ (per, s, Dormant a) :: l ->
  exists c fn v, cells p !! a = Some c /\ what c = Fn fn (Some v) /\ target_ c = per /\
    good (cell_hands c t) g (put_cells (delete a (cells p)) (put_queues l p)).
Proof.
  intros Hg Hl. pose proof (g_cells _ _ _ Hg) as Hc. pose proof (callbacks_nodup _ _ _ Hc) as Hnd. destruct Hc as [C1 C2 C3 C4 C5].
  destruct (C4 per s a) as (c & fn & v & Ha & Hw & Et); [rewrite Hl; left|]. exists c, fn, v. split_and!; [done..|].
  set (q := put_cells _ _). assert (Hd : dormants p ≡ₚ a :: dormants q) by (unfold dormants; by rewrite Hl).
  eapply delete_good; [exact Hg|exact Ha| |done..| | |]; [by split|unfold queued; by rewrite Hl|by rewrite Hl|].
  rewrite Hd in Hnd. assert (Hout : forall k, k ∈ flights g ++ chains t -> a ∉ k).
  { intros k Hk Hin. rewrite app_assoc, <- concat_app in Hnd. apply NoDup_app in Hnd as (_ & N & _). apply (N a); [|left].
    apply list_elem_of_In, in_concat. exists k. by rewrite <- !list_elem_of_In. }
  assert (Hna : a ∉ dormants q).
  { rewrite app_assoc in Hnd. apply NoDup_app in Hnd as (_ & _ & N). by apply NoDup_cons in N as [? _]. }
  split; try done.
  - apply Forall_forall. intros k Hk. apply linked_delete; [by apply Hout|]. rewrite Forall_forall in C1. by apply C1.
  - cbn [cells put_cells q chains cell_hands]. apply (Permutation_cons_inv (a := a)).
    rewrite <- (keys_insert (delete a (cells p)) a c) by apply lookup_delete_eq. rewrite insert_delete_id by done. rewrite <- C3, Hd. solve_Permutation.
  - intros per' s' b Hb. destruct (C4 per' s' b) as (d & fn' & v' & Hdd & E); [rewrite Hl; by right|]. exists d, fn', v'. split; [|done]. cbn.
    rewrite lookup_delete_ne; [done|]. intros <-. apply Hna. apply list_elem_of_omap. by exists (per', s', Dormant a).
  - cbn. intros b [d [_ Hdd]%lookup_delete_Some]. apply C5. by exists d.
Qed.

(** ** Functions of users *)

Lemma new_fn_ok t g p x : good t g p -> good (owe_lpc x (take_fns [x] t)) g p.
Proof.
  intros [G1 G2 [] G4 G5]. split; try done; [by destruct G2|]. cbn in G5 |- *.
  rewrite <- Permutation_middle, G5. solve_Permutation.
Qed.

Lemma enqueue_fn_ok t g p per s fn v : good (take_fns [(per, fn)] t) g p -> good t g (enqueue per s (UserLpc fn v) p).
Proof.
  intros [G1 [P1 P2 P3 P4 P5 P6] G3 G4 G5]. assert (Hq : queued (enqueue per s (UserLpc fn v) p) = queued p).
  { etransitivity; [apply queued_enqueue|apply app_nil_r]. }
  split; try done.
  - unfold held. rewrite Hq. exact G1.
  - split; try done. by rewrite Hq.
  - eapply cells_good_queue; [exact G3|done..| |].
    + intros per' s' a. cbn. rewrite elem_of_app, list_elem_of_singleton. by intros [|].
    + rewrite dormants_enqueue. cbn. by rewrite app_nil_r.
  - rewrite waiting_enqueue. cbn in G5 |- *. rewrite G5. solve_Permutation.
Qed.

Lemma pop_fn_ok t g p per s fn v l : good t g p -> queues p ≡ₚ (per, s, UserLpc fn v) :: l ->
  good (take_fns [(per, fn)] t) g (put_queues l p).
Proof.
  intros [G1 [P1 P2 P3 P4 P5 P6] G3 G4 G5] Hl. assert (Hq : queued (put_queues l p) ≡ₚ queued p) by (unfold queued; by rewrite Hl).
  split; try done.
  - eapply heap_good_ext; [exact G1|done| |done]. intros q. unfold held. by rewrite Hq.
  - split; try done. rewrite Hq. split; [apply P6|]. intros h. rewrite Hq. apply P6.
  - eapply cells_good_queue; [exact G3|done..| |].
    + intros per' s' a Ha. rewrite Hl. by right.
    + unfold dormants. by rewrite Hl.
  - cbn in G5 |- *. rewrite G5. unfold waiting_lpcs. rewrite Hl. cbn. solve_Permutation.
Qed.

Lemma run_fn_ok t g p per fn v : good (take_fns [(per, fn)] t) g p -> good t g (put_executed (executed p ++ [(per, fn, v)]) p).
Proof.
  intros [G1 [] [] G4 G5]. split; try done. cbn in G5 |- *. rewrite G5, fmap_app. cbn. solve_Permutation.
Qed.

Lemma discharge_ok t g p per : good t g p -> good (undischarge per t) g (discharge per 1 p).
Proof.
  intros [G1 [] [] G4 G5]. split; try done. intros q. cbn. specialize (G4 q). destruct (decide (q = per)) as [->|]; map_lookups.
  - cbn. rewrite ind_yes by done. lia.
  - rewrite ind_no by done. lia.
Qed.

Lemma discharged_ok t g p per : good (undischarge per t) g p -> good t g (discharge per (-1) p).
Proof.
  intros [G1 [] [] G4 G5]. split; try done. intros q. cbn. specialize (G4 q). cbn in G4. destruct (decide (q = per)) as [->|]; map_lookups.
  - cbn. rewrite ind_yes in G4 by done. lia.
  - rewrite ind_no in G4 by done. lia.
Qed.

(** ** Promises of calls *)

Definition with_implicit (h : hid) (g : ghost) : ghost :=
  mk_ghost ({[h]} ∪ known g) ({[h]} ∪ implicit g) (<[h := 0]> (share g)) (flights g) (given g) (registered g).
Definition without (h : hid) (g : ghost) : ghost :=
  mk_ghost (known g ∖ {[h]}) (implicit g ∖ {[h]}) (share g) (flights g) (given g) (registered g).

Lemma unknown_owing t g p h : good t g p -> h ∉ known g -> owing t p h = 0 /\ h ∉ implicit g.
Proof.
  intros [_ [P1 P2 P3 P4 P5 [P6 P7]] _ _ _] Hh. split; [|by intros [? _]%P3].
  destruct (P7 h) as (D1 & D2 & D3). unfold owing. rewrite !tokens_out; [|intros Hin; by apply Hh, P2, elem_of_app; auto..].
  assert (~ 0 < decrements h p); [|lia]. intros ?%D2. by apply Hh, D3.
Qed.

Lemma implicit_promise_ok t g p v : good t g p -> exists st st', let h := next_h (heap_of p) in
  new_promise v 1 (heap_of p) = Ok (h, st) /\ Futures.get_future h st = Ok st' /\ h ∉ known g /\ h ∉ implicit g /\
  good (ref h (grant h t)) (with_implicit h g) (put_heap st' p).
Proof.
  intros Hg. destruct (new_promise_good (g_heap _ _ _ Hg) v) as (st & st' & E1 & E2 & Hh & Hst & _).
  set (h := next_h (futures (program p))) in *. destruct (unknown_owing _ _ _ _ Hg Hh) as [Ho Hi].
  exists st, st'. split_and!; [exact E1|exact E2|exact Hh|exact Hi|].
  destruct Hg as [G1 [P1 P2 P3 P4 P5 [P6 P7]] [] G4 G5]. assert (Hs : forall q, share_of q (with_implicit h g) = if decide (q = h) then 0 else share_of q g).
  { intros q. unfold share_of. cbn. case_decide; [subst; by rewrite lookup_insert_eq|by rewrite lookup_insert_ne]. }
  split; try done.
  - eapply heap_good_ext; [exact Hst|done| |].
    + intros q. unfold held. cbn [ref grant owe refs]. apply tokens_perm. solve_Permutation.
    + intros q _. unfold required. rewrite Hs. unfold owing in *. cbn [ref grant owe owed]. rewrite tokens_cons.
      change (cell_held (put_heap st' p)) with (cell_held p). change (decrements q (put_heap st' p)) with (decrements q p).
      unfold ind. repeat case_decide; subst; try done; lia.
  - split; cbn [known implicit with_implicit given].
    + intros q. rewrite Hs. case_decide; [done|apply P1].
    + intros q Hq. apply elem_of_union. change (cell_held (put_heap st' p)) with (cell_held p) in Hq. cbn in Hq.
      destruct (decide (q = h)) as [->|]; [left; set_solver|]. right. apply P2. set_solver.
    + intros q Hq. rewrite Hs. case_decide as Hqh; [subst q; split; [set_solver|done]|]. apply elem_of_union in Hq as [->%elem_of_singleton|Hq]; [done|].
      destruct (P3 q Hq). split; [set_solver|done].
    + set_solver.
    + intros a c q Ha Hc. apply elem_of_union. right. by eapply P5.
    + split; [exact P6|]. intros q. destruct (P7 q) as (D1 & D2 & D3). split_and!; [done|done|set_solver].
Qed.

(** The last requirement on a promise of a call that was cancelled is not discharged. *)
Lemma abandon_ok t g p h : good (grant h t) g p -> h ∈ implicit g -> h ∉ given g -> required (grant h t) g p h = 1 ->
  good (ref h t) (without h g) p.
Proof.
  intros [G1 [P1 P2 P3 P4 P5 [P6 P7]] [] G4 G5] Hi Hng Hr.
  destruct (P3 h Hi) as [_ Hs0]. assert (Hz : tokens (cell_held p) h = 0 /\ tokens (owed t) h = 0 /\ decrements h p = 0).
  { unfold required, owing in Hr. cbn [grant ref owe owed] in Hr. rewrite tokens_cons, ind_yes in Hr by done. rewrite Hs0 in Hr.
    pose proof (tokens_nonneg (cell_held p) h). pose proof (tokens_nonneg (owed t) h). destruct (P7 h) as [? _]. lia. }
  destruct Hz as (Z1 & Z2 & Z3). assert (Hout : h ∉ cell_held p ++ owed t).
  { intros [Hin|Hin]%elem_of_app; apply tokens_in in Hin; lia. }
  split; try done.
  - eapply heap_good_ext; [exact G1|cbn; set_solver|done|]. intros q Hq. unfold required, owing. cbn [grant ref owe owed].
    rewrite tokens_cons, ind_no; [done|]. cbn in Hq. set_solver.
  - split; cbn [known implicit without given]; try done.
    + intros q Hq. apply elem_of_difference. split; [apply P2; cbn in *; set_solver|]. intros ->%elem_of_singleton. done.
    + intros q [Hq Hqh]%elem_of_difference. destruct (P3 q Hq). set_solver.
    + set_solver.
    + intros a c q Ha Hc. apply elem_of_difference. split; [by eapply P5|]. intros ->%elem_of_singleton. apply Hout, elem_of_app. left.
      unfold cell_held. rewrite (cells_list_delete _ _ _ Ha). cbn. unfold cell_refs. rewrite Hc. left.
    + split; [done|]. intros q. destruct (P7 q) as (D1 & D2 & D3). split_and!; [done|done|]. intros Hq. apply elem_of_difference.
      split; [by apply D3|]. intros ->%elem_of_singleton. apply D2 in Hq. lia.
Qed.

End CompletionsInvariant.
