(* ===== verification/CompletionsCalls.v ===== *)
(** The parts of a round-trip call keep the invariant of a process with completions.

    One lemma for each part of [rpc_internal], for the awakening of dormant callbacks and for
    the callbacks of bursts; they say what the process has in hand before and after. *)
From S2P Require Import Prelude FutureCore FutureInvariant FutureUpdates FutureSafety FutureSystem FutureFrame DistObject Completions CompletionsHeap CompletionsInvariant.

Module CompletionsCalls.
Import Futures Invariant Updates Operations System Frame Completions CompletionsHeap CompletionsInvariant.

(** * Hands together *)

Definition join (d t : hands) : hands :=
  mk_hands (refs d ++ refs t) (owed d ++ owed t) (chains d ++ chains t) (undischarged d ++ undischarged t) (lpcs d ++ lpcs t) (fns d ++ fns t).
Definition sum (l : list hands) : hands := foldr join empty_hands l.

#[export] Instance same_hands_equivalence : Equivalence same_hands.
Proof.
  split.
  - by split.
  - intros t u []. split; by symmetry.
  - intros t u v [] []. split; by etransitivity.
Qed.

Ltac same := split; cbn -[sum]; solve_Permutation.

Lemma good_chain_nil t g p : good (chain [] t) g p <-> good t g p.
Proof.
  split; intros [G1 [] [C1 C2 C3 C4 C5] G4 G5]; (split; [done|by split| |done..]); split; try done; cbn in *;
    rewrite Forall_app, ?Forall_cons in *; naive_solver.
Qed.

(** Functions in hand that are not taken after all. *)
Lemma forget_fns_ok x t g p : good (mk_hands (refs t) (owed t) (chains t) (undischarged t) (x ++ lpcs t) (x ++ fns t)) g p -> good t g p.
Proof.
  intros [G1 [] [] G4 G5]. split; try done. cbn in G5. apply (Permutation_app_inv_l x). rewrite Permutation_app_swap_app, G5. solve_Permutation.
Qed.

(** * Operations that do not look at dormant callbacks *)

Definition blind (f : process -> res process) : Prop := forall m p, f (put_cells m p) = (p' ← f p; Ok (put_cells m p')).

Lemma blind_bind f k : blind f -> blind k -> blind (fun p => p ← f p; k p).
Proof. intros Hf Hk m p. rewrite Hf. destruct (f p); [|done..]. mcbn. apply Hk. Qed.

Lemma blind_assert b f : blind f -> blind (fun p => _ ← assert_that b; f p).
Proof. destruct b; [|done]. intros Hf m p. apply Hf. Qed.

Lemma blind_lift f : blind (lift f).
Proof. intros m p. unfold lift. change (heap_of (put_cells m p)) with (heap_of p). by destruct (f (heap_of p)). Qed.

Lemma blind_fulfill_now h n : blind (fulfill_now h n).
Proof. apply blind_bind; apply blind_lift. Qed.

Lemma blind_during active triv per h n : blind (fulfill_during_user_of_active active triv per h n).
Proof.
  apply blind_assert. intros m p. cbn zeta. change (decrements h (put_cells m p)) with (decrements h p).
  destruct (n =? decrements h p + n); [done|]. apply (blind_lift (dropref h) m (put_decrements h (decrements h p + n) p)).
Qed.

Lemma blind_quiesced active seq triv per h n : blind (enqueue_quiesced_promise active seq triv per h n).
Proof. intros m p. unfold enqueue_quiesced_promise. change (decrements h (put_cells m p)) with (decrements h p). by destruct (decrements h p =? 0). Qed.

Lemma blind_closure active triv per fn v : blind (run_closure active triv per fn v).
Proof.
  destruct fn; cbn [run_closure].
  - apply blind_bind; [apply blind_lift|apply blind_during].
  - apply blind_during.
  - done.
Qed.

Lemma blind_cancel fn : blind (cancel_closure fn).
Proof. destruct fn; cbn [cancel_closure]; try apply blind_fulfill_now. done. Qed.

(** A callback that is deleted last is as good as one that is deleted first. *)
Lemma blind_delete f p a c : blind f -> cells p !! a = Some c -> (p' ← f p; delete_cell a p') = f (put_cells (delete a (cells p)) p).
Proof.
  intros Hf Ha. pose proof (Hf (cells p) p) as Hsame. assert (Ep : put_cells (cells p) p = p) by by destruct p. rewrite Ep in Hsame.
  rewrite Hf. destruct (f p) as [q| | |]; [|done..]. cbn [mbind res_bind] in Hsame |- *. injection Hsame as Hq.
  assert (Ec : cells q = cells p) by (rewrite Hq; done). unfold delete_cell, cell_at. rewrite Ec, Ha. done.
Qed.

(** * Awakening *)

Lemma take_cell_owed t g p a c l : good (chain (a :: l) t) g p -> cells p !! a = Some c ->
  next_ c = head l /\ good (chain l (cell_hands c t)) g (put_cells (delete a (cells p)) p).
Proof. intros Hg Ha. destruct (take_cell_ok _ _ _ _ _ Hg) as (d & Hd & ? & ?). assert (d = c) as -> by congruence. done. Qed.

Section Awaken.
Context (active : gset positive) (seq_build : bool) (triv : hid -> bool).

Lemma awaken_one_ok t g p a c l d v : good (chain (a :: l) t) g p -> cells p !! a = Some c ->
  or_abort (awaken_one active seq_build triv a c d v p) (good (chain l t) g).
Proof.
  intros Hg Ha. unfold awaken_one. destruct (what c) as [h|fn r] eqn:Hw.
  - destruct (take_cell_owed _ _ _ _ _ _ Hg Ha) as [_ Hg']. set (read := if d then construct_results h v else read_into_future_header_result h v).
    pose proof (blind_delete (fun p => p ← lift read p; enqueue_quiesced_promise active seq_build triv (target_ c) h 1 p)
      p a c ltac:(apply blind_bind; [apply blind_lift|apply blind_quiesced]) Ha) as E.
    assert (E' : (p ← lift read p; p ← enqueue_quiesced_promise active seq_build triv (target_ c) h 1 p; delete_cell a p) =
      (p' ← (p ← lift read p; enqueue_quiesced_promise active seq_build triv (target_ c) h 1 p); delete_cell a p')).
    { by destruct (lift read p). }
    rewrite E', E. clear E E'. set (q := put_cells _ p) in *.
    assert (Hq : good (grant h (chain l t)) g q).
    { eapply good_perm; [|exact Hg']. unfold cell_hands, cell_refs, cell_lpc. rewrite Hw. same. }
    destruct (grant_known _ _ _ _ Hq) as [Hk Hin].
    eapply (or_abort_bind _ _ (good (grant h (chain l t)) g)); [|intros q' Hq'; by apply enqueue_quiesced_ok].
    unfold read. destruct d; [by apply construct_ok|apply read_into_ok; [exact Hq|left..]].
  - apply or_abort_ok. by eapply ready_cell_ok.
Qed.

(** [lpc_dormant::awaken] goes through the whole list. *)
Lemma awaken_ok copyable v fuel : forall d t g p a l, good (chain (a :: l) t) g p -> (length (a :: l) <= fuel)%nat ->
  or_abort (awaken active seq_build triv fuel copyable d a v p) (good t g).
Proof.
  induction fuel as [|fuel IH]; intros d t g p a l Hg Hf; [cbn in Hf; lia|]. cbn [awaken].
  destruct (take_cell_ok _ _ _ _ _ Hg) as (c & Ha & Hn & _). unfold cell_at. rewrite Ha. mcbn.
  eapply or_abort_bind; [by apply awaken_one_ok|]. intros p' Hp'. rewrite Hn. destruct l as [|b l]; cbn [head].
  - apply or_abort_ok. by apply good_chain_nil.
  - destruct copyable; [|by left]. eapply IH; [exact Hp'|]. cbn in *. lia.
Qed.
End Awaken.

(** * Bursts *)

Lemma take_task_perm per s l : forall x k, take_task per s l = Some (x, k) -> l ≡ₚ (per, s, x) :: k.
Proof.
  induction l as [|[[per' s'] y] l IH]; intros x k; cbn [take_task]; [done|]. case_decide as Hd.
  - destruct Hd as [-> ->]. by intros [= -> ->].
  - intros ([z k'] & Hz & [= -> <-])%bind_Some. rewrite (IH _ _ Hz). apply Permutation_swap.
Qed.

Lemma run_closure_ok active triv t g p per c fn r v : what c = Fn fn r -> target_ c = per -> good (cell_hands c t) g p ->
  or_abort (run_closure active triv per fn v p) (good t g).
Proof.
  intros Hw Et Hg. unfold cell_hands, cell_refs, cell_lpc in Hg. rewrite Hw in Hg. destruct fn; cbn [run_closure closure_refs] in *.
  - apply fulfill_during_values_ok. eapply good_perm; [|exact Hg]. same.
  - apply fulfill_during_ok. eapply good_perm; [|exact Hg]. same.
  - apply or_abort_ok, run_fn_ok. rewrite Et in Hg. eapply good_perm; [|exact Hg]. same.
Qed.

(** One callback of a burst. *)
Lemma exec_task_ok active triv t g p per s x l : good t g p -> take_task per s (queues p) = Some (x, l) ->
  or_abort (exec_task active triv per x (put_queues l p)) (good t g).
Proof.
  intros Hg Hl%take_task_perm. destruct x as [a|fn v|h]; cbn [exec_task].
  - destruct (pop_cell_ok _ _ _ _ _ _ _ Hg Hl) as (c & fn & v & Ha & Hw & Et & Hg').
    unfold cell_at. cbn [cells put_queues]. rewrite Ha. mcbn. rewrite Hw. mcbn.
    rewrite (blind_delete (run_closure active triv per fn v) (put_queues l p) a c); [|apply blind_closure|done].
    by eapply run_closure_ok.
  - apply or_abort_ok. eapply run_fn_ok, pop_fn_ok; [exact Hg|exact Hl].
  - exact (pop_promise_ok triv _ _ _ _ _ _ _ Hg Hl).
Qed.

(** * Cancellation *)

(** Memory without some callbacks, and the functions of users among them. *)
Fixpoint remove (m : gmap positive lpc_dormant) (l : list positive) : gmap positive lpc_dormant :=
  match l with [] => m | a :: l => remove (delete a m) l end.
Definition cell_fns (m : gmap positive lpc_dormant) (l : list positive) : list (positive * Z) :=
  l ≫= (fun a => default [] (cell_lpc <$> m !! a)).

(** Callbacks for promises whose futures nobody got. *)
Definition not_given (m : gmap positive lpc_dormant) (l : list positive) (g : ghost) : Prop :=
  forall a c h, a ∈ l -> m !! a = Some c -> is_qpromise h c -> h ∉ given g.

(** What cancelled calls do to what is known. *)
Record forgets (g g' : ghost) : Prop := {
  fo_known : forall h, h ∈ known g' -> h ∈ known g; fo_mine : forall h, h ∈ known g -> h ∉ implicit g -> h ∈ known g' /\ h ∉ implicit g';
  fo_share : share g' = share g; fo_flights : flights g' = flights g; fo_given : given g' = given g; fo_registered : registered g' = registered g
}.

Lemma forgets_refl g : forgets g g.
Proof. by split. Qed.

Lemma forgets_trans g1 g2 g3 : forgets g1 g2 -> forgets g2 g3 -> forgets g1 g3.
Proof.
  intros [A1 A2 A3 A4 A5 A6] [B1 B2 B3 B4 B5 B6]. split; [auto| |congruence..].
  intros h H1 H2. destruct (A2 h H1 H2). auto.
Qed.

Lemma forgets_without g h : h ∈ implicit g -> forgets g (without h g).
Proof. intros Hh. split; cbn; try done; set_solver. Qed.

Definition cancel_payload (c : lpc_dormant) (p : process) : res process :=
  match what c with
  | QPromise pro =>
      x ← get pro (heap_of p);
      depcount ← countdown_of x;
      if 1 <? depcount then fulfill_now pro 1 p
      else _ ← assert_that (depcount =? 1); lift (dropref pro) p
  | Fn fn _ => cancel_closure fn p
  end.

Lemma cancel_one_eq a c p : cancel_one a c p = (p' ← cancel_payload c p; delete_cell a p').
Proof. done. Qed.

Lemma blind_payload c : blind (cancel_payload c).
Proof.
  unfold cancel_payload. destruct (what c); [|apply blind_cancel]. intros m p. change (heap_of (put_cells m p)) with (heap_of p).
  destruct (get pro (heap_of p)) as [x| | |]; [|done..]. mcbn. destruct (countdown_of x) as [n| | |]; [|done..]. mcbn.
  destruct (1 <? n); [apply blind_fulfill_now|]. destruct (n =? 1); [apply blind_lift|done].
Qed.

(** Processes that differ by their heaps only. *)
Definition reheaped (p p' : process) : Prop := exists st, p' = put_heap st p.

Lemma lift_reheaped f p p' : lift f p = Ok p' -> reheaped p p'.
Proof. unfold lift. intros (st & _ & [= <-])%bind_ok. by exists st. Qed.

Lemma reheaped_trans p q r : reheaped p q -> reheaped q r -> reheaped p r.
Proof. intros [st ->] [st' ->]. by exists st'. Qed.

Lemma fulfill_now_reheaped h n p p' : fulfill_now h n p = Ok p' -> reheaped p p'.
Proof. unfold fulfill_now. intros (q & Hq%lift_reheaped & Hp%lift_reheaped)%bind_ok. by eapply reheaped_trans. Qed.

Lemma cancel_payload_reheaped c p p' : cancel_payload c p = Ok p' -> reheaped p p'.
Proof.
  unfold cancel_payload. destruct (what c) as [h|[h|h|fn] r]; cbn [cancel_closure].
  - intros (x & _ & (n & _ & H)%bind_ok)%bind_ok. destruct (1 <? n); [by eapply fulfill_now_reheaped|].
    apply bind_ok in H as (_ & _ & H). by eapply lift_reheaped.
  - apply fulfill_now_reheaped.
  - apply fulfill_now_reheaped.
  - intros [= <-]. exists (heap_of p). by destruct p as [[] ?].
Qed.

Lemma cancel_payload_ok t g p c : good (cell_hands c t) g p -> (forall h, is_qpromise h c -> h ∈ implicit g /\ h ∉ given g) ->
  or_abort (cancel_payload c p) (fun p' => exists g', forgets g g' /\ good (take_fns (cell_lpc c) t) g' p').
Proof.
  intros Hg Hq. unfold cancel_payload.
  assert (Hnow : forall h, cell_refs c = [h] -> or_abort (fulfill_now h 1 p) (fun p' => exists g', forgets g g' /\ good (take_fns (cell_lpc c) t) g' p')).
  { intros h Hr. eapply or_abort_mono; [intros p' Hp'; exists g; split; [apply forgets_refl|exact Hp']|]. apply fulfill_now_ok.
    eapply good_perm; [|exact Hg]. unfold cell_hands. rewrite Hr. same. }
  destruct (what c) as [h|[h|h|fn] r] eqn:Hw; cbn [cancel_closure].
  - assert (Hr : cell_refs c = [h]) by (unfold cell_refs; by rewrite Hw). destruct (Hq h Hw) as [Hi Hn].
    assert (Hg1 : good (grant h (take_fns (cell_lpc c) t)) g p) by (eapply good_perm; [|exact Hg]; unfold cell_hands; rewrite Hr; same).
    destruct (grant_known _ _ _ _ Hg1) as [Hk Hin]. destruct (good_live (g_heap _ _ _ Hg1) h Hin) as [x Hx].
    pose proof (proj2 (hg_count _ _ _ _ (g_heap _ _ _ Hg1) h Hk) x Hx) as Hkind.
    change (heap_of p) with (futures (program p)). rewrite (get_some _ _ _ Hx). mcbn. unfold countdown_of. rewrite Hkind. mcbn. case_match; [by apply Hnow|].
    apply or_abort_assert. intros E%Z.eqb_eq. eapply or_abort_mono; [|apply drop_ok, abandon_ok; [exact Hg1|done..]].
    intros p' Hp'. exists (without h g). split; [by apply forgets_without|done].
  - apply Hnow. unfold cell_refs. by rewrite Hw.
  - apply Hnow. unfold cell_refs. by rewrite Hw.
  - apply or_abort_ok. exists g. split; [apply forgets_refl|]. eapply good_perm; [|exact Hg]. unfold cell_hands, cell_refs. rewrite Hw. same.
Qed.

Definition owe_fns (x : list (positive * Z)) : hands := mk_hands [] [] [] [] x [].

Lemma chain_nodup a l t g p : good (chain (a :: l) t) g p -> a ∉ l /\ (length (a :: l) <= size (cells p))%nat.
Proof.
  intros Hg. pose proof (callbacks_nodup _ _ _ (g_cells _ _ _ Hg)) as Hnd. pose proof (ce_all _ _ _ (g_cells _ _ _ Hg)) as Hall.
  cbn in Hnd, Hall. apply NoDup_app in Hnd as (_ & _ & Hnd). apply NoDup_cons in Hnd as [Hnd _]. split; [set_solver|].
  apply Permutation_length in Hall. rewrite !length_app, length_fmap, length_map_to_list in Hall. cbn in Hall.
  rewrite !length_app in Hall. cbn. lia.
Qed.

Lemma cell_fns_delete m a l : a ∉ l -> cell_fns (delete a m) l = cell_fns m l.
Proof.
  intros Ha. unfold cell_fns. induction l as [|b l IH]; [done|]. cbn. rewrite IH by set_solver.
  rewrite lookup_delete_ne; [done|set_solver].
Qed.

Lemma cell_fns_insert m a c l : m !! a = None -> (forall b, b ∈ l -> is_Some (m !! b)) -> cell_fns (<[a := c]> m) l = cell_fns m l.
Proof.
  intros Ha Hl. unfold cell_fns. induction l as [|b l IH]; [done|]. cbn. rewrite IH by set_solver.
  rewrite lookup_insert_ne; [done|]. intros ->. destruct (Hl b) as [? ?]; [left|congruence].
Qed.

(** [lpc_dormant::cancel_and_delete] leaves nothing of the list. *)
Lemma cancel_and_delete_ok fuel : forall t g p a l, good (chain (a :: l) (join (owe_fns (cell_fns (cells p) (a :: l))) t)) g p ->
  not_given (cells p) (a :: l) g -> (length (a :: l) <= fuel)%nat ->
  or_abort (cancel_and_delete fuel a p) (fun p' => reheaped (put_cells (remove (cells p) (a :: l)) p) p' /\
    exists g', forgets g g' /\ good t g' p').
Proof.
  induction fuel as [|fuel IH]; intros t g p a l Hg Hng Hf; [cbn in Hf; lia|]. cbn [cancel_and_delete].
  destruct (take_cell_ok _ _ _ _ _ Hg) as (c & Ha & Hn & Hg1). destruct (chain_nodup _ _ _ _ _ Hg) as [Hal _].
  unfold cell_at. rewrite Ha. mcbn. rewrite cancel_one_eq, (blind_delete _ _ _ _ (blind_payload c) Ha).
  set (q := put_cells (delete a (cells p)) p) in *. set (fs := cell_fns (cells p) l).
  assert (Ef : cell_fns (cells p) (a :: l) = cell_lpc c ++ fs) by (unfold cell_fns; cbn; by rewrite Ha). rewrite Ef in Hg1.
  eapply (or_abort_bind _ _ (fun p' => reheaped q p' /\ exists g', forgets g g' /\ good (chain l (join (owe_fns fs) t)) g' p')).
  - destruct (cancel_payload_ok (chain l (join (owe_fns (cell_lpc c ++ fs)) t)) g q c) as [E|(p' & E & g' & Hfg & Hg')].
    + eapply good_perm; [|exact Hg1]. same.
    + intros h Hh. split; [by eapply (pr_qpromise _ _ _ (g_promises _ _ _ Hg))|]. by eapply (Hng a c h); [left|..].
    + by left.
    + right. exists p'. split; [exact E|]. split; [by eapply cancel_payload_reheaped|]. exists g'. split; [exact Hfg|].
      apply (forget_fns_ok (cell_lpc c)). eapply good_perm; [|exact Hg']. same.
  - intros p' (Hre & g' & Hfg & Hg'). rewrite Hn. destruct l as [|b l]; cbn [head].
    + apply or_abort_ok. split; [exact Hre|]. exists g'. split; [exact Hfg|]. apply good_chain_nil. eapply good_perm; [|exact Hg']. same.
    + assert (Ec : cells p' = delete a (cells p)) by (destruct Hre as [st ->]; done).
      eapply or_abort_mono; [|apply (IH t g' p' b l)].
      * intros p2 (Hre2 & g2 & Hfg2 & Hg2). rewrite Ec in Hre2. split.
        { destruct Hre as [st ->]. eapply reheaped_trans; [|exact Hre2]. by exists st. }
        exists g2. split; [by eapply forgets_trans|done].
      * rewrite Ec, cell_fns_delete by done. exact Hg'.
      * rewrite Ec. intros d e h Hd He Hh. rewrite (fo_given _ _ Hfg). apply lookup_delete_Some in He as [_ He]. by eapply Hng; [right|..].
      * cbn in Hf |- *. lia.
Qed.

(** * The states of completions *)

(** What an action and its state hold: as it comes, when it is constructed, when the call
    returns its futures. *)
Definition refers (h : hid) : hands := mk_hands [h] [] [] [] [] [].
Definition granted (h : hid) : hands := mk_hands [h] [h] [] [] [] [].

Definition action_hands (c : cx) : hands := match c with PromiseCx _ _ h => refers h | _ => empty_hands end.
Definition new_hands (current : positive) (x : head_state) : hands :=
  match x.2 with
  | Some (SPromise true _ (Some h)) => granted h
  | Some (SPromise false _ (Some h)) => refers h
  | Some (SLpc _ _) => mk_hands [] [] [] [current] [] []
  | _ => empty_hands
  end.
Definition state_hands (current : positive) (x : head_state) : hands :=
  match x.2 with
  | Some (SFuture _ (Some h) _) | Some (SPromise _ _ (Some h)) => granted h
  | Some (SLpc _ _) => mk_hands [] [] [] [current] [] []
  | _ => empty_hands
  end.

(** What the types of actions allow *)
Definition well_typed (c : cx) : bool :=
  match c with BufferedCx e | BlockingCx e => bool_decide (e = Source) | RpcCx e _ => bool_decide (e = Remote) | _ => true end.

Definition state_of (op_void : bool) (c : cx) (s : cx_state) : Prop :=
  match c with
  | BufferedCx _ | BlockingCx _ => s = SNone
  | FutureCx _ eager => s = SFuture eager None false
  | PromiseCx e eager h => s = SPromise (negb (no_values op_void e)) eager (Some h)
  | LpcCx _ target fn => s = SLpc target fn
  | RpcCx _ fn => s = SRpc fn
  end.
Definition constructed (op_void : bool) (c : cx) (x : head_state) : Prop :=
  well_typed c = true /\ event_t c <> Remote /\ x.1 = event_t c /\ exists s, x.2 = Some s /\ state_of op_void c s.

(** What stays of a process in which states change. *)
Record calm (p p' : process) : Prop := {
  ca_queues : queues p' = queues p; ca_decrements : deferred_decrements p' = deferred_decrements p;
  ca_executed : executed p' = executed p; ca_flight : in_flight p' = in_flight p;
  ca_roots : roots (program p') = roots (program p); ca_running : running (program p') = running (program p);
  ca_log : log (program p') = log (program p)
}.

Lemma calm_refl p : calm p p.
Proof. by split. Qed.

Lemma calm_trans p q r : calm p q -> calm q r -> calm p r.
Proof. intros [] []. split; congruence. Qed.

Lemma reheaped_calm p p' : reheaped p p' -> calm p p' /\ cells p' = cells p.
Proof. intros [st ->]. by split. Qed.

End CompletionsCalls.
