(* ===== verification/CompletionsRpc.v ===== *)
(** A round-trip call keeps the invariant of a process with completions.

    [rpc_internal] step by step: the states of the completions, their futures and
    requirements, the dormant callbacks of the operation event, and then either the source
    event or the cancellation of all of it. *)
From S2P Require Import Prelude FutureCore FutureInvariant FutureUpdates FutureSafety FutureSystem FutureFrame DistObject Completions CompletionsHeap CompletionsInvariant CompletionsCalls.

Module CompletionsRpc.
Import Futures Invariant Updates Operations System Frame Completions CompletionsHeap CompletionsInvariant CompletionsCalls.

Ltac same := split; cbn -[sum]; solve_Permutation.

(** Ghosts in which the promises of users and what was observed stay. *)
Record adjusts (g g' : ghost) : Prop := {
  ad_mine : forall h, h ∈ known g -> h ∉ implicit g -> h ∈ known g' /\ h ∉ implicit g' /\ share_of h g' = share_of h g;
  ad_flights : flights g' = flights g; ad_given : given g' = given g; ad_registered : registered g' = registered g
}.
Record grows (g g' : ghost) : Prop := { gr_adjusts : adjusts g g'; gr_implicit : implicit g ⊆ implicit g' }.

Lemma adjusts_refl g : adjusts g g.
Proof. by split. Qed.

Lemma adjusts_trans g1 g2 g3 : adjusts g1 g2 -> adjusts g2 g3 -> adjusts g1 g3.
Proof.
  intros [A1 A2 A3 A4] [B1 B2 B3 B4]. split; [|congruence..].
  intros h H1 H2. destruct (A1 h H1 H2) as (K & I & S). destruct (B1 h K I) as (K' & I' & S'). split_and!; [done|done|congruence].
Qed.

Lemma grows_self g : grows g g.
Proof. by split. Qed.

Lemma grows_again g1 g2 g3 : grows g1 g2 -> grows g2 g3 -> grows g1 g3.
Proof. intros [] []. split; [by eapply adjusts_trans|set_solver]. Qed.

Lemma forgets_adjusts g g' : forgets g g' -> adjusts g g'.
Proof.
  intros [F1 F2 F3 F4 F5 F6]. split; try done. intros h H1 H2. destruct (F2 h H1 H2). split_and!; [done..|]. unfold share_of. by rewrite F3.
Qed.

Lemma grows_implicit g h : h ∉ known g -> grows g (with_implicit h g).
Proof.
  intros Hh. split; [|cbn; set_solver]. split; try done. cbn. intros q Hq Hi. assert (q <> h) by (intros ->; done).
  split_and!; [set_solver|set_solver|]. unfold share_of. cbn. by rewrite lookup_insert_ne.
Qed.

Section Call.
Context (current : positive) (op_void : bool).

Abbreviation new_hands := (CompletionsCalls.new_hands current).
Abbreviation state_hands := (CompletionsCalls.state_hands current).
Abbreviation constructed := (CompletionsCalls.constructed op_void).

(** * Construction *)

Definition users_promise (c : cx) (g : ghost) : Prop := match c with PromiseCx _ _ h => h ∈ known g /\ h ∉ implicit g | _ => True end.

Lemma cx_state_ctor_ok t g p c : good (join (action_hands c) t) g p -> well_typed c = true -> event_t c <> Remote -> users_promise c g ->
  or_abort (cx_state_ctor current op_void c p) (fun '(s, p') =>
    constructed c (event_t c, Some s) /\ good (join (new_hands (event_t c, Some s)) t) g p' /\ calm p p' /\ cells p' = cells p).
Proof.
  intros Hg Ht He Hm.
  assert (Hc : forall s, state_of op_void c s -> constructed c (event_t c, Some s)) by (intros s Hs; split_and!; [done..|by exists s]).
  destruct c as [e|e|e eager|e eager h|e target fn|e fn]; cbn [cx_state_ctor].
  1, 2, 3: apply or_abort_ok; split_and!; [by apply Hc|exact Hg|apply calm_refl|done].
  - destruct (no_values op_void e) eqn:Hn.
    + apply or_abort_ok. split_and!; [apply Hc; cbn [state_of]; by rewrite Hn|exact Hg|apply calm_refl|done].
    + destruct (require_ok _ _ _ h Hg) as [->|(p' & E & Hp')]; [apply Hm|unfold held; cbn; set_solver|by left|]. rewrite E. mcbn.
      apply or_abort_ok. destruct (reheaped_calm _ _ (lift_reheaped _ _ _ E)). split_and!; [apply Hc; cbn [state_of]; by rewrite Hn|exact Hp'|done|done].
  - apply or_abort_ok. split_and!; [by apply Hc|exact (discharge_ok _ _ _ current Hg)|by split|done].
  - by apply bool_decide_eq_true in Ht.
Qed.

Lemma completions_state_ok cxs : forall t g p, good (join (sum (action_hands <$> cxs)) t) g p ->
  Forall (fun c => well_typed c = true /\ event_t c <> Remote /\ users_promise c g) cxs ->
  or_abort (completions_state current op_void cxs p) (fun '(l, p') =>
    Forall2 constructed cxs l /\ good (join (sum (new_hands <$> l)) t) g p' /\ calm p p' /\ cells p' = cells p).
Proof.
  induction cxs as [|c cxs IH]; intros t g p Hg Hc; cbn [completions_state].
  { apply or_abort_ok. split_and!; [constructor|exact Hg|apply calm_refl|done]. }
  apply Forall_cons in Hc as [(Ht & He & Hm) Hc]. assert (event_is_here (event_t c) = true) as -> by (by destruct (event_t c)).
  destruct (cx_state_ctor_ok (join (sum (action_hands <$> cxs)) t) g p c) as [->|([s p1] & -> & Hs & Hg1 & Hca & Ec)]; try done; [|by left|].
  { eapply good_perm; [|exact Hg]. same. }
  mcbn. destruct (IH (join (new_hands (event_t c, Some s)) t) g p1) as [->|([l p2] & -> & Hl & Hg2 & Hca2 & Ec2)]; [|done|by left|].
  { eapply good_perm; [|exact Hg1]. same. }
  mcbn. apply or_abort_ok. split_and!; [by constructor| |by eapply calm_trans|congruence].
  eapply good_perm; [|exact Hg2]. same.
Qed.

(** * Futures *)

(** States that are ready for their events *)
Definition settled (g : ghost) (c : cx) (x : head_state) : Prop :=
  well_typed c = true /\ event_t c <> Remote /\ x.1 = event_t c /\
  match c with
  | FutureCx _ eager => exists h, x.2 = Some (SFuture eager (Some h) true) /\ h ∈ implicit g /\ h ∉ given g
  | _ => exists s, x.2 = Some s /\ state_of op_void c s
  end.

Lemma settled_grows g g' c x : grows g g' -> settled g c x -> settled g' c x.
Proof.
  intros [Ha Hi] (H1 & H2 & H3 & H4). split_and!; [done..|]. destruct c; try done.
  destruct H4 as (h & E & Hh & Hn). exists h. split_and!; [done|by apply Hi|]. by rewrite (ad_given _ _ Ha).
Qed.

Lemma not_done e : cx_event_is_done e done_none = false.
Proof. by destruct e. Qed.

Lemma get_future_ok t g p e eager : good t g p -> exists h p', get_future op_void e eager done_none p = Ok (h, SFuture eager (Some h) true, p') /\
  h ∉ known g /\ h ∉ implicit g /\ good (join (granted h) (join (refers h) t)) (with_implicit h g) p' /\ calm p p' /\ cells p' = cells p.
Proof using Type.
  intros Hg. unfold get_future. rewrite not_done, !andb_false_r. destruct (implicit_promise_ok _ _ _ (no_values op_void e) Hg) as (st & st' & E1 & E2 & Hk & Hi & Hg').
  rewrite E1. mcbn. rewrite E2. mcbn. exists (next_h (heap_of p)), (put_heap st' p). split_and!; [done..| |by split|done].
  eapply good_perm; [|exact Hg']. same.
Qed.

(** [completions_returner] gives futures of new promises. *)
Definition refs_only (l : list hid) : hands := mk_hands l [] [] [] [] [].

Lemma set_done_ok t g p c s : constructed c (event_t c, Some s) -> users_promise c g -> (forall e eager, c <> FutureCx e eager) ->
  good (join (new_hands (event_t c, Some s)) t) g p ->
  or_abort (set_done (event_t c) s done_none p) (fun '(s', p') =>
    s' = s /\ good (join (state_hands (event_t c, Some s)) t) g p' /\ calm p p' /\ cells p' = cells p).
Proof using Type.
  intros (Ht & _ & _ & s0 & [= <-] & Hs) Hm Hc Hg.
  destruct c as [e|e|e eager|e eager h|e target fn|e fn]; cbn [state_of] in Hs.
  1, 2, 5, 6: subst s; apply or_abort_ok; split_and!; [done|exact Hg|apply calm_refl|done].
  - by destruct (Hc e eager).
  - subst s. cbn [event_t set_done]. destruct (negb (no_values op_void e)).
    + apply or_abort_ok. split_and!; [done|exact Hg|apply calm_refl|done].
    + rewrite not_done, andb_false_r. destruct (require_ok _ _ _ h Hg) as [->|(p' & E & Hp')]; [apply Hm|unfold held; cbn; set_solver|by left|].
      rewrite E. mcbn. apply or_abort_ok. destruct (reheaped_calm _ _ (lift_reheaped _ _ _ E)). split_and!; [done|exact Hp'|done|done].
Qed.

Lemma mine_grows c g g' : grows g g' -> users_promise c g -> users_promise c g'.
Proof. destruct c as [| | |e eager h| |]; try done. intros [Ha _] [H1 H2]. cbn. by destruct (ad_mine _ _ Ha h H1 H2) as (? & ? & _). Qed.

(** One state, after the futures of the others. *)
Lemma settle_one_ok t g p c e s0 : constructed c (e, s0) -> users_promise c g -> good (join (new_hands (e, s0)) t) g p ->
  or_abort (match s0 with
      | Some (SFuture eager _ _) => '((h, s, p) : hid * cx_state * process) ← get_future op_void e eager done_none p; Ok ((e, Some s), [h], p)
      | Some s => '((s, p) : cx_state * process) ← set_done e s done_none p; Ok ((e, Some s), [], p)
      | None => Ok ((e, None), [], p)
      end) (fun '(x, futs, p') => exists g', grows g g' /\ settled g' c x /\ Forall (fun h => h ∈ implicit g') futs /\
    good (join (state_hands x) (join (refs_only futs) t)) g' p' /\ calm p p' /\ cells p' = cells p).
Proof.
  intros Hc Hm Hg. pose proof Hc as (Ht & He & Ee & s & E & Hs). cbn in Ee, E. subst e s0.
  assert (Hset : (forall e' eager, c <> FutureCx e' eager) -> or_abort ('((s, p) : cx_state * process) ← set_done (event_t c) s done_none p; Ok ((event_t c, Some s), [], p))
    (fun '(x, futs, p') => exists g', grows g g' /\ settled g' c x /\ Forall (fun h => h ∈ implicit g') futs /\
      good (join (state_hands x) (join (refs_only futs) t)) g' p' /\ calm p p' /\ cells p' = cells p)).
  { intros Hnf. eapply or_abort_bind; [by apply set_done_ok|]. intros [s' p'] (-> & Hg' & Hca & Ec). apply or_abort_ok. exists g.
    split_and!; [apply grows_self| |constructor| |done|done].
    - split_and!; [done..|]. destruct c; try (by exists s). by destruct (Hnf e eager).
    - eapply good_perm; [|exact Hg']. same. }
  destruct c as [e|e|e eager|e eager h|e target fn|e fn]; cbn [state_of] in Hs; subst s; try (apply Hset; done). clear Hset.
  destruct (get_future_ok _ _ _ e eager Hg) as (h & p' & E & Hk & Hi & Hg' & Hca & Ec). cbn [event_t]. rewrite E. mcbn. apply or_abort_ok.
  assert (Hng : h ∉ given g) by (intros ?; by apply Hi, (pr_given _ _ _ (g_promises _ _ _ Hg))).
  exists (with_implicit h g). split_and!; [by apply grows_implicit| | | |done|done].
  - split_and!; [done..|]. exists h. split_and!; [done|cbn; set_solver|done].
  - apply Forall_singleton. cbn. set_solver.
  - eapply good_perm; [|exact Hg']. same.
Qed.

Lemma completions_returner_cons e s0 l value p : completions_returner op_void ((e, s0) :: l) value p =
  ('((l, futs, p) : list head_state * list hid * process) ← completions_returner op_void l value p;
   '((x, futs', p) : head_state * list hid * process) ←
     (match s0 with
      | Some (SFuture eager _ _) => '((h, s, p) : hid * cx_state * process) ← get_future op_void e eager value p; Ok ((e, Some s), [h], p)
      | Some s => '((s, p) : cx_state * process) ← set_done e s value p; Ok ((e, Some s), [], p)
      | None => Ok ((e, None), [], p)
      end);
   Ok (x :: l, futs' ++ futs, p)).
Proof.
  cbn [completions_returner]. destruct (completions_returner op_void l value p) as [[[k futs] q]| | |]; [|done..]. mcbn.
  destruct s0 as [[| | | |]|]; mcbn; try done.
  - by destruct (get_future op_void e eager value q) as [[[? ?] ?]| | |].
  - by destruct (set_done e (SPromise matching eager pro_) value q) as [[? ?]| | |].
Qed.

Lemma completions_returner_ok cxs l : Forall2 constructed cxs l -> forall t g p, Forall (fun c => users_promise c g) cxs ->
  good (join (sum (new_hands <$> l)) t) g p ->
  or_abort (completions_returner op_void l done_none p) (fun '(l', futs, p') => exists g', grows g g' /\ Forall2 (settled g') cxs l' /\
    Forall (fun h => h ∈ implicit g') futs /\ good (join (sum (state_hands <$> l')) (join (refs_only futs) t)) g' p' /\ calm p p' /\ cells p' = cells p).
Proof.
  induction 1 as [|c [e s0] cxs l Hc Hl IH]; intros t g p Hm Hg.
  { apply or_abort_ok. exists g. split_and!; [apply grows_self|constructor|constructor|exact Hg|apply calm_refl|done]. }
  apply Forall_cons in Hm as [Hm Hms]. rewrite completions_returner_cons.
  eapply or_abort_bind; [apply (IH (join (new_hands (e, s0)) t) g p Hms); eapply good_perm; [|exact Hg]; same|].
  intros [[l' futs] p1] (g1 & Hgr & Hset & Hf & Hg1 & Hca & Ec).
  eapply or_abort_bind; [apply (settle_one_ok (join (sum (state_hands <$> l')) (join (refs_only futs) t)) g1 p1 c e s0 Hc); [by eapply mine_grows|]|].
  { eapply good_perm; [|exact Hg1]. same. }
  intros [[x futs'] p2] (g2 & Hgr2 & Hx & Hf2 & Hg2 & Hca2 & Ec2). apply or_abort_ok. exists g2.
  split_and!; [by eapply grows_again| | | |by eapply calm_trans|congruence].
  - constructor; [done|]. eapply Forall2_impl; [exact Hset|]. intros. by eapply settled_grows.
  - apply Forall_app. split; [done|]. eapply Forall_impl; [exact Hf|]. cbn. intros h Hh. by apply (gr_implicit _ _ Hgr2).
  - eapply good_perm; [|exact Hg2]. same.
Qed.

(** * Dormant callbacks *)

Definition state_fns (x : head_state) : list (positive * Z) := match x.2 with Some (SLpc target fn) => [(target, fn)] | _ => [] end.

(** The states of the source event *)
Definition is_source (x : head_state) : Prop := x.1 = Source.
#[local] Instance is_source_dec x : Decision (is_source x) := decide (x.1 = Source).
Definition sources (l : list head_state) : list head_state := filter is_source l.

Definition added (c : lpc_dormant) (p p' : process) : Prop :=
  calm p p' /\ cells p !! next_cell p = None /\ cells p' = <[next_cell p := c]> (cells p).

Lemma fresh_cell t g p : good t g p -> cells p !! next_cell p = None.
Proof.
  intros Hg. destruct (cells p !! next_cell p) eqn:E; [|done]. pose proof (ce_next _ _ _ (g_cells _ _ _ Hg) (next_cell p) ltac:(by eexists)). lia.
Qed.

(** A state of the operation event becomes a dormant callback. *)
Lemma cx_to_lpc_dormant_ok t g p c x s ch : settled g c x -> x.2 = Some s -> x.1 = Operation -> good (join (state_hands x) (chain ch t)) g p ->
  exists a p' d, cx_to_lpc_dormant current s (head ch) p = Ok (a, p') /\ added d p p' /\ cell_lpc d = state_fns x /\ a = next_cell p /\
    (forall h, is_qpromise h d -> h ∉ given g) /\ good (chain (a :: ch) (join (owe_fns (state_fns x)) t)) g p'.
Proof.
  intros (Ht & He & Ee & Hs) Hx Hop Hg. destruct x as [e s0]. cbn in Ee, Hx, Hop. subst e s0.
  assert (Hmade : forall d fns' p1, calm p p1 -> cells p1 = cells p -> next_cell p1 = next_cell p ->
    cell_lpc d = fns' -> next_ d = head ch -> (forall h, is_qpromise h d -> h ∈ implicit g /\ h ∉ given g) ->
    good (chain ch (cell_hands d (join (owe_fns fns') t))) g p1 ->
    added d p (new_cell d p1).2 /\ (new_cell d p1).1 = next_cell p /\ (forall h, is_qpromise h d -> h ∉ given g) /\
    good (chain (next_cell p :: ch) (join (owe_fns fns') t)) g (new_cell d p1).2).
  { intros d fns' p1 Hca Ec En Hf Hn Hq Hd. split_and!; [|done|intros; by apply Hq|].
    - split_and!; [by destruct Hca; split|by eapply fresh_cell|]. cbn. by rewrite Ec, En.
    - rewrite <- En. by apply new_cell_ok; [|done|intros; apply Hq]. }
  destruct c as [e|e|e eager|e eager h|e target fn|e fn]; cbn [event_t] in *.
  1, 2: apply bool_decide_eq_true in Ht; congruence.
  - destruct Hs as (h & [= ->] & Hi & Hn). cbn [cx_to_lpc_dormant]. mcbn. set (d := mk_dormant (head ch) current (QPromise h)).
    destruct (Hmade d [] p) as (H1 & H2 & H3 & H4); try done; [by intros ? [= <-]|].
    exists (next_cell p), (new_cell d p).2, d. by split_and!.
  - destruct Hs as (s' & [= <-] & Hs). cbn [state_of] in Hs. subst s. destruct (no_values op_void e); cbn [negb] in *;
      [set (d := mk_dormant (head ch) current (Fn (FulfillUnit h) None))|set (d := mk_dormant (head ch) current (Fn (FulfillValues h) None))];
      (destruct (Hmade d [] p) as (H1 & H2 & H3 & H4); try done; exists (next_cell p), (new_cell d p).2, d; by split_and!).
  - destruct Hs as (s' & [= <-] & Hs). cbn [state_of] in Hs. subst s. set (d := mk_dormant (head ch) target (Fn (UserFn fn) None)). set (p1 := discharge current (-1) p).
    destruct (Hmade d [(target, fn)] p1) as (H1 & H2 & H3 & H4); try done.
    { apply (new_fn_ok _ _ _ (target, fn)) in Hg. apply (discharged_ok _ _ _ current).
      eapply good_perm; [|exact Hg]. same. }
    exists (next_cell p), (new_cell d p1).2, d. by split_and!.
  - apply bool_decide_eq_true in Ht. congruence.
Qed.

Definition operation_fns (l : list head_state) : list (positive * Z) := filter (fun x : head_state => x.1 = Operation) l ≫= state_fns.

(** What [to_lpc_dormant] made of states: the list [ch]. *)
Record dormant_list (l : list head_state) (g : ghost) (p p' : process) (ch : list positive) : Prop := {
  dl_calm : calm p p'; dl_cells : remove (cells p') ch = cells p; dl_live : forall a, a ∈ ch -> is_Some (cells p' !! a);
  dl_fns : cell_fns (cells p') ch = operation_fns l; dl_given : not_given (cells p') ch g;
  dl_some : Exists (fun x : head_state => x.1 = Operation) l -> ch <> []
}.

Lemma dormant_list_skip x l g p p' ch : x.1 <> Operation -> dormant_list l g p p' ch -> dormant_list (x :: l) g p p' ch.
Proof.
  intros Hx [D1 D2 D3 D4 D5 D6]. split; try done.
  - unfold operation_fns. by rewrite filter_cons_False.
  - intros [?|?]%Exists_cons; [done|auto].
Qed.

Lemma dormant_list_add x l g p p1 p2 ch d : x.1 = Operation -> dormant_list l g p p1 ch -> added d p1 p2 -> cell_lpc d = state_fns x ->
  (forall h, is_qpromise h d -> h ∉ given g) -> dormant_list (x :: l) g p p2 (next_cell p1 :: ch).
Proof.
  intros Hx [D1 D2 D3 D4 D5 D6] (Hca & Ha & Ec) Hf Hq. split; rewrite ?Ec.
  - by eapply calm_trans.
  - cbn. by rewrite delete_insert_id.
  - intros a [->|Hin]%elem_of_cons; [by rewrite lookup_insert_eq|]. destruct (D3 a Hin) as [c Hc].
    rewrite lookup_insert_ne by congruence. by exists c.
  - unfold operation_fns. rewrite filter_cons_True by done. cbn [mbind list_bind]. rewrite <- Hf. unfold operation_fns in D4. rewrite <- D4.
    unfold cell_fns at 1. cbn [mbind list_bind]. rewrite lookup_insert_eq. cbn. f_equal. by apply cell_fns_insert.
  - intros a c h [->|Hin]%elem_of_cons Hc; [rewrite lookup_insert_eq in Hc; injection Hc as <-; apply Hq|].
    destruct (D3 a Hin) as [c' Hc']. rewrite lookup_insert_ne in Hc by congruence. by eapply D5.
  - done.
Qed.

Lemma to_lpc_dormant_ok cxs l : forall t g p, Forall2 (settled g) cxs l -> good (join (sum (state_hands <$> l)) t) g p ->
  exists ch p', to_lpc_dormant current Operation l p = Ok (head ch, p') /\ dormant_list l g p p' ch /\
    good (chain ch (join (owe_fns (operation_fns l)) (join (sum (state_hands <$> sources l)) t))) g p'.
Proof.
  intros t g p Hl. revert t p. induction Hl as [|c [e s0] cxs l Hc Hl IH]; intros t p Hg; cbn [to_lpc_dormant].
  { exists [], p. split_and!; [done|split; try done; [by intros ? ?%elem_of_nil|by intros ? ? ? ?%elem_of_nil|by intros ?%Exists_nil]|].
    apply good_chain_nil. eapply good_perm; [|exact Hg]. same. }
  destruct (IH (join (state_hands (e, s0)) t) p) as (ch & p1 & -> & Hd & Hg1).
  { eapply good_perm; [|exact Hg]. same. }
  mcbn. clear IH. pose proof Hc as (_ & He & Ee & _). cbn in Ee.
  assert (Hs : exists s, s0 = Some s) by (destruct c, Hc as (_ & _ & _ & Hs); naive_solver). destruct Hs as [s ->].
  destruct (decide (Operation = e)) as [Eo|Hno].
  - subst e. rewrite <- Eo in *. destruct (cx_to_lpc_dormant_ok (join (owe_fns (operation_fns l)) (join (sum (state_hands <$> sources l)) t))
      g p1 c (Operation, Some s) s ch) as (a & p2 & d & -> & Hadd & Hf & -> & Hq & Hg2); try done.
    { eapply good_perm; [|exact Hg1]. same. }
    mcbn. exists (next_cell p1 :: ch), p2. split_and!; [done|by eapply dormant_list_add|]. unfold operation_fns, sources.
    rewrite filter_cons_True, filter_cons_False by done. eapply good_perm; [|exact Hg2]. unfold operation_fns, sources. same.
  - exists ch, p1. split_and!; [done|apply dormant_list_skip; [cbn; congruence|done]|]. unfold operation_fns, sources.
    rewrite filter_cons_False by (cbn; congruence). rewrite filter_cons_True by (unfold is_source; cbn; subst e; by destruct (event_t c)).
    eapply good_perm; [|exact Hg1]. unfold operation_fns, sources. same.
Qed.

(** * The source event *)

Definition source_fns (l : list head_state) : list (positive * Z) := sources l ≫= state_fns.

(** A function that goes through the states of the source event *)
Lemma visit_ok g0 (f : cx_state -> process -> res process) (F : head_state -> hands) (C : process -> process -> Prop) :
  (forall p, C p p) -> (forall p q r, C p q -> C q r -> C p r) ->
  (forall t g p c s, settled g0 c (Source, Some s) -> good (join (state_hands (Source, Some s)) t) g p ->
    or_abort (f s p) (fun p' => good (join (F (Source, Some s)) t) g p' /\ C p p')) ->
  forall cxs l t g p, Forall2 (settled g0) cxs l -> good (join (sum (state_hands <$> sources l)) t) g p ->
  or_abort (visit f Source l p) (fun p' => good (join (sum (F <$> sources l)) t) g p' /\ C p p').
Proof.
  intros Hrefl Htrans Hf cxs l t g p Hl. revert t p. induction Hl as [|c [e s0] cxs l Hc Hl IH]; intros t p Hg; cbn [visit].
  { apply or_abort_ok. by split. }
  assert (Hs : exists s, s0 = Some s) by (destruct c, Hc as (_ & _ & _ & Hs); naive_solver). destruct Hs as [s ->].
  destruct (decide (Source = e)) as [<-|Hne].
  - unfold sources in Hg |- *. rewrite filter_cons_True in Hg |- * by done.
    eapply or_abort_bind; [apply (Hf (join (sum (state_hands <$> sources l)) t) g p c s Hc); eapply good_perm; [|exact Hg]; same|].
    intros p1 [Hg1 HC1]. eapply or_abort_mono; [|apply (IH (join (F (Source, Some s)) t) p1); eapply good_perm; [|exact Hg1]; same].
    intros p2 [Hg2 HC2]. split; [|by eapply Htrans]. eapply good_perm; [|exact Hg2]. unfold sources. same.
  - unfold sources in Hg |- *. rewrite filter_cons_False in Hg |- * by (unfold is_source; cbn; congruence). by apply IH.
Qed.

Lemma cx_cancel_ok g0 t g p c s : settled g0 c (Source, Some s) -> good (join (state_hands (Source, Some s)) t) g p ->
  or_abort (cx_cancel current s p) (fun p' => good (join empty_hands t) g p' /\ (calm p p' /\ cells p' = cells p)).
Proof.
  intros (Ht & He & _ & Hs) Hg.
  assert (Hnow : forall h, good (grant h (join empty_hands t)) g p -> or_abort (fulfill_now h 1 p) (fun p' =>
    good (join empty_hands t) g p' /\ (calm p p' /\ cells p' = cells p))).
  { intros h Hh. destruct (fulfill_now_ok _ _ _ _ Hh) as [->|(p' & E & Hp')]; [by left|]. right. exists p'.
    split_and!; [done|done|by apply reheaped_calm, (fulfill_now_reheaped h 1)..]. }
  destruct c as [e|e|e eager|e eager h|e target fn|e fn].
  - destruct Hs as (s' & [= <-] & Hs). cbn in Hs. subst s. apply or_abort_ok. split_and!; [exact Hg|apply calm_refl|done].
  - destruct Hs as (s' & [= <-] & Hs). cbn in Hs. subst s. apply or_abort_ok. split_and!; [exact Hg|apply calm_refl|done].
  - destruct Hs as (h & [= ->] & _ & _). cbn [cx_cancel]. by apply Hnow.
  - destruct Hs as (s' & [= <-] & Hs). cbn [state_of] in Hs. subst s. destruct (no_values op_void e); cbn [cx_cancel negb]; mcbn; by apply Hnow.
  - destruct Hs as (s' & [= <-] & Hs). cbn in Hs. subst s. apply or_abort_ok. split_and!; [|by split|done].
    exact (discharged_ok (join empty_hands t) g p current Hg).
  - by apply bool_decide_eq_true in Ht.
Qed.

Lemma sum_empty (l : list head_state) t : same_hands (join (sum ((fun _ => empty_hands) <$> l)) t) t.
Proof. induction l as [|x l IH]; [same|]. etransitivity; [|exact IH]. same. Qed.

Lemma cancel_ok g0 cxs l t g p : Forall2 (settled g0) cxs l -> good (join (sum (state_hands <$> sources l)) t) g p ->
  or_abort (cancel current Source l p) (fun p' => good t g p' /\ (calm p p' /\ cells p' = cells p)).
Proof.
  intros Hl Hg. eapply or_abort_mono; [|eapply (visit_ok g0 _ (fun _ => empty_hands) (fun p p' => calm p p' /\ cells p' = cells p))].
  - intros p' [Hg' HC]. split; [|exact HC]. eapply good_perm; [apply sum_empty|exact Hg'].
  - intros q. split; [apply calm_refl|done].
  - intros q1 q2 q3 [H1 E1] [H2 E2]. split; [by eapply calm_trans|congruence].
  - intros t' g' q c s. apply cx_cancel_ok.
  - exact Hl.
  - exact Hg.
Qed.

Section Fire.
Context (active : gset positive) (triv : hid -> bool).

Lemma cx_fire_ok g0 t g p c s v : settled g0 c (Source, Some s) -> good (join (state_hands (Source, Some s)) t) g p ->
  or_abort (cx_fire active triv current op_void Source s v p) (fun p' =>
    good (join (owe_fns (state_fns (Source, Some s))) t) g p' /\ True).
Proof.
  intros (Ht & He & _ & Hs) Hg.
  assert (Hgood : forall r u, or_abort r (good u g) -> or_abort r (fun p' => good u g p' /\ True)) by (intros r u; by apply or_abort_mono).
  apply Hgood. destruct c as [e|e|e eager|e eager h|e target fn|e fn].
  - destruct Hs as (s' & [= <-] & Hs). cbn in Hs. subst s. by apply or_abort_ok.
  - destruct Hs as (s' & [= <-] & Hs). cbn in Hs. subst s. by apply or_abort_ok.
  - destruct Hs as (h & [= ->] & _ & _). cbn [cx_fire assert_that mbind res_bind].
    destruct eager; [by apply fulfill_now_values_ok|by apply fulfill_during_values_ok].
  - destruct Hs as (s' & [= <-] & Hs). cbn [state_of] in Hs. subst s. destruct (no_values op_void e); cbn [cx_fire negb]; mcbn.
    + by apply fulfill_during_ok.
    + destruct eager; [by apply fulfill_now_values_ok|by apply fulfill_during_values_ok].
  - destruct Hs as (s' & [= <-] & Hs). cbn in Hs. subst s. apply or_abort_ok. apply (new_fn_ok _ _ _ (target, fn)) in Hg.
    apply (discharged_ok _ _ _ current). apply enqueue_fn_ok. eapply good_perm; [|exact Hg]. same.
  - by apply bool_decide_eq_true in Ht.
Qed.

Lemma sum_fns (f : head_state -> list (positive * Z)) l : same_hands (sum ((fun x => owe_fns (f x)) <$> l)) (owe_fns (l ≫= f)).
Proof. induction l as [|x l [I1 I2 I3 I4 I5 I6]]; [same|]. split; cbn -[sum] in *; try done. by rewrite I5. Qed.

Lemma fire_ok g0 cxs l t g p v : Forall2 (settled g0) cxs l -> good (join (sum (state_hands <$> sources l)) t) g p ->
  or_abort (fire active triv current op_void Source v l p) (good (join (owe_fns (source_fns l)) t) g).
Proof.
  intros Hl Hg. eapply or_abort_mono; [|eapply (visit_ok g0 _ (fun x => owe_fns (state_fns x)) (fun _ _ => True))]; try done.
  - intros p' [Hg' _]. eapply good_perm; [|exact Hg']. destruct (sum_fns state_fns (sources l)) as [I1 I2 I3 I4 I5 I6].
    split; cbn -[sum] in *; by rewrite <- ?I1, <- ?I2, <- ?I3, <- ?I4, <- ?I5, <- ?I6.
  - intros t' g' q c s Hc Hq. by eapply cx_fire_ok.
Qed.
End Fire.

(** * The call *)

(** The functions of users among actions *)
Definition rpc_fns (cxs : list cx) : list (positive * Z) := omap (fun c => match c with LpcCx _ target fn => Some (target, fn) | _ => None end) cxs.

Lemma settled_fns g cxs l : Forall2 (settled g) cxs l -> operation_fns l ++ source_fns l ≡ₚ rpc_fns cxs.
Proof.
  unfold source_fns, operation_fns, sources. induction 1 as [|c [e s0] cxs l Hc Hl IH]; [done|]. destruct Hc as (Ht & He & Ee & Hs). cbn in Ee. subst e.
  assert (Hf : state_fns (event_t c, s0) = match c with LpcCx _ target fn => [(target, fn)] | _ => [] end).
  { destruct c; cbn in Hs; try (by destruct Hs as (s & -> & ->)). by destruct Hs as (h & -> & _). }
  assert (Hr : rpc_fns (c :: cxs) = match c with LpcCx _ target fn => [(target, fn)] | _ => [] end ++ rpc_fns cxs) by (by destruct c).
  rewrite Hr, <- IH, <- Hf. destruct (decide (event_t c = Operation)) as [E|E].
  - rewrite filter_cons_True by done. rewrite filter_cons_False by (unfold is_source; cbn; congruence). cbn [mbind list_bind]. solve_Permutation.
  - rewrite filter_cons_False by done. rewrite filter_cons_True by (unfold is_source; cbn; by destruct (event_t c)). cbn [mbind list_bind]. solve_Permutation.
Qed.

Definition with_flights (l : list (list positive)) (g : ghost) : ghost :=
  mk_ghost (known g) (implicit g) (share g) l (given g) (registered g).
Definition with_observed (l : list hid) (fs : list (positive * Z)) (g : ghost) : ghost :=
  mk_ghost (known g) (implicit g) (share g) (flights g) (list_to_set l ∪ given g) (registered g ++ fs).

Lemma launch_ok t g p a l : good (chain (a :: l) t) g p ->
  good t (with_flights (flights g ++ [a :: l]) g) (put_flight (in_flight p ++ [a]) p).
Proof.
  intros [G1 [] [C1 C2 C3 C4 C5] G4 G5]. split; try done. split; try done; cbn in *.
  - rewrite !Forall_app, ?Forall_cons in *. naive_solver.
  - by rewrite !fmap_app, C2.
  - rewrite <- C3, concat_app. cbn. solve_Permutation.
Qed.

Lemma land_ok t g p i a : good t g p -> in_flight p !! i = Some a -> exists l,
  good (chain (a :: l) t) (with_flights (delete i (flights g)) g) (put_flight (delete i (in_flight p)) p).
Proof.
  intros [G1 [] [C1 C2 C3 C4 C5] G4 G5] Hi.
  assert (Hl : exists l, flights g !! i = Some (a :: l)).
  { pose proof (f_equal (fun k => k !! i) C2) as E. cbn in E. rewrite !list_lookup_fmap, Hi in E. destruct (flights g !! i) as [[|b l]|]; try done.
    cbn in E. exists l. congruence. }
  destruct Hl as [l Hl]. exists l. pose proof (delete_Permutation _ _ _ Hl) as Hp. split; try done. split; try done; cbn in *.
  - rewrite Forall_app, Forall_cons. rewrite Hp, Forall_app, Forall_cons in C1. naive_solver.
  - rewrite !list_fmap_delete. by rewrite C2.
  - rewrite <- C3. rewrite <- (take_drop_middle _ _ _ Hl) at 2. rewrite delete_take_drop, !concat_app. cbn. solve_Permutation.
Qed.

Lemma observe_ok t g p l fs fs' : good (join (owe_fns fs) t) g p -> fs ≡ₚ fs' -> Forall (fun h => h ∈ implicit g) l -> good t (with_observed l fs' g) p.
Proof.
  intros [G1 [] [] G4 G5] Hp Hl. rewrite Forall_forall in Hl. split; try done.
  - split; try done. cbn. intros h [Hh%elem_of_list_to_set|Hh]%elem_of_union; auto.
  - cbn in G5 |- *. rewrite <- Hp, <- G5. solve_Permutation.
Qed.

Section Rpc.
Context (active : gset positive) (triv : hid -> bool).

Definition returns (t : hands) (g : ghost) (p : process) (cxs : list cx) (futs : list hid) (p' : process) : Prop :=
  exists g1 ch, adjusts g g1 /\ Forall (fun h => h ∈ implicit g1) futs /\
    good (join (refs_only futs) t) (with_observed futs (rpc_fns cxs) (with_flights (flights g ++ [ch]) g1)) p'.

Definition throws_back (t : hands) (g : ghost) (p p' : process) : Prop :=
  exists g1, adjusts g g1 /\ good t g1 p' /\ calm p p' /\ cells p' = cells p.

Lemma rpc_internal_ok t g p cxs throws : good (join (sum (action_hands <$> cxs)) t) g p ->
  Forall (fun c => well_typed c = true /\ users_promise c g) cxs ->
  or_abort (rpc_internal active triv current op_void cxs throws p) (fun '(o, p') =>
    match o with Returned futs => throws = false /\ returns t g p cxs futs p' | Thrown => throws = true /\ throws_back t g p p' end).
Proof.
  intros Hg Hc. unfold rpc_internal. apply or_abort_assert. intros Hrem%negb_true_iff. apply or_abort_assert. intros Hop.
  assert (Hc' : Forall (fun c => well_typed c = true /\ event_t c <> Remote /\ users_promise c g) cxs).
  { rewrite Forall_forall in Hc |- *. intros c Hin. destruct (Hc c Hin). split_and!; [done| |done]. intros Er.
    rewrite <- not_true_iff_false in Hrem. apply Hrem. unfold completions_has_event. apply existsb_exists.
    exists c. split; [by apply list_elem_of_In|]. by apply bool_decide_eq_true. }
  eapply or_abort_bind; [by apply completions_state_ok|]. intros [l1 p1] (Hl1 & Hg1 & Hca1 & Ec1).
  eapply or_abort_bind; [apply (completions_returner_ok cxs l1 Hl1 t g p1); [|exact Hg1]; eapply Forall_impl; [exact Hc|]; by intros c [_ ?]|].
  intros [[l futs] p2] (g1 & Hgr & Hl & Hf & Hg2 & Hca2 & Ec2).
  destruct (to_lpc_dormant_ok cxs l _ _ _ Hl Hg2) as (ch & p3 & -> & [D1 D2 D3 D4 D5 D6] & Hg3). mcbn.
  destruct ch as [|a ch].
  { exfalso. apply D6; [|done]. apply existsb_exists in Hop as (c & Hin%list_elem_of_In & He%bool_decide_eq_true).
    apply Exists_exists. apply list_elem_of_lookup in Hin as [i Hi]. destruct (Forall2_lookup_l _ _ _ _ _ Hl Hi) as (x & Hx & _ & _ & Ex & _).
    exists x. split; [by eapply list_elem_of_lookup_2|congruence]. }
  cbn [head]. mcbn. destruct throws.
  - destruct (chain_nodup _ _ _ _ _ Hg3) as [_ Hsize]. rewrite <- D4 in Hg3.
    eapply or_abort_bind; [by apply (cancel_and_delete_ok _ _ _ _ _ ch Hg3)|]. intros p4 (Hre & g4 & Hfg & Hg4).
    eapply or_abort_bind; [by apply (cancel_ok g1 cxs l _ _ _ Hl Hg4)|]. intros p5 (Hg5 & Hca5 & Ec5).
    eapply or_abort_bind.
    { unfold drop_futures. pose proof (drop_refs_ok futs t g4 p5 Hg5) as [E|(p6 & E & Hg6)]; [by left|]. right. exists p6.
      split; [exact E|]. exact (conj Hg6 (reheaped_calm _ _ (lift_reheaped _ _ _ E))). }
    intros p6 (Hg6 & Hca6 & Ec6). apply or_abort_ok. split; [done|]. exists g4. split_and!; [|done| |].
    + eapply adjusts_trans; [apply Hgr|by apply forgets_adjusts].
    + destruct (reheaped_calm _ _ Hre) as [Hca4 _]. destruct Hca1, Hca2, D1, Hca4, Hca5, Hca6. split; cbn in *; congruence.
    + destruct (reheaped_calm _ _ Hre) as [_ Ec4]. cbn in Ec4, D2. congruence.
  - pose proof (launch_ok _ _ _ _ _ Hg3) as Hg4.
    eapply or_abort_bind; [apply (fire_ok active triv g1 cxs l (join (owe_fns (operation_fns l)) (join (refs_only futs) t)) (with_flights (flights g1 ++ [a :: ch]) g1) (put_flight (in_flight p3 ++ [a]) p3) [] Hl); eapply good_perm; [|exact Hg4]; same|].
    intros p5 Hg5. apply or_abort_ok. split; [done|]. exists g1, (a :: ch). split_and!; [apply Hgr|done|].
    rewrite <- (ad_flights _ _ (gr_adjusts _ _ Hgr)). apply (observe_ok _ _ _ _ (operation_fns l ++ source_fns l)); [|by eapply settled_fns|done].
    eapply good_perm; [|exact Hg5]. same.
Qed.
End Rpc.

End Call.
End CompletionsRpc.
