(* ===== verification/CompletionsSystem.v ===== *)
(** Processes with completions: what holds in every state that they reach.

    User code, round-trip calls, the answers of recipients and bursts are calls of one type;
    a state is a process with what was observed of it.  No call touches memory that
    was freed, requirements on promises are exactly those that somebody will discharge, and
    when nothing is under way everything that was registered has happened. *)
From S2P Require Import Prelude FutureCore FutureInvariant FutureUpdates FutureSafety FutureSystem FutureFrame DistObject Completions CompletionsHeap CompletionsInvariant CompletionsCalls CompletionsRpc.

Module CompletionsSystem.
Import Futures Invariant Updates Operations System Frame Completions CompletionsHeap CompletionsInvariant CompletionsCalls CompletionsRpc.

(** * Calls *)

(** Each call comes with the personas that are active with its thread. *)
Inductive call :=
  | User (a : action)
  | Rpc (active : gset positive) (current : positive) (op_void : bool) (cxs : list cx) (throws : bool)
  | Answer (active : gset positive) (i : nat) (copyable : bool) (vals : val)
  | Burst (active : gset positive) (per : positive) (s : slot).

(** [mine] are the promises that users made and [share] what they still require of them; [given] are
    the futures that calls returned, by their promises; [registered] the functions that
    calls took. *)
Record state := mk_state {
  proc : process; mine : gset hid; share : gmap hid Z; given : gset hid; registered : list (positive * Z)
}.

Definition share_of (h : hid) (s : state) : Z := default 0 (share s !! h).

Definition promises (cxs : list cx) : list hid := omap (fun c => match c with PromiseCx _ _ h => Some h | _ => None end) cxs.

Definition put_roots (l : list hid) (p : process) : process := put_program (with_roots (program p) l) p.

(** User code runs outside of the loops that deplete the queue of active futures, or in a callback. *)
Definition can_call (p : process) : bool :=
  match running (program p), active (heap_of p) with None, Some _ => false | _, _ => true end.

(** What types guarantee: promises are operated on through promises of users. *)
Definition possible (c : call) (s : state) : bool :=
  match c with
  | User a => match effect a with Some (h, _) => bool_decide (h ∈ mine s) | None => true end
  | Rpc _ _ _ cxs _ => forallb well_typed cxs && forallb (fun h => bool_decide (h ∈ mine s)) (promises cxs) && can_call (proc s)
  | Answer _ _ _ _ | Burst _ _ _ => can_call (proc s)
  end.

(** Users fulfill no more than what they required. *)
Definition proper (c : call) (s : state) : bool :=
  match c with
  | User (FulfillAnonymous h n) => n <=? share_of h s
  | User (FulfillResult h _) | User (Finalize h) => 1 <=? share_of h s
  | _ => true
  end.

Definition observe_user (a : action) (s : state) (x : system) : state :=
  let p := put_program x (proc s) in
  match a with
  | NewPromise _ deps =>
      let h := next_h (heap_of (proc s)) in mk_state p ({[h]} ∪ mine s) (<[h := deps]> (share s)) (given s) (registered s)
  | _ =>
      match effect a with
      | Some (h, n) => mk_state p (mine s) (<[h := share_of h s + n]> (share s)) (given s) (registered s)
      | None => mk_state p (mine s) (share s) (given s) (registered s)
      end
  end.

Definition observe_rpc (cxs : list cx) (s : state) (r : outcome * process) : state :=
  match r with
  | (Returned futs, p) =>
      mk_state (put_roots (futs ++ roots (program p)) p) (mine s) (share s) (list_to_set futs ∪ given s) (registered s ++ rpc_fns cxs)
  | (Thrown, p) => mk_state p (mine s) (share s) (given s) (registered s)
  end.

Definition put_proc (p : process) (s : state) : state := mk_state p (mine s) (share s) (given s) (registered s).

Section Calls.
Context (seq_build : bool) (triv : hid -> bool).

Definition exec_call (c : call) (s : state) : option (res state) :=
  if possible c s then
    let p := proc s in
    match c with
    | User a => r ← exec a (program p); Some (fmap_res (observe_user a s) r)
    | Rpc active current op_void cxs throws =>
        l ← take_roots (promises cxs) (roots (program p));
        Some (fmap_res (observe_rpc cxs s) (rpc_internal active triv current op_void cxs throws (put_roots l p)))
    | Answer active i copyable vals =>
        a ← in_flight p !! i;
        Some (fmap_res (fun p => put_proc p s)
          (reply active seq_build triv copyable a vals (put_flight (delete i (in_flight p)) p)))
    | Burst active per sl =>
        '(x, l) ← take_task per sl (queues p);
        Some (fmap_res (fun p => put_proc p s) (exec_task active triv per x (put_queues l p)))
    end
  else None.

Definition step (s s' : state) : Prop := exists c, proper c s = true /\ exec_call c s = Some (Ok s').
Definition start : state := mk_state (mk_process init ∅ 1 [] ∅ ∅ [] []) ∅ ∅ ∅ [].
Definition reachable : state -> Prop := rtc step start.
End Calls.

(** * The invariant *)

Record agrees (g : ghost) (s : state) : Prop := {
  ag_mine : forall h, h ∈ mine s -> h ∈ known g /\ (h ∉ implicit g) /\ CompletionsInvariant.share_of h g = share_of h s;
  ag_given : CompletionsInvariant.given g = given s; ag_registered : CompletionsInvariant.registered g = registered s
}.

Definition ok (s : state) : Prop := exists g, good empty_hands g (proc s) /\ agrees g s.

Lemma start_ok : ok start.
Proof.
  exists (mk_ghost ∅ ∅ ∅ [] ∅ []). split; [|split; try done; cbn; set_solver].
  assert (Hd : forall h, decrements h (proc start) = 0) by done. split.
  - split; [exists ∅|cbn; set_solver]. exact init_sys_inv.
  - split; try done; [cbn; set_solver..|]. split; [constructor|]. intros h. rewrite Hd. change (queued (proc start)) with ([] : list hid).
    split_and!; [lia|split; [lia|by intros ?%elem_of_nil]|by intros ?%elem_of_nil].
  - split; try done. + intros per sl a. by intros ?%elem_of_nil. + intros a [c Hc]. done.
  - done.
  - done.
Qed.

(** The same heap with references in other hands *)
Lemma roots_good t t' g p l : good t g p -> (forall q, tokens (l ++ refs t') q = tokens (roots (program p) ++ refs t) q) ->
  owed t' = owed t -> chains t' = chains t -> undischarged t' = undischarged t -> lpcs t' = lpcs t -> fns t' = fns t ->
  good t' g (put_roots l p).
Proof.
  intros [G1 [] [] G4 G5] Hl Eo Ec Eu El Ef. split.
  - destruct (hg_inv _ _ _ _ G1) as [P HP]. eapply heap_good_ext; [|reflexivity| |].
    + apply (good_same G1 (fun _ => False) (held t' (put_roots l p)) (program (put_roots l p)) P _ HP (si_inv _ _ _ HP)); [done| |apply keeps_refl|done].
      intros q. cbn [roots more with_roots put_roots put_program program]. unfold held. rewrite !tokens_app. specialize (Hl q).
      rewrite !tokens_app in Hl. change (cell_held (put_roots l p)) with (cell_held p). change (queued (put_roots l p)) with (queued p). lia.
    + done.
    + intros h _. unfold required, owing. by rewrite Eo.
  - split; try done. by rewrite Eo.
  - split; try done; by rewrite Ec.
  - rewrite Eu. done.
  - rewrite El, Ef. done.
Qed.

(** ** User code *)

Definition with_known (k : gset hid) (sh : gmap hid Z) (g : ghost) : ghost :=
  mk_ghost k (implicit g) sh (flights g) (CompletionsInvariant.given g) (CompletionsInvariant.registered g).

(** A heap in which the promises and what is required of them are [k] and [sh]. *)
Lemma put_program_good t g p k sh x : good t g p -> known g ⊆ k ->
  heap_good k (fun h => default 0 (sh !! h) + owing t p h) (held t p) x ->
  (forall h, 0 <= default 0 (sh !! h)) -> (forall h, h ∈ implicit g -> default 0 (sh !! h) = 0) ->
  good t (with_known k sh g) (put_program x p).
Proof.
  intros [G1 [P1 P2 P3 P4 P5 [P6 P7]] [] G4 G5] Hk Hx Hs Hi. split; try done.
  split; try done; cbn.
  - intros h Hh. by apply Hk, P2.
  - intros h Hh. destruct (P3 h Hh). split; [by apply Hk|by apply Hi].
  - split; [done|]. intros h. destruct (P7 h) as (D1 & D2 & D3). split_and!; [done|done|]. intros Hq. by apply Hk, D3.
Qed.

Lemma require_positive h n st st' : require_anonymous h n st = Ok st' -> 0 <= n.
Proof.
  unfold require_anonymous. intros (x & _ & (c & _ & H)%bind_ok)%bind_ok. destruct (0 <? c); [|done]. cbn [assert_that mbind res_bind] in H.
  destruct (0 <=? n) eqn:E; [by apply Z.leb_le|done].
Qed.

(** What a user requires of a promise does not become negative. *)
Lemma share_nonneg a h n x x' s : effect a = Some (h, n) -> exec a x = Some (Ok x') -> proper (User a) s = true -> 0 <= share_of h s ->
  0 <= share_of h s + n.
Proof.
  intros He Hx Hp Hs. destruct a; try done; injection He as -> <-; cbn [proper] in Hp; [|lia..].
  assert (Hu : user_action (Require h n0) x = Some (Ok x')) by (unfold exec in Hx; by destruct (running x), (active (futures x)) as [[]|]).
  cbn [user_action] in Hu. apply bind_Some in Hu as (y & _ & Hu). injection Hu as Hu. apply fmap_res_ok in Hu as (st & E & _).
  apply require_positive in E. lia.
Qed.

Lemma new_promise_positive v deps x x' : exec (NewPromise v deps) x = Some (Ok x') -> 1 <= deps.
Proof.
  intros Hx. assert (Hu : user_action (NewPromise v deps) x = Some (Ok x')) by (unfold exec in Hx; by destruct (running x), (active (futures x)) as [[]|]).
  cbn [user_action] in Hu. injection Hu as Hu. apply fmap_res_ok in Hu as (st & E & _). unfold new_promise in E.
  destruct (1 <=? deps) eqn:Ed; [by apply Z.leb_le|done].
Qed.

Lemma user_ok s a r : ok s -> possible (User a) s = true -> proper (User a) s = true -> exec a (program (proc s)) = Some r ->
  or_abort (fmap_res (observe_user a s) r) ok.
Proof.
  intros (g & Hg & [A1 A2 A3]) Hpos Hp Hr.
  assert (Heff : forall h n, effect a = Some (h, n) -> h ∈ mine s) by (intros h n He; cbn in Hpos; rewrite He in Hpos; by apply bool_decide_eq_true in Hpos).
  destruct (user_exec_good a r (g_heap _ _ _ Hg)) as [->|(x & -> & Hx)]; [intros h n He; by apply A1, (Heff h n)|done|by left|].
  apply or_abort_ok. set (p := proc s) in *. set (h0 := next_h (heap_of p)).
  assert (Hfresh : h0 ∉ known g) by (intros Hin; destruct (hg_count _ _ _ _ (g_heap _ _ _ Hg) h0 Hin); unfold h0, heap_of in *; lia).
  assert (Hshare : forall h, 0 <= CompletionsInvariant.share_of h g) by apply (pr_share _ _ _ (g_promises _ _ _ Hg)).
  (* what changes: nothing, a promise of the user, or a new promise *)
  assert (Hsame : effect a = None -> (forall v deps, a <> NewPromise v deps) -> ok (mk_state (put_program x p) (mine s) (share s) (given s) (registered s))).
  { intros He Hn. exists (with_known (known g) (CompletionsInvariant.share g) g). split; [|by split].
    apply put_program_good; [exact Hg|done| |done|intros h Hh; by apply (pr_implicit _ _ _ (g_promises _ _ _ Hg))].
    unfold known_after, req_after in Hx. rewrite He in Hx. destruct a; try exact Hx. by destruct (Hn is_void deps). }
  assert (Hchange : forall h n, effect a = Some (h, n) -> ok (mk_state (put_program x p) (mine s) (<[h := share_of h s + n]> (share s)) (given s) (registered s))).
  { intros h n He. destruct (A1 h (Heff h n He)) as (Hk & Hi & Es). pose proof (share_nonneg a h n _ _ s He Hr Hp) as Hnn. rewrite <- Es in Hnn.
    exists (with_known (known g) (<[h := CompletionsInvariant.share_of h g + n]> (CompletionsInvariant.share g)) g). split.
    - apply put_program_good; [exact Hg|done| | |].
      + assert (Hx' : heap_good (known g) (bump (required empty_hands g p) h n) (held empty_hands p) x).
        { unfold known_after, req_after in Hx. rewrite He in Hx. by destruct a. }
        eapply heap_good_ext; [exact Hx'|done|done|]. intros q _. unfold required, bump. case_decide as Hq; [subst q|].
        * rewrite lookup_insert_eq. cbn. lia.
        * rewrite lookup_insert_ne by done. unfold CompletionsInvariant.share_of. lia.
      + intros q. destruct (decide (q = h)) as [->|]; [rewrite lookup_insert_eq; cbn; auto|]. rewrite lookup_insert_ne by done. apply Hshare.
      + intros q Hq. rewrite lookup_insert_ne by (intros ->; done). by apply (pr_implicit _ _ _ (g_promises _ _ _ Hg)).
    - split; try done. intros q Hq. destruct (A1 q Hq) as (? & ? & Eq). split_and!; [done..|]. unfold CompletionsInvariant.share_of, share_of. cbn.
      destruct (decide (q = h)) as [->|]; [rewrite !lookup_insert_eq; cbn; unfold CompletionsInvariant.share_of, share_of in Es; by rewrite Es|].
      rewrite !lookup_insert_ne by done. exact Eq. }
  destruct a; try (by apply Hsame); try (by apply Hchange). cbn [observe_user]. fold p h0. apply new_promise_positive in Hr as Hd.
  exists (with_known ({[h0]} ∪ known g) (<[h0 := deps]> (CompletionsInvariant.share g)) g). destruct (unknown_owing _ _ _ _ Hg Hfresh) as [Ho Hi]. split.
  - apply put_program_good; [exact Hg|set_solver| | |].
    + eapply heap_good_ext; [exact Hx|done|done|]. intros q _. cbn [req_after effect]. change (next_h (futures (program p))) with h0.
      case_decide as Hq; [subst q; rewrite lookup_insert_eq; cbn; lia|]. by rewrite lookup_insert_ne.
    + intros q. destruct (decide (q = h0)) as [->|]; [rewrite lookup_insert_eq; cbn; lia|]. rewrite lookup_insert_ne by done. apply Hshare.
    + intros q Hq. rewrite lookup_insert_ne by (intros <-; done). by apply (pr_implicit _ _ _ (g_promises _ _ _ Hg)).
  - split; try done. cbn. intros q Hq. unfold CompletionsInvariant.share_of, share_of. cbn. destruct (decide (q = h0)) as [->|Hne].
    + rewrite !lookup_insert_eq. split_and!; [set_solver|done|done].
    + rewrite !lookup_insert_ne by done. assert (Hq' : q ∈ mine s) by set_solver. destruct (A1 q Hq') as (? & ? & ?). split_and!; [set_solver|done|done].
Qed.

(** ** Calls *)

Lemma action_hands_promises cxs : same_hands (refs_only (promises cxs)) (join (sum (action_hands <$> cxs)) empty_hands).
Proof.
  induction cxs as [|c cxs [I1 I2 I3 I4 I5 I6]]; [by split|]. change (sum (action_hands <$> c :: cxs)) with (join (action_hands c) (sum (action_hands <$> cxs))).
  destruct c; split; cbn -[sum] in *; try done. by rewrite I1.
Qed.

Lemma take_promises_ok g p cxs l : good empty_hands g p -> take_roots (promises cxs) (roots (program p)) = Some l ->
  good (join (sum (action_hands <$> cxs)) empty_hands) g (put_roots l p).
Proof.
  intros Hg Hl. eapply good_perm; [apply action_hands_promises|]. eapply roots_good; [exact Hg| |done..].
  intros q. cbn [refs refs_only empty_hands]. rewrite app_nil_r, tokens_app, (take_roots_tokens _ _ _ q Hl). lia.
Qed.

Lemma agrees_adjusts g g' s p : adjusts g g' -> agrees g s -> agrees g' (put_proc p s).
Proof.
  intros [B1 B2 B3 B4] [A1 A2 A3]. split; cbn; [|congruence..]. intros h Hh. destruct (A1 h Hh) as (K & I & E).
  destruct (B1 h K I) as (? & ? & ?). split_and!; [done|done|by etransitivity].
Qed.

Lemma rpc_ok active triv s current op_void cxs throws l : ok s -> possible (Rpc active current op_void cxs throws) s = true ->
  take_roots (promises cxs) (roots (program (proc s))) = Some l ->
  or_abort (rpc_internal active triv current op_void cxs throws (put_roots l (proc s))) (fun r => ok (observe_rpc cxs s r) /\
    (forall p', r = (Thrown, p') -> calm (put_roots l (proc s)) p' /\ cells p' = cells (proc s)) /\ (r.1 = Thrown <-> throws = true)).
Proof.
  intros (g & Hg & Ha) Hpos Hl. apply andb_true_iff in Hpos as [[Ht Hm]%andb_true_iff _].
  eapply or_abort_mono; [|apply (rpc_internal_ok current op_void active triv empty_hands g); [by apply take_promises_ok|]].
  - intros [[futs|] p'] [-> H].
    + destruct H as (g1 & ch & Had & _ & Hg1). split; [|by split]. cbn [observe_rpc].
      eexists. split; [eapply (roots_good _ empty_hands); [exact Hg1| |done..]|].
      { intros q. cbn [refs refs_only empty_hands join]. rewrite !app_nil_r, !tokens_app. lia. }
      destruct (agrees_adjusts _ _ _ p' Had Ha) as [A1 A2 A3]. split; [exact A1|cbn; f_equal; exact A2|cbn; f_equal; exact A3].
    + destruct H as (g1 & Had & Hg1 & Hca & Ec). split; [|split; [|done]; intros q [= <-]; by split].
      exists g1. split; [exact Hg1|]. by eapply agrees_adjusts.
  - apply Forall_forall. intros c Hc. rewrite forallb_forall in Ht, Hm. split; [by apply Ht, list_elem_of_In|].
    destruct c as [| | |e eager h| |]; try done. cbn. assert (Hh : h ∈ mine s).
    { assert (Hb : bool_decide (h ∈ mine s) = true); [|by apply bool_decide_eq_true in Hb].
      apply Hm, list_elem_of_In, list_elem_of_omap. by exists (PromiseCx e eager h). }
    by destruct (ag_mine _ _ Ha h Hh) as (? & ? & _).
Qed.

Lemma reply_ok active seq triv copyable v s i a : ok s -> in_flight (proc s) !! i = Some a ->
  or_abort (reply active seq triv copyable a v (put_flight (delete i (in_flight (proc s))) (proc s))) (fun p' => ok (put_proc p' s)).
Proof.
  intros (g & Hg & Ha) Hi. destruct (land_ok _ _ _ _ _ Hg Hi) as (l & Hl). destruct (chain_nodup _ _ _ _ _ Hl) as [_ Hsize].
  eapply or_abort_mono; [|by eapply (awaken_ok active seq triv copyable v _ false _ _ _ _ l Hl)]. intros p' Hp'.
  eexists. split; [exact Hp'|]. by destruct Ha.
Qed.

Lemma run_task_ok active triv s per sl x l : ok s -> take_task per sl (queues (proc s)) = Some (x, l) ->
  or_abort (exec_task active triv per x (put_queues l (proc s))) (fun p' => ok (put_proc p' s)).
Proof.
  intros (g & Hg & Ha) Hl. eapply or_abort_mono; [|by eapply exec_task_ok]. intros p' Hp'. exists g. split; [exact Hp'|]. by destruct Ha.
Qed.

Section Theorems.
Context (seq_build : bool) (triv : hid -> bool).

Lemma call_ok s c r : ok s -> proper c s = true -> exec_call seq_build triv c s = Some r -> or_abort r ok.
Proof using Type.
  intros Hok Hp. unfold exec_call. destruct (possible c s) eqn:Hpos; [|done]. destruct c as [a|active current op_void cxs throws|active i copyable v|active per sl].
  - intros (r0 & Hr & [= <-])%bind_Some. by apply user_ok.
  - intros (l & Hl & [= <-])%bind_Some. eapply fmap_or_abort; [by eapply rpc_ok|]. intros x. by intros [? _].
  - intros (a & Hi & [= <-])%bind_Some. eapply fmap_or_abort; [by eapply reply_ok|done].
  - intros ([x l] & Hl & [= <-])%bind_Some. eapply fmap_or_abort; [by eapply run_task_ok|done].
Qed.

Lemma reachable_good s : reachable seq_build triv s -> ok s.
Proof using Type.
  intros Hs. apply (rtc_ind_r (fun s => ok s) start) in Hs; [done|apply start_ok|].
  intros s1 s2 _ (c & Hp & Hc) H1. destruct (call_ok s1 c _ H1 Hp Hc) as [|(s' & [= ->] & Hs')]; done.
Qed.

(** * Theorems *)

(** C36: In every state that a process with completions reaches, every call goes through without
    touching a freed promise or dormant callback: it succeeds or fails an assertion. *)
Theorem completions_safe s c r : reachable seq_build triv s -> proper c s = true -> exec_call seq_build triv c s = Some r ->
  (exists s', r = Ok s' /\ reachable seq_build triv s') \/ r = Aborted.
Proof using Type.
  intros Hs Hp Hr. destruct (call_ok s c r (reachable_good s Hs) Hp Hr) as [->|(s' & -> & _)]; [by right|left].
  exists s'. split; [done|]. eapply rtc_r; [exact Hs|]. by exists c.
Qed.

(** The requirements on promises that a process will discharge: one for each dormant callback
    that fulfills the promise, and those that wait in the queue. *)
Definition discharges (p : process) (h : hid) : Z := tokens (cell_held p) h + decrements h p.

Lemma countdown_spec s h x : ok s -> h ∈ mine s -> hs (heap_of (proc s)) !! h = Some x ->
  kind x = KPromise (share_of h s + discharges (proc s) h) /\ 0 <= share_of h s.
Proof using Type.
  intros (g & Hg & [A1 _ _]) Hh Hx. destruct (A1 h Hh) as (Hk & _ & Es). rewrite <- Es.
  split; [|apply (pr_share _ _ _ (g_promises _ _ _ Hg))]. destruct (hg_count _ _ _ _ (g_heap _ _ _ Hg) h Hk) as [_ Hc].
  rewrite (Hc x Hx). unfold required, owing, discharges. cbn. f_equal. lia.
Qed.

Lemma discharged_spec s per : ok s -> default 0 (undischarged_n_ (proc s) !! per) = 0.
Proof using Type. intros (g & Hg & _). apply (g_undischarged _ _ _ Hg). Qed.

(** C37: The countdown of a promise of a user is what the user requires of it and what the process
    will discharge. *)
Theorem countdown_exact s h x : reachable seq_build triv s -> h ∈ mine s -> hs (heap_of (proc s)) !! h = Some x ->
  kind x = KPromise (share_of h s + discharges (proc s) h) /\ 0 <= share_of h s.
Proof using Type. intros Hs%reachable_good. by apply countdown_spec. Qed.

(** C38: When no message is under way and all queues are empty, there is no dormant callback in memory,
    every future that a call returned is ready, and the functions that
    calls took have run, each once. *)
Theorem quiescent_calls_complete s : reachable seq_build triv s -> in_flight (proc s) = [] -> queues (proc s) = [] ->
  cells (proc s) = ∅ /\ registered s ≡ₚ (executed (proc s)).*1 /\
  forall h x, h ∈ given s -> hs (heap_of (proc s)) !! h = Some x -> status x = status_ready.
Proof using Type.
  intros (g & Hg & [A1 A2 A3])%reachable_good Hf Hq. pose proof Hg as [G1 G2 [C1 C2 C3 C4 C5] _ G5].
  assert (Efl : flights g = []) by (rewrite Hf in C2; by destruct (flights g)).
  assert (Ecells : cells (proc s) = ∅).
  { apply map_to_list_empty_iff. destruct (map_to_list (cells (proc s))); [done|]. exfalso.
    rewrite Efl in C3. unfold dormants in C3. rewrite Hq in C3. cbn in C3. by apply Permutation_nil_cons in C3. }
  split_and!; [done| |].
  - rewrite <- A3. cbn in G5. rewrite app_nil_r in G5. rewrite G5. unfold waiting_lpcs. rewrite Ecells, Hq. unfold cells_list.
    rewrite map_to_list_empty. cbn. by rewrite !app_nil_r.
  - intros h x Hh Hx. rewrite <- A2 in Hh. apply (pr_given _ _ _ G2) in Hh. destruct (pr_implicit _ _ _ G2 h Hh) as [Hk Hs].
    pose proof (proj2 (hg_count _ _ _ _ G1 h Hk) x Hx) as Hkind.
    assert (Hz : required empty_hands g (proc s) h = 0).
    { unfold required. rewrite Hs. unfold owing, cell_held. rewrite Ecells. unfold cells_list. rewrite map_to_list_empty. cbn.
      destruct (proj2 (pr_queue _ _ _ G2) h) as (D1 & D2 & _). unfold queued in D2. rewrite Hq in D2. cbn in D2.
      assert (~ 0 < decrements h (proc s)) by (intros ?%D2; by eapply elem_of_nil). lia. }
    rewrite Hz in Hkind. destruct (hg_inv _ _ _ _ G1) as [P HP]. pose proof (s_header _ _ (proj2 (si_inv _ _ _ HP)) h x Hx) as Hok.
    unfold header_ok in Hok. rewrite Hkind in Hok. destruct Hok as [_ Hok]. case_decide; [done|]. destruct Hok. lia.
Qed.

(** Between calls every callback that a persona took is discharged. *)
Theorem all_discharged s per : reachable seq_build triv s -> default 0 (undischarged_n_ (proc s) !! per) = 0.
Proof using Type. intros Hs%reachable_good. by apply discharged_spec. Qed.

(** C39: A call whose message could not be sent leaves dormant callbacks, queues and messages as they were,
    runs nothing, and leaves the countdowns of the promises of users as they were. *)
Theorem throw_restores s s' active current op_void cxs : reachable seq_build triv s ->
  exec_call seq_build triv (Rpc active current op_void cxs true) s = Some (Ok s') ->
  cells (proc s') = cells (proc s) /\ queues (proc s') = queues (proc s) /\ in_flight (proc s') = in_flight (proc s) /\
  executed (proc s') = executed (proc s) /\ registered s' = registered s /\ given s' = given s /\
  (forall per, default 0 (undischarged_n_ (proc s') !! per) = 0) /\
  forall h x x', h ∈ mine s -> hs (heap_of (proc s)) !! h = Some x -> hs (heap_of (proc s')) !! h = Some x' -> kind x' = kind x.
Proof using Type.
  intros Hs Hr. assert (Hs' : reachable seq_build triv s') by (eapply rtc_r; [exact Hs|]; by exists (Rpc active current op_void cxs true)).
  pose proof (reachable_good s Hs) as Hok. pose proof Hr as Hr0.
  unfold exec_call in Hr. destruct (possible _ s) eqn:Hpos; [|done]. apply bind_Some in Hr as (l & Hl & [= Hr]).
  destruct (rpc_ok active triv s current op_void cxs true l Hok Hpos Hl) as [E|(r & E & Hrok & Hthr & Ho)]; rewrite E in Hr; [done|].
  cbn in Hr. injection Hr as Hr. destruct r as [o p']. destruct o; [by destruct Ho as [_ Ho]; specialize (Ho eq_refl)|]. destruct (Hthr p' eq_refl) as [[C1 C2 C3 C4 _ _ _] Ec].
  cbn [observe_rpc] in Hr. subst s'. cbn [proc registered given] in *. split_and!; try done.
  - intros per. exact (discharged_spec _ per Hrok).
  - intros h x x' Hh Hx Hx'. destruct (countdown_spec _ h x Hok Hh Hx) as [-> _].
    destruct (countdown_spec _ h x' Hrok Hh Hx') as [-> _]. cbn [proc observe_rpc]. unfold discharges, cell_held, decrements.
    cbn in C2. by rewrite Ec, C2.
Qed.

End Theorems.
End CompletionsSystem.
