(* ===== verification/CompletionsRuns.v ===== *)
(** What answers and bursts do to queues, and runs of processes with completions.

    The dormant callbacks of a call are enqueued in the order of their list, each once, with
    the values that came; a burst leaves less to do than there was.  The runs are those
    of a call with a future, a promise and two functions of users. *)
From S2P Require Import Prelude FutureCore FutureInvariant FutureUpdates FutureSafety FutureSystem FutureFrame DistObject Completions CompletionsHeap CompletionsInvariant CompletionsCalls CompletionsRpc CompletionsSystem.

Module CompletionsRuns.
Import Futures Invariant Updates Operations System Frame Completions CompletionsHeap CompletionsInvariant CompletionsCalls CompletionsRpc CompletionsSystem.

(** * Answers *)

Section Answers.
Context (active : gset positive) (seq_build : bool) (triv : hid -> bool).

(** Where a dormant callback goes, and as what. *)
Definition awoken (m : gmap positive lpc_dormant) (a : positive) : list (positive * slot * task) :=
  match m !! a with
  | Some (mk_dormant _ per (QPromise h)) => [(per, if known_active active seq_build per then promise_slot triv h else PeerInbox, DeferredPromise h)]
  | Some (mk_dormant _ per (Fn _ _)) => [(per, if known_active active seq_build per then SelfInbox else PeerInbox, Dormant a)]
  | None => []
  end.

(** A callback that was awakened in memory *)
Definition with_results (v : val) (c : lpc_dormant) : option lpc_dormant :=
  match what c with QPromise _ => None | Fn fn _ => Some (mk_dormant (next_ c) (target_ c) (Fn fn (Some v))) end.

Lemma awaken_one_effect a c d v p p' : cells p !! a = Some c -> awaken_one active seq_build triv a c d v p = Ok p' ->
  queues p' = queues p ++ awoken (cells p) a /\ cells p' !! a = with_results v c /\
  in_flight p' = in_flight p /\ forall b, b <> a -> cells p' !! b = cells p !! b.
Proof using Type.
  intros Ha. unfold awaken_one, awoken, with_results. rewrite Ha. destruct c as [nx per [h|fn r]]; cbn [what target_ next_].
  - intros H. apply bind_ok in H as (p1 & [st ->]%lift_reheaped & (p2 & H2 & H3)%bind_ok). unfold enqueue_quiesced_promise in H2.
    apply bind_ok in H2 as (_ & _ & [= <-]). unfold delete_cell, cell_at in H3. apply bind_ok in H3 as (_ & _ & [= <-]). cbn.
    split_and!; [done|by map_lookups|done|]. intros b Hb. by map_lookups.
  - intros [= <-]. cbn. split_and!; [done|by map_lookups|done|]. intros b Hb. by map_lookups.
Qed.

(** What the results of a promise become, in either way. *)
Lemma read_effect (d : bool) h v st st' :
  (if d then construct_results h v st else read_into_future_header_result h v st) = Ok st' ->
  (forall q, q <> h -> hs st' !! q = hs st !! q) /\ exists x, hs st' !! h = Some x /\ (void x = false -> results x = Some v).
Proof using Type.
  intros H. assert (E : exists x, hs st !! h = Some x /\
    (if void x then st' = st else st' = put h (set_status status_results_yes (set_results (Some v) x)) st)).
  { destruct d; unfold construct_results, read_into_future_header_result, DistObjects.construct_results in H;
      apply bind_ok in H as (x & Hx%deref_ok & H); exists x; (split; [done|]); destruct (void x); try congruence.
    apply bind_ok in H as (y & Hy%deref_ok & (_ & _ & H)%bind_ok). congruence. }
  destruct E as (x & Hx & E). destruct (void x) eqn:Ev; subst st'.
  - split; [done|]. exists x. split; [done|]. congruence.
  - split; [intros q Hq; cbn; by rewrite lookup_insert_ne|]. eexists. cbn. rewrite lookup_insert_eq. done.
Qed.

Lemma awaken_one_promise a nx per h d v p p' : awaken_one active seq_build triv a (mk_dormant nx per (QPromise h)) d v p = Ok p' ->
  decrements h p = 0 /\ decrements h p' = 1 /\ (exists x, hs (heap_of p') !! h = Some x /\ (void x = false -> results x = Some v)) /\
  forall q, q <> h -> decrements q p' = decrements q p /\ hs (heap_of p') !! q = hs (heap_of p) !! q.
Proof using Type.
  unfold awaken_one. cbn [what target_]. intros (p1 & (st & Hst & [= <-])%bind_ok & H)%bind_ok.
  unfold enqueue_quiesced_promise in H. apply bind_ok in H as (p2 & H2 & H). apply bind_ok in H2 as (u & Hz & [= <-]).
  destruct (_ =? 0) eqn:Ez in Hz; [|done]. apply Z.eqb_eq in Ez. rename Ez into Hz0.
  unfold delete_cell in H. apply bind_ok in H as (_ & _ & [= <-]).
  assert (Hr : (if d then construct_results h v (heap_of p) else read_into_future_header_result h v (heap_of p)) = Ok st) by (by destruct d).
  destruct (read_effect d h v _ _ Hr) as [Ho (x & Hx & Hv)]. unfold decrements in *. cbn in *. split_and!.
  - exact Hz0.
  - by rewrite lookup_insert_eq.
  - by exists x.
  - intros q Hq. rewrite lookup_insert_ne by done. split; [done|]. by apply Ho.
Qed.

Lemma awaken_one_promised a c d v p p' h : decrements h p = 1 -> awaken_one active seq_build triv a c d v p = Ok p' ->
  decrements h p' = 1 /\ hs (heap_of p') !! h = hs (heap_of p) !! h.
Proof using Type.
  intros Hd H. destruct c as [nx per [h'|fn r]].
  - destruct (awaken_one_promise _ _ _ _ _ _ _ _ H) as (Hz & _ & _ & Ho). destruct (Ho h) as [-> ->]; [intros ->; lia|done].
  - unfold awaken_one in H. cbn [what] in H. by injection H as <-.
Qed.

Lemma awaken_promised copyable v h fuel : forall d a p p', decrements h p = 1 -> awaken active seq_build triv fuel copyable d a v p = Ok p' ->
  decrements h p' = 1 /\ hs (heap_of p') !! h = hs (heap_of p) !! h.
Proof using Type.
  induction fuel as [|fuel IH]; intros d a p p' Hd; [done|]. cbn [awaken]. intros (c & _ & (p1 & H1 & H2)%bind_ok)%bind_ok.
  destruct (awaken_one_promised _ _ _ _ _ _ _ Hd H1) as [Hd1 E1]. destruct (next_ c) as [a'|]; [|by injection H2 as <-].
  destruct copyable; [|done]. destruct (IH _ _ _ _ Hd1 H2) as [? E2]. split; [done|]. by rewrite E2.
Qed.

Lemma awoken_ne m m' l : (forall b, b ∈ l -> m' !! b = m !! b) -> l ≫= awoken m' = l ≫= awoken m.
Proof using Type.
  induction l as [|b l IH]; intros H; [done|]. cbn. rewrite IH by (intros; apply H; by right). f_equal.
  unfold awoken. by rewrite H by left.
Qed.

Lemma linked_ne m m' l : (forall b, b ∈ l -> m' !! b = m !! b) -> linked m l -> linked m' l.
Proof using Type.
  induction l as [|b l IH]; intros H; [done|]. cbn. rewrite H by left. intros [? ?]. split; [done|]. apply IH; [|done]. intros; apply H; by right.
Qed.

(** The promises of a list of callbacks have the values, and are to be fulfilled once. *)
Lemma awaken_promises copyable v fuel : forall d l a p p', linked (cells p) (a :: l) -> NoDup (a :: l) ->
  awaken active seq_build triv fuel copyable d a v p = Ok p' ->
  forall b nx per h, b ∈ a :: l -> cells p !! b = Some (mk_dormant nx per (QPromise h)) ->
  decrements h p' = 1 /\ exists x, hs (heap_of p') !! h = Some x /\ (void x = false -> results x = Some v).
Proof using Type.
  induction fuel as [|fuel IH]; intros d l a p p'; [done|]. cbn [linked awaken]. intros [(c & Ha & Hn) Hl] [Hal Hnd]%NoDup_cons.
  unfold cell_at. rewrite Ha. mcbn. intros (p1 & H1 & H2)%bind_ok b nx per h Hb Hc.
  destruct (awaken_one_effect a c _ v p p1 Ha H1) as (_ & _ & _ & O1).
  apply elem_of_cons in Hb as [->|Hb].
  - assert (c = mk_dormant nx per (QPromise h)) as -> by congruence. destruct (awaken_one_promise _ _ _ _ _ _ _ _ H1) as (_ & Hd & Hx & _).
    cbn [next_] in H2. destruct nx as [a'|]; [|by injection H2 as <-]. destruct copyable; [|done].
    destruct (awaken_promised _ _ _ _ _ _ _ _ Hd H2) as [? ->]. done.
  - assert (Hsame : forall b, b ∈ l -> cells p1 !! b = cells p !! b) by (intros b' Hb'; apply O1; set_solver).
    rewrite Hn in H2. destruct l as [|a' l]; [by apply elem_of_nil in Hb|]. cbn [head] in H2. destruct copyable; [|done].
    eapply (IH _ l a' p1); [by eapply linked_ne|done|exact H2|exact Hb|]. by rewrite Hsame.
Qed.

Lemma awaken_effect copyable v fuel : forall d l a p p', linked (cells p) (a :: l) -> NoDup (a :: l) ->
  awaken active seq_build triv fuel copyable d a v p = Ok p' ->
  queues p' = queues p ++ ((a :: l) ≫= awoken (cells p)) /\
  (forall b c, b ∈ a :: l -> cells p !! b = Some c -> cells p' !! b = with_results v c) /\
  in_flight p' = in_flight p /\ forall b, b ∉ a :: l -> cells p' !! b = cells p !! b.
Proof using Type.
  induction fuel as [|fuel IH]; intros d l a p p'; [done|]. cbn [linked awaken]. intros [(c & Ha & Hn) Hl] [Hal Hnd]%NoDup_cons.
  unfold cell_at. rewrite Ha. mcbn. intros (p1 & H1 & H2)%bind_ok. destruct (awaken_one_effect a c _ v p p1 Ha H1) as (Q1 & E1 & F1 & O1).
  assert (Hsame : forall b, b ∈ l -> cells p1 !! b = cells p !! b) by (intros b Hb; apply O1; set_solver).
  rewrite Hn in H2. destruct l as [|a' l]; cbn [head] in H2.
  - injection H2 as <-. split_and!; [cbn; by rewrite app_nil_r| | |].
    + intros b e ->%list_elem_of_singleton Hd. congruence.
    + exact F1.
    + intros b Hb. apply O1. set_solver.
  - destruct copyable; [|done]. destruct (IH (d || true) l a' p1 p') as (Q2 & E2 & F2 & O2); [by eapply linked_ne|done|done|].
    split_and!.
    + rewrite Q2, Q1, <- app_assoc, (awoken_ne (cells p)) by done. done.
    + intros b e [->|Hb]%elem_of_cons Hd; [rewrite O2 by done; congruence|]. apply E2; [done|]. by rewrite Hsame.
    + congruence.
    + intros b Hb. rewrite O2 by set_solver. apply O1. set_solver.
Qed.
End Answers.

Section Theorems.
Context (seq_build : bool) (triv : hid -> bool).

(** C40: An answer enqueues the dormant callbacks of its call in the order of their list, each once,
    with the values of the answer: those that run functions keep them; the others are gone, and
    their promises have the values as results and one fulfillment to apply.  No other callback is
    touched. *)
Theorem answer_awakens s s' active i copyable v a : reachable seq_build triv s -> in_flight (proc s) !! i = Some a ->
  exec_call seq_build triv (Answer active i copyable v) s = Some (Ok s') ->
  exists l, linked (cells (proc s)) (a :: l) /\ NoDup (a :: l) /\
    queues (proc s') = queues (proc s) ++ ((a :: l) ≫= awoken active seq_build triv (cells (proc s))) /\
    in_flight (proc s') = delete i (in_flight (proc s)) /\
    (forall b c, b ∈ a :: l -> cells (proc s) !! b = Some c -> cells (proc s') !! b = with_results v c) /\
    (forall b nx per h, b ∈ a :: l -> cells (proc s) !! b = Some (mk_dormant nx per (QPromise h)) ->
      decrements h (proc s') = 1 /\ exists x, hs (heap_of (proc s')) !! h = Some x /\ (void x = false -> results x = Some v)) /\
    forall b, b ∉ a :: l -> cells (proc s') !! b = cells (proc s) !! b.
Proof using Type.
  intros (g & Hg & _)%reachable_good Hi Hr. unfold exec_call in Hr. destruct (possible _ s); [|done]. rewrite Hi in Hr. cbn [mbind option_bind] in Hr.
  injection Hr as Hr. apply fmap_res_ok in Hr as (p' & Hp' & ->). cbn [proc put_proc].
  destruct (land_ok _ _ _ _ _ Hg Hi) as (l & Hl). pose proof (g_cells _ _ _ Hl) as Hc. exists l.
  assert (Hlink : linked (cells (proc s)) (a :: l)).
  { pose proof (ce_linked _ _ _ Hc) as Hall. cbn in Hall. rewrite Forall_app, Forall_cons in Hall. apply Hall. }
  assert (Hnd : NoDup (a :: l)).
  { pose proof (callbacks_nodup _ _ _ Hc) as Hall. cbn [chains chain concat] in Hall. apply NoDup_app in Hall as (_ & _ & Hall).
    rewrite <- app_assoc in Hall. by apply NoDup_app in Hall as (Hall & _ & _). }
  destruct (awaken_effect active seq_build triv copyable v _ false l a (put_flight (delete i (in_flight (proc s))) (proc s)) p' Hlink Hnd Hp') as (Q & E & F & O). cbn [cells queues put_flight] in Q, E, F, O.
  split_and!; [done..| |done].
  exact (awaken_promises active seq_build triv copyable v _ false l a (put_flight (delete i (in_flight (proc s))) (proc s)) p' Hlink Hnd Hp').
Qed.

(** * Bursts *)

(** How many bursts a callback takes at most: one that fulfills a promise defers that. *)
Definition weight (x : positive * slot * task) : Z := match x.2 with Dormant _ => 2 | _ => 1 end.
Definition work (p : process) : Z := lsum weight (queues p).

Lemma lift_queues f p p' : lift f p = Ok p' -> queues p' = queues p.
Proof using Type. by intros [st ->]%lift_reheaped. Qed.

Lemma during_work active per h n p p' : fulfill_during_user_of_active active triv per h n p = Ok p' -> work p' <= work p + 1.
Proof using Type.
  unfold fulfill_during_user_of_active. intros (_ & _ & H)%bind_ok. cbn zeta in H. destruct (n =? _).
  - injection H as <-. unfold work, enqueue. cbn. rewrite lsum_app. cbn. lia.
  - apply lift_queues in H. unfold work. rewrite H. cbn. lia.
Qed.

Lemma closure_work active per fn v p p' : run_closure active triv per fn v p = Ok p' -> work p' <= work p + 1.
Proof using Type.
  destruct fn; cbn [run_closure].
  - intros (q & Hq%lift_queues & H)%bind_ok. apply during_work in H. unfold work in *. by rewrite Hq in H.
  - apply during_work.
  - intros [= <-]. unfold work. cbn. lia.
Qed.

Lemma exec_task_work active per x p p' : exec_task active triv per x p = Ok p' -> work p' < work p + weight (per, SelfInbox, x).
Proof using Type.
  destruct x as [a|fn v|h]; cbn [exec_task].
  - intros (c & _ & H)%bind_ok. destruct (what c) as [|fn r]; [done|]. apply bind_ok in H as (v & _ & (q & Hq & H)%bind_ok).
    apply closure_work in Hq. unfold delete_cell in H. apply bind_ok in H as (_ & _ & [= <-]). unfold work in *. cbn in *. lia.
  - intros [= <-]. unfold work. cbn. lia.
  - intros H%lift_queues. unfold work. rewrite H. cbn. lia.
Qed.

(** A run of bursts *)
Fixpoint bursts (l : list (gset positive * positive * slot)) (s : state) : option (res state) :=
  match l with
  | [] => Some (Ok s)
  | (active, per, sl) :: l => match exec_call seq_build triv (Burst active per sl) s with Some (Ok s) => bursts l s | r => r end
  end.

(** Bursts come to an end: at most two for each callback in the queues; and as long as something is
    in them, there is a burst. *)
Theorem bursts_terminate l s s' : bursts l s = Some (Ok s') -> (length l <= 2 * length (queues (proc s)))%nat /\
  (can_call (proc s') = true -> queues (proc s') <> [] -> exists per sl r, exec_call seq_build triv (Burst ∅ per sl) s' = Some r).
Proof using Type.
  intros H. split.
  2:{ intros Hc Hq. destruct (queues (proc s')) as [|[[per sl] x] q] eqn:E; [done|]. exists per, sl. unfold exec_call. cbn [possible].
      rewrite Hc, E. cbn [take_task]. rewrite decide_True by done. by eexists. }
  assert (Hw : Z.of_nat (length l) <= work (proc s)).
  - revert s H. induction l as [|[[active per] sl] l IH]; intros s; cbn [bursts length].
    + intros _. unfold work. apply lsum_nonneg. intros [[? ?] []]; cbn; lia.
    + destruct (exec_call _ _ _ s) as [[s1| | |]|] eqn:E; try done. intros H. specialize (IH s1 H).
      unfold exec_call in E. destruct (possible _ s); [|done]. apply bind_Some in E as ([x k] & Hk%take_task_perm & E).
      injection E as E. apply fmap_res_ok in E as (p' & E%exec_task_work & ->). cbn [proc put_proc] in IH.
      assert (work (proc s) = work (put_queues k (proc s)) + weight (per, sl, x)).
      { unfold work. cbn [queues put_queues]. clear -Hk. revert Hk. generalize (queues (proc s)). intros l0 Hp.
        assert (Hperm : forall l1 l2, l1 ≡ₚ l2 -> lsum weight l1 = lsum weight l2) by (induction 1; cbn; lia).
        rewrite (Hperm _ _ Hp). cbn. lia. }
      unfold weight in *. cbn [snd] in *. lia.
  - assert (work (proc s) <= 2 * Z.of_nat (length (queues (proc s)))); [|lia]. unfold work. clear. induction (queues (proc s)) as [|x l IH]; [done|].
    cbn [lsum length]. unfold weight at 1. destruct x as [? []]; cbn [snd]; lia.
Qed.

End Theorems.

(** * Runs *)

(** On a thread with the persona 1; results of promises are trivial to destroy. *)
Abbreviation exec_here := (exec_call true (fun _ => true)).

Fixpoint play (l : list call) (s : state) : option state :=
  match l with
  | [] => Some s
  | c :: l => if proper c s then match exec_here c s with Some (Ok s) => play l s | _ => None end else None
  end.

Definition after (l : list call) : state := default start (play l start).

Lemma play_rtc l : forall s0 s s', rtc (step true (fun _ => true)) s0 s -> play l s = Some s' -> rtc (step true (fun _ => true)) s0 s'.
Proof.
  induction l as [|c l IH]; intros s0 s s' Hs; cbn [play]; [by intros [= <-]|]. destruct (proper c s) eqn:Hp; [|done].
  destruct (exec_here c s) as [[s1| | |]|] eqn:E; try done. apply IH. eapply rtc_r; [exact Hs|]. by exists c.
Qed.

Lemma play_reachable l : match play l start with Some _ => true | None => false end = true -> reachable true (fun _ => true) (after l).
Proof.
  intros H. unfold after. destruct (play l start) as [s|] eqn:E; [|done]. eapply play_rtc; [apply rtc_refl|exact E].
Qed.

(** A promise [1], and a call with it for the source event, a future for the values, and a function for
    each event; the persona 2 is another thread's. *)
Definition made : list call := [User (NewPromise true 1); User (Copy 1%nat)].
Definition actions : list cx := [FutureCx Operation true; PromiseCx Source false 1%nat; LpcCx Operation 1%positive 7; LpcCx Source 2%positive 8].
Definition here : gset positive := {[1%positive]}.
Definition round_trip (throws : bool) : call := Rpc here 1%positive false actions throws.
Definition sent : list call := made ++ [round_trip false].
Definition answered : list call := sent ++ [Answer here 0%nat true [5]].
Definition done_here : list call := answered ++ [Burst here 1%positive ProsDeferredTrivial; Burst here 1%positive ProsDeferredTrivial; Burst here 1%positive SelfInbox].
Definition all_done : list call := done_here ++ [Burst {[2%positive]} 2%positive PeerInbox].

Definition header (s : state) (h : hid) : future_header := default (mk_header 0 0 [] (Body O) KDependent false None) (hs (heap_of (proc s)) !! h).

Example all_done_values : executed (proc (after all_done)) = [(1%positive, 7, [5]); (2%positive, 8, [])] /\
  results (header (after all_done) 2%nat) = Some [5] /\ kind (header (after all_done) 1%nat) = KPromise 1.
Proof. vm_compute. split_and!; reflexivity. Qed.

Lemma completions_safe_witness : exec_here (round_trip false) (after made) = Some (Ok (after sent)) /\
  ((exists s', Ok (after sent) = Ok s' /\ reachable true (fun _ => true) s') \/ (Ok (after sent) : res state) = Aborted).
Proof.
  split; [vm_compute; reflexivity|]. apply (completions_safe true (fun _ => true) (after made) (round_trip false));
    [apply play_reachable; vm_compute; reflexivity|vm_compute; reflexivity|vm_compute; reflexivity].
Defined.

Lemma countdown_exact_witness : kind (header (after sent) 1%nat) = KPromise (1 + discharges (proc (after sent)) 1%nat) /\
  discharges (proc (after sent)) 1%nat = 1 /\ 0 <= 1.
Proof.
  assert (H : kind (header (after sent) 1%nat) = KPromise (share_of 1%nat (after sent) + discharges (proc (after sent)) 1%nat) /\
    0 <= share_of 1%nat (after sent)).
  { apply (countdown_exact true (fun _ => true) (after sent) 1%nat (header (after sent) 1%nat));
      [apply play_reachable; vm_compute; reflexivity|apply (bool_decide_eq_true_1 _); vm_compute; reflexivity|vm_compute; reflexivity]. }
  destruct H as [H1 H2]. split; [exact H1|]. split; [vm_compute; reflexivity|exact H2].
Defined.

Lemma quiescent_calls_complete_witness : registered (after all_done) = [(1%positive, 7); (2%positive, 8)] /\
  cells (proc (after all_done)) = ∅ /\ registered (after all_done) ≡ₚ (executed (proc (after all_done))).*1 /\
  forall h x, h ∈ given (after all_done) -> hs (heap_of (proc (after all_done))) !! h = Some x -> status x = status_ready.
Proof.
  split; [vm_compute; reflexivity|]. apply (quiescent_calls_complete true (fun _ => true) (after all_done));
    [apply play_reachable; vm_compute; reflexivity|vm_compute; reflexivity|vm_compute; reflexivity].
Defined.

Lemma throw_restores_witness : kind (header (after (made ++ [round_trip true])) 1%nat) = KPromise 1 /\
  cells (proc (after (made ++ [round_trip true]))) = ∅.
Proof.
  assert (Hr : reachable true (fun _ => true) (after made)) by (apply play_reachable; vm_compute; reflexivity).
  destruct (throw_restores true (fun _ => true) (after made) (after (made ++ [round_trip true])) here 1%positive false actions Hr) as (E & _ & _ & _ & _ & _ & _ & Hk);
    [vm_compute; reflexivity|]. split; [|rewrite E; vm_compute; reflexivity].
  rewrite (Hk 1%nat (header (after made) 1%nat) (header (after (made ++ [round_trip true])) 1%nat)); [vm_compute; reflexivity| |vm_compute; reflexivity..].
  apply (bool_decide_eq_true_1 _). vm_compute. reflexivity.
Defined.

Lemma answer_awakens_witness : exists l, linked (cells (proc (after sent))) (2%positive :: l) /\ NoDup (2%positive :: l) /\
  queues (proc (after answered)) = queues (proc (after sent)) ++ ((2%positive :: l) ≫= awoken here true (fun _ => true) (cells (proc (after sent)))) /\
  in_flight (proc (after answered)) = delete 0%nat (in_flight (proc (after sent))) /\
  (forall b c, b ∈ 2%positive :: l -> cells (proc (after sent)) !! b = Some c -> cells (proc (after answered)) !! b = with_results [5] c) /\
  (forall b nx per h, b ∈ 2%positive :: l -> cells (proc (after sent)) !! b = Some (mk_dormant nx per (QPromise h)) ->
    decrements h (proc (after answered)) = 1 /\
    exists x, hs (heap_of (proc (after answered))) !! h = Some x /\ (void x = false -> results x = Some [5])) /\
  forall b, b ∉ 2%positive :: l -> cells (proc (after answered)) !! b = cells (proc (after sent)) !! b.
Proof.
  apply (answer_awakens true (fun _ => true) (after sent) (after answered) here 0 true [5] 2%positive);
    [apply play_reachable; vm_compute; reflexivity|vm_compute; reflexivity|vm_compute; reflexivity].
Defined.

Lemma bursts_terminate_witness : let l := [(here, 1%positive, ProsDeferredTrivial); (here, 1%positive, ProsDeferredTrivial); (here, 1%positive, SelfInbox)] in
  (length l <= 2 * length (queues (proc (after answered))))%nat /\
  (can_call (proc (after done_here)) = true -> queues (proc (after done_here)) <> [] ->
    exists per sl r, exec_here (Burst ∅ per sl) (after done_here) = Some r).
Proof. apply (bursts_terminate true (fun _ => true)). vm_compute. reflexivity. Defined.

End CompletionsRuns.
